(* ===== verification/_CoqProject ===== *)
-Q . S2P
Prelude.v
Result.v
Permute.v
Config.v
IntUtil.v
Keccak.v
Varint.v
Base58.v
Difficulty.v
BlockReward.v
HardFork.v
TreeHash.v
Serialization.v
Transaction.v
TxExtra.v
TxHash.v
Limbs.v
Primality.v
Scalar.v
Fe.v
Ge.v
Curve.v
Points.v
HashPoint.v
Recode.v
ScalarMult.v
BaseData.v
BaseTable.v
Order.v
Multiples.v
Crypto.v
RingSig.v
RctOps.v
RangeProof.v
Mlsag.v
RctSigs.v
Account.v
TxBuild.v
TxCheck.v
TxAccept.v
Address.v
MinerTx.v
Database.v
TxPool.v
Blockchain.v
