(* ===== verification/Prelude.v ===== *)
(** * Verification of the Ryo currency node

    The program.  A node of a CryptoNote currency (C and C++).  Its parts that
    this library models: hashing (src/crypto/keccak.c, hash.c, tree-hash.c);
    integers and encodings (src/common/int-util.h, varint.h, base58.cpp,
    apply_permutation.h); the binary archives and the structures they carry
    (src/serialization, src/cryptonote_basic/cryptonote_basic.h,
    src/ringct/rctTypes.h); the extra field, the identifiers and the checks of
    transactions and blocks (src/cryptonote_basic/tx_extra.h,
    cryptonote_format_utils.cpp); addresses and accounts
    (cryptonote_basic_impl.cpp, account.cpp); the rules of the chain
    (difficulty.cpp, cryptonote_basic_impl.cpp, hardfork.cpp,
    cryptonote_config.h); the elliptic curve (src/crypto/crypto-ops.c,
    crypto-ops-data.c); keys and signatures (src/crypto/crypto.cpp); confidential
    transactions (src/ringct/rctOps.cpp, rctSigs.cpp, with the software device of
    src/device/device_default.cpp); the construction of transactions
    (src/cryptonote_core/cryptonote_tx_utils.cpp); the database
    (src/blockchain_db/blockchain_db.cpp, lmdb/db_lmdb.cpp); the pool
    (src/cryptonote_core/tx_pool.cpp); and the acceptance of transactions and
    blocks (cryptonote_core.cpp, blockchain.cpp, src/checkpoints).  Paths in the
    files of this library are relative to the source tree src/ of the repository,
    whose files are under src/src/ and src/contrib/.

    How the parts interact.  A sender builds a transaction from outputs found by
    their account; it carries confidential signatures made of range proofs and
    ring signatures over curve points, is serialized by the archives and hashed
    to its identifier.  A node checks it over the chain and keeps it in the pool.
    A block holds a miner transaction and the identifiers of others under a Merkle
    root; it is accepted by its proof of work, its time, the version the fork
    schedule demands, the reward it claims and the transactions it takes out of
    the pool, and is written to the database, from which it can be popped again.

    How code becomes Rocq.  A w-bit integer is a Z with its wrap-around written
    out (wrap, swrap); signed words that must not overflow have no result (None)
    when they do.  Bytes are lists of Z below 256.  A C or C++ function is a
    Definition or Fixpoint of the same name.  Undefined behaviour, an array access
    out of range, an abort and a failed assert (asserted) are None, and theorems
    say when that happens; in Crypto and the files over it the argument debug says
    whether the build has the asserts of crypto.cpp.  A function that returns
    false or throws returns a sum or an option inside (Result).  Loops that end
    after a bounded number of rounds recurse on that bound, the others on fuel
    that a theorem shows to be enough: a count of digits for write_varint,
    encode_block, d2h and d2b (64-bit numbers), the length of the input for keccak
    and the parser of the extra field, the rounds that the assert count <= 2^28
    leaves for tree_hash, the length of a permutation for its cycles, the number
    of columns for MLSAG_Gen, the answers of the generator for random_scalar.
    Random bytes are a list of answers, consumed in the order of the calls; draw n
    says that n random scalars can be drawn from it.  The hash function is the
    class FastHash (32-byte digests): keccak_fast_hash of Keccak is the instance
    of the program, and theorems hold for every instance.

    The files, in the order of their dependencies:
    - Prelude: machine integers, bytes, digits, options, asserts, lists; the
      tactics go, by_eval and dlia, and the hint databases.
    - Result: the monad of functions that can fail.  Permute: apply_permutation
      and ring offsets.  Config: networks, fork features and constants.
    - IntUtil, Keccak, Varint, Base58: int-util.h, keccak.c with cn_fast_hash,
      varint.h, base58.cpp.  The arithmetic is exact; keccak with the digest sizes
      whose rate is a multiple of 8 bytes is the sponge of FIPS 202, defined on
      its own, with the original padding; varints and base58 blocks round-trip,
      and base58 accepts only canonical texts.
    - Difficulty: check_hash is the 256-bit comparison; the four algorithms
      compute their specifications on every branch; interpolated timestamps
      increase.
    - BlockReward: get_block_reward with its penalty, errors and asserts, bounds
      of the emission, totals of the development fund.
    - HardFork: the class HardFork as a state machine over a chain; along every
      sequence of added blocks and reorganizations the versions follow the
      schedule of the network.
    - TreeHash: the in-place loops compute the Merkle root for every list the
      asserts admit; different lists of the same length have different roots
      unless two hashed strings collide.
    - Serialization, Transaction: archives, transactions and blocks; what is
      written is read back, and what is read is well formed.
    - TxExtra, TxHash: the extra field (built fields are parsed, removal removes
      exactly a type), identifiers (binding up to collisions) and their cache.
    - Limbs, Primality: words and straight-line limb code with a verified
      interval analysis; 2^255 - 19 and the group order are primes.
    - Scalar, Fe, Ge, BaseData: the sc_, fe_ and ge_ functions and the tables of
      crypto-ops-data.c.  No word overflows; scalars are exact residues; field
      operations are those of the field.
    - Curve, Points, HashPoint: the affine curve is a group, the ge_ operations
      compute its law completely, encodings are unique and exactly the encodings
      of points are read; hashing to a point is total.
    - Recode, ScalarMult, BaseTable, Order, Multiples: digits, windows and tables;
      every multiplication returns the multiple of the group; the tables are
      right; the curve has exponent 8 l.
    - Crypto, RingSig: crypto.cpp.  Derivations agree, derived keys match,
      signatures, transaction proofs and ring signatures that are made are
      accepted; check_signature accepts exactly the valid ones; a public key has
      one key image, and a common image of two keys gives the discrete logarithm
      between the hashes of the keys.
    - RctOps, RangeProof, Mlsag, RctSigs: rctOps.cpp and rctSigs.cpp.  A balanced
      transaction of spendable inputs is signed, passes both verifications and is
      decoded by its recipients (simple and full type); openings of an accepted
      transaction whose sums differ give the discrete logarithm of H.
    - Account: accounts, subaddresses and the recognition of outputs; what is sent
      to an address is found and can be spent by its owner.
    - TxBuild: construct_tx_with_tx_key with Borromean proofs builds a transaction
      that verifies and whose recipients find and can spend their outputs.
    - TxCheck, TxAccept: check_tx_semantic, check_tx_outputs and check_tx_inputs.
      check_tx_semantic accepts exactly what its specification says; what
      check_tx_inputs accepts spends unspent images over rings of the chain; a
      built transaction passes all of them.
    - Address: address texts; the parser accepts exactly the texts of its
      specification and inverts the printers.
    - MinerTx: construct_miner_tx and the validation of miner transactions; the
      fund is paid exactly its due and the miner at most reward and fees.
    - Database: the tables and their exceptions; add_block keeps them consistent
      and pop_block is its inverse.
    - TxPool: the pool as a state machine with its invariant, the rule by which a
      relayed transaction is accepted, and block templates.
    - Blockchain: handle_block_to_main_chain, popping and rolling back.  Accepted
      blocks satisfy every rule, and the whole chain does along every sequence of
      these operations.

    Hypotheses.  Theorems about hashes that bind state the collision as an
    alternative in the conclusion.  The theorems on signatures assume that the
    generator answers enough scalars and, for MLSAG, that no key hashes to the
    neutral element (the verifier rejects such a key); examples show that the
    hypotheses can hold.  Code outside the model is an argument of the definitions
    that use it, without any law: the prover and verifier of bulletproofs, the
    proof-of-work hash, the clock, the tables of hashes and outputs that threads
    prepare before blocks are added, and whether the database is in a batch.

    Not modelled.  Bulletproofs and multi-exponentiation; the proof-of-work hashes
    (AES and floating point instructions), the other hash functions, ChaCha, the
    random generator and the 64-bit curve arithmetic in assembly; alternative
    chains and the switch to them, which a floating point test of a Poisson
    distribution guards; compiled-in block hashes, which the configuration turns
    off; the queries of the database and the chain for RPC, and the growth and
    migration of database files; network, RPC, daemon, miner threads, wallets,
    hardware devices, operating system utilities; third-party code.  These are
    input and output, concurrency with the outside, or code whose behaviour
    depends on the hardware.  Of the modelled files, the locks, logging, debug
    printing, JSON archives, and functions for tests are left out. *)

From Stdlib Require Export Ascii String.
From stdpp Require Export prelude.
From Stdlib Require Export ZArith Lia.
Global Open Scope Z_scope.

(** ** Machine integers

    A [w]-bit unsigned integer is a [Z] in [[0, 2^w)]; every arithmetic
    operation of the source that can overflow is followed by [wrap w]. *)

Definition wrap (w x : Z) : Z := x mod 2 ^ w.
Definition fits (w x : Z) : Prop := 0 <= x < 2 ^ w.

(** The two's complement reading of the low [w] bits. *)
Definition swrap (w x : Z) : Z := (x + 2 ^ (w - 1)) mod 2 ^ w - 2 ^ (w - 1).

#[global] Instance fits_dec w x : Decision (fits w x).
Proof. unfold fits. apply _. Defined.

Abbreviation u8 := (wrap 8).
Abbreviation u32 := (wrap 32).
Abbreviation u64 := (wrap 64).
Abbreviation i64 := (swrap 64).

Lemma wrap_range w x : 0 <= w -> fits w (wrap w x).
Proof. intros. apply Z.mod_pos_bound. apply Z.pow_pos_nonneg; lia. Qed.

Lemma wrap_small w x : fits w x -> wrap w x = x.
Proof. apply Z.mod_small. Qed.

Lemma wrap_wrap w x : wrap w (wrap w x) = wrap w x.
Proof. unfold wrap. apply Zmod_mod. Qed.

Lemma swrap_small w x :
  0 < w -> - 2 ^ (w - 1) <= x < 2 ^ (w - 1) -> swrap w x = x.
Proof.
  intros Hw Hx. unfold swrap. rewrite Z.mod_small; [lia|].
  assert (2 ^ w = 2 * 2 ^ (w - 1)) as ->; [|lia].
  rewrite <- Z.pow_succ_r by lia. f_equal. lia.
Qed.

Lemma fits_le v w x : v <= w -> fits v x -> fits w x.
Proof.
  intros H [H0 H1]. split; [done|].
  destruct (decide (0 <= v)).
  - eapply Z.lt_le_trans; [done|]. apply Z.pow_le_mono_r; lia.
  - rewrite (Z.pow_neg_r 2 v) in H1; lia.
Qed.

(** The carry-out of a wrapping addition, as the code detects it. *)
Lemma wrap_add_carry w x y :
  0 <= w -> fits w x -> fits w y ->
  wrap w (x + y) + 2 ^ w * (if wrap w (x + y) <? x then 1 else 0) = x + y.
Proof.
  unfold fits, wrap. intros Hw Hx Hy.
  destruct (decide (x + y < 2 ^ w)).
  - rewrite Z.mod_small by lia. destruct (Z.ltb_spec (x + y) x); lia.
  - rewrite <- (Z.mod_unique (x + y) (2 ^ w) 1 (x + y - 2 ^ w)) by lia.
    destruct (Z.ltb_spec (x + y - 2 ^ w) x); lia.
Qed.

Lemma wrap_add_ltb w x y :
  0 <= w -> fits w x -> fits w y -> (wrap w (x + y) <? x) = (2 ^ w <=? x + y).
Proof.
  intros Hw Hx Hy. pose proof (wrap_add_carry w x y Hw Hx Hy) as E.
  pose proof (wrap_range w (x + y) Hw) as R. unfold fits in *.
  destruct (Z.ltb_spec (wrap w (x + y)) x), (Z.leb_spec (2 ^ w) (x + y)); nia.
Qed.

(** *** Bit operations as arithmetic *)

Lemma shiftr_div x n : 0 <= n -> x ≫ n = x / 2 ^ n.
Proof. apply Z.shiftr_div_pow2. Qed.

Lemma shiftl_mul x n : 0 <= n -> x ≪ n = x * 2 ^ n.
Proof. apply Z.shiftl_mul_pow2. Qed.

Lemma land_mask x n : 0 <= n -> Z.land x (2 ^ n - 1) = x mod 2 ^ n.
Proof.
  intros. rewrite <- Z.land_ones by done. f_equal.
  rewrite Z.ones_equiv. lia.
Qed.

Lemma land_shifted_low hi lo k :
  0 <= k -> 0 <= lo < 2 ^ k -> Z.land (hi * 2 ^ k) lo = 0.
Proof.
  intros Hk Hlo. apply Z.bits_inj'. intros n Hn.
  rewrite Z.land_spec, Z.bits_0, <- Z.shiftl_mul_pow2 by done.
  destruct (decide (n < k)).
  - rewrite Z.shiftl_spec_low by lia. done.
  - rewrite <- (Z.mod_small lo (2 ^ k)) by done.
    rewrite Z.mod_pow2_bits_high by lia. apply andb_false_r.
Qed.

(** Disjoint bits add up: [hi << k | lo] with [lo < 2^k]. *)
Lemma lor_add hi lo k :
  0 <= k -> 0 <= lo < 2 ^ k -> Z.lor (hi * 2 ^ k) lo = hi * 2 ^ k + lo.
Proof. intros. symmetry. apply Z.add_nocarry_lor. by apply land_shifted_low. Qed.

Lemma lor_add' hi lo k :
  0 <= k -> 0 <= lo < 2 ^ k -> Z.lor lo (hi * 2 ^ k) = hi * 2 ^ k + lo.
Proof. intros. rewrite Z.lor_comm. by apply lor_add. Qed.

(** Bounds of bitwise operations at a width. *)
Lemma fits_testbit w x :
  0 <= w -> 0 <= x -> (forall i, w <= i -> Z.testbit x i = false) -> fits w x.
Proof.
  intros Hw Hx Hb. split; [done|].
  destruct (decide (x < 2 ^ w)) as [|Hge]; [done|]. exfalso.
  assert (0 < x) by (pose proof (Z.pow_pos_nonneg 2 w); lia).
  pose proof (Z.bit_log2 x ltac:(lia)) as Hbit.
  rewrite Hb in Hbit; [done|]. apply Z.log2_le_pow2; lia.
Qed.

Lemma testbit_fits w x i : fits w x -> w <= i -> Z.testbit x i = false.
Proof.
  intros [H0 H1] Hi. destruct (decide (0 <= w)).
  - rewrite <- (Z.mod_small x (2 ^ w)) by done. apply Z.mod_pow2_bits_high. lia.
  - rewrite Z.pow_neg_r in H1; lia.
Qed.

Lemma fits_lor w x y : 0 <= w -> fits w x -> fits w y -> fits w (Z.lor x y).
Proof.
  intros Hw Hx Hy. apply fits_testbit; [done| |].
  - apply Z.lor_nonneg. unfold fits in *; lia.
  - intros i Hi. by rewrite Z.lor_spec, !(testbit_fits w).
Qed.

Lemma fits_lxor w x y : 0 <= w -> fits w x -> fits w y -> fits w (Z.lxor x y).
Proof.
  intros Hw Hx Hy. apply fits_testbit; [done| |].
  - apply Z.lxor_nonneg. unfold fits in *; lia.
  - intros i Hi. by rewrite Z.lxor_spec, !(testbit_fits w).
Qed.

Lemma fits_land w x y : 0 <= w -> fits w x -> 0 <= y -> fits w (Z.land x y).
Proof.
  intros Hw Hx Hy. apply fits_testbit; [done| |].
  - apply Z.land_nonneg. unfold fits in *; lia.
  - intros i Hi. by rewrite Z.land_spec, (testbit_fits w).
Qed.

Lemma fits_shiftr w x n : 0 <= w -> 0 <= n -> fits w x -> fits w (x ≫ n).
Proof.
  intros Hw Hn [H0 H1]. rewrite shiftr_div by done.
  pose proof (Z.pow_pos_nonneg 2 n ltac:(lia) Hn).
  split; [apply Z.div_pos; lia|]. apply Z.div_lt_upper_bound; nia.
Qed.

(** The database [mach] proves that intermediate values fit their width. *)
Create HintDb mach.
#[export] Hint Resolve wrap_range fits_lor fits_lxor fits_land fits_shiftr : mach.
#[export] Hint Extern 2 (_ <= _) => lia : mach.

(** Generalise every [/] and [mod] by its defining equations, then [lia]. *)
Ltac dlia := Z.div_mod_to_equations; lia.
Ltac dnia := Z.div_mod_to_equations; nia.

(** ** Positional notation

    [le_val b l] is the number whose base-[b] digits, least significant first,
    are [l]; [le_digits b n x] are the low [n] digits of [x]. *)

Fixpoint le_val (b : Z) (l : list Z) : Z :=
  match l with
  | [] => 0
  | d :: t => d + b * le_val b t
  end.

Fixpoint le_digits (b : Z) (n : nat) (x : Z) : list Z :=
  match n with
  | O => []
  | S n => x mod b :: le_digits b n (x / b)
  end.

Definition be_val (b : Z) (l : list Z) : Z := le_val b (reverse l).
Definition be_digits (b : Z) (n : nat) (x : Z) : list Z := reverse (le_digits b n x).

Section positional.
Context (b : Z) (Hb : 1 < b).

Lemma length_le_digits n x : length (le_digits b n x) = n.
Proof. revert x. induction n; intros; simpl; auto. Qed.

Lemma le_digits_range n x : Forall (fun d => 0 <= d < b) (le_digits b n x).
Proof using Hb.
  revert x. induction n; intros; simpl; constructor; auto.
  apply Z.mod_pos_bound; lia.
Qed.

Lemma le_val_digits n x : le_val b (le_digits b n x) = x mod b ^ Z.of_nat n.
Proof using Hb.
  revert x. induction n as [|n IH]; intros x; simpl.
  - by rewrite Z.mod_1_r.
  - rewrite IH, Nat2Z.inj_succ, Z.pow_succ_r by lia.
    rewrite Z.rem_mul_r by lia. lia.
Qed.

Lemma le_digits_val l :
  Forall (fun d => 0 <= d < b) l -> le_digits b (length l) (le_val b l) = l.
Proof using Hb.
  induction 1 as [|d t Hd Ht IH]; simpl; [done|].
  rewrite (Z.mul_comm b), Z_mod_plus_full, Z.mod_small by lia. f_equal.
  rewrite Z.div_add, Z.div_small by lia. done.
Qed.

Lemma le_val_bound l :
  Forall (fun d => 0 <= d < b) l -> 0 <= le_val b l < b ^ Z.of_nat (length l).
Proof using Hb.
  induction 1 as [|d t Hd Ht IH]; cbn [le_val length]; [lia|].
  rewrite Nat2Z.inj_succ, Z.pow_succ_r by lia. nia.
Qed.

Lemma le_val_app l k :
  le_val b (l ++ k) = le_val b l + b ^ Z.of_nat (length l) * le_val b k.
Proof using Hb.
  induction l as [|d t IH]; cbn [le_val length app]; [lia|].
  rewrite IH, Nat2Z.inj_succ, Z.pow_succ_r by lia. lia.
Qed.

Lemma le_val_inj l k :
  Forall (fun d => 0 <= d < b) l -> Forall (fun d => 0 <= d < b) k ->
  length l = length k -> le_val b l = le_val b k -> l = k.
Proof using Hb.
  intros Hl Hk Hlen E. rewrite <- (le_digits_val l), <- (le_digits_val k) by done.
  congruence.
Qed.

Lemma le_val_zeros n : le_val b (replicate n 0) = 0.
Proof. induction n; simpl; lia. Qed.

Lemma take_le_digits k n x : (k <= n)%nat -> take k (le_digits b n x) = le_digits b k x.
Proof.
  revert n x. induction k as [|k IH]; intros n x Hk; [done|].
  destruct n as [|n]; [lia|]. cbn [le_digits firstn]. by rewrite IH by lia.
Qed.

Lemma le_digits_0 n : le_digits b n 0 = replicate n 0.
Proof using Hb.
  induction n as [|n IH]; [done|]. cbn [le_digits replicate].
  by rewrite Z.mod_0_l, Z.div_0_l, IH by lia.
Qed.

Lemma be_digits_S n x : be_digits b (S n) x = be_digits b n (x / b) ++ [x mod b].
Proof. unfold be_digits. cbn [le_digits]. by rewrite reverse_cons. Qed.

Lemma be_digits_0 n : be_digits b n 0 = replicate n 0.
Proof using Hb. unfold be_digits. by rewrite le_digits_0, reverse_replicate. Qed.

Lemma drop_be_digits k n x : (k <= n)%nat -> drop (n - k) (be_digits b n x) = be_digits b k x.
Proof.
  intros Hk. unfold be_digits. rewrite drop_reverse, length_le_digits.
  rewrite take_le_digits by lia. do 2 f_equal. lia.
Qed.

Lemma length_be_digits n x : length (be_digits b n x) = n.
Proof. unfold be_digits. by rewrite length_reverse, length_le_digits. Qed.

Lemma be_digits_range n x : Forall (fun d => 0 <= d < b) (be_digits b n x).
Proof using Hb. unfold be_digits. rewrite Forall_reverse. apply le_digits_range. Qed.

Lemma be_val_digits n x : be_val b (be_digits b n x) = x mod b ^ Z.of_nat n.
Proof using Hb. unfold be_val, be_digits. by rewrite reverse_involutive, le_val_digits. Qed.

Lemma be_digits_val l :
  Forall (fun d => 0 <= d < b) l -> be_digits b (length l) (be_val b l) = l.
Proof using Hb.
  intros H. unfold be_val, be_digits. rewrite <- length_reverse, le_digits_val.
  - apply reverse_involutive.
  - by rewrite Forall_reverse.
Qed.

Lemma be_val_bound l :
  Forall (fun d => 0 <= d < b) l -> 0 <= be_val b l < b ^ Z.of_nat (length l).
Proof using Hb.
  intros H. unfold be_val. rewrite <- length_reverse.
  apply le_val_bound. by rewrite Forall_reverse.
Qed.

Lemma be_val_app l k :
  be_val b (l ++ k) = be_val b l * b ^ Z.of_nat (length k) + be_val b k.
Proof using Hb.
  unfold be_val. rewrite reverse_app, le_val_app, length_reverse. lia.
Qed.

Lemma be_val_snoc l d : be_val b (l ++ [d]) = be_val b l * b + d.
Proof using Hb. rewrite be_val_app. simpl. unfold be_val. simpl. lia. Qed.
End positional.

(** ** Stepping through a computation

    One equation per step keeps the types of the proof close to each other; the
    continuation is only beta-reduced. *)

Lemma some_bind {A B} (f : A -> option B) x : mbind f (Some x) = f x.
Proof. done. Qed.

Ltac go := rewrite some_bind; cbv beta iota.

(** ** Byte strings *)

Abbreviation bytes := (list Z).
Definition bytes_of_string (s : string) : bytes :=
  (fun c => Z.of_nat (nat_of_ascii c)) <$> list_ascii_of_string s.

Definition is_bytes (l : bytes) : Prop := Forall (fits 8) l.

#[global] Instance is_bytes_dec l : Decision (is_bytes l).
Proof. unfold is_bytes. apply _. Defined.

(** Decide a closed goal by evaluation. *)
Ltac by_eval :=
  match goal with |- ?P =>
    refine (bool_decide_eq_true_1 P _); vm_compute; reflexivity end.

(** A boolean fact about small numbers can be checked on all of them. *)
Lemma below_forallb n (p : Z -> bool) :
  forallb p (seqZ 0 n) = true -> forall b, 0 <= b < n -> p b = true.
Proof.
  intros H b Hb. rewrite forallb_forall in H. apply H.
  apply list_elem_of_In, elem_of_seqZ. lia.
Qed.

Lemma byte_forallb (p : Z -> bool) :
  forallb p (seqZ 0 256) = true -> forall b, fits 8 b -> p b = true.
Proof. apply below_forallb. Qed.

Lemma lookup_nth {A} (l : list A) i d : (i < length l)%nat -> l !! i = Some (nth i l d).
Proof.
  intros Hi. rewrite nth_lookup. destruct (lookup_lt_is_Some_2 l i Hi) as [x ->]. done.
Qed.

Lemma mjoin_cons {A} (b : list A) l : mjoin (b :: l) = b ++ mjoin l.
Proof. done. Qed.

(** ** Blocks: the first [n] slices of [r] elements *)

Fixpoint blocks {A} (n r : nat) (m : list A) : list (list A) :=
  match n with
  | O => []
  | S n => take r m :: blocks n r (drop r m)
  end.

Lemma blocks_take {A} n r (m : list A) k :
  (n * r <= k)%nat -> blocks n r (take k m) = blocks n r m.
Proof.
  revert m k. induction n as [|n IH]; intros m k H; simpl; [done|].
  rewrite firstn_firstn, skipn_firstn_comm, IH by lia. do 2 f_equal. lia.
Qed.

Lemma length_blocks {A} n r (m : list A) : length (blocks n r m) = n.
Proof. revert m. induction n; intros; simpl; auto. Qed.

Lemma blocks_join {A} n r (m : list A) : mjoin (blocks n r m) ++ drop (n * r) m = m.
Proof.
  revert m. induction n as [|n IH]; intros m; [done|]. cbn [blocks].
  rewrite mjoin_cons, <- app_assoc. change (S n * r)%nat with (r + n * r)%nat.
  rewrite <- drop_drop, IH. apply take_drop.
Qed.

Lemma blocks_app_last {A} n r (a b : list A) :
  length a = (n * r)%nat -> length b = r -> blocks (n + 1) r (a ++ b) = blocks n r a ++ [b].
Proof.
  revert a. induction n as [|n IH]; intros a Ha Hb; simpl in *.
  - destruct a; [|done]. simpl. by rewrite take_ge by lia.
  - rewrite take_app_le, drop_app_le by lia. f_equal. apply IH; [|done].
    rewrite length_drop. lia.
Qed.

(** ** Asserts

    [assert(b)] in a build that has them: the program stops when [b] is false. *)

Definition asserted (b : bool) : option unit := if b then Some tt else None.

Lemma asserted_true b : b = true -> asserted b = Some tt.
Proof. by intros ->. Qed.

Lemma asserted_inv b u : asserted b = Some u -> b = true.
Proof. by destruct b. Qed.

(** ** Arrays

    Reads and writes at an index outside the array are undefined behaviour of
    the source; the model has no result there. *)

Definition aget {A} (l : list A) (i : Z) : option A :=
  if decide (0 <= i) then l !! Z.to_nat i else None.

Definition aset {A} (l : list A) (i : Z) (v : A) : option (list A) :=
  if decide (0 <= i < Z.of_nat (length l)) then Some (<[Z.to_nat i := v]> l) else None.

Lemma aget_nat {A} (l : list A) (n : nat) : aget l (Z.of_nat n) = l !! n.
Proof. unfold aget. rewrite decide_True by lia. by rewrite Nat2Z.id. Qed.

Lemma aset_nat {A} (l : list A) (n : nat) v :
  (n < length l)%nat -> aset l (Z.of_nat n) v = Some (<[n := v]> l).
Proof. intros. unfold aset. rewrite decide_True by lia. by rewrite Nat2Z.id. Qed.
