(* ===== verification/Result.v ===== *)
(** * Effects of functions that can fail

    A function of the source may reach undefined behaviour or abort, throw an
    exception, or return false after a failed check.  The monad [result] has the
    first two and values; a function that returns a boolean and fills a result
    when it is true is modelled as a [result] of an option, with its own
    sequencing for the early returns. *)

From S2P Require Import Prelude.

Module Result.

(** [None] is undefined behaviour, [inl] an exception, [inr] a value. *)
Definition result (A : Type) : Type := option (unit + A).

Definition ret {A} (a : A) : result A := Some (inr a).
Definition throw {A} : result A := Some (inl tt).

Definition rbind {A B} (k : A -> result B) (m : result A) : result B :=
  match m with
  | Some (inr a) => k a
  | Some (inl e) => Some (inl e)
  | None => None
  end.

Definition lift {A} (m : option A) : result A := match m with Some a => ret a | None => None end.

(** A CHECK_AND_ASSERT_THROW. *)
Definition ensure (b : bool) : result unit := if b then ret tt else throw.

(** Returning false unless the call returns true. *)
Definition rtry {A B} (k : A -> result (option B)) (m : result (option A)) : result (option B) :=
  rbind (fun r => match r with Some a => k a | None => ret None end) m.

(** A CHECK_AND_ASSERT_MES(b, false, ..). *)
Definition check (b : bool) : result (option unit) := ret (if b then Some tt else None).

Declare Scope result_scope.
Notation "'let*' x := e 'in' k" := (rbind (fun x => k) e)
  (at level 10, x pattern, e at level 100, k at level 200) : result_scope.
Notation "'let?' x := e 'in' k" := (rtry (fun x => k) e)
  (at level 10, x pattern, e at level 100, k at level 200) : result_scope.
Open Scope result_scope.

Lemma rbind_ret {A B} (k : A -> result B) a : rbind k (ret a) = k a.
Proof. done. Qed.

Lemma rtry_ret {A B} (k : A -> result (option B)) a : rtry k (ret (Some a)) = k a.
Proof. done. Qed.

Lemma ret_inj {A} (a b : A) : ret a = ret b -> a = b.
Proof. by intros [= ->]. Qed.

Lemma lift_some {A} (a : A) : lift (Some a) = ret a.
Proof. done. Qed.

Lemma ensure_holds b : b = true -> ensure b = ret tt.
Proof. by intros ->. Qed.

Lemma check_holds b : b = true -> check b = ret (Some tt).
Proof. by intros ->. Qed.

(** One step of a computation whose first part has a value. *)
Ltac rgo := rewrite ?lift_some, rbind_ret; cbv beta iota.
Ltac tgo := rewrite ?lift_some, rtry_ret; cbv beta iota.

(** What a sequence that has a value went through. *)
Lemma rbind_inv {A B} (k : A -> result B) m b :
  rbind k m = ret b -> exists a, m = ret a /\ k a = ret b.
Proof. destruct m as [[|a]|]; try discriminate. intros E. by exists a. Qed.

Lemma rtry_inv {A B} (k : A -> result (option B)) m b :
  rtry k m = ret (Some b) -> exists a, m = ret (Some a) /\ k a = ret (Some b).
Proof. intros E. apply rbind_inv in E as ([a|] & -> & E); [by exists a|discriminate]. Qed.

Lemma check_inv b u : check b = ret (Some u) -> b = true.
Proof. by destruct b. Qed.

Lemma ensure_inv b u : ensure b = ret u -> b = true.
Proof. by destruct b. Qed.

Lemma lift_inv {A} (m : option A) a : lift m = ret a -> m = Some a.
Proof. destruct m; [|discriminate]. by intros ->%ret_inj. Qed.

(** The first part of a computation that has a value has one. *)
Ltac rinv H x E :=
  apply rbind_inv in H as (x & E & H);
  repeat match type of H with (let '(_, _) := ?y in _) = _ => destruct y end.

End Result.
