(* ===== verification/Permute.v ===== *)
(** * Orders and permutations

    tools::apply_permutation of src/common/apply_permutation.h, which reorders
    vectors in place by following the cycles of a permutation, and the offsets of
    ring members of src/cryptonote_basic/cryptonote_format_utils.cpp.  The
    theorems say that the in-place algorithm terminates and puts element p(i) at
    position i, for every vector it swaps at once, and that relative offsets are
    read back as the sorted absolute ones. *)

From stdpp Require Import sorting.
From S2P Require Import Prelude Result.
Import Result.

Module Permute.

(** ** In place permutation *)

Section apply_permutation.

Context {S : Type} (swap : nat -> nat -> S -> S).

(** The while loop from [current] on. [None] when an index is out of range or
    the fuel is not enough. *)
Fixpoint follow_cycle (fuel i current : nat) (permutation : list nat) (s : S) : option (list nat * S) :=
  next ← permutation !! current;
  if Nat.eqb i next then Some (<[current := current]> permutation, s)
  else
    match fuel with
    | 0%nat => None
    | Datatypes.S fuel =>
        follow_cycle fuel i next (<[current := current]> permutation) (swap current next s)
    end.

Fixpoint permutation_loop (n i : nat) (permutation : list nat) (s : S) : option (list nat * S) :=
  match n with
  | 0%nat => Some (permutation, s)
  | Datatypes.S n =>
      '(permutation, s) ← follow_cycle (length permutation) i i permutation s;
      permutation_loop n (i + 1) permutation s
  end.

Definition good_permutation (permutation : list nat) : bool :=
  forallb (fun n => bool_decide (n ∈ permutation)) (seq 0 (length permutation)).

Definition apply_permutation (permutation : list nat) (s : S) : result S :=
  let* _ := ensure (good_permutation permutation) in
  let* (_, s) := lift (permutation_loop (length permutation) 0 permutation s) in
  ret s.

End apply_permutation.

(** std::swap of two elements of a vector. *)
Definition swap_elements {A} (i0 i1 : nat) (v : list A) : list A :=
  match v !! i0, v !! i1 with
  | Some x0, Some x1 => <[i1 := x0]> (<[i0 := x1]> v)
  | _, _ => v
  end.

(** The version for one vector. *)
Definition apply_permutation_vector {A} (permutation : list nat) (v : list A) : result (list A) :=
  let* _ := ensure (Nat.eqb (length permutation) (length v)) in
  apply_permutation swap_elements permutation v.

(** ** Offsets *)

Fixpoint add_previous (previous : Z) (off : list Z) : list Z :=
  match off with
  | [] => []
  | x :: off => let x := u64 (x + previous) in x :: add_previous x off
  end.

Definition relative_output_offsets_to_absolute (off : list Z) : list Z :=
  match off with
  | [] => []
  | x :: off => x :: add_previous x off
  end.

(** The loop runs from the end: every element is still the absolute one when it
    is subtracted. *)
Fixpoint sub_previous (previous : Z) (off : list Z) : list Z :=
  match off with
  | [] => []
  | x :: off => u64 (x - previous) :: sub_previous x off
  end.

Definition absolute_output_offsets_to_relative (off : list Z) : list Z :=
  match merge_sort Z.le off with
  | [] => []
  | x :: off => x :: sub_previous x off
  end.

(** ** memcmp *)

(** Whether memcmp of two strings of the same length is positive. *)
Fixpoint memcmp_gt (a b : bytes) : bool :=
  match a, b with
  | x :: a, y :: b => if x =? y then memcmp_gt a b else y <? x
  | _, _ => false
  end.

(** ** The order of key images *)

Lemma memcmp_gt_irrefl a : memcmp_gt a a = false.
Proof. induction a as [|x a IH]; [done|]. cbn. by rewrite Z.eqb_refl. Qed.

Lemma memcmp_gt_asym a b : memcmp_gt a b = true -> memcmp_gt b a = false.
Proof.
  revert b. induction a as [|x a IH]; intros [|y b]; try done. cbn.
  destruct (Z.eqb_spec x y) as [->|N]; [rewrite Z.eqb_refl; apply IH|].
  rewrite (proj2 (Z.eqb_neq y x)) by lia. lia.
Qed.

Lemma memcmp_gt_total a b :
  length a = length b -> memcmp_gt a b = false -> memcmp_gt b a = false -> a = b.
Proof.
  revert b. induction a as [|x a IH]; intros [|y b] L; try done. cbn in *.
  destruct (Z.eqb_spec x y) as [->|N].
  - rewrite Z.eqb_refl. intros E1 E2. f_equal. apply IH; [lia|done..].
  - rewrite (proj2 (Z.eqb_neq y x)) by lia. lia.
Qed.

Lemma memcmp_gt_trans a b c :
  memcmp_gt a b = true -> memcmp_gt b c = true -> memcmp_gt a c = true.
Proof.
  revert b c. induction a as [|x a IH]; intros [|y b] [|z c]; try done. cbn in *.
  destruct (Z.eqb_spec x y) as [->|N], (Z.eqb_spec y z) as [->|N']; rewrite ?Z.eqb_refl; intros E1 E2.
  - by apply (IH b c).
  - done.
  - by rewrite (proj2 (Z.eqb_neq x z)).
  - rewrite (proj2 (Z.eqb_neq x z)); lia.
Qed.

(** ** The invariant of the cycles

    [T] is the list that is wanted.  An index is fixed when the permutation maps
    it to itself; the others, and the current one while a cycle is followed, are
    active. *)

Section cycles.

Context {A : Type} (T : list A) (n : nat).

Implicit Types (q : list nat) (l : list A).

Definition fixed q (j : nat) : Prop := q !! j = Some j.

(** Between cycles. *)
Record rest q l : Prop := {
  rest_q : length q = n; rest_l : length l = n; rest_T : length T = n;
  rest_range j k : q !! j = Some k -> (k < n)%nat;
  rest_fixed j : fixed q j -> T !! j = l !! j;
  rest_active j k : q !! j = Some k -> j <> k -> T !! j = l !! k;
  rest_inj j j' k : q !! j = Some k -> q !! j' = Some k -> j <> k -> j' <> k -> j = j';
  rest_out j k : q !! j = Some k -> j <> k -> ~ fixed q k
}.

(** Inside the cycle of [i], at [current]: the value that was at [i] is there. *)
Record inside (i current : nat) q l : Prop := {
  ins_q : length q = n; ins_l : length l = n; ins_T : length T = n; ins_current : (current < n)%nat;
  ins_range j k : q !! j = Some k -> (k < n)%nat;
  ins_fixed j : j <> current -> fixed q j -> T !! j = l !! j;
  ins_back j : q !! j = Some i -> j = current \/ j <> i -> T !! j = l !! current;
  ins_active j k : q !! j = Some k -> j = current \/ j <> k -> k <> i -> T !! j = l !! k;
  ins_inj j j' k : q !! j = Some k -> q !! j' = Some k -> j = current \/ j <> k -> j' = current \/ j' <> k -> j = j';
  ins_now j : q !! j = Some current -> j = current \/ j <> current -> current = i;
  ins_out j k : q !! j = Some k -> j = current \/ j <> k -> k <> current -> fixed q k -> k = i;
  ins_start : current <> i -> fixed q i
}.

Lemma enter i q l : rest q l -> (i < n)%nat -> inside i i q l.
Proof.
  intros R Hi. destruct R as [Rq Rl RT Rr Rf Ra Rj Ro]. split; try done.
  - intros j _. apply Rf.
  - intros j E [->|N]; [by apply Rf|]. by apply Ra.
  - intros j k E [->|N] D; apply (Ra _ _ E); [done|done].
  - intros j j' k E E' D D'. destruct (decide (j = k)) as [->|N], (decide (j' = k)) as [->|N']; try done.
    + exfalso. eapply Ro; [exact E'|exact N'|exact E].
    + exfalso. eapply Ro; [exact E|exact N|exact E'].
    + by apply (Rj _ _ k).
  - intros j k E D N F. destruct (decide (j = k)) as [->|N']; [by destruct D|]. by destruct (Ro _ _ E N' F).
Qed.

Lemma advance i current next q l :
  inside i current q l -> q !! current = Some next -> i <> next ->
  inside i next (<[current := current]> q) (swap_elements current next l).
Proof.
  intros I E N. destruct I as [Iq Il IT Ic Ir If Ib Ia Ij In Io Is].
  assert (next <> current) as NC.
  { intros ->. specialize (In current E ltac:(by left)). lia. }
  assert (~ fixed q next) as NF.
  { intros F. specialize (Io current next E ltac:(by left) NC F). lia. }
  pose proof (Ir _ _ E) as Hn.
  destruct (lookup_lt_is_Some_2 l current ltac:(lia)) as [x Ex].
  destruct (lookup_lt_is_Some_2 l next ltac:(lia)) as [y Ey].
  assert (forall j, swap_elements current next l !! j
    = if decide (j = current) then l !! next else if decide (j = next) then l !! current else l !! j) as LS.
  { intros j. unfold swap_elements. rewrite Ex, Ey. destruct (decide (j = current)) as [->|].
    - rewrite list_lookup_insert_ne by done. apply list_lookup_insert_eq. lia.
    - destruct (decide (j = next)) as [->|].
      + apply list_lookup_insert_eq. rewrite length_insert. lia.
      + by rewrite !list_lookup_insert_ne by done. }
  assert (forall j k, <[current := current]> q !! j = Some k -> j = current /\ k = current \/ j <> current /\ q !! j = Some k) as LQ.
  { intros j k. destruct (decide (j = current)) as [->|D].
    - rewrite list_lookup_insert_eq by lia. intros [= <-]. by left.
    - rewrite list_lookup_insert_ne by done. by right. }
  assert (forall j k, q !! j = Some k -> j = next \/ j <> k -> j <> k) as NK.
  { intros j k Ek [->|D]; [|done]. intros <-. by apply NF. }
  split.
  - by rewrite length_insert.
  - unfold swap_elements. rewrite Ex, Ey, !length_insert. done.
  - done.
  - done.
  - intros j k [[-> ->]|[_ Ek]]%LQ; [done|by apply (Ir j)].
  - intros j D [[-> _]|[D' F]]%LQ; rewrite LS.
    + rewrite decide_True by done. apply (Ia _ _ E); [by left|done].
    + rewrite !decide_False by done. by apply If.
  - intros j [[-> ->]|[D Ek]]%LQ D'; [by destruct D'|]. rewrite LS, decide_False, decide_True by done.
    apply (Ib j Ek). right. by apply NK.
  - intros j k [[-> ->]|[D Ek]]%LQ D' Nk; [by destruct D'|].
    pose proof (NK j k Ek D') as Njk.
    rewrite LS, !decide_False; [apply (Ia j k Ek); [by right|done]| |].
    + intros ->. apply D. apply (Ij j current next Ek E); [by right|by left].
    + intros ->. apply Nk. apply (In j Ek). by right.
  - intros j j' k [[J K]|[D Ek]]%LQ [[J' K']|[D' Ek']]%LQ X X'; [congruence|destruct X; congruence|destruct X'; congruence|].
    apply (Ij j j' k Ek Ek'); right; by apply NK.
  - intros j [[-> ->]|[D Ek]]%LQ X; [done|]. exfalso. apply D.
    apply (Ij j current next Ek E); [|by left]. right. by apply NK.
  - intros j k [[-> ->]|[D Ek]]%LQ X Nk F; [by destruct X|].
    pose proof (NK j k Ek X) as Njk.
    destruct (LQ _ _ F) as [[-> _]|[Dk Fk]]; [apply (In j Ek); by right|]. apply (Io j k Ek); [by right|done|done].
  - intros _. unfold fixed. destruct (decide (current = i)) as [->|D]; [by apply list_lookup_insert_eq; lia|].
    rewrite list_lookup_insert_ne by done. by apply Is.
Qed.

Lemma leave i current q l :
  inside i current q l -> q !! current = Some i -> rest (<[current := current]> q) l /\ fixed (<[current := current]> q) i.
Proof.
  intros I E. destruct I as [Iq Il IT Ic Ir If Ib Ia Ij In Io Is].
  assert (forall j k, <[current := current]> q !! j = Some k -> j = current /\ k = current \/ j <> current /\ q !! j = Some k) as LQ.
  { intros j k. destruct (decide (j = current)) as [->|D].
    - rewrite list_lookup_insert_eq by lia. intros [= <-]. by left.
    - rewrite list_lookup_insert_ne by done. by right. }
  split.
  - split; try done.
    + by rewrite length_insert.
    + intros j k [[-> ->]|[_ Ek]]%LQ; [done|by apply (Ir j)].
    + intros j [[-> _]|[D F]]%LQ; [apply (Ib _ E); by left|by apply If].
    + intros j k [[-> ->]|[D Ek]]%LQ N; [done|]. apply (Ia j k Ek); [by right|].
      intros ->. apply D. apply (Ij j current i Ek E); [by right|by left].
    + intros j j' k [[J K]|[D Ek]]%LQ [[J' K']|[D' Ek']]%LQ X X'; [congruence..|].
      apply (Ij j j' k Ek Ek'); by right.
    + intros j k [[-> ->]|[D Ek]]%LQ N F; [done|]. destruct (LQ _ _ F) as [[-> _]|[Dk Fk]].
      * assert (current = i) as -> by (apply (In j Ek); by right). apply D.
        apply (Ij j i i Ek E); [by right|by left].
      * assert (k = i) as -> by (apply (Io j k Ek); [by right|done|done]). apply D.
        apply (Ij j current i Ek E); [by right|by left].
  - unfold fixed. destruct (decide (current = i)) as [->|D]; [apply list_lookup_insert_eq; lia|].
    rewrite list_lookup_insert_ne by done. by apply Is.
Qed.

End cycles.

(** The number of indices that are not fixed. *)
Fixpoint unfixed (i : nat) (q : list nat) : nat :=
  match q with
  | [] => 0
  | k :: q => (if decide (k = i) then 0 else 1) + unfixed (i + 1) q
  end%nat.

Lemma unfixed_fix q : forall i j k,
  q !! j = Some k -> k <> (i + j)%nat -> unfixed i q = S (unfixed i (<[j := (i + j)%nat]> q)).
Proof.
  induction q as [|x q IH]; intros i [|j] k E N; try done.
  - injection E as ->. rewrite Nat.add_0_r in *. cbn. by rewrite decide_False, decide_True.
  - change (<[S j := (i + S j)%nat]> (x :: q)) with (x :: <[j := (i + S j)%nat]> q). cbn [unfixed].
    rewrite (IH (i + 1)%nat j k E) by lia. replace (i + 1 + j)%nat with (i + S j)%nat by lia. lia.
Qed.

Lemma unfixed_length i q : (unfixed i q <= length q)%nat.
Proof. revert i. induction q as [|x q IH]; intros i; cbn [unfixed length]; [lia|]. specialize (IH (i + 1)%nat). destruct (decide (x = i)); lia. Qed.

Section correctness.

Context {A : Type} (T : list A) (n : nat).

Lemma follow_cycle_ok fuel : forall i current q (l : list A),
  inside T n i current q l -> (unfixed 0 q <= fuel)%nat ->
  exists q' l', follow_cycle swap_elements fuel i current q l = Some (q', l') /\ rest T n q' l' /\ fixed q' i
    /\ forall j, fixed q j -> fixed q' j.
Proof.
  assert (forall (q : list nat) c j, fixed q j -> fixed (<[c := c]> q) j) as Keep.
  { intros q c j F. unfold fixed. destruct (decide (j = c)) as [->|D].
    - apply list_lookup_insert_eq. by apply lookup_lt_Some in F.
    - by rewrite list_lookup_insert_ne. }
  induction fuel as [|fuel IH]; intros i current q l I U;
    destruct (lookup_lt_is_Some_2 q current) as [next E];
    try (rewrite (ins_q _ _ _ _ _ _ I); apply (ins_current _ _ _ _ _ _ I)); cbn [follow_cycle]; rewrite E; go;
    (destruct (Nat.eqb_spec i next) as [<-|N];
      [destruct (leave _ _ _ _ _ _ I E) as [R F]; eexists _, _; split; [reflexivity|]; split_and!; auto|]);
    pose proof (advance _ _ _ _ _ _ _ I E N) as I';
    assert (next <> (0 + current)%nat) as NC
      by (intros ->; apply N; symmetry; apply (ins_now _ _ _ _ _ _ I current E); by left);
    pose proof (unfixed_fix q 0 current next E NC) as UF; cbn [Nat.add] in UF; [lia|].
  destruct (IH _ _ _ _ I') as (q' & l' & EF & R & F & K); [lia|].
  exists q', l'. split_and!; auto.
Qed.

Lemma permutation_loop_ok m : forall i q (l : list A),
  rest T n q l -> (i + m = n)%nat -> (forall j, (j < i)%nat -> fixed q j) ->
  exists q', permutation_loop swap_elements m i q l = Some (q', T).
Proof.
  induction m as [|m IH]; intros i q l R Hm F; cbn [permutation_loop].
  - exists q. do 2 f_equal. symmetry. apply list_eq. intros j. destruct (decide (j < n)%nat).
    + apply (rest_fixed _ _ _ _ R), F. lia.
    + rewrite !lookup_ge_None_2; [done|rewrite (rest_l _ _ _ _ R); lia|rewrite (rest_T _ _ _ _ R); lia].
  - destruct (follow_cycle_ok (length q) i i q l) as (q' & l' & -> & R' & Fi & K);
      [apply enter; [exact R|lia]|apply unfixed_length|].
    go. apply (IH (i + 1)%nat); [exact R'|lia|]. intros j Hj.
    destruct (decide (j = i)) as [->|]; [exact Fi|]. apply K, F. lia.
Qed.

End correctness.

(** What the sanity check means. *)
Lemma good_permutation_iff q : good_permutation q = true <-> q ≡ₚ seq 0 (length q).
Proof.
  unfold good_permutation. rewrite forallb_forall. split.
  - intros H. symmetry. apply submseteq_length_Permutation; [|by rewrite length_seq].
    apply NoDup_submseteq; [apply NoDup_seq|]. intros x Hx. apply list_elem_of_In in Hx.
    apply (H x), bool_decide_eq_true_1 in Hx. exact Hx.
  - intros P x Hx%list_elem_of_In. apply bool_decide_eq_true_2. by rewrite P.
Qed.

Definition reorder {A} (p : list nat) (l : list A) : list A := omap (fun k => l !! k) p.

Lemma reorder_lookup {A} (p : list nat) (l : list A) j :
  Forall (fun k => (k < length l)%nat) p -> reorder p l !! j = k ← p !! j; l !! k.
Proof.
  unfold reorder. intros F. revert j. induction F as [|k p Hk F IH]; intros j; [done|].
  cbn [omap list_omap]. destruct (lookup_lt_is_Some_2 l k Hk) as [x Ex]. rewrite Ex.
  destruct j as [|j]; [by cbn; rewrite Ex|]. apply IH.
Qed.

Lemma reorder_length {A} (p : list nat) (l : list A) :
  Forall (fun k => (k < length l)%nat) p -> length (reorder p l) = length p.
Proof.
  unfold reorder. induction 1 as [|k p Hk F IH]; [done|]. cbn [omap list_omap].
  destruct (lookup_lt_is_Some_2 l k Hk) as [x ->]. cbn. by rewrite IH.
Qed.

Lemma permutation_range (p : list nat) m : p ≡ₚ seq 0 m -> Forall (fun k => (k < m)%nat) p.
Proof. intros P. rewrite P. apply Forall_forall. intros k Hk. apply elem_of_seq in Hk. lia. Qed.

Lemma reorder_permutation {A} (p : list nat) (l : list A) : p ≡ₚ seq 0 (length l) -> reorder p l ≡ₚ l.
Proof.
  intros P. unfold reorder. rewrite P. clear P p. replace (omap (fun k => l !! k) (seq 0 (length l))) with l; [done|].
  apply list_eq. intros j. change (omap (fun k => l !! k) (seq 0 (length l))) with (reorder (seq 0 (length l)) l).
  rewrite reorder_lookup by (apply Forall_forall; intros k Hk; apply elem_of_seq in Hk; lia).
  destruct (decide (j < length l)%nat).
  - by rewrite lookup_seq_lt.
  - rewrite lookup_seq_ge, lookup_ge_None_2 by lia. done.
Qed.

Lemma initial_rest {A} (p : list nat) (l : list A) :
  p ≡ₚ seq 0 (length l) -> rest (reorder p l) (length l) p l.
Proof.
  intros P. pose proof (permutation_range p _ P) as F. assert (length p = length l) as L by (rewrite P; apply length_seq).
  assert (NoDup p) as ND by (rewrite P; apply NoDup_seq).
  split; try done.
  - by rewrite reorder_length.
  - intros j k E. exact (Forall_lookup_1 _ _ _ _ F E).
  - intros j E. rewrite reorder_lookup by done. unfold fixed in E. by rewrite E.
  - intros j k E _. rewrite reorder_lookup by done. by rewrite E.
  - intros j j' k E E' _ _. exact (NoDup_lookup _ _ _ _ ND E E').
  - intros j k E N Fk. apply N. exact (NoDup_lookup _ _ _ _ ND E Fk).
Qed.

Lemma apply_permutation_ok {A} (p : list nat) (l : list A) :
  length p = length l -> p ≡ₚ seq 0 (length p) -> apply_permutation swap_elements p l = ret (reorder p l).
Proof.
  intros L P. unfold apply_permutation. rewrite (proj2 (good_permutation_iff p) P). cbn [ensure]. rgo. rewrite L in P.
  destruct (permutation_loop_ok (reorder p l) (length l) (length p) 0 p l) as (q' & ->); [by apply initial_rest|lia|lia|].
  by rgo.
Qed.

(** The swaps do not depend on what is swapped: a state that is mapped to
    another one, swap by swap, stays so. *)
Section homomorphism.

Context {S S' : Type} (swap : nat -> nat -> S -> S) (swap' : nat -> nat -> S' -> S') (h : S -> S').
Hypothesis h_swap : forall i j s, h (swap i j s) = swap' i j (h s).

Lemma follow_cycle_hom fuel : forall i current q s,
  follow_cycle swap' fuel i current q (h s)
  = '(q', s') ← follow_cycle swap fuel i current q s; Some (q', h s').
Proof.
  induction fuel as [|fuel IH]; intros i current q s; cbn [follow_cycle];
    destruct (q !! current) as [next|]; try done; rewrite !some_bind; destruct (Nat.eqb i next); try done.
  rewrite <- h_swap. apply IH.
Qed.

Lemma permutation_loop_hom m : forall i q s,
  permutation_loop swap' m i q (h s) = '(q', s') ← permutation_loop swap m i q s; Some (q', h s').
Proof.
  induction m as [|m IH]; intros i q s; cbn [permutation_loop]; [done|]. rewrite follow_cycle_hom.
  destruct (follow_cycle swap (length q) i i q s) as [[q' s']|]; [|done]. rewrite !some_bind. apply IH.
Qed.

Lemma apply_permutation_hom p s :
  apply_permutation swap' p (h s) = let* s' := apply_permutation swap p s in ret (h s').
Proof.
  unfold apply_permutation. destruct (good_permutation p); [|done]. cbn [ensure]. rgo. rewrite rbind_ret.
  rewrite permutation_loop_hom. by destruct (permutation_loop swap (length p) 0 p s) as [[q' s']|].
Qed.

End homomorphism.

(** apply_permutation reorders in place: for a vector of indices as long as
    the vector, it throws unless every index occurs, and otherwise the loops over
    the cycles end and element i of the result is element p(i) of the vector, so
    the result is a permutation of it. *)
Theorem apply_permutation_spec {A} (p : list nat) (v : list A) :
  length p = length v ->
  (~ p ≡ₚ seq 0 (length p) -> apply_permutation_vector p v = throw)
  /\ (p ≡ₚ seq 0 (length p) -> exists v', apply_permutation_vector p v = ret v' /\ v' ≡ₚ v
        /\ forall i k, p !! i = Some k -> v' !! i = v !! k).
Proof.
  intros L. unfold apply_permutation_vector. rewrite L, Nat.eqb_refl. cbn [ensure]. rgo. split.
  - intros N. unfold apply_permutation. destruct (good_permutation p) eqn:G; [|done].
    apply good_permutation_iff in G. by rewrite L in G.
  - rewrite <- L. intros P. exists (reorder p v). split; [by apply apply_permutation_ok|]. rewrite L in P.
    split; [by apply reorder_permutation|]. intros i k E.
    rewrite reorder_lookup by (by apply permutation_range). by rewrite E.
Qed.

Lemma apply_permutation_spec_witness : exists v',
  apply_permutation_vector [2; 0; 3; 1; 4]%nat [10; 11; 12; 13; 14] = ret v' /\ v' !! 2%nat = Some 13.
Proof.
  destruct (proj2 (apply_permutation_spec [2; 0; 3; 1; 4]%nat [10; 11; 12; 13; 14] eq_refl)) as (v' & E & _ & H).
  - apply good_permutation_iff. reflexivity.
  - exists v'. split; [exact E|]. exact (H 2%nat 3%nat eq_refl).
Defined.

(** ** Offsets *)

Lemma offsets_back previous off :
  fits 64 previous -> Forall (fits 64) off -> add_previous previous (sub_previous previous off) = off.
Proof.
  intros Hp F. revert previous Hp. induction F as [|x off Hx F IH]; intros previous Hp; [done|].
  cbn [sub_previous add_previous]. assert (u64 (u64 (x - previous) + previous) = x) as ->.
  { unfold wrap. rewrite Z.add_mod_idemp_l by lia. replace (x - previous + previous) with x by lia. by apply Z.mod_small. }
  by rewrite IH.
Qed.

(** Ring offsets: the relative offsets of 64-bit positions are 64-bit, as
    many, and read back as the positions in increasing order. *)
Theorem offsets_roundtrip off :
  Forall (fits 64) off ->
  let rel := absolute_output_offsets_to_relative off in
  Forall (fits 64) rel /\ length rel = length off
  /\ Sorted Z.le (relative_output_offsets_to_absolute rel) /\ relative_output_offsets_to_absolute rel ≡ₚ off.
Proof.
  intros F rel. unfold rel, absolute_output_offsets_to_relative.
  pose proof (merge_sort_Permutation Z.le off) as P. pose proof (Sorted_merge_sort Z.le off) as S.
  assert (Forall (fits 64) (merge_sort Z.le off)) as FS by by rewrite P.
  assert (length (merge_sort Z.le off) = length off) as L by by rewrite P.
  destruct (merge_sort Z.le off) as [|x l] eqn:E; [done|]. apply Forall_cons in FS as [Hx FS].
  cbn [relative_output_offsets_to_absolute]. rewrite offsets_back by done. split; [|split; [|done]].
  - constructor; [done|]. clear -FS. revert x. induction FS as [|y l Hy FS IH]; intros x; [constructor|].
    constructor; [by apply wrap_range|apply IH].
  - rewrite <- L. cbn. f_equal. clear. revert x. induction l as [|y l IH]; intros x; cbn; [done|]. by rewrite IH.
Qed.

Lemma offsets_roundtrip_witness :
  relative_output_offsets_to_absolute (absolute_output_offsets_to_relative [900; 20; 350]) ≡ₚ [900; 20; 350]
  /\ absolute_output_offsets_to_relative [900; 20; 350] = [20; 330; 550].
Proof. split; [|by_eval]. apply (offsets_roundtrip [900; 20; 350]). by_eval. Defined.

End Permute.
