(* ===== verification/Config.v ===== *)
(** * Configuration

    [src/cryptonote_config.h]: the networks, the table of fork features with
    [get_fork_v], and the constants of [common_config] and [config<NETTYPE>]
    that the modelled code reads. *)

From S2P Require Import Prelude.

Module Config.

Inductive network_type := MAINNET | TESTNET | STAGENET | FAKECHAIN | UNDEFINED.

#[global] Instance network_type_eq_dec : EqDecision network_type.
Proof. solve_decision. Defined.

Inductive hard_fork_feature :=
  | FORK_POW_CN_HEAVY | FORK_POW_CN_GPU
  | FORK_V2_DIFFICULTY | FORK_V3_DIFFICULTY | FORK_V4_DIFFICULTY
  | FORK_FIXED_FEE | FORK_NEED_V3_TXES
  | FORK_RINGSIZE_INC | FORK_RINGSIZE_INC_REQ
  | FORK_BULLETPROOFS | FORK_BULLETPROOFS_REQ
  | FORK_STRICT_TX_SEMANTICS | FORK_DEV_FUND | FORK_FEE_V2
  | FORK_UNIFORM_IDS | FORK_UNIFORM_IDS_REQ | FORK_CHECK_BLOCK_BACKDATE.

#[global] Instance hard_fork_feature_eq_dec : EqDecision hard_fork_feature.
Proof. solve_decision. Defined.

Record hardfork_conf := {
  ft : hard_fork_feature;
  mainnet : Z;
  testnet : Z;
  stagenet : Z
}.

Definition FORK_ID_DISABLED : Z := 0xff.

Definition FORK_CONFIG : list hardfork_conf := [
  {| ft := FORK_POW_CN_HEAVY; mainnet := 3; testnet := 3; stagenet := 1 |};
  {| ft := FORK_POW_CN_GPU; mainnet := 6; testnet := 9; stagenet := 1 |};
  {| ft := FORK_V2_DIFFICULTY; mainnet := 2; testnet := 2; stagenet := 1 |};
  {| ft := FORK_V3_DIFFICULTY; mainnet := 4; testnet := 4; stagenet := 1 |};
  {| ft := FORK_V4_DIFFICULTY; mainnet := 6; testnet := 9; stagenet := 1 |};
  {| ft := FORK_FIXED_FEE; mainnet := 4; testnet := 4; stagenet := 1 |};
  {| ft := FORK_NEED_V3_TXES; mainnet := 4; testnet := 4; stagenet := 1 |};
  {| ft := FORK_STRICT_TX_SEMANTICS; mainnet := 5; testnet := 5; stagenet := 1 |};
  {| ft := FORK_DEV_FUND; mainnet := 5; testnet := 5; stagenet := 1 |};
  {| ft := FORK_FEE_V2; mainnet := 5; testnet := 6; stagenet := 1 |};
  {| ft := FORK_RINGSIZE_INC; mainnet := 6; testnet := 8; stagenet := 1 |};
  {| ft := FORK_RINGSIZE_INC_REQ; mainnet := 7; testnet := 9; stagenet := 1 |};
  {| ft := FORK_BULLETPROOFS; mainnet := 6; testnet := 8; stagenet := 1 |};
  {| ft := FORK_BULLETPROOFS_REQ; mainnet := 7; testnet := 9; stagenet := 1 |};
  {| ft := FORK_UNIFORM_IDS; mainnet := 6; testnet := 7; stagenet := 1 |};
  {| ft := FORK_UNIFORM_IDS_REQ; mainnet := 7; testnet := 8; stagenet := 1 |};
  {| ft := FORK_CHECK_BLOCK_BACKDATE; mainnet := 9; testnet := 10; stagenet := 1 |}
].

(** The loop over [FORK_CONFIG]; on another network the search goes on to the
    end of the table, where the feature is reported as disabled. *)
Fixpoint find_fork (conf : list hardfork_conf) (nt : network_type) (f : hard_fork_feature) : Z :=
  match conf with
  | [] => FORK_ID_DISABLED
  | c :: conf' =>
      if decide (ft c = f) then
        match nt with
        | MAINNET => mainnet c
        | TESTNET => testnet c
        | STAGENET => stagenet c
        | _ => find_fork conf' nt f
        end
      else find_fork conf' nt f
  end.

Definition get_fork_v (nt : network_type) (f : hard_fork_feature) : Z :=
  find_fork FORK_CONFIG nt f.

Definition MK_COINS (coins : Z) : Z := u64 (coins * 1000000000).

Definition MONEY_SUPPLY : Z := 88888888000000000.
Definition FINAL_SUBSIDY : Z := 4000000000.
Definition GENESIS_BLOCK_REWARD : Z := 8800000000000000.
Definition CRYPTONOTE_REWARD_BLOCKS_WINDOW : nat := 60.

(** ** [common_config] *)

Definition DIFFICULTY_TARGET : Z := 240.

Definition DIFFICULTY_WINDOW_V1 : nat := 720.
Definition DIFFICULTY_LAG_V1 : nat := 15.
Definition DIFFICULTY_CUT_V1 : nat := 60.
Definition DIFFICULTY_BLOCKS_COUNT_V1 : nat := DIFFICULTY_WINDOW_V1 + DIFFICULTY_LAG_V1.

Definition DIFFICULTY_WINDOW_V2 : nat := 17.
Definition DIFFICULTY_CUT_V2 : nat := 6.
Definition DIFFICULTY_BLOCKS_COUNT_V2 : nat := DIFFICULTY_WINDOW_V2 + DIFFICULTY_CUT_V2 * 2.
Definition BLOCKCHAIN_TIMESTAMP_CHECK_WINDOW_V2 : nat := 12.
Definition BLOCK_FUTURE_TIME_LIMIT_V2 : Z := 60 * 24.

Definition DIFFICULTY_WINDOW_V3 : nat := 60.
Definition DIFFICULTY_BLOCKS_COUNT_V3 : nat := DIFFICULTY_WINDOW_V3 + 1.
Definition BLOCKCHAIN_TIMESTAMP_CHECK_WINDOW_V3 : nat := 11.
Definition BLOCK_FUTURE_TIME_LIMIT_V3 : Z := DIFFICULTY_TARGET * 3.

Definition DIFFICULTY_WINDOW_V4 : nat := 45.
Definition DIFFICULTY_BLOCKS_COUNT_V4 : nat := DIFFICULTY_WINDOW_V4 + 1.

Definition CRYPTONOTE_BLOCK_GRANTED_FULL_REWARD_ZONE : Z := 240 * 1024.
Definition BLOCK_SIZE_GROWTH_FAVORED_ZONE : Z := CRYPTONOTE_BLOCK_GRANTED_FULL_REWARD_ZONE * 4.
Definition TRANSACTION_SIZE_LIMIT : Z := 300 * 1024.

(** [(uint64_t)(6 * (30.4375 * 24 * 3600) / DIFFICULTY_TARGET)]; the products
    and the quotient are exact in double precision. *)
Definition COIN_EMISSION_HEIGHT_INTERVAL : Z := 6 * (304375 * 24 * 3600 / 10000) / DIFFICULTY_TARGET.

Definition COIN_EMISSION_STEPS : list Z := [
  32000000000; 36450000000; 41970000000; 48590000000; 56280000000;
  65070000000; 65070000000; 60820000000; 56840000000; 53130000000;
  49660000000; 46420000000; 43390000000; 40550000000; 37910000000;
  35430000000; 33120000000; 30950000000; 28930000000; 27040000000;
  25280000000; 23630000000; 22080000000; 20640000000; 19290000000;
  18030000000; 16850000000; 15750000000; 14720000000; 13760000000;
  12860000000; 12020000000; 11240000000; 10500000000; 9820000000;
  9180000000; 8580000000; 8020000000; 7490000000; 7000000000;
  6540000000; 6120000000; 5720000000; 5340000000; 4990000000;
  4670000000; 4360000000; 4080000000
].

(** ** [config<NETTYPE>] *)

Record config := {
  LEGACY_LONG_ADDRESS_BASE58_PREFIX : Z;
  LEGACY_LONG_INTEGRATED_ADDRESS_BASE58_PREFIX : Z;
  LEGACY_LONG_SUBADDRESS_BASE58_PREFIX : Z;
  RYO_KURZ_SUBADDRESS_BASE58_PREFIX : Z;
  RYO_KURZ_ADDRESS_BASE58_PREFIX : Z;
  RYO_LONG_ADDRESS_BASE58_PREFIX : Z;
  RYO_LONG_INTEGRATED_ADDRESS_BASE58_PREFIX : Z;
  RYO_LONG_SUBADDRESS_BASE58_PREFIX : Z;
  P2P_DEFAULT_PORT : Z;
  RPC_DEFAULT_PORT : Z;
  ZMQ_RPC_DEFAULT_PORT : Z;
  DEV_FUND_PERIOD : Z;
  DEV_FUND_AMOUNT : Z;
  DEV_FUND_LENGTH : Z;
  DEV_FUND_START : Z;
  DEV_FUND_V2_START : Z
}.

Definition DEV_FUND_V2_INCREASE (c : config) : Z := DEV_FUND_AMOUNT c / DEV_FUND_LENGTH c.

Definition DEV_FUND_V2_AMOUNT (c : config) : Z :=
  u64 (u64 (DEV_FUND_LENGTH c - u64 (DEV_FUND_V2_START c - DEV_FUND_START c) / DEV_FUND_PERIOD c)
       * DEV_FUND_V2_INCREASE c).

Definition config_MAINNET : config := {|
  LEGACY_LONG_ADDRESS_BASE58_PREFIX := 0x2bb39a;
  LEGACY_LONG_INTEGRATED_ADDRESS_BASE58_PREFIX := 0x29339a;
  LEGACY_LONG_SUBADDRESS_BASE58_PREFIX := 0x8319a;
  RYO_KURZ_SUBADDRESS_BASE58_PREFIX := 0x3fe192;
  RYO_KURZ_ADDRESS_BASE58_PREFIX := 0x2c6192;
  RYO_LONG_ADDRESS_BASE58_PREFIX := 0x2ce192;
  RYO_LONG_INTEGRATED_ADDRESS_BASE58_PREFIX := 0x2de192;
  RYO_LONG_SUBADDRESS_BASE58_PREFIX := 0x2fe192;
  P2P_DEFAULT_PORT := 12210;
  RPC_DEFAULT_PORT := 12211;
  ZMQ_RPC_DEFAULT_PORT := 12212;
  DEV_FUND_PERIOD := 15 * 24 * 7;
  DEV_FUND_AMOUNT := MK_COINS 8000000;
  DEV_FUND_LENGTH := 52 * 6;
  DEV_FUND_START := 161500;
  DEV_FUND_V2_START := 388300
|}.

Definition config_TESTNET : config := {|
  LEGACY_LONG_ADDRESS_BASE58_PREFIX := 0x37751a;
  LEGACY_LONG_INTEGRATED_ADDRESS_BASE58_PREFIX := 0x34f51a;
  LEGACY_LONG_SUBADDRESS_BASE58_PREFIX := 0x1d351a;
  RYO_KURZ_SUBADDRESS_BASE58_PREFIX := 0x2ae192;
  RYO_KURZ_ADDRESS_BASE58_PREFIX := 0x2b6192;
  RYO_LONG_ADDRESS_BASE58_PREFIX := 0x306192;
  RYO_LONG_INTEGRATED_ADDRESS_BASE58_PREFIX := 0x29e192;
  RYO_LONG_SUBADDRESS_BASE58_PREFIX := 0x30e192;
  P2P_DEFAULT_PORT := 13310;
  RPC_DEFAULT_PORT := 13311;
  ZMQ_RPC_DEFAULT_PORT := 13312;
  DEV_FUND_PERIOD := 15 * 24;
  DEV_FUND_AMOUNT := MK_COINS 8000000;
  DEV_FUND_LENGTH := 7 * 52 * 6;
  DEV_FUND_START := 129750;
  DEV_FUND_V2_START := 283110
|}.

Definition config_STAGENET : config := {|
  LEGACY_LONG_ADDRESS_BASE58_PREFIX := 0x37751a;
  LEGACY_LONG_INTEGRATED_ADDRESS_BASE58_PREFIX := 0x34f51a;
  LEGACY_LONG_SUBADDRESS_BASE58_PREFIX := 0x1d351a;
  RYO_KURZ_SUBADDRESS_BASE58_PREFIX := 0xdc2192;
  RYO_KURZ_ADDRESS_BASE58_PREFIX := 0x1fc2192;
  RYO_LONG_ADDRESS_BASE58_PREFIX := 0xd1c2192;
  RYO_LONG_INTEGRATED_ADDRESS_BASE58_PREFIX := 0x1fbbe192;
  RYO_LONG_SUBADDRESS_BASE58_PREFIX := 0xe3c2192;
  P2P_DEFAULT_PORT := 14410;
  RPC_DEFAULT_PORT := 14411;
  ZMQ_RPC_DEFAULT_PORT := 14412;
  DEV_FUND_PERIOD := 15 * 24;
  DEV_FUND_AMOUNT := MK_COINS 8000000;
  DEV_FUND_LENGTH := 7 * 52 * 6;
  DEV_FUND_START := 129750;
  DEV_FUND_V2_START := 283110
|}.

(** The networks with a configuration of their own. *)
Definition net_config (nt : network_type) : option config :=
  match nt with
  | MAINNET => Some config_MAINNET
  | TESTNET => Some config_TESTNET
  | STAGENET => Some config_STAGENET
  | _ => None
  end.

Definition config_get_p2p_port (nt : network_type) : Z := from_option P2P_DEFAULT_PORT 0 (net_config nt).
Definition config_get_rpc_port (nt : network_type) : Z := from_option RPC_DEFAULT_PORT 0 (net_config nt).

End Config.
