(* ===== verification/IntUtil.v ===== *)
(** * Double-width integer helpers

    The functions of [src/common/int-util.h]: rotations, the 64x64->128
    multiplication, long division of a 128-bit number by a 32-bit one, and the
    byte swaps; and the portable multiplication of
    [src/cryptonote_basic/difficulty.cpp]. *)

From S2P Require Import Prelude.

Module IntUtil.

Definition rol32 (x r : Z) : Z :=
  Z.lor (u32 (x ≪ Z.land r 31)) (x ≫ Z.land (- r) 31).

Definition rol64 (x r : Z) : Z :=
  Z.lor (u64 (x ≪ Z.land r 63)) (x ≫ Z.land (- r) 63).

Definition hi_dword (val : Z) : Z := val ≫ 32.
Definition lo_dword (val : Z) : Z := Z.land val 0xFFFFFFFF.

(** The product as [(product_lo, product_hi)]. *)
Definition mul128 (multiplier multiplicand : Z) : Z * Z :=
  let a := hi_dword multiplier in
  let b := lo_dword multiplier in
  let c := hi_dword multiplicand in
  let d := lo_dword multiplicand in
  let ac := u64 (a * c) in
  let ad := u64 (a * d) in
  let bc := u64 (b * c) in
  let bd := u64 (b * d) in
  let adbc := u64 (ad + bc) in
  let adbc_carry := if adbc <? ad then 1 else 0 in
  let product_lo := u64 (bd + u64 (adbc ≪ 32)) in
  let product_lo_carry := if product_lo <? bd then 1 else 0 in
  let product_hi :=
    u64 (u64 (u64 (ac + (adbc ≫ 32)) + u64 (adbc_carry ≪ 32)) + product_lo_carry) in
  (product_lo, product_hi).

(** [div_with_reminder dividend divisor remainder] returns the quotient and the
    new value of [*remainder]. *)
Definition div_with_reminder (dividend divisor remainder : Z) : Z * Z :=
  let dividend := Z.lor dividend (u64 (remainder ≪ 32)) in
  (dividend / divisor, u32 (dividend mod divisor)).

(** Returns [(quotient_hi, quotient_lo, remainder)]. *)
Definition div128_32 (dividend_hi dividend_lo divisor : Z) : Z * Z * Z :=
  let remainder := 0 in
  let d3 := hi_dword dividend_hi in
  let d2 := lo_dword dividend_hi in
  let d1 := hi_dword dividend_lo in
  let d0 := lo_dword dividend_lo in
  let '(q3, remainder) := div_with_reminder d3 divisor remainder in
  let quotient_hi := u64 (q3 ≪ 32) in
  let '(q2, remainder) := div_with_reminder d2 divisor remainder in
  let quotient_hi := Z.lor quotient_hi q2 in
  let '(q1, remainder) := div_with_reminder d1 divisor remainder in
  let quotient_lo := u64 (q1 ≪ 32) in
  let '(q0, remainder) := div_with_reminder d0 divisor remainder in
  let quotient_lo := Z.lor quotient_lo q0 in
  (quotient_hi, quotient_lo, remainder).

Definition swap32 (x : Z) : Z :=
  let x := Z.lor (u32 (Z.land x 0x00ff00ff ≪ 8)) (Z.land x 0xff00ff00 ≫ 8) in
  Z.lor (u32 (x ≪ 16)) (x ≫ 16).

Definition swap64 (x : Z) : Z :=
  let x := Z.lor (u64 (Z.land x 0x00ff00ff00ff00ff ≪ 8))
                 (Z.land x 0xff00ff00ff00ff00 ≫ 8) in
  let x := Z.lor (u64 (Z.land x 0x0000ffff0000ffff ≪ 16))
                 (Z.land x 0xffff0000ffff0000 ≫ 16) in
  Z.lor (u64 (x ≪ 32)) (x ≫ 32).

(** The macro [SWAP64]. *)
Definition SWAP64 (x : Z) : Z :=
  Z.lor (u64 (Z.land x 0x00000000000000ff ≪ 56))
  (Z.lor (u64 (Z.land x 0x000000000000ff00 ≪ 40))
  (Z.lor (u64 (Z.land x 0x0000000000ff0000 ≪ 24))
  (Z.lor (u64 (Z.land x 0x00000000ff000000 ≪ 8))
  (Z.lor (Z.land x 0x000000ff00000000 ≫ 8)
  (Z.lor (Z.land x 0x0000ff0000000000 ≫ 24)
  (Z.lor (Z.land x 0x00ff000000000000 ≫ 40)
         (Z.land x 0xff00000000000000 ≫ 56))))))).

(** The portable [mul] of difficulty.cpp, returning [(low, high)]. *)
Definition mul_portable (a b : Z) : Z * Z :=
  let aLow := Z.land a 0xFFFFFFFF in
  let aHigh := a ≫ 32 in
  let bLow := Z.land b 0xFFFFFFFF in
  let bHigh := b ≫ 32 in
  let res := u64 (aLow * bLow) in
  let lowRes1 := Z.land res 0xFFFFFFFF in
  let carry := res ≫ 32 in
  let res := u64 (u64 (aHigh * bLow) + carry) in
  let highResHigh1 := res ≫ 32 in
  let highResLow1 := Z.land res 0xFFFFFFFF in
  let res := u64 (aLow * bHigh) in
  let lowRes2 := Z.land res 0xFFFFFFFF in
  let carry := res ≫ 32 in
  let res := u64 (u64 (aHigh * bHigh) + carry) in
  let highResHigh2 := res ≫ 32 in
  let highResLow2 := Z.land res 0xFFFFFFFF in
  let r := u64 (highResLow1 + lowRes2) in
  let carry := r ≫ 32 in
  let low := Z.lor (u64 (r ≪ 32)) lowRes1 in
  let r := u64 (u64 (highResHigh1 + highResLow2) + carry) in
  let d3 := Z.land r 0xFFFFFFFF in
  let carry := r ≫ 32 in
  let r := u64 (highResHigh2 + carry) in
  let high := Z.lor d3 (u64 (r ≪ 32)) in
  (low, high).

(** ** Dwords *)

Lemma hi_dword_div x : hi_dword x = x / 2 ^ 32.
Proof. apply shiftr_div. lia. Qed.

Lemma lo_dword_mod x : lo_dword x = x mod 2 ^ 32.
Proof. apply (land_mask x 32). lia. Qed.

Lemma dwords_range x :
  fits 64 x -> fits 32 (hi_dword x) /\ fits 32 (lo_dword x).
Proof. rewrite hi_dword_div, lo_dword_mod. unfold fits. intros. split; dlia. Qed.

Lemma dwords_split x : x = hi_dword x * 2 ^ 32 + lo_dword x.
Proof. rewrite hi_dword_div, lo_dword_mod. dlia. Qed.

(** Products of two dwords stay below [2^64 - 2^33 + 1]. *)
Lemma dword_mul x y :
  fits 32 x -> fits 32 y -> 0 <= x * y <= (2 ^ 32 - 1) * (2 ^ 32 - 1).
Proof. unfold fits. nia. Qed.

(** ** Multiplication *)

Lemma mul128_fits a b : fits 64 (mul128 a b).1 /\ fits 64 (mul128 a b).2.
Proof. split; apply wrap_range; lia. Qed.

(** The carry chain of [mul128], on the four partial products. *)
Lemma mul128_carries ac ad bc bd :
  let M := (2 ^ 32 - 1) * (2 ^ 32 - 1) in
  0 <= ac <= M -> 0 <= ad <= M -> 0 <= bc <= M -> 0 <= bd <= M ->
  let adbc := u64 (ad + bc) in
  let lo := u64 (bd + u64 (adbc ≪ 32)) in
  lo + 2 ^ 64 *
    u64 (u64 (u64 (ac + (adbc ≫ 32)) + u64 ((if adbc <? ad then 1 else 0) ≪ 32))
         + (if lo <? bd then 1 else 0))
  = ac * 2 ^ 64 + (ad + bc) * 2 ^ 32 + bd.
Proof.
  intros M Hac Had Hbc Hbd adbc lo. subst M.
  pose proof (wrap_add_carry 64 ad bc ltac:(lia) ltac:(unfold fits; lia)
    ltac:(unfold fits; lia)) as C1. fold adbc in C1.
  pose proof (wrap_range 64 (ad + bc) ltac:(lia)) as R1. fold adbc in R1.
  set (k1 := if adbc <? ad then 1 else 0) in *.
  assert (Hk1 : 0 <= k1 <= 1) by (subst k1; destruct (adbc <? ad); lia).
  clearbody adbc k1. unfold fits in R1.
  assert (E1 : u64 (adbc ≪ 32) = adbc mod 2 ^ 32 * 2 ^ 32).
  { rewrite shiftl_mul by lia. unfold wrap.
    change (2 ^ 64) with (2 ^ 32 * 2 ^ 32). by rewrite Z.mul_mod_distr_r by lia. }
  pose proof (Z.mod_pos_bound adbc (2 ^ 32) ltac:(lia)).
  pose proof (Z.div_mod adbc (2 ^ 32) ltac:(lia)).
  pose proof (wrap_add_carry 64 bd (u64 (adbc ≪ 32)) ltac:(lia)
    ltac:(unfold fits; lia) ltac:(unfold fits; lia)) as C2. fold lo in C2.
  pose proof (wrap_range 64 (bd + u64 (adbc ≪ 32)) ltac:(lia)) as R2. fold lo in R2.
  set (k2 := if lo <? bd then 1 else 0) in *.
  assert (Hk2 : 0 <= k2 <= 1) by (subst k2; destruct (lo <? bd); lia).
  clearbody lo k2. unfold fits in R2. rewrite E1 in C2.
  rewrite shiftr_div, shiftl_mul by lia.
  set (sh := adbc / 2 ^ 32) in *. set (sl := adbc mod 2 ^ 32) in *. clearbody sh sl.
  rewrite (wrap_small 64 (ac + sh)) by (unfold fits; lia).
  rewrite (wrap_small 64 (k1 * 2 ^ 32)) by (unfold fits; lia).
  assert (ac + sh + k1 * 2 ^ 32 + k2 < 2 ^ 64) by lia.
  rewrite (wrap_small 64 (ac + sh + _)) by (unfold fits; lia).
  rewrite wrap_small by (unfold fits; lia). lia.
Qed.

Lemma mul128_correct a b :
  fits 64 a -> fits 64 b ->
  (mul128 a b).1 + 2 ^ 64 * (mul128 a b).2 = a * b.
Proof.
  intros Ha Hb.
  destruct (dwords_range a Ha) as [Hah Hal], (dwords_range b Hb) as [Hbh Hbl].
  pose proof (dwords_split a) as Ea. pose proof (dwords_split b) as Eb.
  unfold mul128. cbv zeta. cbn [fst snd].
  set (ah := hi_dword a) in *. set (al := lo_dword a) in *.
  set (bh := hi_dword b) in *. set (bl := lo_dword b) in *.
  pose proof (dword_mul _ _ Hah Hbh). pose proof (dword_mul _ _ Hah Hbl).
  pose proof (dword_mul _ _ Hal Hbh). pose proof (dword_mul _ _ Hal Hbl).
  assert (E : a * b = ah * bh * 2 ^ 64 + (ah * bl + al * bh) * 2 ^ 32 + al * bl)
    by (rewrite Ea, Eb; ring).
  clearbody ah al bh bl. rewrite E.
  rewrite !(wrap_small 64 (_ * _)) by (unfold fits; lia).
  apply mul128_carries; lia.
Qed.

(** [mul128] returns the low and the high word of the exact product. *)
Lemma mul128_spec a b :
  fits 64 a -> fits 64 b -> mul128 a b = (a * b mod 2 ^ 64, a * b / 2 ^ 64).
Proof.
  intros Ha Hb. pose proof (mul128_correct a b Ha Hb) as E.
  destruct (mul128_fits a b) as [Hlo Hhi].
  destruct (mul128 a b) as [lo hi]. cbn [fst snd] in *. unfold fits in *.
  f_equal; [apply Z.mod_unique with hi | apply Z.div_unique with lo]; lia.
Qed.

Ltac split_dword x q r :=
  pose proof (Z.div_mod x (2 ^ 32) ltac:(lia));
  pose proof (Z.mod_pos_bound x (2 ^ 32) ltac:(lia));
  set (q := x / 2 ^ 32) in *; set (r := x mod 2 ^ 32) in *; clearbody q r.

(** The carry chain of the portable multiplication. *)
Lemma mul_portable_carries ll hl lh hh :
  let M := (2 ^ 32 - 1) * (2 ^ 32 - 1) in
  0 <= ll <= M -> 0 <= hl <= M -> 0 <= lh <= M -> 0 <= hh <= M ->
  let res2 := u64 (hl + ll / 2 ^ 32) in
  let res4 := u64 (hh + lh / 2 ^ 32) in
  let r1 := u64 (res2 mod 2 ^ 32 + lh mod 2 ^ 32) in
  let r2 := u64 (u64 (res2 / 2 ^ 32 + res4 mod 2 ^ 32) + r1 / 2 ^ 32) in
  let r3 := u64 (res4 / 2 ^ 32 + r2 / 2 ^ 32) in
  Z.lor (u64 (r1 * 2 ^ 32)) (ll mod 2 ^ 32)
    + 2 ^ 64 * Z.lor (r2 mod 2 ^ 32) (u64 (r3 * 2 ^ 32))
  = hh * 2 ^ 64 + (hl + lh) * 2 ^ 32 + ll.
Proof.
  intros M Hll Hhl Hlh Hhh. subst M. cbv zeta.
  split_dword ll llh lll. split_dword lh lhh lhl.
  rewrite (wrap_small 64 (hl + llh)) by (unfold fits; lia).
  rewrite (wrap_small 64 (hh + lhh)) by (unfold fits; lia).
  split_dword (hl + llh) r2h r2l. split_dword (hh + lhh) r4h r4l.
  rewrite (wrap_small 64 (r2l + lhl)) by (unfold fits; lia).
  rewrite (wrap_small 64 (r2h + r4l)) by (unfold fits; lia).
  assert (E : forall v, u64 (v * 2 ^ 32) = v mod 2 ^ 32 * 2 ^ 32).
  { intros. unfold wrap. change (2 ^ 64) with (2 ^ 32 * 2 ^ 32).
    by rewrite Z.mul_mod_distr_r by lia. }
  rewrite !E. split_dword (r2l + lhl) s1h s1l.
  rewrite (wrap_small 64 (r2h + r4l + s1h)) by (unfold fits; lia).
  split_dword (r2h + r4l + s1h) s2h s2l.
  rewrite (wrap_small 64 (r4h + s2h)) by (unfold fits; lia).
  rewrite (Z.mod_small (r4h + s2h)) by lia.
  rewrite lor_add, lor_add' by lia. lia.
Qed.

(** The portable multiplication computes the same product as [mul128]. *)
Lemma mul_portable_mul128 a b :
  fits 64 a -> fits 64 b -> mul_portable a b = mul128 a b.
Proof.
  intros Ha Hb. rewrite mul128_spec by done.
  destruct (dwords_range a Ha) as [Hah Hal], (dwords_range b Hb) as [Hbh Hbl].
  pose proof (dwords_split a) as Ea. pose proof (dwords_split b) as Eb.
  assert (E : (mul_portable a b).1 + 2 ^ 64 * (mul_portable a b).2 = a * b).
  { unfold mul_portable. cbv zeta. cbn [fst snd].
    fold (lo_dword a) (lo_dword b) (hi_dword a) (hi_dword b).
    set (ah := hi_dword a) in *. set (al := lo_dword a) in *.
    set (bh := hi_dword b) in *. set (bl := lo_dword b) in *.
    pose proof (dword_mul _ _ Hah Hbh). pose proof (dword_mul _ _ Hah Hbl).
    pose proof (dword_mul _ _ Hal Hbh). pose proof (dword_mul _ _ Hal Hbl).
    assert (E : a * b = ah * bh * 2 ^ 64 + (ah * bl + al * bh) * 2 ^ 32 + al * bl)
      by (rewrite Ea, Eb; ring).
    clearbody ah al bh bl. rewrite E.
    rewrite !(wrap_small 64 (_ * _)) by (unfold fits; lia).
    change 0xFFFFFFFF with (2 ^ 32 - 1). rewrite !land_mask by lia.
    rewrite !shiftr_div, !shiftl_mul by lia.
    apply mul_portable_carries; lia. }
  assert (R : fits 64 (mul_portable a b).1).
  { unfold mul_portable. cbv zeta. cbn [fst snd].
    apply fits_lor; [lia| |]; [apply wrap_range; lia|].
    change 0xFFFFFFFF with (2 ^ 32 - 1). rewrite land_mask by lia. unfold fits. dlia. }
  destruct (mul_portable a b) as [lo hi]. cbn [fst snd] in *. unfold fits in *.
  f_equal; [apply Z.mod_unique with hi | apply Z.div_unique with lo]; lia.
Qed.

(** ** Division *)

Lemma div_with_reminder_spec digit divisor rem :
  fits 32 digit -> fits 32 divisor -> 0 <= rem < divisor ->
  div_with_reminder digit divisor rem =
    ((rem * 2 ^ 32 + digit) / divisor, (rem * 2 ^ 32 + digit) mod divisor) /\
  0 <= (rem * 2 ^ 32 + digit) / divisor < 2 ^ 32.
Proof.
  unfold fits. intros Hd Hv Hr. unfold div_with_reminder.
  rewrite shiftl_mul, (wrap_small 64) by (unfold fits; lia).
  rewrite lor_add' by lia.
  pose proof (Z.mod_pos_bound (rem * 2 ^ 32 + digit) divisor ltac:(lia)).
  split; [by rewrite wrap_small by (unfold fits; lia)|].
  split; [apply Z.div_pos; lia|]. apply Z.div_lt_upper_bound; lia.
Qed.

(** One digit of the long division: quotient [q], remainder [r]. *)
Ltac div_digit d rem Hd Hr q r R :=
  match goal with Hv : fits 32 ?v |- _ =>
    destruct (div_with_reminder_spec d v rem Hd Hv Hr) as [-> ?];
    pose proof (Z.div_mod (rem * 2 ^ 32 + d) v ltac:(lia));
    pose proof (Z.mod_pos_bound (rem * 2 ^ 32 + d) v ltac:(lia)) as R;
    set (q := _ / v) in *; set (r := _ mod v) in *; clearbody q r
  end.

(** [div128_32] is Euclidean division of the 128-bit dividend. *)
Lemma div128_32_correct hi lo divisor qh ql r :
  fits 64 hi -> fits 64 lo -> 0 < divisor < 2 ^ 32 ->
  div128_32 hi lo divisor = (qh, ql, r) ->
  hi * 2 ^ 64 + lo = (qh * 2 ^ 64 + ql) * divisor + r /\
  0 <= r < divisor /\ fits 64 qh /\ fits 64 ql.
Proof.
  intros Hhi Hlo Hd.
  destruct (dwords_range hi Hhi) as [H3 H2], (dwords_range lo Hlo) as [H1 H0].
  pose proof (dwords_split hi) as Ehi. pose proof (dwords_split lo) as Elo.
  unfold div128_32.
  set (d3 := hi_dword hi) in *. set (d2 := lo_dword hi) in *.
  set (d1 := hi_dword lo) in *. set (d0 := lo_dword lo) in *.
  clearbody d3 d2 d1 d0. subst hi lo.
  assert (Hd' : fits 32 divisor) by (unfold fits; lia).
  assert (R : 0 <= 0 < divisor) by lia.
  div_digit d3 0 H3 R q3 r3 R3. div_digit d2 r3 H2 R3 q2 r2 R2.
  div_digit d1 r2 H1 R2 q1 r1 R1. div_digit d0 r1 H0 R1 q0 r0 R0.
  rewrite !shiftl_mul, !(wrap_small 64 (_ * 2 ^ 32)) by (unfold fits; lia).
  rewrite !lor_add by lia. intros [= <- <- <-]. unfold fits in *.
  split; [|lia]. nia.
Qed.

(** ** Byte swaps *)

(** Prove [P i] for [0 <= i < n], [n] a literal, case by case. *)
Ltac forall_index n :=
  match goal with |- forall i, 0 <= i < _ -> @?P i =>
    let E := eval vm_compute in (seqZ 0 n) in
    apply (proj1 (Forall_seqZ P 0 n)); change (seqZ 0 n) with E;
    repeat apply Forall_cons_2; [.. | apply Forall_nil_2]; cbv beta
  end.

(** Push [Z.testbit _ k], [k] a literal, through the bit operations. *)
Ltac push_testbit :=
  unfold wrap;
  repeat match goal with
  | |- context [Z.testbit ?x (Zneg ?p)] => rewrite (Z.testbit_neg_r x (Zneg p)) by lia
  | |- context [Z.testbit (Z.lor ?x ?y) ?k] => rewrite (Z.lor_spec x y k)
  | |- context [Z.testbit (Z.land ?x ?y) ?k] =>
      rewrite (Z.land_spec x y k);
      let b := eval vm_compute in (Z.testbit y k) in change (Z.testbit y k) with b
  | |- context [Z.testbit (?x mod 2 ^ ?n) ?k] =>
      first [ rewrite (Z.mod_pow2_bits_low x n k) by lia
            | rewrite (Z.mod_pow2_bits_high x n k) by lia ]
  | |- context [Z.testbit (?x ≪ ?n) ?k] =>
      rewrite (Z.shiftl_spec x n k) by lia;
      let e := eval vm_compute in (k - n) in change (k - n) with e
  | |- context [Z.testbit (?x ≫ ?n) ?k] =>
      rewrite (Z.shiftr_spec x n k) by lia;
      let e := eval vm_compute in (k + n) in change (k + n) with e
  end;
  rewrite ?andb_false_r, ?andb_true_r, ?orb_false_r, ?orb_false_l.

Lemma SWAP64_fits x : fits 64 x -> fits 64 (SWAP64 x).
Proof.
  intros. unfold SWAP64.
  repeat (apply fits_lor; [lia| |]);
    first [ by apply wrap_range | apply fits_shiftr; [lia..|]; by apply fits_land ].
Qed.

Lemma swap64_fits x : fits 64 x -> fits 64 (swap64 x).
Proof.
  intros. unfold swap64.
  repeat first [ apply wrap_range; lia | apply fits_lor; [lia| |]
               | apply fits_shiftr; [lia..|] | apply fits_land; [lia| |lia] | done ].
Qed.

(** The two forms of the 64-bit byte swap agree. *)
Lemma swap64_SWAP64 x : fits 64 x -> swap64 x = SWAP64 x.
Proof.
  intros Hx. apply Z.bits_inj'. intros i Hi0.
  destruct (decide (i < 64)) as [Hlt|].
  - assert (Hi : 0 <= i < 64) by lia. clear Hi0 Hlt. revert i Hi.
    unfold swap64, SWAP64. cbv zeta. forall_index 64; push_testbit; reflexivity.
  - rewrite !(testbit_fits 64) by (auto using swap64_fits, SWAP64_fits; lia). done.
Qed.

(** Masking out the byte at bit [k]. *)
Lemma land_byte x k :
  0 <= k -> Z.land x (255 * 2 ^ k) = (x / 2 ^ k) mod 256 * 2 ^ k.
Proof.
  intros Hk. change 255 with (Z.ones 8). change 256 with (2 ^ 8).
  rewrite <- Z.land_ones, <- !Z.shiftl_mul_pow2, <- Z.shiftr_div_pow2 by lia.
  apply Z.bits_inj'. intros i Hi.
  rewrite Z.land_spec, !Z.shiftl_spec by lia.
  destruct (decide (i < k)).
  - by rewrite !(Z.testbit_neg_r _ (i - k)), andb_false_r by lia.
  - rewrite Z.land_spec, Z.shiftr_spec by lia. do 2 f_equal. lia.
Qed.

Ltac name_byte y b :=
  pose proof (Z.mod_pos_bound y 256 ltac:(lia));
  set (b := y mod 256) in *; clearbody b.

Lemma SWAP64_sum x :
  SWAP64 x = be_val 256 (le_digits 256 8 x).
Proof.
  unfold SWAP64, be_val, reverse. cbn -[Z.modulo Z.div Z.land Z.lor Z.shiftl Z.shiftr Z.add Z.mul].
  change 0x00000000000000ff with (255 * 2 ^ 0).
  change 0x000000000000ff00 with (255 * 2 ^ 8).
  change 0x0000000000ff0000 with (255 * 2 ^ 16).
  change 0x00000000ff000000 with (255 * 2 ^ 24).
  change 0x000000ff00000000 with (255 * 2 ^ 32).
  change 0x0000ff0000000000 with (255 * 2 ^ 40).
  change 0x00ff000000000000 with (255 * 2 ^ 48).
  change 0xff00000000000000 with (255 * 2 ^ 56).
  rewrite !land_byte, !shiftr_div, !shiftl_mul, !Z.div_div by lia.
  change (2 ^ 0) with 1. rewrite Z.div_1_r, Z.mul_1_r.
  rewrite (Z.div_mul _ (2 ^ 56)) by lia.
  repeat match goal with |- context [x / (256 * ?e)] =>
    let n := eval vm_compute in (Z.log2 (256 * e)) in change (256 * e) with (2 ^ n) end.
  change (x / 256) with (x / 2 ^ 8).
  name_byte x b0. name_byte (x / 2 ^ 8) b1. name_byte (x / 2 ^ 16) b2.
  name_byte (x / 2 ^ 24) b3. name_byte (x / 2 ^ 32) b4. name_byte (x / 2 ^ 40) b5.
  name_byte (x / 2 ^ 48) b6. name_byte (x / 2 ^ 56) b7.
  replace (b4 * 2 ^ 32 / 2 ^ 8) with (b4 * 2 ^ 24) by dlia.
  replace (b5 * 2 ^ 40 / 2 ^ 24) with (b5 * 2 ^ 16) by dlia.
  replace (b6 * 2 ^ 48 / 2 ^ 40) with (b6 * 2 ^ 8) by dlia.
  rewrite <- !Z.mul_assoc, <- !Z.pow_add_r by lia. cbn [Z.add Pos.add Pos.succ Pos.add_carry].
  rewrite !wrap_small by (unfold fits; lia).
  rewrite (lor_add b6 _ 8), (lor_add b5 _ 16), (lor_add b4 _ 24), (lor_add b3 _ 32),
    (lor_add b2 _ 40), (lor_add b1 _ 48), (lor_add b0 _ 56) by lia. lia.
Qed.

(** A byte swap reverses the little-endian bytes in memory. *)
Lemma SWAP64_bytes x : le_digits 256 8 (SWAP64 x) = be_digits 256 8 x.
Proof.
  rewrite SWAP64_sum. unfold be_val, be_digits.
  rewrite <- (length_le_digits 256 8 x) at 1. rewrite <- length_reverse.
  apply le_digits_val; [lia|]. rewrite Forall_reverse. by apply le_digits_range.
Qed.

Lemma swap64_involutive x : fits 64 x -> swap64 (swap64 x) = x.
Proof.
  intros Hx. rewrite !swap64_SWAP64 by auto using swap64_fits.
  rewrite SWAP64_sum, SWAP64_bytes. unfold be_val, be_digits.
  rewrite reverse_involutive, le_val_digits by lia. by apply Z.mod_small.
Qed.

(** ** Correctness *)

(** [mul128] returns the exact 128-bit product of two 64-bit numbers, and
    the portable [mul] of the difficulty code, which works on other word sizes,
    computes the same two words. *)
Theorem mul_exact a b :
  fits 64 a -> fits 64 b ->
  (mul128 a b).1 + 2 ^ 64 * (mul128 a b).2 = a * b /\ fits 64 (mul128 a b).1 /\
  fits 64 (mul128 a b).2 /\ mul_portable a b = mul128 a b.
Proof.
  intros Ha Hb. destruct (mul128_fits a b).
  split_and!; [by apply mul128_correct|done..|by apply mul_portable_mul128].
Qed.

Lemma mul_exact_witness :
  (mul128 (2 ^ 64 - 1) (2 ^ 64 - 3)).1 + 2 ^ 64 * (mul128 (2 ^ 64 - 1) (2 ^ 64 - 3)).2
  = (2 ^ 64 - 1) * (2 ^ 64 - 3).
Proof. apply mul_exact; by_eval. Defined.

(** [div128_32] is Euclidean division of a 128-bit number by a 32-bit
    divisor: quotient and remainder are exact and the quotient fits in its two
    words. *)
Theorem div128_32_euclid hi lo divisor :
  fits 64 hi -> fits 64 lo -> 0 < divisor < 2 ^ 32 ->
  let '(qh, ql, r) := div128_32 hi lo divisor in
  (qh * 2 ^ 64 + ql = (hi * 2 ^ 64 + lo) / divisor) /\ r = (hi * 2 ^ 64 + lo) mod divisor /\
  fits 64 qh /\ fits 64 ql.
Proof.
  intros Hhi Hlo Hd. destruct (div128_32 hi lo divisor) as [[qh ql] r] eqn:E.
  destruct (div128_32_correct hi lo divisor qh ql r Hhi Hlo Hd E) as (Hq & Hr & H1 & H2).
  split_and!; [apply Z.div_unique with r|apply Z.mod_unique with (qh * 2 ^ 64 + ql)|done..]; lia.
Qed.

Lemma div128_32_euclid_witness :
  let '(qh, ql, r) := div128_32 (2 ^ 63 + 5) 77 1000003 in
  (qh * 2 ^ 64 + ql = ((2 ^ 63 + 5) * 2 ^ 64 + 77) / 1000003) /\
  r = ((2 ^ 63 + 5) * 2 ^ 64 + 77) mod 1000003 /\ fits 64 qh /\ fits 64 ql.
Proof. apply div128_32_euclid; by_eval. Defined.

End IntUtil.
