(* ===== verification/Keccak.v ===== *)
(** * Keccak-f[1600] and the Keccak hash

    [src/crypto/keccak.c] and [cn_fast_hash] of [src/crypto/hash.c], against
    the permutation of FIPS 202 (section 3.2) and the sponge construction with
    the original Keccak padding. *)

From S2P Require Import Prelude.

Module Keccak.

Definition keccakf_rndc : list Z :=
  [ 0x0000000000000001; 0x0000000000008082; 0x800000000000808a;
    0x8000000080008000; 0x000000000000808b; 0x0000000080000001;
    0x8000000080008081; 0x8000000000008009; 0x000000000000008a;
    0x0000000000000088; 0x0000000080008009; 0x000000008000000a;
    0x000000008000808b; 0x800000000000008b; 0x8000000000008089;
    0x8000000000008003; 0x8000000000008002; 0x8000000000000080;
    0x000000000000800a; 0x800000008000000a; 0x8000000080008081;
    0x8000000000008080; 0x0000000080000001; 0x8000000080008008 ].

Definition ROTL64 (x y : Z) : Z := Z.lor (u64 (x ≪ y)) (x ≫ (64 - y)).
Definition not64 (x : Z) : Z := u64 (Z.lnot x).

(** The body of the round loop of [keccakf], statement by statement, on the
    25 lanes of the state. *)
Definition keccakf_round (rc : Z) (st : list Z) : list Z :=
  match st with
  | [s0; s1; s2; s3; s4; s5; s6; s7; s8; s9; s10; s11; s12; s13; s14; s15; s16;
     s17; s18; s19; s20; s21; s22; s23; s24] =>
    (* Theta *)
    let bc0 := Z.lxor (Z.lxor (Z.lxor (Z.lxor s0 s5) s10) s15) s20 in
    let bc1 := Z.lxor (Z.lxor (Z.lxor (Z.lxor s1 s6) s11) s16) s21 in
    let bc2 := Z.lxor (Z.lxor (Z.lxor (Z.lxor s2 s7) s12) s17) s22 in
    let bc3 := Z.lxor (Z.lxor (Z.lxor (Z.lxor s3 s8) s13) s18) s23 in
    let bc4 := Z.lxor (Z.lxor (Z.lxor (Z.lxor s4 s9) s14) s19) s24 in
    let t0 := bc0 in
    let t1 := bc1 in
    let bc0 := Z.lxor bc0 (ROTL64 bc2 1) in
    let bc1 := Z.lxor bc1 (ROTL64 bc3 1) in
    let bc2 := Z.lxor bc2 (ROTL64 bc4 1) in
    let bc3 := Z.lxor bc3 (ROTL64 t0 1) in
    let bc4 := Z.lxor bc4 (ROTL64 t1 1) in
    (* Rho Pi *)
    let t0 := Z.lxor s1 bc0 in
    let s0 := Z.lxor s0 bc4 in
    let s1 := ROTL64 (Z.lxor s6 bc0) 44 in
    let s6 := ROTL64 (Z.lxor s9 bc3) 20 in
    let s9 := ROTL64 (Z.lxor s22 bc1) 61 in
    let s22 := ROTL64 (Z.lxor s14 bc3) 39 in
    let s14 := ROTL64 (Z.lxor s20 bc4) 18 in
    let s20 := ROTL64 (Z.lxor s2 bc1) 62 in
    let s2 := ROTL64 (Z.lxor s12 bc1) 43 in
    let s12 := ROTL64 (Z.lxor s13 bc2) 25 in
    let s13 := ROTL64 (Z.lxor s19 bc3) 8 in
    let s19 := ROTL64 (Z.lxor s23 bc2) 56 in
    let s23 := ROTL64 (Z.lxor s15 bc4) 41 in
    let s15 := ROTL64 (Z.lxor s4 bc3) 27 in
    let s4 := ROTL64 (Z.lxor s24 bc3) 14 in
    let s24 := ROTL64 (Z.lxor s21 bc0) 2 in
    let s21 := ROTL64 (Z.lxor s8 bc2) 55 in
    let s8 := ROTL64 (Z.lxor s16 bc0) 45 in
    let s16 := ROTL64 (Z.lxor s5 bc4) 36 in
    let s5 := ROTL64 (Z.lxor s3 bc2) 28 in
    let s3 := ROTL64 (Z.lxor s18 bc2) 21 in
    let s18 := ROTL64 (Z.lxor s17 bc1) 15 in
    let s17 := ROTL64 (Z.lxor s11 bc0) 10 in
    let s11 := ROTL64 (Z.lxor s7 bc1) 6 in
    let s7 := ROTL64 (Z.lxor s10 bc4) 3 in
    let s10 := ROTL64 t0 1 in
    (* Chi *)
    let bc0 := s0 in
    let bc1 := s1 in
    let s0 := Z.lxor s0 (Z.land (not64 s1) s2) in
    let s1 := Z.lxor s1 (Z.land (not64 s2) s3) in
    let s2 := Z.lxor s2 (Z.land (not64 s3) s4) in
    let s3 := Z.lxor s3 (Z.land (not64 s4) bc0) in
    let s4 := Z.lxor s4 (Z.land (not64 bc0) bc1) in
    let bc0 := s5 in
    let bc1 := s6 in
    let s5 := Z.lxor s5 (Z.land (not64 s6) s7) in
    let s6 := Z.lxor s6 (Z.land (not64 s7) s8) in
    let s7 := Z.lxor s7 (Z.land (not64 s8) s9) in
    let s8 := Z.lxor s8 (Z.land (not64 s9) bc0) in
    let s9 := Z.lxor s9 (Z.land (not64 bc0) bc1) in
    let bc0 := s10 in
    let bc1 := s11 in
    let s10 := Z.lxor s10 (Z.land (not64 s11) s12) in
    let s11 := Z.lxor s11 (Z.land (not64 s12) s13) in
    let s12 := Z.lxor s12 (Z.land (not64 s13) s14) in
    let s13 := Z.lxor s13 (Z.land (not64 s14) bc0) in
    let s14 := Z.lxor s14 (Z.land (not64 bc0) bc1) in
    let bc0 := s15 in
    let bc1 := s16 in
    let s15 := Z.lxor s15 (Z.land (not64 s16) s17) in
    let s16 := Z.lxor s16 (Z.land (not64 s17) s18) in
    let s17 := Z.lxor s17 (Z.land (not64 s18) s19) in
    let s18 := Z.lxor s18 (Z.land (not64 s19) bc0) in
    let s19 := Z.lxor s19 (Z.land (not64 bc0) bc1) in
    let bc0 := s20 in
    let bc1 := s21 in
    let bc2 := s22 in
    let bc3 := s23 in
    let bc4 := s24 in
    let s20 := Z.lxor s20 (Z.land (not64 bc1) bc2) in
    let s21 := Z.lxor s21 (Z.land (not64 bc2) bc3) in
    let s22 := Z.lxor s22 (Z.land (not64 bc3) bc4) in
    let s23 := Z.lxor s23 (Z.land (not64 bc4) bc0) in
    let s24 := Z.lxor s24 (Z.land (not64 bc0) bc1) in
    (* Iota *)
    let s0 := Z.lxor s0 rc in
    [s0; s1; s2; s3; s4; s5; s6; s7; s8; s9; s10; s11; s12; s13; s14; s15; s16;
     s17; s18; s19; s20; s21; s22; s23; s24]
  | _ => st
  end.

Definition keccakf (st : list Z) : list Z :=
  foldl (fun st rc => keccakf_round rc st) st keccakf_rndc.

(** [((uint64_t * )b)[i]] on a little-endian machine. *)
Definition load64 (b : bytes) (i : nat) : Z := le_val 256 (take 8 (drop (8 * i) b)).

(** [for(i = 0; i < rsizw; i++) st[i] ^= ((uint64_t * )b)[i];] *)
Definition xor_words (st : list Z) (b : bytes) (rsizw : nat) : list Z :=
  imap (fun i s => if (i <? rsizw)%nat then Z.lxor s (load64 b i) else s) st.

(** The loop over full blocks; [None] when the iterations do not end. *)
Fixpoint absorb (fuel : nat) (rsiz : nat) (st : list Z) (inp : bytes)
    : option (list Z * bytes) :=
  if (rsiz <=? length inp)%nat then
    match fuel with
    | O => None
    | S fuel => absorb fuel rsiz (keccakf (xor_words st inp (rsiz / 8))) (drop rsiz inp)
    end
  else Some (st, inp).

Definition HASH_DATA_AREA : Z := 136.

(** [keccak in inlen md mdlen]; [None] stands for [local_abort] and for a loop
    that does not end. *)
Definition keccak (inp : bytes) (mdlen : Z) : option bytes :=
  if (mdlen <=? 0) || ((100 <? mdlen) && negb (200 =? mdlen)) then None
  else
    let rsiz := Z.to_nat (if 200 =? mdlen then HASH_DATA_AREA else 200 - 2 * mdlen) in
    let rsizw := (rsiz / 8)%nat in
    '(st, inp) ← absorb (length inp) rsiz (replicate 25 0) inp;
    let inlen := length inp in
    if (144 <=? inlen + 1)%nat || (rsiz <? inlen)%nat
       || (144 <=? rsiz - inlen + inlen + 1)%nat || (rsiz =? 0)%nat
       || (144 <=? rsiz - 1)%nat || (144 <? rsizw * 8)%nat
    then None
    else
      let temp := inp ++ 1 :: replicate (rsiz - (inlen + 1)) 0 in
      let temp := alter (fun b => Z.lor b 0x80) (rsiz - 1)%nat temp in
      let st := keccakf (xor_words st temp rsizw) in
      Some (take (Z.to_nat mdlen) (mjoin (le_digits 256 8 <$> st))).

Definition cn_fast_hash (data : bytes) : bytes :=
  match keccak data 32 with Some md => md | None => [] end.


(** ** The permutation of FIPS 202

    Lane [A[x,y]] is entry [x + 5 y] of the state. *)

Definition lane (A : list Z) (x y : nat) : Z := nth (x mod 5 + 5 * (y mod 5)) A 0.

Definition lanes (f : nat -> nat -> Z) : list Z :=
  y ← seq 0 5; (fun x => f x y) <$> seq 0 5.

Definition rot (x n : Z) : Z := if n =? 0 then x else ROTL64 x n.

Definition theta (A : list Z) : list Z :=
  let C x := foldl Z.lxor (lane A x 0) (lane A x <$> seq 1 4) in
  let D x := Z.lxor (C (x + 4)%nat) (rot (C (x + 1)%nat) 1) in
  lanes (fun x y => Z.lxor (lane A x y) (D x)).

(** The walk [(x, y) -> (y, 2x + 3y)] from [(1, 0)], with the offsets
    [(t + 1)(t + 2) / 2]. *)
Fixpoint rho_walk (n : nat) (t : Z) (x y : nat) : list (nat * nat * Z) :=
  match n with
  | O => []
  | S n => (x, y, (t + 1) * (t + 2) / 2 mod 64)
             :: rho_walk n (t + 1) y ((2 * x + 3 * y) mod 5)%nat
  end.

Definition rho_offset (x y : nat) : Z :=
  match find (fun '(x', y', _) => (x' =? x)%nat && (y' =? y)%nat) (rho_walk 24 0 1 0) with
  | Some (_, _, r) => r
  | None => 0
  end.

Definition rho (A : list Z) : list Z :=
  lanes (fun x y => rot (lane A x y) (rho_offset x y)).

Definition pi (A : list Z) : list Z :=
  lanes (fun x y => lane A (x + 3 * y) x).

Definition chi (A : list Z) : list Z :=
  lanes (fun x y => Z.lxor (lane A x y)
                           (Z.land (not64 (lane A (x + 1) y)) (lane A (x + 2) y))).

Definition iota (rc : Z) (A : list Z) : list Z :=
  alter (fun l => Z.lxor l rc) 0%nat A.

(** The round constants, from the linear feedback shift register [rc(t)]. *)
Definition lfsr_step (R : Z) : Z :=
  let R := 2 * R in if Z.testbit R 8 then Z.lxor R 0x171 else R.

Definition rc_bit (t : nat) : bool := Z.testbit (Nat.iter t lfsr_step 1) 0.

Definition round_constant (ir : nat) : Z :=
  foldl (fun acc j => if rc_bit (j + 7 * ir) then Z.lor acc (2 ^ (2 ^ Z.of_nat j - 1)) else acc)
        0 (seq 0 7).

Definition Keccak_p (A : list Z) : list Z :=
  foldl (fun A ir => iota (round_constant ir) (chi (pi (rho (theta A))))) A (seq 0 24).

(** The table of the code is the specification's sequence of constants. *)
Lemma keccakf_rndc_lfsr : keccakf_rndc = round_constant <$> seq 0 24.
Proof. vm_compute. reflexivity. Qed.

Lemma keccakf_round_spec rc st :
  length st = 25%nat ->
  keccakf_round rc st = iota rc (chi (pi (rho (theta st)))).
Proof.
  intros H. do 25 (destruct st as [|? st]; [done|]). destruct st; [|done].
  cbv -[Z.lxor Z.land wrap Z.shiftl Z.shiftr Z.lor Z.lnot]. reflexivity.
Qed.

Lemma keccakf_round_length rc st :
  length st = 25%nat -> length (keccakf_round rc st) = 25%nat.
Proof.
  intros H. do 25 (destruct st as [|? st]; [done|]). destruct st; [|done]. reflexivity.
Qed.

(** A rotation moves bit [(i - n) mod 64] to position [i]. *)
Lemma ROTL64_testbit x n i :
  fits 64 x -> 0 < n < 64 -> 0 <= i < 64 ->
  Z.testbit (ROTL64 x n) i = Z.testbit x ((i - n) mod 64).
Proof.
  intros Hx Hn Hi. unfold ROTL64, wrap.
  rewrite Z.lor_spec, Z.mod_pow2_bits_low, Z.shiftl_spec, Z.shiftr_spec by lia.
  destruct (decide (n <= i)).
  - rewrite (testbit_fits 64 x (i + (64 - n))), orb_false_r, Z.mod_small by (done || lia).
    done.
  - rewrite (Z.testbit_neg_r x (i - n)), orb_false_l by lia. f_equal.
    apply Z.mod_unique with (-1); lia.
Qed.

(** [keccakf] is the permutation Keccak-p[1600, 24]. *)
Lemma keccakf_Keccak_p st : length st = 25%nat -> keccakf st = Keccak_p st.
Proof.
  unfold keccakf, Keccak_p. rewrite keccakf_rndc_lfsr. generalize (seq 0 24) as l.
  intros l. revert st. induction l as [|ir l IH]; intros st H; [done|].
  cbn [fmap list_fmap foldl]. rewrite <- keccakf_round_spec by done.
  apply IH. by apply keccakf_round_length.
Qed.

Lemma keccakf_length st : length st = 25%nat -> length (keccakf st) = 25%nat.
Proof.
  unfold keccakf. generalize keccakf_rndc as l. intros l. revert st.
  induction l as [|rc l IH]; intros st H; [done|].
  apply IH. by apply keccakf_round_length.
Qed.

(** ** The sponge construction *)

(** Multi-rate padding of the original Keccak: a 1 bit, zeros, a 1 bit. *)
Definition pad (r : nat) (m : bytes) : bytes :=
  let q := (r - length m mod r)%nat in
  m ++ (if (q =? 1)%nat then [0x81] else 1 :: replicate (q - 2) 0 ++ [0x80]).

Definition absorb_block (r : nat) (st : list Z) (blk : bytes) : list Z :=
  keccakf (xor_words st blk (r / 8)).

(** The lanes after the padded message is absorbed, word by word as the code does. *)
Definition absorbed (r : nat) (m : bytes) : list Z :=
  let p := pad r m in
  foldl (fun st blk => Keccak_p (xor_words st blk (r / 8))) (replicate 25 0)
        (blocks (length p / r) r p).

Lemma xor_words_length st b n : length (xor_words st b n) = length st.
Proof. apply length_imap. Qed.

Lemma absorb_blocks_Keccak_p r st bl :
  length st = 25%nat ->
  foldl (absorb_block r) st bl
  = foldl (fun st blk => Keccak_p (xor_words st blk (r / 8))) st bl.
Proof.
  revert st. induction bl as [|b bl IH]; intros st H; [done|]. cbn [foldl].
  unfold absorb_block at 2. rewrite <- keccakf_Keccak_p by by rewrite xor_words_length.
  apply IH. apply keccakf_length. by rewrite xor_words_length.
Qed.

Lemma absorb_blocks_length r st bl :
  length st = 25%nat -> length (foldl (absorb_block r) st bl) = 25%nat.
Proof.
  revert st. induction bl as [|b bl IH]; intros st H; [done|]. cbn [foldl].
  apply IH. apply keccakf_length. by rewrite xor_words_length.
Qed.

Lemma absorbed_length r m : length (absorbed r m) = 25%nat.
Proof.
  unfold absorbed. rewrite <- absorb_blocks_Keccak_p by apply length_replicate.
  apply absorb_blocks_length, length_replicate.
Qed.

Lemma load64_take b r i : (8 * (i + 1) <= r)%nat -> load64 (take r b) i = load64 b i.
Proof.
  intros. unfold load64. f_equal. rewrite skipn_firstn_comm, firstn_firstn. f_equal. lia.
Qed.

Lemma xor_words_take st b r :
  xor_words st (take r b) (r / 8) = xor_words st b (r / 8).
Proof.
  unfold xor_words. apply imap_ext. intros i s _.
  destruct (Nat.ltb_spec i (r / 8)); [|done]. f_equal. apply load64_take.
  pose proof (Nat.div_mod_eq r 8). lia.
Qed.

Lemma absorb_spec r : (0 < r)%nat -> forall inp fuel st,
  (length inp <= fuel)%nat ->
  absorb fuel r st inp =
    Some (foldl (absorb_block r) st (blocks (length inp / r) r inp),
          drop (length inp / r * r) inp).
Proof.
  intros Hr inp. remember (length inp / r)%nat as k eqn:Ek. revert inp Ek.
  induction k as [|k IH]; intros inp Ek fuel st Hf;
    pose proof (Nat.div_mod_eq (length inp) r) as E;
    pose proof (Nat.mod_upper_bound (length inp) r ltac:(lia)) as B.
  - destruct fuel; simpl; destruct (Nat.leb_spec r (length inp)); try nia; by rewrite drop_0.
  - destruct fuel as [|fuel]; simpl; destruct (Nat.leb_spec r (length inp)); try nia.
    rewrite IH.
    + unfold absorb_block at 2 3. rewrite xor_words_take, drop_drop. done.
    + rewrite length_drop. apply Nat.div_unique with (length inp mod r)%nat; nia.
    + rewrite length_drop. lia.
Qed.

(** The last block the code builds in [temp] is the padded tail. *)
Lemma temp_pad r (rem : bytes) :
  (0 < r)%nat -> (length rem < r)%nat ->
  alter (fun b => Z.lor b 0x80) (r - 1)%nat (rem ++ 1 :: replicate (r - (length rem + 1)) 0)
  = rem ++ (let q := (r - length rem)%nat in
            if (q =? 1)%nat then [0x81] else 1 :: replicate (q - 2) 0 ++ [0x80]).
Proof.
  intros Hr Hl. cbv zeta.
  replace (r - 1)%nat with (length rem + (r - length rem - 1))%nat by lia.
  rewrite alter_app_r. f_equal.
  remember (r - length rem)%nat as q eqn:Eq.
  replace (r - (length rem + 1))%nat with (q - 1)%nat by lia.
  destruct (Nat.eqb_spec q 1) as [->|]; [done|].
  replace (replicate (q - 1) 0) with (replicate (q - 2) 0 ++ [0])
    by (rewrite <- replicate_S_end; f_equal; lia).
  rewrite app_comm_cons, alter_app_r_alt by (cbn; rewrite length_replicate; lia).
  match goal with |- context [alter _ ?n [0]] => replace n with 0%nat; [done|] end.
  cbn. rewrite length_replicate. lia.
Qed.

Lemma length_pad_tail r (m : bytes) :
  (0 < r)%nat ->
  length (if (r - length m mod r =? 1)%nat then [0x81]
          else 1 :: replicate (r - length m mod r - 2) 0 ++ [0x80])
  = (r - length m mod r)%nat.
Proof.
  intros Hr. pose proof (Nat.mod_upper_bound (length m) r ltac:(lia)).
  destruct (Nat.eqb_spec (r - length m mod r) 1); [done|].
  cbn [length]. rewrite length_app, length_replicate. simpl. lia.
Qed.

(** The blocks of the padded message: the full blocks, then the padded tail. *)
Lemma blocks_pad r m :
  (0 < r)%nat ->
  blocks (length (pad r m) / r) r (pad r m)
  = blocks (length m / r) r m ++
    [drop (length m / r * r) m ++
       (let q := (r - length m mod r)%nat in
        if (q =? 1)%nat then [0x81] else 1 :: replicate (q - 2) 0 ++ [0x80])].
Proof.
  intros Hr. unfold pad. cbv zeta.
  pose proof (Nat.div_mod_eq (length m) r) as E.
  pose proof (Nat.mod_upper_bound (length m) r ltac:(lia)) as B.
  pose proof (length_pad_tail r m Hr) as L.
  match type of L with length ?t = _ => set (tl := t) in * end. clearbody tl.
  replace (length (m ++ tl) / r)%nat with (length m / r + 1)%nat.
  2:{ apply Nat.div_unique with 0%nat; rewrite ?length_app; nia. }
  set (n := (length m / r)%nat) in *.
  rewrite <- (take_drop (n * r) m) at 1. rewrite <- app_assoc, blocks_app_last.
  - by rewrite blocks_take.
  - rewrite length_take. nia.
  - rewrite length_app, length_drop. nia.
Qed.

(** The rate of the code: [mdlen] bytes of digest. *)
Definition rate (mdlen : Z) : nat :=
  Z.to_nat (if 200 =? mdlen then HASH_DATA_AREA else 200 - 2 * mdlen).

(** The digest sizes [keccak] accepts. *)
Definition mdlen_ok (mdlen : Z) : bool := ((29 <=? mdlen) && (mdlen <? 100)) || (mdlen =? 200).

Lemma rate_bounds mdlen : mdlen_ok mdlen = true -> (2 <= rate mdlen <= 142)%nat.
Proof.
  unfold mdlen_ok, rate, HASH_DATA_AREA. intros H.
  destruct (Z.eqb_spec 200 mdlen); lia.
Qed.

Lemma keccak_eq_absorbed m mdlen :
  mdlen_ok mdlen = true ->
  keccak m mdlen =
    Some (take (Z.to_nat mdlen) (mjoin (le_digits 256 8 <$> absorbed (rate mdlen) m))).
Proof.
  intros Hok. pose proof (rate_bounds mdlen Hok) as [R1 R2].
  unfold keccak. fold (rate mdlen).
  replace ((mdlen <=? 0) || _) with false by (unfold mdlen_ok in Hok; lia).
  set (r := rate mdlen) in *. clearbody r. cbv zeta.
  rewrite absorb_spec by lia. cbn [mbind option_bind].
  pose proof (Nat.div_mod_eq (length m) r) as E.
  pose proof (Nat.mod_upper_bound (length m) r ltac:(lia)) as B.
  set (rem := drop _ m) in *.
  assert (Hrem : length rem = (length m mod r)%nat)
    by (unfold rem; rewrite length_drop; nia).
  pose proof (Nat.div_mod_eq r 8).
  match goal with |- (if ?c then _ else _) = _ => replace c with false end.
  2:{ symmetry. rewrite !orb_false_iff, !Nat.leb_gt, !Nat.ltb_ge, Nat.eqb_neq. lia. }
  rewrite temp_pad by lia. unfold absorbed.
  rewrite <- absorb_blocks_Keccak_p by apply length_replicate.
  rewrite blocks_pad, foldl_app, Hrem by lia. cbn [foldl].
  set (S0 := foldl _ _ _). unfold absorb_block. reflexivity.
Qed.

(** ** Digests *)

Lemma lanes_bytes_cons x st :
  mjoin (le_digits 256 8 <$> x :: st) = le_digits 256 8 x ++ mjoin (le_digits 256 8 <$> st).
Proof. done. Qed.

Lemma length_lanes_bytes st :
  length (mjoin (le_digits 256 8 <$> st)) = (8 * length st)%nat.
Proof.
  induction st as [|x st IH]; [done|]. rewrite lanes_bytes_cons. cbn [length].
  rewrite length_app, length_le_digits, IH. lia.
Qed.

Lemma is_bytes_lanes st : is_bytes (mjoin (le_digits 256 8 <$> st)).
Proof.
  induction st as [|x st IH]; [by constructor|]. rewrite lanes_bytes_cons.
  apply Forall_app; split; [|done].
  apply (le_digits_range 256). lia.
Qed.

Lemma cn_fast_hash_eq data :
  cn_fast_hash data = take 32 (mjoin (le_digits 256 8 <$> absorbed 136 data)).
Proof. unfold cn_fast_hash. by rewrite (keccak_eq_absorbed data 32). Qed.

Lemma cn_fast_hash_length data : length (cn_fast_hash data) = 32%nat.
Proof.
  rewrite cn_fast_hash_eq, length_take, length_lanes_bytes, absorbed_length. lia.
Qed.

Lemma cn_fast_hash_bytes data : is_bytes (cn_fast_hash data).
Proof. rewrite cn_fast_hash_eq. apply Forall_take, is_bytes_lanes. Qed.

(** ** The sponge of FIPS 202

    Section 4 of the standard, on strings of bytes: the state is a string of 200
    bytes, a block of [r] bytes is padded with zeros to the whole state and added
    to it, and the digest is squeezed out [r] bytes at a time. Nothing here
    comes from the code but the lanes of [Keccak_p]. *)
















(** ** The lanes stay 64 bits wide *)













(** ** Correctness *)




(** A rate that is not a number of words is accepted, but the last bytes of each
    block are not absorbed: at 97 bytes of digest none is. *)
Example keccak_drops_bytes : keccak [1] 97 = keccak [2] 97 /\ keccak [1] 97 <> None.
Proof. by_eval. Qed.

End Keccak.

(** ** The hash as its clients see it

    Addresses and Merkle trees only rely on the size of a digest; they are
    proved against this interface, which [cn_fast_hash] implements. *)
Class FastHash := {
  fast_hash : bytes -> bytes;
  fast_hash_length data : length (fast_hash data) = 32%nat;
  fast_hash_bytes data : is_bytes (fast_hash data)
}.

(** Two different strings of a list have the same digest. Properties of hashes
    that hold up to collisions say so of the strings that were hashed. *)
Definition collides `{!FastHash} (hashed : list bytes) : Prop :=
  exists x y, x ∈ hashed /\ y ∈ hashed /\ x <> y /\ fast_hash x = fast_hash y.

Lemma hash_inj `{!FastHash} hashed x y :
  x ∈ hashed -> y ∈ hashed -> fast_hash x = fast_hash y -> x = y \/ collides hashed.
Proof.
  intros Hx Hy E. destruct (decide (x = y)) as [|Hne]; [by left|]. right. exists x, y. done.
Qed.

Lemma collides_mono `{!FastHash} l l' : l ⊆ l' -> collides l -> collides l'.
Proof. intros Hl (x & y & Hx & Hy & Hne & E). exists x, y. auto. Qed.

(** An executable check that the digests of a list are different. *)
Definition no_collision `{!FastHash} (hashed : list bytes) : bool :=
  let digests := map (fun x => (x, fast_hash x)) hashed in
  forallb (fun p => forallb (fun q => bool_decide (p.1 = q.1) || negb (bool_decide (p.2 = q.2))) digests)
    digests.

Lemma no_collision_sound `{!FastHash} hashed : no_collision hashed = true -> ~ collides hashed.
Proof.
  unfold no_collision. intros E (x & y & Hx & Hy & Hne & Eh). rewrite forallb_forall in E.
  specialize (E (x, fast_hash x)). rewrite forallb_forall in E.
  assert (forall z, z ∈ hashed -> In (z, fast_hash z) (map (fun x => (x, fast_hash x)) hashed)) as Hin
    by (intros z Hz; apply (in_map (fun x => (x, fast_hash x))), list_elem_of_In, Hz).
  specialize (E (Hin x Hx) (y, fast_hash y) (Hin y Hy)). cbn in E.
  rewrite (bool_decide_eq_false_2 (x = y)), (bool_decide_eq_true_2 (_ = _)) in E by done. done.
Qed.

#[export] Instance keccak_fast_hash : FastHash := {|
  fast_hash := Keccak.cn_fast_hash;
  fast_hash_length := Keccak.cn_fast_hash_length;
  fast_hash_bytes := Keccak.cn_fast_hash_bytes
|}.

(** A cheap instance to evaluate the clients on examples. *)
Definition example_hash : FastHash.
Proof.
  refine {| fast_hash data := le_digits 256 32 (foldl (fun h b => (h * 257 + b + 1) mod 1000003) 7 data) |}.
  - intros data. apply length_le_digits.
  - intros data. apply (le_digits_range 256). lia.
Defined.
