(* ===== verification/Varint.v ===== *)
(** * Variable-length integers

    [write_varint], [get_varint_data] and [read_varint] of
    [src/common/varint.h]: base-128 digits, least significant first, with the
    high bit of a byte announcing another one. *)

From S2P Require Import Prelude.

Module Varint.

Definition EVARINT_OVERFLOW : Z := -1.
Definition EVARINT_REPRESENT : Z := -2.

(** The loop of [write_varint]; the last byte is written after it. *)
Fixpoint write_varint_loop (fuel : nat) (i : Z) : bytes :=
  match fuel with
  | O => []
  | S fuel =>
      if 0x80 <=? i then
        Z.lor (Z.land (u8 i) 0x7f) 0x80 :: write_varint_loop fuel (i ≫ 7)
      else [u8 i]
  end.

(** Every iteration drops seven bits, so [log2 i + 1] iterations are enough
    (see [write_varint_unfold]). *)
Definition write_varint (i : Z) : bytes := write_varint_loop (S (Z.to_nat (Z.log2 i))) i.

Definition get_varint_data (v : Z) : bytes := write_varint v.

(** The loop of [read_varint]: the returned code, the value of [write] and the
    input left behind. *)
Fixpoint read_varint_loop (bits shift read write : Z) (inp : bytes) : Z * Z * bytes :=
  match inp with
  | [] => (read, write, [])
  | byte :: rest =>
      let read := read + 1 in
      if (bits <=? shift + 7) && (1 ≪ (bits - shift) <=? byte) then
        (EVARINT_OVERFLOW, write, rest)
      else if (byte =? 0) && negb (shift =? 0) then
        (EVARINT_REPRESENT, write, rest)
      else
        let write := Z.lor write (wrap bits (Z.land byte 0x7f ≪ shift)) in
        if Z.land byte 0x80 =? 0 then (read, write, rest)
        else read_varint_loop bits (shift + 7) read write rest
  end.

Definition read_varint (bits : Z) (inp : bytes) : Z * Z * bytes :=
  read_varint_loop bits 0 0 0 inp.

(** ** Writing *)

Lemma log2_shift7 i : 0x80 <= i -> Z.log2 (i ≫ 7) = Z.log2 i - 7.
Proof.
  intros. assert (7 <= Z.log2 i) by (apply Z.log2_le_pow2; lia).
  rewrite Z.log2_shiftr by lia. lia.
Qed.

Lemma write_loop_fuel f1 f2 i :
  0 <= i -> (Z.to_nat (Z.log2 i) < f1)%nat -> (Z.to_nat (Z.log2 i) < f2)%nat ->
  write_varint_loop f1 i = write_varint_loop f2 i.
Proof.
  revert f2 i. induction f1 as [|f1 IH]; intros [|f2] i Hi H1 H2; try lia. simpl.
  destruct (Z.leb_spec 0x80 i); [|done]. f_equal.
  pose proof (log2_shift7 i ltac:(lia)). pose proof (Z.log2_nonneg (i ≫ 7)).
  apply IH; [apply Z.shiftr_nonneg; lia|lia|lia].
Qed.

(** The fuel is enough: the function satisfies the equation of the loop. *)
Lemma write_varint_unfold i :
  0 <= i ->
  write_varint i =
    if 0x80 <=? i then Z.lor (Z.land (u8 i) 0x7f) 0x80 :: write_varint (i ≫ 7)
    else [u8 i].
Proof.
  intros Hi. unfold write_varint at 1. cbn [write_varint_loop].
  destruct (Z.leb_spec 0x80 i); [|done]. f_equal. unfold write_varint.
  pose proof (log2_shift7 i ltac:(lia)). pose proof (Z.log2_nonneg (i ≫ 7)).
  apply write_loop_fuel; [apply Z.shiftr_nonneg; lia|lia|lia].
Qed.

(** The arithmetic form of a continuation byte. *)
Lemma continuation_byte i :
  Z.lor (Z.land (u8 i) 0x7f) 0x80 = i mod 128 + 128.
Proof.
  change 0x7f with (2 ^ 7 - 1). rewrite land_mask by lia. unfold wrap.
  change 0x80 with (1 * 2 ^ 7). rewrite lor_add' by (lia || (apply Z.mod_pos_bound; lia)).
  dlia.
Qed.

Lemma write_varint_eq i :
  0 <= i ->
  write_varint i =
    if decide (128 <= i) then i mod 128 + 128 :: write_varint (i / 128) else [i].
Proof.
  intros Hi. rewrite write_varint_unfold, continuation_byte, shiftr_div by lia.
  destruct (Z.leb_spec 0x80 i); [by rewrite decide_True by lia|].
  rewrite decide_False by lia. by rewrite wrap_small by (unfold fits; lia).
Qed.

(** Induction along the loop of [write_varint]. *)
Lemma varint_ind (P : Z -> Prop) :
  (forall i, 0 <= i < 128 -> P i) ->
  (forall i, 128 <= i -> P (i / 128) -> P i) -> forall i, 0 <= i -> P i.
Proof.
  intros H0 HS i. induction i as [i IH] using (well_founded_induction (Z.lt_wf 0)).
  intros Hi. destruct (decide (i < 128)); [apply H0; lia|].
  apply HS; [lia|]. apply IH; dlia.
Qed.

Lemma write_varint_bytes i : 0 <= i -> is_bytes (write_varint i).
Proof.
  revert i. apply varint_ind; intros i Hi; [intros|intros IH];
    rewrite write_varint_eq by lia.
  - rewrite decide_False by lia. repeat constructor; lia.
  - rewrite decide_True by lia. constructor; [|done]. unfold fits. dlia.
Qed.

(** A [w]-bit value takes at most [ceil (w / 7)] bytes, and at least one. *)
Lemma write_varint_length i n :
  0 <= i < 2 ^ (7 * Z.of_nat (S n)) -> (1 <= length (write_varint i) <= S n)%nat.
Proof.
  revert i. induction n as [|n IH]; intros i Hi; rewrite write_varint_eq by lia.
  - rewrite decide_False by lia. simpl. lia.
  - destruct (decide (128 <= i)); [|simpl; lia]. cbn [length].
    assert (i / 128 < 2 ^ (7 * Z.of_nat (S n))) as Hq.
    { apply Z.div_lt_upper_bound; [lia|].
      replace (7 * Z.of_nat (S (S n))) with (7 + 7 * Z.of_nat (S n)) in Hi by lia.
      rewrite Z.pow_add_r in Hi by lia. lia. }
    specialize (IH (i / 128)). destruct IH; [|lia]. split; [dlia|done].
Qed.

(** ** Reading back *)

(** The parts of a byte [b < 256]: its low seven bits and its top bit. *)
Lemma land_7f b : Z.land b 0x7f = b mod 128.
Proof. apply (land_mask b 7). lia. Qed.

Lemma land_80 b : fits 8 b -> Z.land b 0x80 = if 128 <=? b then 0x80 else 0.
Proof.
  intros Hb. apply Z.eqb_eq. revert b Hb. apply byte_forallb. vm_compute. done.
Qed.

(** One iteration of the reader, in arithmetic form. *)
Lemma read_loop_cons bits shift read write b rest :
  fits 8 b -> 0 <= shift <= bits -> 0 <= write < 2 ^ shift ->
  (bits <= shift + 7 -> b < 2 ^ (bits - shift)) -> (b = 0 -> shift = 0) ->
  read_varint_loop bits shift read write (b :: rest) =
    if decide (128 <= b) then
      read_varint_loop bits (shift + 7) (read + 1) (b mod 128 * 2 ^ shift + write) rest
    else (read + 1, b * 2 ^ shift + write, rest).
Proof.
  intros Hb Hs Hw Hlt Hz. cbn [read_varint_loop].
  rewrite land_7f, land_80, !shiftl_mul by (done || lia).
  replace ((bits <=? shift + 7) && (1 * 2 ^ (bits - shift) <=? b)) with false by lia.
  replace ((b =? 0) && negb (shift =? 0)) with false by lia.
  unfold fits in Hb.
  assert (Hm : b mod 128 < 2 ^ (bits - shift)).
  { destruct (decide (bits <= shift + 7)).
    - apply Z.le_lt_trans with b; [apply Z.mod_le; lia|lia].
    - apply Z.lt_le_trans with (2 ^ 7); [apply Z.mod_pos_bound; lia|].
      apply Z.pow_le_mono_r; lia. }
  assert (Hp : 2 ^ bits = 2 ^ (bits - shift) * 2 ^ shift)
    by (rewrite <- Z.pow_add_r by lia; f_equal; lia).
  rewrite (wrap_small bits) by (unfold fits; rewrite Hp; pose proof (Z.mod_pos_bound b 128); nia).
  rewrite lor_add' by lia.
  destruct (Z.leb_spec 128 b); [by rewrite decide_True by lia|].
  rewrite decide_False by lia. by rewrite Z.mod_small by lia.
Qed.

Lemma read_loop_write v : 0 <= v -> forall bits shift read write rest,
  0 <= shift <= bits -> v < 2 ^ (bits - shift) -> (v = 0 -> shift = 0) ->
  0 <= write < 2 ^ shift ->
  read_varint_loop bits shift read write (write_varint v ++ rest)
  = (read + Z.of_nat (length (write_varint v)), v * 2 ^ shift + write, rest).
Proof.
  revert v. apply (varint_ind (fun v => forall bits shift read write rest, _ -> _ -> _ -> _ -> _));
    [intros v Hv|intros v Hv IH]; intros bits shift read write rest Hs Hlt Hz Hw;
    rewrite write_varint_eq by lia.
  - rewrite decide_False by lia. cbn [app length].
    rewrite read_loop_cons, decide_False by (unfold fits; lia). done.
  - rewrite decide_True by lia. cbn [app length].
    pose proof (Z.mod_pos_bound v 128 ltac:(lia)) as Hm.
    assert (Hb : shift + 7 < bits).
    { destruct (decide (shift + 7 < bits)); [done|].
      pose proof (Z.pow_le_mono_r 2 (bits - shift) 7 ltac:(lia) ltac:(lia)). lia. }
    rewrite read_loop_cons, decide_True by (unfold fits; lia).
    assert (E7 : 2 ^ (shift + 7) = 2 ^ shift * 128) by (rewrite Z.pow_add_r by lia; done).
    rewrite Z.add_mod, Z.mod_same, Z.add_0_r, !Zmod_mod by lia.
    rewrite IH.
    + rewrite E7. pose proof (Z.div_mod v 128). apply (f_equal (fun p => (p, rest))).
      apply f_equal2; [lia|nia].
    + lia.
    + apply Z.div_lt_upper_bound; [lia|].
      replace (bits - shift) with (7 + (bits - (shift + 7))) in Hlt by lia.
      rewrite Z.pow_add_r in Hlt by lia. lia.
    + intros. exfalso. revert H. apply Z.neq_sym, Z.lt_neq. apply Z.div_str_pos. lia.
    + rewrite E7. nia.
Qed.

Lemma read_write_app bits v rest :
  0 <= bits -> fits bits v ->
  read_varint bits (write_varint v ++ rest)
  = (Z.of_nat (length (write_varint v)), v, rest).
Proof.
  intros Hb Hv. unfold fits in Hv. unfold read_varint.
  rewrite read_loop_write by (try rewrite Z.sub_0_r; lia). by rewrite Z.mul_1_r, Z.add_0_r.
Qed.

Lemma write_varint_inj bits v w :
  0 <= bits -> fits bits v -> fits bits w -> write_varint v = write_varint w -> v = w.
Proof.
  intros Hb Hv Hw E. pose proof (read_write_app bits v [] Hb Hv) as Rv.
  rewrite E, read_write_app in Rv by done. congruence.
Qed.

(** What a result of the reader can be: an error, the shortest encoding of the
    value followed by the rest, or an input that ended inside an encoding. *)
Lemma read_loop_sound bits inp : forall shift read write n v rest,
  is_bytes inp -> 0 <= shift <= bits -> 0 <= write < 2 ^ shift -> 0 <= read ->
  (shift = 0 -> write = 0) ->
  read_varint_loop bits shift read write inp = (n, v, rest) ->
  n = EVARINT_OVERFLOW \/ n = EVARINT_REPRESENT \/
  (exists u, inp = write_varint u ++ rest /\ 0 <= u < 2 ^ (bits - shift) /\
     (u = 0 -> shift = 0) /\
     v = u * 2 ^ shift + write /\ n = read + Z.of_nat (length (write_varint u))) \/
  (rest = [] /\ Forall (fun b => 128 <= b) inp /\ n = read + Z.of_nat (length inp)).
Proof.
  induction inp as [|b inp IH]; intros shift read write n v rest Hin Hs Hw Hr Hz E.
  { simpl in E. injection E as <- <- <-. do 3 right. simpl. rewrite Z.add_0_r. auto. }
  apply Forall_cons in Hin as [Hb Hin].
  destruct (decide (bits <= shift + 7 /\ 2 ^ (bits - shift) <= b)) as [[H1 H2]|H1].
  { left. cbn [read_varint_loop] in E. rewrite (shiftl_mul 1) in E by lia.
    replace ((bits <=? shift + 7) && (1 * 2 ^ (bits - shift) <=? b)) with true in E by lia.
    by injection E. }
  destruct (decide (b = 0 /\ shift <> 0)) as [[H2 H3]|H2].
  { right; left. cbn [read_varint_loop] in E. rewrite (shiftl_mul 1) in E by lia.
    replace ((bits <=? shift + 7) && (1 * 2 ^ (bits - shift) <=? b)) with false in E by lia.
    replace ((b =? 0) && negb (shift =? 0)) with true in E by lia. by injection E. }
  rewrite read_loop_cons in E by (done || lia). unfold fits in Hb.
  destruct (decide (128 <= b)).
  - pose proof (Z.mod_pos_bound b 128 ltac:(lia)) as Hm.
    assert (E7 : 2 ^ (shift + 7) = 2 ^ shift * 128) by (rewrite Z.pow_add_r by lia; done).
    assert (Hb' : shift + 7 < bits).
    { destruct (decide (shift + 7 < bits)); [done|].
      pose proof (Z.pow_le_mono_r 2 (bits - shift) 7 ltac:(lia) ltac:(lia)). lia. }
    apply IH in E; [|done|lia|rewrite E7; nia|lia|lia].
    destruct E as [?|[?|[(u & -> & Hu & Hz' & -> & ->)|(? & ? & ->)]]]; [by auto|by auto| |].
    + right; right; left. exists (u * 128 + (b - 128)).
      assert (b mod 128 = b - 128) as Hbm
        by (symmetry; apply Z.mod_unique with 1; lia).
      assert (0 < u) by (destruct (decide (u = 0)); lia).
      assert (2 ^ (bits - shift) = 2 ^ (bits - (shift + 7)) * 128) as Ep
        by (change 128 with (2 ^ 7); rewrite <- Z.pow_add_r by lia; f_equal; lia).
      rewrite (write_varint_eq (u * 128 + _)), decide_True by lia.
      rewrite Z.div_add_l, (Z.div_small (b - 128)), Z.add_0_r by lia.
      rewrite (Z.add_comm (u * 128)), Z_mod_plus_full, Z.mod_small by lia.
      rewrite E7, Hbm. cbn [app length]. repeat split; try lia; try nia.
      f_equal. lia.
    + do 3 right. cbn [length]. repeat split; [done|by constructor|lia].
  - injection E as <- <- <-. right; right; left. exists b.
    rewrite write_varint_eq, decide_False by lia. cbn [app length].
    assert (b < 2 ^ (bits - shift)).
    { destruct (decide (bits <= shift + 7)); [lia|].
      pose proof (Z.pow_le_mono_r 2 7 (bits - shift) ltac:(lia) ltac:(lia)). lia. }
    repeat split; lia || done.
Qed.

(** Whatever it returns, the value is in range. *)
Lemma read_loop_fits bits inp : forall shift read write n v rest,
  0 <= bits -> is_bytes inp -> fits bits write ->
  read_varint_loop bits shift read write inp = (n, v, rest) -> fits bits v /\ is_bytes rest.
Proof.
  induction inp as [|b inp IH]; intros shift read write n v rest Hbits Hin Hw; cbn [read_varint_loop].
  { intros [= <- <- <-]. done. }
  apply Forall_cons in Hin as [_ Hin]. destruct (_ && _); [by intros [= <- <- <-]|].
  destruct (_ && _); [by intros [= <- <- <-]|].
  assert (fits bits (Z.lor write (wrap bits (Z.land b 0x7f ≪ shift)))) as Hl
    by auto with mach.
  destruct (_ =? 0); [by intros [= <- <- <-]|]. by apply IH.
Qed.

Lemma read_varint_fits bits inp n v rest :
  0 <= bits -> is_bytes inp -> read_varint bits inp = (n, v, rest) -> fits bits v /\ is_bytes rest.
Proof. intros Hb Hin. apply read_loop_fits; [done|done|]. unfold fits. lia. Qed.

Lemma read_loop_shorter bits inp : forall shift read write n v rest,
  read_varint_loop bits shift read write inp = (n, v, rest) -> (length rest <= length inp)%nat.
Proof.
  induction inp as [|b inp IH]; intros shift read write n v rest; cbn [read_varint_loop length];
    [by intros [= <- <- <-]|].
  destruct (_ && _); [intros [= <- <- <-]; lia|]. destruct (_ && _); [intros [= <- <- <-]; lia|].
  destruct (_ =? 0); [intros [= <- <- <-]; lia|]. intros H%IH. lia.
Qed.

(** ** Correctness *)

(** Reading back what [write_varint] wrote returns the value, the number
    of bytes written and the untouched rest of the input, at every width. *)
Theorem varint_roundtrip bits v rest :
  0 <= bits -> fits bits v ->
  read_varint bits (get_varint_data v ++ rest)
  = (Z.of_nat (length (get_varint_data v)), v, rest).
Proof. apply read_write_app. Qed.

Lemma varint_roundtrip_witness :
  read_varint 64 (get_varint_data 624485 ++ [7]) = (3, 624485, [7]).
Proof. rewrite varint_roundtrip; by_eval. Defined.

(** [read_varint] only accepts what [write_varint] writes: with a
    non-negative return code the bytes consumed are the encoding of the value,
    which fits in [bits] bits, or the input ended while every byte announced
    another one, which the code reports like a success. *)
Theorem read_varint_canonical bits inp n v rest :
  0 <= bits -> is_bytes inp -> read_varint bits inp = (n, v, rest) -> 0 <= n ->
  (inp = write_varint v ++ rest /\ fits bits v /\ n = Z.of_nat (length (write_varint v))) \/
  (rest = [] /\ Forall (fun b => 128 <= b) inp /\ n = Z.of_nat (length inp)).
Proof.
  intros Hb Hin E Hn.
  destruct (read_loop_sound bits inp 0 0 0 n v rest Hin) as [->|[->|[(u & -> & Hu & _ & -> & ->)|H]]];
    [lia..|done|done|done| |by right]. left. rewrite Z.mul_1_r, Z.add_0_r.
  rewrite Z.sub_0_r in Hu. done.
Qed.

Lemma read_varint_canonical_witness :
  [0xe5; 0x8e; 0x26; 9] = write_varint 624485 ++ [9] /\ fits 64 624485 /\
  3 = Z.of_nat (length (write_varint 624485)).
Proof.
  destruct (read_varint_canonical 64 [0xe5; 0x8e; 0x26; 9] 3 624485 [9])
    as [H|[H _]]; [by_eval..|exact H|discriminate H].
Defined.

End Varint.
