(* ===== verification/Base58.v ===== *)
(** * Base58 blocks and addresses

    [src/common/base58.cpp]: blocks of up to eight bytes are written as
    big-endian numbers in base 58, each block at a fixed width; an address adds
    a varint tag and the first four bytes of a hash. *)

From S2P Require Import Prelude IntUtil Keccak Varint.
Import IntUtil.

Module Base58.

Definition alphabet : bytes :=
  bytes_of_string "123456789ABCDEFGHJKLMNPQRSTUVWXYZabcdefghijkmnopqrstuvwxyz"%string.
Definition alphabet_size : Z := 58.
Definition encoded_block_sizes : list nat := [0; 2; 3; 5; 6; 7; 9; 10; 11]%nat.
Definition full_block_size : nat := 8.
Definition full_encoded_block_size : nat := 11.
Definition addr_checksum_size : nat := 4.

(** [alphabet[0]], the digit zero. *)
Definition alphabet_0 : Z := 49.

(** The table the constructor fills. *)
Definition reverse_alphabet_data : list Z :=
  foldl (fun m '(i, c) => <[Z.to_nat (c - alphabet_0) := i]> m)
    (replicate 74 (-1)) (zip (seqZ 0 alphabet_size) alphabet).

(** [operator()]: [letter] is a [char], sign-extended by the subtraction. *)
Definition reverse_alphabet (letter : Z) : Z :=
  let idx := u64 (swrap 8 letter - alphabet_0) in
  if idx <? 74 then nth (Z.to_nat idx) reverse_alphabet_data (-1) else -1.

Definition decoded_block_sizes_data : list Z :=
  foldl (fun m '(i, e) => <[e := i]> m)
    (replicate 12 (-1)) (zip (seqZ 0 9) encoded_block_sizes).

(** [None] when the assertion [encoded_block_size <= 11] fails. *)
Definition decoded_block_sizes (encoded_block_size : nat) : option Z := decoded_block_sizes_data !! encoded_block_size.

(** The [switch] of [uint_8be_to_64], from label [case] with [n] bytes to go. *)
Fixpoint uint_8be_cases (n case : nat) (res : Z) (data : bytes) : option Z :=
  match n, data with
  | O, _ => Some res
  | S _, [] => None
  | S n, d :: data =>
      let res := if (case =? 1)%nat then res else u64 (res ≪ 8) in
      uint_8be_cases n (S case) (Z.lor res d) data
  end.

Definition uint_8be_to_64 (data : bytes) (size : nat) : option Z :=
  if (1 <=? size)%nat && (size <=? 8)%nat then uint_8be_cases size (9 - size) 0 data
  else None.

Definition uint_64_to_8be (num : Z) (size : nat) : bytes :=
  let num_be := SWAP64 num in
  drop (8 - size) (le_digits 256 8 num_be).

(** The loop of [encode_block]; [i] is the index of [res[i]] in the buffer. *)
Fixpoint encode_block_loop (fuel : nat) (num i : Z) (buf : bytes) : option bytes :=
  if 0 <? num then
    match fuel with
    | O => None
    | S fuel =>
        let remainder := num mod alphabet_size in
        let num := num / alphabet_size in
        c ← aget alphabet remainder;
        buf ← aset buf i c;
        encode_block_loop fuel num (i - 1) buf
    end
  else Some buf.

(** [encode_block block size &buf[off]]. *)
Definition encode_block (block : bytes) (size : nat) (buf : bytes) (off : nat)
    : option bytes :=
  num ← uint_8be_to_64 block size;
  esize ← encoded_block_sizes !! size;
  encode_block_loop 64 num (Z.of_nat off + (Z.of_nat esize - 1)) buf.

(** The loop of [decode_block], over the symbols from the last to the first. *)
Fixpoint decode_block_loop (symbols : bytes) (res_num order : Z) : option Z :=
  match symbols with
  | [] => Some res_num
  | c :: symbols =>
      let digit := reverse_alphabet c in
      if digit <? 0 then None
      else
        let '(product_lo, product_hi) := mul128 order digit in
        let tmp := u64 (res_num + product_lo) in
        if (tmp <? res_num) || negb (0 =? product_hi) then None
        else decode_block_loop symbols tmp (u64 (order * alphabet_size))
  end.

Definition decode_block (block : bytes) (size : nat) : option bytes :=
  res_size ← decoded_block_sizes size;
  if res_size <=? 0 then None
  else
    res_num ← decode_block_loop (reverse (take size block)) 0 1;
    if (res_size <? 8) && (u64 (1 ≪ (8 * res_size)) <=? res_num) then None
    else Some (uint_64_to_8be res_num (Z.to_nat res_size)).

(** The loops over full blocks, from block [i] with [n] blocks to go. *)
Fixpoint encode_full (n i : nat) (data buf : bytes) : option bytes :=
  match n with
  | O => Some buf
  | S n =>
      buf ← encode_block (drop (i * full_block_size) data) full_block_size buf
              (i * full_encoded_block_size);
      encode_full n (S i) data buf
  end.

Definition encode (data : bytes) : option bytes :=
  match data with
  | [] => Some []
  | _ =>
      let full_block_count := (length data / full_block_size)%nat in
      let last_block_size := (length data mod full_block_size)%nat in
      last_esize ← encoded_block_sizes !! last_block_size;
      let res_size := (full_block_count * full_encoded_block_size + last_esize)%nat in
      let res := replicate res_size alphabet_0 in
      res ← encode_full full_block_count 0 data res;
      if (0 <? last_block_size)%nat then
        encode_block (drop (full_block_count * full_block_size) data) last_block_size res
          (full_block_count * full_encoded_block_size)
      else Some res
  end.

(** [memcpy] of [bs] to [&buf[off]]. *)
Definition write_at (buf : bytes) (off : nat) (bs : bytes) : bytes :=
  take off buf ++ bs ++ drop (off + length bs) buf.

Fixpoint decode_full (n i : nat) (enc data : bytes) : option bytes :=
  match n with
  | O => Some data
  | S n =>
      bs ← decode_block (drop (i * full_encoded_block_size) enc) full_encoded_block_size;
      decode_full n (S i) enc (write_at data (i * full_block_size) bs)
  end.

(** [decode enc data]: [None] for [false]. *)
Definition decode (enc : bytes) : option bytes :=
  match enc with
  | [] => Some []
  | _ =>
      let full_block_count := (length enc / full_encoded_block_size)%nat in
      let last_block_size := (length enc mod full_encoded_block_size)%nat in
      last_block_decoded_size ← decoded_block_sizes last_block_size;
      if last_block_decoded_size <? 0 then None
      else
        let data_size :=
          (full_block_count * full_block_size + Z.to_nat last_block_decoded_size)%nat in
        let data := replicate data_size 0 in
        data ← decode_full full_block_count 0 enc data;
        if (0 <? last_block_size)%nat then
          bs ← decode_block (drop (full_block_count * full_encoded_block_size) enc)
                 last_block_size;
          Some (write_at data (full_block_count * full_block_size) bs)
        else Some data
  end.

Section addresses.
Context `{FastHash}.

Definition encode_addr (tag : Z) (data : bytes) : option bytes :=
  let buf := Varint.get_varint_data tag in
  let buf := buf ++ data in
  let hash := fast_hash buf in
  let buf := buf ++ take addr_checksum_size hash in
  encode buf.

Definition decode_addr (addr : bytes) : option (Z * bytes) :=
  addr_data ← decode addr;
  if (length addr_data <=? addr_checksum_size)%nat then None
  else
    let checksum := drop (length addr_data - addr_checksum_size) addr_data in
    let addr_data := take (length addr_data - addr_checksum_size) addr_data in
    let hash := fast_hash addr_data in
    let expected_checksum := take addr_checksum_size hash in
    if decide (expected_checksum = checksum) then
      let '(read, tag, _) := Varint.read_varint 64 addr_data in
      if read <=? 0 then None
      else Some (tag, drop (Z.to_nat read) addr_data)
    else None.
End addresses.


(** ** Digits and symbols *)

Definition symbol (d : Z) : Z := nth (Z.to_nat d) alphabet 0.

Lemma aget_alphabet d : 0 <= d < 58 -> aget alphabet d = Some (symbol d).
Proof.
  intros Hd. unfold aget, symbol. rewrite decide_True by lia.
  apply lookup_nth. change (length alphabet) with 58%nat. lia.
Qed.

Lemma call_symbol d : 0 <= d < 58 -> reverse_alphabet (symbol d) = d.
Proof. intros Hd. apply Z.eqb_eq. revert d Hd. apply below_forallb. vm_compute. done. Qed.

Lemma symbol_byte d : 0 <= d < 58 -> fits 8 (symbol d).
Proof.
  intros Hd. assert (H : (0 <=? symbol d) && (symbol d <? 256) = true).
  { revert d Hd. apply below_forallb. vm_compute. done. }
  unfold fits. lia.
Qed.

Lemma symbol_call c :
  fits 8 c -> 0 <= reverse_alphabet c ->
  reverse_alphabet c < 58 /\ symbol (reverse_alphabet c) = c.
Proof.
  intros Hc. assert (H : (reverse_alphabet c <? 0) ||
    ((reverse_alphabet c <? 58) && (symbol (reverse_alphabet c) =? c)) = true).
  { revert c Hc. apply byte_forallb. vm_compute. done. }
  lia.
Qed.

(** ** Numbers and bytes *)

Lemma uint_8be_cases_val n case res data :
  is_bytes data -> (n <= length data)%nat -> (case + n = 9)%nat ->
  (1 <= case)%nat -> (case = 1%nat -> res = 0) -> 0 <= res < 256 ^ (Z.of_nat case - 1) ->
  uint_8be_cases n case res data = Some (res * 256 ^ Z.of_nat n + be_val 256 (take n data)).
Proof.
  revert case res data. induction n as [|n IH]; intros case res data Hd Hn Hc H1 H0 Hr.
  { rewrite take_0. change (be_val 256 []) with 0. change (256 ^ Z.of_nat 0) with 1.
    rewrite Z.mul_1_r, Z.add_0_r. destruct data; done. }
  destruct data as [|d data]; [simpl in Hn; lia|]. cbn [uint_8be_cases firstn].
  apply Forall_cons in Hd as [Hd Hdata]. unfold fits in Hd.
  replace (if (case =? 1)%nat then res else u64 (res ≪ 8)) with (res * 2 ^ 8).
  2:{ destruct (Nat.eqb_spec case 1) as [->|]; [lia|]. rewrite shiftl_mul by lia.
      rewrite wrap_small; [done|]. split; [lia|].
      apply Z.lt_le_trans with (256 ^ (Z.of_nat case - 1) * 2 ^ 8); [lia|].
      change (2 ^ 8) with (256 ^ 1). rewrite <- Z.pow_add_r by lia.
      change (2 ^ 64) with (256 ^ 8). apply Z.pow_le_mono_r; lia. }
  rewrite lor_add by lia.
  assert (Ep : 256 ^ Z.of_nat case = 256 * 256 ^ (Z.of_nat case - 1))
    by (rewrite <- Z.pow_succ_r by lia; f_equal; lia).
  rewrite IH; [|done|simpl in Hn; lia|lia|lia|lia|].
  2:{ replace (Z.of_nat (S case) - 1) with (Z.of_nat case) by lia. lia. }
  f_equal. change (d :: take n data) with ([d] ++ take n data).
  rewrite be_val_app by lia. unfold be_val at 3. cbn [reverse rev_append le_val].
  rewrite length_take_le by (simpl in Hn; lia).
  rewrite Nat2Z.inj_succ, Z.pow_succ_r by lia. unfold be_val. cbn. lia.
Qed.

Lemma uint_8be_to_64_val data size :
  is_bytes data -> (1 <= size <= 8)%nat -> (size <= length data)%nat ->
  uint_8be_to_64 data size = Some (be_val 256 (take size data)).
Proof.
  intros Hd Hs Hl. unfold uint_8be_to_64.
  replace ((1 <=? size)%nat && (size <=? 8)%nat) with true
    by (symmetry; rewrite andb_true_iff, !Nat.leb_le; lia).
  rewrite uint_8be_cases_val; [done|done|lia|lia|lia|lia|].
  split; [lia|]. apply Z.pow_pos_nonneg; lia.
Qed.

Lemma uint_64_to_8be_digits num size :
  (size <= 8)%nat -> uint_64_to_8be num size = be_digits 256 size num.
Proof. intros. unfold uint_64_to_8be. by rewrite SWAP64_bytes, drop_be_digits. Qed.

(** ** One block *)

(** The encoding of a block: the digits of its number at the block's width. *)
Definition esize (n : nat) : nat := nth n encoded_block_sizes 0%nat.

Definition block_symbols (b : bytes) : bytes :=
  symbol <$> be_digits 58 (esize (length b)) (be_val 256 b).

Lemma esize_lookup n : (n <= 8)%nat -> encoded_block_sizes !! n = Some (esize n).
Proof. intros. unfold esize. apply lookup_nth. cbn. lia. Qed.

Lemma esize_enough n : (n <= 8)%nat -> 256 ^ Z.of_nat n <= 58 ^ Z.of_nat (esize n).
Proof. intros. do 9 (destruct n as [|n]; [vm_compute; done|]). lia. Qed.

Lemma esize_le n : (n <= 8)%nat -> (esize n <= 11)%nat.
Proof. intros. do 9 (destruct n as [|n]; [cbn; lia|]). lia. Qed.

Lemma length_block_symbols b : length (block_symbols b) = esize (length b).
Proof. unfold block_symbols. by rewrite length_fmap, length_be_digits. Qed.

Lemma block_symbols_bytes b : is_bytes (block_symbols b).
Proof.
  unfold block_symbols, is_bytes. rewrite Forall_fmap.
  eapply Forall_impl; [apply be_digits_range; lia|]. apply symbol_byte.
Qed.

(** The loop overwrites the zeros of the block with the digits of [num]. *)
Lemma encode_block_loop_digits k : forall fuel num pre post,
  (k <= fuel)%nat -> 0 <= num < 58 ^ Z.of_nat k ->
  encode_block_loop fuel num (Z.of_nat (length pre) + Z.of_nat k - 1)
    (pre ++ replicate k alphabet_0 ++ post)
  = Some (pre ++ (symbol <$> be_digits 58 k num) ++ post).
Proof.
  induction k as [|k IH]; intros fuel num pre post Hf Hn.
  - assert (num = 0) as -> by (cbn in Hn; lia). by destruct fuel.
  - destruct (Z.ltb_spec 0 num) as [Hpos|].
    + destruct fuel as [|fuel]; [lia|]. cbn [encode_block_loop].
      replace (0 <? num) with true by lia. unfold alphabet_size.
      rewrite aget_alphabet by (apply Z.mod_pos_bound; lia). cbn [mbind option_bind].
      replace (Z.of_nat (length pre) + Z.of_nat (S k) - 1)
        with (Z.of_nat (length (pre ++ replicate k alphabet_0)))
        by (rewrite length_app, length_replicate; lia).
      rewrite aset_nat by (rewrite !length_app, !length_replicate; lia).
      cbn [mbind option_bind].
      replace (pre ++ replicate (S k) alphabet_0 ++ post)
        with ((pre ++ replicate k alphabet_0) ++ alphabet_0 :: post)
        by (rewrite replicate_S_end, <- !app_assoc; done).
      rewrite insert_app_r_alt, Nat.sub_diag, <- app_assoc by lia.
      replace (Z.of_nat (length (pre ++ replicate k alphabet_0)) - 1)
        with (Z.of_nat (length pre) + Z.of_nat k - 1)
        by (rewrite length_app, length_replicate; lia).
      cbn [insert list_insert].
      rewrite (IH fuel (num / 58)); [|lia|].
      * rewrite be_digits_S, fmap_app, <- app_assoc. done.
      * rewrite Nat2Z.inj_succ, Z.pow_succ_r in Hn by lia. split; [dlia|].
        apply Z.div_lt_upper_bound; lia.
    + assert (num = 0) as -> by lia. rewrite be_digits_0, fmap_replicate by lia.
      by destruct fuel.
Qed.

Lemma encode_block_symbols block size pre post :
  is_bytes block -> (1 <= size <= 8)%nat -> (size <= length block)%nat ->
  encode_block block size (pre ++ replicate (esize size) alphabet_0 ++ post) (length pre)
  = Some (pre ++ block_symbols (take size block) ++ post).
Proof.
  intros Hb Hs Hl. unfold encode_block.
  rewrite uint_8be_to_64_val, esize_lookup by (done || lia). cbn [mbind option_bind].
  rewrite Z.add_sub_assoc. unfold block_symbols. rewrite length_take_le by lia.
  pose proof (esize_le size ltac:(lia)). apply encode_block_loop_digits; [lia|].
  pose proof (be_val_bound 256 ltac:(lia) (take size block)) as B.
  rewrite length_take_le in B by lia.
  pose proof (esize_enough size ltac:(lia)). 
  destruct B; [by apply Forall_take|]. lia.
Qed.

(** ** Decoding one block *)

Definition digits (cs : bytes) : list Z := reverse_alphabet <$> cs.
Definition all_symbols (cs : bytes) : Prop := Forall (fun c => 0 <= reverse_alphabet c) cs.

Lemma digits_cons c cs : digits (c :: cs) = reverse_alphabet c :: digits cs.
Proof. done. Qed.

Lemma digits_range cs :
  is_bytes cs -> all_symbols cs -> Forall (fun d => 0 <= d < 58) (digits cs).
Proof.
  intros Hb Hs. unfold digits. rewrite Forall_fmap, Forall_forall. intros c Hc.
  unfold is_bytes, all_symbols in *. rewrite Forall_forall in Hb, Hs.
  destruct (symbol_call c); unfold compose; auto.
Qed.

Lemma pow58_fits j : (j <= 10)%nat -> fits 64 (58 ^ Z.of_nat j).
Proof.
  intros. split; [lia|]. apply Z.le_lt_trans with (58 ^ 10); [|vm_compute; done].
  apply Z.pow_le_mono_r; lia.
Qed.

Lemma order_step j : u64 (u64 (58 ^ Z.of_nat j) * 58) = u64 (58 ^ Z.of_nat (S j)).
Proof.
  unfold wrap. rewrite Zmult_mod_idemp_l, Nat2Z.inj_succ, Z.pow_succ_r by lia.
  f_equal. lia.
Qed.

(** One iteration of the loop: the digit's contribution is added exactly, or the
    block is rejected. *)
Lemma decode_loop_cons c cs j r :
  fits 8 c -> (j <= 10)%nat -> fits 64 r ->
  decode_block_loop (c :: cs) r (u64 (58 ^ Z.of_nat j)) =
    let d := reverse_alphabet c in
    if decide (0 <= d /\ r + 58 ^ Z.of_nat j * d < 2 ^ 64) then
      decode_block_loop cs (r + 58 ^ Z.of_nat j * d) (u64 (58 ^ Z.of_nat (S j)))
    else None.
Proof.
  intros Hc Hj Hr. cbn [decode_block_loop]. cbv zeta.
  pose proof (pow58_fits j Hj) as Ho. unfold alphabet_size. rewrite order_step.
  rewrite (wrap_small 64 (58 ^ Z.of_nat j)) by done.
  destruct (Z.ltb_spec (reverse_alphabet c) 0) as [|Hd];
    [by rewrite decide_False by lia|].
  destruct (symbol_call c Hc Hd) as [Hd' _].
  set (d := reverse_alphabet c) in *. set (o := 58 ^ Z.of_nat j) in *.
  assert (Hdf : fits 64 d) by (unfold fits; lia).
  rewrite mul128_spec by done. unfold fits in *.
  pose proof (Z.div_mod (o * d) (2 ^ 64) ltac:(lia)) as E.
  pose proof (Z.mod_pos_bound (o * d) (2 ^ 64) ltac:(lia)) as B.
  rewrite wrap_add_ltb by (unfold fits; lia).
  destruct (decide (o * d < 2 ^ 64)).
  - rewrite (Z.div_small (o * d)), (Z.mod_small (o * d)) by nia. cbn [Z.eqb negb].
    rewrite orb_false_r. destruct (Z.leb_spec (2 ^ 64) (r + o * d)).
    + by rewrite decide_False by lia.
    + rewrite decide_True by lia. by rewrite wrap_small by (unfold fits; nia).
  - assert (0 < o * d / 2 ^ 64) by (apply Z.div_str_pos; lia).
    replace (_ || _) with true by lia. by rewrite decide_False by lia.
Qed.

Lemma decode_loop_complete cs : forall j r,
  is_bytes cs -> all_symbols cs -> (j + length cs <= 11)%nat -> 0 <= r ->
  r + 58 ^ Z.of_nat j * le_val 58 (digits cs) < 2 ^ 64 ->
  decode_block_loop cs r (u64 (58 ^ Z.of_nat j))
  = Some (r + 58 ^ Z.of_nat j * le_val 58 (digits cs)).
Proof.
  induction cs as [|c cs IH]; intros j r Hb Hs Hj Hr Hlt.
  { cbn. f_equal. lia. }
  pose proof (digits_range _ Hb Hs) as Hd. rewrite digits_cons in Hd.
  apply Forall_cons in Hd as [Hd Hds]. apply Forall_cons in Hb as [Hc Hb]. apply Forall_cons in Hs as [Hc' Hs].
  pose proof (le_val_bound 58 ltac:(lia) _ Hds) as [Hv _].
  pose proof (Z.pow_pos_nonneg 58 (Z.of_nat j) ltac:(lia) ltac:(lia)).
  rewrite digits_cons in *. cbn [le_val length] in *.
  set (v := le_val 58 (digits cs)) in *. set (d := reverse_alphabet c) in *.
  assert (Ep : 58 ^ Z.of_nat (S j) = 58 * 58 ^ Z.of_nat j)
    by (by rewrite Nat2Z.inj_succ, Z.pow_succ_r by lia).
  assert (0 <= 58 ^ Z.of_nat j * d) by nia. assert (0 <= 58 ^ Z.of_nat j * v) by nia.
  rewrite decode_loop_cons by (done || lia || (unfold fits; lia)). cbv zeta. fold d.
  rewrite decide_True by lia.
  rewrite IH; [|done|done|lia|lia|rewrite Ep; fold v; lia]. f_equal. rewrite Ep. fold v. ring.
Qed.

Lemma decode_loop_sound cs : forall j r n,
  is_bytes cs -> (j + length cs <= 11)%nat -> fits 64 r ->
  decode_block_loop cs r (u64 (58 ^ Z.of_nat j)) = Some n ->
  all_symbols cs /\ n = r + 58 ^ Z.of_nat j * le_val 58 (digits cs) /\ n < 2 ^ 64.
Proof.
  induction cs as [|c cs IH]; intros j r n Hb Hj Hr E.
  { cbn in E. injection E as <-. unfold fits in Hr.
    change (le_val 58 (digits [])) with 0. split; [constructor|lia]. }
  apply Forall_cons in Hb as [Hc Hb]. cbn [length] in Hj.
  rewrite decode_loop_cons in E by (done || lia). cbv zeta in E.
  destruct (decide _) as [[Hd Hlt]|]; [|done].
  pose proof (Z.pow_pos_nonneg 58 (Z.of_nat j) ltac:(lia) ltac:(lia)).
  apply IH in E as (Hs & -> & Hn); [|done|lia|unfold fits in *; nia].
  split; [by constructor|]. split; [|done].
  rewrite Nat2Z.inj_succ, Z.pow_succ_r, digits_cons by lia. cbn [le_val]. ring.
Qed.

Lemma dsize_esize n :
  (n <= 8)%nat -> decoded_block_sizes (esize n) = Some (Z.of_nat n).
Proof. intros. do 9 (destruct n as [|n]; [vm_compute; done|]). lia. Qed.

Lemma dsize_inv e s :
  decoded_block_sizes e = Some s -> 0 <= s ->
  exists n, (n <= 8)%nat /\ s = Z.of_nat n /\ esize n = e.
Proof.
  intros H Hs. exists (Z.to_nat s).
  do 12 (destruct e as [|e];
    [cbv in H; injection H as <-; first [lia | split; [cbn; lia|done]]|]). done.
Qed.

Lemma digits_symbols ds :
  Forall (fun d => 0 <= d < 58) ds -> digits (symbol <$> ds) = ds.
Proof.
  intros H. unfold digits. rewrite <- list_fmap_compose. rewrite <- (list_fmap_id ds) at 2.
  apply list_fmap_ext. intros i d Hd. apply call_symbol.
  rewrite Forall_lookup in H. eauto.
Qed.

Lemma symbols_digits cs :
  is_bytes cs -> all_symbols cs -> symbol <$> digits cs = cs.
Proof.
  intros Hb Hs. unfold digits. rewrite <- list_fmap_compose. rewrite <- (list_fmap_id cs) at 2.
  apply list_fmap_ext. intros i c Hc. unfold is_bytes, all_symbols in *.
  rewrite Forall_lookup in Hb, Hs. apply symbol_call; eauto.
Qed.

Lemma all_symbols_symbols ds :
  Forall (fun d => 0 <= d < 58) ds -> all_symbols (symbol <$> ds).
Proof.
  unfold all_symbols. rewrite Forall_fmap. intros H. eapply Forall_impl; [done|].
  intros d Hd.
  cbv beta in Hd. unfold compose. rewrite call_symbol; lia.
Qed.

Lemma digits_reverse cs : digits (reverse cs) = reverse (digits cs).
Proof. apply fmap_reverse. Qed.

Lemma pow256 n : 256 ^ Z.of_nat n = 2 ^ (8 * Z.of_nat n).
Proof. change 256 with (2 ^ 8). by rewrite <- Z.pow_mul_r by lia. Qed.

(** The test for a number that does not fit the decoded block. *)
Lemma block_overflow_test n v :
  (1 <= n <= 8)%nat -> 0 <= v < 2 ^ 64 ->
  (Z.of_nat n <? 8) && (u64 (1 ≪ (8 * Z.of_nat n)) <=? v) = (256 ^ Z.of_nat n <=? v).
Proof.
  intros Hn Hv. rewrite shiftl_mul, Z.mul_1_l, <- pow256 by lia.
  destruct (Z.ltb_spec (Z.of_nat n) 8).
  - rewrite wrap_small; [done|]. split; [lia|]. rewrite pow256. apply Z.pow_lt_mono_r; lia.
  - replace n with 8%nat by lia. change (256 ^ Z.of_nat 8) with (2 ^ 64). lia.
Qed.

Lemma decode_block_complete b rest :
  is_bytes b -> (1 <= length b <= 8)%nat ->
  decode_block (block_symbols b ++ rest) (esize (length b)) = Some b.
Proof.
  intros Hb Hl. unfold decode_block. rewrite dsize_esize by lia. cbn [mbind option_bind].
  replace (Z.of_nat (length b) <=? 0) with false by lia.
  rewrite take_app_length' by (symmetry; apply length_block_symbols).
  pose proof (be_val_bound 256 ltac:(lia) b Hb) as Hv.
  pose proof (esize_enough (length b) ltac:(lia)) as He.
  pose proof (esize_le (length b) ltac:(lia)) as Hle.
  assert (256 ^ Z.of_nat (length b) <= 2 ^ 64)
    by (change (2 ^ 64) with (256 ^ 8); apply Z.pow_le_mono_r; lia).
  pose proof (be_digits_range 58 ltac:(lia) (esize (length b)) (be_val 256 b)) as Hr.
  assert (Hval : le_val 58 (digits (reverse (block_symbols b))) = be_val 256 b).
  { unfold block_symbols. rewrite digits_reverse, digits_symbols by done.
    fold (be_val 58 (be_digits 58 (esize (length b)) (be_val 256 b))).
    rewrite be_val_digits by lia. apply Z.mod_small. lia. }
  change 1 with (u64 (58 ^ Z.of_nat 0)) at 2. rewrite decode_loop_complete.
  - rewrite Hval. change (58 ^ Z.of_nat 0) with 1. rewrite Z.mul_1_l, Z.add_0_l.
    cbn [mbind option_bind]. rewrite block_overflow_test by lia.
    replace (256 ^ Z.of_nat (length b) <=? be_val 256 b) with false by lia.
    rewrite uint_64_to_8be_digits, Nat2Z.id by lia. f_equal. by apply be_digits_val.
  - unfold is_bytes. rewrite Forall_reverse. apply block_symbols_bytes.
  - unfold all_symbols. rewrite Forall_reverse. by apply all_symbols_symbols.
  - rewrite length_reverse, length_block_symbols. lia.
  - lia.
  - rewrite Hval. change (58 ^ Z.of_nat 0) with 1. lia.
Qed.

Lemma decode_block_sound block size bs :
  is_bytes block -> (size <= length block)%nat -> decode_block block size = Some bs ->
  is_bytes bs /\ (1 <= length bs <= 8)%nat /\ esize (length bs) = size /\
  take size block = block_symbols bs.
Proof.
  intros Hb Hl E. unfold decode_block in E.
  destruct (decoded_block_sizes size) as [s|] eqn:Es; [|done]. cbn [mbind option_bind] in E.
  destruct (Z.leb_spec s 0); [done|].
  destruct (dsize_inv _ _ Es ltac:(lia)) as (n & Hn & -> & He).
  pose proof (esize_le n Hn).
  assert (Hbt : is_bytes (take size block)) by by apply Forall_take.
  destruct (decode_block_loop _ _ _) as [v|] eqn:El; [|done]. cbn [mbind option_bind] in E.
  change 1 with (u64 (58 ^ Z.of_nat 0)) in El. apply decode_loop_sound in El as (Hs & -> & Hlt).
  2:{ unfold is_bytes. by rewrite Forall_reverse. }
  2:{ rewrite length_reverse, length_take. lia. }
  2:{ unfold fits. lia. }
  change (58 ^ Z.of_nat 0) with 1 in *. rewrite Z.mul_1_l, Z.add_0_l in *.
  unfold all_symbols in Hs. rewrite Forall_reverse in Hs. rewrite digits_reverse in *.
  fold (be_val 58 (digits (take size block))) in *.
  set (cs := take size block) in *.
  assert (Hcl : length (digits cs) = size)
    by (unfold digits, cs; rewrite length_fmap, length_take; lia).
  pose proof (digits_range cs Hbt Hs) as Hd.
  pose proof (be_val_bound 58 ltac:(lia) _ Hd) as Hv.
  rewrite block_overflow_test in E by lia.
  destruct (Z.leb_spec (256 ^ Z.of_nat n) (be_val 58 (digits cs))); [done|].
  injection E as <-. rewrite Nat2Z.id, uint_64_to_8be_digits by lia.
  rewrite length_be_digits. split; [by apply (be_digits_range 256)|].
  split; [lia|]. split; [done|]. unfold block_symbols.
  rewrite length_be_digits, be_val_digits, Z.mod_small, He by lia.
  rewrite <- Hcl, be_digits_val by (done || lia). symmetry. by apply symbols_digits.
Qed.

(** ** Whole strings *)

Definition full_block (b : bytes) : Prop := is_bytes b /\ length b = 8%nat.

Lemma blocks_full n data :
  is_bytes data -> (n * 8 <= length data)%nat -> Forall full_block (blocks n 8 data).
Proof.
  revert data. induction n as [|n IH]; intros data Hd Hl; simpl in *; [constructor|].
  constructor; [split; [by apply Forall_take|rewrite length_take; lia]|].
  apply IH; [by apply Forall_drop|rewrite length_drop; lia].
Qed.

Lemma length_join_symbols bs :
  Forall full_block bs -> length (mjoin (block_symbols <$> bs)) = (length bs * 11)%nat.
Proof.
  induction 1 as [|b bs [_ Hb] _ IH]; [done|]. rewrite fmap_cons, mjoin_cons.
  cbn [length]. rewrite length_app, length_block_symbols, Hb, IH. done.
Qed.

Lemma length_join_full bs :
  Forall full_block bs -> length (mjoin bs) = (length bs * 8)%nat.
Proof.
  induction 1 as [|b bs [_ Hb] _ IH]; [done|]. rewrite mjoin_cons. cbn [length].
  rewrite length_app, Hb, IH. lia.
Qed.

Lemma encode_full_symbols n : forall i data pre post,
  is_bytes data -> ((i + n) * 8 <= length data)%nat -> length pre = (i * 11)%nat ->
  encode_full n i data (pre ++ replicate (n * 11) alphabet_0 ++ post)
  = Some (pre ++ mjoin (block_symbols <$> blocks n 8 (drop (i * 8) data)) ++ post).
Proof.
  induction n as [|n IH]; intros i data pre post Hd Hl Hp; [done|].
  cbn [encode_full]. unfold full_block_size, full_encoded_block_size.
  replace (S n * 11)%nat with (esize 8 + n * 11)%nat by (cbn; lia).
  rewrite replicate_add, <- app_assoc, <- Hp.
  rewrite encode_block_symbols; [|by apply Forall_drop|lia|rewrite length_drop; lia].
  cbn [mbind option_bind]. rewrite app_assoc, IH; [|done|lia|].
  - cbn [blocks]. rewrite drop_drop, fmap_cons, mjoin_cons, <- !app_assoc.
    by replace (S i * 8)%nat with (i * 8 + 8)%nat by lia.
  - rewrite length_app, length_block_symbols, length_take, length_drop, Hp.
    replace (8 `min` (length data - i * 8))%nat with 8%nat by lia. cbn. lia.
Qed.

(** The reference encoding: the concatenation of the block encodings. *)
Definition encoding (data : bytes) : bytes :=
  mjoin (block_symbols <$> blocks (length data / 8) 8 data)
  ++ block_symbols (drop (length data / 8 * 8) data).

Lemma block_symbols_nil : block_symbols [] = [].
Proof. done. Qed.

Lemma encode_encoding data : is_bytes data -> encode data = Some (encoding data).
Proof.
  intros Hd. destruct (decide (data = [])) as [->|Hne]; [done|].
  pose proof (Nat.div_mod_eq (length data) 8) as E.
  pose proof (Nat.mod_upper_bound (length data) 8 ltac:(lia)) as B.
  unfold encode, encoding. replace (match data with [] => _ | _ => _ end) with
    (last_esize ← encoded_block_sizes !! (length data mod full_block_size)%nat;
     res ← encode_full (length data / full_block_size) 0 data
       (replicate (length data / full_block_size * full_encoded_block_size + last_esize)
          alphabet_0);
     if (0 <? length data mod full_block_size)%nat then
       encode_block (drop (length data / full_block_size * full_block_size) data)
         (length data mod full_block_size) res
         (length data / full_block_size * full_encoded_block_size)
     else Some res) by by destruct data.
  unfold full_block_size, full_encoded_block_size.
  set (n := (length data / 8)%nat) in *. set (k := (length data mod 8)%nat) in *.
  rewrite esize_lookup by lia. cbn [mbind option_bind].
  rewrite replicate_add. pose proof (encode_full_symbols n 0 data []) as F.
  cbn [app Nat.mul] in F. rewrite F by (done || lia). clear F. cbn [mbind option_bind].
  rewrite drop_0. set (P := mjoin _).
  assert (HP : length P = (n * 11)%nat).
  { unfold P. rewrite length_join_symbols, length_blocks; [done|]. apply blocks_full; [done|lia]. }
  assert (Hlast : length (drop (n * 8) data) = k) by (rewrite length_drop; lia).
  destruct (Nat.ltb_spec 0 k).
  - rewrite <- HP, <- (app_nil_r (replicate (esize k) alphabet_0)).
    rewrite encode_block_symbols; [|by apply Forall_drop|lia|lia].
    by rewrite app_nil_r, take_ge by lia.
  - replace k with 0%nat by lia. cbn [esize nth encoded_block_sizes replicate].
    rewrite (nil_length_inv (drop (n * 8) data)) by lia. by rewrite block_symbols_nil.
Qed.

Lemma write_at_app pre mid post bs :
  length bs = length mid -> write_at (pre ++ mid ++ post) (length pre) bs = pre ++ bs ++ post.
Proof.
  intros H. unfold write_at. rewrite take_app_length, H.
  rewrite drop_app_ge by lia.
  replace (length pre + length mid - length pre)%nat with (length mid) by lia.
  by rewrite drop_app_length.
Qed.

Lemma decode_full_complete bs : forall i enc tail pre post,
  Forall full_block bs -> drop (i * 11) enc = mjoin (block_symbols <$> bs) ++ tail ->
  length pre = (i * 8)%nat ->
  decode_full (length bs) i enc (pre ++ replicate (length bs * 8) 0 ++ post)
  = Some (pre ++ mjoin bs ++ post).
Proof.
  induction bs as [|b bs IH]; intros i enc tail pre post Hf Henc Hp; [done|].
  apply Forall_cons in Hf as [[Hb Hl] Hf]. rewrite fmap_cons, mjoin_cons, <- app_assoc in Henc.
  cbn [length decode_full]. unfold full_block_size, full_encoded_block_size.
  rewrite Henc. change 11%nat with (esize 8) at 1. rewrite <- Hl.
  rewrite decode_block_complete by (done || lia). cbn [mbind option_bind].
  replace (S (length bs) * length b)%nat with (length b + length bs * 8)%nat by lia.
  rewrite replicate_add, <- !app_assoc. replace (i * length b)%nat with (length pre) by lia.
  rewrite write_at_app by by rewrite length_replicate.
  rewrite app_assoc, (IH (S i) enc tail); [|done| |rewrite length_app; lia].
  - by rewrite mjoin_cons, <- !app_assoc.
  - replace (S i * 11)%nat with (i * 11 + esize (length b))%nat by (rewrite Hl; cbn; lia).
    rewrite <- drop_drop, Henc, <- length_block_symbols. apply drop_app_length.
Qed.

Lemma esize_inj n m : (n <= 8)%nat -> (m <= 8)%nat -> esize n = esize m -> n = m.
Proof.
  intros Hn Hm E. pose proof (dsize_esize n Hn) as D. rewrite E, dsize_esize in D by done.
  injection D. lia.
Qed.

Lemma decode_full_sound n : forall i enc pre post out,
  is_bytes enc -> ((i + n) * 11 <= length enc)%nat -> length pre = (i * 8)%nat ->
  decode_full n i enc (pre ++ replicate (n * 8) 0 ++ post) = Some out ->
  exists bs, length bs = n /\ Forall full_block bs /\ out = pre ++ mjoin bs ++ post /\
    take (n * 11) (drop (i * 11) enc) = mjoin (block_symbols <$> bs).
Proof.
  induction n as [|n IH]; intros i enc pre post out He Hl Hp E.
  { exists []. cbn in E. injection E as <-. by rewrite take_0. }
  cbn [decode_full] in E. unfold full_block_size, full_encoded_block_size in E.
  destruct (decode_block _ _) as [b|] eqn:Eb; [|done]. cbn [mbind option_bind] in E.
  apply decode_block_sound in Eb as (Hb & Hbl & Hbe & Hbs);
    [|by apply Forall_drop|rewrite length_drop; lia].
  assert (Hb8 : length b = 8%nat) by (apply esize_inj; [lia|lia|done]).
  replace (S n * 8)%nat with (length b + n * 8)%nat in E by lia.
  rewrite replicate_add, <- app_assoc, <- Hp, write_at_app in E by by rewrite length_replicate.
  rewrite app_assoc in E. apply IH in E as (bs & Hn & Hf & -> & Ht);
    [|done|lia|rewrite length_app; lia].
  exists (b :: bs). cbn [length]. rewrite mjoin_cons, fmap_cons, mjoin_cons, <- !app_assoc.
  repeat split; [congruence|by repeat constructor|].
  rewrite <- Hbs, <- Ht. replace (S i * 11)%nat with (i * 11 + 11)%nat by lia.
  rewrite <- drop_drop. change (S n * 11)%nat with (11 + n * 11)%nat.
  rewrite <- (take_drop 11 (drop (i * 11) enc)) at 1.
  assert (length (take 11 (drop (i * 11) enc)) = 11%nat)
    by (rewrite length_take, length_drop; lia).
  rewrite take_app_ge by lia. do 2 f_equal. lia.
Qed.

Lemma blocks_of_join bs (l : bytes) :
  Forall full_block bs -> blocks (length bs) 8 (mjoin bs ++ l) = bs.
Proof.
  induction 1 as [|b bs [_ Hb] _ IH]; [done|]. cbn [length blocks].
  rewrite mjoin_cons, <- app_assoc, take_app_length', drop_app_length' by done. by rewrite IH.
Qed.

Lemma is_bytes_join bs : Forall full_block bs -> is_bytes (mjoin bs).
Proof.
  induction 1 as [|b bs [Hb _] _ IH]; [constructor|]. rewrite mjoin_cons.
  by apply Forall_app.
Qed.

(** The encoding of a string given by its full blocks and its last block. *)
Lemma encoding_blocks bs (l : bytes) :
  Forall full_block bs -> (length l <= 7)%nat ->
  encoding (mjoin bs ++ l) = mjoin (block_symbols <$> bs) ++ block_symbols l.
Proof.
  intros Hf Hl. unfold encoding. rewrite length_app, length_join_full by done.
  replace ((length bs * 8 + length l) / 8)%nat with (length bs)
    by (apply Nat.div_unique with (length l); lia).
  rewrite blocks_of_join, <- length_join_full, drop_app_length by done. done.
Qed.

Lemma decode_unfold enc :
  enc <> [] ->
  decode enc =
    (let n := (length enc / 11)%nat in let k := (length enc mod 11)%nat in
     s ← decoded_block_sizes k;
     if s <? 0 then None
     else
       data ← decode_full n 0 enc (replicate (n * 8 + Z.to_nat s) 0);
       if (0 <? k)%nat then
         bs ← decode_block (drop (n * 11) enc) k; Some (write_at data (n * 8) bs)
       else Some data).
Proof. by destruct enc. Qed.

Lemma length_encoding bs l :
  Forall full_block bs ->
  length (mjoin (block_symbols <$> bs) ++ block_symbols l)
  = (length bs * 11 + esize (length l))%nat.
Proof. intros. by rewrite length_app, length_join_symbols, length_block_symbols. Qed.

Lemma esize_lt n : (n <= 7)%nat -> (esize n < 11)%nat.
Proof. intros. do 8 (destruct n as [|n]; [cbn; lia|]). lia. Qed.

Lemma esize_pos n : (1 <= n <= 8)%nat -> (0 < esize n)%nat.
Proof. intros. do 9 (destruct n as [|n]; [cbn; lia|]). lia. Qed.

Lemma decode_blocks_complete bs l :
  Forall full_block bs -> is_bytes l -> (length l <= 7)%nat ->
  decode (mjoin (block_symbols <$> bs) ++ block_symbols l) = Some (mjoin bs ++ l).
Proof.
  intros Hf Hb Hl. pose proof (length_encoding bs l Hf) as Hlen.
  pose proof (esize_lt _ Hl) as He.
  set (P := mjoin (block_symbols <$> bs)) in *.
  destruct (decide (P ++ block_symbols l = [])) as [E|Hne].
  { rewrite E in Hlen. cbn [length] in Hlen. assert (length bs = 0%nat) by lia.
    destruct bs; [|done]. destruct l as [|x l]; [done|].
    pose proof (esize_pos (length (x :: l)) ltac:(cbn [length] in *; lia)). cbn [length] in *. lia. }
  rewrite decode_unfold by done. cbv zeta. rewrite Hlen.
  replace ((length bs * 11 + esize (length l)) / 11)%nat with (length bs)
    by (apply Nat.div_unique with (esize (length l)); lia).
  replace ((length bs * 11 + esize (length l)) mod 11)%nat with (esize (length l))
    by (apply Nat.mod_unique with (length bs); lia).
  rewrite dsize_esize by lia. cbn [mbind option_bind].
  replace (Z.of_nat (length l) <? 0) with false by lia.
  rewrite Nat2Z.id, replicate_add.
  pose proof (decode_full_complete bs 0 (P ++ block_symbols l) (block_symbols l) []) as F.
  cbn [app] in F. rewrite F by done. clear F. cbn [mbind option_bind].
  assert (HP : length P = (length bs * 11)%nat) by by apply length_join_symbols.
  rewrite <- HP, drop_app_length. destruct (Nat.ltb_spec 0 (esize (length l))).
  - assert (length l <> 0%nat) by (intros E; rewrite E in *; cbn in *; lia).
    rewrite <- (app_nil_r (block_symbols l)), decode_block_complete by (done || lia).
    cbn [mbind option_bind]. rewrite <- length_join_full, <- (app_nil_r (replicate _ 0)) by done.
    rewrite write_at_app by by rewrite length_replicate. by rewrite app_nil_r.
  - destruct l as [|x l]; [done|].
    pose proof (esize_pos (length (x :: l)) ltac:(cbn [length] in *; lia)). cbn [length] in *. lia.
Qed.

Lemma decode_encoding data : is_bytes data -> decode (encoding data) = Some data.
Proof.
  intros Hd. pose proof (Nat.div_mod_eq (length data) 8).
  pose proof (Nat.mod_upper_bound (length data) 8 ltac:(lia)).
  unfold encoding. rewrite decode_blocks_complete.
  - by rewrite blocks_join.
  - apply blocks_full; [done|lia].
  - by apply Forall_drop.
  - rewrite length_drop. lia.
Qed.

Lemma decode_sound enc data :
  is_bytes enc -> decode enc = Some data -> is_bytes data /\ encoding data = enc.
Proof.
  intros He E. destruct (decide (enc = [])) as [->|Hne].
  { cbn in E. injection E as <-. split; [constructor|done]. }
  rewrite decode_unfold in E by done. cbv zeta in E.
  pose proof (Nat.div_mod_eq (length enc) 11) as D.
  pose proof (Nat.mod_upper_bound (length enc) 11 ltac:(lia)) as B.
  set (n := (length enc / 11)%nat) in *. set (k := (length enc mod 11)%nat) in *.
  destruct (decoded_block_sizes k) as [s|] eqn:Es; [|done]. cbn [mbind option_bind] in E.
  destruct (Z.ltb_spec s 0); [done|].
  destruct (dsize_inv _ _ Es ltac:(lia)) as (m & Hm & -> & Hk).
  assert (m <= 7)%nat by (destruct (decide (m = 8%nat)) as [->|]; [cbn in Hk; lia|lia]).
  destruct (decode_full _ _ _ _) as [d|] eqn:Ed; [|done]. cbn [mbind option_bind] in E.
  rewrite Nat2Z.id, replicate_add in Ed.
  apply (decode_full_sound n 0 enc []) in Ed as (bs & Hn & Hf & -> & Ht);
    [|done|lia|done]. cbn [app Nat.mul] in *. rewrite drop_0 in Ht.
  assert (L : exists l, is_bytes l /\ length l = m /\ data = mjoin bs ++ l /\
                drop (n * 11) enc = block_symbols l).
  { destruct (Nat.ltb_spec 0 k).
    - destruct (decode_block _ _) as [b|] eqn:Eb; [|done]. cbn [mbind option_bind] in E.
      apply decode_block_sound in Eb as (Hb & Hbl & Hbe & Hbs);
        [|by apply Forall_drop|rewrite length_drop; lia].
      assert (length b = m) as Hbm by (apply esize_inj; [lia|lia|congruence]).
      exists b. repeat split; [done|done| |by rewrite <- Hbs, take_ge by (rewrite length_drop; lia)].
      injection E as <-. rewrite <- Hn, <- length_join_full by done.
      rewrite <- (app_nil_r (replicate m 0)), write_at_app by (rewrite length_replicate; done).
      by rewrite app_nil_r.
    - exists []. assert (m = 0%nat) as ->.
      { destruct (decide (m = 0%nat)); [done|]. pose proof (esize_pos m ltac:(lia)). lia. }
      injection E as <-. repeat split; [constructor|]. apply drop_ge. lia. }
  destruct L as (l & Hl & Hlm & -> & Hdl). split.
  - apply Forall_app. split; [by apply is_bytes_join|done].
  - rewrite encoding_blocks, <- Ht, <- Hdl by (done || lia). apply take_drop.
Qed.

(** ** Addresses *)

Section address_facts.
Context `{FastHash}.

Lemma checksum_length data : length (take addr_checksum_size (fast_hash data)) = 4%nat.
Proof. rewrite length_take, fast_hash_length. done. Qed.

Lemma addr_encodes tag data :
  fits 64 tag -> is_bytes data ->
  exists a, encode_addr tag data = Some a /\ is_bytes a /\ decode_addr a = Some (tag, data).
Proof.
  intros Ht Hd. unfold encode_addr, Varint.get_varint_data. cbv zeta.
  set (body := Varint.write_varint tag ++ data).
  set (sum := take addr_checksum_size (fast_hash body)).
  assert (Hbody : is_bytes body).
  { apply Forall_app. split; [apply Varint.write_varint_bytes; unfold fits in Ht; lia|done]. }
  assert (Hb : is_bytes (body ++ sum)).
  { apply Forall_app. split; [done|]. apply Forall_take, fast_hash_bytes. }
  assert (Hs : length sum = 4%nat) by apply checksum_length.
  exists (encoding (body ++ sum)). rewrite encode_encoding by done.
  split; [done|]. split.
  { unfold encoding. apply Forall_app. split; [|apply block_symbols_bytes].
    apply Forall_join, Forall_fmap, Forall_true. intros. apply block_symbols_bytes. }
  unfold decode_addr. rewrite decode_encoding by done. cbn [mbind option_bind].
  unfold addr_checksum_size. rewrite length_app, Hs.
  pose proof (Varint.write_varint_length tag 9) as Hw.
  assert (Hw1 : (1 <= length (Varint.write_varint tag))%nat)
    by (apply Hw; unfold fits in Ht; cbn; lia).
  assert (1 <= length body)%nat by (unfold body; rewrite length_app; lia).
  destruct (Nat.leb_spec (length body + 4) 4); [lia|]. cbv zeta.
  replace (length body + 4 - 4)%nat with (length body) by lia.
  rewrite take_app_length, drop_app_length. rewrite decide_True by done.
  unfold body at 1. rewrite Varint.read_write_app by (done || lia).
  replace (Z.of_nat (length (Varint.write_varint tag)) <=? 0) with false by lia.
  rewrite Nat2Z.id. unfold body. by rewrite drop_app_length.
Qed.

Lemma addr_decodes a tag data :
  is_bytes a -> decode_addr a = Some (tag, data) -> data <> [] ->
  encode_addr tag data = Some a.
Proof.
  intros Ha E Hne. unfold decode_addr in E.
  destruct (decode a) as [d|] eqn:Ed; [|done]. cbn [mbind option_bind] in E.
  apply decode_sound in Ed as [Hd Henc]; [|done].
  destruct (Nat.leb_spec (length d) addr_checksum_size) as [|Hl]; [done|]. cbv zeta in E.
  destruct (decide _) as [Hsum|]; [|done].
  set (body := take (length d - addr_checksum_size) d) in *.
  destruct (Varint.read_varint 64 body) as [[n v] rest] eqn:Er.
  destruct (Z.leb_spec n 0); [done|]. injection E as -> <-.
  assert (Hbody : is_bytes body) by by apply Forall_take.
  apply Varint.read_loop_sound in Er; [|done|lia|lia|lia|done].
  destruct Er as [->|[->|[(u & Eb & _ & _ & -> & ->)|(-> & _ & ->)]]];
    [unfold Varint.EVARINT_OVERFLOW in *; lia|unfold Varint.EVARINT_REPRESENT in *; lia| |].
  - change (2 ^ 0) with 1. rewrite Z.mul_1_r, !Z.add_0_r, Z.add_0_l, Nat2Z.id in *.
    rewrite Eb at 1. rewrite drop_app_length.
    unfold encode_addr, Varint.get_varint_data. cbv zeta. rewrite <- Eb, Hsum.
    unfold body. by rewrite take_drop, encode_encoding, Henc.
  - rewrite Z.add_0_l, Nat2Z.id, drop_all in Hne. done.
Qed.
End address_facts.

(** ** Properties *)

(** Base58 text is a faithful encoding: every byte string has an encoding,
    and decoding it gives the byte string back. *)
Theorem base58_roundtrip data :
  is_bytes data -> exists enc, encode data = Some enc /\ decode enc = Some data.
Proof.
  intros Hd. exists (encoding data). by rewrite encode_encoding, decode_encoding by done.
Qed.

Lemma base58_roundtrip_witness :
  is_bytes [0; 255; 17; 4; 5; 6; 7; 8; 9; 10] /\
  exists enc, encode [0; 255; 17; 4; 5; 6; 7; 8; 9; 10] = Some enc /\
    decode enc = Some [0; 255; 17; 4; 5; 6; 7; 8; 9; 10].
Proof.
  assert (H : is_bytes [0; 255; 17; 4; 5; 6; 7; 8; 9; 10]) by by_eval.
  split; [exact H | exact (base58_roundtrip _ H)].
Defined.

(** Decoding accepts only canonical text: whatever decodes is exactly the
    encoding of the result, so no two texts stand for the same bytes. *)
Theorem base58_decode_canonical enc data :
  is_bytes enc -> decode enc = Some data -> is_bytes data /\ encode data = Some enc.
Proof.
  intros He E. apply decode_sound in E as [Hd <-]; [|done]. by rewrite encode_encoding.
Qed.

Lemma base58_decode_canonical_witness :
  decode (bytes_of_string "5Q") = Some [255] /\ encode [255] = Some (bytes_of_string "5Q").
Proof.
  split; [vm_compute; reflexivity|].
  apply (base58_decode_canonical (bytes_of_string "5Q") [255]);
    [by_eval | vm_compute; reflexivity].
Defined.

(** An address carries its tag and its payload: encoding succeeds for every
    64-bit tag and every payload, and decoding the text returns both. *)
Theorem addr_roundtrip `{FastHash} tag data :
  fits 64 tag -> is_bytes data ->
  exists a, encode_addr tag data = Some a /\ decode_addr a = Some (tag, data).
Proof.
  intros Ht Hd. destruct (addr_encodes tag data Ht Hd) as (a & ? & _ & ?). eauto.
Qed.

Lemma addr_roundtrip_witness :
  exists a, encode_addr 0x2ce192 [7; 0; 255] = Some a /\
    decode_addr a = Some (0x2ce192, [7; 0; 255]).
Proof.
  apply (addr_roundtrip 0x2ce192 [7; 0; 255]); [split; lia|].
  by_eval.
Defined.

(** An accepted address with a payload is the one text [encode_addr] makes
    for its tag and payload: no second text decodes to the same address. *)
Theorem addr_canonical `{FastHash} a tag data :
  is_bytes a -> data <> [] -> decode_addr a = Some (tag, data) ->
  encode_addr tag data = Some a.
Proof. intros. by apply addr_decodes. Qed.

Lemma addr_canonical_witness :
  exists a, decode_addr a = Some (5, [1]) /\ encode_addr 5 [1] = Some a.
Proof.
  destruct (addr_encodes 5 [1]) as (a & _ & Ha & Hdec);
    [split; lia | by_eval |].
  exists a. split; [exact Hdec|].
  apply (addr_canonical a 5 [1] Ha); [discriminate | exact Hdec].
Defined.
End Base58.
