(* ===== verification/Difficulty.v ===== *)
(** * Difficulty

    [src/cryptonote_basic/difficulty.cpp]: the proof-of-work test and the four
    difficulty adjustment algorithms, with [median] of
    [contrib/epee/include/misc_language.h]. Vectors are lists; an access outside
    a vector has no result. *)

From stdpp Require Import sorting.
From S2P Require Import Prelude Config IntUtil Keccak.
Import Config IntUtil.

Module Difficulty.

(** [mul] on x86_64, as [(low, high)]. *)
Definition mul (a b : Z) : Z * Z := mul128 a b.

Definition cadd (a b : Z) : bool := u64 (a + b) <? a.

Definition cadc (a b : Z) (c : bool) : bool :=
  (u64 (a + b) <? a) || (c && (u64 (a + b) =? 2 ^ 64 - 1)).

(** [((const uint64_t * )&hash)[i]]. *)
Definition hash_word (hash : bytes) (i : nat) : Z := Keccak.load64 hash i.

Definition check_hash (hash : bytes) (difficulty : Z) : bool :=
  let '(top, high) := mul (hash_word hash 3) difficulty in
  if negb (high =? 0) then false
  else
    let '(low, cur) := mul (hash_word hash 0) difficulty in
    let '(low, high) := mul (hash_word hash 1) difficulty in
    let carry := cadd cur low in
    let cur := high in
    let '(low, high) := mul (hash_word hash 2) difficulty in
    let carry := cadc cur low carry in
    let carry := cadc high top carry in
    negb carry.

(** [std::vector::resize] with zero-initialised new entries. *)
Definition resize (n : nat) (l : list Z) : list Z := take n l ++ replicate (n - length l) 0.

Definition sort (l : list Z) : list Z := merge_sort Z.le l.

(** The indices kept after the outliers are cut from a sorted window. *)
Definition cut_range (length window : nat) : nat * nat :=
  if (length <=? window)%nat then (0, length)%nat
  else
    let cut_begin := ((length - window + 1) / 2)%nat in
    (cut_begin, cut_begin + window)%nat.

(** [None] when an assert fails. *)
Definition next_difficulty_v1 (timestamps cumulative_difficulties : list Z)
    (target_seconds : Z) : option Z :=
  let big := (DIFFICULTY_WINDOW_V1 <? length timestamps)%nat in
  let timestamps := if big then resize DIFFICULTY_WINDOW_V1 timestamps else timestamps in
  let cumulative_difficulties :=
    if big then resize DIFFICULTY_WINDOW_V1 cumulative_difficulties
    else cumulative_difficulties in
  let length := length timestamps in
  _ ← asserted (length =? Datatypes.length cumulative_difficulties)%nat;
  if (length <=? 1)%nat then Some 1
  else
    _ ← asserted (length <=? DIFFICULTY_WINDOW_V1)%nat;
    let timestamps := sort timestamps in
    let '(cut_begin, cut_end) :=
      cut_range length (DIFFICULTY_WINDOW_V1 - 2 * DIFFICULTY_CUT_V1) in
    _ ← asserted ((cut_begin + 2 <=? cut_end)%nat && (cut_end <=? length)%nat);
    t1 ← timestamps !! (cut_end - 1)%nat;
    t0 ← timestamps !! cut_begin;
    let time_span := u64 (t1 - t0) in
    let time_span := if time_span =? 0 then 1 else time_span in
    d1 ← cumulative_difficulties !! (cut_end - 1)%nat;
    d0 ← cumulative_difficulties !! cut_begin;
    let total_work := u64 (d1 - d0) in
    _ ← asserted (0 <? total_work);
    let '(low, high) := mul total_work target_seconds in
    if negb (high =? 0) || (u64 (low + time_span - 1) <? low) then Some 0
    else Some (u64 (low + time_span - 1) / time_span).

(** [epee::misc_utils::median] on [uint64_t]. *)
Definition median (v : list Z) : option Z :=
  match v with
  | [] => Some 0
  | [x] => Some x
  | _ =>
      let n := (length v / 2)%nat in
      let v := sort v in
      if negb (length v mod 2 =? 0)%nat then v !! n
      else
        a ← v !! (n - 1)%nat;
        b ← v !! n;
        Some (u64 (a + b) / 2)
  end.

(** The differences of neighbouring timestamps from index [i] on, [n] of them,
    at least one second each. *)
Fixpoint time_spans (timestamps : list Z) (i n : nat) : option (list Z) :=
  match n with
  | O => Some []
  | S n =>
      b ← timestamps !! (i + 1)%nat;
      a ← timestamps !! i;
      let time_span := u64 (b - a) in
      let time_span := if time_span =? 0 then 1 else time_span in
      rest ← time_spans timestamps (S i) n;
      Some (time_span :: rest)
  end.

(** 0.8 of the total plus 0.3 of the extrapolated median, within 10 seconds and
    24 minutes for each of the [timespan_length] blocks. *)
Definition adjust_timespan (total_timespan timespan_median timespan_length : Z) : Z :=
  let MAX_AVERAGE_TIMESPAN := DIFFICULTY_TARGET * 6 in
  let MIN_AVERAGE_TIMESPAN := DIFFICULTY_TARGET / 24 in
  let total_timespan_median :=
    if 0 <? timespan_median then u64 (timespan_median * timespan_length)
    else u64 (total_timespan * 7) / 10 in
  let adjusted_total_timespan :=
    u64 (u64 (total_timespan * 8) + u64 (total_timespan_median * 3)) / 10 in
  let adjusted_total_timespan :=
    if u64 (MAX_AVERAGE_TIMESPAN * timespan_length) <? adjusted_total_timespan
    then u64 (MAX_AVERAGE_TIMESPAN * timespan_length) else adjusted_total_timespan in
  if adjusted_total_timespan <? u64 (MIN_AVERAGE_TIMESPAN * timespan_length)
  then u64 (MIN_AVERAGE_TIMESPAN * timespan_length) else adjusted_total_timespan.

(** [None] when an assert fails. *)
Definition next_difficulty_v2 (timestamps cumulative_difficulties : list Z)
    (target_seconds : Z) : option Z :=
  let big := (DIFFICULTY_BLOCKS_COUNT_V2 <? length timestamps)%nat in
  let timestamps := if big then resize DIFFICULTY_BLOCKS_COUNT_V2 timestamps else timestamps in
  let cumulative_difficulties :=
    if big then resize DIFFICULTY_BLOCKS_COUNT_V2 cumulative_difficulties
    else cumulative_difficulties in
  let length := length timestamps in
  _ ← asserted (length =? Datatypes.length cumulative_difficulties)%nat;
  if (length <=? 1)%nat then Some 1
  else
    let timestamps := sort timestamps in
    let '(cut_begin, cut_end) :=
      cut_range length (DIFFICULTY_BLOCKS_COUNT_V2 - 2 * DIFFICULTY_CUT_V2) in
    _ ← asserted ((cut_begin + 2 <=? cut_end)%nat && (cut_end <=? length)%nat);
    t1 ← timestamps !! (cut_end - 1)%nat;
    t0 ← timestamps !! cut_begin;
    let total_timespan := u64 (t1 - t0) in
    let total_timespan := if total_timespan =? 0 then 1 else total_timespan in
    timespan_median ←
      (if (0 <? cut_begin)%nat && (cut_begin * 2 + 3 <=? length)%nat then
         let first := (length - cut_begin * 2 - 3)%nat in
         spans ← time_spans timestamps first (length - 1 - first);
         median spans
       else Some 0);
    let adjusted_total_timespan :=
      adjust_timespan total_timespan timespan_median (Z.of_nat (length - cut_begin * 2 - 1)) in
    d1 ← cumulative_difficulties !! (cut_end - 1)%nat;
    d0 ← cumulative_difficulties !! cut_begin;
    let total_work := u64 (d1 - d0) in
    _ ← asserted (0 <? total_work);
    let '(low, high) := mul total_work target_seconds in
    if negb (high =? 0) then Some 0
    else
      let next_diff := u64 (low + adjusted_total_timespan - 1) / adjusted_total_timespan in
      Some (if next_diff <? 1 then 1 else next_diff).

Definition clamp (lo v hi : Z) : Z := if v <? lo then lo else if hi <? v then hi else v.

(** Subtraction of [int64_t] values; a signed overflow is undefined. *)
Definition isub (a b : Z) : option Z :=
  if bool_decide (- 2 ^ 63 <= a - b < 2 ^ 63) then Some (a - b) else None.

(** The weighted sum of clamped solve times of [next_difficulty_v3], from
    index [i] on, [n] terms; signed 64-bit arithmetic. *)
Fixpoint lwma_sum (timestamps : list Z) (i n : nat) (L : Z) : option Z :=
  match n with
  | O => Some L
  | S n =>
      b ← timestamps !! i;
      a ← timestamps !! (i - 1)%nat;
      let T := DIFFICULTY_TARGET in
      let FTL := BLOCK_FUTURE_TIME_LIMIT_V3 in
      d ← isub (i64 b) (i64 a);
      let span := clamp (- FTL) d (6 * T) in
      lwma_sum timestamps (S i) n (i64 (L + i64 (span * Z.of_nat i)))
  end.

(** The bounds of [L] in [next_difficulty_v3]; the divisors are
    [int64_t(100.0 * 2.0 * 2.5)] and [int64_t(100.0 * 2.0 * 0.2)]. *)
Definition clamp_increase : Z := DIFFICULTY_TARGET * 60 * 61 * 99 / 500.
Definition clamp_decrease : Z := DIFFICULTY_TARGET * 60 * 61 * 99 / 40.

(** [None] when an assert fails or a subtraction overflows. *)
Definition next_difficulty_v3 (timestamps cumulative_difficulties : list Z) : option Z :=
  let T := DIFFICULTY_TARGET in
  let N := DIFFICULTY_WINDOW_V3 in
  _ ← asserted (length timestamps =? N + 1)%nat;
  _ ← asserted (length cumulative_difficulties =? N + 1)%nat;
  L ← lwma_sum timestamps 1 N 0;
  let L := clamp clamp_increase L clamp_decrease in
  dN ← cumulative_difficulties !! N;
  d0 ← cumulative_difficulties !! 0%nat;
  let next_D := u64 (u64 (u64 (dN - d0) * T) * (Z.of_nat N + 1)) / u64 (2 * L) in
  Some (u64 (next_D * 99) / 100).

(** The nearest non-zero timestamp with an index in [[1, i)], or the first. *)
Fixpoint findLastValid (timestamps : list Z) (i : nat) : Z :=
  match i with
  | S (S _ as j) =>
      let t := nth j timestamps 0 in
      if negb (t =? 0) then t else findLastValid timestamps j
  | _ => nth 0 timestamps 0
  end.

(** The first loop of [interpolate_timestamps], at index [i]. *)
Definition mask_step (maxValid : Z) (timestamps : list Z) (i : nat) : list Z :=
  let t := nth i timestamps 0 in
  if (t <=? findLastValid timestamps i) || (maxValid <=? t) then
    let timestamps := if (i =? 1)%nat then timestamps else <[(i - 1)%nat := 0]> timestamps in
    <[i := 0]> timestamps
  else timestamps.

(** The second loop: masked entries are numbered within their run. *)
Definition count_step (st : list Z * Z) (i : nat) : list Z * Z :=
  let '(timestamps, mctr) := st in
  if nth i timestamps 0 =? 0 then (<[i := mctr + 1]> timestamps, mctr + 1)
  else (timestamps, 0).

(** The third loop, at index [i]; [timestamps[i - num]] may be out of range. *)
Definition interpolate_step (N : nat) (timestamps : list Z) (i : nat) : option (list Z) :=
  let t := nth i timestamps 0 in
  if t <=? Z.of_nat N then
    let den := t + 1 in
    let num := t in
    base ← aget timestamps (u64 (Z.of_nat i - num));
    let delta := u64 (nth (i + 1) timestamps 0 - base) in
    Some (<[i := u64 (base + u64 (delta * num) / den)]> timestamps)
  else Some timestamps.

(** The loop [for(i = n; i > 0; i--)]. *)
Fixpoint interpolate_loop (N n : nat) (timestamps : list Z) : option (list Z) :=
  match n with
  | O => Some timestamps
  | S n' => timestamps ← interpolate_step N timestamps n; interpolate_loop N n' timestamps
  end.

Definition mask_pass (N : nat) (timestamps : list Z) : list Z :=
  foldl (mask_step (nth N timestamps 0)) timestamps (seq 1 (N - 1)).

Definition count_pass (N : nat) (timestamps : list Z) : list Z :=
  (foldl count_step (timestamps, 0) (seq 1 (N - 1))).1.

(** [None] when the vector does not have [N + 1] entries. *)
Definition interpolate_timestamps (N : nat) (timestamps : list Z) : option (list Z) :=
  if (length timestamps =? N + 1)%nat then
    interpolate_loop N (N - 1) (count_pass N (mask_pass N timestamps))
  else None.

(** The sum of squared-weight solve times of [next_difficulty_v4]; [None] when
    an assert of the loop fails. *)
Fixpoint wma_sum (timestamps : list Z) (i n : nat) (L : Z) : option Z :=
  match n with
  | O => Some L
  | S n =>
      _ ← asserted (nth (i - 1) timestamps 0 <=? nth i timestamps 0);
      _ ← asserted (negb (nth i timestamps 0 =? 0));
      let T := DIFFICULTY_TARGET in
      let span := Z.min (u64 (nth i timestamps 0 - nth (i - 1) timestamps 0)) (5 * T) in
      wma_sum timestamps (S i) n (u64 (L + u64 (span * Z.of_nat i * Z.of_nat i)))
  end.

(** The timestamp of the newest block after the limits of [next_difficulty_v4]. *)
Definition limit_newest (N : nat) (timestamps : list Z) : list Z :=
  let T := DIFFICULTY_TARGET in
  let at_ i := nth i timestamps 0 in
  let t_last := Z.max (at_ N) (at_ (N - 1)%nat) in
  let t := Z.min t_last (u64 (at_ (N - 1)%nat + 5 * T)) in
  let t := Z.max t (u64 (at_ 0%nat + 1)) in
  <[N := t]> timestamps.

(** [None] when an assert fails. *)
Definition next_difficulty_v4 (timestamps cumulative_difficulties : list Z) : option Z :=
  let T := DIFFICULTY_TARGET in
  let N := DIFFICULTY_WINDOW_V4 in
  _ ← asserted (length timestamps =? N + 1)%nat;
  _ ← asserted (length cumulative_difficulties =? N + 1)%nat;
  let timestamps := limit_newest N timestamps in
  timestamps ← interpolate_timestamps N timestamps;
  L ← wma_sum timestamps 1 N 0;
  let L := Z.max L 1 in
  let TSUM := T * (Z.of_nat N + 1) * (2 * Z.of_nat N + 1) / 6 in
  dN ← cumulative_difficulties !! N;
  d0 ← cumulative_difficulties !! 0%nat;
  dP ← cumulative_difficulties !! (N - 1)%nat;
  let next_D := u64 (u64 (dN - d0) * TSUM) / L in
  let prev_D := u64 (dN - dP) in
  Some (Z.max (u64 (prev_D * 67) / 100) (Z.min next_D (u64 (prev_D * 150) / 100))).


(** ** The proof-of-work test *)

Lemma cadd_spec a b : fits 64 a -> fits 64 b -> cadd a b = (2 ^ 64 <=? a + b).
Proof. apply wrap_add_ltb. lia. Qed.

Lemma cadc_spec a b c :
  fits 64 a -> fits 64 b -> cadc a b c = (2 ^ 64 <=? a + b + Z.b2z c).
Proof.
  intros Ha Hb. unfold cadc. rewrite wrap_add_ltb by (lia || done).
  pose proof (wrap_add_carry 64 a b ltac:(lia) Ha Hb) as E.
  pose proof (wrap_range 64 (a + b) ltac:(lia)) as R.
  rewrite (wrap_add_ltb 64 a b) in E by (lia || done). unfold fits in *.
  destruct c; cbn [andb orb Z.b2z]; rewrite ?orb_false_r, ?Z.add_0_r; [|done].
  destruct (Z.leb_spec (2 ^ 64) (a + b)), (Z.eqb_spec (u64 (a + b)) (2 ^ 64 - 1)),
    (Z.leb_spec (2 ^ 64) (a + b + 1)); cbn [orb]; lia.
Qed.

Lemma hash_words hash :
  length hash = 32%nat ->
  le_val 256 hash
  = hash_word hash 0 + 2 ^ 64 * hash_word hash 1 + 2 ^ 128 * hash_word hash 2
    + 2 ^ 192 * hash_word hash 3.
Proof.
  intros Hl. do 32 (destruct hash as [|? hash]; [done|]). destruct hash; [|done].
  cbn [hash_word Keccak.load64 Nat.mul Nat.add drop firstn le_val]. unfold hash_word, Keccak.load64.
  cbn [Nat.mul Nat.add skipn firstn le_val]. lia.
Qed.

Lemma hash_word_fits hash i : is_bytes hash -> fits 64 (hash_word hash i).
Proof.
  intros H. unfold hash_word, Keccak.load64, fits.
  set (l := take 8 (drop (8 * i) hash)).
  assert (Forall (fun d => 0 <= d < 256) l) as Hl by (apply Forall_take, Forall_drop, H).
  pose proof (le_val_bound 256 ltac:(lia) l Hl) as B.
  assert (256 ^ Z.of_nat (length l) <= 256 ^ 8); [|lia].
  apply Z.pow_le_mono_r; [lia|]. subst l. rewrite length_take. lia.
Qed.

Lemma check_hash_words hash d :
  is_bytes hash -> fits 64 d ->
  check_hash hash d
  = (hash_word hash 0 * d + 2 ^ 64 * (hash_word hash 1 * d)
     + 2 ^ 128 * (hash_word hash 2 * d) + 2 ^ 192 * (hash_word hash 3 * d) <? 2 ^ 256).
Proof.
  intros Hh Hd. unfold check_hash, mul.
  pose proof (fun i => mul128_correct _ d (hash_word_fits hash i Hh) Hd) as E.
  pose proof (E 0%nat) as E0; pose proof (E 1%nat) as E1;
    pose proof (E 2%nat) as E2; pose proof (E 3%nat) as E3. clear E.
  rewrite <- E0, <- E1, <- E2, <- E3. clear E0 E1 E2 E3.
  pose proof (mul128_fits (hash_word hash 0) d) as [L0 H0].
  pose proof (mul128_fits (hash_word hash 1) d) as [L1 H1].
  pose proof (mul128_fits (hash_word hash 2) d) as [L2 H2].
  pose proof (mul128_fits (hash_word hash 3) d) as [L3 H3].
  destruct (mul128 (hash_word hash 0) d) as [l0 h0], (mul128 (hash_word hash 1) d) as [l1 h1],
    (mul128 (hash_word hash 2) d) as [l2 h2], (mul128 (hash_word hash 3) d) as [l3 h3].
  cbn [fst snd] in *. rewrite cadd_spec, !cadc_spec by done. unfold fits in *.
  destruct (Z.eqb_spec h3 0); cbn [negb]; [|symmetry; apply Z.ltb_ge; lia].
  destruct (Z.leb_spec (2 ^ 64) (h0 + l1)) as [C1|C1]; cbn [Z.b2z];
  match goal with |- context [h1 + l2 + ?c] =>
    destruct (Z.leb_spec (2 ^ 64) (h1 + l2 + c)) as [C2|C2] end; cbn [Z.b2z];
  match goal with |- context [h2 + l3 + ?c] =>
    destruct (Z.leb_spec (2 ^ 64) (h2 + l3 + c)) as [C3|C3] end; cbn [negb];
  symmetry; (apply Z.ltb_ge || apply Z.ltb_lt); lia.
Qed.


(** ** Timestamp interpolation *)

Lemma nth_insert (l : list Z) i j v :
  (i < length l)%nat -> nth j (<[i := v]> l) 0 = if decide (j = i) then v else nth j l 0.
Proof.
  intros Hi. rewrite !nth_lookup. case_decide as E.
  - subst. by rewrite list_lookup_insert_eq by done.
  - by rewrite list_lookup_insert_ne by done.
Qed.

(** The number of consecutive masked entries that end at index [j]. *)
Fixpoint run (l : list Z) (j : nat) : nat :=
  match j with
  | O => 0%nat
  | S i => if nth j l 0 =? 0 then S (run l i) else 0%nat
  end.

Lemma run_le l j : (run l j <= j)%nat.
Proof. induction j; cbn [run]; [lia|]. destruct (_ =? 0); lia. Qed.

Lemma run_base l j : (j - run l j = 0)%nat \/ nth (j - run l j) l 0 <> 0.
Proof.
  induction j as [|j IH]; cbn [run]; [by left|].
  destruct (Z.eqb_spec (nth (S j) l 0) 0); [done|right]. by rewrite Nat.sub_0_r.
Qed.

Lemma run_zero l j i : (j - run l j < i <= j)%nat -> nth i l 0 = 0.
Proof.
  induction j as [|j IH]; cbn [run]; [lia|].
  destruct (Z.eqb_spec (nth (S j) l 0) 0); [|lia].
  intros H. destruct (decide (i = S j)) as [->|]; [done|apply IH; lia].
Qed.

(** The series after the counting pass has handled the indices below [k]. *)
Definition counted (k : nat) (l c : list Z) : Prop :=
  length c = length l /\
  forall j, nth j c 0 = if ((1 <=? j) && (j <? k))%nat && (nth j l 0 =? 0)
                        then Z.of_nat (run l j) else nth j l 0.

Lemma count_step_counted k l c :
  counted k l c -> (1 <= k < length l)%nat ->
  exists c', count_step (c, Z.of_nat (run l (k - 1))) k = (c', Z.of_nat (run l k)) /\
             counted (S k) l c'.
Proof.
  intros [Hlen Hc] Hk. unfold count_step. rewrite (Hc k).
  replace ((1 <=? k) && (k <? k))%nat with false by (rewrite Nat.ltb_irrefl; by rewrite andb_false_r).
  cbn [andb]. destruct k as [|k]; [lia|]. cbn [run]. replace (S k - 1)%nat with k by lia.
  destruct (Z.eqb_spec (nth (S k) l 0) 0) as [E|E]; eexists; (split; [f_equal; lia|]).
  - split; [by rewrite length_insert|]. intros j. rewrite nth_insert by lia.
    case_decide as D; [subst j|rewrite Hc].
    + rewrite E. rewrite (proj2 (Nat.ltb_lt (S k) (S (S k)))) by lia.
      cbn [Nat.leb andb Z.eqb run]. rewrite E. cbn [Z.eqb]. lia.
    + replace (j <? S (S k))%nat with (j <? S k)%nat; [done|].
      apply eq_true_iff_eq. rewrite !Nat.ltb_lt. lia.
  - split; [done|]. intros j. rewrite Hc. destruct (decide (j = S k)) as [->|D].
    + rewrite (proj2 (Z.eqb_neq _ _) E), !andb_false_r. done.
    + replace (j <? S (S k))%nat with (j <? S k)%nat; [done|].
      apply eq_true_iff_eq. rewrite !Nat.ltb_lt. lia.
Qed.

Lemma count_pass_counted N l : length l = S N -> counted N l (count_pass N l).
Proof.
  intros Hl. destruct N as [|N].
  - split; [done|]. intros j. by rewrite andb_comm, (andb_comm (_ <=? _)%nat), andb_assoc, andb_false_r.
  - unfold count_pass.
    assert (forall n k c, (1 <= k)%nat -> (k + n = S N)%nat -> counted k l c ->
              counted (S N) l (foldl count_step (c, Z.of_nat (run l (k - 1))) (seq k n)).1) as G.
    { induction n as [|n IH]; intros k c Hk Hkn Hc; cbn [seq foldl fst].
      - by replace (S N) with k by lia.
      - destruct (count_step_counted k l c Hc) as (c' & -> & Hc'); [lia|].
        replace (run l k) with (run l (S k - 1)) by (f_equal; lia). apply IH; [lia..|done]. }
    replace 0 with (Z.of_nat (run l (1 - 1))) by done. apply G; [lia..|].
    split; [done|]. intros j. destruct j; [done|]. by rewrite (proj2 (Nat.ltb_ge _ _)) by lia.
Qed.

Lemma interpolate_between base top num :
  base <= top -> 0 <= num ->
  base <= base + (top - base) * num / (num + 1) <= top.
Proof.
  intros. assert (0 <= (top - base) * num / (num + 1)) by (apply Z.div_pos; nia).
  assert ((top - base) * num / (num + 1) <= top - base) by (apply Z.div_le_upper_bound; nia). lia.
Qed.

Section interpolation.
Context (N : nat) (t0 M : Z).
Context (HN : (1 <= N)%nat) (Ht0 : Z.of_nat N <= t0) (HM : t0 < M).
Context (Hfit : M * Z.of_nat N < 2 ^ 64).

(** A masked series: below index [k] every inner entry is zero or lies strictly
    between the end points, and the non-zero ones increase. *)
Definition masked (k : nat) (l : list Z) : Prop :=
  length l = S N /\ nth 0 l 0 = t0 /\ nth N l 0 = M /\
  (forall j, (1 <= j < k)%nat -> nth j l 0 = 0 \/ t0 < nth j l 0 < M) /\
  (forall i j, (1 <= i < j)%nat -> (j < k)%nat -> nth i l 0 <> 0 -> nth j l 0 <> 0 ->
     nth i l 0 < nth j l 0).

Lemma findLastValid_bound k l i :
  masked k l -> (1 <= i <= k)%nat ->
  t0 <= findLastValid l i /\
  (forall j, (1 <= j < i)%nat -> nth j l 0 <> 0 -> nth j l 0 <= findLastValid l i).
Proof using All.
  intros (_ & H0 & _ & Hr & Hi). induction i as [|[|i] IH]; intros Hk; [lia| |].
  - cbn. split; [lia|]. intros; lia.
  - cbn [findLastValid]. destruct (Z.eqb_spec (nth (S i) l 0) 0) as [E|E]; cbn [negb].
    + destruct IH as [IH1 IH2]; [lia|]. split; [done|]. intros j Hj Hn.
      destruct (decide (j = S i)) as [->|]; [done|]. apply IH2; [lia|done].
    + split; [destruct (Hr (S i)); lia|]. intros j Hj Hn.
      destruct (decide (j = S i)) as [->|]; [lia|]. apply Z.lt_le_incl, Hi; (lia || done).
Qed.

Lemma masked_zero k l l' (p : nat -> bool) :
  masked k l -> length l' = length l ->
  (forall j, nth j l' 0 = if p j then 0 else nth j l 0) ->
  p 0%nat = false -> p N = false -> p k = true -> masked (S k) l'.
Proof using All.
  intros (Hl & H0 & HMn & Hr & Hi) Hl' Hp P0 PN Pk.
  split_and!; rewrite ?Hp, ?P0, ?PN; [congruence|done..| |].
  - intros j Hj. rewrite Hp. destruct (p j) eqn:E; [by left|].
    apply Hr. assert (j <> k) by congruence. lia.
  - intros i j Hij Hj. rewrite !Hp. destruct (p i) eqn:Ei, (p j) eqn:Ej; try done.
    assert (j <> k) by congruence. apply Hi; lia.
Qed.

Lemma mask_step_masked k l :
  masked k l -> (1 <= k < N)%nat -> masked (S k) (mask_step M l k).
Proof using All.
  intros Hm Hk. pose proof (findLastValid_bound k l k Hm ltac:(lia)) as [F1 F2].
  pose proof Hm as (Hl & H0 & HMn & Hr & Hi). unfold mask_step.
  destruct (_ || _) eqn:C; cbn zeta.
  - apply (masked_zero k l _ (fun j => (j =? k) || ((j =? k - 1) && negb (k =? 1)))%nat); [done|..].
    + destruct (k =? 1)%nat; by rewrite !length_insert.
    + intros j. destruct (Nat.eqb_spec k 1); rewrite !nth_insert by (rewrite ?length_insert; lia);
        destruct (Nat.eqb_spec j k), (Nat.eqb_spec j (k - 1)); repeat case_decide; lia || done.
    + destruct (Nat.eqb_spec 0 k), (Nat.eqb_spec 0 (k - 1)), (Nat.eqb_spec k 1); lia || done.
    + destruct (Nat.eqb_spec N k), (Nat.eqb_spec N (k - 1)); lia || done.
    + by rewrite Nat.eqb_refl.
  - apply orb_false_iff in C as [C%Z.leb_gt D%Z.leb_gt]. split_and!; [done..| |].
    + intros j Hj. destruct (decide (j = k)) as [->|]; [right; lia|apply Hr; lia].
    + intros i j Hij Hj Hni Hnj. destruct (decide (j = k)) as [->|]; [|by apply Hi; lia].
      pose proof (F2 i ltac:(lia) Hni). lia.
Qed.

Lemma mask_pass_masked l :
  length l = S N -> nth 0 l 0 = t0 -> nth N l 0 = M -> masked N (mask_pass N l).
Proof using All.
  intros Hl H0 HMn. unfold mask_pass. rewrite HMn.
  assert (masked 1 l) as Hm by (split_and!; [done..|intros; lia|intros; lia]).
  clear H0 HMn Hl. revert l Hm.
  assert (forall n k l, (1 <= k)%nat -> (k + n = N)%nat -> masked k l ->
            masked N (foldl (mask_step M) l (seq k n))) as G.
  { induction n as [|n IH]; intros k l Hk Hkn Hm; cbn [seq foldl].
    - by replace N with k by lia.
    - apply IH; [lia..|]. apply mask_step_masked; [done|lia]. }
  intros l Hm. apply G; [lia..|done].
Qed.

(** The state of the interpolation pass before index [i] is handled: the
    entries above [i] are final. *)
Definition interpolated (l : list Z) (i : nat) (r : list Z) : Prop :=
  length r = S N /\ nth N r 0 = M /\
  (forall j, (j <= i)%nat -> nth j r 0 = nth j (count_pass N l) 0) /\
  (forall j, (i < j < N)%nat -> nth j r 0 <= nth (S j) r 0) /\
  (forall j, (j <= i)%nat -> j = 0%nat \/ nth j l 0 <> 0 -> nth j l 0 <= nth (S i) r 0) /\
  nth (S i) r 0 <= M /\
  (forall j, j = 0%nat \/ nth j l 0 <> 0 -> nth j r 0 = nth j l 0).

Lemma counted_at l j :
  masked N l -> (j <= N)%nat ->
  nth j (count_pass N l) 0
  = if (0 <? j)%nat && (nth j l 0 =? 0) then Z.of_nat (run l j) else nth j l 0.
Proof using All.
  intros (Hl & H0 & HMn & Hr & Hi) Hj. rewrite (proj2 (count_pass_counted N l Hl) j).
  destruct (Nat.ltb_spec 0 j), (Nat.leb_spec 1 j), (Nat.ltb_spec j N); cbn [andb]; try lia.
  all: replace j with N by lia; rewrite HMn; destruct (Z.eqb_spec M 0); lia.
Qed.

(** A kept entry lies between the end points and is larger than any counter. *)
Lemma kept_range l j :
  masked N l -> (j < N)%nat -> j = 0%nat \/ nth j l 0 <> 0 -> t0 <= nth j l 0 < M.
Proof using All.
  intros (Hl & H0 & HMn & Hr & Hi) Hj [->|Hn]; [lia|].
  destruct (decide (j = 0%nat)) as [->|]; [lia|]. destruct (Hr j); lia.
Qed.

Lemma kept_le l i j :
  masked N l -> (i <= j < N)%nat -> i = 0%nat \/ nth i l 0 <> 0 ->
  nth j l 0 <> 0 -> nth i l 0 <= nth j l 0.
Proof using All.
  intros Hm Hij Hi Hj. destruct (decide (i = j)) as [->|]; [lia|].
  destruct (decide (i = 0%nat)) as [->|].
  - pose proof (kept_range l j Hm ltac:(lia) ltac:(by right)).
    destruct Hm as (_ & H0 & _). lia.
  - destruct Hm as (_ & _ & _ & _ & Hm). apply Z.lt_le_incl, Hm; (lia || done || by destruct Hi).
Qed.

Lemma interpolated_start l :
  masked N l -> interpolated l (N - 1) (count_pass N l).
Proof using All.
  intros Hm. pose proof Hm as (Hl & H0 & HMn & Hr & Hi).
  assert (nth N (count_pass N l) 0 = M) as EN.
  { rewrite counted_at by (lia || done). rewrite HMn. by rewrite (proj2 (Z.eqb_neq M 0)), andb_false_r by lia. }
  split_and!; replace (S (N - 1)) with N by lia; rewrite ?EN.
  - by rewrite (proj1 (count_pass_counted N l Hl)).
  - done.
  - done.
  - intros; lia.
  - intros j Hj Hk. pose proof (kept_range l j Hm ltac:(lia) Hk). lia.
  - lia.
  - intros j Hk. destruct (decide (j <= N)%nat).
    + rewrite counted_at by done. destruct (Nat.ltb_spec 0 j), (Z.eqb_spec (nth j l 0) 0); cbn [andb]; lia || done.
    + rewrite !nth_overflow; rewrite ?(proj1 (count_pass_counted N l Hl)); lia || done.
Qed.

Lemma interpolate_step_kept l i r :
  masked N l -> interpolated l i r -> (1 <= i < N)%nat -> nth i l 0 <> 0 ->
  interpolate_step N r i = Some r /\ interpolated l (i - 1) r.
Proof using All.
  intros Hm (Rl & RN & Rc & Rs & Rb & RM & Rk) Hi Hn.
  pose proof Hm as (Hl & H0 & HMn & Hr & Hinc). unfold interpolate_step.
  rewrite (Rk i) by (by right).
  assert (t0 < nth i l 0 < M) as Hx by (destruct (Hr i); lia).
  rewrite (proj2 (Z.leb_gt _ _)) by lia. split; [done|].
  assert (S (i - 1) = i) as ES by lia.
  split_and!; rewrite ?ES; try done.
  - intros j Hj. apply Rc. lia.
  - intros j Hj. destruct (decide (j = i)) as [->|]; [|apply Rs; lia].
    rewrite (Rk i) by (by right). apply Rb; [lia|by right].
  - intros j Hj Hk. rewrite (Rk i) by (by right). apply kept_le; (lia || done).
  - rewrite (Rk i) by (by right). lia.
Qed.

Lemma interpolate_step_masked l i r :
  masked N l -> interpolated l i r -> (1 <= i < N)%nat -> nth i l 0 = 0 ->
  exists v, interpolate_step N r i = Some (<[i := v]> r) /\
    nth (i - run l i) l 0 <= v <= nth (S i) r 0.
Proof using All.
  intros Hm (Rl & RN & Rc & Rs & Rb & RM & Rk) Hi Hn.
  pose proof Hm as (Hl & H0 & HMn & Hr & Hinc). unfold interpolate_step.
  assert (1 <= run l i <= i)%nat as Hrun.
  { pose proof (run_le l i). destruct i; [lia|]. cbn [run] in *. rewrite Hn in *. cbn in *. lia. }
  assert (nth i r 0 = Z.of_nat (run l i)) as ->.
  { rewrite Rc, counted_at by (lia || done). rewrite Hn. by rewrite (proj2 (Nat.ltb_lt 0 i)) by lia. }
  rewrite (proj2 (Z.leb_le _ _)) by lia.
  assert ((i - run l i = 0)%nat \/ nth (i - run l i) l 0 <> 0) as Hb by apply run_base.
  rewrite wrap_small by (unfold fits; nia).
  replace (Z.of_nat i - Z.of_nat (run l i)) with (Z.of_nat (i - run l i)) by lia.
  rewrite aget_nat, (lookup_nth r _ 0), (Rk _ Hb) by lia. cbn.
  pose proof (Rb (i - run l i)%nat ltac:(lia) Hb) as Hle.
  pose proof (kept_range l (i - run l i) Hm ltac:(lia) Hb) as Hkr.
  replace (i + 1)%nat with (S i) by lia.
  set (base := nth (i - run l i) l 0) in *. set (top := nth (S i) r 0) in *.
  set (num := Z.of_nat (run l i)) in *.
  assert (1 <= num <= Z.of_nat N) as Hnum by lia. clearbody base top num.
  rewrite (wrap_small 64 (top - base)) by (unfold fits; nia).
  rewrite (wrap_small 64 ((top - base) * num)) by (unfold fits; nia).
  pose proof (interpolate_between base top num Hle ltac:(lia)) as Hv.
  rewrite wrap_small by (unfold fits; nia). by eexists.
Qed.

Lemma interpolated_set l i r v :
  masked N l -> interpolated l i r -> (1 <= i < N)%nat -> nth i l 0 = 0 ->
  nth (i - run l i) l 0 <= v <= nth (S i) r 0 ->
  interpolated l (i - 1) (<[i := v]> r).
Proof using All.
  intros Hm (Rl & RN & Rc & Rs & Rb & RM & Rk) Hi Hn Hv.
  assert (forall j, nth j (<[i:=v]> r) 0 = if decide (j = i) then v else nth j r 0) as E
    by (intros; apply nth_insert; lia).
  assert (S (i - 1) = i) as ES by lia.
  split_and!; rewrite ?ES.
  - by rewrite length_insert.
  - rewrite E, decide_False by lia. done.
  - intros j Hj. rewrite E, decide_False by lia. apply Rc. lia.
  - intros j Hj. rewrite !E. rewrite (decide_False (P := S j = i)) by lia.
    case_decide; [subst; lia|apply Rs; lia].
  - intros j Hj Hk. rewrite E, decide_True by done.
    destruct (decide (j <= i - run l i)%nat).
    + etrans; [|apply Hv]. destruct (run_base l i) as [B|B]; [|apply kept_le; (lia || done)].
      replace j with 0%nat by lia. by rewrite B.
    + assert (nth j l 0 = 0) as Ez by (apply (run_zero l i); lia).
      destruct Hk as [->|]; [lia|done].
  - rewrite E, decide_True by done. lia.
  - intros j Hk. rewrite E. case_decide as D; [subst; lia|by apply Rk].
Qed.

Lemma interpolate_loop_spec l i r :
  masked N l -> (i < N)%nat -> interpolated l i r ->
  exists r', interpolate_loop N i r = Some r' /\ interpolated l 0 r'.
Proof using All.
  intros Hm. revert r. induction i as [|i IH]; intros r Hi Hr; [by eexists|].
  cbn [interpolate_loop]. destruct (decide (nth (S i) l 0 = 0)) as [E|E].
  - destruct (interpolate_step_masked l (S i) r) as (v & -> & Hv); [done|done|lia|done|].
    apply interpolated_set in Hv; [|done..|lia|done]. replace (S i - 1)%nat with i in Hv by lia.
    apply IH; [lia|done].
  - destruct (interpolate_step_kept l (S i) r) as [-> Hr']; [done|done|lia|done|].
    replace (S i - 1)%nat with i in Hr' by lia. apply IH; [lia|done].
Qed.

Lemma interpolate_result ts :
  length ts = S N -> nth 0 ts 0 = t0 -> nth N ts 0 = M ->
  exists r, interpolate_timestamps N ts = Some r /\
    length r = S N /\ nth 0 r 0 = t0 /\ nth N r 0 = M /\
    (forall i, (i < N)%nat -> nth i r 0 <= nth (S i) r 0) /\
    (forall j, nth j (mask_pass N ts) 0 <> 0 -> nth j r 0 = nth j (mask_pass N ts) 0).
Proof using All.
  intros Hl H0 HMn. pose proof (mask_pass_masked ts Hl H0 HMn) as Hm.
  unfold interpolate_timestamps. rewrite Hl. rewrite (proj2 (Nat.eqb_eq (S N) (N + 1))) by lia.
  destruct (interpolate_loop_spec _ (N - 1) _ Hm ltac:(lia) (interpolated_start _ Hm))
    as (r & -> & Rl & RN & Rc & Rs & Rb & RM & Rk).
  pose proof Hm as (Hml & Hm0 & _).
  assert (nth 0 r 0 = t0) as R0 by (rewrite Rk by (by left); done).
  exists r. split_and!; [done..| |].
  - intros i Hi. destruct (decide (i = 0%nat)) as [->|]; [|apply Rs; lia].
    rewrite R0, <- Hm0. apply Rb; [lia|by left].
  - intros j Hj. apply Rk. by right.
Qed.
End interpolation.


Lemma nth_mask_step M l i j :
  nth j (mask_step M l i) 0 = 0 \/ nth j (mask_step M l i) 0 = nth j l 0.
Proof.
  assert (forall (l : list Z) i, nth j (<[i := 0]> l) 0 = 0 \/ nth j (<[i := 0]> l) 0 = nth j l 0) as G.
  { intros l' i'. destruct (decide (i' < length l')%nat).
    - rewrite nth_insert by done. case_decide; auto.
    - rewrite list_insert_ge by lia. auto. }
  unfold mask_step. destruct (_ || _); [|by right]. cbn zeta.
  destruct (i =? 1)%nat; [apply G|].
  destruct (G (<[(i - 1)%nat:=0]> l) i) as [->| ->]; [by left|apply G].
Qed.

(** A timestamp is either masked or kept as it is. *)
Lemma nth_mask_pass N l j :
  nth j (mask_pass N l) 0 = 0 \/ nth j (mask_pass N l) 0 = nth j l 0.
Proof.
  unfold mask_pass. generalize (nth N l 0) as M, (seq 1 (N - 1)) as is_.
  intros M is_. revert l. induction is_ as [|i is_ IH]; intros l; cbn [foldl]; [by right|].
  destruct (IH (mask_step M l i)) as [->| ->]; [by left|apply nth_mask_step].
Qed.

(** A strictly increasing series is masked nowhere. *)
Definition increasing (l : list Z) : Prop :=
  forall i, (S i < length l)%nat -> nth i l 0 < nth (S i) l 0.

Lemma increasing_lt l i j :
  increasing l -> (i < j < length l)%nat -> nth i l 0 < nth j l 0.
Proof.
  intros H. revert i. induction j as [|j IH]; intros i Hij; [lia|].
  pose proof (H j ltac:(lia)). destruct (decide (i = j)) as [->|]; [done|].
  pose proof (IH i ltac:(lia)). lia.
Qed.

Lemma increasing_mask_step l N i :
  increasing l -> 0 <= nth 0 l 0 -> length l = S N -> (1 <= i < N)%nat ->
  mask_step (nth N l 0) l i = l.
Proof.
  intros Hinc H0 Hl Hi. unfold mask_step.
  assert (findLastValid l i = nth (i - 1) l 0) as ->.
  { destruct i as [|[|i]]; [lia|done|]. cbn [findLastValid].
    pose proof (increasing_lt l 0 (S i) Hinc ltac:(lia)).
    by rewrite (proj2 (Z.eqb_neq _ _)) by lia. }
  pose proof (increasing_lt l (i - 1) i Hinc ltac:(lia)).
  pose proof (increasing_lt l i N Hinc ltac:(lia)).
  by rewrite !(proj2 (Z.leb_gt _ _)) by lia.
Qed.

Lemma increasing_mask_pass l N :
  increasing l -> 0 <= nth 0 l 0 -> length l = S N -> mask_pass N l = l.
Proof.
  intros Hinc H0 Hl. unfold mask_pass.
  assert (Forall (fun i => (1 <= i < N)%nat) (seq 1 (N - 1))) as HF.
  { apply Forall_forall. intros i Hi%elem_of_seq. lia. }
  induction HF as [|i is_ Hi _ IH]; cbn [foldl]; [done|].
  by rewrite increasing_mask_step.
Qed.

(** Genuine series are left alone. *)
Lemma interpolate_increasing N ts :
  (1 <= N)%nat -> length ts = S N -> Z.of_nat N <= nth 0 ts 0 ->
  nth N ts 0 * Z.of_nat N < 2 ^ 64 -> increasing ts ->
  interpolate_timestamps N ts = Some ts.
Proof.
  intros HN Hl H0 Hfit Hinc.
  destruct (interpolate_result N (nth 0 ts 0) (nth N ts 0) HN H0
    (increasing_lt ts 0 N Hinc ltac:(lia)) Hfit ts Hl eq_refl eq_refl)
    as (r & -> & Rl & _ & _ & _ & Rk).
  f_equal. apply (nth_ext _ _ 0 0); [lia|]. intros j Hj.
  rewrite increasing_mask_pass in Rk by (lia || done). apply Rk.
  destruct j as [|j]; [lia|]. pose proof (increasing_lt ts 0 (S j) Hinc ltac:(lia)). lia.
Qed.


(** ** [next_difficulty_v4] *)

(** [Σ f j * j²] over the [n] indices from [i] on. *)
Fixpoint weighted (f : nat -> Z) (i n : nat) : Z :=
  match n with
  | O => 0
  | S n => f i * Z.of_nat i * Z.of_nat i + weighted f (S i) n
  end.

Lemma weighted_bound f b i n :
  (forall j, (i <= j < i + n)%nat -> 0 <= f j <= b) ->
  0 <= weighted f i n <= weighted (fun _ => b) i n.
Proof.
  revert i. induction n as [|n IH]; intros i Hf; cbn [weighted]; [lia|].
  pose proof (Hf i ltac:(lia)). destruct (IH (S i)); [intros; apply Hf; lia|].
  assert (0 <= f i * Z.of_nat i <= b * Z.of_nat i) by nia. nia.
Qed.

Lemma weighted_ext f g i n :
  (forall j, (i <= j < i + n)%nat -> f j = g j) -> weighted f i n = weighted g i n.
Proof.
  revert i. induction n as [|n IH]; intros i Hf; cbn [weighted]; [done|].
  rewrite (Hf i), (IH (S i)); [done| |lia]. intros; apply Hf; lia.
Qed.

(** The solve time that enters the sum for block [i]. *)
Definition solve_time (ts : list Z) (i : nat) : Z :=
  Z.min (nth i ts 0 - nth (i - 1) ts 0) (5 * DIFFICULTY_TARGET).

Lemma wma_sum_weighted ts i n L :
  (forall j, (i <= j < i + n)%nat -> fits 64 (nth j ts 0 - nth (j - 1) ts 0) /\ 0 < nth j ts 0) ->
  0 <= L -> L + weighted (fun _ => 5 * DIFFICULTY_TARGET) i n < 2 ^ 64 ->
  wma_sum ts i n L = Some (L + weighted (solve_time ts) i n).
Proof.
  revert i L. induction n as [|n IH]; intros i L Hf HL Hb; cbn [weighted wma_sum] in *; [f_equal; lia|].
  pose proof (Hf i ltac:(lia)) as [Hi Hi0]. unfold fits in Hi.
  rewrite (asserted_true (_ <=? _)), (asserted_true (negb _)) by lia. cbn [mbind option_bind]. rewrite (wrap_small _ _ Hi).
  fold (solve_time ts i).
  assert (0 <= solve_time ts i <= 5 * DIFFICULTY_TARGET) as Hs
    by (unfold solve_time, DIFFICULTY_TARGET, fits in *; lia).
  assert (0 <= weighted (fun _ => 5 * DIFFICULTY_TARGET) (S i) n) as Hw
    by (apply (weighted_bound _ (5 * DIFFICULTY_TARGET)); unfold DIFFICULTY_TARGET; lia).
  assert (0 <= solve_time ts i * Z.of_nat i * Z.of_nat i
          <= 5 * DIFFICULTY_TARGET * Z.of_nat i * Z.of_nat i).
  { assert (0 <= solve_time ts i * Z.of_nat i <= 5 * DIFFICULTY_TARGET * Z.of_nat i) by nia. nia. }
  rewrite (wrap_small 64 (_ * _ * _)) by (unfold fits; lia).
  rewrite wrap_small by (unfold fits; lia).
  rewrite IH; [f_equal; lia|intros; apply Hf; lia|lia|lia].
Qed.

Lemma length_limit_newest N ts : length (limit_newest N ts) = length ts.
Proof. apply length_insert. Qed.

Lemma nth_limit_newest N ts j :
  length ts = S N -> j <> N -> nth j (limit_newest N ts) 0 = nth j ts 0.
Proof.
  intros Hl Hj. unfold limit_newest. cbn zeta. rewrite nth_insert by lia.
  by rewrite decide_False.
Qed.

(** The newest timestamp, when its neighbours are far from the 64-bit limit. *)
Lemma limit_newest_last N ts :
  (1 <= N)%nat -> length ts = S N -> 0 <= nth 0 ts 0 -> 0 <= nth (N - 1) ts 0 ->
  nth 0 ts 0 + 1 < 2 ^ 64 -> nth (N - 1) ts 0 + 5 * DIFFICULTY_TARGET < 2 ^ 64 ->
  nth N (limit_newest N ts) 0
  = Z.max (Z.min (Z.max (nth N ts 0) (nth (N - 1) ts 0))
             (nth (N - 1) ts 0 + 5 * DIFFICULTY_TARGET)) (nth 0 ts 0 + 1).
Proof.
  intros HN Hl H0 H1 H0' H1'. unfold limit_newest. cbn zeta. rewrite nth_insert by lia.
  rewrite decide_True by done. unfold DIFFICULTY_TARGET in *.
  by rewrite !wrap_small by (unfold fits; lia).
Qed.

(** Timestamps for which the arithmetic of the window does not overflow:
    later than the first minute of 1970 and before the year 10^10. *)
Definition plausible (t : Z) : bool := (45 <=? t) && (t <? 2 ^ 58).

(** The interpolated window of [next_difficulty_v4]. *)
Lemma v4_window ts :
  length ts = 46%nat -> Forall plausible ts ->
  exists r, interpolate_timestamps 45 (limit_newest 45 ts) = Some r /\
    length r = 46%nat /\ nth 0 r 0 = nth 0 ts 0 /\
    (forall i, (i < 45)%nat -> nth i r 0 <= nth (S i) r 0 < 2 ^ 64).
Proof.
  intros Hl Hp.
  assert (forall j, (j <= 45)%nat -> 45 <= nth j ts 0 < 2 ^ 58) as Hn.
  { intros j Hj. pose proof (Forall_lookup_1 _ _ _ _ Hp (lookup_nth ts j 0 ltac:(lia))) as P.
    apply Is_true_true in P. unfold plausible in P. lia. }
  pose proof (Hn 0%nat ltac:(lia)) as P0. pose proof (Hn 44%nat ltac:(lia)) as P44.
  pose proof (Hn 45%nat ltac:(lia)) as P45.
  pose proof (limit_newest_last 45 ts ltac:(lia) Hl ltac:(lia) ltac:(cbn [Nat.sub]; lia) ltac:(lia)
    ltac:(cbn [Nat.sub]; unfold DIFFICULTY_TARGET; lia)) as E. cbn [Nat.sub] in E.
  pose proof (nth_limit_newest 45 ts 0 Hl ltac:(lia)) as E0.
  set (M := nth 45 (limit_newest 45 ts) 0) in *.
  assert (nth 0 ts 0 < M <= 2 ^ 58 + 1200) as HM by (unfold DIFFICULTY_TARGET in E; lia).
  destruct (interpolate_result 45 (nth 0 ts 0) M ltac:(lia) ltac:(lia) ltac:(lia) ltac:(lia)
    (limit_newest 45 ts)) as (r & Hr & Rl & R0 & RN & Rs & _);
    [by rewrite length_limit_newest|done|done|].
  exists r. split_and!; [done..|]. intros i Hi. split; [by apply Rs|].
  assert (nth (S i) r 0 <= nth 45 r 0); [|lia].
  assert (forall n, (n + S i <= 45)%nat -> nth (S i) r 0 <= nth (n + S i) r 0) as G.
  { induction n as [|n IH]; intros Hn'; [cbn; lia|].
    pose proof (Rs (n + S i)%nat ltac:(lia)). cbn [Nat.add]. pose proof (IH ltac:(lia)). lia. }
  replace 45%nat with (44 - i + S i)%nat by lia. apply G. lia.
Qed.


Lemma wma_sum_window r :
  0 < nth 0 r 0 -> (forall i, (i < 45)%nat -> nth i r 0 <= nth (S i) r 0 < 2 ^ 64) ->
  wma_sum r 1 45 0 = Some (weighted (solve_time r) 1 45).
Proof.
  intros H0 Hr. rewrite wma_sum_weighted; [done| |lia|by_eval].
  intros j Hj. assert (forall n, (n <= 45)%nat -> 0 < nth n r 0) as Hpos.
  { induction n as [|n IH]; intros Hn; [done|]. pose proof (Hr n ltac:(lia)). pose proof (IH ltac:(lia)). lia. }
  pose proof (Hr (j - 1)%nat ltac:(lia)) as Hj'. replace (S (j - 1)) with j in Hj' by lia.
  pose proof (Hpos (j - 1)%nat ltac:(lia)). pose proof (Hpos j ltac:(lia)). unfold fits. lia.
Qed.

Lemma v4_formula ts cd r :
  length ts = 46%nat -> length cd = 46%nat ->
  interpolate_timestamps 45 (limit_newest 45 ts) = Some r ->
  0 < nth 0 r 0 -> (forall i, (i < 45)%nat -> nth i r 0 <= nth (S i) r 0 < 2 ^ 64) ->
  let W := nth 45 cd 0 - nth 0 cd 0 in
  let prev_D := nth 45 cd 0 - nth 44 cd 0 in
  0 <= W -> W * 167440 < 2 ^ 64 -> 0 <= prev_D -> prev_D * 150 < 2 ^ 64 ->
  next_difficulty_v4 ts cd
  = Some (Z.max (prev_D * 67 / 100)
            (Z.min (W * 167440 / Z.max (weighted (solve_time r) 1 45) 1) (prev_D * 150 / 100))).
Proof.
  intros Hts Hcd Hr H0 Hm W prev_D HW HW' Hp Hp'. unfold next_difficulty_v4.
  unfold DIFFICULTY_WINDOW_V4. rewrite Hts, Hcd. cbn [Nat.add Nat.eqb Nat.sub asserted mbind option_bind]. cbn zeta.
  rewrite Hr. cbn [mbind option_bind]. rewrite wma_sum_window by done. cbn [mbind option_bind].
  rewrite !(lookup_nth cd _ 0) by lia. cbn [mbind option_bind]. fold W prev_D.
  change (DIFFICULTY_TARGET * (Z.of_nat 45 + 1) * (2 * Z.of_nat 45 + 1) / 6) with 167440.
  rewrite (wrap_small 64 W), (wrap_small 64 (W * 167440)), (wrap_small 64 prev_D),
    (wrap_small 64 (prev_D * 67)), (wrap_small 64 (prev_D * 150)) by (unfold fits; lia).
  done.
Qed.

(** Blocks found exactly on target. *)
Definition steady_times (t : Z) (n : nat) : list Z :=
  (fun i => t + DIFFICULTY_TARGET * Z.of_nat i) <$> seq 0 n.
Definition steady_work (c D : Z) (n : nat) : list Z := (fun i => c + D * Z.of_nat i) <$> seq 0 n.

Lemma nth_seq_map (f : nat -> Z) n i : (i < n)%nat -> nth i (f <$> seq 0 n) 0 = f i.
Proof.
  intros Hi. rewrite (nth_indep _ 0 (f 0%nat)) by (by rewrite length_fmap, length_seq).
  setoid_rewrite map_nth. by rewrite seq_nth.
Qed.

Lemma steady_increasing t n : increasing (steady_times t n).
Proof.
  intros i. unfold steady_times. rewrite length_fmap, length_seq. intros Hi.
  rewrite !nth_seq_map by lia. unfold DIFFICULTY_TARGET. lia.
Qed.

Lemma steady_limit t :
  0 <= t -> t + 2 ^ 20 < 2 ^ 64 ->
  limit_newest 45 (steady_times t 46) = steady_times t 46.
Proof.
  intros H0 Ht. assert (length (steady_times t 46) = 46%nat) as Hl by done.
  apply (nth_ext _ _ 0 0); [by rewrite length_limit_newest|]. intros j _.
  destruct (decide (j = 45%nat)) as [->|]; [|by apply nth_limit_newest].
  rewrite limit_newest_last; unfold steady_times; rewrite ?nth_seq_map by lia;
    unfold DIFFICULTY_TARGET; try done; lia.
Qed.


(** ** [next_difficulty_v1] and [next_difficulty_v2] *)

Lemma resize_take n l : (n <= length l)%nat -> resize n l = take n l.
Proof. intros. unfold resize. rewrite (proj2 (Nat.sub_0_le _ _)) by done. apply app_nil_r. Qed.

(** The window is the first [n] entries. *)
Lemma window_take n (ts l : list Z) :
  length l = length ts ->
  (if (n <? length ts)%nat then resize n l else l) = take n l.
Proof.
  intros E. destruct (Nat.ltb_spec n (length ts)); [apply resize_take; lia|].
  by rewrite take_ge by lia.
Qed.

Lemma length_sort l : length (sort l) = length l.
Proof. apply Permutation_length, merge_sort_Permutation. Qed.

Lemma sort_lookup_le l i j : (i <= j < length l)%nat -> nth i (sort l) 0 <= nth j (sort l) 0.
Proof.
  intros Hij. assert (StronglySorted Z.le (sort l)) as HS
    by (apply StronglySorted_merge_sort; [intros ?; lia|apply _]).
  rewrite <- (length_sort l) in Hij. revert i j Hij.
  induction HS as [|x s HS IH Hx]; intros i j Hij; cbn [length] in *; [lia|].
  destruct i, j; cbn [nth]; [lia| |lia|apply IH; lia].
  rewrite List.Forall_forall in Hx. apply Hx, nth_In. lia.
Qed.

Lemma Forall_sort P l : Forall P l -> Forall P (sort l).
Proof. intros H. unfold sort. by rewrite merge_sort_Permutation. Qed.

Lemma nth_fits l i : Forall (fits 64) l -> fits 64 (nth i l 0).
Proof.
  intros H. destruct (decide (i < length l)%nat).
  - apply (Forall_lookup_1 _ _ _ _ H (lookup_nth l i 0 ltac:(lia))).
  - rewrite nth_overflow by lia. done.
Qed.

(** The cut leaves at least two entries, and as many on each side as the source asserts. *)
Lemma cut_range_spec n w :
  (2 <= n)%nat -> (2 <= w)%nat ->
  let '(b, e) := cut_range n w in (b + 2 <= e <= n)%nat /\ (e - b = n `min` w)%nat.
Proof.
  intros Hn Hw. unfold cut_range. destruct (Nat.leb_spec n w); [lia|].
  pose proof (Nat.div_mod_eq (n - w + 1) 2). pose proof (Nat.mod_upper_bound (n - w + 1) 2). lia.
Qed.

(** The time a window spans after sorting, at least one second. *)
Definition span (ts : list Z) (b e : nat) : Z :=
  Z.max 1 (nth (e - 1) (sort ts) 0 - nth b (sort ts) 0).

Lemma span_computed ts b e :
  Forall (fits 64) ts -> (b < e <= length ts)%nat ->
  let d := u64 (nth (e - 1) (sort ts) 0 - nth b (sort ts) 0) in
  (if d =? 0 then 1 else d) = span ts b e /\ 1 <= span ts b e < 2 ^ 64.
Proof.
  intros Hf Hbe. pose proof (sort_lookup_le ts b (e - 1) ltac:(lia)) as Hle.
  pose proof (nth_fits (sort ts) b (Forall_sort _ _ Hf)) as F1.
  pose proof (nth_fits (sort ts) (e - 1) (Forall_sort _ _ Hf)) as F2.
  unfold span, fits in *. cbn zeta. rewrite wrap_small by (unfold fits; lia).
  destruct (Z.eqb_spec (nth (e - 1) (sort ts) 0 - nth b (sort ts) 0) 0); lia.
Qed.

Definition ceil_div (a b : Z) : Z := (a + b - 1) / b.

Lemma cut_asserted b e n :
  (b + 2 <= e <= n)%nat -> asserted ((b + 2 <=? e)%nat && (e <=? n)%nat) = Some tt.
Proof. intros. apply asserted_true, andb_true_iff. by rewrite !Nat.leb_le. Qed.

Lemma v1_formula ts cd T :
  let ts' := take 720 ts in
  let '(b, e) := cut_range (length ts') 600 in
  let W := nth (e - 1) cd 0 - nth b cd 0 in
  length cd = length ts -> (2 <= length ts)%nat -> Forall (fits 64) ts ->
  0 < W < 2 ^ 64 -> fits 64 T ->
  next_difficulty_v1 ts cd T
  = Some (if W * T + span ts' b e - 1 <? 2 ^ 64 then ceil_div (W * T) (span ts' b e) else 0).
Proof.
  cbn zeta. pose proof (cut_range_spec (length (take 720 ts)) 600) as Hcut.
  destruct (cut_range (length (take 720 ts)) 600) as [b e] eqn:Ecut.
  intros Hcd Hts Hf HW HT.
  assert (2 <= length (take 720 ts) <= 720)%nat as Hlen by (rewrite length_take; lia).
  destruct Hcut as [Hbe _]; [lia..|]. unfold next_difficulty_v1, DIFFICULTY_WINDOW_V1.
  rewrite !window_take by done. cbn zeta.
  rewrite (asserted_true (_ =? _)%nat) by (apply Nat.eqb_eq; rewrite !length_take; lia). cbn [mbind option_bind].
  rewrite (proj2 (Nat.leb_gt _ _)) by lia. rewrite (asserted_true (_ <=? _)%nat) by (apply Nat.leb_le; lia).
  cbn [mbind option_bind]. change (720 - 2 * DIFFICULTY_CUT_V1)%nat with 600%nat. rewrite Ecut.
  rewrite (cut_asserted _ _ _ Hbe). cbn [mbind option_bind].
  rewrite !(lookup_nth (sort _) _ 0) by (rewrite length_sort; lia). cbn [mbind option_bind].
  rewrite !(lookup_nth (take 720 cd) _ 0) by (rewrite length_take in *; lia).
  cbn [mbind option_bind].
  destruct (span_computed (take 720 ts) b e) as [-> Hsp]; [by apply Forall_take|lia|].
  set (sp := span (take 720 ts) b e) in *. clearbody sp.
  assert (forall i, (i < e)%nat -> nth i (take 720 cd) 0 = nth i cd 0) as Hnt.
  { intros i Hi. rewrite !nth_lookup. by rewrite lookup_take_lt by lia. }
  rewrite !Hnt by lia. set (W := nth (e - 1) cd 0 - nth b cd 0) in *.
  rewrite (wrap_small 64 W) by (unfold fits; lia). rewrite asserted_true by lia. cbn [mbind option_bind].
  unfold mul. rewrite mul128_spec by (unfold fits in *; lia).
  unfold fits in HT. assert (0 <= W * T) as HWT by nia. clearbody W.
  generalize dependent (W * T). intros P HWT. f_equal. clear -HWT Hsp.
  destruct (Z.ltb_spec (P + sp - 1) (2 ^ 64)) as [C|C].
  - rewrite (Z.div_small P), (Z.mod_small P) by lia. cbn [negb Z.eqb orb].
    rewrite wrap_small by (unfold fits; lia). by rewrite (proj2 (Z.ltb_ge _ _)) by lia.
  - destruct (Z.eqb_spec (P / 2 ^ 64) 0) as [D|D]; cbn [negb orb]; [|done].
    apply Z.div_small_iff in D; [|done]. rewrite (Z.mod_small P) by lia.
    replace (P + sp - 1) with (P + (sp - 1)) by lia.
    rewrite wrap_add_ltb by (unfold fits; lia).
    by rewrite (proj2 (Z.leb_le _ _)) by lia.
Qed.


Lemma median_defined v : exists m, median v = Some m.
Proof.
  destruct v as [|x [|y v]]; [by eexists..|]. unfold median.
  set (l := x :: y :: v). assert (2 <= length l)%nat as Hl by (cbn; lia). clearbody l.
  pose proof (Nat.div_mod_eq (length l) 2). cbn zeta. rewrite length_sort.
  rewrite !(lookup_nth (sort l) _ 0) by (rewrite length_sort; lia).
  destruct (negb _); by eexists.
Qed.

Lemma time_spans_defined ts i n :
  (i + n < length ts)%nat -> exists l, time_spans ts i n = Some l.
Proof.
  revert i. induction n as [|n IH]; intros i Hi; cbn [time_spans]; [by eexists|].
  rewrite !(lookup_nth ts _ 0) by lia. cbn [mbind option_bind].
  destruct (IH (S i)) as [l ->]; [lia|]. by eexists.
Qed.

(** The median of the recent solve times, or zero when nothing was cut. *)
Lemma v2_median_defined ts b n :
  length ts = n ->
  exists m, (if (0 <? b)%nat && (b * 2 + 3 <=? n)%nat then
     let first := (n - b * 2 - 3)%nat in
     spans ← time_spans ts first (n - 1 - first); median spans
   else Some 0) = Some m.
Proof.
  intros <-. destruct (Nat.ltb_spec 0 b), (Nat.leb_spec (b * 2 + 3) (length ts)); cbn [andb]; try (by eexists).
  cbn zeta. destruct (time_spans_defined ts (length ts - b * 2 - 3) (length ts - 1 - (length ts - b * 2 - 3)))
    as [l ->]; [lia|]. apply median_defined.
Qed.

Lemma adjust_timespan_bounds total m k :
  0 <= k < 2 ^ 20 -> 10 * k <= adjust_timespan total m k <= 1440 * k.
Proof.
  intros Hk. unfold adjust_timespan, DIFFICULTY_TARGET.
  change (240 * 6) with 1440. change (240 / 24) with 10. cbn zeta.
  rewrite (wrap_small 64 (1440 * k)), (wrap_small 64 (10 * k)) by (unfold fits; lia).
  generalize (u64 (u64 (total * 8) + u64 ((if 0 <? m then u64 (m * k) else u64 (total * 7) / 10) * 3)) / 10).
  intros A. destruct (Z.ltb_spec (1440 * k) A) as [C|C].
  - destruct (Z.ltb_spec (1440 * k) (10 * k)); lia.
  - destruct (Z.ltb_spec A (10 * k)); lia.
Qed.

(** Number of solve times the total of [next_difficulty_v2] stands for. *)
Definition v2_spans (n b : nat) : Z := Z.of_nat (n - b * 2 - 1).

Lemma v2_formula ts cd T :
  let ts' := take 29 ts in
  let '(b, e) := cut_range (length ts') 17 in
  let W := nth (e - 1) cd 0 - nth b cd 0 in
  let k := v2_spans (length ts') b in
  length cd = length ts -> (2 <= length ts)%nat -> 0 < W < 2 ^ 64 -> fits 64 T ->
  exists A, 10 * k <= A <= 1440 * k /\
    next_difficulty_v2 ts cd T
    = Some (if W * T <? 2 ^ 64 then Z.max 1 (u64 (W * T + A - 1) / A) else 0).
Proof.
  cbn zeta. pose proof (cut_range_spec (length (take 29 ts)) 17) as Hcut.
  destruct (cut_range (length (take 29 ts)) 17) as [b e] eqn:Ecut.
  intros Hcd Hts HW HT.
  assert (2 <= length (take 29 ts) <= 29)%nat as Hlen by (rewrite length_take; lia).
  destruct Hcut as [Hbe _]; [lia..|].
  unfold next_difficulty_v2. change DIFFICULTY_BLOCKS_COUNT_V2 with 29%nat.
  rewrite !window_take by done. cbn zeta.
  rewrite (asserted_true (_ =? _)%nat) by (apply Nat.eqb_eq; rewrite !length_take; lia). cbn [mbind option_bind].
  rewrite (proj2 (Nat.leb_gt _ _)) by lia.
  change (29 - 2 * DIFFICULTY_CUT_V2)%nat with 17%nat. rewrite Ecut.
  rewrite (cut_asserted _ _ _ Hbe). cbn [mbind option_bind].
  rewrite !(lookup_nth (sort _) _ 0) by (rewrite length_sort; lia). cbn [mbind option_bind].
  destruct (v2_median_defined (sort (take 29 ts)) b (length (take 29 ts))) as [m Em];
    [apply length_sort|]. cbn zeta in Em. rewrite Em. cbn [mbind option_bind].
  rewrite !(lookup_nth (take 29 cd) _ 0) by (rewrite length_take in *; lia).
  cbn [mbind option_bind].
  assert (forall i, (i < e)%nat -> nth i (take 29 cd) 0 = nth i cd 0) as Hnt.
  { intros i Hi. rewrite !nth_lookup. by rewrite lookup_take_lt by lia. }
  rewrite !Hnt by lia. set (W := nth (e - 1) cd 0 - nth b cd 0) in *.
  fold (v2_spans (length (take 29 ts)) b). set (k := v2_spans (length (take 29 ts)) b).
  assert (0 <= k < 2 ^ 20) as Hk by (unfold k, v2_spans; lia).
  match goal with |- context [adjust_timespan ?t m k] => exists (adjust_timespan t m k) end.
  split; [by apply adjust_timespan_bounds|].
  match goal with |- context [adjust_timespan ?t m k] => generalize (adjust_timespan t m k) end.
  intros A. clearbody W k.
  rewrite (wrap_small 64 W) by (unfold fits; lia). rewrite asserted_true by lia. cbn [mbind option_bind].
  unfold mul. rewrite mul128_spec by (unfold fits in *; lia).
  assert (0 <= W * T) as HWT by (unfold fits in *; nia).
  destruct (Z.ltb_spec (W * T) (2 ^ 64)) as [C|C].
  - rewrite (Z.div_small (W * T)), (Z.mod_small (W * T)) by lia. cbn [negb Z.eqb].
    f_equal. destruct (Z.ltb_spec (u64 (W * T + A - 1) / A) 1); lia.
  - destruct (Z.eqb_spec (W * T / 2 ^ 64) 0) as [D|D]; [|done].
    apply Z.div_small_iff in D; lia.
Qed.


(** ** [next_difficulty_v3] *)

(** [Σ f j * j] over the [n] indices from [i] on. *)
Fixpoint lweighted (f : nat -> Z) (i n : nat) : Z :=
  match n with
  | O => 0
  | S n => f i * Z.of_nat i + lweighted f (S i) n
  end.

Definition clamped_time (ts : list Z) (i : nat) : Z :=
  clamp (- BLOCK_FUTURE_TIME_LIMIT_V3) (nth i ts 0 - nth (i - 1) ts 0) (6 * DIFFICULTY_TARGET).

Lemma clamp_range lo v hi : lo <= hi -> lo <= clamp lo v hi <= hi.
Proof. unfold clamp. destruct (Z.ltb_spec v lo), (Z.ltb_spec hi v); lia. Qed.

Lemma clamp_mid lo v hi : lo <= v <= hi -> clamp lo v hi = v.
Proof. unfold clamp. destruct (Z.ltb_spec v lo), (Z.ltb_spec hi v); lia. Qed.

Lemma lwma_sum_lweighted ts i n L :
  Forall (fits 63) ts -> (1 <= i)%nat -> (i + n <= length ts)%nat -> (i + n <= 100)%nat ->
  Z.abs L <= 2 ^ 40 * Z.of_nat i ->
  lwma_sum ts i n L = Some (L + lweighted (clamped_time ts) i n).
Proof.
  intros Hf. revert i L. induction n as [|n IH]; intros i L H1 Hi Hi' HL; cbn [lwma_sum lweighted].
  { f_equal. lia. }
  rewrite !(lookup_nth ts _ 0) by lia. cbn [mbind option_bind].
  pose proof (Forall_lookup_1 _ _ _ _ Hf (lookup_nth ts i 0 ltac:(lia))) as Fb.
  pose proof (Forall_lookup_1 _ _ _ _ Hf (lookup_nth ts (i - 1) 0 ltac:(lia))) as Fa.
  unfold fits in Fa, Fb. cbn beta in Fa, Fb.
  rewrite !swrap_small by lia. unfold isub. rewrite bool_decide_true by lia. cbn [mbind option_bind].
  fold (clamped_time ts i).
  pose proof (clamp_range (- BLOCK_FUTURE_TIME_LIMIT_V3) (nth i ts 0 - nth (i - 1) ts 0)
    (6 * DIFFICULTY_TARGET) ltac:(by_eval)) as Hc. fold (clamped_time ts i) in Hc.
  change (6 * DIFFICULTY_TARGET) with 1440 in Hc. change (- BLOCK_FUTURE_TIME_LIMIT_V3) with (-720) in Hc.
  assert (-720 * Z.of_nat i <= clamped_time ts i * Z.of_nat i <= 1440 * Z.of_nat i) by nia.
  rewrite (swrap_small 64 (_ * _)), swrap_small by lia.
  rewrite IH by lia. f_equal. lia.
Qed.

Lemma v3_formula ts cd :
  let W := nth 60 cd 0 - nth 0 cd 0 in
  let L := clamp clamp_increase (lweighted (clamped_time ts) 1 60) clamp_decrease in
  length ts = 61%nat -> length cd = 61%nat -> Forall (fits 63) ts ->
  0 <= W -> W * 14640 < 2 ^ 64 ->
  next_difficulty_v3 ts cd = Some (W * 14640 / (2 * L) * 99 / 100).
Proof.
  intros W L Hts Hcd Hf HW HW'. unfold next_difficulty_v3, DIFFICULTY_WINDOW_V3.
  cbv zeta. rewrite Hts, Hcd. cbn [Nat.add Nat.eqb asserted mbind option_bind].
  rewrite lwma_sum_lweighted by (lia || done). cbn [mbind option_bind]. rewrite Z.add_0_l. cbn zeta.
  fold L. rewrite !(lookup_nth cd _ 0) by lia. cbn [mbind option_bind]. fold W.
  pose proof (clamp_range clamp_increase (lweighted (clamped_time ts) 1 60) clamp_decrease
    ltac:(by_eval)) as HL. fold L in HL.
  change clamp_increase with 173923 in HL. change clamp_decrease with 2174040 in HL.
  unfold DIFFICULTY_TARGET. rewrite (wrap_small 64 W), (wrap_small 64 (W * 240)),
    (wrap_small 64 (W * 240 * _)) by (unfold fits; lia).
  change (Z.of_nat 60 + 1) with 61. replace (W * 240 * 61) with (W * 14640) by lia.
  rewrite (wrap_small 64 (2 * L)) by (unfold fits; lia).
  assert (0 <= W * 14640 / (2 * L)) by (apply Z.div_pos; lia).
  assert (W * 14640 / (2 * L) * 100 <= W * 14640).
  { pose proof (Z.mul_div_le (W * 14640) (2 * L) ltac:(lia)). nia. }
  by rewrite wrap_small by (unfold fits; lia).
Qed.


(** ** Correctness *)

(** C15. [check_hash] accepts a hash exactly when, read as a 256-bit little
    endian number, its product with the difficulty is below [2^256]: the chain
    of 64-bit products and carries is exact and the early exit on the highest
    word loses no case. *)
Theorem check_hash_spec hash difficulty :
  is_bytes hash -> length hash = 32%nat -> fits 64 difficulty ->
  check_hash hash difficulty = true <-> le_val 256 hash * difficulty < 2 ^ 256.
Proof.
  intros Hb Hl Hd. rewrite check_hash_words by done. rewrite Z.ltb_lt, hash_words by done. lia.
Qed.

Lemma check_hash_spec_witness :
  check_hash (replicate 31 0 ++ [1]) 256 = false /\ check_hash (replicate 31 0 ++ [1]) 255 = true.
Proof.
  split.
  - apply not_true_iff_false. rewrite check_hash_spec; by_eval.
  - apply check_hash_spec; by_eval.
Defined.

(** [interpolate_timestamps] always succeeds on a window whose first
    timestamp is at least [N] and below the last one: the result has the same
    length and end points, never decreases, is nowhere zero (the assertions of
    [next_difficulty_v4]), and every timestamp that was not masked is kept. *)
Theorem interpolate_timestamps_sorted N ts :
  (1 <= N)%nat -> length ts = S N -> Z.of_nat N <= nth 0 ts 0 < nth N ts 0 ->
  nth N ts 0 * Z.of_nat N < 2 ^ 64 ->
  exists r, interpolate_timestamps N ts = Some r /\
    length r = length ts /\ nth 0 r 0 = nth 0 ts 0 /\ nth N r 0 = nth N ts 0 /\
    (forall i, (i < N)%nat -> 0 < nth i r 0 <= nth (S i) r 0) /\
    (forall i, nth i (mask_pass N ts) 0 <> 0 -> nth i r 0 = nth i ts 0).
Proof.
  intros HN Hl [H0 H1] Hfit.
  destruct (interpolate_result N (nth 0 ts 0) (nth N ts 0) HN H0 H1 Hfit ts Hl eq_refl eq_refl)
    as (r & -> & Rl & R0 & RN & Rs & Rk).
  exists r. split_and!; [done|lia|done|done| |].
  - assert (forall i, (i < N)%nat -> nth 0 ts 0 <= nth i r 0) as G.
    { induction i as [|i IH]; intros Hi; [lia|]. pose proof (Rs i ltac:(lia)). pose proof (IH ltac:(lia)). lia. }
    intros i Hi. pose proof (G i Hi). pose proof (Rs i Hi). lia.
  - intros i Hi. rewrite Rk by done. by destruct (nth_mask_pass N ts i).
Qed.

Lemma interpolate_timestamps_sorted_witness :
  interpolate_timestamps 7 [100; 600; 100; 400; 500; 50; 70; 800]
    = Some [100; 200; 300; 400; 500; 600; 700; 800] /\
  exists r, interpolate_timestamps 7 [100; 600; 100; 400; 500; 50; 70; 800] = Some r /\
    nth 7 r 0 = 800 /\ nth 3 r 0 = 400.
Proof.
  split; [by_eval|].
  destruct (interpolate_timestamps_sorted 7 [100; 600; 100; 400; 500; 50; 70; 800])
    as (r & Hr & _ & _ & HN & _ & Hk); [lia|done|by_eval|by_eval|].
  exists r. split_and!; [done|by rewrite HN|]. by rewrite Hk by by_eval.
Defined.

(** C28. [next_difficulty_v4] on a full window of plausible timestamps: the
    interpolation succeeds with a non-decreasing series [r], the result is the
    work done times [T * (N + 1) * (2N + 1) / 6] over the square-weighted sum of
    solve times of [r] (each at most 5 targets), and it stays within 67% and
    150% of the previous difficulty. *)
Theorem next_difficulty_v4_spec ts cd :
  let W := nth 45 cd 0 - nth 0 cd 0 in
  let prev_D := nth 45 cd 0 - nth 44 cd 0 in
  length ts = 46%nat -> length cd = 46%nat -> Forall plausible ts ->
  0 <= W -> W * 167440 < 2 ^ 64 -> 0 <= prev_D -> prev_D * 150 < 2 ^ 64 ->
  exists r D, interpolate_timestamps 45 (limit_newest 45 ts) = Some r /\
    (forall i, (i < 45)%nat -> nth i r 0 <= nth (S i) r 0) /\
    next_difficulty_v4 ts cd = Some D /\
    D = Z.max (prev_D * 67 / 100)
          (Z.min (W * 167440 / Z.max (weighted (solve_time r) 1 45) 1) (prev_D * 150 / 100)) /\
    prev_D * 67 / 100 <= D <= prev_D * 150 / 100.
Proof.
  intros W prev_D Hts Hcd Hp HW HW' Hd Hd'.
  destruct (v4_window ts Hts Hp) as (r & Hr & Rl & R0 & Rs).
  assert (0 < nth 0 ts 0) as H0.
  { pose proof (Forall_lookup_1 _ _ _ _ Hp (lookup_nth ts 0 0 ltac:(lia))) as P.
    apply Is_true_true in P. unfold plausible in P. lia. }
  assert (prev_D * 67 / 100 <= prev_D * 150 / 100) by (apply Z.div_le_mono; lia).
  exists r. eexists. split_and!; [done|apply Rs|by apply v4_formula; rewrite ?R0|done|..];
    fold W prev_D; lia.
Qed.

Lemma next_difficulty_v4_spec_witness :
  exists D, next_difficulty_v4 (steady_times 1000000 46) (steady_work 0 1000 46) = Some D /\
    670 <= D <= 1500.
Proof.
  destruct (next_difficulty_v4_spec (steady_times 1000000 46) (steady_work 0 1000 46))
    as (r & D & _ & _ & HD & _ & HB); [by_eval..|]. exists D. split; [done|exact HB].
Defined.

(** Steady state: when every block of the window takes exactly the target
    time and has difficulty [D], [next_difficulty_v4] returns [D]. *)
Theorem next_difficulty_v4_steady t c D :
  45 <= t < 2 ^ 57 -> 0 <= c -> 0 <= D < 2 ^ 41 -> c + 45 * D < 2 ^ 64 ->
  next_difficulty_v4 (steady_times t 46) (steady_work c D 46) = Some D.
Proof.
  intros Ht Hc HD Hfit.
  assert (forall i, (i < 46)%nat -> nth i (steady_times t 46) 0 = t + 240 * Z.of_nat i) as Et
    by (intros; unfold steady_times; by rewrite nth_seq_map).
  assert (forall i, (i < 46)%nat -> nth i (steady_work c D 46) 0 = c + D * Z.of_nat i) as Ec
    by (intros; unfold steady_work; by rewrite nth_seq_map).
  rewrite (v4_formula _ _ (steady_times t 46));
    rewrite ?steady_limit, ?Ec, ?Et by lia; [|done|done| |lia| |lia..].
  - f_equal. replace (weighted (solve_time (steady_times t 46)) 1 45)
      with (weighted (fun _ => 240) 1 45).
    + change (weighted (fun _ => 240) 1 45) with 7534800. change (Z.max 7534800 1) with 7534800.
      dlia.
    + apply weighted_ext. intros j Hj. unfold solve_time. rewrite !Et by lia.
      unfold DIFFICULTY_TARGET. lia.
  - apply interpolate_increasing; [lia|done|rewrite Et; lia|rewrite Et; lia|apply steady_increasing].
  - intros i Hi. rewrite !Et by lia. lia.
Qed.

Lemma next_difficulty_v4_steady_witness :
  next_difficulty_v4 (steady_times 1500000000 46) (steady_work 77 123456 46) = Some 123456.
Proof. apply next_difficulty_v4_steady; by_eval. Defined.


(** [next_difficulty_v1] on a window of at least two blocks returns the
    least difficulty whose expected time at the observed rate covers the
    target, [ceil (work * target / span)] over the sorted and cut window of at
    most 720 blocks, and zero exactly when that quotient overflows. *)
Theorem next_difficulty_v1_spec ts cd T b e :
  let ts' := take 720 ts in
  let W := nth (e - 1) cd 0 - nth b cd 0 in
  cut_range (length ts') 600 = (b, e) ->
  length cd = length ts -> (2 <= length ts)%nat -> Forall (fits 64) ts ->
  0 < W < 2 ^ 64 -> fits 64 T ->
  exists D, next_difficulty_v1 ts cd T = Some D /\
    (W * T + span ts' b e - 1 < 2 ^ 64 ->
       (D - 1) * span ts' b e < W * T <= D * span ts' b e) /\
    (2 ^ 64 <= W * T + span ts' b e - 1 -> D = 0).
Proof.
  intros ts' W Hcut Hcd Hts Hf HW HT. pose proof (v1_formula ts cd T) as E. cbn zeta in E.
  fold ts' in E. rewrite Hcut in E. eexists. split; [by apply E|]. fold W.
  assert (1 <= span ts' b e) as Hs by (unfold span; lia).
  split; intros HO.
  - rewrite (proj2 (Z.ltb_lt _ _)) by lia. unfold ceil_div.
    set (s := span ts' b e) in *. clearbody s.
    pose proof (Z.div_mod (W * T + s - 1) s ltac:(lia)).
    pose proof (Z.mod_pos_bound (W * T + s - 1) s ltac:(lia)). lia.
  - by rewrite (proj2 (Z.ltb_ge _ _)) by lia.
Qed.

Lemma next_difficulty_v1_spec_witness :
  exists D, next_difficulty_v1 [100; 300; 200] [10; 40; 90] 240 = Some D /\
    (D - 1) * 200 < 80 * 240 <= D * 200.
Proof.
  destruct (next_difficulty_v1_spec [100; 300; 200] [10; 40; 90] 240 0 3)
    as (D & HD & HO & _); [by_eval..|]. exists D. split; [done|]. by apply HO.
Defined.

(** [next_difficulty_v2] on a window of at least two blocks divides the
    work by an adjusted time span of 10 to 1440 seconds for each of the [k]
    blocks counted and never goes below one. It returns zero when
    [work * target] overflows; when only the rounding term overflows it
    returns one. *)
Theorem next_difficulty_v2_spec ts cd T b e :
  let n := length (take 29 ts) in
  let W := nth (e - 1) cd 0 - nth b cd 0 in
  cut_range n 17 = (b, e) ->
  length cd = length ts -> (2 <= length ts)%nat -> 0 < W < 2 ^ 64 -> fits 64 T ->
  exists A D, 10 * v2_spans n b <= A <= 1440 * v2_spans n b /\ 0 < v2_spans n b /\
    next_difficulty_v2 ts cd T = Some D /\
    (W * T + A - 1 < 2 ^ 64 -> D = Z.max 1 (ceil_div (W * T) A)) /\
    (W * T < 2 ^ 64 <= W * T + A - 1 -> D = 1) /\
    (2 ^ 64 <= W * T -> D = 0).
Proof.
  intros n W Hcut Hcd Hts HW HT. pose proof (v2_formula ts cd T) as E. cbn zeta in E.
  fold n in E. rewrite Hcut in E. destruct E as (A & HA & E); [done..|].
  assert (0 < v2_spans n b) as Hk.
  { unfold v2_spans. unfold n in *. rewrite length_take in *. clear -Hcut Hts.
    unfold cut_range in Hcut. destruct (Nat.leb_spec (29 `min` length ts) 17); simplify_eq; [lia|].
    pose proof (Nat.div_mod_eq (29 `min` length ts - 17 + 1) 2). lia. }
  exists A. eexists. split_and!; [lia..|exact E|fold W| |].
  - intros HO. rewrite (proj2 (Z.ltb_lt _ _)), wrap_small by (unfold fits in *; nia). done.
  - intros HO. fold W. rewrite (proj2 (Z.ltb_lt _ _)) by lia.
    assert (u64 (W * T + A - 1) = W * T + A - 1 - 2 ^ 64) as ->.
    { unfold wrap. symmetry. apply (Z.mod_unique _ _ 1); [|lia].
      unfold v2_spans in HA. assert (n <= 29)%nat by (unfold n; rewrite length_take; lia). lia. }
    rewrite Z.div_small by lia. done.
  - intros HO. fold W. by rewrite (proj2 (Z.ltb_ge _ _)) by lia.
Qed.

Lemma next_difficulty_v2_spec_witness :
  exists A D, 20 <= A <= 2880 /\ next_difficulty_v2 [100; 300; 200] [10; 40; 90] 240 = Some D /\
    (80 * 240 + A - 1 < 2 ^ 64 -> D = Z.max 1 (ceil_div (80 * 240) A)).
Proof.
  destruct (next_difficulty_v2_spec [100; 300; 200] [10; 40; 90] 240 0 3)
    as (A & D & HA & _ & HD & HO & _); [by_eval..|].
  exists A, D. split; [exact HA|split; [exact HD|exact HO]].
Defined.

(** [next_difficulty_v3] on a full window: the linearly weighted sum of
    clamped solve times is computed without overflow, its clamp is positive, and
    the next difficulty lies between one fifth and 2.5002 times the average
    difficulty [work / 60] of the window, up to rounding. *)
Theorem next_difficulty_v3_spec ts cd :
  let W := nth 60 cd 0 - nth 0 cd 0 in
  let L := clamp clamp_increase (lweighted (clamped_time ts) 1 60) clamp_decrease in
  length ts = 61%nat -> length cd = 61%nat -> Forall (fits 63) ts ->
  0 <= W -> W * 14640 < 2 ^ 64 ->
  exists D, next_difficulty_v3 ts cd = Some D /\
    D = W * 14640 / (2 * L) * 99 / 100 /\ 0 < L /\
    100000 * D <= 4167 * W /\ W < 300 * (D + 2).
Proof.
  intros W L Hts Hcd Hf HW HW'. eexists. split; [by apply v3_formula|]. split; [done|].
  fold W L. pose proof (clamp_range clamp_increase (lweighted (clamped_time ts) 1 60) clamp_decrease
    ltac:(by_eval)) as HL. fold L in HL.
  change clamp_increase with 173923 in HL. change clamp_decrease with 2174040 in HL.
  clearbody W L. split; [lia|]. set (q := W * 14640 / (2 * L)).
  assert (2 * L * q <= W * 14640 < 2 * L * (q + 1)) as Hq.
  { pose proof (Z.div_mod (W * 14640) (2 * L) ltac:(lia)) as E. fold q in E.
    pose proof (Z.mod_pos_bound (W * 14640) (2 * L) ltac:(lia)). lia. }
  assert (0 <= q) by (apply Z.div_pos; lia). clearbody q.
  assert (347846 * q <= W * 14640 < 4348080 * (q + 1)) as Hq' by nia.
  dlia.
Qed.

Lemma next_difficulty_v3_spec_witness :
  exists D, next_difficulty_v3 (steady_times 1000000 61) (steady_work 0 1000 61) = Some D /\
    D <= 2500 /\ 198 < D.
Proof.
  destruct (next_difficulty_v3_spec (steady_times 1000000 61) (steady_work 0 1000 61))
    as (D & HD & _ & _ & H1 & H2); [by_eval..|].
  exists D. change (nth 60 (steady_work 0 1000 61) 0 - nth 0 (steady_work 0 1000 61) 0) with 60000 in *.
  split; [done|lia].
Defined.

End Difficulty.
