(* ===== verification/BlockReward.v ===== *)
(** * Block rewards and the development fund

    The emission part of [src/cryptonote_basic/cryptonote_basic_impl.cpp] and
    its header: [get_dev_fund_amount], [get_v2_dev_fund_reward_decrease],
    [get_base_reward_tabular] and [get_block_reward]. *)

From S2P Require Import Prelude Config IntUtil.
Import Config IntUtil.

Module BlockReward.

Definition get_min_block_size : Z := CRYPTONOTE_BLOCK_GRANTED_FULL_REWARD_ZONE.
Definition get_max_tx_size : Z := TRANSACTION_SIZE_LIMIT.

(** [get_dev_fund_amount<NETTYPE>]: [None] when no output is due. *)
Definition get_dev_fund_amount_for (c : config) (height : Z) : option Z :=
  if height <? DEV_FUND_START c then None
  else
    let height := height - DEV_FUND_START c in
    if DEV_FUND_LENGTH c <=? height / DEV_FUND_PERIOD c then None
    else if negb (height mod DEV_FUND_PERIOD c =? 0) then None
    else
      let amount := DEV_FUND_AMOUNT c / DEV_FUND_LENGTH c in
      Some (if u64 (DEV_FUND_V2_START c - DEV_FUND_START c) <=? height
            then u64 (amount + DEV_FUND_V2_INCREASE c) else amount).

(** No amount either for a network that has no fund: there the assert fails. *)
Definition get_dev_fund_amount (nettype : network_type) (height : Z) : option Z :=
  c ← net_config nettype; get_dev_fund_amount_for c height.

Definition get_v2_dev_fund_reward_decrease_for (c : config) (height : Z) : Z :=
  if height <? DEV_FUND_V2_START c then 0
  else
    let height := u64 (height - DEV_FUND_START c) in
    if DEV_FUND_LENGTH c <=? height / DEV_FUND_PERIOD c then 0
    else DEV_FUND_V2_INCREASE c / DEV_FUND_PERIOD c.

(** [None] for a network that has no fund: there the assert fails. *)
Definition get_v2_dev_fund_reward_decrease (nettype : network_type) (height : Z) : option Z :=
  c ← net_config nettype; Some (get_v2_dev_fund_reward_decrease_for c height).

(** The supply left to the miners of a network. *)
Definition money_supply (nettype : network_type) : Z :=
  match net_config nettype with
  | Some c => u64 (MONEY_SUPPLY - DEV_FUND_V2_AMOUNT c)
  | None => MONEY_SUPPLY
  end.

(** [None] when the assert that the decrease is at most the reward fails. *)
Definition get_base_reward_tabular (nettype : network_type) (height already_generated_coins : Z)
    : option Z :=
  let interval_num :=
    Z.min (height / COIN_EMISSION_HEIGHT_INTERVAL) (Z.of_nat (length COIN_EMISSION_STEPS) - 1) in
  if height =? 0 then Some GENESIS_BLOCK_REWARD
  else if already_generated_coins <? money_supply nettype then
    base_reward ← aget COIN_EMISSION_STEPS interval_num;
    decrease ← get_v2_dev_fund_reward_decrease nettype height;
    _ ← asserted (decrease <=? base_reward);
    Some (base_reward - decrease)
  else Some FINAL_SUBSIDY.

(** What [get_block_reward] does with its arguments. *)
Inductive reward_result :=
  | Too_big                 (** the block is refused, the function returns [false] *)
  | Reward (reward : Z).

(** [None] when an assert fails; the first two keep the sizes below 32 bits. *)
Definition get_block_reward (nettype : network_type) (median_size current_block_size
    already_generated_coins height : Z) : option reward_result :=
  base_reward ← get_base_reward_tabular nettype height already_generated_coins;
  let median_size :=
    if median_size <? CRYPTONOTE_BLOCK_GRANTED_FULL_REWARD_ZONE
    then CRYPTONOTE_BLOCK_GRANTED_FULL_REWARD_ZONE else median_size in
  if u64 (2 * median_size) <? current_block_size then Some Too_big
  else if current_block_size <=?
       (if median_size <? BLOCK_SIZE_GROWTH_FAVORED_ZONE
        then u64 (median_size * 110) / 100 else median_size)
  then Some (Reward base_reward)
  else
    _ ← asserted (median_size <? 2 ^ 32 - 1);
    _ ← asserted (current_block_size <? 2 ^ 32 - 1);
    let multiplicand := u64 (u64 (2 * median_size) - current_block_size) in
    let multiplicand := u64 (multiplicand * current_block_size) in
    let '(product_lo, product_hi) := mul128 base_reward multiplicand in
    let '(reward_hi, reward_lo, _) := div128_32 product_hi product_lo (u32 median_size) in
    let '(reward_hi, reward_lo, _) := div128_32 reward_hi reward_lo (u32 median_size) in
    _ ← asserted (0 =? reward_hi);
    _ ← asserted (reward_lo <? base_reward);
    Some (Reward reward_lo).


(** ** Base reward *)

Lemma emission_step i :
  0 <= i <= 47 ->
  exists r, aget COIN_EMISSION_STEPS i = Some r /\ 4080000000 <= r <= 65070000000 /\
    (i <= 14 -> 32000000000 <= r).
Proof.
  intros Hi. pose proof (below_forallb 48 (fun i =>
    match aget COIN_EMISSION_STEPS i with
    | Some r => (4080000000 <=? r) && (r <=? 65070000000) && ((14 <? i) || (32000000000 <=? r))
    | None => false
    end) ltac:(by_eval) i ltac:(lia)) as H. cbn beta in H.
  destruct (aget COIN_EMISSION_STEPS i) as [r|]; [|done]. exists r. split; [done|lia].
Qed.

Lemma networks nt c :
  net_config nt = Some c ->
  c = config_MAINNET \/ c = config_TESTNET \/ c = config_STAGENET.
Proof. destruct nt; cbn; intros; simplify_eq; auto. Qed.

(** While the reward is reduced for the development fund, the schedule is in
    its first 15 steps. *)
Lemma decrease_range nt c height :
  net_config nt = Some c -> 0 <= height < 2 ^ 64 ->
  get_v2_dev_fund_reward_decrease nt height = Some 0 \/
  (get_v2_dev_fund_reward_decrease nt height = Some 10175010175 /\
   height / COIN_EMISSION_HEIGHT_INTERVAL <= 14).
Proof.
  intros E Hh. unfold get_v2_dev_fund_reward_decrease. rewrite E. cbn [mbind option_bind].
  unfold get_v2_dev_fund_reward_decrease_for. change COIN_EMISSION_HEIGHT_INTERVAL with 65745.
  assert (DEV_FUND_V2_INCREASE c / DEV_FUND_PERIOD c = 10175010175 /\
          0 < DEV_FUND_PERIOD c /\ DEV_FUND_START c <= DEV_FUND_V2_START c /\
          0 <= DEV_FUND_START c /\
          DEV_FUND_START c + DEV_FUND_LENGTH c * DEV_FUND_PERIOD c <= 15 * 65745) as (-> & HP & HS & H0 & HE)
    by (apply networks in E as [->|[->| ->]]; by_eval).
  destruct (Z.ltb_spec height (DEV_FUND_V2_START c)); [by left|].
  rewrite wrap_small by (unfold fits; lia).
  destruct (Z.leb_spec (DEV_FUND_LENGTH c) ((height - DEV_FUND_START c) / DEV_FUND_PERIOD c)) as [C|C];
    [by left|right]. split; [done|].
  assert (height - DEV_FUND_START c < DEV_FUND_LENGTH c * DEV_FUND_PERIOD c).
  { pose proof (Z.mul_succ_div_gt (height - DEV_FUND_START c) (DEV_FUND_PERIOD c) HP). nia. }
  assert (height / 65745 < 15); [|lia]. apply Z.div_lt_upper_bound; lia.
Qed.

Lemma base_reward_range nt c height coins :
  net_config nt = Some c -> 0 < height < 2 ^ 64 ->
  exists r, get_base_reward_tabular nt height coins = Some r /\
    FINAL_SUBSIDY <= r <= 65070000000.
Proof.
  intros E Hh. unfold get_base_reward_tabular, FINAL_SUBSIDY. cbn zeta.
  rewrite (proj2 (Z.eqb_neq _ _)) by lia. destruct (_ <? _); [|by eexists].
  change (Z.of_nat (length COIN_EMISSION_STEPS) - 1) with 47.
  assert (0 <= height / COIN_EMISSION_HEIGHT_INTERVAL) by (apply Z.div_pos; [lia|by_eval]).
  destruct (emission_step (Z.min (height / COIN_EMISSION_HEIGHT_INTERVAL) 47)) as (r & -> & Hr & Hr');
    [lia|]. cbn [mbind option_bind].
  destruct (decrease_range nt c height E ltac:(lia)) as [->|[-> H14]]; cbn [mbind option_bind];
    rewrite asserted_true by lia; eexists; (split; [done|lia]).
Qed.

(** ** Penalty for large blocks *)

Lemma reward_fraction base m s M :
  fits 64 base -> 0 <= m < 2 ^ 64 -> 0 < M < 2 ^ 32 -> m <= M * M ->
  let '(product_lo, product_hi) := mul128 base m in
  let '(reward_hi, reward_lo, r1) := div128_32 product_hi product_lo M in
  let '(reward_hi, reward_lo, r2) := div128_32 reward_hi reward_lo M in
  s = reward_lo -> reward_hi = 0 /\ s = base * m / (M * M).
Proof.
  intros Hb Hm HM Hle. rewrite mul128_spec by done. unfold fits in *.
  set (P := base * m).
  assert (0 <= P <= 2 ^ 128 - 1) as HP by (unfold P; nia).
  destruct (div128_32 (P / 2 ^ 64) (P mod 2 ^ 64) M) as [[h1 l1] r1] eqn:E1.
  destruct (div128_32 h1 l1 M) as [[h2 l2] r2] eqn:E2.
  apply div128_32_correct in E1 as (E1 & R1 & F1 & F1'); [|unfold fits; dlia..|done].
  apply div128_32_correct in E2 as (E2 & R2 & F2 & F2'); [|done..].
  assert (P / 2 ^ 64 * 2 ^ 64 + P mod 2 ^ 64 = P) as EP by dlia. rewrite EP in E1.
  assert (h1 * 2 ^ 64 + l1 = P / M) as Q1 by (apply Z.div_unique with r1; lia).
  assert (h2 * 2 ^ 64 + l2 = P / M / M) as Q2 by (rewrite <- Q1; apply Z.div_unique with r2; lia).
  rewrite Z.div_div in Q2 by lia.
  assert (P / (M * M) < 2 ^ 64).
  { apply Z.div_lt_upper_bound; [nia|]. unfold P. nia. }
  unfold fits in *. intros ->. split; lia.
Qed.

Lemma block_reward_formula nt median cur coins height base :
  get_base_reward_tabular nt height coins = Some base -> 0 < base < 2 ^ 64 ->
  let M := Z.max median CRYPTONOTE_BLOCK_GRANTED_FULL_REWARD_ZONE in
  let free := if M <? BLOCK_SIZE_GROWTH_FAVORED_ZONE then M * 110 / 100 else M in
  0 <= median < 2 ^ 63 -> 0 <= cur < 2 ^ 64 ->
  get_block_reward nt median cur coins height
  = if 2 * M <? cur then Some Too_big
    else if cur <=? free then Some (Reward base)
    else if (M <? 2 ^ 32 - 1) && (cur <? 2 ^ 32 - 1)
    then Some (Reward (base * ((2 * M - cur) * cur) / (M * M)))
    else None.
Proof.
  intros E Hb M free Hm Hc. unfold get_block_reward. rewrite E. cbn [mbind option_bind].
  assert ((if median <? CRYPTONOTE_BLOCK_GRANTED_FULL_REWARD_ZONE
           then CRYPTONOTE_BLOCK_GRANTED_FULL_REWARD_ZONE else median) = M) as ->
    by (unfold M; destruct (Z.ltb_spec median CRYPTONOTE_BLOCK_GRANTED_FULL_REWARD_ZONE); lia).
  assert (245760 <= M < 2 ^ 63) as HM
    by (unfold M; change CRYPTONOTE_BLOCK_GRANTED_FULL_REWARD_ZONE with 245760; lia).
  clearbody M. cbn zeta. rewrite (wrap_small 64 (2 * M)) by (unfold fits; lia).
  destruct (Z.ltb_spec (2 * M) cur) as [C|C]; [done|].
  assert ((if M <? BLOCK_SIZE_GROWTH_FAVORED_ZONE then u64 (M * 110) / 100 else M) = free) as ->.
  { unfold free. destruct (Z.ltb_spec M BLOCK_SIZE_GROWTH_FAVORED_ZONE) as [L|]; [|done].
    change BLOCK_SIZE_GROWTH_FAVORED_ZONE with 983040 in L. by rewrite wrap_small by (unfold fits; lia). }
  destruct (Z.leb_spec cur free) as [D|D]; [done|].
  assert (M < cur) as Hlt by (unfold free in D; destruct (M <? _); [pose proof (Z.div_le_lower_bound (M * 110) 100 M); lia|lia]).
  destruct (Z.ltb_spec M (2 ^ 32 - 1)) as [M32|M32]; [|done]. cbn [andb asserted mbind option_bind].
  destruct (Z.ltb_spec cur (2 ^ 32 - 1)) as [C32|C32]; [|done]. cbn [asserted mbind option_bind].
  rewrite (wrap_small 32 M) by (unfold fits; lia).
  rewrite (wrap_small 64 (2 * M - cur)) by (unfold fits; lia).
  assert ((2 * M - cur) * cur <= M * M) as Hle by (pose proof (Z.square_nonneg (M - cur)); lia).
  assert (0 <= (2 * M - cur) * cur) by nia.
  rewrite (wrap_small 64 (_ * cur)) by (unfold fits; nia).
  pose proof (fun s => reward_fraction base ((2 * M - cur) * cur) s M ltac:(unfold fits; lia) ltac:(nia) ltac:(lia) Hle) as R.
  destruct (mul128 _ _) as [pl ph]. destruct (div128_32 ph pl M) as [[h1 l1] r1].
  destruct (div128_32 h1 l1 M) as [[h2 l2] r2]. destruct (R l2 eq_refl) as [-> ->].
  change (asserted (0 =? 0)) with (Some tt). cbn [mbind option_bind]. rewrite asserted_true; [done|].
  apply Z.ltb_lt, Z.div_lt_upper_bound; [nia|].
  assert ((2 * M - cur) * cur < M * M) by nia. nia.
Qed.


(** ** Totals of the development fund *)

(** [Σ f h] over the heights below [n]. *)
Fixpoint sum_heights (f : Z -> Z) (n : nat) : Z :=
  match n with
  | O => 0
  | S n => sum_heights f n + f (Z.of_nat n)
  end.

Definition dev_fund_output (nt : network_type) (h : Z) : Z := default 0 (get_dev_fund_amount nt h).

(** What the reward of the block at height [h] is reduced by. *)
Definition withheld (nt : network_type) (h : Z) : Z := default 0 (get_v2_dev_fund_reward_decrease nt h).

(** Payments due strictly below height [h]. *)
Definition payments (c : config) (h : Z) : Z :=
  Z.min (DEV_FUND_LENGTH c)
    (Z.max 0 ((h - DEV_FUND_START c + DEV_FUND_PERIOD c - 1) / DEV_FUND_PERIOD c)).

(** What the totals rely on: the second phase starts with a payment. *)
Definition fund_ok (c : config) (k : Z) : Prop :=
  0 < DEV_FUND_PERIOD c /\ 0 <= k <= DEV_FUND_LENGTH c /\ 0 <= DEV_FUND_START c /\
  DEV_FUND_V2_START c - DEV_FUND_START c = k * DEV_FUND_PERIOD c /\
  DEV_FUND_V2_START c < 2 ^ 64 /\ 0 <= DEV_FUND_V2_INCREASE c < 2 ^ 63 /\
  0 < DEV_FUND_LENGTH c < 2 ^ 32 /\ DEV_FUND_LENGTH c * DEV_FUND_V2_INCREASE c < 2 ^ 64.

Lemma payments_step c k h :
  fund_ok c k -> 0 <= h ->
  let d := h - DEV_FUND_START c in
  payments c (h + 1) =
    if (0 <=? d) && (d / DEV_FUND_PERIOD c <? DEV_FUND_LENGTH c) && (d mod DEV_FUND_PERIOD c =? 0)
    then d / DEV_FUND_PERIOD c + 1 else payments c h.
Proof.
  intros (HP & _ & _ & _ & _ & _ & HL & _) Hh d. unfold payments. fold d.
  replace (h + 1 - DEV_FUND_START c + DEV_FUND_PERIOD c - 1) with (d + 1 * DEV_FUND_PERIOD c)
    by (unfold d; lia).
  rewrite Z.div_add by lia. generalize dependent (DEV_FUND_PERIOD c).
  generalize dependent (DEV_FUND_LENGTH c). intros L HL P HP. clearbody d. clear c k h Hh.
  pose proof (Z.div_mod d P ltac:(lia)) as E. pose proof (Z.mod_pos_bound d P HP) as B.
  set (q := d / P) in *. set (r := d mod P) in *. clearbody q r.
  assert ((d + P - 1) / P = if r =? 0 then q else q + 1) as ->.
  { destruct (Z.eqb_spec r 0); symmetry; [apply Z.div_unique with (P - 1)|apply Z.div_unique with (r - 1)]; nia. }
  destruct (Z.leb_spec 0 d).
  - assert (0 <= q) by nia. destruct (Z.ltb_spec q L), (Z.eqb_spec r 0); cbn [andb]; lia.
  - assert (q < 0) by nia. cbn [andb]. destruct (Z.eqb_spec r 0); lia.
Qed.

Lemma dev_fund_sum nt c k n :
  net_config nt = Some c -> fund_ok c k ->
  sum_heights (dev_fund_output nt) n
  = DEV_FUND_V2_INCREASE c
    * (payments c (Z.of_nat n) + Z.max 0 (payments c (Z.of_nat n) - k)).
Proof.
  intros E Hok. pose proof Hok as (HP & Hk & H0 & HV & HV' & HI & HL & HLI).
  induction n as [|n IH].
  - cbn [sum_heights]. assert (payments c (Z.of_nat 0) = 0) as ->; [|lia].
    unfold payments. assert ((Z.of_nat 0 - DEV_FUND_START c + DEV_FUND_PERIOD c - 1) / DEV_FUND_PERIOD c < 1)
      by (apply Z.div_lt_upper_bound; lia). lia.
  - cbn [sum_heights]. rewrite IH. clear IH. replace (Z.of_nat (S n)) with (Z.of_nat n + 1) by lia.
    rewrite (payments_step c k _ Hok) by lia.
    unfold dev_fund_output, get_dev_fund_amount. rewrite E. cbn [mbind option_bind].
    unfold get_dev_fund_amount_for. set (h := Z.of_nat n) in *. assert (0 <= h) as Hh by lia. clearbody h.
    fold (DEV_FUND_V2_INCREASE c).
    destruct (Z.ltb_spec h (DEV_FUND_START c)); cbn [from_option id]; cbn zeta.
    { rewrite (proj2 (Z.leb_gt 0 (h - DEV_FUND_START c))) by lia. cbn [andb]. lia. }
    rewrite (proj2 (Z.leb_le 0 (h - DEV_FUND_START c))) by lia. cbn [andb].
    set (d := h - DEV_FUND_START c) in *.
    pose proof (Z.div_mod d (DEV_FUND_PERIOD c) ltac:(lia)) as Ed.
    destruct (Z.leb_spec (DEV_FUND_LENGTH c) (d / DEV_FUND_PERIOD c)) as [C|C];
      [rewrite (proj2 (Z.ltb_ge _ _)) by lia; cbn [andb from_option id]; lia|].
    rewrite (proj2 (Z.ltb_lt _ _)) by lia. cbn [andb].
    destruct (Z.eqb_spec (d mod DEV_FUND_PERIOD c) 0) as [D|D]; cbn [negb from_option id]; [|lia].
    assert (payments c h = d / DEV_FUND_PERIOD c) as ->.
    { unfold payments. fold d. replace ((d + DEV_FUND_PERIOD c - 1) / DEV_FUND_PERIOD c)
        with (d / DEV_FUND_PERIOD c); [assert (0 <= d / DEV_FUND_PERIOD c) by (apply Z.div_pos; lia); lia|].
      apply Z.div_unique with (DEV_FUND_PERIOD c - 1); lia. }
    rewrite (wrap_small 64 (DEV_FUND_V2_START c - _)) by (unfold fits; nia).
    rewrite HV. set (q := d / DEV_FUND_PERIOD c) in *. rewrite D, Z.add_0_r in Ed. rewrite Ed.
    destruct (Z.leb_spec (k * DEV_FUND_PERIOD c) (DEV_FUND_PERIOD c * q)) as [F|F]; cbn [from_option id].
    + rewrite wrap_small by (unfold fits; lia). assert (k <= q) by nia. nia.
    + assert (q < k) by nia. nia.
Qed.

Lemma decrease_sum nt c n :
  net_config nt = Some c ->
  let stop := DEV_FUND_START c + DEV_FUND_LENGTH c * DEV_FUND_PERIOD c in
  Z.of_nat n < 2 ^ 63 ->
  sum_heights (withheld nt) n
  = 10175010175 * Z.max 0 (Z.min (Z.of_nat n) stop - DEV_FUND_V2_START c).
Proof.
  intros E stop Hn.
  assert (DEV_FUND_V2_INCREASE c / DEV_FUND_PERIOD c = 10175010175 /\ 0 < DEV_FUND_PERIOD c /\
    0 <= DEV_FUND_START c <= DEV_FUND_V2_START c) as (HI & HP & HS)
    by (apply networks in E as [->|[->| ->]]; by_eval).
  induction n as [|n IH]; cbn [sum_heights]; [lia|]. rewrite IH by lia.
  unfold withheld at 1. unfold get_v2_dev_fund_reward_decrease. rewrite E. cbn [mbind option_bind default from_option id].
  unfold get_v2_dev_fund_reward_decrease_for. rewrite HI.
  destruct (Z.ltb_spec (Z.of_nat n) (DEV_FUND_V2_START c)); [lia|]. cbn zeta.
  rewrite wrap_small by (unfold fits; lia).
  destruct (Z.leb_spec (DEV_FUND_LENGTH c) ((Z.of_nat n - DEV_FUND_START c) / DEV_FUND_PERIOD c)) as [C|C].
  - assert (stop <= Z.of_nat n); [|lia]. unfold stop.
    pose proof (Z.mul_div_le (Z.of_nat n - DEV_FUND_START c) (DEV_FUND_PERIOD c) HP). nia.
  - assert (Z.of_nat n < stop); [|lia]. unfold stop.
    pose proof (Z.mul_succ_div_gt (Z.of_nat n - DEV_FUND_START c) (DEV_FUND_PERIOD c) HP). nia.
Qed.


(** ** Correctness *)

(** On the three public networks the base reward of every block after the
    genesis block is defined and lies between the final subsidy of 4 coins and
    65.07 coins: the emission table is never read out of range, and the
    decrease for the development fund never exceeds the tabulated step, so the
    assertion in [get_base_reward_tabular] cannot fail. *)
Theorem base_reward_bounds nt c height coins :
  net_config nt = Some c -> 0 < height < 2 ^ 64 ->
  (exists r, get_base_reward_tabular nt height coins = Some r /\
     FINAL_SUBSIDY <= r <= 65070000000) /\
  (exists step, aget COIN_EMISSION_STEPS (Z.min (height / COIN_EMISSION_HEIGHT_INTERVAL) 47) = Some step /\
     exists decrease, get_v2_dev_fund_reward_decrease nt height = Some decrease /\ decrease <= step).
Proof.
  intros E Hh. split; [by eapply base_reward_range|].
  assert (0 <= height / COIN_EMISSION_HEIGHT_INTERVAL) by (apply Z.div_pos; [lia|by_eval]).
  destruct (emission_step (Z.min (height / COIN_EMISSION_HEIGHT_INTERVAL) 47)) as (r & Er & Hr & Hr');
    [lia|]. exists r. split; [done|].
  destruct (decrease_range nt c height E ltac:(lia)) as [->|[-> H14]]; eexists; (split; [done|lia]).
Qed.

Lemma base_reward_bounds_witness :
  exists r, get_base_reward_tabular MAINNET 400000 0 = Some r /\ FINAL_SUBSIDY <= r <= 65070000000.
Proof.
  destruct (base_reward_bounds MAINNET config_MAINNET 400000 0) as [H _]; [done|by_eval|exact H].
Defined.

(** C20. [get_block_reward] with the effective median [M] (at least 240 kB):
    a block above [2M] is refused; up to the penalty-free size ([M], or 110% of
    [M] while [M] is small) the full base reward is paid; in between, when the
    median and the size are below [UINT32_MAX], the reward is exactly
    [base * (2M - size) * size / M^2], computed in 128-bit steps without loss, and
    less than the base reward: the two asserts on the result hold.  With a larger
    median or size in that range the asserts on the sizes stop the program, and
    nowhere else. *)
Theorem get_block_reward_spec nt median size coins height base :
  get_base_reward_tabular nt height coins = Some base -> 0 < base < 2 ^ 64 ->
  let M := Z.max median CRYPTONOTE_BLOCK_GRANTED_FULL_REWARD_ZONE in
  let free := if M <? BLOCK_SIZE_GROWTH_FAVORED_ZONE then M * 110 / 100 else M in
  0 <= median < 2 ^ 63 -> 0 <= size < 2 ^ 64 ->
  (2 * M < size -> get_block_reward nt median size coins height = Some Too_big) /\
  (size <= free -> get_block_reward nt median size coins height = Some (Reward base)) /\
  (free < size <= 2 * M -> M < 2 ^ 32 - 1 -> size < 2 ^ 32 - 1 -> exists r,
     get_block_reward nt median size coins height = Some (Reward r) /\
     r = base * ((2 * M - size) * size) / (M * M) /\ 0 <= r < base) /\
  (get_block_reward nt median size coins height = None <->
     free < size <= 2 * M /\ (2 ^ 32 - 1 <= M \/ 2 ^ 32 - 1 <= size)).
Proof.
  intros E Hb M free Hm Hs. rewrite (block_reward_formula _ _ _ _ _ _ E) by lia.
  fold M free. assert (245760 <= M) as HM
    by (unfold M; change CRYPTONOTE_BLOCK_GRANTED_FULL_REWARD_ZONE with 245760; lia).
  assert (M <= free <= 2 * M) as Hf
    by (unfold free; destruct (M <? _); [split; [apply Z.div_le_lower_bound|apply Z.div_le_upper_bound]|]; lia).
  clearbody M free. split; [|split; [|split; [|split]]]; intros Hc.
  - by rewrite (proj2 (Z.ltb_lt _ _)) by lia.
  - by rewrite (proj2 (Z.ltb_ge _ _)), (proj2 (Z.leb_le _ _)) by lia.
  - intros HM' Hs'. rewrite (proj2 (Z.ltb_ge (2 * M) size)), (proj2 (Z.leb_gt size free)) by lia.
    rewrite (proj2 (Z.ltb_lt M _)), (proj2 (Z.ltb_lt size _)) by lia. cbn [andb]. eexists. split_and!; [done..| |].
    + apply Z.div_pos; nia.
    + apply Z.div_lt_upper_bound; [nia|].
      assert ((2 * M - size) * size < M * M) by nia. nia.
  - destruct (Z.ltb_spec (2 * M) size), (Z.leb_spec size free), (Z.ltb_spec M (2 ^ 32 - 1)),
      (Z.ltb_spec size (2 ^ 32 - 1)); cbn [andb] in Hc; (discriminate Hc || lia).
  - rewrite (proj2 (Z.ltb_ge (2 * M) size)), (proj2 (Z.leb_gt size free)) by lia.
    destruct (Z.ltb_spec M (2 ^ 32 - 1)), (Z.ltb_spec size (2 ^ 32 - 1)); (done || lia).
Qed.

Lemma get_block_reward_spec_witness :
  get_base_reward_tabular MAINNET 5 0 = Some 32000000000 /\
  get_block_reward MAINNET 300000 600001 0 5 = Some Too_big /\
  get_block_reward MAINNET 300000 330000 0 5 = Some (Reward 32000000000) /\
  get_block_reward MAINNET (2 ^ 32) (2 ^ 32 + 1) 0 5 = None /\
  exists r, get_block_reward MAINNET 300000 400000 0 5 = Some (Reward r) /\ 0 <= r < 32000000000.
Proof.
  split; [by_eval|]. split_and!.
  - apply (get_block_reward_spec MAINNET 300000 600001 0 5 32000000000); by_eval.
  - apply (get_block_reward_spec MAINNET 300000 330000 0 5 32000000000); by_eval.
  - apply (get_block_reward_spec MAINNET (2 ^ 32) (2 ^ 32 + 1) 0 5 32000000000); by_eval.
  - destruct (get_block_reward_spec MAINNET 300000 400000 0 5 32000000000)
      as (_ & _ & H & _); [by_eval..|]. destruct H as (r & Hr & _ & Hb); [by_eval..|].
    exists r. split; [exact Hr|exact Hb].
Defined.

(** The development fund over the whole chain: once the last period has
    passed, the outputs of [get_dev_fund_amount] add up to the original fund
    (rounded to whole payments) plus [DEV_FUND_V2_AMOUNT], which
    [get_base_reward_tabular] takes off the supply; and what
    [get_v2_dev_fund_reward_decrease] withholds from the miners covers that
    second part, short of it by less than one atomic unit for each block. *)
Theorem dev_fund_total nt c n :
  net_config nt = Some c ->
  DEV_FUND_START c + DEV_FUND_LENGTH c * DEV_FUND_PERIOD c <= Z.of_nat n < 2 ^ 63 ->
  sum_heights (dev_fund_output nt) n
    = DEV_FUND_LENGTH c * DEV_FUND_V2_INCREASE c + DEV_FUND_V2_AMOUNT c /\
  0 <= DEV_FUND_AMOUNT c - DEV_FUND_LENGTH c * DEV_FUND_V2_INCREASE c < DEV_FUND_LENGTH c /\
  0 <= DEV_FUND_V2_AMOUNT c - sum_heights (withheld nt) n
    < DEV_FUND_START c + DEV_FUND_LENGTH c * DEV_FUND_PERIOD c - DEV_FUND_V2_START c.
Proof.
  intros E Hn. pose proof (networks nt c E) as Hc.
  set (k := (DEV_FUND_V2_START c - DEV_FUND_START c) / DEV_FUND_PERIOD c).
  assert (fund_ok c k) as Hok by (unfold k; destruct Hc as [->|[->| ->]]; by_eval).
  rewrite (dev_fund_sum nt c k n E Hok), (decrease_sum nt c n E) by lia.
  assert (payments c (Z.of_nat n) = DEV_FUND_LENGTH c) as ->.
  { destruct Hok as (HP & _ & _ & _ & _ & _ & HL & _). unfold payments.
    assert (DEV_FUND_LENGTH c <= (Z.of_nat n - DEV_FUND_START c + DEV_FUND_PERIOD c - 1) / DEV_FUND_PERIOD c)
      by (apply Z.div_le_lower_bound; nia). lia. }
  rewrite Z.min_r by lia. unfold k. clear -Hc.
  destruct Hc as [->|[->| ->]]; by_eval.
Qed.

Lemma dev_fund_total_witness :
  sum_heights (dev_fund_output MAINNET) (Z.to_nat 947740)
  = DEV_FUND_LENGTH config_MAINNET * DEV_FUND_V2_INCREASE config_MAINNET
    + DEV_FUND_V2_AMOUNT config_MAINNET.
Proof.
  destruct (dev_fund_total MAINNET config_MAINNET (Z.to_nat 947740)) as [H _];
    [reflexivity|rewrite Z2Nat.id by lia; by_eval|exact H].
Defined.



(** A reward fits its counter, whatever the sizes. *)
Lemma block_reward_fits nt c median size coins height r :
  net_config nt = Some c -> fits 64 height -> get_block_reward nt median size coins height = Some (Reward r) -> fits 64 r.
Proof.
  intros N Hh E. unfold get_block_reward in E. apply bind_Some in E as (base & Eb & E).
  assert (fits 64 base) as Hb.
  { destruct (decide (height = 0)) as [->|Nz]; [injection Eb as <-; by_eval|]. unfold fits in Hh.
    destruct (base_reward_range nt c height coins N ltac:(lia)) as (b & Eb' & Rb). rewrite Eb in Eb'. injection Eb' as ->.
    unfold fits, FINAL_SUBSIDY in *. lia. }
  cbv zeta in E. destruct (_ <? size); [discriminate|]. destruct (size <=? _); [injection E as <-; done|].
  apply bind_Some in E as (u1 & A1%asserted_inv & E). apply bind_Some in E as (u2 & A2%asserted_inv & E).
  set (m := if median <? _ then _ else median) in *.
  assert (u32 m = m /\ 0 < m < 2 ^ 32) as [Em Hm].
  { assert (245760 <= m) by (unfold m; change CRYPTONOTE_BLOCK_GRANTED_FULL_REWARD_ZONE with 245760; destruct (Z.ltb_spec median 245760); lia).
    split; [apply wrap_small; unfold fits|]; lia. }
  rewrite Em in E. clearbody m.
  match type of E with (let '(_, _) := mul128 base ?m in _) = _ =>
    destruct (mul128_fits base m) as [F1 F2]; destruct (mul128 base m) as [lo hi] end.
  destruct (div128_32 hi lo m) as [[h1 l1] r1] eqn:E2. destruct (div128_32_correct hi lo m h1 l1 _ F2 F1 ltac:(lia) E2) as (_ & _ & F3 & F4).
  destruct (div128_32 h1 l1 m) as [[h2 l2] r2] eqn:E3. destruct (div128_32_correct h1 l1 m h2 l2 _ F3 F4 ltac:(lia) E3) as (_ & _ & _ & F5).
  apply bind_Some in E as (_ & _ & E). apply bind_Some in E as (_ & _ & E). injection E as <-. exact F5.
Qed.
End BlockReward.
