(* ===== verification/HardFork.v ===== *)
(** * Hard fork voting

    The class [HardFork] of [src/cryptonote_basic/hardfork.cpp]: the schedule
    of forks, the rolling window of block votes with its counters, and the
    index of the fork in force. The part of the block chain database the class
    uses is its own record; a lookup that throws has no result. *)

From stdpp Require Import gmap.
From S2P Require Import Prelude Config.
Import Config.

Module HardFork.

(** The fields of [cryptonote::block] that voting reads. *)
Record block := { major_version : Z; minor_version : Z }.

(** [BlockchainDB] as far as voting is concerned. *)
Record chain_db := {
  blocks : list block;
  hard_fork_versions : gmap Z Z
}.

Definition db_height (db : chain_db) : Z := Z.of_nat (length (blocks db)).
Definition get_block_from_height (db : chain_db) (h : Z) : option block := aget (blocks db) h.
Definition get_hard_fork_version (db : chain_db) (h : Z) : option Z := hard_fork_versions db !! h.
Definition set_hard_fork_version (db : chain_db) (h v : Z) : chain_db :=
  {| blocks := blocks db; hard_fork_versions := <[h := v]> (hard_fork_versions db) |}.

Record Params := { version : Z; threshold : Z; height : Z; time : Z }.

Inductive State := LikelyForked | UpdateNeeded | Ready.

Record hard_fork := {
  db : chain_db;
  forked_time : Z;
  update_time : Z;
  window_size : Z;
  default_threshold_percent : Z;
  original_version : Z;
  original_version_till_height : Z;
  heights : list Params;
  versions : list Z;        (** votes in the window, oldest first *)
  last_versions : list Z;   (** 256 counters *)
  current_fork_index : nat
}.

Definition with_db (hf : hard_fork) (d : chain_db) : hard_fork :=
  {| db := d; forked_time := forked_time hf; update_time := update_time hf;
     window_size := window_size hf; default_threshold_percent := default_threshold_percent hf;
     original_version := original_version hf;
     original_version_till_height := original_version_till_height hf;
     heights := heights hf; versions := versions hf; last_versions := last_versions hf;
     current_fork_index := current_fork_index hf |}.

Definition with_heights (hf : hard_fork) (hs : list Params) : hard_fork :=
  {| db := db hf; forked_time := forked_time hf; update_time := update_time hf;
     window_size := window_size hf; default_threshold_percent := default_threshold_percent hf;
     original_version := original_version hf;
     original_version_till_height := original_version_till_height hf;
     heights := hs; versions := versions hf; last_versions := last_versions hf;
     current_fork_index := current_fork_index hf |}.

Definition with_votes (hf : hard_fork) (vs lv : list Z) : hard_fork :=
  {| db := db hf; forked_time := forked_time hf; update_time := update_time hf;
     window_size := window_size hf; default_threshold_percent := default_threshold_percent hf;
     original_version := original_version hf;
     original_version_till_height := original_version_till_height hf;
     heights := heights hf; versions := vs; last_versions := lv;
     current_fork_index := current_fork_index hf |}.

Definition with_index (hf : hard_fork) (i : nat) : hard_fork :=
  {| db := db hf; forked_time := forked_time hf; update_time := update_time hf;
     window_size := window_size hf; default_threshold_percent := default_threshold_percent hf;
     original_version := original_version hf;
     original_version_till_height := original_version_till_height hf;
     heights := heights hf; versions := versions hf; last_versions := last_versions hf;
     current_fork_index := i |}.

(** The constructor; [None] where it throws. *)
Definition make (d : chain_db) (original_version original_version_till_height forked_time
    update_time window_size default_threshold_percent : Z) : option hard_fork :=
  if window_size =? 0 then None
  else if 100 <? default_threshold_percent then None
  else Some {| db := d; forked_time := forked_time; update_time := update_time;
     window_size := window_size; default_threshold_percent := default_threshold_percent;
     original_version := original_version;
     original_version_till_height := original_version_till_height;
     heights := []; versions := []; last_versions := replicate 256 0;
     current_fork_index := 0 |}.

Definition get_block_vote (b : block) : Z :=
  if minor_version b =? 0 then 1 else minor_version b.

Definition get_block_version (b : block) : Z := major_version b.

Definition add_fork (hf : hard_fork) (v h thr t : Z) : bool * hard_fork :=
  if v =? 0 then (false, hf)
  else if match last (heights hf) with
          | Some b => (v <=? version b) || (h <=? height b) || (t <=? time b)
          | None => false
          end
  then (false, hf)
  else if 100 <? thr then (false, hf)
  else (true, with_heights hf
          (heights hf ++ [{| version := v; threshold := thr; height := h; time := t |}])).

Definition get_effective_version (hf : hard_fork) (voting_version : Z) : Z :=
  match last (heights hf) with
  | Some b => if version b <? voting_version then version b else voting_version
  | None => voting_version
  end.

(** [heights[current_fork_index].version]. *)
Definition get_current_version_num (hf : hard_fork) : option Z :=
  version <$> heights hf !! current_fork_index hf.

Definition do_check (hf : hard_fork) (block_version voting_version : Z) : option bool :=
  v ← get_current_version_num hf;
  Some ((block_version =? v) && (v <=? voting_version)).

Definition check (hf : hard_fork) (b : block) : option bool :=
  do_check hf (get_block_version b) (get_block_vote b).

(** The loop of [get_voted_fork_index] from [n] down to [current_fork_index + 1]. *)
Fixpoint voted_loop (hf : hard_fork) (h : Z) (n : nat) (accumulated_votes : Z) : option nat :=
  if (n <=? current_fork_index hf)%nat then Some (current_fork_index hf)
  else
    p ← heights hf !! n;
    votes ← aget (last_versions hf) (version p);
    let accumulated_votes := u32 (accumulated_votes + votes) in
    let threshold := u32 (u64 (u64 (window_size hf * threshold p) + 99) / 100) in
    if (height p <=? h) && (threshold <=? accumulated_votes) then Some n
    else match n with
         | O => Some (current_fork_index hf)
         | S n' => voted_loop hf h n' accumulated_votes
         end.

(** [heights] has an entry whenever this runs; with none the source's index
    would wrap around. *)
Definition get_voted_fork_index (hf : hard_fork) (h : Z) : option nat :=
  match heights hf with
  | [] => None
  | _ => voted_loop hf h (length (heights hf) - 1) 0
  end.

Definition do_check_for_height (hf : hard_fork) (block_version voting_version h : Z) : option bool :=
  fork_index ← get_voted_fork_index hf h;
  p ← heights hf !! fork_index;
  Some ((block_version =? version p) && (version p <=? voting_version)).

Definition check_for_height (hf : hard_fork) (b : block) (h : Z) : option bool :=
  do_check_for_height hf (get_block_version b) (get_block_vote b) h.

Definition count_up (lv : list Z) (v : Z) : list Z := alter (fun n => u32 (n + 1)) (Z.to_nat v) lv.
Definition count_down (lv : list Z) (v : Z) : list Z := alter (fun n => u32 (n - 1)) (Z.to_nat v) lv.

(** [while(versions.size() >= window_size)]: forget the oldest votes; [None] when
    the assert that they were counted fails. *)
Fixpoint expire (w : Z) (vs lv : list Z) : option (list Z * list Z) :=
  match vs with
  | old_version :: vs' =>
      if w <=? Z.of_nat (length vs) then
        n ← aget lv old_version;
        _ ← asserted (1 <=? n);
        expire w vs' (count_down lv old_version)
      else Some (vs, lv)
  | [] => Some (vs, lv)
  end.

(** [if(voted > current_fork_index) current_fork_index = voted;] after a call of
    [get_voted_fork_index]; the result passes through a [uint8_t]. *)
Definition advance (hf : hard_fork) (h : Z) : option hard_fork :=
  voted ← get_voted_fork_index hf h;
  let voted := Z.to_nat (u8 (Z.of_nat voted)) in
  Some (if (current_fork_index hf <? voted)%nat then with_index hf voted else hf).

Definition add_votes (hf : hard_fork) (block_version voting_version h : Z) : option (bool * hard_fork) :=
  ok ← do_check hf block_version voting_version;
  if negb ok then Some (false, hf)
  else
    v ← get_current_version_num hf;
    let hf := with_db hf (set_hard_fork_version (db hf) h v) in
    let voting_version := get_effective_version hf voting_version in
    '(vs, lv) ← expire (window_size hf) (versions hf) (last_versions hf);
    let hf := with_votes hf (vs ++ [voting_version]) (count_up lv voting_version) in
    hf ← advance hf (h + 1);
    Some (true, hf).

Definition add (hf : hard_fork) (b : block) (h : Z) : option (bool * hard_fork) :=
  add_votes hf (get_block_version b) (get_block_vote b) h.


(** ** Rebuilding the state from the chain *)

(** [versions.clear()] and the loop that zeroes [last_versions]. *)
Definition clear_votes (hf : hard_fork) : hard_fork := with_votes hf [] (replicate 256 0).

(** Count the votes of the blocks at the given heights. *)
Fixpoint scan (hf : hard_fork) (hs : list Z) : option hard_fork :=
  match hs with
  | [] => Some hf
  | h :: hs =>
      b ← get_block_from_height (db hf) h;
      let v := get_effective_version hf (get_block_vote b) in
      scan (with_votes hf (versions hf ++ [v]) (count_up (last_versions hf) v)) hs
  end.

(** The last loop of [reorganize_from_block_height]; results of [add] are dropped. *)
Fixpoint add_all (hf : hard_fork) (hs : list Z) : option hard_fork :=
  match hs with
  | [] => Some hf
  | h :: hs =>
      b ← get_block_from_height (db hf) h;
      '(_, hf) ← add hf b h;
      add_all hf hs
  end.

(** [while(current_fork_index > 0 && heights[current_fork_index].version > start_version)]. *)
Fixpoint step_back (hs : list Params) (start_version : Z) (i : nat) : option nat :=
  match i with
  | O => Some O
  | S j =>
      p ← hs !! i;
      if start_version <? version p then step_back hs start_version j else Some i
  end.

Definition reorganize_from_block_height (hf : hard_fork) (h : Z) : option (bool * hard_fork) :=
  if db_height (db hf) <=? h then Some (false, hf)
  else
    let hf := clear_votes hf in
    let w1 := u64 (window_size hf - 1) in
    let rescan_height := if w1 <=? h then h - w1 else 0 in
    start_version ← (if h =? 0 then Some (original_version hf) else get_hard_fork_version (db hf) h);
    i ← step_back (heights hf) start_version (current_fork_index hf);
    hf ← scan (with_index hf i) (seqZ rescan_height (h + 1 - rescan_height));
    hf ← advance hf (h + 1);
    hf ← add_all hf (seqZ (h + 1) (db_height (db hf) - (h + 1)));
    Some (true, hf).

Definition reorganize_from_chain_height (hf : hard_fork) (h : Z) : option (bool * hard_fork) :=
  if h =? 0 then Some (false, hf) else reorganize_from_block_height hf (h - 1).

(** The first index whose version is [lastv], or the last index. *)
Fixpoint find_version (hs : list Params) (lastv : Z) : nat :=
  match hs with
  | [] | [_] => O
  | p :: hs => if version p =? lastv then O else S (find_version hs lastv)
  end.

Definition rescan_from_block_height (hf : hard_fork) (h : Z) : option (bool * hard_fork) :=
  if db_height (db hf) <=? h then Some (false, hf)
  else
    let hf := clear_votes hf in
    hf ← scan hf (seqZ h (db_height (db hf) - h));
    lastv ← get_hard_fork_version (db hf) (db_height (db hf) - 1);
    let hf := with_index hf (find_version (heights hf) lastv) in
    hf ← advance hf (db_height (db hf));
    Some (true, hf).

Definition rescan_from_chain_height (hf : hard_fork) (h : Z) : option (bool * hard_fork) :=
  if h =? 0 then Some (false, hf) else rescan_from_block_height hf (h - 1).

Definition init (hf : hard_fork) : option hard_fork :=
  let hf := match heights hf with
            | [] => with_heights hf [{| version := original_version hf; threshold := 0;
                                        height := 0; time := 0 |}]
            | _ => hf
            end in
  let hf := with_index (clear_votes hf) 0 in
  let h := db_height (db hf) in
  let h := if window_size hf <? h then h - (window_size hf - 1) else 1 in
  match get_hard_fork_version (db hf) 0 with
  | None =>
      '(_, hf) ← reorganize_from_chain_height hf 1;
      Some (with_db hf (set_hard_fork_version (db hf) 0 (original_version hf)))
  | Some _ =>
      '(_, hf) ← rescan_from_chain_height hf h;
      Some hf
  end.

(** ** Queries *)

Definition get_state (hf : hard_fork) (t : Z) : State :=
  match last (heights hf) with
  | Some b =>
      if (length (heights hf) <=? 1)%nat then Ready
      else if time b + forked_time hf <=? t then LikelyForked
      else if time b + update_time hf <=? t then UpdateNeeded
      else Ready
  | None => Ready
  end.

(** [None] above the height of the chain, where the assert fails. *)
Definition get (hf : hard_fork) (h : Z) : option Z :=
  if db_height (db hf) <? h then None
  else if h =? db_height (db hf) then get_current_version_num hf
  else get_hard_fork_version (db hf) h.

Definition get_ideal_version_last (hf : hard_fork) : option Z := version <$> last (heights hf).

(** The loop of [get_ideal_version(height)] from index [n] down to 1. *)
Fixpoint ideal_loop (hf : hard_fork) (h : Z) (n : nat) : option Z :=
  match n with
  | O => Some (original_version hf)
  | S n' =>
      p ← heights hf !! n;
      if height p <=? h then Some (version p) else ideal_loop hf h n'
  end.

Definition get_ideal_version (hf : hard_fork) (h : Z) : option Z :=
  ideal_loop hf h (length (heights hf) - 1).

Definition get_height_for_version (hf : hard_fork) (v : Z) : Z :=
  match List.find (fun p => version p =? v) (heights hf) with
  | Some p => height p
  | None => 2 ^ 64 - 1
  end.

Fixpoint next_loop (hf : hard_fork) (h : Z) (n : nat) : option Z :=
  match n with
  | O => Some (original_version hf)
  | S n' =>
      p ← heights hf !! n;
      if height p <=? h then
        version <$> heights hf !! (if n <? length (heights hf) - 1 then n + 1 else n)%nat
      else next_loop hf h n'
  end.

Definition get_next_version (hf : hard_fork) : option Z :=
  next_loop hf (db_height (db hf)) (length (heights hf) - 1).

(** The outputs of [get_voting_info]. *)
Record voting_info := {
  enabled : bool; window : Z; votes : Z; needed : Z; earliest_height : Z; voting : Z
}.

Definition get_voting_info (hf : hard_fork) (v : Z) : option voting_info :=
  p ← heights hf !! current_fork_index hf;
  b ← last (heights hf);
  let window := u32 (Z.of_nat (length (versions hf))) in
  Some {| enabled := v <=? version p;
          window := window;
          votes := foldl (fun n c => u32 (n + c)) 0 (drop (Z.to_nat v) (last_versions hf));
          needed := u32 (u32 (window * threshold p) + 99) / 100;
          earliest_height := get_height_for_version hf v;
          voting := version b |}.


(** ** The schedules of the networks

    The tables and the set-up code of [Blockchain::init]
    ([src/cryptonote_core/blockchain.cpp]). *)

Definition DEFAULT_FORKED_TIME : Z := 31557600.
Definition DEFAULT_UPDATE_TIME : Z := 31557600 / 2.
Definition DEFAULT_WINDOW_SIZE : Z := 10080.
Definition DEFAULT_THRESHOLD_PERCENT : Z := 80.

Definition fork_entry (v h thr t : Z) : Params :=
  {| version := v; threshold := thr; height := h; time := t |}.

Definition mainnet_hard_forks : list Params := [
  fork_entry 1 1 0 1482806500; fork_entry 2 21300 0 1497657600;
  fork_entry 3 116520 0 1522800000; fork_entry 4 150000 0 1530967408;
  fork_entry 5 161500 0 1533767730; fork_entry 6 228750 0 1550067000;
  fork_entry 7 228870 0 1550095800; fork_entry 8 362000 0 1583250000;
  fork_entry 9 388000 0 1589684782
].

Definition testnet_hard_forks : list Params := [
  fork_entry 1 1 0 1482806500; fork_entry 2 5150 0 1497181713;
  fork_entry 3 103580 0 1522540800; fork_entry 4 123575 0 1529873000;
  fork_entry 5 129750 0 1532782050; fork_entry 6 130425 0 1532868450;
  fork_entry 7 159180 0 1542300607; fork_entry 8 162815 0 1543265893;
  fork_entry 9 182750 0 1548096165; fork_entry 10 283000 0 1587479648
].

Definition stagenet_hard_forks : list Params := [
  fork_entry 1 1 0 1482806500; fork_entry 2 5150 0 1497181713;
  fork_entry 3 103580 0 1522540800
].

(** [FAKECHAIN] takes its forks from the test options. *)
Definition network_forks (nt : network_type) (test_forks : list Params) : list Params :=
  match nt with
  | FAKECHAIN => test_forks
  | TESTNET => testnet_hard_forks
  | STAGENET => stagenet_hard_forks
  | _ => mainnet_hard_forks
  end.

Definition network_till (nt : network_type) : Z :=
  match nt with FAKECHAIN | STAGENET => 0 | _ => 2 ^ 64 - 1 end.

Definition load_forks (hf : hard_fork) (fs : list Params) : hard_fork :=
  foldl (fun hf p => (add_fork hf (version p) (height p) (threshold p) (time p)).2) hf fs.

Definition network_hard_fork (nt : network_type) (test_forks : list Params) (d : chain_db)
    : option hard_fork :=
  hf ← make d 1 (network_till nt) DEFAULT_FORKED_TIME DEFAULT_UPDATE_TIME
            DEFAULT_WINDOW_SIZE DEFAULT_THRESHOLD_PERCENT;
  init (load_forks hf (network_forks nt test_forks)).

(** ** The vote counters *)

(** How many votes of the window are for one of the versions [ts]. *)
Definition tally (vs ts : list Z) : Z := Z.of_nat (length (filter (fun v => v ∈ ts) vs)).

(** Counter [v] holds the number of votes for version [v]. *)
Definition counts_ok (vs lv : list Z) : Prop :=
  length lv = 256%nat /\ Forall (fits 8) vs /\
  forall v, fits 8 v -> aget lv v = Some (tally vs [v]).

Lemma tally_bound vs ts : 0 <= tally vs ts <= Z.of_nat (length vs).
Proof. unfold tally. pose proof (length_filter (fun v => v ∈ ts) vs). lia. Qed.

Lemma tally_app vs ws ts : tally (vs ++ ws) ts = tally vs ts + tally ws ts.
Proof. unfold tally. rewrite filter_app, length_app. lia. Qed.

Lemma tally_one x ts : tally [x] ts = if decide (x ∈ ts) then 1 else 0.
Proof. unfold tally. rewrite filter_cons. by case_decide. Qed.

Lemma tally_cons_votes x vs ts : tally (x :: vs) ts = tally [x] ts + tally vs ts.
Proof. apply (tally_app [x]). Qed.

Lemma tally_nil vs : tally vs [] = 0.
Proof.
  induction vs as [|x vs IH]; [done|]. rewrite tally_cons_votes, tally_one, IH.
  by rewrite decide_False by apply not_elem_of_nil.
Qed.

(** Versions of different forks are counted separately. *)
Lemma tally_cons_version vs t ts : t ∉ ts -> tally vs (t :: ts) = tally vs [t] + tally vs ts.
Proof.
  intros Ht. induction vs as [|x vs IH]; [done|].
  rewrite !(tally_cons_votes x vs), IH, !tally_one.
  destruct (decide (x = t)) as [->|Hx].
  - rewrite (decide_True (P := t ∈ t :: ts)) by left.
    rewrite (decide_True (P := t ∈ [t])) by left. rewrite decide_False by done. lia.
  - rewrite (decide_False (P := x ∈ [t])) by (by rewrite list_elem_of_singleton).
    rewrite (decide_ext (x ∈ t :: ts) (x ∈ ts)) by (rewrite elem_of_cons; tauto). lia.
Qed.

Lemma aget_lt {A} (l : list A) i x : aget l i = Some x -> 0 <= i < Z.of_nat (length l).
Proof.
  unfold aget. case_decide; [|done]. intros Hl%lookup_lt_Some. lia.
Qed.

Lemma aget_alter {A} (f : A -> A) (l : list A) i j :
  0 <= i -> aget (alter f (Z.to_nat i) l) j = if decide (i = j) then f <$> aget l j else aget l j.
Proof.
  intros Hi. unfold aget. destruct (decide (0 <= j)).
  - case_decide; [subst; by rewrite list_lookup_alter_eq|]. by rewrite list_lookup_alter_ne by lia.
  - case_decide; [lia|done].
Qed.

Lemma counts_ok_nil : counts_ok [] (replicate 256 0).
Proof.
  split_and!; [done|by constructor|]. intros v [Hv Hv']. unfold aget.
  rewrite decide_True by done. rewrite lookup_replicate_2 by lia. done.
Qed.

Lemma counts_ok_push vs lv v :
  counts_ok vs lv -> fits 8 v -> Z.of_nat (length vs) < 2 ^ 32 - 1 ->
  counts_ok (vs ++ [v]) (count_up lv v).
Proof.
  intros (Hl & Hvs & Hc) Hv Hlen. unfold count_up. split_and!.
  - by rewrite length_alter.
  - apply Forall_app; auto.
  - intros x Hx. rewrite aget_alter by (unfold fits in *; lia). rewrite (Hc x Hx).
    rewrite tally_app, tally_one. pose proof (tally_bound vs [x]).
    destruct (decide (v = x)) as [->|Hne].
    + cbn [fmap option_fmap option_map]. rewrite decide_True by (by rewrite list_elem_of_singleton).
      by rewrite wrap_small by (unfold fits; lia).
    + rewrite decide_False by (by rewrite list_elem_of_singleton). f_equal. lia.
Qed.

Lemma counts_ok_pop vs lv v :
  counts_ok (v :: vs) lv -> Z.of_nat (length vs) < 2 ^ 32 -> counts_ok vs (count_down lv v).
Proof.
  intros (Hl & [Hv Hvs]%Forall_cons & Hc) Hlen. unfold count_down. split_and!.
  - by rewrite length_alter.
  - done.
  - intros x Hx. rewrite aget_alter by (unfold fits in *; lia). rewrite (Hc x Hx).
    rewrite tally_cons_votes, tally_one. pose proof (tally_bound vs [x]).
    destruct (decide (v = x)) as [->|Hne].
    + cbn [fmap option_fmap option_map]. rewrite decide_True by (by rewrite list_elem_of_singleton).
      rewrite wrap_small by (unfold fits; lia). f_equal. lia.
    + rewrite decide_False by (by rewrite list_elem_of_singleton). f_equal.
Qed.

(** The last [n] entries. *)
Definition lastn {A} (n : nat) (l : list A) : list A := drop (length l - n) l.

Lemma length_lastn {A} n (l : list A) : length (lastn n l) = (n `min` length l)%nat.
Proof. unfold lastn. rewrite length_drop. lia. Qed.

Lemma lastn_all {A} n (l : list A) : (length l <= n)%nat -> lastn n l = l.
Proof. intros. unfold lastn. by rewrite (proj2 (Nat.sub_0_le _ _)). Qed.

Lemma lastn_snoc {A} n (l : list A) x : lastn (S n) (lastn (S n) l ++ [x]) = lastn (S n) (l ++ [x]).
Proof.
  unfold lastn. rewrite !length_app, length_drop. cbn [length].
  rewrite !drop_app_le by (rewrite ?length_drop; lia). rewrite drop_drop. do 2 f_equal. lia.
Qed.

Lemma lastn_snoc_pop {A} n (l : list A) x : lastn n l ++ [x] = lastn (S n) (l ++ [x]).
Proof.
  unfold lastn. rewrite length_app. cbn [length].
  rewrite drop_app_le by lia. do 2 f_equal. lia.
Qed.

Lemma expire_spec w vs lv :
  0 < w < 2 ^ 32 -> counts_ok vs lv -> Z.of_nat (length vs) < 2 ^ 32 ->
  exists lv', expire w vs lv = Some (lastn (Z.to_nat (w - 1)) vs, lv') /\
    counts_ok (lastn (Z.to_nat (w - 1)) vs) lv'.
Proof.
  intros Hw. revert lv. induction vs as [|v vs IH]; intros lv Hc Hlen; cbn [expire].
  - by exists lv.
  - cbn [length] in *. destruct (Z.leb_spec w (Z.of_nat (S (length vs)))).
    + pose proof Hc as (_ & [Hv _]%Forall_cons & Hn). rewrite (Hn v Hv). cbn [mbind option_bind].
      pose proof (tally_bound vs [v]). rewrite asserted_true.
      2: { rewrite tally_cons_votes, tally_one, decide_True by (by rewrite list_elem_of_singleton). lia. }
      cbn [mbind option_bind].
      destruct (IH (count_down lv v)) as (lv' & E & Hc'); [by apply counts_ok_pop; [|lia]|lia|].
      exists lv'. assert (lastn (Z.to_nat (w - 1)) (v :: vs) = lastn (Z.to_nat (w - 1)) vs) as ->; [|done].
      unfold lastn. cbn [length].
      by replace (S (length vs) - Z.to_nat (w - 1))%nat with (S (length vs - Z.to_nat (w - 1))) by lia.
    + exists lv. rewrite lastn_all by (cbn [length]; lia). done.
Qed.


(** ** The schedule and the vote *)

(** Forks in order, with byte versions and thresholds in percent. *)
Definition schedule_ok (hs : list Params) : Prop :=
  hs <> [] /\
  (forall i p, hs !! i = Some p -> fits 8 (version p) /\ 0 <= threshold p <= 100) /\
  (forall i j p q, (i < j)%nat -> hs !! i = Some p -> hs !! j = Some q ->
     version p < version q /\ height p < height q).

(** The class invariant. *)
Definition wf (hf : hard_fork) : Prop :=
  schedule_ok (heights hf) /\ (current_fork_index hf < length (heights hf))%nat /\
  0 < window_size hf < 2 ^ 32 /\ Z.of_nat (length (versions hf)) <= window_size hf /\
  counts_ok (versions hf) (last_versions hf).

(** Strictly increasing bytes: at most 256 forks. *)
Lemma schedule_length hs : schedule_ok hs -> (length hs <= 256)%nat.
Proof.
  intros (_ & Hr & Ho).
  assert (forall i p, hs !! i = Some p -> Z.of_nat i <= version p) as G.
  { induction i as [|i IH]; intros p Hp.
    - apply Hr in Hp as [[? _] _]. lia.
    - destruct (lookup_lt_is_Some_2 hs i) as [q Hq]; [apply lookup_lt_Some in Hp; lia|].
      pose proof (IH q Hq). pose proof (Ho i (S i) q p ltac:(lia) Hq Hp). lia. }
  destruct (decide (length hs = 0%nat)); [lia|].
  destruct (lookup_lt_is_Some_2 hs (length hs - 1)) as [p Hp]; [lia|].
  pose proof (G _ _ Hp). apply Hr in Hp as [[_ ?] _]. lia.
Qed.

(** Votes a fork needs, and whether fork [n] is voted in for height [h]. *)
Definition votes_needed (hf : hard_fork) (p : Params) : Z :=
  (window_size hf * threshold p + 99) / 100.

Definition votes_for (hf : hard_fork) (n : nat) : Z :=
  tally (versions hf) (version <$> drop n (heights hf)).

Definition passes (hf : hard_fork) (h : Z) (n : nat) : Prop :=
  exists p, heights hf !! n = Some p /\ height p <= h /\ votes_needed hf p <= votes_for hf n.

Lemma votes_for_step hf n p :
  wf hf -> heights hf !! n = Some p ->
  votes_for hf n = tally (versions hf) [version p] + votes_for hf (S n).
Proof.
  intros ((_ & _ & Ho) & _) Hp. unfold votes_for. rewrite (drop_S _ p) by done.
  rewrite fmap_cons. apply tally_cons_version.
  intros (q & Eq & Hq)%list_elem_of_fmap. apply list_elem_of_lookup in Hq as [j Hj].
  rewrite lookup_drop in Hj. pose proof (Ho n (S n + j)%nat p q ltac:(lia) Hp Hj). lia.
Qed.

(** The loop finds the latest fork that passes. *)
Lemma voted_loop_spec hf h n acc :
  wf hf -> (n < length (heights hf))%nat -> acc = votes_for hf (S n) ->
  exists r, voted_loop hf h n acc = Some r /\
    (current_fork_index hf <= r < length (heights hf))%nat /\
    (current_fork_index hf < r -> passes hf h r)%nat /\
    (forall m, (r < m <= n)%nat -> ~ passes hf h m).
Proof.
  intros Hwf. pose proof Hwf as ((_ & Hr & _) & Hi & Hw & Hlen & (_ & _ & Hc)).
  revert acc. induction n as [|n IH]; intros acc Hn ->; cbn [voted_loop].
  all: destruct (Nat.leb_spec (S n) (current_fork_index hf)) || destruct (Nat.leb_spec 0 (current_fork_index hf)).
  1: exists (current_fork_index hf); split_and!; [done|lia..|intros; lia].
  1: lia.
  - exists (current_fork_index hf). split_and!; [done|lia..|]. intros m Hm. lia.
  - destruct (lookup_lt_is_Some_2 (heights hf) (S n)) as [p Hp]; [lia|]. rewrite Hp.
    cbn [mbind option_bind]. destruct (Hr _ _ Hp) as [Hv Ht]. rewrite (Hc _ Hv).
    cbn [mbind option_bind]. pose proof (votes_for_step hf (S n) p Hwf Hp) as Hstep.
    pose proof (tally_bound (versions hf) (version <$> drop (S n) (heights hf))) as Hb.
    fold (votes_for hf (S n)) in Hb.
    rewrite (wrap_small 32 (_ + tally _ _)) by (unfold fits; lia).
    rewrite (wrap_small 64 (_ * _)) by (unfold fits; nia).
    rewrite (wrap_small 64 (_ + 99)) by (unfold fits; nia). fold (votes_needed hf p).
    assert (0 <= votes_needed hf p <= window_size hf) as Hneed.
    { unfold votes_needed. split; [apply Z.div_pos; nia|]. apply Z.lt_succ_r, Z.div_lt_upper_bound; nia. }
    rewrite (wrap_small 32 (votes_needed hf p)) by (unfold fits; lia).
    replace (votes_for hf (S (S n)) + tally (versions hf) [version p]) with (votes_for hf (S n)) by lia.
    destruct (Z.leb_spec (height p) h), (Z.leb_spec (votes_needed hf p) (votes_for hf (S n)));
      cbn [andb]; [exists (S n); split_and!; [done|lia|lia|by exists p|intros; lia]|..].
    all: destruct (IH (votes_for hf (S n))) as (r & -> & R1 & R2 & R3); [lia|done|].
    all: exists r; split_and!; [done|lia|lia|done|]; intros m Hm.
    all: destruct (decide (m = S n)) as [->|]; [|apply R3; lia].
    all: intros (q & Hq & Hq1 & Hq2); simplify_eq; lia.
Qed.

Lemma voted_index_spec hf h :
  wf hf ->
  exists r, get_voted_fork_index hf h = Some r /\
    (current_fork_index hf <= r < length (heights hf))%nat /\
    (current_fork_index hf < r -> passes hf h r)%nat /\
    (forall m, (r < m)%nat -> ~ passes hf h m).
Proof.
  intros Hwf. pose proof Hwf as ((Hne & _) & Hi & _).
  unfold get_voted_fork_index. destruct (heights hf) eqn:E; [done|]. rewrite <- E in *.
  destruct (voted_loop_spec hf h (length (heights hf) - 1) 0) as (r & Hr & R1 & R2 & R3); [done|lia| |].
  - unfold votes_for. rewrite drop_ge by lia. by rewrite tally_nil.
  - exists r. split_and!; [done|lia|lia|done|]. intros m Hm Hp.
    pose proof Hp as (q & Hlk%lookup_lt_Some & _). apply (R3 m); [lia|done].
Qed.


Lemma advance_spec hf h :
  wf hf ->
  exists r, advance hf h = Some (with_index hf r) /\
    (current_fork_index hf <= r < length (heights hf))%nat /\
    (current_fork_index hf < r -> passes hf h r)%nat /\
    (forall m, (r < m)%nat -> ~ passes hf h m).
Proof.
  intros Hwf. destruct (voted_index_spec hf h Hwf) as (r & Hr & R1 & R2 & R3).
  exists r. split_and!; [|lia|lia|done|done]. unfold advance. rewrite Hr. cbn [mbind option_bind].
  pose proof (schedule_length (heights hf) (proj1 Hwf)).
  rewrite wrap_small by (unfold fits; lia). rewrite Nat2Z.id.
  destruct (Nat.ltb_spec (current_fork_index hf) r); [done|].
  replace r with (current_fork_index hf) by lia. by destruct hf.
Qed.

Lemma wf_with_index hf r : wf hf -> (r < length (heights hf))%nat -> wf (with_index hf r).
Proof. intros (Hs & _ & Hrest) Hr. exact (conj Hs (conj Hr Hrest)). Qed.

Lemma last_lookup_schedule hs : schedule_ok hs -> exists p, last hs = Some p /\ hs !! (length hs - 1)%nat = Some p.
Proof.
  intros (Hne & _). destruct (last hs) as [p|] eqn:E; [|by apply last_None in E].
  exists p. split; [done|]. rewrite last_lookup in E. by replace (length hs - 1)%nat with (pred (length hs)) by lia.
Qed.

Lemma effective_fits hf v : wf hf -> fits 8 v -> fits 8 (get_effective_version hf v).
Proof.
  intros (Hs & _) Hv. unfold get_effective_version.
  destruct (last_lookup_schedule _ Hs) as (p & -> & Hp).
  destruct Hs as (_ & Hr & _). destruct (Hr _ _ Hp) as [Hb _].
  unfold fits in *. destruct (Z.ltb_spec (version p) v); lia.
Qed.

(** A vote for the current version or above stays one after capping. *)
Lemma effective_ge hf v c :
  wf hf -> get_current_version_num hf = Some c -> c <= v -> c <= get_effective_version hf v.
Proof.
  intros (Hs & Hi & _) Hc Hv. unfold get_effective_version, get_current_version_num in *.
  destruct (last_lookup_schedule _ Hs) as (p & -> & Hp).
  apply fmap_Some in Hc as (q & Hq & ->). destruct Hs as (_ & _ & Ho).
  destruct (Z.ltb_spec (version p) v); [|done].
  destruct (decide (current_fork_index hf = length (heights hf) - 1)%nat) as [E|E].
  - rewrite E, Hp in Hq. simplify_eq. lia.
  - pose proof (Ho (current_fork_index hf) (length (heights hf) - 1)%nat _ _ ltac:(lia) Hq Hp). lia.
Qed.

Lemma current_version_defined hf : wf hf -> exists c, get_current_version_num hf = Some c /\ fits 8 c.
Proof.
  intros ((_ & Hr & _) & Hi & _). unfold get_current_version_num.
  destruct (lookup_lt_is_Some_2 _ _ Hi) as [p Hp]. rewrite Hp. exists (version p).
  split; [done|]. by destruct (Hr _ _ Hp).
Qed.

(** The state in which [add] evaluates the vote. *)
Definition voted_state (hf : hard_fork) (vote c h : Z) (lv : list Z) : hard_fork :=
  with_votes (with_db hf (set_hard_fork_version (db hf) h c))
    (lastn (Z.to_nat (window_size hf)) (versions hf ++ [get_effective_version hf vote])) lv.

Lemma add_votes_accept hf v vote h :
  wf hf -> fits 8 vote -> get_current_version_num hf = Some v -> v <= vote ->
  exists lv r,
    let hf1 := voted_state hf vote v h lv in
    wf hf1 /\ add_votes hf v vote h = Some (true, with_index hf1 r) /\
    (current_fork_index hf <= r < length (heights hf))%nat /\
    (current_fork_index hf < r -> passes hf1 (h + 1) r)%nat /\
    (forall m, (r < m)%nat -> ~ passes hf1 (h + 1) m).
Proof.
  intros Hwf Hvote Hv Hle. pose proof Hwf as (Hs & Hi & Hw & Hlen & Hc).
  destruct (expire_spec (window_size hf) (versions hf) (last_versions hf) Hw Hc ltac:(lia))
    as (lv & Ee & Hc'). set (vs := lastn _ _) in *.
  assert (length vs <= Z.to_nat (window_size hf - 1))%nat as Hvs by (unfold vs; rewrite length_lastn; lia).
  set (e := get_effective_version hf vote).
  assert (vs ++ [e] = lastn (Z.to_nat (window_size hf)) (versions hf ++ [e])) as Ewin.
  { unfold vs. rewrite lastn_snoc_pop. f_equal. lia. }
  assert (wf (voted_state hf vote v h (count_up lv e))) as Hwf1.
  { split; [exact Hs|]. split; [exact Hi|]. split; [exact Hw|].
    unfold voted_state. cbn [with_votes versions last_versions window_size with_db]. fold e.
    rewrite <- Ewin. split.
    - rewrite length_app. cbn [length]. lia.
    - apply counts_ok_push; [done|by apply effective_fits|lia]. }
  destruct (advance_spec _ (h + 1) Hwf1) as (r & Ha & R1 & R2 & R3).
  exists (count_up lv e), r. split; [exact Hwf1|]. split; [|by split].
  unfold add_votes, do_check. rewrite Hv. cbn [mbind option_bind].
  rewrite Z.eqb_refl, (proj2 (Z.leb_le _ _)) by done. cbn [andb negb].
  change (window_size (with_db hf _)) with (window_size hf).
  change (versions (with_db hf _)) with (versions hf).
  change (last_versions (with_db hf _)) with (last_versions hf).
  change (get_effective_version (with_db hf _) vote) with e. rewrite Ee.
  unfold voted_state in Ha. fold e in Ha. rewrite <- Ewin in Ha.
  unfold voted_state. fold e. rewrite <- Ewin. cbv beta iota zeta.
  cbn [mbind option_bind]. rewrite Ha. done.
Qed.

Lemma add_votes_reject hf v vote h c :
  get_current_version_num hf = Some c -> ~ (v = c /\ c <= vote) ->
  add_votes hf v vote h = Some (false, hf).
Proof.
  intros Hc Hn. unfold add_votes, do_check. rewrite Hc. cbn [mbind option_bind].
  destruct (Z.eqb_spec v c), (Z.leb_spec c vote); cbn [andb negb]; try done. exfalso. auto.
Qed.


(** ** The window as a function of the chain *)

(** Votes of blocks after capping at the last scheduled version. *)
Definition chain_votes (hf : hard_fork) (bs : list block) : list Z :=
  (fun b => get_effective_version hf (get_block_vote b)) <$> bs.

(** The window holds the votes of the last [window_size] of the first [k] blocks. *)
Definition tracks (hf : hard_fork) (k : nat) : Prop :=
  versions hf = lastn (Z.to_nat (window_size hf)) (chain_votes hf (take k (blocks (db hf)))).

Definition block_ok (b : block) : Prop := fits 8 (minor_version b) /\ fits 8 (major_version b).

Lemma block_vote_fits b : block_ok b -> fits 8 (get_block_vote b).
Proof. intros [? _]. unfold get_block_vote. by case_match. Qed.

Lemma chain_votes_app hf bs cs : chain_votes hf (bs ++ cs) = chain_votes hf bs ++ chain_votes hf cs.
Proof. apply fmap_app. Qed.

Lemma scan_spec hf (a n : nat) :
  counts_ok (versions hf) (last_versions hf) -> schedule_ok (heights hf) ->
  Forall block_ok (blocks (db hf)) -> (a + n <= length (blocks (db hf)))%nat ->
  Z.of_nat (length (versions hf) + n) < 2 ^ 32 ->
  exists lv, let vs := versions hf ++ chain_votes hf (take n (drop a (blocks (db hf)))) in
    scan hf (seqZ (Z.of_nat a) (Z.of_nat n)) = Some (with_votes hf vs lv) /\ counts_ok vs lv.
Proof.
  revert hf a. induction n as [|n IH]; intros hf a Hc Hs Hb Han Hlen.
  - exists (last_versions hf). cbn. rewrite app_nil_r. split; [by destruct hf|done].
  - rewrite seqZ_cons by lia. cbn [scan]. unfold get_block_from_height. rewrite aget_nat.
    destruct (lookup_lt_is_Some_2 (blocks (db hf)) a) as [b Eb]; [lia|]. rewrite Eb. cbn [mbind option_bind].
    set (v := get_effective_version hf (get_block_vote b)).
    set (hf1 := with_votes hf (versions hf ++ [v]) (count_up (last_versions hf) v)).
    assert (fits 8 v) as Hv.
    { unfold v, get_effective_version. pose proof (block_vote_fits b (Forall_lookup_1 _ _ _ _ Hb Eb)) as Hf.
      destruct (last_lookup_schedule _ Hs) as (p & -> & Hp). destruct Hs as (_ & Hr & _).
      destruct (Hr _ _ Hp) as [Hpv _]. unfold fits in *. destruct (Z.ltb_spec (version p) (get_block_vote b)); lia. }
    destruct (IH hf1 (S a)) as (lv & E & Hcl).
    + apply (counts_ok_push (versions hf) (last_versions hf) v); [exact Hc|exact Hv|lia].
    + done.
    + done.
    + cbn [hf1 with_votes db]. lia.
    + cbn [hf1 with_votes versions]. rewrite length_app. cbn [length]. lia.
    + exists lv. replace (Z.succ (Z.of_nat a)) with (Z.of_nat (S a)) by lia.
      replace (Z.pred (Z.of_nat (S n))) with (Z.of_nat n) by lia. rewrite E.
      rewrite (drop_S (blocks (db hf)) b a) by done. cbn [firstn].
      unfold chain_votes in Hcl |- *. rewrite fmap_cons.
      cbn [hf1 with_votes versions] in Hcl |- *. rewrite <- app_assoc in Hcl |- *. done.
Qed.

Lemma step_back_le hs sv i :
  (i < length hs)%nat ->
  exists j, step_back hs sv i = Some j /\ (j <= i)%nat /\
    (forall p, hs !! j = Some p -> j = 0%nat \/ version p <= sv).
Proof.
  induction i as [|i IH]; intros Hi; cbn [step_back].
  - exists 0%nat. auto.
  - destruct (lookup_lt_is_Some_2 hs (S i) Hi) as [p Hp]. rewrite Hp. cbn [mbind option_bind].
    destruct (Z.ltb_spec sv (version p)).
    + destruct IH as (j & -> & Hj & Hp'); [lia|]. exists j. split; [done|]. split; [lia|done].
    + exists (S i). split; [done|]. split; [done|]. intros q Hq. simplify_eq. by right.
Qed.


Lemma lastn_take {A} w k (l : list A) :
  (k <= length l)%nat -> lastn w (take k l) = take (w `min` k) (drop (k - w) l).
Proof.
  intros Hk. unfold lastn. rewrite length_take_le by done.
  rewrite skipn_firstn_comm. f_equal. lia.
Qed.

Lemma chain_votes_lastn hf n bs : chain_votes hf (lastn n bs) = lastn n (chain_votes hf bs).
Proof. unfold chain_votes, lastn. by rewrite length_fmap, fmap_drop. Qed.

(** [add] always has a result, keeps the invariant and the chain, and never
    moves back to an earlier fork. *)
Lemma add_preserves hf b h :
  wf hf -> block_ok b ->
  exists ok hf', add hf b h = Some (ok, hf') /\ wf hf' /\
    blocks (db hf') = blocks (db hf) /\ heights hf' = heights hf /\
    window_size hf' = window_size hf /\ (current_fork_index hf <= current_fork_index hf')%nat.
Proof.
  intros Hwf Hb. destruct (current_version_defined hf Hwf) as (c & Hc & _). unfold add.
  destruct (decide (get_block_version b = c /\ c <= get_block_vote b)) as [[Hv Hle]|Hn].
  - rewrite Hv. destruct (add_votes_accept hf c (get_block_vote b) h Hwf (block_vote_fits b Hb) Hc Hle)
      as (lv & r & Hwf1 & E & Hr & _). rewrite E. eexists true, _. split; [done|].
    split; [apply wf_with_index; [exact Hwf1|apply Hr]|]. split_and!; try done. apply Hr.
  - rewrite (add_votes_reject hf _ _ _ _ Hc Hn). by exists false, hf.
Qed.

Lemma add_all_preserves hf hs :
  wf hf -> Forall block_ok (blocks (db hf)) ->
  Forall (fun h => 0 <= h < db_height (db hf)) hs ->
  exists hf', add_all hf hs = Some hf' /\ wf hf' /\
    blocks (db hf') = blocks (db hf) /\ heights hf' = heights hf.
Proof.
  intros Hwf Hb Hhs. revert hf Hwf Hb Hhs. induction hs as [|h hs IH]; intros hf Hwf Hb Hhs; cbn [add_all].
  - by exists hf.
  - apply Forall_cons in Hhs as [Hh Hhs]. unfold db_height in Hh.
    destruct (lookup_lt_is_Some_2 (blocks (db hf)) (Z.to_nat h)) as [b Eb]; [lia|].
    unfold get_block_from_height. replace h with (Z.of_nat (Z.to_nat h)) by lia. rewrite aget_nat, Eb.
    cbn [mbind option_bind].
    destruct (add_preserves hf b (Z.of_nat (Z.to_nat h)) Hwf (Forall_lookup_1 _ _ _ _ Hb Eb))
      as (ok & hf' & -> & Hwf' & Eblk & Ehs & _). cbn [mbind option_bind].
    destruct (IH hf') as (hf'' & -> & Hwf'' & Eblk' & Ehs'); [done|by rewrite Eblk|..].
    + unfold db_height in *. by rewrite Eblk.
    + exists hf''. split_and!; [done|exact Hwf''|congruence|congruence].
Qed.

(** The recorded version [reorganize_from_block_height] starts from. *)
Definition start_version (hf : hard_fork) (h : Z) : option Z :=
  if h =? 0 then Some (original_version hf) else get_hard_fork_version (db hf) h.

(** The state rebuilt from the chain up to height [h], before the vote. *)
Definition rebuilt (hf : hard_fork) (h : Z) (lv : list Z) (i : nat) : hard_fork :=
  with_index (with_votes hf
    (lastn (Z.to_nat (window_size hf)) (chain_votes hf (take (Z.to_nat (h + 1)) (blocks (db hf))))) lv) i.

Lemma reorganize_rebuilds hf h sv :
  wf hf -> Forall block_ok (blocks (db hf)) -> 0 <= h < db_height (db hf) ->
  start_version hf h = Some sv ->
  exists lv i r,
    let hf1 := rebuilt hf h lv i in
    wf hf1 /\ step_back (heights hf) sv (current_fork_index hf) = Some i /\
    advance hf1 (h + 1) = Some (with_index hf1 r) /\
    (i <= r < length (heights hf))%nat /\
    (i < r -> passes hf1 (h + 1) r)%nat /\ (forall m, (r < m)%nat -> ~ passes hf1 (h + 1) m) /\
    reorganize_from_block_height hf h
    = hf' ← add_all (with_index hf1 r) (seqZ (h + 1) (db_height (db hf) - (h + 1))); Some (true, hf').
Proof.
  intros Hwf Hb Hh Hsv. pose proof Hwf as (Hs & Hi & Hw & Hlen & Hc).
  destruct (step_back_le (heights hf) sv (current_fork_index hf) Hi) as (i & Ei & Hij & _).
  set (w := Z.to_nat (window_size hf)). set (k := Z.to_nat (h + 1)).
  unfold db_height in Hh. set (a := (k - w)%nat). set (n := (w `min` k)%nat).
  destruct (scan_spec (with_index (clear_votes hf) i) a n) as (lv & Escan & Hcl).
  { apply counts_ok_nil. } { exact Hs. } { exact Hb. } { cbn. lia. } { cbn [versions with_index clear_votes with_votes length]. lia. }
  cbn [versions with_index clear_votes with_votes app db] in Escan, Hcl.
  assert (chain_votes (with_index (clear_votes hf) i) (take n (drop a (blocks (db hf))))
          = lastn w (chain_votes hf (take k (blocks (db hf))))) as Ewin.
  { rewrite <- chain_votes_lastn, lastn_take by lia. done. }
  rewrite Ewin in Escan, Hcl.
  assert (wf (rebuilt hf h lv i)) as Hwf1.
  { split; [exact Hs|]. split; [cbn; lia|]. split; [exact Hw|]. split; [|exact Hcl].
    cbn [rebuilt with_index with_votes versions window_size]. rewrite length_lastn. lia. }
  destruct (advance_spec _ (h + 1) Hwf1) as (r & Ha & R1 & R2 & R3).
  exists lv, i, r. split; [exact Hwf1|]. split; [done|]. split; [exact Ha|].
  split; [exact R1|]. split; [exact R2|]. split; [exact R3|].
  unfold reorganize_from_block_height, db_height. rewrite (proj2 (Z.leb_gt _ _)) by lia. cbv zeta.
  change (window_size (clear_votes hf)) with (window_size hf).
  change (if h =? 0 then Some (original_version (clear_votes hf))
          else get_hard_fork_version (db (clear_votes hf)) h) with (start_version hf h).
  change (heights (clear_votes hf)) with (heights hf).
  change (current_fork_index (clear_votes hf)) with (current_fork_index hf).
  rewrite (wrap_small 64 (window_size hf - 1)) by (unfold fits; lia).
  rewrite Hsv. cbn [mbind option_bind]. rewrite Ei. cbn [mbind option_bind].
  assert ((if window_size hf - 1 <=? h then h - (window_size hf - 1) else 0) = Z.of_nat a) as ->.
  { unfold a, k, w. destruct (Z.leb_spec (window_size hf - 1) h); lia. }
  replace (h + 1 - Z.of_nat a) with (Z.of_nat n) by (unfold n, a, k, w; lia).
  rewrite Escan. cbn [mbind option_bind].
  change (with_votes (with_index (clear_votes hf) i) _ lv) with (rebuilt hf h lv i).
  rewrite Ha. done.
Qed.


(** ** Forks without voting

    Every fork of the three networks has threshold zero: it takes effect at its
    height. *)

Definition scheduled (hf : hard_fork) : Prop :=
  (forall i p, heights hf !! i = Some p -> threshold p = 0) /\
  (version <$> heights hf !! 0%nat) = Some (original_version hf).

(** Index [r] is the latest fork whose height is at most [h]. *)
Definition due (hs : list Params) (h : Z) (r : nat) : Prop :=
  (r = 0%nat \/ exists p, hs !! r = Some p /\ height p <= h) /\
  (forall m p, (r < m)%nat -> hs !! m = Some p -> h < height p).

Lemma passes_scheduled hf h n :
  scheduled hf -> passes hf h n <-> exists p, heights hf !! n = Some p /\ height p <= h.
Proof.
  intros [Ht _]. unfold passes. split.
  - intros (p & Hp & Hh & _). eauto.
  - intros (p & Hp & Hh). exists p. split_and!; [done..|]. unfold votes_needed.
    rewrite (Ht _ _ Hp), Z.mul_0_r. apply tally_bound.
Qed.

(** The vote finds the fork that is due, from any index that is not ahead. *)
Lemma voted_due hf h i r :
  scheduled hf -> (i = 0%nat \/ exists p, heights hf !! i = Some p /\ height p <= h) ->
  (i <= r)%nat -> (i < r -> passes hf h r)%nat -> (forall m, (r < m)%nat -> ~ passes hf h m) ->
  due (heights hf) h r.
Proof.
  intros Hs Hi Hir Hp Hm. split.
  - destruct (decide (i = r)) as [->|]; [done|right]. apply (passes_scheduled hf h r Hs), Hp. lia.
  - intros m p Hrm Hlk. destruct (decide (height p <= h)); [|lia].
    exfalso. apply (Hm m Hrm), (passes_scheduled hf h m Hs). eauto.
Qed.

Lemma due_ideal hf h r :
  scheduled hf -> due (heights hf) h r -> (r < length (heights hf))%nat ->
  get_ideal_version hf h = version <$> heights hf !! r.
Proof.
  intros [_ H0] [Hr Hm] Hlt. unfold get_ideal_version.
  assert (forall n, (n < length (heights hf))%nat -> (r <= n)%nat ->
            ideal_loop hf h n = version <$> heights hf !! r) as G; [|apply G; lia].
  induction n as [|n IH]; intros Hn Hrn; cbn [ideal_loop].
  - replace r with 0%nat by lia. by rewrite H0.
  - destruct (lookup_lt_is_Some_2 (heights hf) (S n) Hn) as [p Hp]. rewrite Hp. cbn [mbind option_bind].
    destruct (decide (r = S n)) as [->|].
    + destruct Hr as [?|(q & Hq & Hle)]; [lia|]. rewrite Hp in Hq |- *. simplify_eq.
      by rewrite (proj2 (Z.leb_le _ _)).
    + pose proof (Hm (S n) p ltac:(lia) Hp). rewrite (proj2 (Z.leb_gt _ _)) by lia. apply IH; lia.
Qed.

Lemma due_unique hs h r r' :
  due hs h r -> due hs h r' -> (r < length hs)%nat -> (r' < length hs)%nat -> r = r'.
Proof.
  intros [H1 M1] [H2 M2] L1 L2.
  destruct (Nat.lt_trichotomy r r') as [Hlt|[?|Hlt]]; [|done|]; exfalso.
  - destruct H2 as [?|(p & Hp & Hle)]; [lia|]. pose proof (M1 _ _ Hlt Hp). lia.
  - destruct H1 as [?|(p & Hp & Hle)]; [lia|]. pose proof (M2 _ _ Hlt Hp). lia.
Qed.

(** Stepping back to a recorded version of the schedule lands on a fork that is
    not ahead of it. *)
Lemma step_back_due hs sv i j h r p :
  schedule_ok hs -> (r = 0%nat \/ exists p, hs !! r = Some p /\ height p <= h) ->
  hs !! r = Some p -> version p = sv ->
  (i < length hs)%nat -> step_back hs sv i = Some j ->
  j = 0%nat \/ exists q, hs !! j = Some q /\ height q <= h + 1.
Proof.
  intros (_ & _ & Ho) Hr Hp <- Hi Hj.
  destruct (step_back_le hs (version p) i Hi) as (j' & E & Hji & Hv). rewrite Hj in E. simplify_eq.
  destruct (decide (j' = 0%nat)); [by left|right].
  destruct (lookup_lt_is_Some_2 hs j') as [q Hq]; [lia|]. exists q. split; [done|].
  destruct (Hv q Hq) as [?|Hle]; [lia|].
  destruct (Nat.lt_trichotomy j' r) as [Hlt|[->|Hlt]].
  - destruct (Ho _ _ _ _ Hlt Hq Hp). destruct Hr as [?|(p' & Hp' & ?)]; [lia|]. simplify_eq. lia.
  - simplify_eq. destruct Hr as [?|(p' & Hp' & ?)]; [lia|]. simplify_eq. lia.
  - destruct (Ho _ _ _ _ Hlt Hp Hq). lia.
Qed.


(** ** Histories of the chain *)

Definition push_block (d : chain_db) (b : block) : chain_db :=
  {| blocks := blocks d ++ [b]; hard_fork_versions := hard_fork_versions d |}.

Definition truncate (d : chain_db) (n : nat) : chain_db :=
  {| blocks := take n (blocks d); hard_fork_versions := hard_fork_versions d |}.

(** What the chain does to the voting state: [BlockchainDB::add_block] stores a
    block and calls [add]; a rollback pops blocks and then calls
    [reorganize_from_chain_height] with the height that is left. *)
Inductive chain_step (hf : hard_fork) : hard_fork -> Prop :=
  | Append b hf' :
      block_ok b ->
      add (with_db hf (push_block (db hf) b)) b (db_height (db hf)) = Some (true, hf') ->
      chain_step hf hf'
  | Rollback n hf' :
      (0 < n <= length (blocks (db hf)))%nat ->
      reorganize_from_chain_height (with_db hf (truncate (db hf) n)) (Z.of_nat n) = Some (true, hf') ->
      chain_step hf hf'.

(** The invariant of all histories. *)
Record on_schedule (hf : hard_fork) : Prop := {
  os_wf : wf hf;
  os_blocks : Forall block_ok (blocks (db hf));
  os_nonempty : blocks (db hf) <> [];
  os_scheduled : scheduled hf;
  os_tracks : tracks hf (length (blocks (db hf)));
  os_due : due (heights hf) (db_height (db hf)) (current_fork_index hf);
  os_recorded h : 0 < h < db_height (db hf) ->
    exists r, due (heights hf) h r /\ (r < length (heights hf))%nat /\
      get_hard_fork_version (db hf) h = version <$> heights hf !! r
}.

Lemma due_mono hs h h' r : due hs h r -> h <= h' -> r = 0%nat \/ exists p, hs !! r = Some p /\ height p <= h'.
Proof. intros [[?|(p & ? & ?)] _] Hh; [by left|right]. exists p. split; [done|lia]. Qed.

Lemma append_on_schedule hf b hf' :
  on_schedule hf -> block_ok b ->
  add (with_db hf (push_block (db hf) b)) b (db_height (db hf)) = Some (true, hf') ->
  on_schedule hf'.
Proof.
  intros [Hwf Hbs Hne Hsch Htr Hdue Hrec] Hb E.
  set (hf0 := with_db hf (push_block (db hf) b)) in *.
  assert (wf hf0) as Hwf0 by exact Hwf.
  destruct (current_version_defined hf0 Hwf0) as (c & Hc & _). unfold add in E.
  destruct (decide (get_block_version b = c /\ c <= get_block_vote b)) as [[Hv Hle]|Hn];
    [|by rewrite (add_votes_reject hf0 _ _ _ _ Hc Hn) in E].
  rewrite Hv in E.
  destruct (add_votes_accept hf0 c (get_block_vote b) (db_height (db hf)) Hwf0 (block_vote_fits b Hb) Hc Hle)
    as (lv & r & Hwf1 & E' & Hr & Hp & Hm). rewrite E' in E. injection E as <-.
  set (hf1 := voted_state hf0 (get_block_vote b) c (db_height (db hf)) lv) in *.
  assert (blocks (db hf1) = blocks (db hf) ++ [b]) as Eb by done.
  assert (db_height (db hf1) = db_height (db hf) + 1) as Eh
    by (unfold db_height; rewrite Eb, length_app; cbn [length]; lia).
  split.
  - apply wf_with_index; [exact Hwf1|apply Hr].
  - cbn [with_index db]. rewrite Eb. apply Forall_app; auto.
  - cbn [with_index db]. rewrite Eb. by destruct (blocks (db hf)).
  - exact Hsch.
  - unfold tracks in *. cbn [with_index db]. rewrite Eb, take_ge by lia.
    rewrite take_ge in Htr by lia. change (versions (with_index hf1 r)) with (versions hf1).
    unfold hf1, voted_state. cbn [with_votes versions]. change (versions hf0) with (versions hf). rewrite Htr.
    change (chain_votes (with_index _ r)) with (chain_votes hf). rewrite chain_votes_app.
    change (window_size (with_index _ r)) with (window_size hf). change (window_size hf0) with (window_size hf).
    destruct Hwf as (_ & _ & Hw & _).
    replace (Z.to_nat (window_size hf)) with (S (Z.to_nat (window_size hf - 1))) by lia.
    apply lastn_snoc.
  - change (db (with_index hf1 r)) with (db hf1). rewrite Eh. change (heights (with_index hf1 r)) with (heights hf1).
    apply (voted_due hf1 _ (current_fork_index hf)); [exact Hsch| |apply Hr|exact Hp|exact Hm].
    apply (due_mono _ (db_height (db hf))); [exact Hdue|lia].
  - intros h. change (db (with_index hf1 r)) with (db hf1). rewrite Eh. intros Hh.
    change (heights (with_index hf1 r)) with (heights hf).
    unfold get_hard_fork_version, hf1, voted_state. cbn [with_votes with_db db set_hard_fork_version hard_fork_versions].
    destruct (decide (h = db_height (db hf))) as [->|Hneq].
    + rewrite lookup_insert_eq. exists (current_fork_index hf).
      split_and!; [apply Hdue..|destruct Hwf as (_ & ? & _); done|]. symmetry. exact Hc.
    + rewrite lookup_insert_ne by done. apply Hrec. lia.
Qed.


(** Rebuilding at the tip puts any well-formed state back on schedule. *)
Lemma reorganize_tip_on_schedule hf n sv r :
  wf hf -> Forall block_ok (blocks (db hf)) -> scheduled hf ->
  length (blocks (db hf)) = S n -> start_version hf (Z.of_nat n) = Some sv ->
  (r = 0%nat \/ exists p, heights hf !! r = Some p /\ height p <= Z.of_nat n) ->
  (version <$> heights hf !! r) = Some sv ->
  (forall h, 0 < h <= Z.of_nat n ->
    exists r, due (heights hf) h r /\ (r < length (heights hf))%nat /\
      get_hard_fork_version (db hf) h = version <$> heights hf !! r) ->
  exists hf', reorganize_from_block_height hf (Z.of_nat n) = Some (true, hf') /\ on_schedule hf' /\
    db hf' = db hf.
Proof.
  intros Hwf Hb Hsch Hlen Hsv Hr Hver Hrec.
  assert (db_height (db hf) = Z.of_nat n + 1) as Eh by (unfold db_height; lia).
  destruct (reorganize_rebuilds hf (Z.of_nat n) sv Hwf Hb ltac:(lia) Hsv)
    as (lv & i & r' & Hwf1 & Ei & Ha & Hir & Hp & Hm & E).
  rewrite E, Eh, Z.sub_diag. cbn [seqZ]. rewrite seqZ_nil by lia. cbn [add_all mbind option_bind].
  set (hf1 := rebuilt hf (Z.of_nat n) lv i) in *. eexists. split; [done|]. split; [|done].
  apply fmap_Some in Hver as (p & Hp' & ->).
  pose proof Hwf as (Hs & Hi & _).
  split.
  - apply wf_with_index; [exact Hwf1|apply Hir].
  - exact Hb.
  - change (blocks (db hf) <> []). by destruct (blocks (db hf)).
  - exact Hsch.
  - unfold tracks. change (blocks (db (with_index hf1 r'))) with (blocks (db hf)).
    change (chain_votes (with_index hf1 r')) with (chain_votes hf).
    change (versions (with_index hf1 r')) with
      (lastn (Z.to_nat (window_size hf)) (chain_votes hf (take (Z.to_nat (Z.of_nat n + 1)) (blocks (db hf))))).
    change (window_size (with_index hf1 r')) with (window_size hf). by rewrite !take_ge by lia.
  - change (db (with_index hf1 r')) with (db hf). rewrite Eh.
    apply (voted_due hf1 _ i); [exact Hsch| |apply Hir|exact Hp|exact Hm].
    apply (step_back_due (heights hf) (version p) (current_fork_index hf) i (Z.of_nat n) r p); done.
  - change (db (with_index hf1 r')) with (db hf). rewrite Eh. intros h Hh. apply Hrec. lia.
Qed.

Lemma rollback_on_schedule hf n :
  on_schedule hf -> (0 < n <= length (blocks (db hf)))%nat ->
  exists hf', reorganize_from_chain_height (with_db hf (truncate (db hf) n)) (Z.of_nat n) = Some (true, hf') /\
    on_schedule hf'.
Proof.
  intros [Hwf Hbs Hne Hsch Htr Hdue Hrec] Hn. unfold reorganize_from_chain_height.
  rewrite (proj2 (Z.eqb_neq _ _)) by lia. replace (Z.of_nat n - 1) with (Z.of_nat (n - 1)) by lia.
  set (hf0 := with_db hf (truncate (db hf) n)).
  assert (length (blocks (db hf0)) = S (n - 1)) as Hlen by (cbn; rewrite length_take; lia).
  assert (forall h, 0 < h <= Z.of_nat (n - 1) -> exists r, due (heights hf0) h r /\
    (r < length (heights hf0))%nat /\ get_hard_fork_version (db hf0) h = version <$> heights hf0 !! r) as Hrec0.
  { intros h Hh. apply Hrec. unfold db_height. lia. }
  assert (exists sv r, start_version hf0 (Z.of_nat (n - 1)) = Some sv /\
    (r = 0%nat \/ exists p, heights hf0 !! r = Some p /\ height p <= Z.of_nat (n - 1)) /\
    (version <$> heights hf0 !! r) = Some sv) as (sv & r & Hsv & Hr & Hv).
  { unfold start_version. destruct (Z.eqb_spec (Z.of_nat (n - 1)) 0) as [E|E].
    - exists (original_version hf), 0%nat. split; [done|]. split; [by left|]. apply Hsch.
    - destruct (Hrec0 (Z.of_nat (n - 1))) as (r & [Hr _] & Hlt & ->); [lia|].
      destruct (lookup_lt_is_Some_2 (heights hf0) r Hlt) as [p Hp]. rewrite Hp.
      exists (version p), r. split; [done|]. split; [done|]. by rewrite Hp. }
  destruct (reorganize_tip_on_schedule hf0 (n - 1) sv r) as (hf' & E & Hos & _); [done| |done..|].
  - cbn. by apply Forall_take.
  - by exists hf'.
Qed.

Lemma step_on_schedule hf hf' : on_schedule hf -> chain_step hf hf' -> on_schedule hf'.
Proof.
  intros Hos [b hf'' Hb E|n hf'' Hn E].
  - by eapply append_on_schedule.
  - destruct (rollback_on_schedule hf n Hos Hn) as (hf3 & E' & Hos'). rewrite E in E'. by simplify_eq.
Qed.


(** ** Starting from the genesis block *)

Definition genesis_db (g : block) : chain_db := {| blocks := [g]; hard_fork_versions := ∅ |}.

Lemma init_genesis hf g :
  db hf = genesis_db g -> block_ok g -> schedule_ok (heights hf) -> scheduled hf ->
  0 < window_size hf < 2 ^ 32 ->
  exists hf', init hf = Some hf' /\ on_schedule hf'.
Proof.
  intros Hdb Hg Hs Hsch Hw. unfold init.
  assert (match heights hf with
          | [] => with_heights hf [{| version := original_version hf; threshold := 0; height := 0; time := 0 |}]
          | _ => hf end = hf) as -> by (destruct Hs as [? _]; by destruct (heights hf)).
  cbv zeta. set (hf0 := with_index (clear_votes hf) 0).
  assert (db hf0 = genesis_db g) as Hdb0 by exact Hdb.
  assert (get_hard_fork_version (db hf0) 0 = None) as ->
    by (unfold get_hard_fork_version; rewrite Hdb0; apply lookup_empty).
  unfold reorganize_from_chain_height. cbn [Z.eqb]. change (1 - 1) with (Z.of_nat 0).
  assert (length (heights hf) <> 0)%nat by (destruct Hs as [? _]; by destruct (heights hf)).
  assert (wf hf0) as Hwf0.
  { split; [exact Hs|]. split; [cbn; lia|]. split; [exact Hw|]. split; [cbn; lia|apply counts_ok_nil]. }
  destruct (reorganize_tip_on_schedule hf0 0 (original_version hf) 0) as (hf' & -> & Hos & Edb);
    [exact Hwf0|rewrite Hdb0; by constructor|exact Hsch|by rewrite Hdb0|done|by left|apply Hsch|intros; lia|].
  cbn [mbind option_bind]. eexists. split; [done|].
  destruct Hos as [O1 O2 O3 O4 O5 O6 O7]. split; [exact O1|exact O2|exact O3|exact O4|exact O5|exact O6|].
  intros h Hh. destruct (O7 h Hh) as (r & R1 & R2 & R3). exists r. split; [exact R1|]. split; [exact R2|].
  etrans; [|exact R3]. apply lookup_insert_ne. lia.
Qed.

(** Forks in strict order are all accepted by [add_fork]. *)
Definition schedule_okb (hs : list Params) : bool :=
  negb (bool_decide (length hs = 0%nat)) &&
  forallb (fun p => (0 <=? version p) && (version p <? 256) && (threshold p =? 0)) hs &&
  forallb (fun '(i, j) =>
    match hs !! i, hs !! j with
    | Some p, Some q => negb (i <? j)%nat || ((version p <? version q) && (height p <? height q))
    | _, _ => true
    end) (i ← seq 0 (length hs); j ← seq 0 (length hs); [(i, j)]).

Lemma schedule_okb_spec hs :
  schedule_okb hs = true ->
  schedule_ok hs /\ (forall i p, hs !! i = Some p -> threshold p = 0).
Proof.
  unfold schedule_okb. rewrite !andb_true_iff, !forallb_forall, negb_true_iff, bool_decide_eq_false.
  intros [[Hne Hp] Ho].
  assert (forall i p, hs !! i = Some p -> 0 <= version p < 256 /\ threshold p = 0) as G.
  { intros i p Hi. pose proof (Hp p (proj1 (list_elem_of_In _ _) (list_elem_of_lookup_2 _ _ _ Hi))). lia. }
  split; [split_and!|].
  - by intros ->.
  - intros i p Hi. destruct (G i p Hi). unfold fits. lia.
  - intros i j p q Hij Hi Hj. specialize (Ho (i, j)). cbn beta iota in Ho. rewrite Hi, Hj in Ho.
    assert (negb (i <? j)%nat || (version p <? version q) && (height p <? height q) = true) as H.
    { apply Ho. apply list_elem_of_In. apply list_elem_of_bind. exists i. split.
      - apply list_elem_of_bind. exists j. split; [by apply list_elem_of_singleton|].
        apply elem_of_seq. apply lookup_lt_Some in Hj. lia.
      - apply elem_of_seq. apply lookup_lt_Some in Hi. lia. }
    rewrite (proj2 (Nat.ltb_lt i j)) in H by done. cbn [negb orb] in H. lia.
  - intros i p Hi. by destruct (G i p Hi).
Qed.


(** ** Correctness *)

(** [add] in every well-formed state: it has a result and keeps the
    invariant (each of the 256 counters equals the number of votes for its
    version in the window, the window holds at most [window_size] votes). It
    accepts exactly the blocks [check] accepts and leaves the state alone
    otherwise. On acceptance the version in force is recorded, the vote enters
    the window and the oldest one leaves it, and the index moves to the latest
    fork that is due at the next height with enough votes for it or a later
    fork, never back. *)
Theorem hardfork_add_spec hf b h c :
  wf hf -> block_ok b -> get_current_version_num hf = Some c ->
  exists ok hf', add hf b h = Some (ok, hf') /\ wf hf' /\ check hf b = Some ok /\
    (ok = false -> hf' = hf) /\
    (ok = true ->
       get_hard_fork_version (db hf') h = Some c /\
       versions hf' = lastn (Z.to_nat (window_size hf))
                        (versions hf ++ [get_effective_version hf (get_block_vote b)]) /\
       (current_fork_index hf <= current_fork_index hf')%nat /\
       (current_fork_index hf < current_fork_index hf' -> passes hf' (h + 1) (current_fork_index hf'))%nat /\
       (forall m, (current_fork_index hf' < m)%nat -> ~ passes hf' (h + 1) m)).
Proof.
  intros Hwf Hb Hc. unfold add, check, do_check. rewrite Hc. cbn [mbind option_bind].
  destruct (decide (get_block_version b = c /\ c <= get_block_vote b)) as [[Hv Hle]|Hn].
  - rewrite Hv, Z.eqb_refl, (proj2 (Z.leb_le _ _)) by done. cbn [andb].
    destruct (add_votes_accept hf c (get_block_vote b) h Hwf (block_vote_fits b Hb) Hc Hle)
      as (lv & r & Hwf1 & E & Hr & Hp & Hm). rewrite E. eexists true, _. split; [done|].
    split; [apply wf_with_index; [exact Hwf1|apply Hr]|]. split; [done|]. split; [done|]. intros _.
    split; [apply lookup_insert_eq|]. split; [done|]. split; [apply Hr|]. split; [exact Hp|exact Hm].
  - rewrite (add_votes_reject hf _ _ _ _ Hc Hn). exists false, hf. split_and!; try done.
    f_equal. destruct (Z.eqb_spec (get_block_version b) c), (Z.leb_spec c (get_block_vote b)); try done.
    exfalso. auto.
Qed.

(** A small state: two forks, a window of three votes. *)
Definition example_state : hard_fork := {|
  db := genesis_db {| major_version := 1; minor_version := 1 |};
  forked_time := 0; update_time := 0; window_size := 3; default_threshold_percent := 80;
  original_version := 1; original_version_till_height := 0;
  heights := [fork_entry 1 1 0 1; fork_entry 2 5 80 2];
  versions := [2; 2]; last_versions := <[2%nat := 2]> (replicate 256 0);
  current_fork_index := 0 |}.

Lemma example_wf : wf example_state.
Proof.
  split; [|split; [cbn; lia|split; [by_eval|split; [by_eval|]]]].
  - split_and!; [done| |].
    + intros [|[|i]] p Hp; cbn in Hp; simplify_eq; by_eval.
    + intros [|[|i]] [|[|j]] p q Hij Hp Hq; cbn in Hp, Hq; simplify_eq; lia || by_eval.
  - split_and!; [done|by_eval|]. intros v Hv.
    assert (forallb (fun v => bool_decide (aget (last_versions example_state) v = Some (tally [2; 2] [v])))
              (seqZ 0 256) = true) as F by by_eval.
    by apply (below_forallb _ _ F), bool_decide_eq_true in Hv.
Qed.

Lemma hardfork_add_spec_witness :
  exists ok hf', add example_state {| major_version := 1; minor_version := 2 |} 7 = Some (ok, hf') /\
    wf hf' /\ current_fork_index hf' = 1%nat.
Proof.
  destruct (hardfork_add_spec example_state {| major_version := 1; minor_version := 2 |} 7 1)
    as (ok & hf' & E & Hwf & _); [apply example_wf|split; by_eval|reflexivity|].
  exists ok, hf'. split; [exact E|]. split; [exact Hwf|].
  vm_compute in E. injection E as <- <-. reflexivity.
Defined.

(** C16. On the three public networks, after any history of appended blocks and
    rollbacks from the genesis block, the version in force is the scheduled
    one ([get_ideal_version] at the chain height), the versions recorded for
    past heights are the scheduled ones, and the voting window holds the votes
    of the last [window_size] blocks: incremental updates and rebuilding after
    a reorganization agree. *)
Theorem fork_schedule_followed nt g :
  net_config nt <> None -> block_ok g ->
  exists hf, network_hard_fork nt [] (genesis_db g) = Some hf /\
    forall hf', rtc chain_step hf hf' ->
      wf hf' /\ tracks hf' (length (blocks (db hf'))) /\
      get_current_version_num hf' = get_ideal_version hf' (db_height (db hf')) /\
      (forall h, 0 < h < db_height (db hf') ->
         get_hard_fork_version (db hf') h = get_ideal_version hf' h).
Proof.
  intros Hnt Hg.
  assert (exists hf, network_hard_fork nt [] (genesis_db g) = Some hf /\ on_schedule hf) as (hf & E & Hos).
  { unfold network_hard_fork, make. change (DEFAULT_WINDOW_SIZE =? 0) with false.
    change (100 <? DEFAULT_THRESHOLD_PERCENT) with false. cbn [mbind option_bind].
    set (hf0 := load_forks _ _). apply (init_genesis hf0 g); unfold hf0.
    - by destruct nt.
    - done.
    - destruct nt; try done; apply schedule_okb_spec; by_eval.
    - destruct nt; try done; (split; [apply schedule_okb_spec; by_eval|done]).
    - destruct nt; done. }
  exists hf. split; [done|]. intros hf' Hsteps.
  assert (on_schedule hf') as [O1 O2 O3 O4 O5 O6 O7]
    by (clear -Hos Hsteps; induction Hsteps; [done|eauto using step_on_schedule]).
  split; [exact O1|]. split; [exact O5|]. split.
  - symmetry. apply due_ideal; [exact O4|exact O6|apply O1].
  - intros h Hh. destruct (O7 h Hh) as (r & R1 & R2 & ->). symmetry. by apply due_ideal.
Qed.

Lemma fork_schedule_followed_witness :
  exists hf, network_hard_fork MAINNET [] (genesis_db {| major_version := 1; minor_version := 0 |}) = Some hf /\
    get_current_version_num hf = get_ideal_version hf 1.
Proof.
  destruct (fork_schedule_followed MAINNET {| major_version := 1; minor_version := 0 |})
    as (hf & E & H); [discriminate|split; by_eval|]. exists hf. split; [exact E|].
  destruct (H hf (rtc_refl _ _)) as (_ & _ & Hv & _). rewrite Hv.
  vm_compute in E. injection E as <-. reflexivity.
Defined.

End HardFork.
