(* ===== verification/TreeHash.v ===== *)
(** * Tree hash

    [src/crypto/tree-hash.c]: the Merkle root of the transaction hashes of a
    block, over any [FastHash], with the asserts on the number of hashes.  The
    theorems say that the in-place loops compute the recursive Merkle root. *)

From S2P Require Import Prelude Keccak.

Module TreeHash.

Definition HASH_SIZE : nat := 32.

(** [while(pow < count) pow <<= 1;] with 64-bit [size_t]; [None] when the fuel is
    not enough.  Up to the [2^28] of the assert 28 rounds are. *)
Fixpoint pow_loop (fuel : nat) (pow count : Z) : option Z :=
  if pow <? count then
    match fuel with
    | O => None
    | S fuel => pow_loop fuel (u64 (pow ≪ 1)) count
    end
  else Some pow.

(** [None] when an assert fails. *)
Definition tree_hash_cnt (count : Z) : option Z :=
  _ ← asserted (3 <=? count);
  _ ← asserted (count <=? 0x10000000);
  pow ← pow_loop 64 2 count; Some (pow ≫ 1).

Section tree_hash.
Context `{!FastHash}.

(** [cn_fast_hash(hashes[i], 64, ...)]: two neighbouring hashes. *)
Definition hash_pair (hashes : list bytes) (i : nat) : option bytes :=
  a ← hashes !! i; b ← hashes !! (i + 1)%nat; Some (fast_hash (a ++ b)).

(** The loop over the lower leaves; [n] iterations are left. Ends with [ints] and [i]. *)
Fixpoint leaf_loop (hashes ints : list bytes) (i j n : nat) : option (list bytes * nat) :=
  match n with
  | O => Some (ints, i)
  | S n => h ← hash_pair hashes i; leaf_loop hashes (<[j := h]> ints) (i + 2) (j + 1) n
  end.

(** The inner loop of a level, in place. *)
Fixpoint level_loop (ints : list bytes) (i j n : nat) : option (list bytes) :=
  match n with
  | O => Some ints
  | S n => h ← hash_pair ints i; level_loop (<[j := h]> ints) (i + 2) (j + 1) n
  end.

(** [while(cnt > 2)]. *)
Fixpoint levels (fuel : nat) (cnt : nat) (ints : list bytes) : option (list bytes) :=
  if (2 <? cnt)%nat then
    match fuel with
    | O => None
    | S fuel =>
        let cnt := (cnt / 2)%nat in
        ints ← level_loop ints 0 0 cnt;
        levels fuel cnt ints
    end
  else Some ints.

(** [None] when an assert fails: for no hashes at all, or more than [2^28]. *)
Definition tree_hash (hashes : list bytes) : option bytes :=
  let count := length hashes in
  _ ← asserted (0 <? count)%nat;
  if (count =? 1)%nat then hashes !! 0%nat
  else if (count =? 2)%nat then hash_pair hashes 0
  else
    cnt ← tree_hash_cnt (Z.of_nat count);
    let cnt := Z.to_nat cnt in
    let ints := replicate cnt (replicate HASH_SIZE 0) in
    let k := (2 * cnt - count)%nat in
    let ints := take k hashes ++ drop k ints in
    '(ints, i) ← leaf_loop hashes ints k k (cnt - k);
    _ ← asserted (i =? count)%nat;
    ints ← levels cnt cnt ints;
    hash_pair ints 0.

(** ** Reference: the Merkle tree *)

(** The root of the perfect tree over [2^k] nodes. *)
Fixpoint perfect_root (k : nat) (l : list bytes) : bytes :=
  match k with
  | O => nth 0 l []
  | S k => fast_hash (perfect_root k (take (2 ^ k) l) ++ perfect_root k (drop (2 ^ k) l))
  end.

(** Hashes of neighbouring pairs. *)
Fixpoint pairs (l : list bytes) : list bytes :=
  match l with
  | a :: b :: l => fast_hash (a ++ b) :: pairs l
  | _ => []
  end.

(** With [2^k < n <= 2^(k+1)] leaves the last ones are one level lower. *)
Definition tree_level (n : nat) : nat := Nat.log2 (n - 1).

Definition merkle (k : nat) (l : list bytes) : bytes :=
  let upper := (2 * 2 ^ k - length l)%nat in
  perfect_root k (take upper l ++ pairs (drop upper l)).

(** ** Pairs *)

Lemma pairs_ind (P : list bytes -> Prop) :
  P [] -> (forall a, P [a]) -> (forall a b l, P l -> P (a :: b :: l)) -> forall l, P l.
Proof.
  intros H0 H1 H2 l. assert (P l /\ forall a, P (a :: l)) as [? _]; [|done].
  induction l as [|b l [IH1 IH2]]; auto.
Qed.

Lemma length_pairs l : length (pairs l) = (length l / 2)%nat.
Proof.
  induction l as [| |a b l IH] using pairs_ind; [done..|]. cbn [pairs length]. rewrite IH.
  replace (S (S (length l))) with (length l + 1 * 2)%nat by lia. rewrite Nat.div_add by lia. lia.
Qed.

Lemma take_pairs m l : pairs (take (2 * m) l) = take m (pairs l).
Proof.
  revert l. induction m as [|m IH]; intros l; [done|].
  replace (2 * S m)%nat with (S (S (2 * m))) by lia.
  destruct l as [|a [|b l]]; [done..|]. cbn [firstn pairs]. by rewrite IH.
Qed.

Lemma drop_pairs m l : pairs (drop (2 * m) l) = drop m (pairs l).
Proof.
  revert l. induction m as [|m IH]; intros l; [done|].
  replace (2 * S m)%nat with (S (S (2 * m))) by lia.
  destruct l as [|a [|b l]]; [done..|]. cbn [skipn pairs]. by rewrite IH.
Qed.

(** Building the tree from the leaves up gives the same root. *)
Lemma perfect_root_pairs k l :
  length l = (2 ^ S k)%nat -> perfect_root (S k) l = perfect_root k (pairs l).
Proof.
  revert l. induction k as [|k IH]; intros l Hl.
  - destruct l as [|a [|b [|]]]; cbn in Hl; try lia. done.
  - cbn [perfect_root]. f_equal. rewrite <- take_pairs, <- drop_pairs.
    replace (2 * 2 ^ k)%nat with (2 ^ S k)%nat by (cbn; lia).
    cbn [Nat.pow] in Hl. assert (length l = 2 * 2 ^ S k)%nat as Hl' by (cbn [Nat.pow]; lia).
    f_equal; apply IH; rewrite ?length_take, ?length_drop; lia.
Qed.

(** ** The loops *)

Lemma hash_pair_drop l i a b t : drop i l = a :: b :: t -> hash_pair l i = Some (fast_hash (a ++ b)).
Proof.
  intros E. unfold hash_pair.
  assert (l !! i = Some a) as -> by (rewrite <- (Nat.add_0_r i), <- lookup_drop, E; done).
  assert (l !! (i + 1)%nat = Some b) as -> by (rewrite <- lookup_drop, E; done). done.
Qed.

Lemma drop_two (l : list bytes) i :
  (i + 2 <= length l)%nat -> exists a b, drop i l = a :: b :: drop (i + 2) l.
Proof.
  intros Hi. destruct (lookup_lt_is_Some_2 l i) as [a Ha]; [lia|].
  destruct (lookup_lt_is_Some_2 l (S i)) as [b Hb]; [lia|]. exists a, b.
  rewrite (drop_S l a i) by done. rewrite (drop_S l b (S i)) by done. do 3 f_equal. lia.
Qed.

Lemma take_insert_snoc (l : list bytes) j h :
  (j < length l)%nat -> take (j + 1) (<[j := h]> l) = take j l ++ [h].
Proof.
  intros Hj. replace (j + 1)%nat with (S j) by lia.
  rewrite (take_S_r _ _ h) by (by apply list_lookup_insert_eq). by rewrite take_insert_ge by lia.
Qed.

Lemma leaf_loop_spec hashes ints i j n :
  (i + 2 * n = length hashes)%nat -> (j + n = length ints)%nat ->
  leaf_loop hashes ints i j n = Some (take j ints ++ pairs (drop i hashes), length hashes).
Proof.
  revert ints i j. induction n as [|n IH]; intros ints i j Hi Hj; cbn [leaf_loop].
  - rewrite drop_ge, take_ge by lia. rewrite app_nil_r. do 2 f_equal. lia.
  - destruct (drop_two hashes i) as (a & b & E); [lia|]. rewrite (hash_pair_drop _ _ _ _ _ E).
    cbn [mbind option_bind]. rewrite IH by (rewrite ?length_insert; lia).
    rewrite take_insert_snoc by lia. rewrite E. cbn [pairs]. by rewrite <- app_assoc.
Qed.

Lemma level_loop_spec ints j n :
  (2 * j + 2 * n <= length ints)%nat ->
  level_loop ints (2 * j) j n
  = Some (take j ints ++ pairs (take (2 * n) (drop (2 * j) ints)) ++ drop (j + n) ints).
Proof.
  revert ints j. induction n as [|n IH]; intros ints j Hj; cbn [level_loop].
  - rewrite Nat.mul_0_r, take_0. cbn [pairs app]. by rewrite Nat.add_0_r, take_drop.
  - destruct (drop_two ints (2 * j)) as (a & b & E); [lia|]. rewrite (hash_pair_drop _ _ _ _ _ E).
    cbn [mbind option_bind]. replace (2 * j + 2)%nat with (2 * (j + 1))%nat by lia.
    rewrite IH by (rewrite length_insert; lia).
    rewrite take_insert_snoc by lia. rewrite !drop_insert_lt by lia.
    rewrite E. replace (2 * S n)%nat with (S (S (2 * n))) by lia. cbn [firstn pairs].
    replace (2 * j + 2)%nat with (2 * (j + 1))%nat by lia.
    rewrite <- app_assoc. replace (j + 1 + n)%nat with (j + S n)%nat by lia. done.
Qed.

Lemma levels_spec fuel k ints :
  (k <= fuel)%nat -> (2 ^ S k <= length ints)%nat ->
  exists r, levels fuel (2 ^ S k) ints = Some r /\
    hash_pair r 0 = Some (perfect_root (S k) (take (2 ^ S k) ints)).
Proof.
  revert fuel ints. induction k as [|k IH]; intros fuel ints Hf Hl.
  - exists ints. split; [by destruct fuel|]. cbn in Hl.
    destruct ints as [|a [|b ints]]; cbn in Hl; try lia. done.
  - destruct fuel as [|fuel]; [lia|]. cbn [levels].
    assert (2 ^ S (S k) = 2 * 2 ^ S k)%nat as E2 by (cbn; lia).
    assert (0 < 2 ^ k)%nat by (apply Nat.neq_0_lt_0, Nat.pow_nonzero; lia).
    assert (2 ^ S k = 2 * 2 ^ k)%nat as E1 by (cbn; lia).
    rewrite (proj2 (Nat.ltb_lt _ _)) by lia. cbn zeta.
    replace (2 ^ S (S k) / 2)%nat with (2 ^ S k)%nat
      by (rewrite E2, Nat.mul_comm, Nat.div_mul; lia).
    pose proof (level_loop_spec ints 0 (2 ^ S k) ltac:(lia)) as L.
    change (2 * 0)%nat with 0%nat in L. rewrite drop_0, take_0, Nat.add_0_l, <- E2 in L. rewrite L.
    cbn [mbind option_bind app]. set (p := pairs (take (2 ^ S (S k)) ints)).
    assert (length p = 2 ^ S k)%nat as Hp.
    { unfold p. rewrite length_pairs, length_take_le by lia. rewrite E2, Nat.mul_comm, Nat.div_mul; lia. }
    destruct (IH fuel (p ++ drop (2 ^ S k) ints)) as (r & Er & Hr); [lia|rewrite length_app; lia|].
    exists r. split; [exact Er|]. rewrite Hr. f_equal. rewrite take_app_length' by lia.
    unfold p. by rewrite <- perfect_root_pairs by (rewrite length_take_le; lia).
Qed.

(** ** The number of nodes on the full level *)

Lemma pow_loop_spec fuel m count :
  1 <= m <= 63 -> 2 ^ (m - 1) < count <= 2 ^ 63 -> 63 - m <= Z.of_nat fuel ->
  exists r, pow_loop fuel (2 ^ m) count = Some (2 ^ r) /\ 1 <= r <= 63 /\ 2 ^ (r - 1) < count <= 2 ^ r.
Proof.
  revert m. induction fuel as [|fuel IH]; intros m Hm Hc Hf; cbn [pow_loop].
  - replace m with 63 in * by lia. rewrite (proj2 (Z.ltb_ge _ _)) by lia. exists 63. split; [done|lia].
  - destruct (Z.ltb_spec (2 ^ m) count) as [C|C]; [|exists m; split; [done|lia]].
    assert (m < 63) by (destruct (decide (m = 63)) as [->|]; lia).
    rewrite shiftl_mul by lia. rewrite Z.pow_1_r.
    assert (2 ^ m * 2 = 2 ^ (m + 1)) as E by (rewrite Z.pow_add_r by lia; lia).
    assert (2 ^ (m + 1) < 2 ^ 64) by (apply Z.pow_lt_mono_r; lia).
    rewrite E, wrap_small by (unfold fits; split; [apply Z.pow_nonneg; lia|lia]).
    apply IH; [lia| |lia]. replace (m + 1 - 1) with m by lia. lia.
Qed.

Lemma tree_hash_cnt_spec count :
  3 <= count <= 2 ^ 28 ->
  exists k, (1 <= k)%nat /\ tree_hash_cnt count = Some (2 ^ Z.of_nat k) /\
    2 ^ Z.of_nat k < count <= 2 ^ Z.of_nat (S k).
Proof.
  intros Hc. unfold tree_hash_cnt. rewrite !asserted_true by lia. cbn [mbind option_bind].
  change 2 with (2 ^ 1) at 1.
  destruct (pow_loop_spec 64 1 count) as (r & -> & Hr & Hb); [lia|cbn; lia|lia|].
  assert (r <> 1) by (intros ->; cbn in Hb; lia).
  exists (Z.to_nat (r - 1)). cbn [mbind option_bind]. rewrite shiftr_div by lia.
  replace (Z.of_nat (Z.to_nat (r - 1))) with (r - 1) by lia.
  replace (Z.of_nat (S (Z.to_nat (r - 1)))) with r by lia.
  split; [lia|]. split; [|done]. f_equal. replace r with (r - 1 + 1) at 1 by lia.
  rewrite Z.pow_add_r, Z.pow_1_r, Z.div_mul by lia. done.
Qed.

Lemma tree_hash_merkle hashes :
  (1 <= length hashes)%nat -> Z.of_nat (length hashes) <= 2 ^ 28 ->
  exists k, (2 ^ k < length hashes \/ k = 0)%nat /\ (length hashes <= 2 * 2 ^ k)%nat /\
    tree_hash hashes = Some (merkle k hashes).
Proof.
  intros H1 Hmax. unfold tree_hash. cbv zeta. rewrite (asserted_true (0 <? _)%nat) by (apply Nat.ltb_lt; lia). cbn [mbind option_bind].
  destruct (Nat.eqb_spec (length hashes) 1) as [E|].
  { exists 0%nat. split; [by right|]. split; [cbn; lia|]. by destruct hashes as [|a [|]]. }
  destruct (Nat.eqb_spec (length hashes) 2) as [E|].
  { exists 0%nat. split; [by right|]. split; [cbn; lia|]. by destruct hashes as [|a [|b [|]]]. }
  destruct (tree_hash_cnt_spec (Z.of_nat (length hashes))) as (k & Hk & -> & Hb); [lia|].
  cbn [mbind option_bind]. cbn zeta.
  assert (forall k, Z.to_nat (2 ^ Z.of_nat k) = 2 ^ k)%nat as Ep
    by (intros; rewrite <- (Nat2Z.inj_pow 2); apply Nat2Z.id).
  assert (2 ^ k < length hashes <= 2 * 2 ^ k)%nat as Hb'.
  { rewrite <- (Ep k). replace (2 * Z.to_nat (2 ^ Z.of_nat k))%nat with (Z.to_nat (2 ^ Z.of_nat (S k))); [lia|].
    rewrite !Ep. cbn; lia. }
  rewrite Ep. exists k. split; [lia|]. split; [lia|].
  set (u := (2 * 2 ^ k - length hashes)%nat).
  rewrite leaf_loop_spec.
  2: unfold u; lia.
  2: rewrite length_app, length_take, length_drop, length_replicate; lia.
  cbn [mbind option_bind]. rewrite (asserted_true (_ =? _)%nat) by by apply Nat.eqb_eq. cbn [mbind option_bind].
  rewrite take_app_length' by (rewrite length_take; lia).
  set (nodes := take u hashes ++ pairs (drop u hashes)).
  assert (length nodes = 2 ^ k)%nat as Hn.
  { unfold nodes. rewrite length_app, length_pairs, length_take, length_drop.
    replace (length hashes - u)%nat with ((length hashes - 2 ^ k) * 2)%nat by lia.
    rewrite Nat.div_mul by lia. lia. }
  destruct k as [|k]; [lia|].
  destruct (levels_spec (2 ^ S k) k nodes) as (r & -> & Hr); [|lia|].
  - pose proof (Nat.pow_gt_lin_r 2 (S k) ltac:(lia)). lia.
  - cbn [mbind option_bind]. rewrite Hr, take_ge by lia. done.
Qed.

(** ** Binding *)

(** The strings hashed while computing a root. *)
Fixpoint perfect_inputs (k : nat) (l : list bytes) : list bytes :=
  match k with
  | O => []
  | S k =>
      let left := take (2 ^ k) l in
      let right := drop (2 ^ k) l in
      (perfect_root k left ++ perfect_root k right) :: perfect_inputs k left ++ perfect_inputs k right
  end.

Fixpoint pairs_inputs (l : list bytes) : list bytes :=
  match l with
  | a :: b :: l => (a ++ b) :: pairs_inputs l
  | _ => []
  end.

Definition merkle_inputs (k : nat) (l : list bytes) : list bytes :=
  let upper := (2 * 2 ^ k - length l)%nat in
  pairs_inputs (drop upper l) ++ perfect_inputs k (take upper l ++ pairs (drop upper l)).

Definition tree_inputs (l : list bytes) : list bytes := merkle_inputs (tree_level (length l)) l.

Definition hashes_ok (l : list bytes) : Prop := Forall (fun h => length h = HASH_SIZE) l.

Lemma fast_hash_pair_inj S a b c d :
  length a = 32%nat -> length c = 32%nat -> (a ++ b) ∈ S -> (c ++ d) ∈ S ->
  fast_hash (a ++ b) = fast_hash (c ++ d) -> (a = c /\ b = d) \/ collides S.
Proof.
  intros Ha Hc HS HS' E. apply (hash_inj S) in E as [Eq|]; [|by right|done..].
  left. apply app_inj_1 in Eq; [done|lia].
Qed.

Lemma perfect_root_length k l :
  length l = (2 ^ k)%nat -> hashes_ok l -> length (perfect_root k l) = 32%nat.
Proof.
  destruct k as [|k]; intros Hl Hok; [|apply fast_hash_length].
  destruct l as [|a [|]]; cbn in Hl; try lia. by apply Forall_inv in Hok.
Qed.

Lemma perfect_root_binding S k l l' :
  length l = (2 ^ k)%nat -> length l' = (2 ^ k)%nat -> hashes_ok l -> hashes_ok l' ->
  perfect_inputs k l ⊆ S -> perfect_inputs k l' ⊆ S ->
  perfect_root k l = perfect_root k l' -> l = l' \/ collides S.
Proof.
  revert l l'. induction k as [|k IH]; intros l l' Hl Hl' Ho Ho' HS HS' E.
  - left. destruct l as [|a [|]], l' as [|b [|]]; cbn in *; try lia. congruence.
  - cbn [perfect_root perfect_inputs] in *. assert (2 ^ Datatypes.S k = 2 * 2 ^ k)%nat as E2 by (cbn; lia).
    apply list_subseteq_cons_iff in HS as [HS0 [HS1 HS2]%list_subseteq_app_iff_l].
    apply list_subseteq_cons_iff in HS' as [HS0' [HS1' HS2']%list_subseteq_app_iff_l].
    apply (fast_hash_pair_inj S) in E as [[E1 E3]|]; [|by right|..|done|done].
    + apply IH in E1 as [E1|]; [|by right|..]; try (rewrite length_take; lia); try by apply Forall_take.
      apply IH in E3 as [E3|]; [|by right|..]; try (rewrite length_drop; lia); try by apply Forall_drop.
      left. by rewrite <- (take_drop (2 ^ k) l), E1, E3, take_drop. all: done.
    + apply perfect_root_length; [rewrite length_take; lia|by apply Forall_take].
    + apply perfect_root_length; [rewrite length_take; lia|by apply Forall_take].
Qed.

Lemma pairs_binding S l l' :
  length l = length l' -> Nat.even (length l) = true -> hashes_ok l -> hashes_ok l' ->
  pairs_inputs l ⊆ S -> pairs_inputs l' ⊆ S ->
  pairs l = pairs l' -> l = l' \/ collides S.
Proof.
  revert l'. induction l as [|a|a b l IH] using pairs_ind; intros l' Hl He Ho Ho' HS HS' E.
  - left. by destruct l'.
  - done.
  - destruct l' as [|c [|d l']]; cbn in Hl; try lia. cbn [pairs pairs_inputs] in *. injection E as E1 E2.
    apply list_subseteq_cons_iff in HS as [HS0 HS1]. apply list_subseteq_cons_iff in HS' as [HS0' HS1'].
    apply Forall_cons in Ho as [Ha [Hb Ho]%Forall_cons].
    apply Forall_cons in Ho' as [Hc [Hd Ho']%Forall_cons].
    apply (fast_hash_pair_inj S) in E1 as [[-> ->]|]; [|by right|done..].
    destruct (IH l') as [->|]; [lia|done..|by left|by right].
Qed.

Lemma hashes_ok_pairs l : hashes_ok (pairs l).
Proof.
  induction l as [| |a b l IH] using pairs_ind; [by constructor..|].
  cbn [pairs]. constructor; [apply fast_hash_length|done].
Qed.

Lemma tree_level_spec n k :
  (2 ^ k < n \/ k = 0)%nat -> (n <= 2 * 2 ^ k)%nat -> k = tree_level n.
Proof.
  intros H1 H2. unfold tree_level. symmetry. destruct H1 as [H1| ->].
  - apply Nat.log2_unique; cbn [Nat.pow]; lia.
  - cbn in H2. by destruct n as [|[|[|]]]; try lia.
Qed.

Lemma tree_hash_level hashes :
  (1 <= length hashes)%nat -> Z.of_nat (length hashes) <= 2 ^ 28 ->
  tree_hash hashes = Some (merkle (tree_level (length hashes)) hashes).
Proof.
  intros H1 H2. destruct (tree_hash_merkle hashes) as (k & Hk & Hk' & ->); [done..|].
  by rewrite (tree_level_spec (length hashes) k).
Qed.

Lemma tree_level_bounds n :
  (0 < n)%nat -> (2 ^ tree_level n < n \/ tree_level n = 0)%nat /\ (n <= 2 * 2 ^ tree_level n)%nat.
Proof.
  intros Hn. unfold tree_level. destruct (decide (n = 1)%nat) as [->|]; [cbn; lia|].
  pose proof (Nat.log2_spec (n - 1) ltac:(lia)) as Hs. cbn [Nat.pow] in Hs. lia.
Qed.

(** The level of [2^k] nodes above the lowest leaves. *)
Lemma length_level k l u :
  (2 ^ k < length l \/ k = 0)%nat -> (0 < length l)%nat -> (length l <= 2 * 2 ^ k)%nat ->
  u = (2 * 2 ^ k - length l)%nat ->
  (u <= length l)%nat /\ (length l - u = (length l - 2 ^ k) * 2)%nat /\
  length (take u l ++ pairs (drop u l)) = (2 ^ k)%nat.
Proof.
  intros Hk H0 Hl Hu.
  assert (u <= length l)%nat by (destruct Hk as [| ->]; cbn [Nat.pow] in *; lia).
  assert (length l - u = (length l - 2 ^ k) * 2)%nat as Ed by (destruct Hk as [| ->]; cbn [Nat.pow] in *; lia).
  split; [done|]. split; [done|].
  rewrite length_app, length_pairs, length_take, length_drop, Ed, Nat.div_mul by lia.
  destruct Hk as [| ->]; cbn [Nat.pow] in *; lia.
Qed.

Lemma hashes_ok_level u l : hashes_ok l -> hashes_ok (take u l ++ pairs (drop u l)).
Proof. intros Hl. apply Forall_app. split; [by apply Forall_take|apply hashes_ok_pairs]. Qed.

(** The asserts: only lists of one to [2^28] hashes have a root. *)
Lemma tree_hash_domain l r :
  tree_hash l = Some r -> (1 <= length l)%nat /\ Z.of_nat (length l) <= 2 ^ 28.
Proof.
  intros E. unfold tree_hash in E. cbv zeta in E. apply bind_Some in E as (? & A%asserted_inv%Nat.ltb_lt & E).
  split; [lia|]. destruct (Nat.eqb_spec (length l) 1); [lia|]. destruct (Nat.eqb_spec (length l) 2); [lia|].
  apply bind_Some in E as (cnt & E & _). unfold tree_hash_cnt in E.
  apply bind_Some in E as (? & _ & E). apply bind_Some in E as (? & A'%asserted_inv & _). lia.
Qed.

Lemma tree_hash_length l r : hashes_ok l -> tree_hash l = Some r -> length r = 32%nat.
Proof.
  intros Ho E. destruct (tree_hash_domain l r E) as [H0 Hmax].
  rewrite tree_hash_level in E by lia. injection E as <-. unfold merkle.
  destruct (tree_level_bounds (length l)) as [Hb1 Hb2]; [lia|].
  apply perfect_root_length; [|by apply hashes_ok_level].
  by eapply length_level; [..|reflexivity]; [|lia|].
Qed.

Lemma merkle_binding k l l' :
  (2 ^ k < length l \/ k = 0)%nat -> (0 < length l)%nat -> (length l <= 2 * 2 ^ k)%nat ->
  length l = length l' -> hashes_ok l -> hashes_ok l' -> merkle k l = merkle k l' ->
  l = l' \/ collides (merkle_inputs k l ++ merkle_inputs k l').
Proof.
  intros Hk H0 Hle Hl Ho Ho' E. unfold merkle, merkle_inputs in *. rewrite <- Hl in *.
  set (u := (2 * 2 ^ k - length l)%nat) in *.
  destruct (length_level k l u Hk H0 Hle eq_refl) as (Hu & Hd & Hn).
  destruct (length_level k l' u) as (_ & _ & Hn'); [by rewrite <- Hl..|].
  match goal with |- _ \/ collides ?i => set (inputs := i) end.
  apply (perfect_root_binding inputs) in E as [Eq|]; [|by right|done|done|..].
  - apply app_inj_1 in Eq as [Et Ep]; [|rewrite !length_take; lia].
    apply (pairs_binding inputs) in Ep as [Ed|]; [|by right|..].
    + left. by rewrite <- (take_drop u l), Et, Ed, take_drop.
    + rewrite !length_drop. lia.
    + rewrite length_drop, Hd, Nat.even_mul. by rewrite orb_true_r.
    + by apply Forall_drop.
    + by apply Forall_drop.
    + intros x Hx. unfold inputs. rewrite !elem_of_app. tauto.
    + intros x Hx. unfold inputs. rewrite !elem_of_app. tauto.
  - by apply hashes_ok_level.
  - by apply hashes_ok_level.
  - intros x Hx. unfold inputs. rewrite !elem_of_app. tauto.
  - intros x Hx. unfold inputs. rewrite !elem_of_app. tauto.
Qed.

Lemma tree_binding l l' r :
  length l = length l' -> hashes_ok l -> hashes_ok l' ->
  tree_hash l = Some r -> tree_hash l' = Some r -> l = l' \/ collides (tree_inputs l ++ tree_inputs l').
Proof.
  intros Hl Ho Ho' E E'. destruct (tree_hash_domain l r E) as [H0 Hmax].
  rewrite tree_hash_level in E by lia. rewrite tree_hash_level in E' by lia.
  unfold tree_inputs. rewrite <- Hl in *. destruct (tree_level_bounds (length l)) as [Hb1 Hb2]; [lia|].
  apply merkle_binding; try done. congruence.
Qed.

End tree_hash.

(** ** Correctness *)

(** [tree_hash_cnt] ends for every count from 3 to [2^28], the range of its
    asserts, and returns the
    largest power of two strictly below the count. For a count that is itself a
    power of two this is half of it, and not [1 << floor(log2(count))]. *)
Theorem tree_hash_cnt_power count :
  3 <= count <= 2 ^ 28 ->
  (exists k, (1 <= k)%nat /\ tree_hash_cnt count = Some (2 ^ Z.of_nat k) /\
     2 ^ Z.of_nat k < count <= 2 ^ Z.of_nat (S k)) /\
  (forall n, count = 2 ^ n -> tree_hash_cnt count = Some (2 ^ (Z.log2 count - 1))).
Proof.
  intros Hc. pose proof (tree_hash_cnt_spec count Hc) as (k & Hk & E & Hb).
  split; [by exists k|]. intros n ->. rewrite E. do 2 f_equal.
  assert (0 <= n) by (destruct (decide (0 <= n)); [done|rewrite Z.pow_neg_r in Hc by lia; lia]).
  rewrite Z.log2_pow2 by done. rewrite <- Z.pow_lt_mono_r_iff, <- Z.pow_le_mono_r_iff in Hb by lia. lia.
Qed.

Lemma tree_hash_cnt_power_witness :
  tree_hash_cnt 4 = Some 2 /\
  exists k, (1 <= k)%nat /\ tree_hash_cnt 100 = Some (2 ^ Z.of_nat k) /\
    2 ^ Z.of_nat k < 100 <= 2 ^ Z.of_nat (S k).
Proof.
  destruct (tree_hash_cnt_power 4) as [_ H]; [by_eval|].
  destruct (tree_hash_cnt_power 100) as [H' _]; [by_eval|].
  split; [exact (H 2 eq_refl)|exact H'].
Defined.

(** C32. [tree_hash] of one to [2^28] hashes, the range of its asserts, is the root
    of the Merkle tree whose lower level holds the leaves that do not fit on the
    level of [2^k] nodes: the two kinds of loops over one buffer, each level
    written over the one below it, compute the recursive definition.  For any
    other number of hashes an assert fails. *)
Theorem tree_hash_is_merkle `{!FastHash} hashes :
  tree_hash hashes
  = if decide ((1 <= length hashes)%nat /\ Z.of_nat (length hashes) <= 2 ^ 28)
    then Some (merkle (tree_level (length hashes)) hashes) else None.
Proof.
  case_decide as D; [by destruct D; apply tree_hash_level|].
  destruct (tree_hash hashes) as [r|] eqn:E; [|done]. by apply tree_hash_domain in E.
Qed.

(** The root commits to the hashes: two different lists of the same length
    have different roots, unless two different strings that were hashed to
    compute the two roots have the same digest. *)
Theorem tree_hash_binding `{!FastHash} l l' :
  length l = length l' -> (1 <= length l)%nat -> Z.of_nat (length l) <= 2 ^ 28 ->
  hashes_ok l -> hashes_ok l' -> ~ collides (tree_inputs l ++ tree_inputs l') ->
  l <> l' -> tree_hash l <> tree_hash l'.
Proof.
  intros Hl H0 Hmax Ho Ho' Hc Hne E. rewrite tree_hash_level in E by done.
  destruct (tree_binding l l' (merkle (tree_level (length l)) l)) as [|]; try done.
  by apply tree_hash_level.
Qed.

Lemma tree_hash_binding_witness :
  @tree_hash example_hash (map (replicate 32) [1; 2; 3])
  <> @tree_hash example_hash (map (replicate 32) [1; 3; 2]).
Proof.
  apply (@tree_hash_binding example_hash (map (replicate 32) [1; 2; 3]) (map (replicate 32) [1; 3; 2]));
    [reflexivity|by_eval|by_eval|by_eval|by_eval| |by_eval].
  apply no_collision_sound. vm_compute. reflexivity.
Defined.

End TreeHash.
