(* ===== verification/Serialization.v ===== *)
(** * Binary archives

    [src/serialization/binary_archive.h], [container.h], [crypto.h],
    [string.h] and the entry points [serialize], [parse_binary] and
    [dump_binary]. A reader takes the bytes left in the stream and has no
    result when the stream goes bad or a serializer returns [false]: every
    [FIELD] and every container loop then returns [false] up to the caller. *)

From S2P Require Import Prelude Varint.

Module Serialization.

Abbreviation reader A := (bytes -> option (A * bytes)).
Abbreviation writer A := (A -> option bytes).

(** ** [binary_archive] *)

(** The loop of [serialize_uint] for a type of [w] bits, [n] bytes to go. *)
Fixpoint get_uint_loop (w : Z) (n : nat) (shift ret : Z) (inp : bytes) : option (Z * bytes) :=
  match n with
  | O => Some (ret, inp)
  | S n =>
      match inp with
      | [] => None
      | c :: inp => get_uint_loop w n (shift + 8) (wrap w (ret + wrap w (c ≪ shift))) inp
      end
  end.

Definition get_uint (size : nat) : reader Z := get_uint_loop (8 * Z.of_nat size) size 0 0.

Fixpoint put_uint_loop (n : nat) (v : Z) : bytes :=
  match n with
  | O => []
  | S n => Z.land v 0xff :: put_uint_loop n (v ≫ 8)
  end.

Definition put_uint (size : nat) : writer Z := fun v => Some (put_uint_loop size v).

Definition get_blob (len : nat) : reader bytes := fun inp =>
  if (len <=? length inp)%nat then Some (take len inp, drop len inp) else None.

Definition put_blob : writer bytes := Some.

(** [serialize_uvarint] drops the return code of [read_varint]. *)
Definition get_varint (bits : Z) : reader Z := fun inp =>
  let '(_, v, rest) := Varint.read_varint bits inp in Some (v, rest).

Definition put_varint : writer Z := fun v => Some (Varint.write_varint v).

(** ** Containers *)

(** [n] elements one after the other. *)
Fixpoint get_n {A} (get : reader A) (n : nat) (inp : bytes) : option (list A * bytes) :=
  match n with
  | O => Some ([], inp)
  | S n => '(x, inp) ← get inp; '(l, inp) ← get_n get n inp; Some (x :: l, inp)
  end.

Fixpoint put_n {A} (put : writer A) (l : list A) : option bytes :=
  match l with
  | [] => Some []
  | x :: l => b ← put x; c ← put_n put l; Some (b ++ c)
  end.

Definition get_container {A} (get : reader A) : reader (list A) := fun inp =>
  '(cnt, inp) ← get_varint 64 inp;
  if Z.of_nat (length inp) <? cnt then None else get_n get (Z.to_nat cnt) inp.

Definition put_container {A} (put : writer A) : writer (list A) := fun l =>
  n ← put_varint (Z.of_nat (length l)); b ← put_n put l; Some (n ++ b).

(** [std::string]: a length and the characters. *)
Definition get_string : reader bytes := fun inp =>
  '(size, inp) ← get_varint 64 inp;
  if Z.of_nat (length inp) <? size then None else get_blob (Z.to_nat size) inp.

Definition put_string : writer bytes := fun s =>
  n ← put_varint (Z.of_nat (length s)); Some (n ++ s).

(** [std::vector<crypto::signature>] of a size known in advance. *)
Definition get_signatures (cnt : nat) : reader (list bytes) := fun inp =>
  if Z.of_nat (length inp) <? u64 (Z.of_nat cnt * 64) then None else get_n (get_blob 64) cnt inp.

Definition put_signatures : writer (list bytes) := put_n put_blob.

(** ** Entry points *)

(** [parse_binary]: nothing may be left in the stream. *)
Definition parse_binary {A} (get : reader A) (blob : bytes) : option A :=
  '(v, rest) ← get blob; match rest with [] => Some v | _ => None end.

Definition dump_binary {A} (put : writer A) (v : A) : option bytes := put v.

(** ** The contract of a serializer

    Values that are [ok] are written, and reading what was written gives the
    value back and leaves the rest of the stream untouched. *)
Class Codec {A} (ok : A -> Prop) (put : writer A) (get : reader A) : Prop :=
  get_put a : ok a -> exists b, put a = Some b /\ forall rest, get (b ++ rest) = Some (a, rest).

(** Writers that write at least one byte. *)
Class NonEmpty {A} (ok : A -> Prop) (put : writer A) : Prop :=
  put_nonempty a b : ok a -> put a = Some b -> b <> [].

Lemma parse_dump {A} ok (put : writer A) get `{!Codec ok put get} a :
  ok a -> exists b, dump_binary put a = Some b /\ parse_binary get b = Some a.
Proof.
  intros Ha. destruct (get_put a Ha) as (b & Hb & G). exists b. split; [done|].
  unfold parse_binary. specialize (G []). rewrite app_nil_r in G. by rewrite G.
Qed.

Lemma put_uint_digits n v : put_uint_loop n v = le_digits 256 n v.
Proof.
  revert v. induction n as [|n IH]; intros v; [done|]. cbn [put_uint_loop le_digits].
  rewrite IH, shiftr_div by lia. f_equal. apply (land_mask v 8). lia.
Qed.

Lemma get_uint_loop_spec w n shift ret l rest :
  0 <= shift -> length l = n -> is_bytes l -> 0 <= ret < 2 ^ shift ->
  shift + 8 * Z.of_nat n <= w ->
  get_uint_loop w n shift ret (l ++ rest) = Some (ret + 2 ^ shift * le_val 256 l, rest).
Proof.
  revert shift ret l. induction n as [|n IH]; intros shift ret l Hs Hl Hb Hr Hw.
  - destruct l; [|done]. cbn. do 2 f_equal. lia.
  - destruct l as [|c l]; [done|]. apply Forall_cons in Hb as [Hc Hb]. cbn [app get_uint_loop le_val].
    rewrite shiftl_mul by done. unfold fits in Hc.
    assert (2 ^ (shift + 8) = 256 * 2 ^ shift) as E by (rewrite Z.pow_add_r by lia; lia).
    assert (2 ^ (shift + 8) <= 2 ^ w) by (apply Z.pow_le_mono_r; lia).
    rewrite (wrap_small w (c * _)) by (unfold fits; nia).
    rewrite (wrap_small w (ret + _)) by (unfold fits; nia).
    rewrite IH; [|lia|cbn in Hl; lia|done|nia|lia]. do 2 f_equal. rewrite E. lia.
Qed.

#[global] Instance uint_codec size : Codec (fits (8 * Z.of_nat size)) (put_uint size) (get_uint size).
Proof.
  intros v Hv. eexists. split; [done|]. intros rest. unfold get_uint. rewrite put_uint_digits.
  rewrite get_uint_loop_spec; [|lia|apply length_le_digits|apply (le_digits_range 256); lia|lia|lia].
  rewrite le_val_digits by lia. do 2 f_equal. rewrite Z.mul_1_l. apply Z.mod_small.
  change 256 with (2 ^ 8). by rewrite <- Z.pow_mul_r by lia.
Qed.

Lemma blob_codec len : Codec (fun b : bytes => length b = len) put_blob (get_blob len).
Proof.
  intros b Hb. exists b. split; [done|]. intros rest. unfold get_blob.
  rewrite (proj2 (Nat.leb_le _ _)) by (rewrite length_app; lia).
  by rewrite take_app_length', drop_app_length' by lia.
Qed.

#[global] Instance blob32_codec : Codec (fun b : bytes => length b = 32%nat) put_blob (get_blob 32).
Proof. apply blob_codec. Qed.

Lemma varint_codec bits : 0 <= bits -> Codec (fits bits) put_varint (get_varint bits).
Proof.
  intros Hb v Hv. eexists. split; [done|]. intros rest. unfold get_varint.
  by rewrite Varint.read_write_app.
Qed.

#[global] Instance varint8_codec : Codec (fits 8) put_varint (get_varint 8).
Proof. by apply varint_codec. Qed.

#[global] Instance varint64_codec : Codec (fits 64) put_varint (get_varint 64).
Proof. by apply varint_codec. Qed.

#[global] Instance varint_nonempty ok : NonEmpty ok put_varint.
Proof.
  intros v b _ [= <-]. unfold Varint.write_varint. cbn [Varint.write_varint_loop]. by destruct (_ <=? _).
Qed.

#[global] Instance uint_nonempty ok size : TCEq (size =? 0)%nat false -> NonEmpty ok (put_uint size).
Proof. intros Hs v b _ [= <-]. destruct size; [by apply TCEq_eq in Hs|done]. Qed.

#[global] Instance blob_nonempty len :
  TCEq (len =? 0)%nat false -> NonEmpty (fun b : bytes => length b = len) put_blob.
Proof. intros Hl v b Hv [= <-]. intros ->. apply TCEq_eq in Hl. by destruct len. Qed.

Lemma get_put_n {A} ok (put : writer A) get `{!Codec ok put get} l :
  Forall ok l -> exists b, put_n put l = Some b /\ forall rest, get_n get (length l) (b ++ rest) = Some (l, rest).
Proof.
  induction 1 as [|x l Hx Hl (c & Hc & G)]; [by exists []|].
  destruct (get_put x Hx) as (b & Hb & G'). exists (b ++ c). cbn [put_n length get_n].
  rewrite Hb, Hc. cbn [mbind option_bind]. split; [done|]. intros rest.
  rewrite <- app_assoc, G'. cbn [mbind option_bind]. by rewrite G.
Qed.

Lemma put_n_length {A} ok (put : writer A) `{!NonEmpty ok put} l b :
  Forall ok l -> put_n put l = Some b -> (length l <= length b)%nat.
Proof.
  intros Hl. revert b. induction Hl as [|x l Hx Hl IH]; intros b; cbn [put_n length]; [lia|].
  intros (b1 & E1 & (b2 & E2 & [= <-])%bind_Some)%bind_Some.
  pose proof (put_nonempty _ _ Hx E1) as Hne. destruct b1; [done|].
  rewrite length_app. cbn [length]. pose proof (IH _ E2). lia.
Qed.

#[global] Instance container_codec {A} ok (put : writer A) get :
  Codec ok put get -> NonEmpty ok put ->
  Codec (fun l => Forall ok l /\ Z.of_nat (length l) < 2 ^ 64) (put_container put) (get_container get).
Proof.
  intros HC HN l [Hl Hlen]. destruct (get_put_n ok put get l Hl) as (b & Hb & G).
  unfold put_container. cbn [put_varint mbind option_bind]. rewrite Hb. cbn [mbind option_bind].
  eexists. split; [done|]. intros rest. unfold get_container, get_varint. rewrite <- app_assoc.
  rewrite Varint.read_write_app by (unfold fits; lia). cbn [mbind option_bind].
  pose proof (put_n_length ok put l b Hl Hb). rewrite (proj2 (Z.ltb_ge _ _)) by (rewrite length_app; lia).
  by rewrite Nat2Z.id.
Qed.

#[global] Instance container_nonempty {A} ok (put : writer A) : NonEmpty ok (put_container put).
Proof.
  intros l b _ (n & Hn & (c & Hc & [= <-])%bind_Some)%bind_Some.
  apply (put_nonempty (ok := fun _ => True)) in Hn; [|done]. by destruct n.
Qed.

#[global] Instance string_codec : Codec (fun s : bytes => Z.of_nat (length s) < 2 ^ 64) put_string get_string.
Proof.
  intros s Hs. eexists. split; [done|]. intros rest. unfold get_string, get_varint. rewrite <- app_assoc.
  rewrite Varint.read_write_app by (unfold fits; lia). cbn [mbind option_bind].
  rewrite (proj2 (Z.ltb_ge _ _)) by (rewrite length_app; lia). rewrite Nat2Z.id.
  unfold get_blob. rewrite (proj2 (Nat.leb_le _ _)) by (rewrite length_app; lia).
  by rewrite take_app_length', drop_app_length' by lia.
Qed.


Lemma put_string_inj s1 s2 : put_string s1 = put_string s2 -> s1 = s2.
Proof.
  unfold put_string. cbn [put_varint mbind option_bind]. intros [= E].
  set (bits := Z.of_nat (length s1) + Z.of_nat (length s2)).
  pose proof (Z.pow_gt_lin_r 2 bits ltac:(lia) ltac:(lia)) as Hb.
  apply (f_equal (Varint.read_varint bits)) in E.
  rewrite !Varint.read_write_app in E by (unfold fits; lia). congruence.
Qed.

(** A sequence whose length the reader knows. *)
#[global] Instance sequence_codec {A} ok (put : writer A) get n :
  Codec ok put get -> Codec (fun l => Forall ok l /\ length l = n) (put_n put) (get_n get n).
Proof. intros HC l [Hl <-]. by apply (get_put_n ok). Qed.

Lemma length_put_blobs len l b :
  Forall (fun b : bytes => length b = len) l -> put_n put_blob l = Some b ->
  length b = (length l * len)%nat.
Proof.
  intros Hl. revert b. induction Hl as [|x l Hx Hl IH]; intros b; cbn [put_n length]; [by intros [= <-]|].
  intros (b1 & [= <-] & (b2 & E2 & [= <-])%bind_Some)%bind_Some.
  rewrite length_app, (IH _ E2). lia.
Qed.

#[global] Instance signatures_codec cnt :
  Codec (fun l => Forall (fun b : bytes => length b = 64%nat) l /\ length l = cnt)
    put_signatures (get_signatures cnt).
Proof.
  intros l [Hl <-]. destruct (@get_put_n _ _ put_blob (get_blob 64) (blob_codec 64) l Hl) as (b & Hb & G).
  exists b. split; [done|]. intros rest. unfold get_signatures.
  pose proof (length_put_blobs 64 l b Hl Hb) as E.
  rewrite (proj2 (Z.ltb_ge _ _)); [apply G|]. rewrite length_app.
  assert (u64 (Z.of_nat (length l) * 64) <= Z.of_nat (length l) * 64) by (apply Z.mod_le; lia). lia.
Qed.

(** ** Readers only return values that can be written *)
Class Sound {A} (ok : A -> Prop) (get : reader A) : Prop :=
  get_ok inp a rest : is_bytes inp -> get inp = Some (a, rest) -> ok a /\ is_bytes rest.

#[global] Instance varint_sound bits : TCEq (0 <=? bits) true -> Sound (fits bits) (get_varint bits).
Proof.
  intros Hb inp v rest Hin. unfold get_varint.
  destruct (Varint.read_varint bits inp) as [[n u] r] eqn:E. intros [= <- <-].
  apply TCEq_eq, Z.leb_le in Hb. by apply Varint.read_varint_fits in E.
Qed.

Lemma get_uint_loop_range w n shift ret inp v rest :
  0 <= w -> is_bytes inp -> fits w ret ->
  get_uint_loop w n shift ret inp = Some (v, rest) -> fits w v /\ is_bytes rest.
Proof.
  intros Hw. revert shift ret inp. induction n as [|n IH]; intros shift ret inp Hin Hr; cbn [get_uint_loop].
  { intros [= <- <-]. done. }
  destruct inp as [|c inp]; [done|]. apply Forall_cons in Hin as [_ Hin].
  apply IH; [done|]. by apply wrap_range.
Qed.

#[global] Instance uint_sound size : Sound (fits (8 * Z.of_nat size)) (get_uint size).
Proof. intros inp v rest Hin. apply get_uint_loop_range; [lia|done|]. unfold fits. lia. Qed.

#[global] Instance blob_sound len : Sound (fun b : bytes => length b = len) (get_blob len).
Proof.
  intros inp b rest Hin. unfold get_blob. destruct (Nat.leb_spec len (length inp)); [|done].
  intros [= <- <-]. split; [rewrite length_take; lia|by apply Forall_drop].
Qed.

#[global] Instance sequence_sound {A} ok (get : reader A) n :
  Sound ok get -> Sound (fun l => Forall ok l /\ length l = n) (get_n get n).
Proof.
  intros HS. induction n as [|n IH]; intros inp l rest Hin; cbn [get_n]; [intros [= <- <-]; done|].
  intros ([x r] & Ex & ([l' r'] & El & [= <- <-])%bind_Some)%bind_Some.
  apply HS in Ex as [Hx Hr]; [|done]. apply IH in El as [[Hl Hn] Hr']; [|done].
  split; [split; [by constructor|by cbn; f_equal]|done].
Qed.

#[global] Instance container_sound {A} ok (get : reader A) :
  Sound ok get -> Sound (fun l => Forall ok l /\ Z.of_nat (length l) < 2 ^ 64) (get_container get).
Proof.
  intros HS inp l rest Hin. unfold get_container.
  intros ([cnt r] & Ec & E)%bind_Some. apply (get_ok (ok := fits 64)) in Ec as [Hc Hr]; [|done].
  destruct (_ <? cnt); [done|]. apply sequence_sound with (ok := ok) in E as [[Hl Hn] Hr']; [|done..].
  unfold fits in Hc. repeat split; [done|lia|done].
Qed.

#[global] Instance string_sound : Sound (fun s : bytes => Z.of_nat (length s) < 2 ^ 64) get_string.
Proof.
  intros inp s rest Hin. unfold get_string.
  intros ([cnt r] & Ec & E)%bind_Some. apply (get_ok (ok := fits 64)) in Ec as [Hc Hr]; [|done].
  destruct (_ <? cnt); [done|]. apply get_ok in E as [Hl Hr']; [|done].
  unfold fits in Hc. split; [lia|done].
Qed.

#[global] Instance signatures_sound cnt :
  Sound (fun l => Forall (fun b : bytes => length b = 64%nat) l /\ length l = cnt) (get_signatures cnt).
Proof.
  intros inp l rest Hin. unfold get_signatures. destruct (_ <? _); [done|].
  apply sequence_sound; [apply _|done].
Qed.

(** What a parsed blob stands for: writing the value gives a blob with the
    same meaning. *)
Lemma parse_dump_parse {A} ok (put : writer A) get `{!Codec ok put get, !Sound ok get} blob a :
  is_bytes blob -> parse_binary get blob = Some a ->
  ok a /\ exists b, dump_binary put a = Some b /\ parse_binary get b = Some a.
Proof.
  intros Hb ([v rest] & E & H)%bind_Some. destruct rest; [|done]. injection H as <-.
  apply (get_ok (ok := ok)) in E as [Ha _]; [|done]. split; [done|]. by apply (parse_dump ok put get).
Qed.

(** ** Readers do not go back *)
Class Shrinks {A} (get : reader A) : Prop :=
  get_shrinks inp a rest : get inp = Some (a, rest) -> (length rest <= length inp)%nat.

#[global] Instance varint_shrinks bits : Shrinks (get_varint bits).
Proof.
  intros inp v rest. unfold get_varint. destruct (Varint.read_varint bits inp) as [[n u] r] eqn:E.
  intros [= <- <-]. by apply Varint.read_loop_shorter in E.
Qed.

#[global] Instance uint_shrinks size : Shrinks (get_uint size).
Proof.
  intros inp v rest. unfold get_uint.
  assert (forall n w shift ret inp, get_uint_loop w n shift ret inp = Some (v, rest) ->
    (length rest <= length inp)%nat) as L; [|by intros H%L].
  clear. induction n as [|n IH]; intros w shift ret inp; cbn [get_uint_loop]; [by intros [= <- <-]|].
  destruct inp as [|c inp]; [done|]. cbn [length]. intros H%IH. lia.
Qed.

#[global] Instance blob_shrinks len : Shrinks (get_blob len).
Proof.
  intros inp b rest. unfold get_blob. destruct (_ <=? _)%nat; [|done]. intros [= <- <-].
  rewrite length_drop. lia.
Qed.

#[global] Instance sequence_shrinks {A} (get : reader A) n : Shrinks get -> Shrinks (get_n get n).
Proof.
  intros HS. induction n as [|n IH]; intros inp l rest; cbn [get_n]; [by intros [= <- <-]|].
  intros ([x r] & Ex%HS & ([l' r'] & El%IH & [= <- <-])%bind_Some)%bind_Some. lia.
Qed.

#[global] Instance container_shrinks {A} (get : reader A) : Shrinks get -> Shrinks (get_container get).
Proof.
  intros HS inp l rest. unfold get_container. intros ([cnt r] & Ec%get_shrinks & E)%bind_Some.
  destruct (_ <? cnt); [done|]. apply get_shrinks in E. lia.
Qed.

#[global] Instance string_shrinks : Shrinks get_string.
Proof.
  intros inp l rest. unfold get_string. intros ([cnt r] & Ec%get_shrinks & E)%bind_Some.
  destruct (_ <? cnt); [done|]. apply get_shrinks in E. lia.
Qed.

(** Readers and writers of the fields of a record, one after the other: uses
    the contract of the next field. *)
Ltac put_field_with get' :=
  match goal with
  | |- context [mbind _ (?put ?v)] =>
      let b := fresh "b" in let E := fresh "E" in let G := fresh "G" in
      destruct (get_put (put := put) (get := get') v) as (b & E & G);
        [solve [assumption | done | unfold fits; lia]|rewrite E; clear E; cbn [mbind option_bind]]
  end.

Ltac put_field := put_field_with open_constr:(_).

Ltac read_fields :=
  repeat match goal with G : forall rest, ?get (?b ++ rest) = _ |- context [?get (?b ++ _)] =>
    rewrite G; cbn [mbind option_bind Z.eqb Pos.eqb orb negb] end.

Ltac get_fields := eexists; split; [reflexivity|intros ?rest; rewrite <- ?app_assoc, ?app_nil_l; read_fields].

Ltac codec := repeat put_field; get_fields; done.

(** Opens a successful reader, field by field. *)
Ltac read_ok :=
  repeat match goal with
  | H : mbind _ _ = Some _ |- _ =>
      let x := fresh "x" in let r := fresh "r" in let E := fresh "E" in
      apply bind_Some in H as ([x r] & E & H)
  | H : (if ?c then _ else _) = Some _ |- _ => destruct c eqn:?; try discriminate H
  | H : Some _ = Some _ |- _ => injection H; clear H; intros; subst
  | E : _ ?inp = Some _, Hin : is_bytes ?inp |- _ =>
      apply (get_ok _ _ _ Hin) in E as [? ?]
  end.

End Serialization.
