(* ===== verification/Transaction.v ===== *)
(** * Transactions and blocks

    The structures of [src/cryptonote_basic/cryptonote_basic.h] and
    [src/ringct/rctTypes.h] with their binary serialization. Only the fields
    that are part of the serialized form are modelled: caches of hashes and the
    members a node reconstructs after parsing (the mix ring, key images of a
    ring signature, the commitments of a range proof) are not. *)

From S2P Require Import Prelude Varint Serialization.
Import Serialization.

Module Transaction.

(** ** Outputs and inputs *)

Inductive txout_target_v :=
  | txout_to_script (keys : list bytes) (script : bytes)
  | txout_to_scripthash (hash : bytes)
  | txout_to_key (key : bytes).

Definition put_uint8s : writer bytes := put_container (put_uint 1).
Definition get_uint8s : reader bytes := get_container (get_uint 1).

(** [txout_to_script::do_serialize]. *)
Definition put_txout_to_script (keys : list bytes) (script : bytes) : option bytes :=
  b ← put_container put_blob keys; c ← put_uint8s script; Some (b ++ c).

Definition get_txout_to_script : reader (list bytes * bytes) := fun inp =>
  '(keys, inp) ← get_container (get_blob 32) inp;
  '(script, inp) ← get_uint8s inp;
  Some ((keys, script), inp).

Definition put_txout_target (t : txout_target_v) : option bytes :=
  match t with
  | txout_to_script keys script =>
      tag ← put_uint 1 0; b ← put_txout_to_script keys script; Some (tag ++ b)
  | txout_to_scripthash hash => tag ← put_uint 1 1; b ← put_blob hash; Some (tag ++ b)
  | txout_to_key key => tag ← put_uint 1 2; b ← put_blob key; Some (tag ++ b)
  end.

Definition get_txout_target : reader txout_target_v := fun inp =>
  '(t, inp) ← get_uint 1 inp;
  if t =? 0x0 then
    '((keys, script), inp) ← get_txout_to_script inp; Some (txout_to_script keys script, inp)
  else if t =? 0x1 then '(hash, inp) ← get_blob 32 inp; Some (txout_to_scripthash hash, inp)
  else if t =? 0x2 then '(key, inp) ← get_blob 32 inp; Some (txout_to_key key, inp)
  else None.

Inductive txin_v :=
  | txin_gen (height : Z)
  | txin_to_script (prev : bytes) (prevout : Z) (sigset : bytes)
  | txin_to_scripthash (prev : bytes) (prevout : Z) (keys : list bytes) (script sigset : bytes)
  | txin_to_key (amount : Z) (key_offsets : list Z) (k_image : bytes).

Definition put_txin (t : txin_v) : option bytes :=
  match t with
  | txin_gen height => tag ← put_uint 1 0xff; b ← put_varint height; Some (tag ++ b)
  | txin_to_script prev prevout sigset =>
      tag ← put_uint 1 0x0; b ← put_blob prev; c ← put_varint prevout; d ← put_uint8s sigset;
      Some (tag ++ b ++ c ++ d)
  | txin_to_scripthash prev prevout keys script sigset =>
      tag ← put_uint 1 0x1; b ← put_blob prev; c ← put_varint prevout;
      d ← put_container put_blob keys; e ← put_uint8s script; f ← put_uint8s sigset;
      Some (tag ++ b ++ c ++ d ++ e ++ f)
  | txin_to_key amount key_offsets k_image =>
      tag ← put_uint 1 0x2; b ← put_varint amount; c ← put_container put_varint key_offsets;
      d ← put_blob k_image; Some (tag ++ b ++ c ++ d)
  end.

Definition get_txin : reader txin_v := fun inp =>
  '(t, inp) ← get_uint 1 inp;
  if t =? 0xff then '(height, inp) ← get_varint 64 inp; Some (txin_gen height, inp)
  else if t =? 0x0 then
    '(prev, inp) ← get_blob 32 inp; '(prevout, inp) ← get_varint 64 inp;
    '(sigset, inp) ← get_uint8s inp; Some (txin_to_script prev prevout sigset, inp)
  else if t =? 0x1 then
    '(prev, inp) ← get_blob 32 inp; '(prevout, inp) ← get_varint 64 inp;
    '(keys, inp) ← get_container (get_blob 32) inp; '(script, inp) ← get_uint8s inp;
    '(sigset, inp) ← get_uint8s inp;
    Some (txin_to_scripthash prev prevout keys script sigset, inp)
  else if t =? 0x2 then
    '(amount, inp) ← get_varint 64 inp; '(key_offsets, inp) ← get_container (get_varint 64) inp;
    '(k_image, inp) ← get_blob 32 inp; Some (txin_to_key amount key_offsets k_image, inp)
  else None.

Record tx_out := { amount : Z; target : txout_target_v }.

Definition put_tx_out (o : tx_out) : option bytes :=
  b ← put_varint (amount o); c ← put_txout_target (target o); Some (b ++ c).

Definition get_tx_out : reader tx_out := fun inp =>
  '(a, inp) ← get_varint 64 inp; '(t, inp) ← get_txout_target inp;
  Some ({| amount := a; target := t |}, inp).

(** ** The prefix *)

Definition MAX_TRANSACTION_VERSION : Z := 3.

Record transaction_prefix := {
  version : Z;
  unlock_time : Z;
  vin : list txin_v;
  vout : list tx_out;
  extra : bytes
}.

Definition version_ok (v : Z) : bool := negb ((v =? 0) || (MAX_TRANSACTION_VERSION <? v)).

Definition put_prefix (p : transaction_prefix) : option bytes :=
  b ← put_varint (version p);
  if version_ok (version p) then
    c ← put_varint (unlock_time p); d ← put_container put_txin (vin p);
    e ← put_container put_tx_out (vout p); f ← put_uint8s (extra p);
    Some (b ++ c ++ d ++ e ++ f)
  else None.

Definition get_prefix : reader transaction_prefix := fun inp =>
  '(v, inp) ← get_varint 64 inp;
  if version_ok v then
    '(u, inp) ← get_varint 64 inp; '(ins, inp) ← get_container get_txin inp;
    '(outs, inp) ← get_container get_tx_out inp; '(x, inp) ← get_uint8s inp;
    Some ({| version := v; unlock_time := u; vin := ins; vout := outs; extra := x |}, inp)
  else None.

(** ** Block headers *)

Record block_header := {
  major_version : Z;
  minor_version : Z;
  timestamp : Z;
  prev_id : bytes;
  nonce : Z
}.

Definition put_header (h : block_header) : option bytes :=
  b ← put_varint (major_version h); c ← put_varint (minor_version h);
  d ← put_varint (timestamp h); e ← put_blob (prev_id h); f ← put_uint 4 (nonce h);
  Some (b ++ c ++ d ++ e ++ f).

Definition get_header : reader block_header := fun inp =>
  '(ma, inp) ← get_varint 8 inp; '(mi, inp) ← get_varint 8 inp; '(t, inp) ← get_varint 64 inp;
  '(p, inp) ← get_blob 32 inp; '(n, inp) ← get_uint 4 inp;
  Some ({| major_version := ma; minor_version := mi; timestamp := t; prev_id := p; nonce := n |}, inp).


(** ** Ring signatures ([rctTypes.h]) *)

Definition RCTTypeNull : Z := 0.
Definition RCTTypeFull : Z := 1.
Definition RCTTypeSimple : Z := 2.
Definition RCTTypeBulletproof : Z := 3.

Record ecdhTuple := { ecdh_mask : bytes; ecdh_amount : bytes }.

Definition put_ecdh (e : ecdhTuple) : option bytes :=
  b ← put_blob (ecdh_mask e); c ← put_blob (ecdh_amount e); Some (b ++ c).

Definition get_ecdh : reader ecdhTuple := fun inp =>
  '(m, inp) ← get_blob 32 inp; '(a, inp) ← get_blob 32 inp;
  Some ({| ecdh_mask := m; ecdh_amount := a |}, inp).

Record mgSig := { ss : list (list bytes); cc : bytes }.

(** [sizeof(boroSig)] and [sizeof(key64)]. *)
Definition sizeof_boroSig : nat := (64 * 32 + 64 * 32 + 32)%nat.
Definition sizeof_key64 : nat := (64 * 32)%nat.

(** A Borromean signature ([boroSig], two [key64] and a key) and 64 commitments. *)
Record rangeSig := { asig : bytes; Ci : bytes }.

Definition put_rangeSig (r : rangeSig) : option bytes :=
  b ← put_blob (asig r); c ← put_blob (Ci r); Some (b ++ c).

Definition get_rangeSig : reader rangeSig := fun inp =>
  '(a, inp) ← get_blob sizeof_boroSig inp; '(c, inp) ← get_blob sizeof_key64 inp;
  Some ({| asig := a; Ci := c |}, inp).

Record Bulletproof := {
  bp_A : bytes; bp_S : bytes; bp_T1 : bytes; bp_T2 : bytes; bp_taux : bytes; bp_mu : bytes;
  bp_L : list bytes; bp_R : list bytes; bp_a : bytes; bp_b : bytes; bp_t : bytes
}.

(** The check at the end of [Bulletproof::do_serialize]. *)
Definition bp_sizes_ok (L R : list bytes) : bool :=
  negb ((length L =? 0)%nat || negb (length L =? length R)%nat).

Definition put_bulletproof (p : Bulletproof) : option bytes :=
  b1 ← put_blob (bp_A p); b2 ← put_blob (bp_S p); b3 ← put_blob (bp_T1 p); b4 ← put_blob (bp_T2 p);
  b5 ← put_blob (bp_taux p); b6 ← put_blob (bp_mu p);
  b7 ← put_container put_blob (bp_L p); b8 ← put_container put_blob (bp_R p);
  b9 ← put_blob (bp_a p); b10 ← put_blob (bp_b p); b11 ← put_blob (bp_t p);
  if bp_sizes_ok (bp_L p) (bp_R p)
  then Some (b1 ++ b2 ++ b3 ++ b4 ++ b5 ++ b6 ++ b7 ++ b8 ++ b9 ++ b10 ++ b11) else None.

Definition get_bulletproof : reader Bulletproof := fun inp =>
  '(A, inp) ← get_blob 32 inp; '(S', inp) ← get_blob 32 inp;
  '(T1, inp) ← get_blob 32 inp; '(T2, inp) ← get_blob 32 inp;
  '(taux, inp) ← get_blob 32 inp; '(mu, inp) ← get_blob 32 inp;
  '(L, inp) ← get_container (get_blob 32) inp; '(R, inp) ← get_container (get_blob 32) inp;
  '(a, inp) ← get_blob 32 inp; '(b, inp) ← get_blob 32 inp; '(t, inp) ← get_blob 32 inp;
  if bp_sizes_ok L R
  then Some ({| bp_A := A; bp_S := S'; bp_T1 := T1; bp_T2 := T2; bp_taux := taux; bp_mu := mu;
                bp_L := L; bp_R := R; bp_a := a; bp_b := b; bp_t := t |}, inp)
  else None.

(** [n_bulletproof_max_amounts(proof)]; a failed check returns zero. *)
Definition n_bulletproof_max_amounts (p : Bulletproof) : Z :=
  let l := Z.of_nat (length (bp_L p)) in
  if (l <? 6) || negb (length (bp_L p) =? length (bp_R p))%nat || (6 + 4 <? l) then 0
  else 1 ≪ (l - 6).

Fixpoint n_bulletproofs_max_amounts (n : Z) (ps : list Bulletproof) : Z :=
  match ps with
  | [] => n
  | p :: ps =>
      let n2 := n_bulletproof_max_amounts p in
      if n2 <? u64 (2 ^ 32 - 1 - n) then
        if n2 =? 0 then 0 else n_bulletproofs_max_amounts (n + n2) ps
      else 0
  end.

(** [rctSigBase] and [rctSigPrunable]; [outPk] is the list of masks. *)
Record rctSig := {
  type : Z;
  txnFee : Z;
  pseudoOuts : list bytes;
  ecdhInfo : list ecdhTuple;
  outPk : list bytes;
  rangeSigs : list rangeSig;
  bulletproofs : list Bulletproof;
  MGs : list mgSig;
  p_pseudoOuts : list bytes
}.

(** A default-constructed signature of type null. *)
Definition rct_null : rctSig :=
  {| type := RCTTypeNull; txnFee := 0; pseudoOuts := []; ecdhInfo := []; outPk := [];
     rangeSigs := []; bulletproofs := []; MGs := []; p_pseudoOuts := [] |}.

Definition known_type (t : Z) : bool :=
  (t =? RCTTypeFull) || (t =? RCTTypeSimple) || (t =? RCTTypeBulletproof).

(** A vector that must have [n] entries, written without its size. *)
Definition put_sized {A} (put : writer A) (n : nat) : writer (list A) := fun l =>
  if (length l =? n)%nat then put_n put l else None.

(** [serialize_rctsig_base]. *)
Definition put_rctsig_base (inputs outputs : nat) (rv : rctSig) : option bytes :=
  b ← put_uint 1 (type rv);
  if type rv =? RCTTypeNull then Some b
  else if negb (known_type (type rv)) then None
  else
    c ← put_varint (txnFee rv);
    d ← (if type rv =? RCTTypeSimple then put_sized put_blob inputs (pseudoOuts rv) else Some []);
    e ← put_sized put_ecdh outputs (ecdhInfo rv);
    f ← put_sized put_blob outputs (outPk rv);
    Some (b ++ c ++ d ++ e ++ f).

Definition get_rctsig_base (inputs outputs : nat) : reader rctSig := fun inp =>
  '(ty, inp) ← get_uint 1 inp;
  if ty =? RCTTypeNull then Some (rct_null, inp)
  else if negb (known_type ty) then None
  else
    '(fee, inp) ← get_varint 64 inp;
    '(po, inp) ← (if ty =? RCTTypeSimple then get_n (get_blob 32) inputs inp else Some ([], inp));
    '(ei, inp) ← get_n get_ecdh outputs inp;
    '(op, inp) ← get_n (get_blob 32) outputs inp;
    Some ({| type := ty; txnFee := fee; pseudoOuts := po; ecdhInfo := ei; outPk := op;
             rangeSigs := []; bulletproofs := []; MGs := []; p_pseudoOuts := [] |}, inp).

Definition is_simple (t : Z) : bool := (t =? RCTTypeSimple) || (t =? RCTTypeBulletproof).

Definition mg_elements (t : Z) (inputs : nat) : nat := if is_simple t then inputs else 1.
Definition mg_ss2_elements (t : Z) (inputs : nat) : nat := ((if is_simple t then 1 else inputs) + 1)%nat.

(** One MLSAG: [mixin1] is [mixin + 1]. *)
Definition put_mg (rows cols : nat) (m : mgSig) : option bytes :=
  b ← put_sized (put_sized put_blob cols) rows (ss m); c ← put_blob (cc m); Some (b ++ c).

Definition get_mg (rows cols : nat) : reader mgSig := fun inp =>
  '(s, inp) ← get_n (get_n (get_blob 32) cols) rows inp; '(c, inp) ← get_blob 32 inp;
  Some ({| ss := s; cc := c |}, inp).

(** [serialize_rctsig_prunable]. *)
Definition put_rctsig_prunable (inputs outputs mixin1 : nat) (rv : rctSig) : option bytes :=
  if type rv =? RCTTypeNull then Some []
  else if negb (known_type (type rv)) then None
  else
    b ← (if type rv =? RCTTypeBulletproof then
           let nbp := u32 (Z.of_nat (length (bulletproofs rv))) in
           n ← put_uint 4 nbp;
           if Z.of_nat outputs <? nbp then None
           else
             ps ← put_n put_bulletproof (take (Z.to_nat nbp) (bulletproofs rv));
             if n_bulletproofs_max_amounts 0 (bulletproofs rv) <? Z.of_nat outputs then None
             else Some (n ++ ps)
         else put_sized put_rangeSig outputs (rangeSigs rv));
    c ← put_sized (put_mg mixin1 (mg_ss2_elements (type rv) inputs))
          (mg_elements (type rv) inputs) (MGs rv);
    d ← (if type rv =? RCTTypeBulletproof then put_sized put_blob inputs (p_pseudoOuts rv)
         else Some []);
    Some (b ++ c ++ d).

Definition get_rctsig_prunable (inputs outputs mixin1 : nat) (rv : rctSig) : reader rctSig := fun inp =>
  if type rv =? RCTTypeNull then Some (rv, inp)
  else if negb (known_type (type rv)) then None
  else
    '((rs, bps), inp) ←
      (if type rv =? RCTTypeBulletproof then
         '(nbp, inp) ← get_uint 4 inp;
         if Z.of_nat outputs <? nbp then None
         else
           '(ps, inp) ← get_n get_bulletproof (Z.to_nat nbp) inp;
           if n_bulletproofs_max_amounts 0 ps <? Z.of_nat outputs then None
           else Some ((rangeSigs rv, ps), inp)
       else '(rs, inp) ← get_n get_rangeSig outputs inp; Some ((rs, bulletproofs rv), inp));
    '(mgs, inp) ← get_n (get_mg mixin1 (mg_ss2_elements (type rv) inputs))
                    (mg_elements (type rv) inputs) inp;
    '(po, inp) ← (if type rv =? RCTTypeBulletproof then get_n (get_blob 32) inputs inp
                  else Some (p_pseudoOuts rv, inp));
    Some ({| type := type rv; txnFee := txnFee rv; pseudoOuts := pseudoOuts rv;
             ecdhInfo := ecdhInfo rv; outPk := outPk rv; rangeSigs := rs; bulletproofs := bps;
             MGs := mgs; p_pseudoOuts := po |}, inp).

(** ** Transactions *)

Record transaction := {
  prefix : transaction_prefix;
  signatures : list (list bytes);
  rct_signatures : rctSig
}.

Definition get_signature_size (i : txin_v) : nat :=
  match i with txin_to_key _ key_offsets _ => length key_offsets | _ => 0%nat end.

(** The loop over the inputs of a version 1 transaction. *)
Fixpoint put_sigs (ins : list txin_v) (sigs : list (list bytes)) : option bytes :=
  match ins, sigs with
  | [], _ => Some []
  | i :: ins, s :: sigs =>
      if (get_signature_size i =? length s)%nat then
        b ← put_signatures s; c ← put_sigs ins sigs; Some (b ++ c)
      else None
  | _ :: _, [] => None
  end.

Definition put_v1_signatures (ins : list txin_v) (sigs : list (list bytes)) : option bytes :=
  if (length sigs =? 0)%nat then
    if forallb (fun i => (get_signature_size i =? 0)%nat) ins then Some [] else None
  else if (length ins =? length sigs)%nat then put_sigs ins sigs else None.

Fixpoint get_sigs (ins : list txin_v) (inp : bytes) : option (list (list bytes) * bytes) :=
  match ins with
  | [] => Some ([], inp)
  | i :: ins =>
      '(s, inp) ← get_signatures (get_signature_size i) inp;
      '(sigs, inp) ← get_sigs ins inp; Some (s :: sigs, inp)
  end.

(** [mixin + 1] as the callers of [serialize_rctsig_prunable] compute it. *)
Definition mixin1 (ins : list txin_v) : nat :=
  match ins with txin_to_key _ key_offsets _ :: _ => length key_offsets | _ => 1%nat end.

Definition put_transaction (t : transaction) : option bytes :=
  let p := prefix t in
  b ← put_prefix p;
  if version p =? 1 then c ← put_v1_signatures (vin p) (signatures t); Some (b ++ c)
  else
    match vin p with
    | [] => Some b
    | _ =>
        let inputs := length (vin p) in
        let outputs := length (vout p) in
        c ← put_rctsig_base inputs outputs (rct_signatures t);
        d ← (if negb (type (rct_signatures t) =? RCTTypeNull)
             then put_rctsig_prunable inputs outputs (mixin1 (vin p)) (rct_signatures t)
             else Some []);
        Some (b ++ c ++ d)
    end.

Definition get_transaction : reader transaction := fun inp =>
  '(p, inp) ← get_prefix inp;
  if version p =? 1 then
    '(sigs, inp) ← get_sigs (vin p) inp;
    Some ({| prefix := p; signatures := sigs; rct_signatures := rct_null |}, inp)
  else
    match vin p with
    | [] => Some ({| prefix := p; signatures := []; rct_signatures := rct_null |}, inp)
    | _ =>
        let inputs := length (vin p) in
        let outputs := length (vout p) in
        '(rv, inp) ← get_rctsig_base inputs outputs inp;
        '(rv, inp) ← (if negb (type rv =? RCTTypeNull)
                      then get_rctsig_prunable inputs outputs (mixin1 (vin p)) rv inp
                      else Some (rv, inp));
        Some ({| prefix := p; signatures := []; rct_signatures := rv |}, inp)
    end.

(** ** Blocks *)

Record block := { header : block_header; miner_tx : transaction; tx_hashes : list bytes }.

Definition put_block (b : block) : option bytes :=
  h ← put_header (header b); t ← put_transaction (miner_tx b);
  l ← put_container put_blob (tx_hashes b); Some (h ++ t ++ l).

Definition get_block : reader block := fun inp =>
  '(h, inp) ← get_header inp; '(t, inp) ← get_transaction inp;
  '(l, inp) ← get_container (get_blob 32) inp;
  Some ({| header := h; miner_tx := t; tx_hashes := l |}, inp).


(** ** What can be written

    The values whose fields fit their C++ types. *)

Abbreviation key32 := (fun b : bytes => length b = 32%nat).
Definition vector {A} (ok : A -> Prop) (l : list A) : Prop :=
  Forall ok l /\ Z.of_nat (length l) < 2 ^ 64.
Definition exactly {A} (ok : A -> Prop) (n : nat) (l : list A) : Prop := Forall ok l /\ length l = n.

Definition ok_txout_target (t : txout_target_v) : Prop :=
  match t with
  | txout_to_script keys script => vector key32 keys /\ vector (fits 8) script
  | txout_to_scripthash hash => key32 hash
  | txout_to_key key => key32 key
  end.

Definition ok_txin (t : txin_v) : Prop :=
  match t with
  | txin_gen height => fits 64 height
  | txin_to_script prev prevout sigset => key32 prev /\ fits 64 prevout /\ vector (fits 8) sigset
  | txin_to_scripthash prev prevout keys script sigset =>
      key32 prev /\ fits 64 prevout /\ vector key32 keys /\ vector (fits 8) script /\ vector (fits 8) sigset
  | txin_to_key amount key_offsets k_image =>
      fits 64 amount /\ vector (fits 64) key_offsets /\ key32 k_image
  end.

Definition ok_tx_out (o : tx_out) : Prop := fits 64 (amount o) /\ ok_txout_target (target o).

Definition ok_prefix (p : transaction_prefix) : Prop :=
  1 <= version p <= MAX_TRANSACTION_VERSION /\ fits 64 (unlock_time p) /\
  vector ok_txin (vin p) /\ vector ok_tx_out (vout p) /\ vector (fits 8) (extra p).

Definition ok_header (h : block_header) : Prop :=
  fits 8 (major_version h) /\ fits 8 (minor_version h) /\ fits 64 (timestamp h) /\
  key32 (prev_id h) /\ fits 32 (nonce h).

#[global] Instance vector_dec {A} (ok : A -> Prop) `{forall x, Decision (ok x)} l : Decision (vector ok l).
Proof. unfold vector. apply _. Defined.

#[global] Instance exactly_dec {A} (ok : A -> Prop) `{forall x, Decision (ok x)} n l :
  Decision (exactly ok n l).
Proof. unfold exactly. apply _. Defined.

#[global] Instance ok_txout_target_dec t : Decision (ok_txout_target t).
Proof. destruct t; cbn [ok_txout_target]; apply _. Defined.

#[global] Instance ok_txin_dec t : Decision (ok_txin t).
Proof. destruct t; cbn [ok_txin]; apply _. Defined.

#[global] Instance ok_tx_out_dec o : Decision (ok_tx_out o).
Proof. unfold ok_tx_out. apply _. Defined.

#[global] Instance ok_prefix_dec p : Decision (ok_prefix p).
Proof. unfold ok_prefix. apply _. Defined.

#[global] Instance ok_header_dec h : Decision (ok_header h).
Proof. unfold ok_header. apply _. Defined.

(** ** Round trips of the parts *)

#[global] Instance uint8_codec : Codec (fits 8) (put_uint 1) (get_uint 1).
Proof. apply (uint_codec 1). Qed.

#[global] Instance uint32_codec : Codec (fits 32) (put_uint 4) (get_uint 4).
Proof. apply (uint_codec 4). Qed.

#[global] Instance uint8s_codec : Codec (vector (fits 8)) put_uint8s get_uint8s.
Proof. apply container_codec; apply _. Qed.

#[global] Instance keys_codec :
  Codec (vector key32) (put_container put_blob) (get_container (get_blob 32)).
Proof. apply container_codec; apply _. Qed.

#[global] Instance txout_target_codec : Codec ok_txout_target put_txout_target get_txout_target.
Proof.
  intros [keys script|hash|key] Hok; cbn [ok_txout_target] in Hok;
    unfold put_txout_target, get_txout_target, put_txout_to_script, get_txout_to_script.
  - destruct Hok. codec.
  - codec.
  - codec.
Qed.

#[global] Instance txin_codec : Codec ok_txin put_txin get_txin.
Proof.
  intros [] Hok; cbn [ok_txin] in Hok; destruct_and?; unfold put_txin, get_txin; codec.
Qed.

#[global] Instance tx_out_codec : Codec ok_tx_out put_tx_out get_tx_out.
Proof. intros [] []. unfold put_tx_out, get_tx_out. codec. Qed.

#[global] Instance header_codec : Codec ok_header put_header get_header.
Proof. intros [] Hok; unfold ok_header in Hok; destruct_and?. unfold put_header, get_header.
  do 2 put_field_with (get_varint 8). codec. Qed.


#[global] Instance txin_nonempty : NonEmpty ok_txin put_txin.
Proof.
  intros [] b _ E; unfold put_txin in E; cbn [put_uint put_uint_loop mbind option_bind] in E;
    repeat apply bind_Some in E as (? & _ & E); by injection E as <-.
Qed.

#[global] Instance tx_out_nonempty : NonEmpty ok_tx_out put_tx_out.
Proof.
  intros o b _ (c & Hc & (d & _ & [= <-])%bind_Some)%bind_Some.
  apply (put_nonempty (ok := fun _ => True)) in Hc; [|done]. by destruct c.
Qed.

#[global] Instance prefix_codec : Codec ok_prefix put_prefix get_prefix.
Proof.
  intros [v u ins outs x] Hok; unfold ok_prefix in Hok; cbn in Hok; destruct_and?.
  assert (version_ok v = true) as Hv
    by (unfold version_ok; rewrite (proj2 (Z.eqb_neq _ _)), (proj2 (Z.ltb_ge _ _)) by lia; done).
  assert (fits 64 v) by (unfold fits, MAX_TRANSACTION_VERSION in *; lia).
  unfold put_prefix, get_prefix. cbn [version unlock_time vin vout extra]. rewrite Hv.
  repeat put_field. get_fields. rewrite Hv. by read_fields.
Qed.

(** ** Round trips of the ring signatures *)

Definition ok_ecdh (e : ecdhTuple) : Prop := key32 (ecdh_mask e) /\ key32 (ecdh_amount e).

Definition ok_rangeSig (r : rangeSig) : Prop :=
  length (asig r) = sizeof_boroSig /\ length (Ci r) = sizeof_key64.

Definition ok_bulletproof (p : Bulletproof) : Prop :=
  Forall key32 [bp_A p; bp_S p; bp_T1 p; bp_T2 p; bp_taux p; bp_mu p; bp_a p; bp_b p; bp_t p] /\
  vector key32 (bp_L p) /\ vector key32 (bp_R p) /\ bp_sizes_ok (bp_L p) (bp_R p) = true.

Definition ok_mg (rows cols : nat) (m : mgSig) : Prop :=
  exactly (exactly key32 cols) rows (ss m) /\ key32 (cc m).

#[global] Instance sized_codec {A} ok (put : writer A) get n :
  Codec ok put get -> Codec (exactly ok n) (put_sized put n) (get_n get n).
Proof.
  intros HC l [Hl Hn]. unfold put_sized. rewrite (proj2 (Nat.eqb_eq _ _)) by done.
  by apply (sequence_codec ok put get n).
Qed.

#[global] Instance ecdh_codec : Codec ok_ecdh put_ecdh get_ecdh.
Proof. intros [] []. unfold put_ecdh, get_ecdh. codec. Qed.

#[global] Instance rangeSig_codec : Codec ok_rangeSig put_rangeSig get_rangeSig.
Proof.
  intros [a c] [Ha Hc]. destruct (blob_codec _ a Ha) as (b1 & [= <-] & G1).
  destruct (blob_codec _ c Hc) as (b2 & [= <-] & G2).
  unfold put_rangeSig, get_rangeSig. cbn [put_blob mbind option_bind]. by get_fields.
Qed.

#[global] Instance mg_codec rows cols : Codec (ok_mg rows cols) (put_mg rows cols) (get_mg rows cols).
Proof. intros [] []. unfold put_mg, get_mg. codec. Qed.

#[global] Instance bulletproof_codec : Codec ok_bulletproof put_bulletproof get_bulletproof.
Proof.
  intros [] (Hk & HL & HR & Hs). cbn in Hk, HL, HR, Hs. decompose_Forall_hyps.
  unfold put_bulletproof, get_bulletproof.
  cbn [bp_A bp_S bp_T1 bp_T2 bp_taux bp_mu bp_L bp_R bp_a bp_b bp_t]. rewrite Hs.
  repeat put_field. get_fields. by rewrite Hs.
Qed.


(** The members of each type of signature; the others are empty. *)
Definition ok_proofs (outputs : nat) (rv : rctSig) : Prop :=
  if type rv =? RCTTypeBulletproof then
    rangeSigs rv = [] /\ Forall ok_bulletproof (bulletproofs rv) /\
    Z.of_nat (length (bulletproofs rv)) < 2 ^ 32 /\ (length (bulletproofs rv) <= outputs)%nat /\
    Z.of_nat outputs <= n_bulletproofs_max_amounts 0 (bulletproofs rv)
  else bulletproofs rv = [] /\ exactly ok_rangeSig outputs (rangeSigs rv).

Definition ok_present (here : bool) (n : nat) (l : list bytes) : Prop :=
  if here then exactly key32 n l else l = [].

Definition ok_rct (inputs outputs mixin1 : nat) (rv : rctSig) : Prop :=
  known_type (type rv) = true /\ fits 64 (txnFee rv) /\
  ok_present (type rv =? RCTTypeSimple) inputs (pseudoOuts rv) /\
  exactly ok_ecdh outputs (ecdhInfo rv) /\ exactly key32 outputs (outPk rv) /\
  ok_proofs outputs rv /\
  exactly (ok_mg mixin1 (mg_ss2_elements (type rv) inputs)) (mg_elements (type rv) inputs) (MGs rv) /\
  ok_present (type rv =? RCTTypeBulletproof) inputs (p_pseudoOuts rv).

(** What [serialize_rctsig_base] reads back. *)
Definition rct_base (rv : rctSig) : rctSig :=
  {| type := type rv; txnFee := txnFee rv; pseudoOuts := pseudoOuts rv; ecdhInfo := ecdhInfo rv;
     outPk := outPk rv; rangeSigs := []; bulletproofs := []; MGs := []; p_pseudoOuts := [] |}.

Lemma known_type_range t : known_type t = true -> t = 1 \/ t = 2 \/ t = 3.
Proof.
  unfold known_type, RCTTypeFull, RCTTypeSimple, RCTTypeBulletproof. intros H.
  destruct (Z.eqb_spec t 1), (Z.eqb_spec t 2), (Z.eqb_spec t 3); (discriminate || auto).
Qed.

Ltac eval_type :=
  unfold known_type, ok_present, RCTTypeNull, RCTTypeFull, RCTTypeSimple, RCTTypeBulletproof in *;
  cbn [Z.eqb Pos.eqb orb negb mbind option_bind] in *.

Lemma get_put_base inputs outputs m rv :
  ok_rct inputs outputs m rv ->
  exists b, put_rctsig_base inputs outputs rv = Some b /\
    forall rest, get_rctsig_base inputs outputs (b ++ rest) = Some (rct_base rv, rest).
Proof.
  destruct rv as [ty fee po ei op rs bps mgs ppo]. unfold ok_rct, rct_base, put_rctsig_base, get_rctsig_base.
  cbn [type txnFee pseudoOuts ecdhInfo outPk rangeSigs bulletproofs MGs p_pseudoOuts].
  intros (Hk & Hfee & Hpo & Hei & Hop & _). apply known_type_range in Hk as Hty.
  destruct Hty as [-> | [-> | ->]]; eval_type; subst;
    repeat put_field; get_fields; eval_type; by read_fields.
Qed.

Lemma get_put_prunable inputs outputs m rv :
  ok_rct inputs outputs m rv ->
  exists b, put_rctsig_prunable inputs outputs m rv = Some b /\
    forall rest, get_rctsig_prunable inputs outputs m (rct_base rv) (b ++ rest) = Some (rv, rest).
Proof.
  destruct rv as [ty fee po ei op rs bps mgs ppo].
  unfold ok_rct, ok_proofs, rct_base, put_rctsig_prunable, get_rctsig_prunable.
  cbn [type txnFee pseudoOuts ecdhInfo outPk rangeSigs bulletproofs MGs p_pseudoOuts].
  intros (Hk & _ & _ & _ & _ & Hp & Hmg & Hppo). apply known_type_range in Hk as Hty.
  destruct Hty as [-> | [-> | ->]]; eval_type; destruct_and?; subst.
  - codec.
  - codec.
  - rewrite wrap_small by (unfold fits; lia).
    rewrite (proj2 (Z.ltb_ge (Z.of_nat outputs) _)) by lia. rewrite Nat2Z.id, firstn_all.
    destruct (get_put_n ok_bulletproof put_bulletproof get_bulletproof bps) as (pb & -> & Gpb); [done|].
    put_field. rewrite (proj2 (Z.ltb_ge (n_bulletproofs_max_amounts 0 bps) _)) by lia.
    cbn [mbind option_bind]. repeat put_field. get_fields.
    rewrite (proj2 (Z.ltb_ge (Z.of_nat outputs) _)), Nat2Z.id, Gpb by lia. cbn [mbind option_bind].
    rewrite (proj2 (Z.ltb_ge (n_bulletproofs_max_amounts 0 bps) _)) by lia.
    cbn [mbind option_bind]. by read_fields.
Qed.

(** ** Transactions and blocks *)

(** The signatures of version 1, one vector per input. *)
Fixpoint ok_sigs (ins : list txin_v) (sigs : list (list bytes)) : Prop :=
  match ins, sigs with
  | [], [] => True
  | i :: ins, s :: sigs =>
      exactly (fun b : bytes => length b = 64%nat) (get_signature_size i) s /\ ok_sigs ins sigs
  | _, _ => False
  end.

Definition ok_transaction (t : transaction) : Prop :=
  let p := prefix t in
  ok_prefix p /\
  if version p =? 1 then ok_sigs (vin p) (signatures t) /\ rct_signatures t = rct_null
  else signatures t = [] /\
    (rct_signatures t = rct_null \/
     vin p <> [] /\ ok_rct (length (vin p)) (length (vout p)) (mixin1 (vin p)) (rct_signatures t)).

Definition ok_block (b : block) : Prop :=
  ok_header (header b) /\ ok_transaction (miner_tx b) /\ vector key32 (tx_hashes b).

Lemma get_put_sigs ins sigs :
  ok_sigs ins sigs ->
  exists b, put_sigs ins sigs = Some b /\ forall rest, get_sigs ins (b ++ rest) = Some (sigs, rest).
Proof.
  revert sigs. induction ins as [|i ins IH]; intros [|s sigs] H; try done; [by exists []|].
  destruct H as [Hs H]. destruct (IH _ H) as (c & Ec & Gc). cbn [put_sigs get_sigs].
  rewrite (proj2 (Nat.eqb_eq _ _)) by (symmetry; apply Hs).
  destruct (signatures_codec _ s Hs) as (b & Eb & Gb). rewrite Eb, Ec. cbn [mbind option_bind].
  by get_fields.
Qed.

Lemma put_v1_signatures_sigs ins sigs :
  ok_sigs ins sigs -> put_v1_signatures ins sigs = put_sigs ins sigs.
Proof.
  intros H. assert (length ins = length sigs) as E.
  { revert sigs H. induction ins as [|i ins IH]; intros [|s sigs]; try done. intros [_ H]. cbn. f_equal. auto. }
  unfold put_v1_signatures. rewrite (proj2 (Nat.eqb_eq _ _) E).
  destruct sigs as [|s sigs]; [|done]. by destruct ins.
Qed.

#[global] Instance transaction_codec : Codec ok_transaction put_transaction get_transaction.
Proof.
  intros [p sigs rv] [Hp H]. cbn [prefix signatures rct_signatures] in Hp, H.
  unfold put_transaction, get_transaction. cbn [prefix signatures rct_signatures].
  put_field. destruct (version p =? 1) eqn:Ev.
  - destruct H as [Hs ->]. rewrite put_v1_signatures_sigs by done.
    destruct (get_put_sigs _ _ Hs) as (c & -> & Gc). cbn [mbind option_bind]. get_fields.
    rewrite Ev. by read_fields.
  - destruct H as [-> [-> | [Hv Hr]]].
    + destruct (vin p) as [|i ins] eqn:Ei.
      * get_fields. by rewrite Ev, Ei.
      * unfold put_rctsig_base, get_rctsig_base. cbn [type rct_null]. eval_type.
        put_field. get_fields. rewrite Ev, Ei. read_fields. done.
    + destruct (get_put_base _ _ _ _ Hr) as (c & Ec & Gc).
      destruct (get_put_prunable _ _ _ _ Hr) as (d & Ed & Gd).
      assert ((type rv =? RCTTypeNull) = false) as Et
        by (destruct Hr as [Hk _]; apply known_type_range in Hk as [-> | [-> | ->]]; done).
      destruct (vin p) as [|i ins] eqn:Ei; [done|]. rewrite Ec, Et. cbn [negb mbind option_bind]. rewrite Ed.
      cbn [mbind option_bind]. get_fields. rewrite Ev, Ei. rewrite Gc. cbn [mbind option_bind type rct_base].
      rewrite Et. cbn [negb]. by rewrite Gd.
Qed.

#[global] Instance block_codec : Codec ok_block put_block get_block.
Proof. intros [] (? & ? & ?). unfold put_block, get_block. codec. Qed.


#[global] Instance ecdhTuple_eq_dec : EqDecision ecdhTuple.
Proof. solve_decision. Defined.

#[global] Instance mgSig_eq_dec : EqDecision mgSig.
Proof. solve_decision. Defined.

#[global] Instance rangeSig_eq_dec : EqDecision rangeSig.
Proof. solve_decision. Defined.

#[global] Instance Bulletproof_eq_dec : EqDecision Bulletproof.
Proof. solve_decision. Defined.

#[global] Instance rctSig_eq_dec : EqDecision rctSig.
Proof. solve_decision. Defined.

#[global] Instance ok_bulletproof_dec p : Decision (ok_bulletproof p).
Proof. unfold ok_bulletproof. apply _. Defined.

#[global] Instance ok_proofs_dec outputs rv : Decision (ok_proofs outputs rv).
Proof. unfold ok_proofs, ok_rangeSig. destruct (_ =? _); apply _. Defined.

#[global] Instance ok_present_dec here n l : Decision (ok_present here n l).
Proof. unfold ok_present. destruct here; apply _. Defined.

#[global] Instance ok_rct_dec inputs outputs m rv : Decision (ok_rct inputs outputs m rv).
Proof. unfold ok_rct, ok_ecdh, ok_mg. apply _. Defined.

#[global] Instance ok_sigs_dec ins sigs : Decision (ok_sigs ins sigs).
Proof.
  revert sigs. induction ins as [|i ins IH]; intros [|s sigs]; cbn [ok_sigs]; apply _.
Defined.

#[global] Instance ok_transaction_dec t : Decision (ok_transaction t).
Proof. unfold ok_transaction. destruct (_ =? 1); apply _. Defined.

#[global] Instance ok_block_dec b : Decision (ok_block b).
Proof. unfold ok_block. apply _. Defined.

(** ** What the readers return *)

#[global] Instance uint8s_sound : Sound (vector (fits 8)) get_uint8s.
Proof. apply container_sound, (uint_sound 1). Qed.

#[global] Instance vector_sound {A} ok (get : reader A) : Sound ok get -> Sound (vector ok) (get_container get).
Proof. apply container_sound. Qed.

#[global] Instance exactly_sound {A} ok (get : reader A) n :
  Sound ok get -> Sound (exactly ok n) (get_n get n).
Proof. apply sequence_sound. Qed.

#[global] Instance txout_target_sound : Sound ok_txout_target get_txout_target.
Proof.
  intros inp t rest Hin H. unfold get_txout_target, get_txout_to_script in H.
  read_ok; cbn [ok_txout_target]; tauto.
Qed.

#[global] Instance txin_sound : Sound ok_txin get_txin.
Proof. intros inp t rest Hin H. unfold get_txin in H. read_ok; cbn [ok_txin]; tauto. Qed.

#[global] Instance tx_out_sound : Sound ok_tx_out get_tx_out.
Proof. intros inp t rest Hin H. unfold get_tx_out in H. read_ok; unfold ok_tx_out; cbn; tauto. Qed.

#[global] Instance prefix_sound : Sound ok_prefix get_prefix.
Proof.
  intros inp t rest Hin H. unfold get_prefix in H. read_ok. unfold ok_prefix.
  cbn [version unlock_time vin vout extra]. unfold version_ok in *.
  assert (1 <= x <= MAX_TRANSACTION_VERSION) by (unfold fits in *; lia). tauto.
Qed.

#[global] Instance header_sound : Sound ok_header get_header.
Proof.
  intros inp t rest Hin H. unfold get_header in H. read_ok. unfold ok_header.
  cbn [major_version minor_version timestamp prev_id nonce]. tauto.
Qed.

#[global] Instance ecdh_sound : Sound ok_ecdh get_ecdh.
Proof. intros inp t rest Hin H. unfold get_ecdh in H. by read_ok. Qed.

#[global] Instance rangeSig_sound : Sound ok_rangeSig get_rangeSig.
Proof. intros inp t rest Hin H. unfold get_rangeSig in H. by read_ok. Qed.

#[global] Instance mg_sound rows cols : Sound (ok_mg rows cols) (get_mg rows cols).
Proof. intros inp t rest Hin H. unfold get_mg in H. by read_ok. Qed.

#[global] Instance bulletproof_sound : Sound ok_bulletproof get_bulletproof.
Proof.
  intros inp t rest Hin H. unfold get_bulletproof in H. read_ok. unfold ok_bulletproof.
  cbn [bp_A bp_S bp_T1 bp_T2 bp_taux bp_mu bp_L bp_R bp_a bp_b bp_t]. rewrite !Forall_cons, Forall_nil. tauto.
Qed.

Lemma base_sound inputs outputs inp rv rest :
  is_bytes inp -> get_rctsig_base inputs outputs inp = Some (rv, rest) ->
  is_bytes rest /\
  (rv = rct_null \/
   known_type (type rv) = true /\ fits 64 (txnFee rv) /\
   ok_present (type rv =? RCTTypeSimple) inputs (pseudoOuts rv) /\
   exactly ok_ecdh outputs (ecdhInfo rv) /\ exactly key32 outputs (outPk rv) /\ rv = rct_base rv).
Proof.
  intros Hin H. unfold get_rctsig_base in H.
  apply bind_Some in H as ([ty r] & Ety & H). apply get_ok in Ety as [_ Hr]; [|done].
  destruct (ty =? RCTTypeNull); [injection H as <- <-; auto|].
  destruct (known_type ty) eqn:Hk; [|done]. cbn [negb] in H.
  apply bind_Some in H as ([fee r1] & Ef & H). apply get_ok in Ef as [Hf Hr1]; [|done].
  apply bind_Some in H as ([po r2] & Ep & H).
  assert (ok_present (ty =? RCTTypeSimple) inputs po /\ is_bytes r2) as [Hp Hr2].
  { destruct (ty =? RCTTypeSimple); [by apply get_ok in Ep|]. by injection Ep as <- <-. }
  clear Ep. read_ok. cbn. tauto.
Qed.

Lemma proofs_sound outputs rv inp rs bps rest :
  is_bytes inp -> rangeSigs rv = [] -> bulletproofs rv = [] ->
  (if type rv =? RCTTypeBulletproof then
     '(nbp, inp) ← get_uint 4 inp;
     if Z.of_nat outputs <? nbp then None
     else
       '(ps, inp) ← get_n get_bulletproof (Z.to_nat nbp) inp;
       if n_bulletproofs_max_amounts 0 ps <? Z.of_nat outputs then None
       else Some ((rangeSigs rv, ps), inp)
   else '(rs, inp) ← get_n get_rangeSig outputs inp; Some ((rs, bulletproofs rv), inp))
  = Some ((rs, bps), rest) ->
  is_bytes rest /\ forall rv', type rv' = type rv -> rangeSigs rv' = rs -> bulletproofs rv' = bps ->
    ok_proofs outputs rv'.
Proof.
  intros Hin Hrs Hbp H. destruct (type rv =? RCTTypeBulletproof) eqn:Et; read_ok.
  - match goal with H : exactly _ _ bps |- _ => destruct H as [? ?] end. unfold fits in *.
    split; [done|]. intros rv' E1 E2 E3. unfold ok_proofs. rewrite E1, Et, E2, E3.
    split_and!; done || lia.
  - split; [done|]. intros rv' E1 E2 E3. unfold ok_proofs. by rewrite E1, Et, E2, E3.
Qed.

Lemma prunable_sound inputs outputs m rv0 inp rv rest :
  is_bytes inp -> rv0 = rct_base rv0 ->
  get_rctsig_prunable inputs outputs m rv0 inp = Some (rv, rest) -> (type rv0 =? RCTTypeNull) = false ->
  is_bytes rest /\ rct_base rv = rv0 /\ ok_proofs outputs rv /\
  exactly (ok_mg m (mg_ss2_elements (type rv) inputs)) (mg_elements (type rv) inputs) (MGs rv) /\
  ok_present (type rv =? RCTTypeBulletproof) inputs (p_pseudoOuts rv).
Proof.
  intros Hin Hb H Ht. unfold get_rctsig_prunable in H. rewrite Ht in H.
  destruct (known_type (type rv0)); [|done]. cbn [negb] in H.
  apply bind_Some in H as ([[rs bps] r] & Ep & H).
  apply proofs_sound in Ep as [Hr Hp]; [|done|by rewrite Hb..].
  apply bind_Some in H as ([mgs r1] & Em & H). apply get_ok in Em as [Hm Hr1]; [|done].
  apply bind_Some in H as ([po r2] & Eo & H). injection H as <- <-.
  assert (ok_present (type rv0 =? RCTTypeBulletproof) inputs po /\ is_bytes r2) as [Ho Hr2].
  { destruct (type rv0 =? RCTTypeBulletproof); [by apply get_ok in Eo|].
    injection Eo as <- <-. by rewrite Hb. }
  cbn [type MGs p_pseudoOuts rct_base]. split; [done|]. split; [by rewrite Hb at 6|].
  split; [by apply Hp|done].
Qed.


Lemma sigs_sound ins inp sigs rest :
  is_bytes inp -> get_sigs ins inp = Some (sigs, rest) -> ok_sigs ins sigs /\ is_bytes rest.
Proof.
  revert inp sigs. induction ins as [|i ins IH]; intros inp sigs Hin; cbn [get_sigs];
    [by intros [= <- <-]|].
  intros ([s r] & Es & ([l r'] & El & [= <- <-])%bind_Some)%bind_Some.
  apply signatures_sound in Es as [Hs Hr]; [|done]. apply IH in El as [Hl Hr']; [|done].
  cbn [ok_sigs]. split; [split|]; done.
Qed.

#[global] Instance transaction_sound : Sound ok_transaction get_transaction.
Proof.
  intros inp t rest Hin H. unfold get_transaction in H.
  apply bind_Some in H as ([p r] & Ep & H). apply get_ok in Ep as [Hp Hr]; [|done].
  unfold ok_transaction. destruct (version p =? 1) eqn:Ev.
  - apply bind_Some in H as ([sigs r1] & Es & [= <- <-]). apply sigs_sound in Es as [Hs Hr1]; [|done].
    cbn [prefix signatures rct_signatures]. by rewrite Ev.
  - destruct (vin p) as [|i ins] eqn:Ei.
    { injection H as <- <-. cbn [prefix signatures rct_signatures]. rewrite Ev. auto. }
    apply bind_Some in H as ([rv0 r1] & Eb & ([rv r2] & Er & [= <- <-])%bind_Some).
    cbn [prefix signatures rct_signatures]. rewrite Ev, Ei.
    apply base_sound in Eb as [Hr1 [->|(Hk & Hf & Ho & He & Hpk & Hb)]]; [| |done].
    { injection Er as <- <-. auto. }
    destruct (type rv0 =? RCTTypeNull) eqn:Et;
      [by apply known_type_range in Hk as [E|[E|E]]; rewrite E in Et|].
    apply prunable_sound in Er as (Hr2 & <- & Hpr & Hmg & Hpo); [|done..].
    split; [|done]. split; [done|]. split; [done|]. right. split; [done|].
    exact (conj Hk (conj Hf (conj Ho (conj He (conj Hpk (conj Hpr (conj Hmg Hpo))))))).
Qed.

#[global] Instance block_sound : Sound ok_block get_block.
Proof. intros inp t rest Hin H. unfold get_block in H. by read_ok. Qed.


(** ** Correctness *)

(** A ring-signature transaction with one input and one output, and a block
    whose only transaction is the reward. *)
Definition key_of (b : Z) : bytes := replicate 32 b.

Definition sample_tx : transaction :=
  {| prefix := {| version := 2; unlock_time := 300;
                  vin := [txin_to_key 0 [1000; 7] (key_of 1)];
                  vout := [{| amount := 0; target := txout_to_key (key_of 2) |}];
                  extra := [1; 2; 3] |};
     signatures := [];
     rct_signatures :=
       {| type := RCTTypeSimple; txnFee := 5000000; pseudoOuts := [key_of 3];
          ecdhInfo := [{| ecdh_mask := key_of 4; ecdh_amount := key_of 5 |}];
          outPk := [key_of 6];
          rangeSigs := [{| asig := replicate sizeof_boroSig 7; Ci := replicate sizeof_key64 8 |}];
          bulletproofs := [];
          MGs := [{| ss := [[key_of 9; key_of 10]; [key_of 11; key_of 12]]; cc := key_of 13 |}];
          p_pseudoOuts := [] |} |}.

Definition sample_block : block :=
  {| header := {| major_version := 7; minor_version := 7; timestamp := 1540000000;
                  prev_id := key_of 14; nonce := 0xdeadbeef |};
     miner_tx := {| prefix := {| version := 3; unlock_time := 260; vin := [txin_gen 200];
                                 vout := [{| amount := 32000000000; target := txout_to_key (key_of 15) |}];
                                 extra := [1] |};
                    signatures := []; rct_signatures := rct_null |};
     tx_hashes := [] |}.

(** C19. Every transaction whose fields fit their types, of any version and
    with any type of ring signature, is written, and parsing the blob gives the
    transaction back with nothing left over. *)
Theorem transaction_roundtrip t :
  ok_transaction t ->
  exists blob, dump_binary put_transaction t = Some blob /\
    parse_binary get_transaction blob = Some t.
Proof. apply parse_dump, _. Qed.

Lemma transaction_roundtrip_witness :
  exists blob, dump_binary put_transaction sample_tx = Some blob /\
    parse_binary get_transaction blob = Some sample_tx.
Proof. apply (transaction_roundtrip sample_tx). by_eval. Defined.

(** C40. A block that parses is well formed: its versions, sizes and keys are
    in range, its miner transaction has the signature members its version and
    type call for and no others, and it can be written to a blob that parses to
    the same block. *)
Theorem parse_block_wf blob b :
  is_bytes blob -> parse_binary get_block blob = Some b ->
  ok_block b /\ exists blob', dump_binary put_block b = Some blob' /\ parse_binary get_block blob' = Some b.
Proof. apply (parse_dump_parse ok_block put_block get_block). Qed.

Lemma parse_block_wf_witness : ok_block sample_block.
Proof.
  refine (proj1 (parse_block_wf (default [] (dump_binary put_block sample_block)) sample_block _ _)).
  - by_eval.
  - vm_compute. reflexivity.
Defined.

(** [serialize_uvarint] ignores the failure of [read_varint], so a blob is
    not the only one for its block: a block without transactions is still
    parsed when the count of its transactions is cut off. *)
Theorem block_truncation b :
  ok_block b -> tx_hashes b = [] ->
  exists blob, dump_binary put_block b = Some (blob ++ [0]) /\ parse_binary get_block blob = Some b.
Proof.
  intros (Hh & Ht & _) He. destruct b as [h t l]. cbn in Hh, Ht, He. subst l.
  unfold dump_binary, put_block. cbn [header miner_tx tx_hashes]. do 2 put_field.
  exists (b ++ b0). split; [by rewrite <- app_assoc|].
  unfold parse_binary, get_block. read_fields. specialize (G0 []). rewrite app_nil_r in G0. by rewrite G0.
Qed.

Lemma block_truncation_witness :
  exists blob, dump_binary put_block sample_block = Some (blob ++ [0]) /\
    parse_binary get_block blob = Some sample_block.
Proof. apply (block_truncation sample_block); [by_eval|reflexivity]. Defined.

End Transaction.
