(* ===== verification/TxExtra.v ===== *)
(** * The extra field of a transaction

    [src/cryptonote_basic/tx_extra.h] and the functions of
    [src/cryptonote_basic/cryptonote_format_utils.cpp] that read and build the
    [extra] bytes: a sequence of tagged fields, of which a padding must be the
    last. *)

From S2P Require Import Prelude Varint Serialization Transaction.
Import Serialization Transaction.

Module TxExtra.

Definition TX_EXTRA_PADDING_MAX_COUNT : Z := 255.
Definition TX_EXTRA_NONCE_MAX_COUNT : Z := 255.
Definition TX_EXTRA_TAG_PADDING : Z := 0x00.
Definition TX_EXTRA_TAG_PUBKEY : Z := 0x01.
Definition TX_EXTRA_NONCE : Z := 0x02.
Definition TX_EXTRA_MERGE_MINING_TAG : Z := 0x03.
Definition TX_EXTRA_TAG_ADDITIONAL_PUBKEYS : Z := 0x04.
Definition TX_EXTRA_UNIFORM_PAYMENT_ID : Z := 0x05.
Definition TX_EXTRA_MYSTERIOUS_MINERGATE_TAG : Z := 0xDE.
Definition TX_EXTRA_NONCE_PAYMENT_ID : Z := 0x00.
Definition TX_EXTRA_NONCE_ENCRYPTED_PAYMENT_ID : Z := 0x01.

(** [crypto::uniform_payment_id], a packed struct: eight bytes and a hash. *)
Record uniform_payment_id := { zero : Z; payment_id : bytes }.

Definition put_pid (p : uniform_payment_id) : option bytes :=
  b ← put_uint 8 (zero p); c ← put_blob (payment_id p); Some (b ++ c).

Definition get_pid : reader uniform_payment_id := fun inp =>
  '(z, inp) ← get_uint 8 inp; '(h, inp) ← get_blob 32 inp;
  Some ({| zero := z; payment_id := h |}, inp).

Inductive tx_extra_field :=
  | tx_extra_padding (size : Z)
  | tx_extra_pub_key (pub_key : bytes)
  | tx_extra_nonce (nonce : bytes)
  | tx_extra_merge_mining_tag (depth : Z) (merkle_root : bytes)
  | tx_extra_additional_pub_keys (data : list bytes)
  | tx_extra_uniform_payment_id (pid : uniform_payment_id)
  | tx_extra_mysterious_minergate (data : bytes).

(** [field.type()] *)
Definition tag_of (f : tx_extra_field) : Z :=
  match f with
  | tx_extra_padding _ => TX_EXTRA_TAG_PADDING
  | tx_extra_pub_key _ => TX_EXTRA_TAG_PUBKEY
  | tx_extra_nonce _ => TX_EXTRA_NONCE
  | tx_extra_merge_mining_tag _ _ => TX_EXTRA_MERGE_MINING_TAG
  | tx_extra_additional_pub_keys _ => TX_EXTRA_TAG_ADDITIONAL_PUBKEYS
  | tx_extra_uniform_payment_id _ => TX_EXTRA_UNIFORM_PAYMENT_ID
  | tx_extra_mysterious_minergate _ => TX_EXTRA_MYSTERIOUS_MINERGATE_TAG
  end.

(** ** Serializers of the fields *)

(** The loop of [tx_extra_padding::do_serialize] with [n] iterations left; when
    the bound is reached [size] is too large. *)
Fixpoint get_padding_loop (n : nat) (size : Z) (inp : bytes) : option (Z * bytes) :=
  match n with
  | O => None
  | S n =>
      match inp with
      | [] => Some (size, [])
      | z :: inp => if z =? 0 then get_padding_loop n (size + 1) inp else None
      end
  end.

Definition get_padding : reader Z := get_padding_loop (Z.to_nat TX_EXTRA_PADDING_MAX_COUNT) 1.

Definition put_padding (size : Z) : option bytes :=
  if TX_EXTRA_PADDING_MAX_COUNT <? size then None else Some (replicate (Z.to_nat (size - 1)) 0).

Definition get_nonce : reader bytes := fun inp =>
  '(nonce, inp) ← get_string inp;
  if TX_EXTRA_NONCE_MAX_COUNT <? Z.of_nat (length nonce) then None else Some (nonce, inp).

Definition put_nonce (nonce : bytes) : option bytes :=
  b ← put_string nonce;
  if TX_EXTRA_NONCE_MAX_COUNT <? Z.of_nat (length nonce) then None else Some b.

(** [serialize_helper] *)
Definition get_mm_helper : reader (Z * bytes) := fun inp =>
  '(depth, inp) ← get_varint 64 inp; '(root, inp) ← get_blob 32 inp; Some ((depth, root), inp).

Definition put_mm_helper (m : Z * bytes) : option bytes :=
  b ← put_varint (fst m); c ← put_blob (snd m); Some (b ++ c).

Definition get_mm_tag : reader (Z * bytes) := fun inp =>
  '(field, inp) ← get_string inp; m ← parse_binary get_mm_helper field; Some (m, inp).

Definition put_mm_tag (m : Z * bytes) : option bytes := field ← put_mm_helper m; put_string field.

Definition put_payload (f : tx_extra_field) : option bytes :=
  match f with
  | tx_extra_padding size => put_padding size
  | tx_extra_pub_key pub_key => put_blob pub_key
  | tx_extra_nonce nonce => put_nonce nonce
  | tx_extra_merge_mining_tag depth root => put_mm_tag (depth, root)
  | tx_extra_additional_pub_keys data => put_container put_blob data
  | tx_extra_uniform_payment_id pid => put_pid pid
  | tx_extra_mysterious_minergate data => put_string data
  end.

Definition put_field (f : tx_extra_field) : option bytes :=
  t ← put_uint 1 (tag_of f); b ← put_payload f; Some (t ++ b).

Definition get_payload (t : Z) : reader tx_extra_field := fun inp =>
  if t =? TX_EXTRA_TAG_PADDING then '(x, inp) ← get_padding inp; Some (tx_extra_padding x, inp)
  else if t =? TX_EXTRA_TAG_PUBKEY then '(x, inp) ← get_blob 32 inp; Some (tx_extra_pub_key x, inp)
  else if t =? TX_EXTRA_NONCE then '(x, inp) ← get_nonce inp; Some (tx_extra_nonce x, inp)
  else if t =? TX_EXTRA_MERGE_MINING_TAG then
    '((d, r), inp) ← get_mm_tag inp; Some (tx_extra_merge_mining_tag d r, inp)
  else if t =? TX_EXTRA_TAG_ADDITIONAL_PUBKEYS then
    '(x, inp) ← get_container (get_blob 32) inp; Some (tx_extra_additional_pub_keys x, inp)
  else if t =? TX_EXTRA_UNIFORM_PAYMENT_ID then
    '(x, inp) ← get_pid inp; Some (tx_extra_uniform_payment_id x, inp)
  else if t =? TX_EXTRA_MYSTERIOUS_MINERGATE_TAG then
    '(x, inp) ← get_string inp; Some (tx_extra_mysterious_minergate x, inp)
  else None.

Definition get_field : reader tx_extra_field := fun inp =>
  '(t, inp) ← get_uint 1 inp; get_payload t inp.

(** ** Parsing *)

(** The loop of [parse_tx_extra] from a stream that is not at its end: the
    result and the fields parsed so far. *)
Fixpoint parse_loop (fuel : nat) (inp : bytes) (fields : list tx_extra_field)
    : bool * list tx_extra_field :=
  match fuel with
  | O => (false, fields)
  | S fuel =>
      match get_field inp with
      | None => (false, fields)
      | Some (f, []) => (true, fields ++ [f])
      | Some (f, rest) => parse_loop fuel rest (fields ++ [f])
      end
  end.

(** A field is at least one byte, so there are at most as many as bytes. *)
Definition parse_tx_extra (tx_extra : bytes) : bool * list tx_extra_field :=
  match tx_extra with
  | [] => (true, [])
  | _ => parse_loop (length tx_extra) tx_extra []
  end.

(** [find_tx_extra_field_by_type] with an [index]: the fields of type [t]. *)
Definition find_tx_extra_field_by_type (t : Z) (index : nat) (fields : list tx_extra_field)
    : option tx_extra_field :=
  filter (fun f => tag_of f = t) fields !! index.

Definition null_pkey : bytes := replicate 32 0.

Definition get_tx_pub_key_from_extra (tx_extra : bytes) (pk_index : nat) : bytes :=
  match find_tx_extra_field_by_type TX_EXTRA_TAG_PUBKEY pk_index (snd (parse_tx_extra tx_extra)) with
  | Some (tx_extra_pub_key k) => k
  | _ => null_pkey
  end.

Definition get_additional_tx_pub_keys_from_extra (tx_extra : bytes) : list bytes :=
  match find_tx_extra_field_by_type TX_EXTRA_TAG_ADDITIONAL_PUBKEYS 0 (snd (parse_tx_extra tx_extra)) with
  | Some (tx_extra_additional_pub_keys data) => data
  | _ => []
  end.

Definition get_payment_id_from_tx_extra (tx_extra : bytes) : option uniform_payment_id :=
  match find_tx_extra_field_by_type TX_EXTRA_UNIFORM_PAYMENT_ID 0 (snd (parse_tx_extra tx_extra)) with
  | Some (tx_extra_uniform_payment_id pid) => Some pid
  | _ => None
  end.

(** ** Building *)

Definition add_tx_pub_key_to_extra (tx_extra tx_pub_key : bytes) : bool * bytes :=
  (true, tx_extra ++ [TX_EXTRA_TAG_PUBKEY] ++ tx_pub_key).

Definition add_additional_tx_pub_keys_to_extra (tx_extra : bytes) (keys : list bytes) : bool * bytes :=
  match put_field (tx_extra_additional_pub_keys keys) with
  | Some b => (true, tx_extra ++ b)
  | None => (false, tx_extra)
  end.

Definition add_extra_nonce_to_tx_extra (tx_extra extra_nonce : bytes) : bool * bytes :=
  if Z.of_nat (length extra_nonce) <=? TX_EXTRA_NONCE_MAX_COUNT then
    (true, tx_extra ++ [TX_EXTRA_NONCE; u8 (Z.of_nat (length extra_nonce))] ++ extra_nonce)
  else (false, tx_extra).

(** The bytes are appended before the check. *)
Definition add_payment_id_to_tx_extra (tx_extra : bytes) (pid : uniform_payment_id) : bool * bytes :=
  if zero pid =? 0 then (false, tx_extra ++ [TX_EXTRA_UNIFORM_PAYMENT_ID] ++ replicate 40 0)
  else (true, tx_extra ++ [TX_EXTRA_UNIFORM_PAYMENT_ID] ++ put_uint_loop 8 (zero pid) ++ payment_id pid).

(** The loop of [remove_field_from_tx_extra]: [out] is what was written; the
    result of writing a field is ignored. *)
Fixpoint remove_loop (fuel : nat) (t : Z) (inp out : bytes) : option bytes :=
  match fuel with
  | O => None
  | S fuel =>
      '(f, rest) ← get_field inp;
      let out := if tag_of f =? t then out else out ++ default [] (put_field f) in
      match rest with
      | [] => Some out
      | _ => remove_loop fuel t rest out
      end
  end.

Definition remove_field_from_tx_extra (tx_extra : bytes) (t : Z) : bool * bytes :=
  match tx_extra with
  | [] => (true, tx_extra)
  | _ =>
      match remove_loop (length tx_extra) t tx_extra [] with
      | Some out => (true, out)
      | None => (false, tx_extra)
      end
  end.

(** ** Payment ids in a nonce *)

Definition set_payment_id_to_tx_extra_nonce (payment_id : bytes) : bytes :=
  TX_EXTRA_NONCE_PAYMENT_ID :: payment_id.

Definition set_encrypted_payment_id_to_tx_extra_nonce (payment_id : bytes) : bytes :=
  TX_EXTRA_NONCE_ENCRYPTED_PAYMENT_ID :: payment_id.

Definition get_payment_id_from_tx_extra_nonce (extra_nonce : bytes) : option bytes :=
  match extra_nonce with
  | t :: id => if (length id =? 32)%nat && (t =? TX_EXTRA_NONCE_PAYMENT_ID) then Some id else None
  | [] => None
  end.

Definition get_encrypted_payment_id_from_tx_extra_nonce (extra_nonce : bytes) : option bytes :=
  match extra_nonce with
  | t :: id => if (length id =? 8)%nat && (t =? TX_EXTRA_NONCE_ENCRYPTED_PAYMENT_ID) then Some id else None
  | [] => None
  end.


(** ** Fields that can be written *)

Definition ok_pid (p : uniform_payment_id) : Prop := fits 64 (zero p) /\ key32 (payment_id p).

Definition ok_field (f : tx_extra_field) : Prop :=
  match f with
  | tx_extra_padding size => 1 <= size <= TX_EXTRA_PADDING_MAX_COUNT
  | tx_extra_pub_key k => key32 k
  | tx_extra_nonce nonce => Z.of_nat (length nonce) <= TX_EXTRA_NONCE_MAX_COUNT
  | tx_extra_merge_mining_tag depth root => fits 64 depth /\ key32 root
  | tx_extra_additional_pub_keys data => vector key32 data
  | tx_extra_uniform_payment_id pid => ok_pid pid
  | tx_extra_mysterious_minergate data => Z.of_nat (length data) < 2 ^ 64
  end.

Definition is_padding (f : tx_extra_field) : bool := tag_of f =? TX_EXTRA_TAG_PADDING.

(** A padding reads to the end of the extra, so it is the last field. *)
Fixpoint wf_fields (fs : list tx_extra_field) : Prop :=
  match fs with
  | [] => True
  | [f] => ok_field f
  | f :: fs => ok_field f /\ is_padding f = false /\ wf_fields fs
  end.

#[global] Instance ok_field_dec f : Decision (ok_field f).
Proof. destruct f; cbn [ok_field]; unfold ok_pid; apply _. Defined.

#[global] Instance wf_fields_dec fs : Decision (wf_fields fs).
Proof.
  induction fs as [|f fs IH]; [cbn; apply _|]. destruct fs; cbn [wf_fields] in *; apply _.
Defined.

#[global] Instance pid_codec : Codec ok_pid put_pid get_pid.
Proof.
  intros [z h] [Hz Hh]. cbn in Hz, Hh. unfold put_pid, get_pid. cbn [zero payment_id].
  destruct (uint_codec 8 z Hz) as (b & E & G). rewrite E. cbn [mbind option_bind]. codec.
Qed.

#[global] Instance nonce_codec :
  Codec (fun n : bytes => Z.of_nat (length n) <= TX_EXTRA_NONCE_MAX_COUNT) put_nonce get_nonce.
Proof.
  intros n Hn. unfold put_nonce, get_nonce. rewrite (proj2 (Z.ltb_ge _ _)) by done.
  assert (Z.of_nat (length n) < 2 ^ 64) by (unfold TX_EXTRA_NONCE_MAX_COUNT in Hn; lia).
  put_field. get_fields. by rewrite (proj2 (Z.ltb_ge _ _)).
Qed.

#[global] Instance mm_helper_codec :
  Codec (fun m => fits 64 (fst m) /\ key32 (snd m)) put_mm_helper get_mm_helper.
Proof. intros [d r] []. unfold put_mm_helper, get_mm_helper. codec. Qed.

Lemma mm_helper_short m b :
  fits 64 (fst m) -> key32 (snd m) -> put_mm_helper m = Some b -> Z.of_nat (length b) < 2 ^ 64.
Proof.
  intros Hd Hr (b1 & [= <-] & (b2 & [= <-] & [= <-])%bind_Some)%bind_Some.
  pose proof (Varint.write_varint_length (fst m) 9) as HL. unfold fits in Hd.
  change (2 ^ (7 * Z.of_nat 10)) with (2 ^ 70) in HL. cbv beta in Hr. rewrite length_app, Hr.
  assert (0 <= fst m < 2 ^ 70) as Hd' by lia. apply HL in Hd'. lia.
Qed.

#[global] Instance mm_tag_codec :
  Codec (fun m => fits 64 (fst m) /\ key32 (snd m)) put_mm_tag get_mm_tag.
Proof.
  intros m Hm. destruct (parse_dump _ put_mm_helper get_mm_helper m Hm) as (c & Ec & Gc).
  unfold dump_binary in Ec. unfold put_mm_tag, get_mm_tag. rewrite Ec. cbn [mbind option_bind].
  destruct (string_codec c) as (b & Eb & Gb); [by apply (mm_helper_short m); destruct Hm|].
  exists b. split; [done|]. intros rest. rewrite Gb. cbn [mbind option_bind]. by rewrite Gc.
Qed.

Lemma get_padding_replicate n size m :
  (m < n)%nat -> get_padding_loop n size (replicate m 0) = Some (size + Z.of_nat m, []).
Proof.
  revert n size. induction m as [|m IH]; intros [|n] size Hn; try lia; cbn; [do 2 f_equal; lia|].
  rewrite IH by lia. do 2 f_equal. lia.
Qed.


Ltac eval_tag :=
  cbn [tag_of];
  unfold TX_EXTRA_TAG_PADDING, TX_EXTRA_TAG_PUBKEY, TX_EXTRA_NONCE, TX_EXTRA_MERGE_MINING_TAG,
    TX_EXTRA_TAG_ADDITIONAL_PUBKEYS, TX_EXTRA_UNIFORM_PAYMENT_ID, TX_EXTRA_MYSTERIOUS_MINERGATE_TAG;
  cbn [Z.eqb Pos.eqb].

Lemma get_put_field f :
  ok_field f -> exists b, put_field f = Some b /\
    forall rest, (is_padding f = true -> rest = []) -> get_field (b ++ rest) = Some (f, rest).
Proof.
  intros Hok. unfold put_field, get_field.
  assert (fits 8 (tag_of f)) as Ht by (destruct f; by_eval).
  destruct (uint8_codec _ Ht) as (bt & -> & Gt). cbn [mbind option_bind].
  assert (exists b, put_payload f = Some b /\
    forall rest, (is_padding f = true -> rest = []) -> get_payload (tag_of f) (b ++ rest) = Some (f, rest))
    as (b & -> & G).
  2: { eexists. split; [reflexivity|]. intros rest Hr. rewrite <- app_assoc, Gt. by apply G. }
  destruct f; cbn [ok_field put_payload] in *.
  2-7: match goal with |- exists b, ?put ?v = _ /\ _ =>
    destruct (get_put (put := put) v) as (b & -> & G); [done|exists b; split; [done|intros rest _;
      unfold get_payload; eval_tag; by rewrite G]] end.
  unfold put_padding. rewrite (proj2 (Z.ltb_ge _ _)) by lia. eexists. split; [done|].
  intros rest Hr. rewrite Hr, app_nil_r by done. unfold get_payload. eval_tag.
  unfold get_padding. rewrite get_padding_replicate by (unfold TX_EXTRA_PADDING_MAX_COUNT in *; lia).
  cbn [mbind option_bind]. do 3 f_equal. lia.
Qed.

Lemma put_field_cons f b : put_field f = Some b -> exists t b', b = t :: b'.
Proof.
  unfold put_field. cbn [put_uint put_uint_loop mbind option_bind].
  intros (c & _ & [= <-])%bind_Some. eexists _, _. reflexivity.
Qed.

#[global] Instance field_nonempty : NonEmpty (fun _ => True) put_field.
Proof. intros f c _ (t & b' & ->)%put_field_cons. done. Qed.

(** ** The loop reads back a sequence of fields *)

Lemma wf_fields_cons f fs : wf_fields (f :: fs) ->
  ok_field f /\ (is_padding f = true -> fs = []) /\ wf_fields fs.
Proof. destruct fs as [|g fs]; [done|]. intros (Hf & Hp & Hw). split; [done|]. split; [congruence|done]. Qed.

Lemma put_fields fs : wf_fields fs -> exists b, put_n put_field fs = Some b.
Proof.
  induction fs as [|f fs IH]; [by exists []|]. intros (Hf & _ & Hw)%wf_fields_cons.
  destruct (get_put_field f Hf) as (b & E & _). destruct (IH Hw) as (c & Ec).
  exists (b ++ c). cbn [put_n]. by rewrite E, Ec.
Qed.

Lemma put_fields_nil fs : put_n put_field fs = Some [] -> fs = [].
Proof.
  destruct fs as [|f fs]; [done|]. cbn [put_n].
  intros (b & (t & b' & ->)%put_field_cons & (c & _ & [=])%bind_Some)%bind_Some.
Qed.

Lemma parse_loop_fields fs : wf_fields fs -> fs <> [] -> forall fuel b acc,
  put_n put_field fs = Some b -> (length fs <= fuel)%nat ->
  parse_loop fuel b acc = (true, acc ++ fs).
Proof.
  induction fs as [|f fs IH]; [done|]. intros (Hf & Hp & Hw)%wf_fields_cons _ fuel b acc E Hfuel.
  destruct fuel as [|fuel]; [cbn in Hfuel; lia|]. cbn [put_n] in E.
  apply bind_Some in E as (b1 & E1 & (c & Ec & [= <-])%bind_Some).
  destruct (get_put_field f Hf) as (b1' & E1' & G). rewrite E1 in E1'. injection E1' as <-.
  cbn [parse_loop]. destruct c as [|c0 c].
  - apply put_fields_nil in Ec as ->. by rewrite G.
  - rewrite G; [|intros ->%Hp; discriminate Ec].
    rewrite IH; [by rewrite <- app_assoc|done|by intros ->|done|cbn in Hfuel; lia].
Qed.

Lemma parse_fields fs b :
  wf_fields fs -> put_n put_field fs = Some b -> parse_tx_extra b = (true, fs).
Proof.
  intros Hw E. destruct b as [|x b]; [by apply put_fields_nil in E as ->|].
  unfold parse_tx_extra. rewrite (parse_loop_fields fs); [done|done|by intros ->|done|].
  apply (put_n_length (fun _ => True) put_field); [by apply Forall_true|done].
Qed.


(** ** Fields that are read can be written *)

Lemma get_padding_range n size inp s rest :
  get_padding_loop n size inp = Some (s, rest) -> size <= s < size + Z.of_nat n /\ rest = [].
Proof.
  revert size inp. induction n as [|n IH]; intros size inp; [done|]. cbn [get_padding_loop].
  destruct inp as [|z inp]; [intros [= <- <-]; split; [lia|done]|].
  destruct (z =? 0); [|done]. intros [H ->]%IH. split; [lia|done].
Qed.

#[global] Instance pid_sound : Sound ok_pid get_pid.
Proof.
  intros inp p rest Hin H. unfold get_pid in H. read_ok. unfold ok_pid. cbn. tauto.
Qed.

#[global] Instance nonce_sound :
  Sound (fun n : bytes => Z.of_nat (length n) <= TX_EXTRA_NONCE_MAX_COUNT) get_nonce.
Proof. intros inp n rest Hin H. unfold get_nonce in H. read_ok. split; [lia|done]. Qed.

#[global] Instance mm_helper_sound : Sound (fun m => fits 64 (fst m) /\ key32 (snd m)) get_mm_helper.
Proof. intros inp n rest Hin H. unfold get_mm_helper in H. read_ok. cbn. tauto. Qed.

Lemma get_string_bytes inp s rest : is_bytes inp -> get_string inp = Some (s, rest) -> is_bytes s.
Proof.
  intros Hin ([cnt r] & Ec & E)%bind_Some. apply get_ok in Ec as [_ Hr]; [|done].
  destruct (_ <? cnt); [done|]. unfold get_blob in E. destruct (_ <=? _)%nat; [|done].
  injection E as <- <-. by apply Forall_take.
Qed.

#[global] Instance mm_tag_sound : Sound (fun m => fits 64 (fst m) /\ key32 (snd m)) get_mm_tag.
Proof.
  intros inp m rest Hin H. unfold get_mm_tag in H.
  apply bind_Some in H as ([field r] & Ef & (m' & Em & [= <- <-])%bind_Some).
  pose proof (get_string_bytes _ _ _ Hin Ef) as Hb. apply get_ok in Ef as [_ Hr]; [|done].
  split; [|done]. by apply (parse_dump_parse _ put_mm_helper get_mm_helper) in Em as [? _].
Qed.

Lemma get_field_ok inp f rest :
  is_bytes inp -> get_field inp = Some (f, rest) ->
  ok_field f /\ is_bytes rest /\ (is_padding f = true -> rest = []).
Proof.
  intros Hin H. unfold get_field in H. apply bind_Some in H as ([t r] & Et & H).
  apply get_ok in Et as [_ Hr]; [|done]. unfold get_payload in H.
  destruct (t =? TX_EXTRA_TAG_PADDING).
  { apply bind_Some in H as ([x r'] & Ex & [= <- <-]). apply get_padding_range in Ex as [Hx ->].
    split; [|split; [by constructor|done]]. cbn [ok_field]. unfold TX_EXTRA_PADDING_MAX_COUNT in *. lia. }
  repeat match type of H with (if ?c then _ else _) = _ => destruct c end; try done;
    apply bind_Some in H as ([x r'] & Ex & H); try destruct x as [d root]; injection H as <- <-;
    (apply get_ok in Ex as [? ?]; [|done]); (split; [assumption|split; [assumption|discriminate]]).
Qed.

(** What [parse_loop] has read when it succeeds. *)
Lemma parse_loop_wf fuel inp acc r fs :
  is_bytes inp -> parse_loop fuel inp acc = (r, fs) ->
  exists gs, fs = acc ++ gs /\ Forall ok_field gs /\ (r = true -> wf_fields gs /\ gs <> []).
Proof.
  revert inp acc. induction fuel as [|fuel IH]; intros inp acc Hin; cbn [parse_loop].
  { intros [= <- <-]. exists []. by rewrite app_nil_r. }
  destruct (get_field inp) as [[f [|c rest]]|] eqn:E.
  - apply get_field_ok in E as (Hf & _); [|done]. intros [= <- <-]. exists [f]. by auto.
  - apply get_field_ok in E as (Hf & Hr & Hp); [|done]. intros (gs & -> & Hg & Hw)%IH; [|done].
    exists (f :: gs). rewrite <- app_assoc. split; [done|]. split; [by constructor|].
    intros [Hw' Hne]%Hw. split; [|done]. destruct gs; [done|]. split; [done|]. split; [|done].
    destruct (is_padding f); [by specialize (Hp eq_refl)|done].
  - intros [= <- <-]. exists []. by rewrite app_nil_r.
Qed.


(** ** The loop ends *)

#[global] Instance payload_shrinks t : Shrinks (get_payload t).
Proof.
  intros inp f rest H. unfold get_payload in H.
  destruct (t =? TX_EXTRA_TAG_PADDING).
  { apply bind_Some in H as ([x r'] & Ex & [= <- <-]). apply get_padding_range in Ex as [_ ->]. cbn. lia. }
  unfold get_nonce, get_mm_tag, get_pid in H.
  repeat match type of H with (if ?c then _ else _) = _ => destruct c end; try done;
    repeat match goal with
    | E : mbind _ _ = Some _ |- _ => apply bind_Some in E as ([? ?] & ? & E)
    | E : (if ?c then _ else _) = Some _ |- _ => destruct c; [discriminate E|]
    | E : Some _ = Some _ |- _ => injection E; clear E; intros; subst
    | E : _ = Some (_, _) |- _ => apply get_shrinks in E
    end; lia.
Qed.

Lemma get_field_shorter inp f rest : get_field inp = Some (f, rest) -> (length rest < length inp)%nat.
Proof.
  intros ([t r] & Et & E%get_shrinks)%bind_Some. unfold get_uint in Et.
  destruct inp as [|c inp]; [done|]. cbn [get_uint_loop] in Et. injection Et as _ <-. cbn [length]. lia.
Qed.

Lemma parse_loop_fuel f1 f2 inp acc :
  (length inp <= f1)%nat -> (length inp <= f2)%nat -> parse_loop f1 inp acc = parse_loop f2 inp acc.
Proof.
  revert f2 inp acc. induction f1 as [|f1 IH]; intros [|f2] inp acc H1 H2; [done|..].
  1,2: assert (inp = []) as -> by (destruct inp; [done|cbn in *; lia]); done.
  cbn [parse_loop]. destruct (get_field inp) as [[f [|c rest]]|] eqn:E; [done| |done].
  apply get_field_shorter in E. apply IH; lia.
Qed.

(** The equation of the loop, without the fuel. *)
Lemma parse_tx_extra_unfold c inp :
  parse_tx_extra (c :: inp) =
    match get_field (c :: inp) with
    | None => (false, [])
    | Some (f, rest) => let '(r, fs) := parse_tx_extra rest in (r, f :: fs)
    end.
Proof.
  assert (forall fuel inp acc, parse_loop fuel inp acc =
    let '(r, fs) := parse_loop fuel inp [] in (r, acc ++ fs)) as Hacc.
  { clear. induction fuel as [|fuel IH]; intros inp acc; cbn [parse_loop]; [by rewrite app_nil_r|].
    destruct (get_field inp) as [[f [|c rest]]|]; [done| |by rewrite app_nil_r].
    rewrite (IH _ (acc ++ [f])), (IH _ ([] ++ [f])). destruct (parse_loop fuel (c :: rest) []). by rewrite <- app_assoc. }
  unfold parse_tx_extra at 1. cbn [length parse_loop].
  destruct (get_field (c :: inp)) as [[f [|d rest]]|] eqn:E; [done| |done].
  rewrite Hacc. apply get_field_shorter in E. unfold parse_tx_extra.
  rewrite (parse_loop_fuel _ (length (d :: rest))) by (cbn [length] in *; lia). done.
Qed.

(** ** Removing a field *)

Definition others (t : Z) (fs : list tx_extra_field) : list tx_extra_field :=
  filter (fun f => tag_of f <> t) fs.

Lemma wf_others t fs : wf_fields fs -> wf_fields (others t fs).
Proof.
  unfold others. induction fs as [|f fs IH]; [done|]. intros (Hf & Hp & Hw)%wf_fields_cons.
  rewrite filter_cons. destruct (decide _); [|by apply IH].
  destruct (is_padding f) eqn:Ep; [rewrite Hp by done; done|].
  destruct (filter _ fs) eqn:E; [done|]. split; [done|]. split; [done|]. by apply IH.
Qed.

Lemma remove_loop_parse t fuel inp acc out :
  is_bytes inp ->
  match parse_loop fuel inp acc with
  | (true, fs) => exists gs, fs = acc ++ gs /\
      remove_loop fuel t inp out = (b ← put_n put_field (others t gs); Some (out ++ b))
  | (false, _) => remove_loop fuel t inp out = None
  end.
Proof.
  revert inp acc out. induction fuel as [|fuel IH]; intros inp acc out Hin; [done|].
  cbn [parse_loop remove_loop]. destruct (get_field inp) as [[f rest]|] eqn:E; [|done].
  cbn [mbind option_bind]. apply get_field_ok in E as (Hf & Hr & _); [|done].
  destruct (get_put_field f Hf) as (b & Eb & _).
  assert (forall gs, (c ← put_n put_field (others t (f :: gs)); Some (out ++ c)) =
    (c ← put_n put_field (others t gs);
     Some ((if tag_of f =? t then out else out ++ default [] (put_field f)) ++ c))) as Hgs.
  { intros gs. unfold others. rewrite filter_cons, Eb. destruct (Z.eqb_spec (tag_of f) t).
    - by rewrite decide_False by auto.
    - rewrite decide_True by done. cbn [put_n default id]. rewrite Eb. cbn [mbind option_bind].
      destruct (put_n _ _); [|done]. cbn. by rewrite <- app_assoc. }
  destruct rest as [|c rest].
  - exists [f]. split; [done|]. rewrite Hgs. cbn. by rewrite app_nil_r.
  - specialize (IH (c :: rest) (acc ++ [f])
      (if tag_of f =? t then out else out ++ default [] (put_field f)) Hr).
    destruct (parse_loop fuel (c :: rest) (acc ++ [f])) as [[] fs]; [|done].
    destruct IH as (gs & -> & ->). exists (f :: gs). by rewrite <- app_assoc, Hgs.
Qed.


(** ** Building an extra *)

Inductive extra_op :=
  | AddPubKey (k : bytes)
  | AddAdditional (keys : list bytes)
  | AddNonce (nonce : bytes)
  | AddPaymentId (pid : uniform_payment_id).

Definition run_op (tx_extra : bytes) (op : extra_op) : bytes :=
  snd (match op with
       | AddPubKey k => add_tx_pub_key_to_extra tx_extra k
       | AddAdditional keys => add_additional_tx_pub_keys_to_extra tx_extra keys
       | AddNonce nonce => add_extra_nonce_to_tx_extra tx_extra nonce
       | AddPaymentId pid => add_payment_id_to_tx_extra tx_extra pid
       end).

Definition op_field (op : extra_op) : tx_extra_field :=
  match op with
  | AddPubKey k => tx_extra_pub_key k
  | AddAdditional keys => tx_extra_additional_pub_keys keys
  | AddNonce nonce => tx_extra_nonce nonce
  | AddPaymentId pid => tx_extra_uniform_payment_id pid
  end.

Definition ok_op (op : extra_op) : Prop :=
  ok_field (op_field op) /\
  match op with
  | AddNonce nonce => Z.of_nat (length nonce) < 128
  | AddPaymentId pid => zero pid <> 0
  | _ => True
  end.

#[global] Instance ok_op_dec op : Decision (ok_op op).
Proof. unfold ok_op. destruct op; apply _. Defined.

Lemma run_op_put tx_extra op :
  ok_op op -> exists b, put_field (op_field op) = Some b /\ run_op tx_extra op = tx_extra ++ b.
Proof.
  intros [Hf Ho]. destruct (get_put_field _ Hf) as (b & E & _). exists b. split; [done|].
  unfold run_op. destruct op as [k|keys|nonce|pid]; cbn [op_field ok_field] in *.
  - unfold add_tx_pub_key_to_extra. cbn in E |- *. by injection E as <-.
  - unfold add_additional_tx_pub_keys_to_extra. by rewrite E.
  - unfold add_extra_nonce_to_tx_extra, put_field, put_payload, put_nonce, put_string in *.
    rewrite (proj2 (Z.ltb_ge _ _)) in E by done. rewrite (proj2 (Z.leb_le _ _)) by done.
    cbn [put_uint put_uint_loop put_varint mbind option_bind] in E. injection E as <-.
    rewrite Varint.write_varint_eq, decide_False by lia.
    rewrite wrap_small by (unfold fits; lia). done.
  - unfold add_payment_id_to_tx_extra. rewrite (proj2 (Z.eqb_neq _ _)) by done.
    unfold put_field, put_payload, put_pid in E.
    cbn [put_uint put_blob mbind option_bind] in E. by injection E as <-.
Qed.

Lemma run_ops_put ops : forall tx_extra fs,
  Forall ok_op ops -> put_n put_field fs = Some tx_extra ->
  put_n put_field (fs ++ map op_field ops) = Some (foldl run_op tx_extra ops).
Proof.
  induction ops as [|op ops IH]; intros tx_extra fs; [by rewrite app_nil_r|].
  intros [Ho Hops]%Forall_cons E. cbn [foldl map]. rewrite cons_middle, app_assoc. apply IH; [done|].
  destruct (run_op_put tx_extra op Ho) as (b & Eb & ->). clear -E Eb.
  revert tx_extra E. induction fs as [|f fs IH]; intros tx_extra E; cbn [put_n app] in *.
  - injection E as <-. rewrite Eb. cbn. by rewrite app_nil_r.
  - apply bind_Some in E as (c & Ec & (d & Ed & [= <-])%bind_Some).
    rewrite Ec, (IH d Ed). cbn. by rewrite <- app_assoc.
Qed.

Lemma wf_ops ops : Forall ok_op ops -> wf_fields (map op_field ops).
Proof.
  induction 1 as [|op ops [Hf _] Hops IH]; [done|]. cbn [map]. destruct (map op_field ops) eqn:E; [done|].
  split; [done|]. split; [by destruct op|done].
Qed.

(** ** Correctness *)

(** The functions that build an extra and the parser agree: after any
    sequence of additions of public keys, additional keys, short nonces and
    encrypted payment ids to an empty extra, [parse_tx_extra] succeeds and
    returns the added fields in order. *)
Theorem tx_extra_built ops :
  Forall ok_op ops -> parse_tx_extra (foldl run_op [] ops) = (true, map op_field ops).
Proof. intros H. apply parse_fields; [by apply wf_ops|]. by apply (run_ops_put ops [] []). Qed.

Lemma tx_extra_built_witness :
  parse_tx_extra (foldl run_op []
    [AddPubKey (key_of 1); AddNonce [0; 1; 2];
     AddPaymentId {| zero := 77; payment_id := key_of 5 |}; AddAdditional [key_of 2; key_of 3]])
  = (true, [tx_extra_pub_key (key_of 1); tx_extra_nonce [0; 1; 2];
            tx_extra_uniform_payment_id {| zero := 77; payment_id := key_of 5 |};
            tx_extra_additional_pub_keys [key_of 2; key_of 3]]).
Proof. apply tx_extra_built. by_eval. Defined.

(** [remove_field_from_tx_extra] on an extra that parses succeeds and
    leaves an extra that parses to the other fields, in order; on an extra that
    does not parse it fails and changes nothing. *)
Theorem remove_field_spec tx_extra t r fs :
  is_bytes tx_extra -> parse_tx_extra tx_extra = (r, fs) ->
  if r then exists tx_extra', remove_field_from_tx_extra tx_extra t = (true, tx_extra') /\
              parse_tx_extra tx_extra' = (true, others t fs)
  else remove_field_from_tx_extra tx_extra t = (false, tx_extra).
Proof.
  intros Hin E. unfold parse_tx_extra, remove_field_from_tx_extra in *.
  destruct tx_extra as [|c inp]; [injection E as <- <-; by exists []|].
  pose proof (remove_loop_parse t (length (c :: inp)) (c :: inp) [] [] Hin) as HR.
  rewrite E in HR. destruct r; [|by rewrite HR]. destruct HR as (gs & -> & ->). cbn [app].
  apply parse_loop_wf in E as (gs' & Egs & _ & Hw); [|done]. cbn [app] in Egs. subst gs'.
  destruct (Hw eq_refl) as [Hwf _]. apply (wf_others t) in Hwf as Hwf'.
  destruct (put_fields _ Hwf') as (b & Eb). rewrite Eb. exists b. split; [done|]. by apply parse_fields.
Qed.

Lemma remove_field_spec_witness :
  exists tx_extra', remove_field_from_tx_extra ([1] ++ key_of 9 ++ [2; 2; 7; 7; 0; 0]) TX_EXTRA_NONCE
    = (true, tx_extra') /\ parse_tx_extra tx_extra' = (true, [tx_extra_pub_key (key_of 9); tx_extra_padding 2]).
Proof.
  apply (remove_field_spec _ TX_EXTRA_NONCE true
    [tx_extra_pub_key (key_of 9); tx_extra_nonce [7; 7]; tx_extra_padding 2]).
  - by_eval.
  - vm_compute. reflexivity.
Defined.


(** The size of a nonce that takes two varint bytes is read from the nonce. *)
Lemma long_varint_rest c d inp v rest :
  128 <= c < 256 -> get_varint 64 (c :: d :: inp) = Some (v, rest) -> (length rest <= length inp)%nat.
Proof.
  intros Hc. unfold get_varint, Varint.read_varint.
  rewrite Varint.read_loop_cons by (unfold fits; lia || discriminate). rewrite decide_True by lia.
  destruct (Varint.read_varint_loop _ _ _ _ _) as [[n u] r] eqn:E. intros [= <- <-].
  cbn [Varint.read_varint_loop] in E. destruct (_ && _); [by injection E as <- <- <-|].
  destruct (_ && _); [by injection E as <- <- <-|]. destruct (_ =? 0); [by injection E as <- <- <-|].
  by apply Varint.read_loop_shorter in E.
Qed.

(** [add_extra_nonce_to_tx_extra] accepts nonces of up to 255 bytes but
    writes their size as one byte where the parser reads a varint: a nonce of
    128 bytes or more is never read back. *)
Theorem long_nonce_lost nonce :
  128 <= Z.of_nat (length nonce) <= 255 ->
  fst (add_extra_nonce_to_tx_extra [] nonce) = true /\
  parse_tx_extra (snd (add_extra_nonce_to_tx_extra [] nonce)) <> (true, [tx_extra_nonce nonce]).
Proof.
  intros Hn. unfold add_extra_nonce_to_tx_extra.
  rewrite (proj2 (Z.leb_le _ _)) by (unfold TX_EXTRA_NONCE_MAX_COUNT; lia). split; [done|].
  cbn [snd app]. rewrite parse_tx_extra_unfold, wrap_small by (unfold fits; lia).
  destruct (get_field _) as [[f rest]|] eqn:E; [|done]. destruct (parse_tx_extra rest) as [r fs].
  intros [= -> -> ->]. unfold get_field in E.
  change (get_payload 2 (Z.of_nat (length nonce) :: nonce) = Some (tx_extra_nonce nonce, rest)) in E.
  unfold get_payload in E. revert E. eval_tag. unfold get_nonce, get_string.
  intros ([x r] & ([x' r'] & ([cnt r2] & Ec & Es)%bind_Some & Ex)%bind_Some & [= -> ->])%bind_Some.
  destruct (_ <? cnt); [done|]. destruct (_ <? Z.of_nat (length x')); [done|]. injection Ex as -> ->.
  destruct nonce as [|d inp]; [cbn in Hn; lia|].
  apply long_varint_rest in Ec; [|lia]. unfold get_blob in Es.
  destruct (_ <=? _)%nat; [|done]. injection Es as Es _. apply (f_equal length) in Es.
  rewrite length_take in Es. cbn [length] in Es. lia.
Qed.

Lemma long_nonce_lost_witness :
  fst (add_extra_nonce_to_tx_extra [] (replicate 200 7)) = true /\
  parse_tx_extra (snd (add_extra_nonce_to_tx_extra [] (replicate 200 7))) <> (true, [tx_extra_nonce (replicate 200 7)]).
Proof. apply (long_nonce_lost (replicate 200 7)). by_eval. Defined.

End TxExtra.
