(* ===== verification/TxHash.v ===== *)
(** * Transaction and block identifiers

    The hashing functions of
    [src/cryptonote_basic/cryptonote_format_utils.cpp]: the prefix hash, the
    hash of a transaction with its cache, the blob a block's proof of work is
    computed on and the hash of a block. A function has no result where a
    serializer returns [false]. *)

From S2P Require Import Prelude Keccak Varint TreeHash Serialization Transaction.
Import Serialization Transaction.

Module TxHash.

Section tx_hash.
Context `{!FastHash}.

(** "ryo-currency" *)
Definition TX_FORK_ID_STR : bytes := [114; 121; 111; 45; 99; 117; 114; 114; 101; 110; 99; 121].

Definition null_hash : bytes := replicate 32 0.

(** What [get_transaction_prefix_hash] hashes. The result of the serializer is
    ignored: for a version it refuses only the version is in the stream. *)
Definition prefix_blob (p : transaction_prefix) : bytes :=
  (if 3 <=? version p then TX_FORK_ID_STR else []) ++
  match put_prefix p with Some b => b | None => Varint.write_varint (version p) end.

Definition get_transaction_prefix_hash (p : transaction_prefix) : bytes := fast_hash (prefix_blob p).

Definition get_blob_hash (blob : bytes) : bytes := fast_hash blob.

Definition get_object_hash {A} (put : writer A) (o : A) : option bytes :=
  b ← put o; Some (get_blob_hash b).

Definition get_object_blobsize {A} (put : writer A) (o : A) : option Z :=
  b ← put o; Some (Z.of_nat (length b)).

(** The two parts of the ring signature of a transaction. *)
Definition rct_base_blob (t : transaction) : option bytes :=
  put_rctsig_base (length (vin (prefix t))) (length (vout (prefix t))) (rct_signatures t).

Definition rct_prunable_blob (t : transaction) : option bytes :=
  put_rctsig_prunable (length (vin (prefix t))) (length (vout (prefix t))) (mixin1 (vin (prefix t)))
    (rct_signatures t).

Definition calculate_transaction_hash (t : transaction) : option bytes :=
  if version (prefix t) =? 1 then get_object_hash put_transaction t
  else
    base ← rct_base_blob t;
    h2 ← (if type (rct_signatures t) =? RCTTypeNull then Some null_hash
          else p ← rct_prunable_blob t; Some (get_blob_hash p));
    Some (fast_hash (get_transaction_prefix_hash (prefix t) ++ get_blob_hash base ++ h2)).

(** ** The cache *)

(** The mutable members of a [transaction]. *)
Record tx_cache := {
  hash_valid : bool;
  hash : bytes;
  blob_size_valid : bool;
  blob_size : Z
}.

Definition invalidate_hashes (c : tx_cache) : tx_cache :=
  {| hash_valid := false; hash := hash c; blob_size_valid := false; blob_size := blob_size c |}.

(** [get_transaction_hash(t, res, blob_size)], with [want_size] when the
    pointer to the size is not null. *)
Definition get_transaction_hash (want_size : bool) (t : transaction) (c : tx_cache)
    : option (bytes * option Z * tx_cache) :=
  if hash_valid c then
    if want_size then
      if blob_size_valid c then Some (hash c, Some (blob_size c), c)
      else
        n ← get_object_blobsize put_transaction t;
        Some (hash c, Some n,
              {| hash_valid := true; hash := hash c; blob_size_valid := true; blob_size := n |})
    else Some (hash c, None, c)
  else
    res ← calculate_transaction_hash t;
    if want_size then
      n ← get_object_blobsize put_transaction t;
      Some (res, Some n, {| hash_valid := true; hash := res; blob_size_valid := true; blob_size := n |})
    else
      Some (res, None, {| hash_valid := true; hash := res; blob_size_valid := blob_size_valid c;
                          blob_size := blob_size c |}).

(** ** Blocks *)

(** [get_tx_tree_hash(b)]: the null hash stands for a miner transaction whose
    hash cannot be computed. *)
Definition tx_ids (b : block) : list bytes :=
  default null_hash (calculate_transaction_hash (miner_tx b)) :: tx_hashes b.

Definition get_tx_tree_hash (b : block) : option bytes := TreeHash.tree_hash (tx_ids b).

Definition get_block_hashing_blob (b : block) : option bytes :=
  blob ← put_header (header b);
  root ← get_tx_tree_hash b;
  Some (blob ++ root ++ Varint.get_varint_data (u64 (Z.of_nat (length (tx_hashes b)) + 1))).

(** The hashing blob is serialized as a string, with its length in front. *)
Definition calculate_block_hash (b : block) : option bytes :=
  blob ← get_block_hashing_blob b; get_object_hash put_string blob.

(** ** The cache returns what would be computed *)

Definition cache_ok (t : transaction) (c : tx_cache) : Prop :=
  (hash_valid c = true -> calculate_transaction_hash t = Some (hash c)) /\
  (blob_size_valid c = true -> get_object_blobsize put_transaction t = Some (blob_size c)).

Lemma get_transaction_hash_spec want_size t c h n c' :
  cache_ok t c -> get_transaction_hash want_size t c = Some (h, n, c') ->
  calculate_transaction_hash t = Some h /\ cache_ok t c' /\ hash_valid c' = true /\
  n = (if want_size then get_object_blobsize put_transaction t else None).
Proof.
  intros [Hh Hs]. unfold get_transaction_hash. destruct (hash_valid c) eqn:Ev.
  - specialize (Hh eq_refl). destruct want_size; [|by intros [= <- <- <-]].
    destruct (blob_size_valid c) eqn:Es.
    + intros [= <- <- <-]. specialize (Hs eq_refl). by repeat split.
    + intros (m & Em & [= <- <- <-])%bind_Some. by repeat split.
  - intros (r & Er & E)%bind_Some. destruct want_size.
    + apply bind_Some in E as (m & Em & [= <- <- <-]). by repeat split.
    + injection E as <- <- <-. by repeat split.
Qed.

(** ** Injectivity of what is hashed *)

Lemma codec_inj {A} ok (put : writer A) get `{!Codec ok put get} x y b :
  ok x -> ok y -> put x = Some b -> put y = Some b -> x = y.
Proof.
  intros Hx Hy Ex Ey. destruct (get_put x Hx) as (c & Ec & G), (get_put y Hy) as (d & Ed & G').
  rewrite Ex in Ec. rewrite Ey in Ed. injection Ec as <-. injection Ed as <-.
  specialize (G []). rewrite G' in G. congruence.
Qed.

Lemma prefix_blob_put p :
  ok_prefix p -> exists b, put_prefix p = Some b /\ prefix_blob p = (if 3 <=? version p then TX_FORK_ID_STR else []) ++ b
    /\ (version p < 3 -> exists c, b = version p :: c).
Proof.
  intros Hp. destruct (get_put p Hp) as (b & Eb & _). exists b. unfold prefix_blob. rewrite Eb.
  split; [done|]. split; [done|]. intros Hv. destruct Hp as [Hv' _].
  unfold put_prefix in Eb. apply bind_Some in Eb as (c & [= <-] & E). destruct (version_ok _); [|done].
  rewrite Varint.write_varint_eq, decide_False in E by lia.
  repeat apply bind_Some in E as (? & _ & E). injection E as <-. by eexists.
Qed.

Lemma prefix_blob_inj p q : ok_prefix p -> ok_prefix q -> prefix_blob p = prefix_blob q -> p = q.
Proof.
  intros Hp Hq E. destruct (prefix_blob_put p Hp) as (b & Eb & Ep & Vp).
  destruct (prefix_blob_put q Hq) as (c & Ec & Eq & Vq). rewrite Ep, Eq in E.
  destruct Hp as [Bp ?] eqn:?, Hq as [Bq ?] eqn:?.
  destruct (Z.leb_spec 3 (version p)), (Z.leb_spec 3 (version q)).
  - apply app_inv_head in E as ->. by apply (codec_inj ok_prefix put_prefix get_prefix p q c).
  - destruct Vq as [d ->]; [lia|]. cbn in E. injection E. lia.
  - destruct Vp as [d ->]; [lia|]. cbn in E. injection E. lia.
  - cbn in E. subst c. by apply (codec_inj ok_prefix put_prefix get_prefix p q b).
Qed.

Lemma rct_base_blob_ok t :
  ok_transaction t -> version (prefix t) <> 1 ->
  exists b, rct_base_blob t = Some b /\ forall rest,
    get_rctsig_base (length (vin (prefix t))) (length (vout (prefix t))) (b ++ rest)
    = Some (rct_base (rct_signatures t), rest).
Proof.
  intros [_ Ht] Hv. rewrite (proj2 (Z.eqb_neq _ _) Hv) in Ht. unfold rct_base_blob.
  destruct Ht as [_ [->|[_ Ht]]]; [|by apply (get_put_base _ _ _ _ Ht)].
  unfold put_rctsig_base, get_rctsig_base. cbn [type rct_null]. eval_type.
  destruct (uint8_codec 0) as (b & E & G); [by_eval|]. rewrite E. cbn [mbind option_bind].
  exists b. split; [done|]. intros rest. by rewrite G.
Qed.

Lemma rct_prunable_blob_ok t :
  ok_transaction t -> version (prefix t) <> 1 -> (type (rct_signatures t) =? RCTTypeNull) = false ->
  exists b, rct_prunable_blob t = Some b /\ forall rest,
    get_rctsig_prunable (length (vin (prefix t))) (length (vout (prefix t))) (mixin1 (vin (prefix t)))
      (rct_base (rct_signatures t)) (b ++ rest) = Some (rct_signatures t, rest).
Proof.
  intros [_ Ht] Hv Hn. rewrite (proj2 (Z.eqb_neq _ _) Hv) in Ht. unfold rct_prunable_blob.
  destruct Ht as [_ [Ht|[_ Ht]]]; [by rewrite Ht in Hn|]. by apply (get_put_prunable _ _ _ _ Ht).
Qed.

(** A signature of type null has no members. *)
Lemma rct_null_ok t :
  ok_transaction t -> version (prefix t) <> 1 -> (type (rct_signatures t) =? RCTTypeNull) = true ->
  rct_signatures t = rct_null.
Proof.
  intros [_ Ht] Hv Hn. rewrite (proj2 (Z.eqb_neq _ _) Hv) in Ht.
  destruct Ht as [_ [Ht|[_ [Hk _]]]]; [done|].
  apply known_type_range in Hk as [E|[E|E]]; by rewrite E in Hn.
Qed.

(** ** Binding *)

(** The strings hashed for a transaction of version 2 or later. *)
Definition third_hash (t : transaction) : bytes :=
  if type (rct_signatures t) =? RCTTypeNull then null_hash
  else get_blob_hash (default [] (rct_prunable_blob t)).

Definition tx_inputs (t : transaction) : list bytes :=
  let base := default [] (rct_base_blob t) in
  [prefix_blob (prefix t); base; default [] (rct_prunable_blob t);
   get_transaction_prefix_hash (prefix t) ++ get_blob_hash base ++ third_hash t].

Lemma calculate_hash_v2 t :
  ok_transaction t -> version (prefix t) <> 1 ->
  calculate_transaction_hash t =
    Some (fast_hash (get_transaction_prefix_hash (prefix t) ++
      get_blob_hash (default [] (rct_base_blob t)) ++ third_hash t)).
Proof.
  intros Ht Hv. unfold calculate_transaction_hash, third_hash. rewrite (proj2 (Z.eqb_neq _ _) Hv).
  destruct (rct_base_blob_ok t Ht Hv) as (b & -> & _). cbn [mbind option_bind default id].
  destruct (type _ =? RCTTypeNull) eqn:En; [done|].
  by destruct (rct_prunable_blob_ok t Ht Hv En) as (p & -> & _).
Qed.

Lemma length_third_hash t : length (third_hash t) = 32%nat.
Proof. unfold third_hash. destruct (_ =? _); [done|]. apply fast_hash_length. Qed.

Lemma calculate_hash_length t h : calculate_transaction_hash t = Some h -> length h = 32%nat.
Proof.
  unfold calculate_transaction_hash, get_object_hash, get_blob_hash. destruct (_ =? 1).
  - intros (b & _ & [= <-])%bind_Some. apply fast_hash_length.
  - intros (b & _ & (c & _ & [= <-])%bind_Some)%bind_Some. apply fast_hash_length.
Qed.

Lemma rct_binding S t1 t2 :
  ok_transaction t1 -> ok_transaction t2 -> version (prefix t1) <> 1 -> prefix t1 = prefix t2 ->
  tx_inputs t1 ⊆ S -> tx_inputs t2 ⊆ S ->
  get_blob_hash (default [] (rct_base_blob t1)) = get_blob_hash (default [] (rct_base_blob t2)) ->
  third_hash t1 = third_hash t2 ->
  rct_signatures t1 = rct_signatures t2 \/ collides S.
Proof.
  intros H1 H2 Hv Ep S1 S2 Eb E3. assert (version (prefix t2) <> 1) as Hv2 by congruence.
  unfold tx_inputs in S1, S2. rewrite !list_subseteq_cons_iff in S1, S2.
  destruct (rct_base_blob_ok t1 H1 Hv) as (b1 & E1 & G1).
  destruct (rct_base_blob_ok t2 H2 Hv2) as (b2 & E2 & G2). rewrite E1, E2 in *. cbn [default id] in *.
  apply (hash_inj S) in Eb as [->|]; [|by right|tauto|tauto].
  specialize (G1 []). rewrite Ep, G2 in G1. apply (f_equal (option_map fst)) in G1.
  cbn [option_map fst] in G1. assert (rct_base (rct_signatures t1) = rct_base (rct_signatures t2)) as Gb by congruence.
  assert (type (rct_signatures t1) = type (rct_signatures t2)) as Et
    by (by apply (f_equal type) in Gb).
  destruct (type (rct_signatures t1) =? RCTTypeNull) eqn:En.
  { left. rewrite (rct_null_ok t1), (rct_null_ok t2) by (done || by rewrite <- Et). done. }
  assert ((type (rct_signatures t2) =? RCTTypeNull) = false) as En2 by (by rewrite <- Et).
  destruct (rct_prunable_blob_ok t1 H1 Hv En) as (p1 & P1 & Q1).
  destruct (rct_prunable_blob_ok t2 H2 Hv2 En2) as (p2 & P2 & Q2).
  unfold third_hash in E3. rewrite En, En2, P1, P2 in E3. rewrite P1, P2 in *. cbn [default id] in *.
  apply (hash_inj S) in E3 as [->|]; [|by right|tauto|tauto].
  left. specialize (Q1 []). rewrite Ep, Gb, Q2 in Q1. congruence.
Qed.

Lemma tx_binding S t1 t2 h :
  ok_transaction t1 -> ok_transaction t2 -> version (prefix t1) <> 1 -> version (prefix t2) <> 1 ->
  tx_inputs t1 ⊆ S -> tx_inputs t2 ⊆ S ->
  calculate_transaction_hash t1 = Some h -> calculate_transaction_hash t2 = Some h ->
  t1 = t2 \/ collides S.
Proof.
  intros H1 H2 Hv1 Hv2 S1 S2 E1 E2. pose proof S1 as S1'. pose proof S2 as S2'.
  unfold tx_inputs in S1', S2'. rewrite !list_subseteq_cons_iff in S1', S2'.
  rewrite calculate_hash_v2 in E1 by done. rewrite calculate_hash_v2 in E2 by done.
  injection E1 as E1. rewrite <- E1 in E2. injection E2 as E. symmetry in E.
  apply (hash_inj S) in E as [E|]; [|by right|tauto|tauto].
  apply app_inj_1 in E as [Ep E]; [|by unfold get_transaction_prefix_hash; rewrite !fast_hash_length].
  apply app_inj_1 in E as [Eb E3]; [|by unfold get_blob_hash; rewrite !fast_hash_length].
  apply (hash_inj S) in Ep as [Ep|]; [|by right|tauto|tauto].
  apply prefix_blob_inj in Ep; [|by destruct H1|by destruct H2].
  destruct (rct_binding S t1 t2) as [Er|]; [done..| |by right]. left.
  destruct H1 as [_ H1], H2 as [_ H2].
  rewrite (proj2 (Z.eqb_neq _ _) Hv1) in H1. rewrite (proj2 (Z.eqb_neq _ _) Hv2) in H2.
  destruct t1, t2; cbn in *. destruct H1 as [-> _], H2 as [-> _]. by rewrite Ep, Er.
Qed.

(** The strings hashed for a block. *)
Definition block_inputs (b : block) : list bytes :=
  default [] (blob ← get_block_hashing_blob b; put_string blob)
  :: TreeHash.tree_inputs (tx_ids b) ++ tx_inputs (miner_tx b).

Lemma tx_ids_ok b :
  vector key32 (tx_hashes b) -> TreeHash.hashes_ok (tx_ids b).
Proof.
  intros [Hk _]. constructor; [|done]. destruct (calculate_transaction_hash _) eqn:E; [|done].
  by apply calculate_hash_length in E.
Qed.

Lemma hashing_blob_inj b1 b2 blob :
  ok_block b1 -> ok_block b2 ->
  get_block_hashing_blob b1 = Some blob -> get_block_hashing_blob b2 = Some blob ->
  header b1 = header b2 /\ length (tx_hashes b1) = length (tx_hashes b2) /\
  get_tx_tree_hash b1 = get_tx_tree_hash b2.
Proof.
  intros (Hh1 & Ht1 & Hl1) (Hh2 & Ht2 & Hl2) E1 E2.
  unfold get_block_hashing_blob in E1, E2.
  apply bind_Some in E1 as (c1 & C1 & (r1 & R1 & [= <-])%bind_Some).
  apply bind_Some in E2 as (c2 & C2 & (r2 & R2 & [= E])%bind_Some).
  destruct (get_put _ Hh1) as (d1 & D1 & G1), (get_put _ Hh2) as (d2 & D2 & G2).
  rewrite C1 in D1. rewrite C2 in D2. injection D1 as <-. injection D2 as <-.
  specialize (G1 (r1 ++ Varint.get_varint_data (u64 (Z.of_nat (length (tx_hashes b1)) + 1)))).
  rewrite <- E, G2 in G1. injection G1 as Eh Er. split; [done|].
  unfold get_tx_tree_hash in *.
  destruct (TreeHash.tree_hash_domain _ _ R1) as [_ N1], (TreeHash.tree_hash_domain _ _ R2) as [_ N2].
  cbn [length tx_ids] in N1, N2.
  apply TreeHash.tree_hash_length in R1 as L1; [|by apply tx_ids_ok].
  apply TreeHash.tree_hash_length in R2 as L2; [|by apply tx_ids_ok].
  apply app_inj_1 in Er as [-> Ev]; [|congruence]. rewrite R1, R2. split; [|done].
  rewrite !wrap_small in Ev by (unfold fits; lia).
  apply (Varint.write_varint_inj 64) in Ev; [lia|lia|unfold fits; lia..].
Qed.

Lemma block_binding b1 b2 h :
  ok_block b1 -> ok_block b2 ->
  version (prefix (miner_tx b1)) <> 1 -> version (prefix (miner_tx b2)) <> 1 ->
  calculate_block_hash b1 = Some h -> calculate_block_hash b2 = Some h ->
  b1 = b2 \/ collides (block_inputs b1 ++ block_inputs b2).
Proof.
  intros H1 H2 Hv1 Hv2. set (S := block_inputs b1 ++ block_inputs b2).
  assert (block_inputs b1 ⊆ S /\ block_inputs b2 ⊆ S) as [S1 S2] by (apply list_subseteq_app_iff_l; done).
  clearbody S. intros E1 E2.  unfold block_inputs in S1, S2. rewrite !list_subseteq_cons_iff, !list_subseteq_app_iff_l in S1, S2.
  apply bind_Some in E1 as (c1 & C1 & E1). apply bind_Some in E2 as (c2 & C2 & E2).
  apply bind_Some in E1 as (s1 & P1 & [= <-]). apply bind_Some in E2 as (s2 & P2 & [= E]).
  rewrite C1 in S1. rewrite C2 in S2. cbn [mbind option_bind] in S1, S2. rewrite P1 in S1. rewrite P2 in S2.
  cbn [default id] in S1, S2. destruct S1 as (S1 & St1 & Sm1), S2 as (S2 & St2 & Sm2).
  apply (hash_inj S) in E as [E|Hc]; [|by right|done..]. rewrite E, <- P1 in P2.
  apply put_string_inj in P2. subst c2.
  destruct (hashing_blob_inj b1 b2 c1) as (Eh & El & Et); [done..|].
  unfold get_tx_tree_hash in Et. destruct (TreeHash.tree_hash (tx_ids b1)) as [r|] eqn:R1.
  2: { unfold get_block_hashing_blob, get_tx_tree_hash in C1. rewrite R1 in C1.
       by apply bind_Some in C1 as (? & _ & ?). }
  destruct (TreeHash.tree_binding (tx_ids b1) (tx_ids b2) r) as [Ei|Hc];
    [cbn [tx_ids length]; lia|by apply tx_ids_ok, H1|by apply tx_ids_ok, H2|done|done| |].
  2: { right. revert Hc. apply collides_mono, list_subseteq_app_iff_l. done. }
  injection Ei as Em El'. destruct H1 as (_ & Ht1 & _), H2 as (_ & Ht2 & _).
  rewrite !calculate_hash_v2 in Em by done. cbn [default id] in Em.
  destruct (tx_binding S (miner_tx b1) (miner_tx b2) _ Ht1 Ht2 Hv1 Hv2 Sm1 Sm2 (calculate_hash_v2 _ Ht1 Hv1))
    as [Emt|]; [by rewrite Em, calculate_hash_v2| |by right].
  left. destruct b1, b2; cbn in *. congruence.
Qed.

End tx_hash.


(** ** Correctness *)

(** C30. The identifier of a transaction of version 2 or later commits to all of
    it, prunable signatures included, and to its version: two different
    well-formed transactions have different hashes, unless two different strings
    hashed on the way have the same digest. *)
Theorem transaction_hash_binding `{!FastHash} t1 t2 :
  ok_transaction t1 -> ok_transaction t2 -> version (prefix t1) <> 1 -> version (prefix t2) <> 1 ->
  ~ collides (tx_inputs t1 ++ tx_inputs t2) -> t1 <> t2 ->
  calculate_transaction_hash t1 <> calculate_transaction_hash t2.
Proof.
  intros H1 H2 Hv1 Hv2 Hc Hne E. pose proof (calculate_hash_v2 t1 H1 Hv1) as E1. rewrite E1 in E.
  destruct (list_subseteq_app_iff_l (tx_inputs t1) (tx_inputs t2) (tx_inputs t1 ++ tx_inputs t2)) as [[S1 S2] _]; [done|].
  by destruct (tx_binding _ t1 t2 _ H1 H2 Hv1 Hv2 S1 S2 E1 (eq_sym E)).
Qed.

(** The same reward transaction with another unlock time. *)
Definition other_miner_tx : transaction :=
  {| prefix := {| version := 3; unlock_time := 261; vin := [txin_gen 200];
                  vout := [{| amount := 32000000000; target := txout_to_key (key_of 15) |}];
                  extra := [1] |};
     signatures := []; rct_signatures := rct_null |}.

Lemma transaction_hash_binding_witness :
  @calculate_transaction_hash example_hash (miner_tx sample_block)
  <> @calculate_transaction_hash example_hash other_miner_tx.
Proof.
  apply (@transaction_hash_binding example_hash (miner_tx sample_block) other_miner_tx); [by_eval|by_eval|done|done| |].
  - apply no_collision_sound. vm_compute. reflexivity.
  - intros E. apply (f_equal (fun t => unlock_time (prefix t))) in E. discriminate E.
Defined.

(** C25. The identifier of a block commits to its header, its reward
    transaction and the list of its transactions: two different well-formed
    blocks have different hashes, unless two different strings hashed on the way
    have the same digest. *)
Theorem block_hash_binding `{!FastHash} b1 b2 h1 :
  ok_block b1 -> ok_block b2 ->
  version (prefix (miner_tx b1)) <> 1 -> version (prefix (miner_tx b2)) <> 1 ->
  ~ collides (block_inputs b1 ++ block_inputs b2) -> b1 <> b2 ->
  calculate_block_hash b1 = Some h1 -> calculate_block_hash b2 <> Some h1.
Proof.
  intros H1 H2 Hv1 Hv2 Hc Hne E1 E2.
  by destruct (block_binding b1 b2 h1 H1 H2 Hv1 Hv2 E1 E2).
Qed.

Lemma block_hash_binding_witness :
  exists h, @calculate_block_hash example_hash sample_block = Some h /\
    @calculate_block_hash example_hash {| header := header sample_block; miner_tx := miner_tx sample_block;
                                          tx_hashes := [key_of 1] |} <> Some h.
Proof.
  exists (default [] (@calculate_block_hash example_hash sample_block)).
  assert (@calculate_block_hash example_hash sample_block
    = Some (default [] (@calculate_block_hash example_hash sample_block))) as E by (vm_compute; reflexivity).
  split; [exact E|]. revert E. apply (@block_hash_binding example_hash); try by_eval.
  - apply no_collision_sound. vm_compute. reflexivity.
  - intros E. apply (f_equal (fun b => length (tx_hashes b))) in E. discriminate E.
Defined.

(** [get_transaction_hash] returns what it would compute without its cache,
    also the size when asked for it, and leaves a cache that is right: the
    property that lets the callers skip the computation. *)
Theorem get_transaction_hash_cached `{!FastHash} want_size t c h n c' :
  cache_ok t c -> get_transaction_hash want_size t c = Some (h, n, c') ->
  calculate_transaction_hash t = Some h /\ cache_ok t c' /\ hash_valid c' = true /\
  n = (if want_size then get_object_blobsize put_transaction t else None).
Proof. apply get_transaction_hash_spec. Qed.

Lemma get_transaction_hash_cached_witness :
  exists h c', @calculate_transaction_hash example_hash other_miner_tx = Some h /\
    @cache_ok example_hash other_miner_tx c'.
Proof.
  set (c := {| hash_valid := false; hash := []; blob_size_valid := false; blob_size := 0 |}).
  set (r := default ([], None, c) (@get_transaction_hash example_hash true other_miner_tx c)).
  destruct (@get_transaction_hash_cached example_hash true other_miner_tx c r.1.1 r.1.2 r.2)
    as (H1 & H2 & _ & _).
  - split; discriminate.
  - vm_compute. reflexivity.
  - exists r.1.1, r.2. split; [exact H1|exact H2].
Defined.

End TxHash.
