(* ===== verification/Limbs.v ===== *)
(** * Multi-limb integers in signed machine words

    crypto-ops.c keeps a field element in ten words and a scalar in up to
    twenty-four, and computes on them with straight-line code: products of
    words added up in columns, carries from a word to the next, folds of a
    high word onto lower ones.  This file has the statements of that code as
    functions on lists of words, undefined (None) where a signed word would
    overflow, and an interval analysis of them.  Its soundness theorem gives
    at once, for a straight-line body, that no word overflows, the range of
    every word at the end, and that the number the words stand for is kept
    modulo a given modulus. *)

From S2P Require Import Prelude.

Module Limbs.

(** ** Signed words: overflow is undefined *)

Definition in_word (w lo hi : Z) : bool := (- 2 ^ (w - 1) <=? lo) && (hi <? 2 ^ (w - 1)).

Definition word (w x : Z) : option Z := if in_word w x x then Some x else None.
Definition sadd (w x y : Z) : option Z := word w (x + y).
Definition ssub (w x y : Z) : option Z := word w (x - y).
Definition smul (w x y : Z) : option Z := word w (x * y).

(** ** The statements

    [Carry half k i j m] is the group
      carry = (s_i + half) >> k;  s_j += carry * m;  s_i -= carry << k;
    with [half] zero where the source only shifts and [m] one where it adds
    the bare carry.  [Chop k i] is the same without the addition.
    [Fold i j cs] adds s_i times each constant of [cs] to the words from [j]
    on (a negative constant is a subtraction), and [Zero i] is s_i = 0. *)

Inductive step :=
| Carry (half k : Z) (i j : nat) (m : Z)
| Chop (k : Z) (i : nat)
| Fold (i j : nat) (cs : list Z)
| Zero (i : nat).

Definition carry (w half k : Z) (i j : nat) (m : Z) (s : list Z) : option (list Z) :=
  x ← s !! i; y ← s !! j;
  t ← sadd w x half;
  let c := t ≫ k in
  cm ← smul w c m; y' ← sadd w y cm;
  sh ← smul w c (2 ^ k); x' ← ssub w x sh;
  Some (<[i := x']> (<[j := y']> s)).

Definition chop (w k : Z) (i : nat) (s : list Z) : option (list Z) :=
  x ← s !! i;
  sh ← smul w (x ≫ k) (2 ^ k); x' ← ssub w x sh;
  Some (<[i := x']> s).

Definition mul_add (w x c y : Z) : option Z :=
  if c <? 0 then p ← smul w x (- c); ssub w y p
  else p ← smul w x c; sadd w y p.

Fixpoint mul_adds (w x : Z) (cs : list Z) (j : nat) (s : list Z) : option (list Z) :=
  match cs with
  | [] => Some s
  | c :: cs => y ← s !! j; y' ← mul_add w x c y; mul_adds w x cs (S j) (<[j := y']> s)
  end.

Definition exec (w : Z) (t : step) (s : list Z) : option (list Z) :=
  match t with
  | Carry half k i j m => carry w half k i j m s
  | Chop k i => chop w k i s
  | Fold i j cs => x ← s !! i; mul_adds w x cs j s
  | Zero i => Some (<[i := 0]> s)
  end.

Fixpoint run (w : Z) (p : list step) (s : list Z) : option (list Z) :=
  match p with
  | [] => Some s
  | t :: p => s' ← exec w t s; run w p s'
  end.

(** ** The analysis

    A cell bounds a word and gives the weight with which it counts in the
    number; a word that is not read any more has weight zero. *)

Record cell := Cell { lo : Z; hi : Z; wt : Z }.

Definition covers (a : list cell) (s : list Z) : Prop :=
  Forall2 (fun c x => lo c <= x <= hi c) a s.

#[global] Instance covers_dec a s : Decision (covers a s).
Proof. unfold covers. apply _. Defined.

Fixpoint value (a : list cell) (s : list Z) : Z :=
  match a, s with
  | c :: a, x :: s => wt c * x + value a s
  | _, _ => 0
  end.

Definition ensure (b : bool) : option unit := if b then Some tt else None.

Section analysis.
Context (w N : Z).

Definition scarry (half k : Z) (i j : nat) (m : Z) (a : list cell) : option (list cell) :=
  x ← a !! i; y ← a !! j;
  let cl := (lo x + half) ≫ k in
  let ch := (hi x + half) ≫ k in
  _ ← ensure (negb (Nat.eqb i j) && (0 <=? m) && (0 <=? k)
        && ((m * wt y - 2 ^ k * wt x) mod N =? 0));
  _ ← ensure (in_word w (lo x + half) (hi x + half) && in_word w (cl * m) (ch * m)
        && in_word w (lo y + cl * m) (hi y + ch * m) && in_word w (cl * 2 ^ k) (ch * 2 ^ k)
        && in_word w (- half) (2 ^ k - 1 - half));
  Some (<[i := Cell (- half) (2 ^ k - 1 - half) (wt x)]>
         (<[j := Cell (lo y + cl * m) (hi y + ch * m) (wt y)]> a)).

Definition schop (k : Z) (i : nat) (a : list cell) : option (list cell) :=
  x ← a !! i;
  _ ← ensure ((0 <=? k) && ((2 ^ k * wt x) mod N =? 0)
        && in_word w (lo x ≫ k * 2 ^ k) (hi x ≫ k * 2 ^ k) && in_word w 0 (2 ^ k - 1));
  Some (<[i := Cell 0 (2 ^ k - 1) (wt x)]> a).

Definition smul_adds_one (x : cell) (c : Z) (y : cell) : option cell :=
  let pl := if c <? 0 then hi x * c else lo x * c in
  let ph := if c <? 0 then lo x * c else hi x * c in
  _ ← ensure (in_word w pl ph && in_word w (- ph) (- pl)
        && in_word w (lo y + pl) (hi y + ph));
  Some (Cell (lo y + pl) (hi y + ph) (wt y)).

Fixpoint smul_adds (i : nat) (x : cell) (cs : list Z) (j : nat) (a : list cell)
    : option (list cell * Z) :=
  match cs with
  | [] => Some (a, 0)
  | c :: cs =>
      y ← a !! j; _ ← ensure (negb (Nat.eqb i j));
      y' ← smul_adds_one x c y;
      '(a', g) ← smul_adds i x cs (S j) (<[j := y']> a);
      Some (a', c * wt y + g)
  end.

Definition sexec (W : list Z) (t : step) (a : list cell) : option (list cell) :=
  match t with
  | Carry half k i j m => scarry half k i j m a
  | Chop k i => schop k i a
  | Fold i j cs =>
      x ← a !! i;
      '(a', g) ← smul_adds i x cs j a;
      _ ← ensure ((g - wt x) mod N =? 0);
      Some (<[i := Cell (lo x) (hi x) 0]> a')
  | Zero i =>
      x ← a !! i; v ← W !! i;
      _ ← ensure (wt x =? 0);
      Some (<[i := Cell 0 0 v]> a)
  end.

Fixpoint srun (W : list Z) (p : list step) (a : list cell) : option (list cell) :=
  match p with
  | [] => Some a
  | t :: p => a' ← sexec W t a; srun W p a'
  end.

End analysis.

(** *** Soundness *)

Lemma ensure_true b : ensure b = Some tt -> b = true.
Proof. by destruct b. Qed.

Lemma word_ok w l h x : in_word w l h = true -> l <= x <= h -> word w x = Some x.
Proof.
  unfold word, in_word. intros [H1 H2]%andb_prop Hx.
  apply Z.leb_le in H1. apply Z.ltb_lt in H2.
  rewrite (proj2 (Z.leb_le _ _)), (proj2 (Z.ltb_lt _ _)) by lia. done.
Qed.

Lemma sadd_ok w l h x y : in_word w l h = true -> l <= x + y <= h -> sadd w x y = Some (x + y).
Proof. apply word_ok. Qed.

Lemma ssub_ok w l h x y : in_word w l h = true -> l <= x - y <= h -> ssub w x y = Some (x - y).
Proof. apply word_ok. Qed.

Lemma smul_ok w l h x y : in_word w l h = true -> l <= x * y <= h -> smul w x y = Some (x * y).
Proof. apply word_ok. Qed.

Lemma covers_lookup a s i c :
  covers a s -> a !! i = Some c -> exists x, s !! i = Some x /\ lo c <= x <= hi c.
Proof. intros H Hi. apply (Forall2_lookup_l _ _ _ _ _ H Hi). Qed.

Lemma covers_insert a s i c x :
  covers a s -> lo c <= x <= hi c -> covers (<[i := c]> a) (<[i := x]> s).
Proof. intros. by apply Forall2_insert. Qed.

Lemma value_insert a s i c x c' x' :
  a !! i = Some c -> s !! i = Some x ->
  value (<[i := c']> a) (<[i := x']> s) = value a s + wt c' * x' - wt c * x.
Proof.
  revert a s. induction i as [|i IH]; intros [|ca a] [|y s] Ha Hs; simplify_eq/=; [lia|].
  erewrite IH by done. lia.
Qed.

(** Undo one check of the analysis, or one read of a cell. *)
Ltac sound_step :=
  match goal with
  | H : (_ ← ensure _; _) = Some _ |- _ =>
      apply bind_Some in H as ([] & ?%ensure_true & H)
  | H : (_ ← _; _) = Some _ |- _ => let v := fresh "v" in apply bind_Some in H as (v & ? & H)
  | H : _ && _ = true |- _ => apply andb_prop in H as [? ?]
  | H : (_ =? _) = true |- _ => apply Z.eqb_eq in H
  | H : (_ <=? _) = true |- _ => apply Z.leb_le in H
  | H : negb (Nat.eqb _ _) = true |- _ => apply negb_true_iff, Nat.eqb_neq in H
  end.

(** The word [x] that the cell [c] at [i] covers. *)
Ltac read_cell a i c x :=
  match goal with
  | Hi : a !! i = Some ?c0, G : covers a _ |- _ =>
      rename c0 into c;
      let Hx := fresh "H" x in let Bx := fresh "B" x in
      destruct (covers_lookup a _ i c G Hi) as (x & Hx & Bx)
  end.

Lemma shiftr_mono x y k : 0 <= k -> x <= y -> x ≫ k <= y ≫ k.
Proof.
  intros. rewrite !shiftr_div by done. apply Z.div_le_mono; [|done].
  by apply Z.pow_pos_nonneg.
Qed.

Lemma round_range x half k :
  0 <= k -> - half <= x - (x + half) ≫ k * 2 ^ k <= 2 ^ k - 1 - half.
Proof.
  intros. rewrite shiftr_div by done.
  pose proof (Z.mod_pos_bound (x + half) (2 ^ k) ltac:(by apply Z.pow_pos_nonneg)).
  rewrite Z.mod_eq in * by (apply Z.pow_nonzero; lia). lia.
Qed.

Definition eqm (N x y : Z) : Prop := x mod N = y mod N.

#[global] Instance eqm_dec N x y : Decision (eqm N x y).
Proof. unfold eqm. apply _. Defined.

Lemma eqm_refl N x : eqm N x x.
Proof. done. Qed.

Lemma eqm_sym N x y : eqm N x y -> eqm N y x.
Proof. unfold eqm. congruence. Qed.

Lemma eqm_trans N x y z : eqm N x y -> eqm N y z -> eqm N x z.
Proof. unfold eqm. congruence. Qed.

Lemma eqm_diff N x y d c : d mod N = 0 -> x = y + c * d -> eqm N x y.
Proof.
  unfold eqm. intros Hd ->. destruct (decide (N = 0)) as [->|HN].
  - rewrite !Z.mod_0_r in *. rewrite Hd. lia.
  - apply Z.mod_divide in Hd as [q ->]; [|done].
    by rewrite Z.mul_assoc, Z_mod_plus_full.
Qed.

Lemma scarry_sound w N half k i j m a a' s :
  scarry w N half k i j m a = Some a' -> covers a s ->
  exists s', carry w half k i j m s = Some s' /\ covers a' s'
    /\ eqm N (value a' s') (value a s).
Proof.
  unfold scarry. intros E G. repeat sound_step. injection E as <-.
  read_cell a i cx x. read_cell a j cy y.
  unfold carry. rewrite Hx, Hy. cbn [mbind option_bind].
  set (c := (x + half) ≫ k).
  assert ((lo cx + half) ≫ k <= c <= (hi cx + half) ≫ k) as Bc
    by (split; apply shiftr_mono; lia).
  assert (0 < 2 ^ k) as Hk by by apply Z.pow_pos_nonneg.
  pose proof (round_range x half k ltac:(done)) as Br. fold c in Br.
  rewrite (sadd_ok w _ _ x half H2) by lia. cbn [mbind option_bind]. fold c.
  rewrite (smul_ok w _ _ c m H6) by nia. cbn [mbind option_bind].
  rewrite (sadd_ok w _ _ y (c * m) H5) by nia. cbn [mbind option_bind].
  rewrite (smul_ok w _ _ c (2 ^ k) H4) by nia. cbn [mbind option_bind].
  rewrite (ssub_ok w _ _ x (c * 2 ^ k) H3) by lia. cbn [mbind option_bind].
  eexists. split; [done|]. split.
  - apply covers_insert; [apply covers_insert; [done|]|]; cbn [lo hi]; [nia|lia].
  - erewrite value_insert; [erewrite value_insert by done| |].
    2:{ by rewrite list_lookup_insert_ne by done. }
    2:{ by rewrite list_lookup_insert_ne by done. }
    cbn [wt]. eapply (eqm_diff _ _ _ _ c); [done|]. lia.
Qed.

Lemma schop_sound w N k i a a' s :
  schop w N k i a = Some a' -> covers a s ->
  exists s', chop w k i s = Some s' /\ covers a' s' /\ eqm N (value a' s') (value a s).
Proof.
  unfold schop. intros E G. repeat sound_step. injection E as <-.
  read_cell a i cx x. unfold chop. rewrite Hx. cbn [mbind option_bind].
  assert (lo cx ≫ k <= x ≫ k <= hi cx ≫ k) as Bc by (split; apply shiftr_mono; lia).
  assert (0 < 2 ^ k) as Hk by by apply Z.pow_pos_nonneg.
  pose proof (round_range x 0 k ltac:(done)) as Br. rewrite Z.add_0_r in Br.
  rewrite (smul_ok w (lo cx ≫ k * 2 ^ k) (hi cx ≫ k * 2 ^ k)) by (done || nia). cbn [mbind option_bind].
  rewrite (ssub_ok w 0 (2 ^ k - 1)) by (done || lia). cbn [mbind option_bind].
  eexists. split; [done|]. split; [apply covers_insert; cbn [lo hi]; [done|lia]|].
  erewrite value_insert by done. cbn [wt].
  eapply (eqm_diff _ _ _ _ (- (x ≫ k))); [done|]. lia.
Qed.

Lemma mul_add_sound w x c y cx cy cy' :
  smul_adds_one w cx c cy = Some cy' -> lo cx <= x <= hi cx -> lo cy <= y <= hi cy ->
  mul_add w x c y = Some (y + x * c) /\ lo cy' <= y + x * c <= hi cy' /\ wt cy' = wt cy.
Proof.
  unfold smul_adds_one, mul_add. intros E Bx By. repeat sound_step. injection E as <-.
  cbn [lo hi wt]. destruct (Z.ltb_spec c 0).
  - rewrite (smul_ok w _ _ x (- c) H1) by nia. cbn [mbind option_bind].
    rewrite (ssub_ok w _ _ y (x * - c) H0) by nia. split_and?; [f_equal; lia|nia..|done].
  - rewrite (smul_ok w _ _ x c H) by nia. cbn [mbind option_bind].
    rewrite (sadd_ok w _ _ y (x * c) H0) by nia. split_and?; [done|nia..|done].
Qed.

Lemma smul_adds_sound w i cx x cs j a a' g s :
  smul_adds w i cx cs j a = Some (a', g) -> covers a s ->
  a !! i = Some cx -> s !! i = Some x -> lo cx <= x <= hi cx ->
  exists s', mul_adds w x cs j s = Some s' /\ covers a' s'
    /\ a' !! i = Some cx /\ s' !! i = Some x /\ value a' s' = value a s + g * x.
Proof.
  revert j a g s. induction cs as [|c cs IH]; intros j a g s E G Hi Hs Bx; cbn [smul_adds mul_adds] in *.
  { injection E as <- <-. eexists. split_and!; [done..|lia]. }
  repeat sound_step. destruct v1 as [a1 g1]. injection E as -> <-.
  read_cell a j cy y. rewrite Hy. cbn [mbind option_bind].
  edestruct (mul_add_sound w x c y) as (-> & B & Hw); [done..|]. cbn [mbind option_bind].
  destruct (IH (S j) (<[j := v0]> a) g1 (<[j := y + x * c]> s)) as (s' & E' & G' & Hi' & Hs' & V); [done| | | |done|].
  { by apply covers_insert. }
  { by rewrite list_lookup_insert_ne. }
  { by rewrite list_lookup_insert_ne. }
  eexists. split_and!; [done..|]. rewrite V. erewrite value_insert by done. rewrite Hw. lia.
Qed.

Lemma sexec_sound w N W t a a' s :
  sexec w N W t a = Some a' -> covers a s ->
  exists s', exec w t s = Some s' /\ covers a' s' /\ eqm N (value a' s') (value a s).
Proof.
  destruct t as [half k i j m|k i|i j cs|i]; cbn [sexec exec]; intros E G.
  - by eapply scarry_sound.
  - by eapply schop_sound.
  - repeat sound_step. destruct v0 as [a1 g]. repeat sound_step. injection E as <-.
    read_cell a i cx x. rewrite Hx. cbn [mbind option_bind].
    edestruct (smul_adds_sound w i cx x) as (s' & -> & G' & Hi & Hs & V); [done..|].
    eexists. split; [done|].
    rewrite <- (list_insert_id s' i x Hs). split; [by apply covers_insert|].
    erewrite value_insert by done. rewrite V. cbn [wt].
    eapply (eqm_diff _ _ _ _ x); [done|]. lia.
  - repeat sound_step. injection E as <-. read_cell a i cx x.
    eexists. split; [done|]. split; [apply covers_insert; [done|cbn; lia]|].
    erewrite value_insert by done. cbn [wt]. eapply (eqm_diff _ _ _ 0 0); [apply Zmod_0_l|]. nia.
Qed.

(** The analysis is sound: where it accepts a body, the body runs without an
    overflow from every covered state, ends in a covered one, and keeps the
    number modulo [N] (exactly, for [N = 0]). *)
Theorem srun_sound w N W p a a' s :
  srun w N W p a = Some a' -> covers a s ->
  exists s', run w p s = Some s' /\ covers a' s' /\ eqm N (value a' s') (value a s).
Proof.
  revert a s. induction p as [|t p IH]; intros a s E G; cbn [srun run] in *.
  { injection E as <-. by exists s. }
  repeat sound_step.
  edestruct sexec_sound as (s1 & -> & G1 & V1); [done..|].
  edestruct IH as (s2 & R & G2 & V2); [done..|]. cbn [mbind option_bind].
  exists s2. split_and!; [done..|]. by eapply eqm_trans.
Qed.


(** ** Columns of products

    [Term c i d j] is the product (c * f_i) * (d * g_j), whose two factors
    are [v]-bit words and which is a [w]-bit word; a column adds its terms
    from left to right. *)

Record term := Term { tc : Z; ti : nat; td : Z; tj : nat }.

Definition product (v w : Z) (f g : list Z) (t : term) : option Z :=
  x ← f !! ti t; y ← g !! tj t;
  x' ← smul v (tc t) x; y' ← smul v (td t) y;
  smul w x' y'.

Fixpoint add_terms (v w : Z) (f g : list Z) (acc : Z) (ts : list term) : option Z :=
  match ts with
  | [] => Some acc
  | t :: ts => p ← product v w f g t; acc' ← sadd w acc p; add_terms v w f g acc' ts
  end.

Definition column (v w : Z) (f g : list Z) (ts : list term) : option Z := add_terms v w f g 0 ts.

Definition columns (v w : Z) (tss : list (list term)) (f g : list Z) : option (list Z) :=
  mapM (column v w f g) tss.

(** *** Their analysis: ranges, and the product the columns stand for *)

Definition sproduct (v w : Z) (a b : list cell) (t : term) : option (Z * Z) :=
  x ← a !! ti t; y ← b !! tj t;
  let xl := tc t * lo x in let xh := tc t * hi x in
  let yl := td t * lo y in let yh := td t * hi y in
  let pl := Z.min (Z.min (xl * yl) (xl * yh)) (Z.min (xh * yl) (xh * yh)) in
  let ph := Z.max (Z.max (xl * yl) (xl * yh)) (Z.max (xh * yl) (xh * yh)) in
  _ ← ensure ((0 <=? tc t) && (0 <=? td t) && in_word v xl xh && in_word v yl yh && in_word w pl ph);
  Some (pl, ph).

Fixpoint sadd_terms (v w : Z) (a b : list cell) (l h : Z) (ts : list term) : option (Z * Z) :=
  match ts with
  | [] => Some (l, h)
  | t :: ts =>
      '(pl, ph) ← sproduct v w a b t;
      _ ← ensure (in_word w (l + pl) (h + ph));
      sadd_terms v w a b (l + pl) (h + ph) ts
  end.

Fixpoint scolumns (v w : Z) (a b : list cell) (W : list Z) (tss : list (list term))
    : option (list cell) :=
  match W, tss with
  | [], [] => Some []
  | x :: W, ts :: tss =>
      '(l, h) ← sadd_terms v w a b 0 0 ts;
      r ← scolumns v w a b W tss; Some (Cell l h x :: r)
  | _, _ => None
  end.

(** The products a weighted list of columns adds up, with their coefficients. *)
Definition monomials (W : list Z) (tss : list (list term)) : list (Z * nat * nat) :=
  mjoin (zip_with (fun x ts => map (fun t => (x * tc t * td t, ti t, tj t)) ts) W tss).

Fixpoint coef (m : list (Z * nat * nat)) (i j : nat) : Z :=
  match m with
  | [] => 0
  | (c, i', j') :: m => (if Nat.eqb i' i && Nat.eqb j' j then c else 0) + coef m i j
  end.

Definition weight (W : list Z) (i : nat) : Z := nth i W 0.

Definition is_product (N : Z) (m : list (Z * nat * nat)) (W V : list Z) : bool :=
  forallb (fun i => forallb (fun j =>
    (coef m i j - weight W i * weight V j) mod N =? 0) (seq 0 (length V))) (seq 0 (length W)).

Definition is_square (N : Z) (m : list (Z * nat * nat)) (W : list Z) : bool :=
  forallb (fun i => forallb (fun j =>
    (coef m i j + coef m j i - 2 * weight W i * weight W j) mod (2 * N) =? 0)
    (seq 0 (length W))) (seq 0 (length W)).

(** *** Sums over the words of a list *)

Fixpoint wsum (m : nat -> Z) (s : list Z) : Z :=
  match s with
  | [] => 0
  | x :: s => m O * x + wsum (fun i => m (S i)) s
  end.

Lemma wsum_ext m m' s : (forall i, (i < length s)%nat -> m i = m' i) -> wsum m s = wsum m' s.
Proof.
  revert m m'. induction s as [|x s IH]; intros m m' E; [done|]. cbn [wsum].
  rewrite (E O) by (cbn; lia). f_equal. apply IH. intros i Hi. apply E. cbn. lia.
Qed.

Lemma wsum_add m m' s : wsum (fun i => m i + m' i) s = wsum m s + wsum m' s.
Proof.
  revert m m'. induction s as [|x s IH]; intros m m'; [done|]. cbn [wsum]. rewrite IH. lia.
Qed.

Lemma wsum_scale c m s : wsum (fun i => c * m i) s = c * wsum m s.
Proof.
  revert m. induction s as [|x s IH]; intros m; cbn [wsum]; [lia|]. rewrite IH. lia.
Qed.

Lemma wsum_zero s : wsum (fun _ => 0) s = 0.
Proof. induction s as [|x s IH]; cbn [wsum]; lia. Qed.

Lemma wsum_single c k s x :
  s !! k = Some x -> wsum (fun i => if Nat.eqb k i then c else 0) s = c * x.
Proof.
  revert s. induction k as [|k IH]; intros [|y s] Hk; simplify_eq/=.
  - rewrite wsum_zero. lia.
  - rewrite IH by done. lia.
Qed.

Lemma wsum_divide N m s :
  (forall i, (i < length s)%nat -> (N | m i)) -> (N | wsum m s).
Proof.
  revert m. induction s as [|x s IH]; intros m E; cbn [wsum]; [apply Z.divide_0_r|].
  apply Z.divide_add_r; [apply Z.divide_mul_l, E; cbn; lia|].
  apply IH. intros i Hi. apply E. cbn. lia.
Qed.

Lemma value_wsum a s :
  length a = length s -> value a s = wsum (weight (map wt a)) s.
Proof.
  revert s. induction a as [|c a IH]; intros [|x s] Hl; simplify_eq/=; [done|].
  by rewrite IH.
Qed.

(** *** Bilinear sums *)

Definition bsum (M : nat -> nat -> Z) (f g : list Z) : Z := wsum (fun i => wsum (M i) g) f.

Definition mono (f g : list Z) (m : Z * nat * nat) : Z :=
  m.1.1 * (default 0 (f !! m.1.2) * default 0 (g !! m.2)).

Definition monos (f g : list Z) (m : list (Z * nat * nat)) : Z :=
  foldr (fun x s => mono f g x + s) 0 m.

Lemma monos_app f g m m' : monos f g (m ++ m') = monos f g m + monos f g m'.
Proof. unfold monos. induction m as [|x m IH]; cbn [app foldr]; [done|]. rewrite IH. lia. Qed.

Lemma bsum_coef m f g :
  Forall (fun x => is_Some (f !! x.1.2) /\ is_Some (g !! x.2)) m ->
  bsum (coef m) f g = monos f g m.
Proof.
  induction 1 as [|[[c i] j] m [[x Hx] [y Hy]] Hm IH]; cbn [coef monos foldr].
  { unfold bsum. erewrite wsum_ext; [apply wsum_zero|]. intros. apply wsum_zero. }
  fold (monos f g m). rewrite <- IH. unfold mono. cbn [fst snd] in *. rewrite Hx, Hy. cbn.
  transitivity (bsum (fun i0 j0 => if Nat.eqb i i0 then if Nat.eqb j j0 then c else 0 else 0) f g
    + bsum (coef m) f g).
  - unfold bsum. rewrite <- wsum_add. apply wsum_ext. intros i0 _. rewrite <- wsum_add.
    apply wsum_ext. intros j0 _. by destruct (Nat.eqb i i0), (Nat.eqb j j0).
  - f_equal. unfold bsum.
    rewrite (wsum_ext _ (fun i0 => if Nat.eqb i i0 then c * y else 0)).
    { erewrite wsum_single by done. lia. }
    intros i0 _. destruct (Nat.eqb i i0).
    + by apply wsum_single.
    + apply wsum_zero.
Qed.

Lemma bsum_mul m m' f g : bsum (fun i j => m i * m' j) f g = wsum m f * wsum m' g.
Proof.
  unfold bsum. rewrite (wsum_ext _ (fun i => wsum m' g * m i)).
  - rewrite wsum_scale. lia.
  - intros i _. rewrite wsum_scale. lia.
Qed.

Lemma bsum_add M M' f g : bsum (fun i j => M i j + M' i j) f g = bsum M f g + bsum M' f g.
Proof.
  unfold bsum. rewrite <- wsum_add. apply wsum_ext. intros i _. apply wsum_add.
Qed.

Lemma bsum_cons M x f g :
  bsum M (x :: f) g = x * wsum (M O) g + bsum (fun i => M (S i)) f g.
Proof. unfold bsum. cbn [wsum]. lia. Qed.

Lemma bsum_flip M f g : bsum M f g = bsum (fun i j => M j i) g f.
Proof.
  revert M. induction f as [|x f IH]; intros M.
  - unfold bsum. cbn [wsum]. by rewrite wsum_zero.
  - rewrite bsum_cons, IH. unfold bsum. cbn [wsum].
    rewrite (wsum_ext (fun i => _ * x + _)
      (fun i => x * M O i + wsum (fun j => M (S j) i) f)) by (intros; lia).
    rewrite wsum_add, wsum_scale. done.
Qed.

Lemma bsum_divide N M f g :
  (forall i j, (i < length f)%nat -> (j < length g)%nat -> (N | M i j)) -> (N | bsum M f g).
Proof. intros E. apply wsum_divide. intros i Hi. apply wsum_divide. eauto. Qed.

Lemma mod_0_divide N x : x mod N = 0 -> (N | x).
Proof.
  destruct (decide (N = 0)) as [->|HN]; [|by apply Z.mod_divide].
  rewrite Z.mod_0_r. intros ->. apply Z.divide_0_r.
Qed.

Lemma divide_eqm N x y : (N | x - y) -> eqm N x y.
Proof.
  intros [q E]. unfold eqm. replace x with (y + q * N) by lia.
  destruct (decide (N = 0)) as [->|]; [|apply Z_mod_plus_full]. f_equal. lia.
Qed.

Lemma eqm_divide N x y : eqm N x y <-> (N | x - y).
Proof.
  split; [|apply divide_eqm]. unfold eqm. intros E. apply mod_0_divide.
  destruct (decide (N = 0)) as [-> |HN]; [rewrite Z.mod_0_r in *; rewrite !Z.mod_0_r in E; lia|].
  by rewrite Zminus_mod, E, Z.sub_diag, Zmod_0_l.
Qed.

#[global] Instance eqm_equiv N : Equivalence (eqm N).
Proof. split; [exact (eqm_refl N)|exact (eqm_sym N)|exact (eqm_trans N)]. Qed.

#[global] Instance eqm_add_proper N : Proper (eqm N ==> eqm N ==> eqm N) Z.add.
Proof.
  intros a b E c d F. apply eqm_divide in E, F. apply eqm_divide.
  replace (a + c - (b + d)) with ((a - b) + (c - d)) by lia. by apply Z.divide_add_r.
Qed.

#[global] Instance eqm_opp_proper N : Proper (eqm N ==> eqm N) Z.opp.
Proof.
  intros a b E. apply eqm_divide in E. apply eqm_divide.
  replace (- a - - b) with (- (a - b)) by lia. by apply Z.divide_opp_r.
Qed.

#[global] Instance eqm_sub_proper N : Proper (eqm N ==> eqm N ==> eqm N) Z.sub.
Proof. intros a b E c d F. unfold Z.sub. by rewrite E, F. Qed.

#[global] Instance eqm_mul_proper N : Proper (eqm N ==> eqm N ==> eqm N) Z.mul.
Proof.
  intros a b E c d F. apply eqm_divide in E, F. apply eqm_divide.
  replace (a * c - b * d) with ((a - b) * c + b * (c - d)) by lia.
  apply Z.divide_add_r; [by apply Z.divide_mul_l|by apply Z.divide_mul_r].
Qed.

Lemma eqm_eq N x y : x = y -> eqm N x y.
Proof. by intros ->. Qed.

(** An identity of polynomials holds modulo anything. *)
Ltac eqm_ring := apply eqm_eq; ring.

Lemma forallb_seq p n : forallb p (seq 0 n) = true -> forall i, (i < n)%nat -> p i = true.
Proof.
  rewrite forallb_forall. intros E i Hi. apply E, in_seq. lia.
Qed.

Lemma is_product_sound N m W V f g :
  is_product N m W V = true -> length f = length W -> length g = length V ->
  eqm N (bsum (coef m) f g) (wsum (weight W) f * wsum (weight V) g).
Proof.
  unfold is_product. intros E Hf Hg. apply divide_eqm. rewrite <- bsum_mul.
  replace (bsum (coef m) f g - _)
    with (bsum (fun i j => coef m i j + (- 1 * weight W i) * weight V j) f g).
  - apply bsum_divide. rewrite Hf, Hg. intros i j Hi Hj. apply mod_0_divide.
    apply (forallb_seq _ _) with (i := i) in E; [|done].
    apply (forallb_seq _ _) with (i := j) in E; [|done].
    apply Z.eqb_eq in E. rewrite <- E. f_equal. lia.
  - rewrite bsum_add, !bsum_mul, wsum_scale. lia.
Qed.

Lemma is_square_sound N m W f :
  is_square N m W = true -> length f = length W ->
  eqm N (bsum (coef m) f f) (wsum (weight W) f * wsum (weight W) f).
Proof.
  unfold is_square. intros E Hf. apply divide_eqm, (Z.mul_divide_cancel_l _ _ 2); [done|].
  replace (2 * (_ - _))
    with (bsum (fun i j => coef m i j + coef m j i + (- 2 * weight W i) * weight W j) f f).
  - apply bsum_divide. rewrite Hf. intros i j Hi Hj. apply mod_0_divide.
    apply (forallb_seq _ _) with (i := i) in E; [|done].
    apply (forallb_seq _ _) with (i := j) in E; [|done].
    apply Z.eqb_eq in E. rewrite <- E. f_equal. lia.
  - rewrite (bsum_add _ (fun i j => _ * weight W j)), (bsum_add (coef m) (fun i j => coef m j i)).
    rewrite bsum_mul, wsum_scale, <- (bsum_flip (coef m)). lia.
Qed.

(** *** Soundness of the columns *)

Lemma mul_range x y xl xh yl yh :
  xl <= x <= xh -> yl <= y <= yh ->
  Z.min (Z.min (xl * yl) (xl * yh)) (Z.min (xh * yl) (xh * yh)) <= x * y
    <= Z.max (Z.max (xl * yl) (xl * yh)) (Z.max (xh * yl) (xh * yh)).
Proof.
  intros Hx Hy.
  assert (Z.min (xl * yl) (xl * yh) <= xl * y <= Z.max (xl * yl) (xl * yh))
    by (destruct (Z.le_ge_cases 0 xl); nia).
  assert (Z.min (xh * yl) (xh * yh) <= xh * y <= Z.max (xh * yl) (xh * yh))
    by (destruct (Z.le_ge_cases 0 xh); nia).
  destruct (Z.le_ge_cases 0 y); nia.
Qed.

Definition term_value (f g : list Z) (t : term) : Z := mono f g (tc t * td t, ti t, tj t).

Definition term_in (f g : list Z) (t : term) : Prop :=
  is_Some (f !! ti t) /\ is_Some (g !! tj t).

Lemma sproduct_sound v w a b t l h f g :
  sproduct v w a b t = Some (l, h) -> covers a f -> covers b g ->
  product v w f g t = Some (term_value f g t) /\ l <= term_value f g t <= h /\ term_in f g t.
Proof.
  unfold sproduct. intros E Gf Gg. repeat sound_step. injection E as <- <-.
  read_cell a (ti t) cx x. read_cell b (tj t) cy y.
  unfold product, term_value, term_in, mono. cbn [fst snd]. rewrite Hx, Hy. cbn.
  rewrite (smul_ok v _ _ (tc t) x H4) by nia. cbn.
  rewrite (smul_ok v _ _ (td t) y H3) by nia. cbn.
  pose proof (mul_range (tc t * x) (td t * y) (tc t * lo cx) (tc t * hi cx)
    (td t * lo cy) (td t * hi cy) ltac:(nia) ltac:(nia)) as B.
  rewrite (smul_ok w _ _ _ _ H2) by exact B.
  replace (tc t * td t * (x * y)) with (tc t * x * (td t * y)) by lia.
  split; [done|]. split; [exact B|]. split; by eexists.
Qed.

Lemma sadd_terms_sound v w a b ts l0 h0 l h acc f g :
  sadd_terms v w a b l0 h0 ts = Some (l, h) -> covers a f -> covers b g -> l0 <= acc <= h0 ->
  let r := acc + foldr (fun t s => term_value f g t + s) 0 ts in
  add_terms v w f g acc ts = Some r /\ l <= r <= h /\ Forall (term_in f g) ts.
Proof.
  intros E Gf Gg. revert l0 h0 acc E.
  induction ts as [|t ts IH]; intros l0 h0 acc E Hacc; cbn [sadd_terms add_terms foldr] in *.
  { injection E as -> ->. cbv zeta. rewrite Z.add_0_r. split; [done|]. split; [done|]. constructor. }
  repeat sound_step. destruct v0 as [pl ph]. repeat sound_step.
  edestruct sproduct_sound as (-> & B & T); [done..|]. cbn [mbind option_bind].
  erewrite (sadd_ok w); [|done|lia]. cbn [mbind option_bind].
  edestruct (IH _ _ (acc + term_value f g t) E ltac:(lia)) as (-> & B' & T').
  rewrite Z.add_assoc. split; [done|]. split; [exact B'|]. by constructor.
Qed.

Lemma monos_terms f g x ts :
  monos f g (map (fun t => (x * tc t * td t, ti t, tj t)) ts)
  = x * foldr (fun t s => term_value f g t + s) 0 ts.
Proof.
  induction ts as [|t ts IH]; cbn [map monos foldr]; [lia|].
  fold (monos f g (map (fun t => (x * tc t * td t, ti t, tj t)) ts)).
  rewrite IH. unfold term_value, mono. cbn [fst snd]. lia.
Qed.

Lemma scolumns_sound v w a b W tss c f g :
  scolumns v w a b W tss = Some c -> covers a f -> covers b g ->
  exists h, columns v w tss f g = Some h /\ covers c h
    /\ value c h = bsum (coef (monomials W tss)) f g.
Proof.
  intros E Gf Gg.
  assert (exists h, columns v w tss f g = Some h /\ covers c h
    /\ value c h = monos f g (monomials W tss)
    /\ Forall (fun x => is_Some (f !! x.1.2) /\ is_Some (g !! x.2)) (monomials W tss))
    as (h & Hh & Gh & V & T); [|exists h; by rewrite bsum_coef].
  unfold columns, monomials. revert W c E.
  induction tss as [|ts tss IH]; intros [|x W] c E; cbn [scolumns] in E; try done.
  { injection E as <-. exists []. by repeat constructor. }
  repeat sound_step. destruct v0 as [l0 h0]. repeat sound_step. injection E as <-.
  edestruct (sadd_terms_sound v w a b ts 0 0) as (Ec & B & T); [done..|].
  destruct (IH W _ ltac:(done)) as (h & Hh & Gh & V & T').
  cbn [mapM zip_with]. fold (column v w f g ts) in Ec. rewrite Ec. cbn [mbind option_bind]. rewrite Hh.
  cbn [mbind option_bind]. rewrite Z.add_0_l in *.
  eexists. split; [done|]. split; [by constructor|].
  rewrite mjoin_cons, monos_app, monos_terms, <- V. split; [done|].
  apply Forall_app. split; [|done]. apply Forall_map.
  eapply Forall_impl; [done|]. done.
Qed.

(** Columns that pass [is_product] hold the product of the two numbers. *)
Lemma columns_product v w N a b W tss c f g :
  scolumns v w a b W tss = Some c ->
  is_product N (monomials W tss) (map wt a) (map wt b) = true ->
  covers a f -> covers b g ->
  exists h, columns v w tss f g = Some h /\ covers c h
    /\ eqm N (value c h) (value a f * value b g).
Proof.
  intros E P Gf Gg. edestruct scolumns_sound as (h & Hh & Gh & V); [done..|].
  exists h. split_and!; [done..|]. rewrite V.
  pose proof (Forall2_length _ _ _ Gf). pose proof (Forall2_length _ _ _ Gg).
  rewrite !value_wsum by done. apply is_product_sound; [done|by rewrite length_map..].
Qed.

Lemma columns_square v w N a W tss c f :
  scolumns v w a a W tss = Some c ->
  is_square N (monomials W tss) (map wt a) = true -> covers a f ->
  exists h, columns v w tss f f = Some h /\ covers c h
    /\ eqm N (value c h) (value a f * value a f).
Proof.
  intros E P Gf. edestruct scolumns_sound as (h & Hh & Gh & V); [done..|].
  exists h. split_and!; [done..|]. rewrite V. pose proof (Forall2_length _ _ _ Gf).
  rewrite !value_wsum by done. apply is_square_sound; [done|by rewrite length_map].
Qed.


(** ** Bytes and words *)

Definition load_3 (s : bytes) (o : nat) : option Z :=
  a ← s !! o; b ← s !! (o + 1)%nat; c ← s !! (o + 2)%nat;
  Some (Z.lor (Z.lor a (b ≪ 8)) (c ≪ 16)).

Definition load_4 (s : bytes) (o : nat) : option Z :=
  a ← s !! o; b ← s !! (o + 1)%nat; c ← s !! (o + 2)%nat; d ← s !! (o + 3)%nat;
  Some (Z.lor (Z.lor (Z.lor a (b ≪ 8)) (c ≪ 16)) (d ≪ 24)).

(** The number of a slice of bytes. *)
Definition slice (o n : nat) (s : bytes) : Z := (le_val 256 s / 256 ^ Z.of_nat o) mod 256 ^ Z.of_nat n.

Lemma le_val_drop o s :
  is_bytes s -> le_val 256 (drop o s) = le_val 256 s / 256 ^ Z.of_nat o.
Proof.
  intros Hs. revert o. induction Hs as [|x s Hx Hs IH]; intros o.
  - rewrite drop_nil. cbn [le_val]. by rewrite Z.div_0_l by (apply Z.pow_nonzero; lia).
  - destruct o as [|o]; [by rewrite Z.div_1_r|]. cbn [drop le_val].
    rewrite IH, Nat2Z.inj_succ, Z.pow_succ_r by lia.
    rewrite <- Z.div_div by (try apply Z.pow_pos_nonneg; lia). f_equal.
    unfold fits in Hx. apply (Z.div_unique _ _ _ x); lia.
Qed.

Lemma slice_cons o n s x :
  is_bytes s -> s !! o = Some x -> slice o (S n) s = x + 256 * slice (S o) n s.
Proof.
  intros Hs Hx. unfold slice. rewrite <- !le_val_drop by done.
  rewrite (drop_S s x o) by done. cbn [le_val].
  rewrite (Nat2Z.inj_succ n), Z.pow_succ_r by lia.
  pose proof (Forall_lookup_1 _ _ _ _ Hs Hx) as B. unfold fits in B.
  rewrite Z.rem_mul_r by (try apply Z.pow_pos_nonneg; lia).
  rewrite (Z.mul_comm 256 (le_val _ _)), Z_mod_plus_full, Z.mod_small by lia.
  rewrite Z.div_add, Z.div_small by lia. done.
Qed.

Lemma slice_nil o s : slice o 0 s = 0.
Proof. unfold slice. apply Z.mod_1_r. Qed.

Lemma slice_range o n s : 0 <= slice o n s < 256 ^ Z.of_nat n.
Proof. apply Z.mod_pos_bound. apply Z.pow_pos_nonneg; lia. Qed.

Lemma byte_lookup s i : is_bytes s -> (i < length s)%nat -> exists x, s !! i = Some x /\ 0 <= x < 256.
Proof.
  intros Hs Hi. destruct (lookup_lt_is_Some_2 s i Hi) as [x Hx]. exists x. split; [done|].
  apply (Forall_lookup_1 _ _ _ _ Hs Hx).
Qed.

Lemma load_3_slice s o :
  is_bytes s -> (o + 3 <= length s)%nat -> load_3 s o = Some (slice o 3 s).
Proof.
  intros Hs Ho.
  destruct (byte_lookup s o) as (a & Ha & Ba); [done|lia|].
  destruct (byte_lookup s (o + 1)) as (b & Hb & Bb); [done|lia|].
  destruct (byte_lookup s (o + 2)) as (c & Hc & Bc); [done|lia|].
  unfold load_3. rewrite Ha, Hb, Hc. cbn [mbind option_bind]. f_equal.
  erewrite (slice_cons o), (slice_cons (S o)), (slice_cons (S (S o))), slice_nil; try done;
    [|by replace (S (S o)) with (o + 2)%nat by lia|by replace (S o) with (o + 1)%nat by lia].
  rewrite !shiftl_mul by lia. rewrite (lor_add' b a 8) by lia.
  rewrite (lor_add' c _ 16) by lia. lia.
Qed.

Lemma load_4_slice s o :
  is_bytes s -> (o + 4 <= length s)%nat -> load_4 s o = Some (slice o 4 s).
Proof.
  intros Hs Ho.
  destruct (byte_lookup s o) as (a & Ha & Ba); [done|lia|].
  destruct (byte_lookup s (o + 1)) as (b & Hb & Bb); [done|lia|].
  destruct (byte_lookup s (o + 2)) as (c & Hc & Bc); [done|lia|].
  destruct (byte_lookup s (o + 3)) as (d & Hd & Bd); [done|lia|].
  unfold load_4. rewrite Ha, Hb, Hc, Hd. cbn [mbind option_bind]. f_equal.
  erewrite (slice_cons o), (slice_cons (S o)), (slice_cons (S (S o))), (slice_cons (S (S (S o)))),
    slice_nil; try done;
    [|by replace (S (S (S o))) with (o + 3)%nat by lia
     |by replace (S (S o)) with (o + 2)%nat by lia|by replace (S o) with (o + 1)%nat by lia].
  rewrite !shiftl_mul by lia. rewrite (lor_add' b a 8) by lia.
  rewrite (lor_add' c _ 16) by lia. rewrite (lor_add' d _ 24) by lia. lia.
Qed.

(** ** Packing words into bytes

    [Pack j r] is the byte s_j >> r, and [Pack2 j r t] the byte
    (s_j >> r) | (s_(j+1) << t). *)

Inductive packed := Pack (j : nat) (r : Z) | Pack2 (j : nat) (r t : Z).

Definition pack_byte (s : list Z) (p : packed) : option Z :=
  match p with
  | Pack j r => x ← s !! j; Some (u8 (x ≫ r))
  | Pack2 j r t => x ← s !! j; y ← s !! S j; Some (u8 (Z.lor (x ≫ r) (y ≪ t)))
  end.

Definition pack (ps : list packed) (s : list Z) : option bytes := mapM (pack_byte s) ps.

(** The number of words whose widths are [ks], the last word unbounded. *)
Fixpoint mixed (ks s : list Z) : Z :=
  match ks, s with
  | k :: ks, x :: s => x + 2 ^ k * mixed ks s
  | _, _ => 0
  end.

Fixpoint digits (ks s : list Z) : Prop :=
  match ks, s with
  | k :: ks, [x] => ks = [] /\ 0 <= k /\ 0 <= x
  | k :: ks, x :: s => 0 <= k /\ 0 <= x < 2 ^ k /\ digits ks s
  | _, _ => False
  end.

Definition offset (ks : list Z) (j : nat) : Z := foldr Z.add 0 (take j ks).

Definition pack_ok (ks : list Z) (i : nat) (p : packed) : bool :=
  match p with
  | Pack j r =>
      (offset ks j + r =? 8 * Z.of_nat i) && (0 <=? r) && Nat.ltb j (length ks)
      && ((r + 8 <=? nth j ks 0) || Nat.eqb (S j) (length ks))
  | Pack2 j r t =>
      (offset ks j + r =? 8 * Z.of_nat i) && (0 <=? r) && (r + t =? nth j ks 0) && (0 <=? t)
      && Nat.ltb (S j) (length ks)
      && ((8 <=? t + nth (S j) ks 0) || Nat.eqb (S (S j)) (length ks))
  end.

Definition packs_ok (ks : list Z) (ps : list packed) : bool :=
  forallb (fun '(i, p) => pack_ok ks i p) (zip (seq 0 (length ps)) ps).

(** The weights of words of widths [ks], the first weighing [c]. *)
Fixpoint scales (c : Z) (ks : list Z) : list Z :=
  match ks with
  | [] => []
  | k :: ks => c :: scales (c * 2 ^ k) ks
  end.

Lemma value_mixed c ks a s :
  map wt a = scales c ks -> length s = length ks -> value a s = c * mixed ks s.
Proof.
  revert c a s. induction ks as [|k ks IH]; intros c [|d a] [|x s] E Hs; try done; [cbn; lia|].
  cbn [map scales] in E. injection E as E1 E2. injection Hs as Hs.
  cbn [value mixed]. rewrite (IH _ a s E2 Hs), E1. lia.
Qed.

Lemma digits_length ks s : digits ks s -> length ks = length s.
Proof.
  revert s. induction ks as [|k ks IH]; intros [|x [|y s]] D; cbn in *; try done.
  - by destruct D as [-> _].
  - destruct D as (_ & _ & D). f_equal. apply (IH _ D).
Qed.

Lemma mixed_digits_cons k ks x s :
  digits (k :: ks) (x :: s) -> ks <> [] -> 0 <= k /\ 0 <= x < 2 ^ k /\ digits ks s.
Proof. intros D Hk. destruct s; [by destruct D as [-> _]|done]. Qed.

Lemma mixed_nonneg ks s : digits ks s -> 0 <= mixed ks s.
Proof.
  revert s. induction ks as [|k ks IH]; intros [|x s] D; try done; cbn [mixed].
  destruct s as [|y s]; [destruct D as (-> & ? & ?); cbn [mixed]; nia|].
  destruct D as (Hk & Hx & D). apply IH in D. pose proof (Z.pow_pos_nonneg 2 k). nia.
Qed.

(** Dividing by the weight of word [j] leaves the words from [j] on. *)
Lemma mixed_drop ks s j :
  digits ks s -> (j < length s)%nat ->
  0 <= offset ks j /\ mixed ks s / 2 ^ offset ks j = mixed (drop j ks) (drop j s)
  /\ digits (drop j ks) (drop j s).
Proof.
  revert ks s. induction j as [|j IH]; intros ks s D Hj.
  { unfold offset. cbn [take foldr]. rewrite Z.div_1_r. by rewrite !drop_0. }
  destruct ks as [|k ks], s as [|x s]; cbn [length] in Hj; try done; try lia.
  assert (ks <> []) as Hne.
  { intros ->. apply digits_length in D. cbn in D. lia. }
  apply mixed_digits_cons in D as (Hk & Hx & D); [|done].
  destruct (IH ks s D ltac:(lia)) as (O & E & D').
  unfold offset in *. cbn [take foldr drop mixed].
  split; [lia|]. split; [|done].
  rewrite Z.pow_add_r, <- Z.div_div by (try apply Z.pow_pos_nonneg; try apply Z.pow_nonzero; lia).
  rewrite <- E. f_equal. symmetry. apply (Z.div_unique _ _ _ x); lia.
Qed.

Lemma split_word k r x R :
  0 <= r <= k -> 0 <= x -> (x + 2 ^ k * R) / 2 ^ r = x / 2 ^ r + 2 ^ (k - r) * R.
Proof.
  intros Hr Hx. replace (2 ^ k) with (2 ^ r * 2 ^ (k - r)) by (rewrite <- Z.pow_add_r; [f_equal|..]; lia).
  rewrite <- Z.mul_assoc, (Z.mul_comm (2 ^ r)), Z.div_add; [done|]. apply Z.pow_nonzero; lia.
Qed.

Lemma mod_256_drop a t R : 8 <= t -> (a + 2 ^ t * R) mod 256 = a mod 256.
Proof.
  intros. replace (2 ^ t) with (2 ^ (t - 8) * 256).
  - replace (a + _) with (a + (2 ^ (t - 8) * R) * 256) by lia. apply Z_mod_plus_full.
  - change 256 with (2 ^ 8). rewrite <- Z.pow_add_r by lia. f_equal. lia.
Qed.

Lemma pack_byte_ok ks s i p :
  digits ks s -> pack_ok ks i p = true ->
  pack_byte s p = Some (mixed ks s / 2 ^ (8 * Z.of_nat i) mod 256).
Proof.
  intros D E. pose proof (digits_length _ _ D) as HL.
  assert (match p with Pack j _ | Pack2 j _ _ => (j < length s)%nat end) as Hj.
  { rewrite <- HL. destruct p; cbn [pack_ok] in E; repeat sound_step;
      match goal with H : Nat.ltb _ _ = true |- _ => apply Nat.ltb_lt in H end; lia. }
  destruct p as [j r|j r t]; cbn [pack_ok pack_byte] in *;
    destruct (mixed_drop ks s j D Hj) as (O & M & D');
    destruct (lookup_lt_is_Some_2 s j Hj) as [x Hx];
    destruct (lookup_lt_is_Some_2 ks j ltac:(lia)) as [k Hk];
    rewrite (drop_S s x j Hx), (drop_S ks k j Hk) in M, D';
    rewrite (nth_lookup_Some _ _ _ _ Hk) in E; rewrite Hx; cbn [mbind option_bind mixed] in *;
    repeat sound_step.
  - replace (8 * Z.of_nat i) with (offset ks j + r) by lia.
    rewrite Z.pow_add_r, <- Z.div_div, M by (try apply Z.pow_pos_nonneg; try apply Z.pow_nonzero; lia).
    unfold wrap. rewrite shiftr_div by lia. f_equal. change (2 ^ 8) with 256.
    apply orb_prop in H0 as [Hr%Z.leb_le|Hl%Nat.eqb_eq].
    + apply digits_length in D' as HL'.
      destruct (decide (drop (S j) ks = [])) as [Hn|Hn].
      * rewrite Hn. cbn [mixed]. by rewrite Z.mul_0_r, Z.add_0_r.
      * apply mixed_digits_cons in D' as (? & ? & _); [|done].
        rewrite split_word by lia. rewrite mod_256_drop by lia. done.
    + rewrite (drop_ge ks (S j)) by lia. cbn [mixed]. by rewrite Z.mul_0_r, Z.add_0_r.
  - rename select (Nat.ltb _ _ = true) into Hlt. apply Nat.ltb_lt in Hlt.
    destruct (lookup_lt_is_Some_2 s (S j) ltac:(lia)) as [y Hy].
    destruct (lookup_lt_is_Some_2 ks (S j) ltac:(lia)) as [k' Hk'].
    rewrite (drop_S s y _ Hy), (drop_S ks k' _ Hk') in M, D'.
    rewrite (nth_lookup_Some _ _ _ _ Hk') in *.
    apply mixed_digits_cons in D' as (? & ? & D'); [|done].
    replace (8 * Z.of_nat i) with (offset ks j + r) by lia.
    rewrite Z.pow_add_r, <- Z.div_div, M by (try apply Z.pow_pos_nonneg; try apply Z.pow_nonzero; lia).
    rewrite Hy. cbn [mbind option_bind mixed]. unfold wrap. f_equal. change (2 ^ 8) with 256.
    rewrite shiftr_div, shiftl_mul by lia. rewrite split_word by lia.
    replace (k - r) with t by lia.
    rewrite lor_add'; [|lia|].
    2:{ split; [apply Z.div_pos; [lia|apply Z.pow_pos_nonneg; lia]|].
        apply Z.div_lt_upper_bound; [apply Z.pow_pos_nonneg; lia|].
        rewrite <- Z.pow_add_r by lia. replace (r + t) with k by lia. lia. }
    rename select (_ || _ = true) into Ho. apply orb_prop in Ho as [Hr%Z.leb_le|Hl%Nat.eqb_eq].
    + destruct (decide (drop (S (S j)) ks = [])) as [Hn|Hn].
      * rewrite Hn. cbn [mixed]. rewrite Z.mul_0_r, Z.add_0_r. f_equal. lia.
      * apply mixed_digits_cons in D' as (? & ? & _); [|done].
        replace (_ + 2 ^ t * _) with (y * 2 ^ t + x / 2 ^ r + 2 ^ (t + k') * mixed (drop (S (S j)) ks) (drop (S (S j)) s)).
        { by rewrite mod_256_drop by lia. }
        rewrite Z.pow_add_r by lia. lia.
    + rewrite (drop_ge ks (S (S j))) by lia. cbn [mixed]. rewrite Z.mul_0_r, Z.add_0_r. f_equal. lia.
Qed.

Lemma pack_sound ks ps s :
  packs_ok ks ps = true -> digits ks s ->
  pack ps s = Some (le_digits 256 (length ps) (mixed ks s)).
Proof.
  intros E D. unfold packs_ok, pack in *.
  assert (forall i, forallb (fun '(i, p) => pack_ok ks i p) (zip (seq i (length ps)) ps) = true ->
    mapM (pack_byte s) ps
    = Some (le_digits 256 (length ps) (mixed ks s / 2 ^ (8 * Z.of_nat i)))) as G.
  { clear E. induction ps as [|p ps IH]; intros i E; [done|].
    cbn [length seq zip zip_with forallb] in E. apply andb_prop in E as [E1 E2].
    cbn [mapM length le_digits]. rewrite (pack_byte_ok ks s i p D E1), (IH _ E2).
    cbn [mbind option_bind]. do 3 f_equal.
    replace (8 * Z.of_nat (S i)) with (8 * Z.of_nat i + 8) by lia.
    rewrite Z.pow_add_r, <- Z.div_div by (try apply Z.pow_pos_nonneg; try apply Z.pow_nonzero; lia).
    done. }
  rewrite (G O E). by rewrite Z.div_1_r.
Qed.

(** ** Values of lists of words *)

Fixpoint low_value (a : list cell) : Z :=
  match a with [] => 0 | c :: a => Z.min (wt c * lo c) (wt c * hi c) + low_value a end.

Fixpoint high_value (a : list cell) : Z :=
  match a with [] => 0 | c :: a => Z.max (wt c * lo c) (wt c * hi c) + high_value a end.

Lemma value_range a s : covers a s -> low_value a <= value a s <= high_value a.
Proof.
  induction 1 as [|c x a s B G IH]; cbn [low_value high_value value]; [lia|].
  destruct (Z.le_ge_cases 0 (wt c)); nia.
Qed.

Lemma value_weightless a s : forallb (fun c => wt c =? 0) a = true -> value a s = 0.
Proof.
  revert s. induction a as [|c a IH]; intros [|x s] E; cbn [value forallb] in *; try done.
  apply andb_prop in E as [E1%Z.eqb_eq E2]. rewrite E1, IH by done. lia.
Qed.

Lemma value_take n a s :
  value a s = value (take n a) (take n s) + value (drop n a) (drop n s).
Proof.
  revert a s. induction n as [|n IH]; intros a s; [done|].
  destruct a as [|c a], s as [|x s]; cbn [take drop value]; try done.
  - by destruct (drop n a).
  - rewrite (IH a s). lia.
Qed.

Lemma run_app w p q s s' : run w p s = Some s' -> run w (p ++ q) s = run w q s'.
Proof.
  revert s. induction p as [|t p IH]; intros s E; cbn [run app] in *; [by simplify_eq|].
  destruct (exec w t s); [|done]. cbn [mbind option_bind] in *. by apply IH.
Qed.

Lemma eqm_0 x y : eqm 0 x y -> x = y.
Proof. unfold eqm. by rewrite !Z.mod_0_r. Qed.

Lemma value_app a b s t :
  length a = length s -> value (a ++ b) (s ++ t) = value a s + value b t.
Proof.
  revert s. induction a as [|c a IH]; intros [|x s] E; cbn [app value]; try done.
  rewrite IH by (by injection E). lia.
Qed.

(** Words of a sum, a difference: the cells of two lists combined. *)
Definition cells_2 (f : cell -> cell -> cell) (a b : list cell) : list cell := zip_with f a b.

Definition add_cell (x y : cell) : cell := Cell (lo x + lo y) (hi x + hi y) (wt x).
Definition sub_cell (x y : cell) : cell := Cell (lo x - hi y) (hi x - lo y) (wt x).

Lemma words_2 w (op : Z -> Z -> option Z) (f : Z -> Z -> Z) (k : cell -> cell -> cell) a b s t :
  (forall l h x y, in_word w l h = true -> l <= f x y <= h -> op x y = Some (f x y)) ->
  (forall c d x y, lo c <= x <= hi c -> lo d <= y <= hi d ->
    lo (k c d) <= f x y <= hi (k c d)) ->
  forallb (fun c => in_word w (lo c) (hi c)) (cells_2 k a b) = true ->
  covers a s -> covers b t ->
  mapM (fun '(x, y) => op x y) (zip s t) = Some (zip_with f s t)
  /\ covers (cells_2 k a b) (zip_with f s t).
Proof.
  intros Hop Hk E G. revert b t E. induction G as [|c x a s B G IH]; intros b t E G'.
  { split; [done|constructor]. }
  destruct G' as [|d y b t B' G']; [split; [done|constructor]|].
  cbn [cells_2 zip_with forallb] in *. apply andb_prop in E as [E1 E2].
  destruct (IH b t E2 G') as [X Y]. cbn [zip_with mapM].
  rewrite (Hop _ _ x y E1) by by apply Hk. cbn [mbind option_bind].
  rewrite X. split; [done|]. constructor; [by apply Hk|done].
Qed.

Lemma value_2 f k e a b s t :
  (forall x y, f x y = x + e * y) -> (forall c d, wt (k c d) = wt c) ->
  map wt a = map wt b -> covers a s -> covers b t ->
  value (cells_2 k a b) (zip_with f s t) = value a s + e * value b t.
Proof.
  intros Hf Hk E G. revert b t E. induction G as [|c x a s B G IH]; intros b t E G'.
  { destruct G'; [cbn; lia|done]. }
  destruct G' as [|d y b t B' G']; [done|]. injection E as E1 E2.
  cbn [cells_2 zip_with value]. rewrite Hf, Hk. unfold cells_2 in IH. rewrite (IH b t E2 G').
  rewrite E1. lia.
Qed.

Definition neg_cell (c : cell) : cell := Cell (- hi c) (- lo c) (wt c).

Lemma add_words w a b s t :
  forallb (fun c => in_word w (lo c) (hi c)) (cells_2 add_cell a b) = true ->
  covers a s -> covers b t ->
  mapM (fun '(x, y) => sadd w x y) (zip s t) = Some (zip_with Z.add s t)
  /\ covers (cells_2 add_cell a b) (zip_with Z.add s t).
Proof.
  apply (words_2 w (sadd w) Z.add add_cell).
  - intros. by eapply sadd_ok.
  - intros. cbn [lo hi add_cell]. lia.
Qed.

Lemma sub_words w a b s t :
  forallb (fun c => in_word w (lo c) (hi c)) (cells_2 sub_cell a b) = true ->
  covers a s -> covers b t ->
  mapM (fun '(x, y) => ssub w x y) (zip s t) = Some (zip_with Z.sub s t)
  /\ covers (cells_2 sub_cell a b) (zip_with Z.sub s t).
Proof.
  apply (words_2 w (ssub w) Z.sub sub_cell).
  - intros. by eapply ssub_ok.
  - intros. cbn [lo hi sub_cell]. lia.
Qed.

Lemma neg_words w a s :
  forallb (fun c => in_word w (- hi c) (- lo c)) a = true -> covers a s ->
  mapM (ssub w 0) s = Some (map Z.opp s) /\ covers (map neg_cell a) (map Z.opp s)
  /\ value (map neg_cell a) (map Z.opp s) = - value a s.
Proof.
  intros E G. induction G as [|c x a s B G IH]; [split_and!; [done|constructor|done]|].
  cbn [forallb] in E. apply andb_prop in E as [E1 E2]. destruct (IH E2) as (X & Y & V).
  cbn [mapM map]. rewrite (ssub_ok w _ _ 0 x E1) by lia. cbn [mbind option_bind]. rewrite X.
  split; [done|]. split; [constructor; [cbn; lia|done]|].
  cbn [value]. rewrite V. cbn [wt neg_cell]. lia.
Qed.

(** Wider cells of the same weights. *)
Definition wider (a b : list cell) : bool :=
  Nat.eqb (length a) (length b)
  && forallb (fun '(c, d) => (lo d <=? lo c) && (hi c <=? hi d) && (wt c =? wt d)) (zip a b).

Lemma wider_sound a b s :
  wider a b = true -> covers a s -> covers b s /\ value b s = value a s.
Proof.
  unfold wider. intros [Hl%Nat.eqb_eq E]%andb_prop G. revert b Hl E.
  induction G as [|c x a s B G IH]; intros [|d b] Hl E; try done; [split; [constructor|done]|].
  cbn [zip_with forallb] in E. apply andb_prop in E as [E1 E2].
  repeat sound_step. injection Hl as Hl. destruct (IH b Hl E2) as [Y V].
  split; [constructor; [lia|done]|]. cbn [value]. rewrite V. congruence.
Qed.

End Limbs.
