(* ===== verification/Primality.v ===== *)
(** * The modulus of the field is a prime

    A form of Pocklington's criterion, and the chain
    of certificates that shows that 2^255 - 19, the modulus of the field
    arithmetic of src/crypto/crypto-ops.c, is a prime.  The inversion and the
    square roots of that file are powers, which invert and take roots only
    modulo a prime. *)

From Stdlib Require Zmod.ZmodInv.
From Stdlib Require Import Znumtheory.
From S2P Require Import Prelude Limbs.
Import Limbs.

Module Primality.

(** ** Powers *)

#[global] Instance eqm_pow_proper N : Proper (eqm N ==> eq ==> eqm N) Z.pow.
Proof.
  intros a b E n _ <-. destruct (decide (0 <= n)) as [Hn|]; [|by rewrite !Z.pow_neg_r by lia].
  revert n Hn. apply natlike_ind; [done|]. intros n Hn IH. rewrite !Z.pow_succ_r by done.
  by rewrite IH, E.
Qed.

(** [b ^ e] by repeated squaring, with [red] to keep the numbers small. *)
Fixpoint power_by (red : Z -> Z) (b : Z) (e : positive) : Z :=
  match e with
  | xH => red b
  | xO e => let r := power_by red b e in red (r * r)
  | xI e => let r := power_by red b e in red (b * red (r * r))
  end.

Definition reduces (N : Z) (red : Z -> Z) : Prop := forall x, eqm N (red x) x.

Lemma mod_reduces N : reduces N (fun x => x mod N).
Proof. intros x. apply Zmod_mod. Qed.

Lemma power_by_ok N red b e : reduces N red -> eqm N (power_by red b e) (b ^ Z.pos e).
Proof.
  intros M. induction e as [e IH|e IH|]; cbn [power_by]; rewrite (M _).
  - rewrite (M _), IH, Pos2Z.inj_xI. replace (2 * Z.pos e + 1) with (1 + (Z.pos e + Z.pos e)) by lia.
    rewrite !Z.pow_add_r, Z.pow_1_r by lia. done.
  - rewrite IH, Pos2Z.inj_xO, <- Z.add_diag, Z.pow_add_r by lia. done.
  - by rewrite Z.pow_1_r.
Qed.

(** Reduction modulo 2^255 - 19 by folding: 2^255 is 19. *)
Definition fold (x : Z) : Z := Z.land x (Z.ones 255) + 19 * (x ≫ 255).

Lemma fold_reduces : reduces (2 ^ 255 - 19) (fun x => fold (fold x)).
Proof.
  assert (forall x, eqm (2 ^ 255 - 19) (fold x) x) as F.
  { intros x. unfold fold. rewrite Z.land_ones, Z.shiftr_div_pow2 by lia.
    apply eqm_divide. exists (- (x / 2 ^ 255)).
    pose proof (Z_div_mod_eq_full x (2 ^ 255)) as E. lia. }
  intros x. by rewrite (F (fold x)), (F x).
Qed.

(** If [b ^ m] and [b ^ n] are 1 for coprime [m] and [n], so is [b]. *)
Lemma power_coprime r b m n :
  0 < m -> 0 < n -> Z.coprime m n -> eqm r (b ^ m) 1 -> eqm r (b ^ n) 1 -> eqm r b 1.
Proof.
  intros Hm Hn C E F.
  destruct (Z.gcd_bezout m n 1) as (u & v & Huv); [done|].
  destruct (decide (n = 1)) as [->|]; [by rewrite Z.pow_1_r in F|].
  pose proof (Z.mod_pos_bound u n Hn) as B. pose proof (Z_div_mod_eq_full u n) as D.
  set (x := u mod n) in *. set (y := m * (u / n) + v) in *.
  assert (x * m = 1 - y * n) as Hx by (unfold y; nia).
  assert (0 <= - y) by nia.
  assert (eqm r (b ^ (x * m)) 1) as G by (rewrite Z.mul_comm, Z.pow_mul_r, E, Z.pow_1_l by lia; done).
  rewrite Hx in G. replace (1 - y * n) with (1 + n * - y) in G by lia.
  rewrite Z.pow_add_r, Z.pow_mul_r, F, Z.pow_1_l, Z.pow_1_r, Z.mul_1_r in G by lia. done.
Qed.

Lemma prime_gt_1 q : Z.prime q -> 1 < q.
Proof. intros []. done. Qed.

Lemma fermat_little q a : Z.prime q -> ~ (q | a) -> eqm q (a ^ (q - 1)) 1.
Proof.
  intros Hq Ha. pose proof (prime_gt_1 _ Hq). unfold eqm. rewrite (Z.mod_small 1) by lia.
  apply ZmodInv.Z.fermat_nz; [done|]. by rewrite Z.mod_divide by lia.
Qed.

Lemma power_1_coprime r b n : Z.prime r -> 0 < n -> eqm r (b ^ n) 1 -> ~ (r | b).
Proof.
  intros Hr Hn E [c ->]. apply eqm_divide in E. destruct E as [x E].
  replace n with (Z.succ (n - 1)) in E by lia. rewrite Z.pow_succ_r in E by lia.
  assert (r | 1) as F by (exists (c * (c * r) ^ (n - 1) - x); nia).
  apply Z.divide_1_r_nonneg in F; pose proof (prime_gt_1 _ Hr); lia.
Qed.

(** The order of [b] is the prime [q], so [q] divides the order of the group. *)
Lemma order_divides r q b :
  Z.prime r -> Z.prime q -> eqm r (b ^ q) 1 -> ~ eqm r b 1 -> (q | r - 1).
Proof.
  intros Hr Hq E N. pose proof (prime_gt_1 _ Hr). pose proof (prime_gt_1 _ Hq).
  destruct (decide ((r - 1) mod q = 0)) as [D|D]; rewrite Z.mod_divide in D by lia; [done|]. destruct N.
  apply (power_coprime r b q (r - 1)); [lia..|by apply Z.coprime_prime_l|done|].
  apply fermat_little; [done|]. by apply (power_1_coprime r b q); [|lia|].
Qed.

(** ** Composite numbers have small prime factors *)

Lemma prime_factor n : 1 < n -> exists r, Z.prime r /\ (r | n).
Proof.
  induction n as [n IH] using (well_founded_induction (Z.lt_wf 0)).
  intros Hn. destruct (prime_dec n) as [?%prime_alt|N]; [by exists n|]; rewrite <- prime_alt in N.
  destruct (not_prime_divide n Hn ltac:(by rewrite <- prime_alt)) as (m & Hm & D).
  destruct (IH m) as (r & Hr & E); [lia..|]. exists r. split; [done|]. by transitivity m.
Qed.

Lemma small_factor n : 1 < n -> ~ Z.prime n -> exists r, Z.prime r /\ (r | n) /\ r * r <= n.
Proof.
  intros Hn N. destruct (not_prime_divide n Hn ltac:(by rewrite <- prime_alt)) as (m & Hm & [k Hk]).
  assert (exists x, 1 < x /\ (x | n) /\ x * x <= n) as (x & Hx & D & Q).
  { destruct (decide (m <= k)); [exists m|exists k]; (split_and!; [nia| |nia]).
    - by exists k.
    - exists m. lia. }
  destruct (prime_factor x Hx) as (r & Hr & E). exists r. split_and!; [done|by transitivity x|].
  apply Z.divide_pos_le in E as ?; [|lia]. pose proof (prime_gt_1 _ Hr). nia.
Qed.

(** ** Certificates *)

Definition no_divisor (n : Z) : bool :=
  (1 <? n) && forallb (fun x => negb (n mod x =? 0)) (seqZ 2 (Z.sqrt n - 1)).

Lemma no_divisor_prime n : no_divisor n = true -> Z.prime n.
Proof.
  intros [Hn%Z.ltb_lt F]%andb_true_iff. destruct (prime_dec n) as [?%prime_alt|N]; [done|]; rewrite <- prime_alt in N.
  destruct (small_factor n Hn N) as (r & Hr & D & Q). pose proof (prime_gt_1 _ Hr).
  rewrite forallb_forall in F. specialize (F r).
  apply Z.mod_divide in D; [|lia]. rewrite D in F. discriminate F.
  apply list_elem_of_In, elem_of_seqZ. pose proof (Z.sqrt_le_square n r ltac:(lia) ltac:(lia)). lia.
Qed.

(** [g] has order [q * k] modulo [n], with [q * k] above the root of [n]. *)
Definition certified (red : Z -> Z) (n g : Z) (q k : positive) : bool :=
  let x := power_by red g q in
  (1 <? n) && (n <? Z.pos (q * k) * Z.pos (q * k)) && negb (q =? k)%positive
  && (power_by red x k mod n =? 1)
  && (Z.gcd (x - 1) n =? 1) && (Z.gcd (power_by red g k - 1) n =? 1).

Lemma eqm_divisor r n x y : (r | n) -> eqm n x y -> eqm r x y.
Proof. intros D E. apply eqm_divide. apply eqm_divide in E. by transitivity n. Qed.

Lemma coprime_not_1 r n x : Z.prime r -> (r | n) -> Z.gcd (x - 1) n = 1 -> ~ eqm r x 1.
Proof.
  intros Hr D G E%eqm_divide. pose proof (Z.gcd_greatest _ _ _ E D) as F. rewrite G in F.
  apply Z.divide_1_r_nonneg in F; pose proof (prime_gt_1 _ Hr); lia.
Qed.

(** Pocklington's criterion. *)
Lemma certified_prime red n g q k :
  reduces n red -> Z.prime (Z.pos q) -> Z.prime (Z.pos k) -> certified red n g q k = true -> Z.prime n.
Proof.
  intros Hred Hq Hk C. unfold certified in C. rewrite !andb_true_iff in C.
  destruct C as (((((Hn & B) & Q) & X) & G1) & G2).
  apply Z.ltb_lt in Hn, B. apply negb_true_iff, Pos.eqb_neq in Q. apply Z.eqb_eq in X, G1, G2.
  destruct (prime_dec n) as [?%prime_alt|N]; [done|]; rewrite <- prime_alt in N. exfalso.
  destruct (small_factor n Hn N) as (r & Hr & D & R). pose proof (prime_gt_1 _ Hr).
  assert (eqm n (power_by red g q ^ Z.pos k) 1) as E1.
  { rewrite <- (power_by_ok n red) by done. unfold eqm. by rewrite X, Z.mod_small by lia. }
  assert (eqm n (power_by red g k ^ Z.pos q) 1) as E2.
  { rewrite <- E1, !(power_by_ok n red), <- !Z.pow_mul_r by (done || lia). by rewrite Z.mul_comm. }
  assert (Z.pos k | r - 1) as D1.
  { eapply order_divides; [done..|by eapply eqm_divisor|by eapply coprime_not_1]. }
  assert (Z.pos q | r - 1) as D2.
  { eapply order_divides; [done..|by eapply eqm_divisor|by eapply coprime_not_1]. }
  assert (Z.pos q * Z.pos k | r - 1) as F.
  { pose proof (Z.lcm_least _ _ _ D2 D1) as L.
    rewrite (proj1 (Z.gcd_1_lcm_mul (Z.pos q) (Z.pos k) ltac:(lia) ltac:(lia))) in L; [by rewrite Z.abs_eq in L by lia|].
    apply Z.coprime_prime_l; [done|]. intros E%(Z.divide_prime_prime _ _ Hq Hk). congruence. }
  apply Z.divide_pos_le in F; nia.
Qed.

(** ** The chain *)

Lemma prime_353 : Z.prime 353.
Proof. apply no_divisor_prime. vm_compute. reflexivity. Qed.

Lemma prime_8574133 : Z.prime 8574133.
Proof. apply no_divisor_prime. vm_compute. reflexivity. Qed.

Lemma prime_75707 : Z.prime 75707.
Proof. apply no_divisor_prime. vm_compute. reflexivity. Qed.

Lemma prime_127 : Z.prime 127.
Proof. apply no_divisor_prime. vm_compute. reflexivity. Qed.

Lemma prime_51_certified :
  certified (fun x => x mod 1919519569386763) 1919519569386763
    354538099852037
    8574133 127 = true.
Proof. vm_compute. reflexivity. Qed.

Lemma prime_51 : Z.prime 1919519569386763.
Proof. exact (certified_prime _ _ _ _ _ (mod_reduces _) prime_8574133 prime_127 prime_51_certified). Qed.

Lemma prime_116_certified :
  certified (fun x => x mod 75445702479781427272750846543864801) 75445702479781427272750846543864801
    66628784550627212900504873757094751
    1919519569386763 75707 = true.
Proof. vm_compute. reflexivity. Qed.

Lemma prime_116 : Z.prime 75445702479781427272750846543864801.
Proof. exact (certified_prime _ _ _ _ _ (mod_reduces _) prime_51 prime_75707 prime_116_certified). Qed.

Lemma prime_236_certified :
  certified (fun x => x mod 74058212732561358302231226437062788676166966415465897661863160754340907) 74058212732561358302231226437062788676166966415465897661863160754340907
    25686082838651505011370039260590883329232637451457271664974363710626838
    75445702479781427272750846543864801 353 = true.
Proof. vm_compute. reflexivity. Qed.

Lemma prime_236 : Z.prime 74058212732561358302231226437062788676166966415465897661863160754340907.
Proof. exact (certified_prime _ _ _ _ _ (mod_reduces _) prime_116 prime_353 prime_236_certified). Qed.

Lemma prime_25519_certified :
  certified (fun x => fold (fold x)) (2 ^ 255 - 19)
    1897860299353988297429386670578094780094431353575368399406181777403340871260
    74058212732561358302231226437062788676166966415465897661863160754340907 3 = true.
Proof. vm_compute. reflexivity. Qed.

Lemma prime_25519 : Z.prime (2 ^ 255 - 19).
Proof. exact (certified_prime _ _ _ _ _ fold_reduces prime_236 Z.prime_3 prime_25519_certified). Qed.

(** ** The order of the base point is a prime *)

Definition order : Z := 2 ^ 252 + 27742317777372353535851937790883648493.

(** Reduction by folding: 2^252 is -27742317777372353535851937790883648493. *)
Definition fold_252 (x : Z) : Z :=
  Z.land x (Z.ones 252) - 27742317777372353535851937790883648493 * (x ≫ 252).

Definition fold_order (x : Z) : Z := fold_252 (fold_252 (fold_252 x)).

Lemma fold_order_reduces : reduces order fold_order.
Proof.
  assert (forall x, eqm order (fold_252 x) x) as F.
  { intros x. unfold fold_252. rewrite Z.land_ones, Z.shiftr_div_pow2 by lia.
    apply eqm_divide. exists (- (x / 2 ^ 252)).
    pose proof (Z_div_mod_eq_full x (2 ^ 252)) as E. unfold order. lia. }
  intros x. unfold fold_order. by rewrite (F (fold_252 (fold_252 x))), (F (fold_252 x)), (F x).
Qed.

Lemma prime_531581 : Z.prime 531581.
Proof. apply no_divisor_prime. vm_compute. reflexivity. Qed.

Lemma prime_1224481 : Z.prime 1224481.
Proof. apply no_divisor_prime. vm_compute. reflexivity. Qed.

Lemma prime_43 : Z.prime 43.
Proof. apply no_divisor_prime. vm_compute. reflexivity. Qed.

Lemma prime_2851 : Z.prime 2851.
Proof. apply no_divisor_prime. vm_compute. reflexivity. Qed.

Lemma prime_269 : Z.prime 269.
Proof. apply no_divisor_prime. vm_compute. reflexivity. Qed.

Lemma prime_7 : Z.prime 7.
Proof. apply no_divisor_prime. vm_compute. reflexivity. Qed.

Lemma prime_11 : Z.prime 11.
Proof. apply no_divisor_prime. vm_compute. reflexivity. Qed.

Lemma prime_50_certified :
  certified (fun x => x mod 1257559732178653) 1257559732178653
    896025394887893
    1224481 531581 = true.
Proof. vm_compute. reflexivity. Qed.

Lemma prime_50 : Z.prime 1257559732178653.
Proof. exact (certified_prime _ _ _ _ _ (mod_reduces _) prime_1224481 prime_531581 prime_50_certified). Qed.

Lemma prime_62_certified :
  certified (fun x => x mod 4434155615661930479) 4434155615661930479
    3832709088781437901
    1257559732178653 43 = true.
Proof. vm_compute. reflexivity. Qed.

Lemma prime_62 : Z.prime 4434155615661930479.
Proof. exact (certified_prime _ _ _ _ _ (mod_reduces _) prime_50 prime_43 prime_62_certified). Qed.

Lemma prime_87_certified :
  certified (fun x => x mod 172054593956031949258510691) 172054593956031949258510691
    130536030892670829044878476
    4434155615661930479 2851 = true.
Proof. vm_compute. reflexivity. Qed.

Lemma prime_87 : Z.prime 172054593956031949258510691.
Proof. exact (certified_prime _ _ _ _ _ (mod_reduces _) prime_62 prime_2851 prime_87_certified). Qed.

Lemma prime_134_certified :
  certified (fun x => x mod 19757330305831588566944191468367130476339) 19757330305831588566944191468367130476339
    10929876254526950395497880274040349565821
    172054593956031949258510691 269 = true.
Proof. vm_compute. reflexivity. Qed.

Lemma prime_134 : Z.prime 19757330305831588566944191468367130476339.
Proof. exact (certified_prime _ _ _ _ _ (mod_reduces _) prime_87 prime_269 prime_134_certified). Qed.

Lemma prime_138_certified :
  certified (fun x => x mod 276602624281642239937218680557139826668747) 276602624281642239937218680557139826668747
    4
    19757330305831588566944191468367130476339 7 = true.
Proof. vm_compute. reflexivity. Qed.

Lemma prime_138 : Z.prime 276602624281642239937218680557139826668747.
Proof. exact (certified_prime _ _ _ _ _ (mod_reduces _) prime_134 prime_7 prime_138_certified). Qed.

Lemma prime_order_certified :
  certified fold_order order
    4686560433807630367918803328985644595081046689166665939834943780271382060184
    276602624281642239937218680557139826668747 11 = true.
Proof. vm_compute. reflexivity. Qed.

Lemma prime_order : Z.prime order.
Proof. exact (certified_prime _ _ _ _ _ fold_order_reduces prime_138 prime_11 prime_order_certified). Qed.

End Primality.
