(* ===== verification/Scalar.v ===== *)
(** * Scalars modulo the group order

    src/crypto/crypto-ops.c: sc_reduce, sc_reduce32, sc_add, sc_sub, sc_mul,
    sc_muladd, sc_mulsub, sc_0, sc_check and sc_isnonzero.  A scalar is read
    into words of 21 bits, the words are combined, and one sequence of carries
    and folds brings the result below the group order l.  The theorems: on
    every input the code stays within its 64-bit words, and it returns the 32
    bytes of the exact residue. *)

From S2P Require Import Prelude Limbs.
Import Limbs.

Module Scalar.

(** The group order l = 2^252 + 27742317777372353535851937790883648493. *)
Definition ell : Z := 2 ^ 252 + 27742317777372353535851937790883648493.

(** ** Bytes to words *)

(** [At n o r] is load_n(s + o) >> r. *)
Inductive load := At (n o : nat) (r : Z).

Definition load_word (s : bytes) (e : load) : option Z :=
  let '(At n o r) := e in
  x ← (if Nat.eqb n 3 then load_3 s o else load_4 s o); Some (x ≫ r).

Definition load_21 (s : bytes) (e : load) : option Z :=
  x ← load_word s e; Some (Z.land 2097151 x).

Definition loads_32 : list load :=
    [At 3 0 0; At 4 2 5; At 3 5 2; At 4 7 7; At 4 10 4; At 3 13 1; At 4 15 6;
     At 3 18 3; At 3 21 0; At 4 23 5; At 3 26 2].

Definition loads_64 : list load :=
    [At 3 0 0; At 4 2 5; At 3 5 2; At 4 7 7; At 4 10 4; At 3 13 1; At 4 15 6;
     At 3 18 3; At 3 21 0; At 4 23 5; At 3 26 2; At 4 28 7; At 4 31 4; At 3 34 1;
     At 4 36 6; At 3 39 3; At 3 42 0; At 4 44 5; At 3 47 2; At 4 49 7; At 4 52 4;
     At 3 55 1; At 4 57 6].

Definition words_32 (s : bytes) : option (list Z) :=
  l ← mapM (load_21 s) loads_32; t ← load_word s (At 4 28 7); Some (l ++ [t]).

Definition words_64 (s : bytes) : option (list Z) :=
  l ← mapM (load_21 s) loads_64; t ← load_word s (At 4 60 3); Some (l ++ [t]).

(** ** The statements *)

Definition carry_r (i : nat) : step := Carry (2 ^ 20) 21 i (S i) 1.
Definition carry_f (i : nat) : step := Carry 0 21 i (S i) 1.
Definition fold (i : nat) : step :=
  Fold i (i - 12) [666643; 470296; 654183; -997805; 136657; -683901].
Definition zero (i : nat) : step := Zero i.

(** Rounded carries of twelve words, the first fold of word 12. *)
Definition round_steps : list step :=
    [carry_r 0; carry_r 2; carry_r 4; carry_r 6; carry_r 8; carry_r 10; carry_r 1;
     carry_r 3; carry_r 5; carry_r 7; carry_r 9; carry_r 11; fold 12; zero 12].

(** Plain carries up to word 12. *)
Definition floor_steps : list step :=
    [carry_f 0; carry_f 1; carry_f 2; carry_f 3; carry_f 4; carry_f 5; carry_f 6;
     carry_f 7; carry_f 8; carry_f 9; carry_f 10; carry_f 11].

(** The last fold and the last carries. *)
Definition last_steps : list step :=
    [fold 12; carry_f 0; carry_f 1; carry_f 2; carry_f 3; carry_f 4; carry_f 5; carry_f 6;
     carry_f 7; carry_f 8; carry_f 9; carry_f 10].

(** What twenty-four words go through before they are twelve. *)
Definition wide_steps : list step :=
    [fold 23; fold 22; fold 21; fold 20; fold 19; fold 18; carry_r 6; carry_r 8;
     carry_r 10; carry_r 12; carry_r 14; carry_r 16; carry_r 7; carry_r 9; carry_r 11;
     carry_r 13; carry_r 15; fold 17; fold 16; fold 15; fold 14; fold 13; fold 12; zero 12].

(** The carries after a product. *)
Definition product_steps : list step :=
    [carry_r 0; carry_r 2; carry_r 4; carry_r 6; carry_r 8; carry_r 10; carry_r 12;
     carry_r 14; carry_r 16; carry_r 18; carry_r 20; carry_r 22; carry_r 1; carry_r 3;
     carry_r 5; carry_r 7; carry_r 9; carry_r 11; carry_r 13; carry_r 15; carry_r 17;
     carry_r 19; carry_r 21].

(** ** Words to bytes *)

Definition out_bytes : list packed :=
    [Pack 0 0; Pack 0 8; Pack2 0 16 5; Pack 1 3; Pack 1 11; Pack2 1 19 2; Pack 2 6;
     Pack2 2 14 7; Pack 3 1; Pack 3 9; Pack2 3 17 4; Pack 4 4; Pack 4 12; Pack2 4 20 1;
     Pack 5 7; Pack2 5 15 6; Pack 6 2; Pack 6 10; Pack2 6 18 3; Pack 7 5; Pack 7 13;
     Pack 8 0; Pack 8 8; Pack2 8 16 5; Pack 9 3; Pack 9 11; Pack2 9 19 2; Pack 10 6;
     Pack2 10 14 7; Pack 11 1; Pack 11 9; Pack 11 17].

(** The end of every function: carries and folds, then the 32 bytes. *)
Definition finish (p : list step) (s : list Z) : option bytes :=
  s' ← run 64 (p ++ floor_steps ++ last_steps) s; pack out_bytes (take 12 s').

(** ** The functions *)

Definition sc_0 : bytes := replicate 32 0.

Definition sc_reduce (s : bytes) : option bytes :=
  w ← words_64 s; finish (wide_steps ++ round_steps) w.

Definition sc_reduce32 (s : bytes) : option bytes :=
  w ← words_32 s; finish round_steps (w ++ [0]).

Definition sc_add (a b : bytes) : option bytes :=
  wa ← words_32 a; wb ← words_32 b;
  w ← mapM (fun '(x, y) => sadd 64 x y) (zip wa wb);
  finish round_steps (w ++ [0]).

Definition sc_sub (a b : bytes) : option bytes :=
  wa ← words_32 a; wb ← words_32 b;
  w ← mapM (fun '(x, y) => ssub 64 x y) (zip wa wb);
  finish round_steps (w ++ [0]).

(** Column [k] of a product of twelve words by twelve. *)
Definition sc_column (k : nat) : list term :=
  map (fun i => Term 1 i 1 (k - i)) (filter (fun i => k - i < 12 /\ i <= k)%nat (seq 0 12)).

Definition sc_columns : list (list term) := map sc_column (seq 0 23).

Definition product_reduction : list step := product_steps ++ wide_steps ++ round_steps.

Definition sc_mul (a b : bytes) : option bytes :=
  wa ← words_32 a; wb ← words_32 b;
  p ← columns 64 64 sc_columns wa wb;
  finish product_reduction (p ++ [0]).

Definition sc_muladd (a b c : bytes) : option bytes :=
  wa ← words_32 a; wb ← words_32 b; wc ← words_32 c;
  p ← columns 64 64 sc_columns wa wb;
  l ← mapM (fun '(x, y) => sadd 64 x y) (zip wc (take 12 p));
  finish product_reduction (l ++ drop 12 p ++ [0]).

Definition sc_mulsub (a b c : bytes) : option bytes :=
  wa ← words_32 a; wb ← words_32 b; wc ← words_32 c;
  p ← columns 64 64 sc_columns wa wb;
  l ← mapM (fun '(x, y) => ssub 64 x y) (zip wc (take 12 p));
  h ← mapM (ssub 64 0) (drop 12 p);
  finish product_reduction (l ++ h ++ [0]).

Definition signum (a : Z) : Z := a ≫ 63 - (- a) ≫ 63.

Definition sc_check (s : bytes) : option Z :=
  s0 ← load_4 s 0; s1 ← load_4 s 4; s2 ← load_4 s 8; s3 ← load_4 s 12;
  s4 ← load_4 s 16; s5 ← load_4 s 20; s6 ← load_4 s 24; s7 ← load_4 s 28;
  Some ((signum (1559614444 - s0) + signum (1477600026 - s1) ≪ 1
    + signum (2734136534 - s2) ≪ 2 + signum (350157278 - s3) ≪ 3 + signum (- s4) ≪ 4
    + signum (- s5) ≪ 5 + signum (- s6) ≪ 6 + signum (268435456 - s7) ≪ 7) ≫ 8).

Definition sc_isnonzero (s : bytes) : Z := (foldl Z.lor 0 s - 1) ≫ 8 + 1.



(** ** Loading: the words are the base-2^21 digits *)

Lemma load_word_ok s n o r :
  is_bytes s -> (n = 3 \/ n = 4)%nat -> (o + n <= length s)%nat -> 0 <= r <= 8 * Z.of_nat n ->
  load_word s (At n o r)
  = Some ((le_val 256 s / 2 ^ (8 * Z.of_nat o + r)) mod 2 ^ (8 * Z.of_nat n - r)).
Proof.
  intros Hs Hn Ho Hr. unfold load_word.
  assert ((if Nat.eqb n 3 then load_3 s o else load_4 s o) = Some (slice o n s)) as ->.
  { destruct Hn as [-> | ->]; cbn [Nat.eqb]; [by apply load_3_slice|by apply load_4_slice]. }
  cbn [mbind option_bind]. f_equal. unfold slice. rewrite shiftr_div by lia.
  rewrite (Z.pow_add_r 2), <- Z.div_div by (try apply Z.pow_pos_nonneg; try apply Z.pow_nonzero; lia).
  change (256 ^ Z.of_nat o) with ((2 ^ 8) ^ Z.of_nat o).
  change (256 ^ Z.of_nat n) with ((2 ^ 8) ^ Z.of_nat n).
  rewrite <- !Z.pow_mul_r by lia.
  apply Z.bits_inj'. intros i Hi.
  rewrite <- !Z.shiftr_div_pow2, Z.shiftr_spec by lia.
  destruct (decide (i < 8 * Z.of_nat n - r)).
  - rewrite !Z.mod_pow2_bits_low, !Z.shiftr_spec by lia. done.
  - rewrite !Z.mod_pow2_bits_high by lia. done.
Qed.

Definition load_ok (len i : nat) (e : load) : bool :=
  let '(At n o r) := e in
  (Nat.eqb n 3 || Nat.eqb n 4) && Nat.leb (o + n) len && (0 <=? r) && (r + 21 <=? 8 * Z.of_nat n)
  && (8 * Z.of_nat o + r =? 21 * Z.of_nat i).

Definition loads_ok (len : nat) (l : list load) : bool :=
  forallb (fun '(i, e) => load_ok len i e) (zip (seq 0 (length l)) l).

Lemma load_21_ok s i e :
  is_bytes s -> load_ok (length s) i e = true ->
  load_21 s e = Some ((le_val 256 s / 2 ^ (21 * Z.of_nat i)) mod 2 ^ 21).
Proof.
  destruct e as [n o r]. cbn [load_ok]. intros Hs E. repeat sound_step.
  apply orb_prop in H as Hn. rewrite !Nat.eqb_eq in Hn.
  apply Nat.leb_le in H3. unfold load_21. rewrite load_word_ok by (done || lia).
  cbn [mbind option_bind]. f_equal. change 2097151 with (2 ^ 21 - 1).
  rewrite Z.land_comm, land_mask by lia. rewrite H0.
  apply Z.mod_mod_divide.
  exists (2 ^ (8 * Z.of_nat n - r - 21)). rewrite <- Z.pow_add_r by lia. f_equal. lia.
Qed.

Lemma loads_digits s l :
  is_bytes s -> loads_ok (length s) l = true ->
  mapM (load_21 s) l = Some (le_digits (2 ^ 21) (length l) (le_val 256 s)).
Proof.
  intros Hs. unfold loads_ok.
  assert (forall i, forallb (fun '(i, e) => load_ok (length s) i e) (zip (seq i (length l)) l) = true ->
    mapM (load_21 s) l
    = Some (le_digits (2 ^ 21) (length l) (le_val 256 s / 2 ^ (21 * Z.of_nat i)))) as G.
  { induction l as [|e l IH]; intros i E; [done|].
    cbn [length seq zip zip_with forallb] in E. apply andb_prop in E as [E1 E2].
    cbn [mapM length le_digits]. rewrite (load_21_ok s i e Hs E1), (IH _ E2).
    cbn [mbind option_bind]. do 3 f_equal.
    replace (21 * Z.of_nat (S i)) with (21 * Z.of_nat i + 21) by lia.
    rewrite Z.pow_add_r, <- Z.div_div by (try apply Z.pow_pos_nonneg; try apply Z.pow_nonzero; lia).
    done. }
  intros E. rewrite (G O E). by rewrite Z.div_1_r.
Qed.

(** ** The analysis of the reduction *)

Definition weights (n : nat) : list Z := map (fun i => 2 ^ (21 * Z.of_nat i)) (seq 0 n).

Definition cells (top : Z) (n : nat) : list cell :=
  map (fun i => Cell 0 (2 ^ 21 - 1) (2 ^ (21 * Z.of_nat i))) (seq 0 n)
  ++ [Cell 0 top (2 ^ (21 * Z.of_nat n))].

Definition is_digit (c : cell) : bool := (0 <=? lo c) && (hi c <=? 2 ^ 21 - 1).

(** The checks on one body: [p] brings the number into [-2^252, 2^252),
    the plain carries give it in digits with a last word worth 2^252, and the
    last fold, which replaces that weight by 2^252 - l, leaves digits. *)
Definition reduces (p : list step) (a : list cell) : bool :=
  let W := weights 24 in
  match srun 64 ell W p a with
  | Some a1 =>
      (- 2 ^ 252 <=? low_value a1) && (high_value a1 <? 2 ^ 252) &&
      match srun 64 0 W floor_steps a1 with
      | Some a2 =>
          match a2 !! 12%nat with
          | Some t =>
              let a2' := <[12%nat := Cell (lo t) (hi t) 0]> a2 in
              (wt t =? 2 ^ 252) && (0 <=? low_value a2') && (high_value a2' <? 2 ^ 252) &&
              match srun 64 0 W last_steps (<[12%nat := Cell (lo t) (hi t) (2 ^ 252 - ell)]> a2) with
              | Some a3 =>
                  forallb is_digit (take 11 a3)
                  && bool_decide (map wt (take 12 a3) = weights 12)
                  && forallb (fun c => wt c =? 0) (drop 12 a3)
              | None => false
              end
          | None => false
          end
      | None => false
      end
  | None => false
  end.

Lemma digits_12 a s :
  covers a s -> length s = 12%nat -> forallb is_digit (take 11 a) = true ->
  0 <= mixed (replicate 12 21) s -> digits (replicate 12 21) s.
Proof.
  intros G Hl E M. assert (length a = 12%nat) as Ha by (by rewrite (Forall2_length _ _ _ G)).
  assert (forall n a s, covers a s -> length s = S n -> forallb is_digit (take n a) = true ->
    0 <= mixed (replicate (S n) 21) s -> digits (replicate (S n) 21) s) as K; [|by apply (K 11%nat a)].
  clear. induction n as [|n IH]; intros a s G Hl E M.
  { destruct s as [|x [|]]; try done. cbn in *. split_and!; [done..|lia]. }
  destruct G as [|c x a s B G]; [done|]. injection Hl as Hl.
  cbn [take forallb] in E. apply andb_prop in E as [E1 E2].
  apply andb_prop in E1 as [?%Z.leb_le ?%Z.leb_le].
  change (replicate (S (S n)) 21) with (21 :: replicate (S n) 21) in *. cbn [mixed] in M.
  destruct s as [|y s]; [done|].
  split; [done|]. split; [lia|]. apply (IH a); try done. nia.
Qed.

Lemma reduces_sound p a s :
  reduces p a = true -> covers a s ->
  exists s' a', run 64 (p ++ floor_steps ++ last_steps) s = Some s' /\ covers a' s'
    /\ forallb is_digit (take 11 a') = true /\ map wt (take 12 a') = weights 12
    /\ value a' s' = value (take 12 a') (take 12 s') /\ value a' s' = value a s mod ell.
Proof.
  unfold reduces. intros E G.
  destruct (srun 64 ell (weights 24) p a) as [a1|] eqn:R1; [|done].
  apply andb_prop in E as [[L1%Z.leb_le U1%Z.ltb_lt]%andb_prop E].
  destruct (srun 64 0 (weights 24) floor_steps a1) as [a2|] eqn:R2; [|done].
  destruct (a2 !! 12%nat) as [t|] eqn:Ht; [|done].
  apply andb_prop in E as [[[Wt%Z.eqb_eq L2%Z.leb_le]%andb_prop U2%Z.ltb_lt]%andb_prop E].
  destruct (srun 64 0 (weights 24) last_steps _) as [a3|] eqn:R3; [|done].
  apply andb_prop in E as [[D3 W3%bool_decide_eq_true]%andb_prop Z3].
  destruct (srun_sound _ _ _ _ _ _ _ R1 G) as (s1 & X1 & G1 & V1).
  destruct (srun_sound _ _ _ _ _ _ _ R2 G1) as (s2 & X2 & G2 & V2%eqm_0).
  destruct (covers_lookup a2 s2 12 t G2 Ht) as (x & Hx & Bx).
  assert (forall v, let c := <[12%nat := Cell (lo t) (hi t) v]> a2 in
    covers c s2 /\ value c s2 = value a2 s2 + v * x - 2 ^ 252 * x) as K.
  { intros v c. unfold c. rewrite <- (list_insert_id s2 12 x Hx) at 1 2. split.
    - by apply covers_insert.
    - erewrite value_insert by done. cbn [wt]. by rewrite Wt. }
  destruct (K 0) as [G0 V0]. destruct (K (2 ^ 252 - ell)) as [G2' V2'].
  destruct (srun_sound _ _ _ _ _ _ _ R3 G2') as (s3 & X3 & G3 & V3%eqm_0).
  pose proof (value_range _ _ G1) as B1. pose proof (value_range _ _ G0) as B0.
  exists s3, a3. split; [by rewrite (run_app _ _ _ _ _ X1), (run_app _ _ _ _ _ X2)|].
  split_and!; [done..| |].
  - rewrite (value_take 12), (value_weightless (drop 12 a3)) by done. lia.
  - unfold eqm in V1. rewrite <- V1, <- V2.
    assert (0 <= value a3 s3 < ell) as R by (unfold ell in *; nia).
    rewrite <- (Z.mod_small _ _ R). rewrite V3, V2'.
    replace (value a2 s2 + _ - _) with (value a2 s2 + (- x) * ell) by lia.
    apply Z_mod_plus_full.
Qed.

Lemma reduces_finish p a s :
  reduces p a = true -> covers a s -> finish p s = Some (le_digits 256 32 (value a s mod ell)).
Proof.
  intros E G. destruct (reduces_sound p a s E G) as (s' & a' & X & G' & D & W & V & V').
  assert (length (take 12 a') = 12%nat) as Ha by (rewrite <- (length_map wt), W; done).
  assert (covers (take 12 a') (take 12 s')) as Gt by by apply Forall2_take.
  pose proof (Forall2_length _ _ _ Gt) as Hs. rewrite Ha in Hs.
  assert (value (take 12 a') (take 12 s') = mixed (replicate 12 21) (take 12 s')) as M.
  { rewrite (value_mixed 1 (replicate 12 21)) by done. apply Z.mul_1_l. }
  unfold finish. rewrite X. cbn [mbind option_bind].
  rewrite (pack_sound (replicate 12 21)); [|done|].
  - cbn [length out_bytes]. by rewrite <- M, <- V, V'.
  - apply (digits_12 (take 12 a')); [done..| |].
    + rewrite take_take. done.
    + rewrite <- M, <- V, V'. apply Z.mod_pos_bound. done.
Qed.


Lemma digits_cells m x k n :
  m = 2 ^ 21 - 1 ->
  let c := map (fun i => Cell 0 m (2 ^ (21 * Z.of_nat i))) (seq k n) in
  covers c (le_digits (2 ^ 21) n x)
  /\ value c (le_digits (2 ^ 21) n x) = 2 ^ (21 * Z.of_nat k) * (x mod 2 ^ (21 * Z.of_nat n)).
Proof.
  intros ->. revert x k. induction n as [|n IH]; intros x k; cbv zeta; cbn [seq map le_digits value].
  { split; [constructor|]. rewrite Z.mul_0_r, Z.mod_1_r. lia. }
  destruct (IH (x / 2 ^ 21) (S k)) as [G V]. cbv zeta in G, V.
  pose proof (Z.mod_pos_bound x (2 ^ 21) ltac:(done)).
  split; [constructor; [cbn [lo hi]; lia|done]|]. rewrite V. cbn [wt].
  replace (21 * Z.of_nat (S k)) with (21 * Z.of_nat k + 21) by lia.
  replace (21 * Z.of_nat (S n)) with (21 + 21 * Z.of_nat n) by lia.
  rewrite !Z.pow_add_r by lia. rewrite Z.rem_mul_r by (try apply Z.pow_pos_nonneg; lia). lia.
Qed.

Lemma words_ok s l n o r :
  is_bytes s -> loads_ok (length s) l = true -> (n = 3 \/ n = 4)%nat -> (o + n = length s)%nat ->
  0 <= r <= 8 * Z.of_nat n -> 8 * Z.of_nat o + r = 21 * Z.of_nat (length l) ->
  let c := cells (2 ^ (8 * Z.of_nat n - r) - 1) (length l) in
  exists w, (l' ← mapM (load_21 s) l; t ← load_word s (At n o r); Some (l' ++ [t])) = Some w
    /\ covers c w /\ value c w = le_val 256 s.
Proof.
  intros Hs Hl Hn Ho Hr E c. rewrite (loads_digits s l Hs Hl). cbn [mbind option_bind].
  rewrite load_word_ok by (done || lia). cbn [mbind option_bind].
  pose proof (le_val_bound 256 ltac:(done) s Hs) as B.
  assert (256 ^ Z.of_nat (length s) = 2 ^ (8 * Z.of_nat o + r) * 2 ^ (8 * Z.of_nat n - r)) as EB.
  { change 256 with (2 ^ 8). rewrite <- Z.pow_mul_r, <- Z.pow_add_r by lia. f_equal. lia. }
  rewrite E in *. set (P := 2 ^ (21 * Z.of_nat (length l))) in *.
  assert (0 < P) as HP by (apply Z.pow_pos_nonneg; lia).
  rewrite (Z.mod_small (_ / P))
    by (split; [apply Z.div_pos; lia|apply Z.div_lt_upper_bound; lia]).
  eexists. split; [done|].
  destruct (digits_cells _ (le_val 256 s) 0 (length l) eq_refl) as [G V].
  subst c. unfold cells. split.
  - apply Forall2_app; [done|]. constructor; [|constructor]. cbn [lo hi].
    split; [apply Z.div_pos; lia|]. apply Z.lt_le_pred, Z.div_lt_upper_bound; lia.
  - rewrite value_app, V by (by rewrite length_map, length_seq, length_le_digits).
    cbn [value wt]. fold P. rewrite (Z.div_mod (le_val 256 s) P) at 3 by lia. lia.
Qed.

Definition cells_32 : list cell := Eval vm_compute in cells (2 ^ 25 - 1) 11.
Definition cells_64 : list cell := Eval vm_compute in cells (2 ^ 29 - 1) 23.

Lemma words_32_ok s :
  is_bytes s -> length s = 32%nat ->
  exists w, words_32 s = Some w /\ covers cells_32 w /\ value cells_32 w = le_val 256 s.
Proof. intros Hs Hl. apply (words_ok s loads_32 4 28 7); try rewrite Hl; (done || lia). Qed.

Lemma words_64_ok s :
  is_bytes s -> length s = 64%nat ->
  exists w, words_64 s = Some w /\ covers cells_64 w /\ value cells_64 w = le_val 256 s.
Proof. intros Hs Hl. apply (words_ok s loads_64 4 60 3); try rewrite Hl; (done || lia). Qed.

Definition zero_cell (i : nat) : cell := Cell 0 0 (2 ^ (21 * Z.of_nat i)).

Lemma append_zero a s i :
  covers a s -> covers (a ++ [zero_cell i]) (s ++ [0]) /\ value (a ++ [zero_cell i]) (s ++ [0]) = value a s.
Proof.
  intros G. split.
  - apply Forall2_app; [done|]. constructor; [cbn; lia|constructor].
  - rewrite value_app by (apply (Forall2_length _ _ _ G)). cbn [value wt zero_cell]. lia.
Qed.




(** ** The reduction of each function passes the analysis *)

Definition cells_product : list cell :=
  Eval vm_compute in default [] (scolumns 64 64 cells_32 cells_32 (weights 23) sc_columns).
Lemma wide_reduces : reduces (wide_steps ++ round_steps) cells_64 = true.
Proof. vm_compute. reflexivity. Qed.

Lemma narrow_reduces : reduces round_steps (cells_32 ++ [zero_cell 12]) = true.
Proof. vm_compute. reflexivity. Qed.

Lemma sum_reduces : reduces round_steps (cells_2 add_cell cells_32 cells_32 ++ [zero_cell 12]) = true.
Proof. vm_compute. reflexivity. Qed.

Lemma diff_reduces : reduces round_steps (cells_2 sub_cell cells_32 cells_32 ++ [zero_cell 12]) = true.
Proof. vm_compute. reflexivity. Qed.

Lemma product_reduces : reduces product_reduction (cells_product ++ [zero_cell 23]) = true.
Proof. vm_compute. reflexivity. Qed.

Lemma muladd_reduces :
  reduces product_reduction ((cells_2 add_cell cells_32 (take 12 cells_product)
    ++ drop 12 cells_product) ++ [zero_cell 23]) = true.
Proof. vm_compute. reflexivity. Qed.

Lemma mulsub_reduces :
  reduces product_reduction ((cells_2 sub_cell cells_32 (take 12 cells_product)
    ++ map neg_cell (drop 12 cells_product)) ++ [zero_cell 23]) = true.
Proof. vm_compute. reflexivity. Qed.

Lemma columns_analysed :
  scolumns 64 64 cells_32 cells_32 (weights 23) sc_columns = Some cells_product.
Proof. vm_compute. reflexivity. Qed.

Lemma columns_are_product :
  is_product 0 (monomials (weights 23) sc_columns) (map wt cells_32) (map wt cells_32) = true.
Proof. vm_compute. reflexivity. Qed.

(** Twelve words times twelve, column by column: the exact product. *)
Lemma sc_columns_ok x y :
  covers cells_32 x -> covers cells_32 y ->
  exists p, columns 64 64 sc_columns x y = Some p /\ covers cells_product p
    /\ value cells_product p = value cells_32 x * value cells_32 y.
Proof.
  intros Gx Gy.
  destruct (columns_product _ _ _ _ _ _ _ _ _ _ columns_analysed columns_are_product Gx Gy)
    as (p & E & G & V%eqm_0). eauto.
Qed.

(** ** What the functions return *)

Definition scalar (s : bytes) : Prop := is_bytes s /\ length s = 32%nat.

#[global] Instance scalar_dec s : Decision (scalar s).
Proof. unfold scalar. apply _. Defined.

(** The 32 bytes of a residue. *)
Definition residue (x : Z) : bytes := le_digits 256 32 (x mod ell).

(** The number of a scalar's bytes. *)
Abbreviation num := (le_val 256).

Lemma scalar_words s :
  scalar s -> exists w, words_32 s = Some w /\ covers cells_32 w /\ value cells_32 w = num s.
Proof. intros [Hs Hl]. by apply words_32_ok. Qed.

Ltac with_words s w :=
  match goal with H : scalar s |- _ =>
    let E := fresh "E" w in let G := fresh "G" w in let V := fresh "V" w in
    destruct (scalar_words s H) as (w & E & G & V); rewrite E; cbn [mbind option_bind] end.

Lemma sc_reduce_ok s :
  is_bytes s -> length s = 64%nat -> sc_reduce s = Some (residue (num s)).
Proof.
  intros Hs Hl. destruct (words_64_ok s Hs Hl) as (w & E & G & V).
  unfold sc_reduce. rewrite E. cbn [mbind option_bind].
  rewrite (reduces_finish _ _ _ wide_reduces G), V. done.
Qed.

Lemma sc_reduce32_ok s : scalar s -> sc_reduce32 s = Some (residue (num s)).
Proof.
  intros Hs. unfold sc_reduce32. with_words s w. destruct (append_zero _ _ 12 Gw) as [G0 V0].
  rewrite (reduces_finish _ _ _ narrow_reduces G0), V0, Vw. done.
Qed.

Lemma sc_add_ok a b : scalar a -> scalar b -> sc_add a b = Some (residue (num a + num b)).
Proof.
  intros Ha Hb. unfold sc_add. with_words a x. with_words b y.
  destruct (add_words 64 cells_32 cells_32 x y ltac:(by_eval) Gx Gy) as [-> G].
  cbn [mbind option_bind]. destruct (append_zero _ _ 12 G) as [G0 V0].
  rewrite (reduces_finish _ _ _ sum_reduces G0), V0.
  rewrite (value_2 _ _ 1), Vx, Vy by (done || (intros; lia)). by rewrite Z.mul_1_l.
Qed.

Lemma sc_sub_ok a b : scalar a -> scalar b -> sc_sub a b = Some (residue (num a - num b)).
Proof.
  intros Ha Hb. unfold sc_sub. with_words a x. with_words b y.
  destruct (sub_words 64 cells_32 cells_32 x y ltac:(by_eval) Gx Gy) as [-> G].
  cbn [mbind option_bind]. destruct (append_zero _ _ 12 G) as [G0 V0].
  rewrite (reduces_finish _ _ _ diff_reduces G0), V0.
  rewrite (value_2 _ _ (-1)), Vx, Vy by (done || (intros; lia)).
  by replace (num a + -1 * num b) with (num a - num b) by lia.
Qed.

Lemma sc_mul_ok a b : scalar a -> scalar b -> sc_mul a b = Some (residue (num a * num b)).
Proof.
  intros Ha Hb. unfold sc_mul. with_words a x. with_words b y.
  destruct (sc_columns_ok x y Gx Gy) as (p & -> & Gp & Vp). cbn [mbind option_bind].
  destruct (append_zero _ _ 23 Gp) as [G0 V0].
  rewrite (reduces_finish _ _ _ product_reduces G0), V0, Vp, Vx, Vy. done.
Qed.

Lemma sc_muladd_ok a b c :
  scalar a -> scalar b -> scalar c -> sc_muladd a b c = Some (residue (num c + num a * num b)).
Proof.
  intros Ha Hb Hc. unfold sc_muladd. with_words a x. with_words b y. with_words c z.
  destruct (sc_columns_ok x y Gx Gy) as (p & -> & Gp & Vp). cbn [mbind option_bind].
  rewrite (value_take 12) in Vp.
  assert (covers (take 12 cells_product) (take 12 p)) as Gl by by apply Forall2_take.
  assert (covers (drop 12 cells_product) (drop 12 p)) as Gh by by apply Forall2_drop.
  destruct (add_words 64 cells_32 (take 12 cells_product) z (take 12 p) ltac:(by_eval) Gz Gl) as [-> G].
  cbn [mbind option_bind]. rewrite app_assoc.
  destruct (append_zero _ _ 23 (Forall2_app G Gh)) as [G0 V0].
  rewrite (reduces_finish _ _ _ muladd_reduces G0), V0.
  rewrite value_app by (apply (Forall2_length _ _ _ G)).
  rewrite (value_2 _ _ 1), Vz by (done || (intros; lia)).
  rewrite <- Vx, <- Vy, <- Vp. unfold residue. do 3 f_equal. lia.
Qed.

Lemma sc_mulsub_ok a b c :
  scalar a -> scalar b -> scalar c -> sc_mulsub a b c = Some (residue (num c - num a * num b)).
Proof.
  intros Ha Hb Hc. unfold sc_mulsub. with_words a x. with_words b y. with_words c z.
  destruct (sc_columns_ok x y Gx Gy) as (p & -> & Gp & Vp). cbn [mbind option_bind].
  rewrite (value_take 12) in Vp.
  assert (covers (take 12 cells_product) (take 12 p)) as Gl by by apply Forall2_take.
  assert (covers (drop 12 cells_product) (drop 12 p)) as Gh by by apply Forall2_drop.
  destruct (sub_words 64 cells_32 (take 12 cells_product) z (take 12 p) ltac:(by_eval) Gz Gl) as [-> G].
  destruct (neg_words 64 (drop 12 cells_product) (drop 12 p) ltac:(by_eval) Gh) as (-> & Gn & Vn).
  cbn [mbind option_bind]. rewrite app_assoc.
  destruct (append_zero _ _ 23 (Forall2_app G Gn)) as [G0 V0].
  rewrite (reduces_finish _ _ _ mulsub_reduces G0), V0.
  rewrite value_app by (apply (Forall2_length _ _ _ G)).
  rewrite (value_2 _ _ (-1)), Vz, Vn by (done || (intros; lia)).
  rewrite <- Vx, <- Vy, <- Vp. unfold residue. do 3 f_equal. lia.
Qed.


(** ** Canonicity *)

Lemma residue_scalar x : scalar (residue x).
Proof.
  split; [|apply length_le_digits]. unfold residue.
  eapply Forall_impl; [apply (le_digits_range 256); lia|]. done.
Qed.

Lemma num_residue x : num (residue x) = x mod ell.
Proof.
  unfold residue. rewrite le_val_digits by lia. apply Z.mod_small.
  pose proof (Z.mod_pos_bound x ell ltac:(done)). unfold ell in *. lia.
Qed.

Lemma signum_sgn a : - 2 ^ 63 < a < 2 ^ 63 -> signum a = Z.sgn a.
Proof.
  intros Ha. unfold signum. rewrite !shiftr_div by lia.
  destruct (Z.compare_spec a 0) as [-> |H|H]; [done| |].
  - rewrite Z.sgn_neg by done.
    assert (a / 2 ^ 63 = -1) as -> by (symmetry; apply (Z.div_unique _ _ _ (a + 2 ^ 63)); lia).
    rewrite (Z.div_small (- a)) by lia. done.
  - rewrite Z.sgn_pos by done. rewrite (Z.div_small a) by lia.
    assert (- a / 2 ^ 63 = -1) as -> by (symmetry; apply (Z.div_unique _ _ _ (- a + 2 ^ 63)); lia).
    done.
Qed.

(** Comparing word by word, the most significant difference decides. *)
Fixpoint sign_sum (d : list Z) : Z :=
  match d with [] => 0 | x :: d => Z.sgn x + 2 * sign_sum d end.

Lemma sign_sum_sgn d :
  Forall (fun x => - 2 ^ 32 < x < 2 ^ 32) d -> Z.sgn (sign_sum d) = Z.sgn (le_val (2 ^ 32) d).
Proof.
  induction 1 as [|x d Hx Hd IH]; [done|]. cbn [sign_sum le_val].
  pose proof (Z.sgn_spec (sign_sum d)). pose proof (Z.sgn_spec (le_val (2 ^ 32) d)).
  pose proof (Z.sgn_spec x).
  destruct (Z.sgn_spec (Z.sgn x + 2 * sign_sum d)) as [[? ->]|[[? ->]|[? ->]]];
    destruct (Z.sgn_spec (x + 2 ^ 32 * le_val (2 ^ 32) d)) as [[? ->]|[[? ->]|[? ->]]]; lia.
Qed.

Definition check_words : list Z :=
  [1559614444; 1477600026; 2734136534; 350157278; 0; 0; 0; 268435456].

Lemma slices_digits s k n :
  map (fun i => slice (4 * i) 4 s) (seq k n)
  = le_digits (2 ^ 32) n (num s / 256 ^ (4 * Z.of_nat k)).
Proof.
  revert k. induction n as [|n IH]; intros k; [done|]. cbn [seq map le_digits].
  rewrite IH. unfold slice. replace (Z.of_nat (4 * k)) with (4 * Z.of_nat k) by lia.
  change (256 ^ Z.of_nat 4) with (2 ^ 32). do 2 f_equal.
  replace (4 * Z.of_nat (S k)) with (4 * Z.of_nat k + 4) by lia.
  rewrite Z.pow_add_r, <- Z.div_div by (try apply Z.pow_pos_nonneg; try apply Z.pow_nonzero; lia).
  done.
Qed.

Lemma sub_digits b l k : length l = length k -> le_val b (zip_with Z.sub l k) = le_val b l - le_val b k.
Proof.
  revert k. induction l as [|x l IH]; intros [|y k] E; cbn [zip_with le_val]; try done.
  rewrite IH by (by injection E). lia.
Qed.

Lemma sc_check_signs s :
  scalar s ->
  sc_check s = Some (sign_sum (zip_with Z.sub check_words (le_digits (2 ^ 32) 8 (num s))) ≫ 8).
Proof.
  intros [Hs Hl]. unfold sc_check.
  rewrite !load_4_slice by (done || lia). cbn [mbind option_bind].
  pose proof (slices_digits s 0 8) as E. change (256 ^ (4 * Z.of_nat 0)) with 1 in E.
  rewrite Z.div_1_r in E. rewrite <- E. clear E.
  cbn [map seq Nat.mul Nat.add check_words zip_with sign_sum].
  rewrite !shiftl_mul by lia.
  repeat match goal with |- context [slice ?o 4 s] =>
    let x := fresh "x" in let B := fresh "B" in
    pose proof (slice_range o 4 s) as B; set (x := slice o 4 s) in *; clearbody x;
    change (256 ^ Z.of_nat 4) with (2 ^ 32) in B end.
  rewrite !signum_sgn by lia. do 2 f_equal. lia.
Qed.

Lemma sub_digits_range l k :
  Forall (fun x => 0 <= x < 2 ^ 32) l -> Forall (fun x => 0 <= x < 2 ^ 32) k ->
  Forall (fun x => - 2 ^ 32 < x < 2 ^ 32) (zip_with Z.sub l k).
Proof.
  intros Hl. revert k. induction Hl as [|x l Hx Hl IH]; intros k Hk; [constructor|].
  destruct Hk as [|y k Hy Hk]; [constructor|]. constructor; [lia|]. by apply IH.
Qed.

Lemma sign_sum_range d : - (2 ^ Z.of_nat (length d)) < sign_sum d < 2 ^ Z.of_nat (length d).
Proof.
  induction d as [|x d IH]; cbn [sign_sum length]; [lia|].
  rewrite Nat2Z.inj_succ, Z.pow_succ_r by lia. pose proof (Z.sgn_spec x). lia.
Qed.

Lemma sc_check_ok s : scalar s -> sc_check s = Some (if num s <? ell then 0 else -1).
Proof.
  intros Hs. rewrite sc_check_signs by done. f_equal.
  set (d := zip_with _ _ _).
  assert (Z.sgn (sign_sum d) = Z.sgn (ell - 1 - num s)) as E.
  { unfold d. rewrite sign_sum_sgn.
    - f_equal. rewrite sub_digits by done. rewrite le_val_digits by done.
      rewrite Z.mod_small; [done|]. destruct Hs as [Hs Hl].
      pose proof (le_val_bound 256 ltac:(done) s Hs) as B. rewrite Hl in B. exact B.
    - apply sub_digits_range; [by_eval|]. by apply le_digits_range. }
  pose proof (sign_sum_range d) as R. rewrite shiftr_div by lia.
  change (length d) with 8%nat in R. clearbody d.
  destruct (Z.ltb_spec (num s) ell).
  - apply Z.div_small. split; [|lia]. apply Z.sgn_nonneg. rewrite E. apply Z.sgn_nonneg. lia.
  - assert (sign_sum d < 0) by (apply Z.sgn_neg_iff; rewrite E; apply Z.sgn_neg_iff; lia).
    symmetry. apply (Z.div_unique _ _ _ (sign_sum d + 256)); lia.
Qed.

Lemma lor_bytes_zero s a : is_bytes s -> 0 <= a < 256 ->
  0 <= foldl Z.lor a s < 256 /\ (foldl Z.lor a s = 0 <-> a = 0 /\ Forall (eq 0) s).
Proof.
  intros Hs. revert a. induction Hs as [|x s Hx Hs IH]; intros a Ha; cbn [foldl].
  { split; [done|]. split; [intros ->; by split|by intros [-> _]]. }
  destruct (IH (Z.lor a x)) as [B E].
  { apply (fits_lor 8); [done|exact Ha|exact Hx]. }
  split; [done|]. rewrite E, Z.lor_eq_0_iff, Forall_cons. intuition congruence.
Qed.

Lemma sc_isnonzero_ok s : is_bytes s -> sc_isnonzero s = if decide (Forall (eq 0) s) then 0 else 1.
Proof.
  intros Hs. unfold sc_isnonzero. destruct (lor_bytes_zero s 0 Hs ltac:(done)) as [B E].
  rewrite shiftr_div by lia. destruct (decide _) as [H|H].
  - rewrite (proj2 E) by done. done.
  - assert (foldl Z.lor 0 s <> 0) by (intros K; apply H; by apply E).
    rewrite Z.div_small by lia. done.
Qed.

(** ** The properties *)

(** C33. On every pair (triple) of 32-byte inputs, reduced or not, sc_add,
    sc_sub, sc_mul, sc_muladd and sc_mulsub finish without overflowing a
    64-bit word and return the 32 bytes of the least non-negative residue of
    a + b, a - b, ab, c + ab and c - ab modulo l. *)
Theorem scalar_arithmetic a b c :
  scalar a -> scalar b -> scalar c ->
  sc_add a b = Some (residue (num a + num b))
  /\ sc_sub a b = Some (residue (num a - num b))
  /\ sc_mul a b = Some (residue (num a * num b))
  /\ sc_muladd a b c = Some (residue (num c + num a * num b))
  /\ sc_mulsub a b c = Some (residue (num c - num a * num b)).
Proof.
  intros. split_and!; [by apply sc_add_ok|by apply sc_sub_ok|by apply sc_mul_ok
    |by apply sc_muladd_ok|by apply sc_mulsub_ok].
Qed.

(** sc_reduce of any 64 bytes and sc_reduce32 of any 32 bytes finish
    without overflow and return the least non-negative residue modulo l, so
    sc_reduce32 leaves a scalar as it is exactly when sc_check accepts it. *)
Theorem scalar_reduction s t :
  is_bytes s -> length s = 64%nat -> scalar t ->
  sc_reduce s = Some (residue (num s)) /\ sc_reduce32 t = Some (residue (num t))
  /\ (sc_reduce32 t = Some t <-> sc_check t = Some 0).
Proof.
  intros Hs Hl Ht. split; [by apply sc_reduce_ok|]. split; [by apply sc_reduce32_ok|].
  rewrite sc_reduce32_ok, sc_check_ok by done.
  assert (0 <= num t) by (apply (le_val_bound 256 ltac:(done) t), Ht).
  destruct (Z.ltb_spec (num t) ell) as [Hlt|Hge]; (split; intros E; [|]); try done.
  - f_equal. unfold residue. rewrite Z.mod_small by lia. destruct Ht as [Hb Hl'].
    rewrite <- Hl'. by apply le_digits_val.
  - injection E as E. pose proof (num_residue (num t)) as K. rewrite E in K.
    pose proof (Z.mod_pos_bound (num t) ell ltac:(done)). lia.
Qed.

(** sc_check accepts (returns 0) exactly the scalars below l and returns
    -1 on the others; every result of the scalar arithmetic is accepted; and
    sc_isnonzero is 0 on the all-zero scalar sc_0 and 1 on every other. *)
Theorem scalar_check s x :
  scalar s ->
  sc_check s = Some (if num s <? ell then 0 else -1)
  /\ sc_check (residue x) = Some 0
  /\ sc_isnonzero s = (if decide (s = sc_0) then 0 else 1).
Proof.
  intros Hs. split; [by apply sc_check_ok|]. split.
  - rewrite sc_check_ok by apply residue_scalar. rewrite num_residue.
    by rewrite (proj2 (Z.ltb_lt _ _)) by (apply Z.mod_pos_bound; done).
  - destruct Hs as [Hs Hl]. rewrite sc_isnonzero_ok by done.
    destruct (decide (Forall _ _)) as [H|H], (decide (s = sc_0)) as [H'|H']; try done.
    + destruct H'. unfold sc_0. symmetry. apply replicate_as_Forall. by split.
    + destruct H. rewrite H'. apply Forall_replicate. done.
Qed.

(** Concrete inputs. *)
Definition all_ones (n : nat) : bytes := replicate n 255.

Lemma scalar_arithmetic_witness :
  sc_muladd (all_ones 32) (all_ones 32) sc_0
  = Some (residue (num sc_0 + num (all_ones 32) * num (all_ones 32))).
Proof.
  apply (scalar_arithmetic (all_ones 32) (all_ones 32) sc_0); by_eval.
Defined.

Lemma scalar_reduction_witness :
  sc_reduce (all_ones 64) = Some (residue (num (all_ones 64))).
Proof. apply (scalar_reduction (all_ones 64) sc_0); by_eval. Defined.

Lemma scalar_check_witness : sc_check (all_ones 32) = Some (-1).
Proof. apply (scalar_check (all_ones 32) 0). by_eval. Defined.

End Scalar.
