(* ===== verification/Fe.v ===== *)
(** * The field of integers modulo 2^255 - 19

    src/crypto/crypto-ops.c: fe_0, fe_1, fe_add, fe_sub, fe_neg, fe_copy,
    fe_cmov, fe_mul, fe_sq, fe_sq2, fe_invert, fe_divpowm1, fe_tobytes,
    fe_isnegative, fe_isnonzero and the fe_frombytes part of the two
    decompression functions.  A field element is ten signed 32-bit words of
    alternately 26 and 25 bits.  The theorems: each operation computes its
    field operation, no word overflows as long as its arguments are sums of
    at most three reduced elements, results of products are reduced again, and
    the bytes of an element are those of its canonical residue. *)

From S2P Require Import Prelude Limbs Scalar.
Import Limbs.

Module Fe.

Definition p : Z := 2 ^ 255 - 19.

Abbreviation fe := (list Z).

(** ** Words *)

Definition widths : list Z := [26; 25; 26; 25; 26; 25; 26; 25; 26; 25].

Definition fe_0 : fe := [0; 0; 0; 0; 0; 0; 0; 0; 0; 0].
Definition fe_1 : fe := [1; 0; 0; 0; 0; 0; 0; 0; 0; 0].

Definition fe_add (f g : fe) : option fe := mapM (fun '(x, y) => sadd 32 x y) (zip f g).
Definition fe_sub (f g : fe) : option fe := mapM (fun '(x, y) => ssub 32 x y) (zip f g).
Definition fe_neg (f : fe) : option fe := mapM (ssub 32 0) f.
Definition fe_copy (f : fe) : fe := f.

(** Constant-time selection; the assertion stops the program for [b] not 0, 1. *)
Definition fe_cmov (f g : fe) (b : Z) : option fe :=
  let t1 := Z.land (u32 (b - 1)) (Z.lxor b (2 ^ 32 - 1)) in
  let t2 := Z.land (u32 (b - 2)) (Z.lxor (u32 (b - 1)) (2 ^ 32 - 1)) in
  if Z.lor t1 t2 =? 2 ^ 32 - 1 then
    let m := u32 (- b) in
    Some (zip_with (fun x y => Z.lxor x (swrap 32 (Z.land (u32 (Z.lxor x y)) m))) f g)
  else None.

(** ** Products *)

(** The rounded carry of word [i], the last one going round with a factor 19. *)
Definition carry_r (i : nat) : step :=
  let k := nth i widths 0 in
  if Nat.eqb i 9 then Carry (2 ^ (k - 1)) k 9 0 19 else Carry (2 ^ (k - 1)) k i (S i) 1.

Definition mul_steps : list step := map carry_r [0; 4; 1; 5; 2; 6; 3; 7; 4; 8; 9; 0]%nat.

(** The 64-bit words are stored into 32-bit ones. *)
Definition store (h : list Z) : option fe := mapM (word 32) h.

Definition fe_mul_columns : list (list term) :=
    [[Term 1 0 1 0; Term 2 1 19 9; Term 1 2 19 8; Term 2 3 19 7; Term 1 4 19 6;
      Term 2 5 19 5; Term 1 6 19 4; Term 2 7 19 3; Term 1 8 19 2; Term 2 9 19 1];
     [Term 1 0 1 1; Term 1 1 1 0; Term 1 2 19 9; Term 1 3 19 8; Term 1 4 19 7; Term 1 5 19 6;
      Term 1 6 19 5; Term 1 7 19 4; Term 1 8 19 3; Term 1 9 19 2];
     [Term 1 0 1 2; Term 2 1 1 1; Term 1 2 1 0; Term 2 3 19 9; Term 1 4 19 8; Term 2 5 19 7;
      Term 1 6 19 6; Term 2 7 19 5; Term 1 8 19 4; Term 2 9 19 3];
     [Term 1 0 1 3; Term 1 1 1 2; Term 1 2 1 1; Term 1 3 1 0; Term 1 4 19 9; Term 1 5 19 8;
      Term 1 6 19 7; Term 1 7 19 6; Term 1 8 19 5; Term 1 9 19 4];
     [Term 1 0 1 4; Term 2 1 1 3; Term 1 2 1 2; Term 2 3 1 1; Term 1 4 1 0; Term 2 5 19 9;
      Term 1 6 19 8; Term 2 7 19 7; Term 1 8 19 6; Term 2 9 19 5];
     [Term 1 0 1 5; Term 1 1 1 4; Term 1 2 1 3; Term 1 3 1 2; Term 1 4 1 1; Term 1 5 1 0;
      Term 1 6 19 9; Term 1 7 19 8; Term 1 8 19 7; Term 1 9 19 6];
     [Term 1 0 1 6; Term 2 1 1 5; Term 1 2 1 4; Term 2 3 1 3; Term 1 4 1 2; Term 2 5 1 1;
      Term 1 6 1 0; Term 2 7 19 9; Term 1 8 19 8; Term 2 9 19 7];
     [Term 1 0 1 7; Term 1 1 1 6; Term 1 2 1 5; Term 1 3 1 4; Term 1 4 1 3; Term 1 5 1 2;
      Term 1 6 1 1; Term 1 7 1 0; Term 1 8 19 9; Term 1 9 19 8];
     [Term 1 0 1 8; Term 2 1 1 7; Term 1 2 1 6; Term 2 3 1 5; Term 1 4 1 4; Term 2 5 1 3;
      Term 1 6 1 2; Term 2 7 1 1; Term 1 8 1 0; Term 2 9 19 9];
     [Term 1 0 1 9; Term 1 1 1 8; Term 1 2 1 7; Term 1 3 1 6; Term 1 4 1 5; Term 1 5 1 4;
      Term 1 6 1 3; Term 1 7 1 2; Term 1 8 1 1; Term 1 9 1 0]].

Definition fe_sq_columns : list (list term) :=
    [[Term 1 0 1 0; Term 2 1 38 9; Term 2 2 19 8; Term 2 3 38 7; Term 2 4 19 6;
      Term 1 5 38 5];
     [Term 2 0 1 1; Term 1 2 38 9; Term 2 3 19 8; Term 1 4 38 7; Term 2 5 19 6];
     [Term 2 0 1 2; Term 2 1 1 1; Term 2 3 38 9; Term 2 4 19 8; Term 2 5 38 7; Term 1 6 19 6];
     [Term 2 0 1 3; Term 2 1 1 2; Term 1 4 38 9; Term 2 5 19 8; Term 1 6 38 7];
     [Term 2 0 1 4; Term 2 1 2 3; Term 1 2 1 2; Term 2 5 38 9; Term 2 6 19 8; Term 1 7 38 7];
     [Term 2 0 1 5; Term 2 1 1 4; Term 2 2 1 3; Term 1 6 38 9; Term 2 7 19 8];
     [Term 2 0 1 6; Term 2 1 2 5; Term 2 2 1 4; Term 2 3 1 3; Term 2 7 38 9; Term 1 8 19 8];
     [Term 2 0 1 7; Term 2 1 1 6; Term 2 2 1 5; Term 2 3 1 4; Term 1 8 38 9];
     [Term 2 0 1 8; Term 2 1 2 7; Term 2 2 1 6; Term 2 3 2 5; Term 1 4 1 4; Term 1 9 38 9];
     [Term 2 0 1 9; Term 2 1 1 8; Term 2 2 1 7; Term 2 3 1 6; Term 2 4 1 5]].

Definition fe_mul (f g : fe) : option fe :=
  h ← columns 32 64 fe_mul_columns f g; h' ← run 64 mul_steps h; store h'.

Definition fe_sq (f : fe) : option fe :=
  h ← columns 32 64 fe_sq_columns f f; h' ← run 64 mul_steps h; store h'.

Definition fe_sq2 (f : fe) : option fe :=
  h ← columns 32 64 fe_sq_columns f f;
  h2 ← mapM (fun '(x, y) => sadd 64 x y) (zip h h);
  h' ← run 64 mul_steps h2; store h'.

(** ** Bytes *)

(** The quotient by p: q = (h_i + q) >> width, word after word. *)
Fixpoint quotient (ks h : list Z) (q : Z) : option Z :=
  match ks, h with
  | k :: ks, x :: h => t ← sadd 32 x q; quotient ks h (t ≫ k)
  | _, _ => Some q
  end.

Definition carry_f (i : nat) : step := Carry 0 (nth i widths 0) i (S i) 1.

Definition tobytes_steps : list step := map carry_f (seq 0 9) ++ [Chop 25 9].

Definition out_bytes : list packed :=
    [Pack 0 0; Pack 0 8; Pack 0 16; Pack2 0 24 2; Pack 1 6; Pack 1 14; Pack2 1 22 3;
     Pack 2 5; Pack 2 13; Pack2 2 21 5; Pack 3 3; Pack 3 11; Pack2 3 19 6; Pack 4 2;
     Pack 4 10; Pack 4 18; Pack 5 0; Pack 5 8; Pack 5 16; Pack2 5 24 1; Pack 6 7;
     Pack 6 15; Pack2 6 23 3; Pack 7 5; Pack 7 13; Pack2 7 21 4; Pack 8 4; Pack 8 12;
     Pack2 8 20 6; Pack 9 2; Pack 9 10; Pack 9 18].

Definition fe_tobytes (h : fe) : option bytes :=
  h9 ← h !! 9%nat; h0 ← h !! 0%nat;
  a ← smul 32 19 h9; b ← sadd 32 a (2 ^ 24);
  q ← quotient widths h (b ≫ 25);
  c ← smul 32 19 q; h0' ← sadd 32 h0 c;
  h' ← run 32 tobytes_steps (<[0%nat := h0']> h);
  pack out_bytes h'.

Definition fe_isnegative (f : fe) : option Z :=
  s ← fe_tobytes f; s0 ← s !! 0%nat; Some (Z.land s0 1).

Definition fe_isnonzero (f : fe) : option Z :=
  s ← fe_tobytes f; Some (Scalar.sc_isnonzero s).

(** The ten words read from 32 bytes; [top] is the mask of the last three bytes. *)
Definition load_fe (s : bytes) (top : Z) : option (list Z) :=
  h0 ← load_4 s 0; h1 ← load_3 s 4; h2 ← load_3 s 7; h3 ← load_3 s 10; h4 ← load_3 s 13;
  h5 ← load_4 s 16; h6 ← load_3 s 20; h7 ← load_3 s 23; h8 ← load_3 s 26; h9 ← load_3 s 29;
  Some [h0; h1 ≪ 6; h2 ≪ 5; h3 ≪ 3; h4 ≪ 2; h5; h6 ≪ 7; h7 ≪ 5; h8 ≪ 4; Z.land h9 top ≪ 2].

Definition frombytes_steps : list step := map carry_r [9; 1; 3; 5; 7; 0; 2; 4; 6; 8]%nat.

(** The canonicity test of ge_frombytes_vartime on those words. *)
Definition not_canonical (h : list Z) : bool :=
  match h with
  | [h0; h1; h2; h3; h4; h5; h6; h7; h8; h9] =>
      (h9 =? 33554428) && (h8 =? 268435440) && (h7 =? 536870880) && (h6 =? 2147483520)
      && (h5 =? 4294967295) && (h4 =? 67108860) && (h3 =? 134217720) && (h2 =? 536870880)
      && (h1 =? 1073741760) && (4294967277 <=? h0)
  | _ => false
  end.

Definition fe_frombytes (h : list Z) : option fe :=
  h' ← run 64 frombytes_steps h; store h'.

(** ** Powers *)

(** for(i = 0; i < n; ++i) fe_sq(f, f); *)
Fixpoint fe_sqs (n : nat) (f : fe) : option fe :=
  match n with
  | O => Some f
  | S n => f' ← fe_sq f; fe_sqs n f'
  end.

Definition fe_invert (z : fe) : option fe :=
  t0 ← fe_sq z;
  t1 ← fe_sq t0; t1 ← fe_sq t1;
  t1 ← fe_mul z t1;
  t0 ← fe_mul t0 t1;
  t2 ← fe_sq t0;
  t1 ← fe_mul t1 t2;
  t2 ← fe_sq t1; t2 ← fe_sqs 4 t2;
  t1 ← fe_mul t2 t1;
  t2 ← fe_sq t1; t2 ← fe_sqs 9 t2;
  t2 ← fe_mul t2 t1;
  t3 ← fe_sq t2; t3 ← fe_sqs 19 t3;
  t2 ← fe_mul t3 t2;
  t2 ← fe_sq t2; t2 ← fe_sqs 9 t2;
  t1 ← fe_mul t2 t1;
  t2 ← fe_sq t1; t2 ← fe_sqs 49 t2;
  t2 ← fe_mul t2 t1;
  t3 ← fe_sq t2; t3 ← fe_sqs 99 t3;
  t2 ← fe_mul t3 t2;
  t2 ← fe_sq t2; t2 ← fe_sqs 49 t2;
  t1 ← fe_mul t2 t1;
  t1 ← fe_sq t1; t1 ← fe_sqs 4 t1;
  fe_mul t1 t0.

Definition fe_divpowm1 (u v : fe) : option fe :=
  v3 ← fe_sq v; v3 ← fe_mul v3 v;
  uv7 ← fe_sq v3; uv7 ← fe_mul uv7 v; uv7 ← fe_mul uv7 u;
  t0 ← fe_sq uv7;
  t1 ← fe_sq t0; t1 ← fe_sq t1;
  t1 ← fe_mul uv7 t1;
  t0 ← fe_mul t0 t1;
  t0 ← fe_sq t0;
  t0 ← fe_mul t1 t0;
  t1 ← fe_sq t0; t1 ← fe_sqs 4 t1;
  t0 ← fe_mul t1 t0;
  t1 ← fe_sq t0; t1 ← fe_sqs 9 t1;
  t1 ← fe_mul t1 t0;
  t2 ← fe_sq t1; t2 ← fe_sqs 19 t2;
  t1 ← fe_mul t2 t1;
  t1 ← fe_sqs 10 t1;
  t0 ← fe_mul t1 t0;
  t1 ← fe_sq t0; t1 ← fe_sqs 49 t1;
  t1 ← fe_mul t1 t0;
  t2 ← fe_sq t1; t2 ← fe_sqs 99 t2;
  t1 ← fe_mul t2 t1;
  t1 ← fe_sqs 50 t1;
  t0 ← fe_mul t1 t0;
  t0 ← fe_sq t0; t0 ← fe_sq t0;
  t0 ← fe_mul t0 uv7;
  t0 ← fe_mul t0 v3;
  fe_mul t0 u.


(** ** Representation

    [rep k x h]: the ten words [h] stand for [x] modulo p and are at most
    [k] times the bounds of a reduced element (1.01 2^25 and 1.01 2^24). *)

Definition reduced : list Z :=
  [33889976; 16944988; 33889976; 16944988; 33889976; 16944988; 33889976; 16944988; 33889976; 16944988].

Definition fe_weights : list Z := Eval vm_compute in scales 1 widths.

Definition fe_cells (k : Z) : list cell :=
  zip_with (fun t w => Cell (- (k * t)) (k * t) w) reduced fe_weights.

Definition fval (h : fe) : Z := mixed widths h.

Definition rep (k x : Z) (h : fe) : Prop := covers (fe_cells k) h /\ eqm p (fval h) x.

Lemma covers_length a s : covers a s -> length s = length a.
Proof. intros G. symmetry. apply (Forall2_length _ _ _ G). Qed.

Lemma fe_value a h : map wt a = fe_weights -> covers a h -> value a h = fval h.
Proof.
  intros W G. rewrite (value_mixed 1 widths); [unfold fval; lia|by rewrite W|].
  rewrite (covers_length _ _ G), <- (length_map wt), W. done.
Qed.

Lemma wt_fe_cells k : map wt (fe_cells k) = fe_weights.
Proof. done. Qed.

Lemma rep_eqm k x y h : rep k x h -> eqm p x y -> rep k y h.
Proof. intros [G E] E'. split; [done|]. by eapply eqm_trans. Qed.

Lemma scaled_cells_mono k k' ts ws h :
  Forall (fun t => 0 <= t) ts -> k <= k' ->
  covers (zip_with (fun t w => Cell (- (k * t)) (k * t) w) ts ws) h ->
  covers (zip_with (fun t w => Cell (- (k' * t)) (k' * t) w) ts ws) h.
Proof.
  intros Ht Hk. revert ws h. induction Ht as [|t ts Ht Hts IH]; intros [|w ws] h G; try done.
  cbn [zip_with] in *. inversion G as [|c x a s B G']; subst.
  constructor; [cbn [lo hi] in *; nia|]. by apply IH.
Qed.

Lemma rep_mono k k' x h : rep k x h -> k <= k' -> rep k' x h.
Proof.
  intros [G E] Hk. split; [|done]. eapply scaled_cells_mono; [|done|exact G]. by_eval.
Qed.

Lemma fe_cells_add k k' : cells_2 add_cell (fe_cells k) (fe_cells k') = fe_cells (k + k').
Proof. unfold fe_cells, cells_2, add_cell. cbn [zip_with reduced fe_weights lo hi wt]. repeat (f_equal; try lia). Qed.

Lemma fe_cells_sub k k' : cells_2 sub_cell (fe_cells k) (fe_cells k') = fe_cells (k + k').
Proof. unfold fe_cells, cells_2, sub_cell. cbn [zip_with reduced fe_weights lo hi wt]. repeat (f_equal; try lia). Qed.

Lemma fe_cells_neg k : map neg_cell (fe_cells k) = fe_cells k.
Proof. unfold fe_cells, neg_cell. cbn [zip_with map reduced fe_weights lo hi wt]. repeat (f_equal; try lia). Qed.

(** Sums of up to 60 reduced elements stay within 32-bit words. *)
Lemma fe_cells_word k : 0 <= k <= 60 -> forallb (fun c => in_word 32 (lo c) (hi c)) (fe_cells k) = true.
Proof.
  intros Hk. apply forallb_forall. intros c Hc.
  assert (0 <= k * 33889976 < 2 ^ 31 /\ 0 <= k * 16944988 < 2 ^ 31) by lia.
  unfold fe_cells in Hc. cbn [zip_with reduced fe_weights] in Hc.
  unfold in_word. apply andb_true_intro. rewrite Z.leb_le, Z.ltb_lt.
  repeat (destruct Hc as [<- |Hc]; [cbn [lo hi]; change (2 ^ (32 - 1)) with (2 ^ 31); lia|]). done.
Qed.



(** ** Sums and products *)

Lemma fe_add_rep k k' x y f g :
  rep k x f -> rep k' y g -> 0 <= k + k' <= 60 ->
  exists h, fe_add f g = Some h /\ rep (k + k') (x + y) h.
Proof.
  intros [Gf Ef] [Gg Eg] Hk.
  destruct (add_words 32 (fe_cells k) (fe_cells k') f g) as [E G]; [|done..|].
  { rewrite fe_cells_add. by apply fe_cells_word. }
  exists (zip_with Z.add f g). split; [exact E|].
  rewrite fe_cells_add in G. split; [done|].
  rewrite <- (fe_value (fe_cells (k + k'))) by done. rewrite <- fe_cells_add.
  rewrite (value_2 _ _ 1) by (done || (intros; lia)).
  rewrite !fe_value by done. rewrite Ef, Eg. eqm_ring.
Qed.

Lemma fe_sub_rep k k' x y f g :
  rep k x f -> rep k' y g -> 0 <= k + k' <= 60 ->
  exists h, fe_sub f g = Some h /\ rep (k + k') (x - y) h.
Proof.
  intros [Gf Ef] [Gg Eg] Hk.
  destruct (sub_words 32 (fe_cells k) (fe_cells k') f g) as [E G]; [|done..|].
  { rewrite fe_cells_sub. by apply fe_cells_word. }
  exists (zip_with Z.sub f g). split; [exact E|].
  rewrite fe_cells_sub in G. split; [done|].
  rewrite <- (fe_value (fe_cells (k + k'))) by done. rewrite <- fe_cells_sub.
  rewrite (value_2 _ _ (-1)) by (done || (intros; lia)).
  rewrite !fe_value by done. rewrite Ef, Eg. eqm_ring.
Qed.

Lemma fe_neg_rep k x f :
  rep k x f -> 0 <= k <= 60 -> exists h, fe_neg f = Some h /\ rep k (- x) h.
Proof.
  intros [Gf Ef] Hk. destruct (neg_words 32 (fe_cells k) f) as (E & G & V); [|done|].
  { pose proof (fe_cells_word k Hk) as K. rewrite <- fe_cells_neg in K.
    rewrite forallb_forall in K |- *. intros c Hc. apply (K (neg_cell c)). by apply in_map. }
  exists (map Z.opp f). split; [exact E|]. rewrite fe_cells_neg in *. split; [done|].
  rewrite <- (fe_value (fe_cells k)), V, fe_value by done. by rewrite Ef.
Qed.

(** The words of a product, carried and stored, are somewhat below the bounds
    of a reduced element: a small constant can be added. *)
Definition tight_cells : list cell :=
  zip_with (fun t w => Cell (- t) t w)
    [33600000; 16800000; 33600000; 16800000; 33600000; 16800000; 33600000; 16800000; 33600000; 16800000]
    fe_weights.

Definition tight (x : Z) (h : fe) : Prop := covers tight_cells h /\ eqm p (fval h) x.

Lemma tight_wider : wider tight_cells (fe_cells 1) = true.
Proof. by vm_compute. Qed.

Lemma tight_rep x h : tight x h -> rep 1 x h.
Proof. intros [G E]. split; [|done]. by apply (wider_sound _ _ _ tight_wider). Qed.

Lemma tight_eqm x y h : tight x h -> eqm p x y -> tight y h.
Proof. intros [G E] E'. split; [done|]. by eapply eqm_trans. Qed.

Definition carried (ps : list step) (c : list cell) : bool :=
  match srun 64 p fe_weights ps c with
  | Some c' => wider c' tight_cells
  | None => false
  end.

Lemma store_ok k h : covers (fe_cells k) h -> 0 <= k <= 60 -> store h = Some h.
Proof.
  intros G Hk. pose proof (fe_cells_word k Hk) as K. unfold store. revert K.
  induction G as [|c x a s B G IH]; [done|]. cbn [forallb mapM]. intros [K1 K2]%andb_prop.
  rewrite (word_ok 32 _ _ x K1) by done. cbn [mbind option_bind]. by rewrite IH.
Qed.

Lemma carried_ok ps c h :
  carried ps c = true -> covers c h ->
  exists h', (h' ← run 64 ps h; store h') = Some h' /\ tight (value c h) h'.
Proof.
  unfold carried. destruct (srun 64 p fe_weights ps c) as [c'|] eqn:R; [|done]. intros Wd G.
  destruct (srun_sound _ _ _ _ _ _ _ R G) as (h' & -> & G' & V).
  destruct (wider_sound _ _ _ Wd G') as [G1 V1]. exists h'. cbn [mbind option_bind].
  assert (tight (value c h) h') as T by (split; [done|]; rewrite <- (fe_value tight_cells), V1 by done; done).
  split; [|done]. apply (store_ok 1); [apply (tight_rep _ _ T)|lia].
Qed.

Definition mul_cells : list cell :=
  Eval vm_compute in default [] (scolumns 32 64 (fe_cells 3) (fe_cells 3) fe_weights fe_mul_columns).
Definition sq_cells : list cell :=
  Eval vm_compute in default [] (scolumns 32 64 (fe_cells 3) (fe_cells 3) fe_weights fe_sq_columns).

Lemma mul_columns_analysed :
  scolumns 32 64 (fe_cells 3) (fe_cells 3) fe_weights fe_mul_columns = Some mul_cells.
Proof. vm_compute. reflexivity. Qed.

Lemma mul_columns_product :
  is_product p (monomials fe_weights fe_mul_columns) (map wt (fe_cells 3)) (map wt (fe_cells 3)) = true.
Proof. vm_compute. reflexivity. Qed.

Lemma mul_carried : carried mul_steps mul_cells = true.
Proof. vm_compute. reflexivity. Qed.

Lemma sq_columns_analysed :
  scolumns 32 64 (fe_cells 3) (fe_cells 3) fe_weights fe_sq_columns = Some sq_cells.
Proof. vm_compute. reflexivity. Qed.

Lemma sq_columns_square :
  is_square p (monomials fe_weights fe_sq_columns) (map wt (fe_cells 3)) = true.
Proof. vm_compute. reflexivity. Qed.

Lemma sq_carried : carried mul_steps sq_cells = true.
Proof. vm_compute. reflexivity. Qed.

Lemma sq2_carried : carried mul_steps (cells_2 add_cell sq_cells sq_cells) = true.
Proof. vm_compute. reflexivity. Qed.

Lemma fe_mul_tight k k' x y f g :
  rep k x f -> rep k' y g -> k <= 3 -> k' <= 3 ->
  exists h, fe_mul f g = Some h /\ tight (x * y) h.
Proof.
  intros Rf Rg Hk Hk'. destruct (rep_mono _ 3 _ _ Rf Hk) as [Gf Ef].
  destruct (rep_mono _ 3 _ _ Rg Hk') as [Gg Eg].
  destruct (columns_product _ _ _ _ _ _ _ _ _ _ mul_columns_analysed mul_columns_product Gf Gg)
    as (h & Eh & Gh & Vh).
  destruct (carried_ok _ _ _ mul_carried Gh) as (h' & E' & R).
  exists h'. unfold fe_mul. rewrite Eh. cbn [mbind option_bind]. split; [exact E'|].
  eapply tight_eqm; [exact R|]. rewrite Vh, !fe_value by done. by rewrite Ef, Eg.
Qed.

Lemma fe_mul_rep k k' x y f g :
  rep k x f -> rep k' y g -> k <= 3 -> k' <= 3 ->
  exists h, fe_mul f g = Some h /\ rep 1 (x * y) h.
Proof.
  intros Rf Rg Hk Hk'. destruct (fe_mul_tight k k' x y f g Rf Rg Hk Hk') as (h & E & T).
  exists h. split; [done|]. by apply tight_rep.
Qed.

Lemma fe_sq_tight k x f :
  rep k x f -> k <= 3 -> exists h, fe_sq f = Some h /\ tight (x * x) h.
Proof.
  intros Rf Hk. destruct (rep_mono _ 3 _ _ Rf Hk) as [Gf Ef].
  destruct (columns_square _ _ _ _ _ _ _ _ sq_columns_analysed sq_columns_square Gf)
    as (h & Eh & Gh & Vh).
  destruct (carried_ok _ _ _ sq_carried Gh) as (h' & E' & R).
  exists h'. unfold fe_sq. rewrite Eh. cbn [mbind option_bind]. split; [exact E'|].
  eapply tight_eqm; [exact R|]. rewrite Vh, !fe_value by done. by rewrite Ef.
Qed.

Lemma fe_sq_rep k x f :
  rep k x f -> k <= 3 -> exists h, fe_sq f = Some h /\ rep 1 (x * x) h.
Proof.
  intros Rf Hk. destruct (fe_sq_tight k x f Rf Hk) as (h & E & T).
  exists h. split; [done|]. by apply tight_rep.
Qed.

Lemma fe_sq2_tight k x f :
  rep k x f -> k <= 3 -> exists h, fe_sq2 f = Some h /\ tight (2 * (x * x)) h.
Proof.
  intros Rf Hk. destruct (rep_mono _ 3 _ _ Rf Hk) as [Gf Ef].
  destruct (columns_square _ _ _ _ _ _ _ _ sq_columns_analysed sq_columns_square Gf)
    as (h & Eh & Gh & Vh).
  destruct (add_words 64 sq_cells sq_cells h h ltac:(by_eval) Gh Gh) as [E2 G2].
  destruct (carried_ok _ _ _ sq2_carried G2) as (h' & E' & R).
  exists h'. unfold fe_sq2. rewrite Eh. cbn [mbind option_bind]. rewrite E2. split; [exact E'|].
  eapply tight_eqm; [exact R|]. rewrite (value_2 _ _ 1) by (done || (intros; lia)).
  rewrite Vh, !fe_value by done. rewrite Ef. eqm_ring.
Qed.

Lemma fe_sq2_rep k x f :
  rep k x f -> k <= 3 -> exists h, fe_sq2 f = Some h /\ rep 1 (2 * (x * x)) h.
Proof.
  intros Rf Hk. destruct (fe_sq2_tight k x f Rf Hk) as (h & E & T).
  exists h. split; [done|]. by apply tight_rep.
Qed.
(** *** Sums of products and small constants

    [within k e x h]: at most [k] times the bounds of a product, and [e]. *)

Definition near_cells (k e : Z) : list cell :=
  zip_with (fun t w => Cell (- (k * t + e)) (k * t + e) w)
    [33600000; 16800000; 33600000; 16800000; 33600000; 16800000; 33600000; 16800000; 33600000; 16800000]
    fe_weights.

Definition within (k e x : Z) (h : fe) : Prop := covers (near_cells k e) h /\ eqm p (fval h) x.

Lemma tight_within x h : tight x h -> within 1 0 x h.
Proof. done. Qed.

Lemma near_add k e k' e' :
  cells_2 add_cell (near_cells k e) (near_cells k' e') = near_cells (k + k') (e + e').
Proof. unfold near_cells, cells_2, add_cell. cbn [zip_with fe_weights lo hi wt]. repeat (f_equal; try lia). Qed.

Lemma near_sub k e k' e' :
  cells_2 sub_cell (near_cells k e) (near_cells k' e') = near_cells (k + k') (e + e').
Proof. unfold near_cells, cells_2, sub_cell. cbn [zip_with fe_weights lo hi wt]. repeat (f_equal; try lia). Qed.

Lemma near_word k e :
  0 <= k <= 4 -> 0 <= e < 2 ^ 20 ->
  forallb (fun c => in_word 32 (lo c) (hi c)) (near_cells k e) = true.
Proof.
  intros Hk He. apply forallb_forall. intros c Hc. unfold near_cells in Hc. cbn [zip_with fe_weights] in Hc.
  unfold in_word. apply andb_true_intro. rewrite Z.leb_le, Z.ltb_lt.
  repeat (destruct Hc as [<- |Hc]; [cbn [lo hi]; change (2 ^ (32 - 1)) with (2 ^ 31); lia|]). done.
Qed.

Lemma within_rep k e n x h :
  within k e x h -> k * 33600000 + e <= n * 33889976 -> k * 16800000 + e <= n * 16944988 -> rep n x h.
Proof.
  intros [G E] H1 H2. split; [|done]. revert G. unfold near_cells, fe_cells. cbn [zip_with reduced fe_weights].
  intros G. repeat (inversion G as [|? ? ? ? B G']; subst; clear G; rename G' into G; cbn [lo hi] in B;
    constructor; [cbn [lo hi]; clear - B H1 H2; lia|clear B]). inversion G. constructor.
Qed.

Lemma fe_add_within k e k' e' x y f g :
  within k e x f -> within k' e' y g -> 0 <= k + k' <= 4 -> 0 <= e + e' < 2 ^ 20 ->
  exists h, fe_add f g = Some h /\ within (k + k') (e + e') (x + y) h.
Proof.
  intros [Gf Ef] [Gg Eg] Hk He.
  destruct (add_words 32 (near_cells k e) (near_cells k' e') f g) as [E G]; [|done..|].
  { rewrite near_add. by apply near_word. }
  exists (zip_with Z.add f g). split; [exact E|]. rewrite near_add in G. split; [done|].
  rewrite <- (fe_value (near_cells (k + k') (e + e'))) by done. rewrite <- near_add.
  rewrite (value_2 _ _ 1) by (done || (intros; lia)). rewrite !fe_value by done. rewrite Ef, Eg. eqm_ring.
Qed.

Lemma fe_sub_within k e k' e' x y f g :
  within k e x f -> within k' e' y g -> 0 <= k + k' <= 4 -> 0 <= e + e' < 2 ^ 20 ->
  exists h, fe_sub f g = Some h /\ within (k + k') (e + e') (x - y) h.
Proof.
  intros [Gf Ef] [Gg Eg] Hk He.
  destruct (sub_words 32 (near_cells k e) (near_cells k' e') f g) as [E G]; [|done..|].
  { rewrite near_sub. by apply near_word. }
  exists (zip_with Z.sub f g). split; [exact E|]. rewrite near_sub in G. split; [done|].
  rewrite <- (fe_value (near_cells (k + k') (e + e'))) by done. rewrite <- near_sub.
  rewrite (value_2 _ _ (-1)) by (done || (intros; lia)). rewrite !fe_value by done. rewrite Ef, Eg. eqm_ring.
Qed.

(** ** Bytes of an element *)

Fixpoint squotient (ks : list Z) (a : list cell) (ql qh : Z) : option (Z * Z) :=
  match ks, a with
  | k :: ks, c :: a =>
      _ ← ensure (in_word 32 (lo c + ql) (hi c + qh) && (0 <=? k));
      squotient ks a ((lo c + ql) ≫ k) ((hi c + qh) ≫ k)
  | [], [] => Some (ql, qh)
  | _, _ => None
  end.

Lemma quotient_ok ks a h ql qh q r :
  squotient ks a ql qh = Some r -> covers a h -> ql <= q <= qh ->
  let q' := (mixed ks h + q) / 2 ^ offset ks (length ks) in
  quotient ks h q = Some q' /\ r.1 <= q' <= r.2 /\ 0 <= offset ks (length ks).
Proof.
  revert a h ql qh q. unfold offset. induction ks as [|k ks IH]; intros [|c a] h ql qh q E G Hq;
    cbn [squotient] in E; try done.
  { injection E as <-. inversion G; subst. cbn. rewrite Z.div_1_r. by split. }
  repeat sound_step. inversion G as [|c' x a' h' B G' Ha Hh]; subst. clear G.
  cbn [quotient mixed]. rewrite (sadd_ok 32 _ _ x q H) by lia. cbn [mbind option_bind].
  destruct (IH _ h' _ _ ((x + q) ≫ k) E G') as (-> & B' & O).
  { split; apply shiftr_mono; lia. }
  cbn [length take foldr] in *.
  assert ((x + 2 ^ k * mixed ks h' + q) / 2 ^ (k + foldr Z.add 0 (take (length ks) ks))
    = (mixed ks h' + (x + q) ≫ k) / 2 ^ foldr Z.add 0 (take (length ks) ks)) as ->; [|split; [done|]; split; [done|lia]].
  rewrite Z.pow_add_r, <- Z.div_div by (try apply Z.pow_pos_nonneg; try apply Z.pow_nonzero; lia).
  f_equal. rewrite shiftr_div by lia.
  replace (x + 2 ^ k * mixed ks h' + q) with (x + q + mixed ks h' * 2 ^ k) by lia.
  rewrite Z.div_add by (apply Z.pow_nonzero; lia). lia.
Qed.

Fixpoint digit_cells (ks : list Z) (a : list cell) : bool :=
  match ks, a with
  | k :: ks, c :: a => (0 <=? k) && (0 <=? lo c) && (hi c <? 2 ^ k) && digit_cells ks a
  | [], [] => true
  | _, _ => false
  end.

Lemma digit_cells_ok ks a s :
  digit_cells ks a = true -> covers a s -> ks <> [] ->
  digits ks s /\ 0 <= mixed ks s < 2 ^ offset ks (length ks) /\ 0 <= offset ks (length ks).
Proof.
  unfold offset. intros E G. revert ks E. induction G as [|c x a s B G IH]; intros [|k ks] E Hne; try done.
  cbn [digit_cells] in E. repeat sound_step. apply Z.ltb_lt in H1.
  cbn [length take foldr mixed].
  destruct ks as [|k' ks].
  - destruct G; [|done]. cbn. rewrite Z.add_0_r. split_and!; lia || done.
  - destruct (IH (k' :: ks) H0 ltac:(done)) as (D & M & O).
    split; [|].
    + destruct s as [|y s]; [done|]. split; [done|]. split; [lia|exact D].
    + rewrite Z.pow_add_r by lia. split; [|lia]. nia.
Qed.

(** The quotient the code computes is the integer part of V / p. *)
Lemma tobytes_quotient V h9 :
  - 2 ^ 231 <= V - 2 ^ 230 * h9 <= 2 ^ 231 -> - 2 ^ 26 <= h9 <= 2 ^ 26 ->
  0 <= V - p * ((V + (19 * h9 + 2 ^ 24) / 2 ^ 25) / 2 ^ 255) < p.
Proof.
  intros HV H9. unfold p.
  pose proof (Z.div_mod (19 * h9 + 2 ^ 24) (2 ^ 25) ltac:(done)) as E1.
  pose proof (Z.mod_pos_bound (19 * h9 + 2 ^ 24) (2 ^ 25) ltac:(done)) as B1.
  set (q1 := (19 * h9 + 2 ^ 24) / 2 ^ 25) in *.
  pose proof (Z.div_mod (V + q1) (2 ^ 255) ltac:(done)) as E2.
  pose proof (Z.mod_pos_bound (V + q1) (2 ^ 255) ltac:(done)) as B2.
  set (q := (V + q1) / 2 ^ 255) in *. clearbody q q1.
  set (m1 := _ mod 2 ^ 25) in *. set (m2 := _ mod 2 ^ 255) in *. clearbody m1 m2.
  lia.
Qed.

Definition tobytes_cells : list cell :=
  <[0%nat := Cell (- (3 * 33889976) - 76) (3 * 33889976 + 76) 1]> (fe_cells 3).

Definition tobytes_analysis : bool :=
  match srun 32 (2 ^ 255) fe_weights tobytes_steps tobytes_cells with
  | Some c => digit_cells widths c && bool_decide (map wt c = fe_weights)
  | None => false
  end.

Lemma tobytes_analysed : tobytes_analysis = true.
Proof. vm_compute. reflexivity. Qed.

Lemma quotient_analysed :
  exists r, squotient widths (fe_cells 3) (-63) 64 = Some r /\ -4 <= r.1 /\ r.2 <= 4.
Proof. eexists. split; [vm_compute; reflexivity|]. by cbn. Qed.

Lemma fe_words k h :
  covers (fe_cells k) h ->
  exists h0 h9, h !! 0%nat = Some h0 /\ h !! 9%nat = Some h9
    /\ - (k * 33889976) <= h0 <= k * 33889976 /\ - (k * 16944988) <= h9 <= k * 16944988.
Proof.
  intros G. destruct (covers_lookup _ _ 9 _ G eq_refl) as (h9 & H9 & B9).
  destruct (covers_lookup _ _ 0 _ G eq_refl) as (h0 & H0 & B0). by exists h0, h9.
Qed.

(** What the words below the last contribute. *)
Lemma low_words h h9 :
  covers (fe_cells 3) h -> h !! 9%nat = Some h9 ->
  - 2 ^ 231 <= fval h - 2 ^ 230 * h9 <= 2 ^ 231.
Proof.
  intros G H9. set (c := Cell (- (3 * 16944988)) (3 * 16944988) 0).
  destruct (covers_lookup _ _ 9 _ G eq_refl) as (x & Hx & Bx). rewrite H9 in Hx. injection Hx as <-.
  assert (covers (<[9%nat := c]> (fe_cells 3)) (<[9%nat := h9]> h)) as G'
    by by apply covers_insert.
  apply value_range in G'. erewrite value_insert in G' by done.
  rewrite (fe_value (fe_cells 3)) in G' by done. cbn [wt c] in G'.
  assert (- 2 ^ 231 <= low_value (<[9%nat := c]> (fe_cells 3))) by by_eval.
  assert (high_value (<[9%nat := c]> (fe_cells 3)) <= 2 ^ 231) by by_eval.
  lia.
Qed.

(** The carries of fe_tobytes give the residue its digits. *)
Lemma tobytes_carries h h0 q :
  covers (fe_cells 3) h -> h !! 0%nat = Some h0 -> -4 <= q <= 4 -> 0 <= fval h - p * q < p ->
  exists h', run 32 tobytes_steps (<[0%nat := h0 + 19 * q]> h) = Some h'
    /\ digits widths h' /\ mixed widths h' = fval h mod p.
Proof.
  intros G H0 Hq Q. pose proof tobytes_analysed as A. unfold tobytes_analysis in A.
  destruct (srun 32 (2 ^ 255) fe_weights tobytes_steps tobytes_cells) as [c|] eqn:Rc; [|done].
  apply andb_prop in A as [D W%bool_decide_eq_true].
  destruct (covers_lookup _ _ 0 _ G eq_refl) as (x & Hx & Bx). rewrite H0 in Hx. injection Hx as <-.
  assert (covers tobytes_cells (<[0%nat := h0 + 19 * q]> h)) as Gt
    by (apply covers_insert; [done|cbn [lo hi] in *; lia]).
  destruct (srun_sound _ _ _ _ _ _ _ Rc Gt) as (h' & R & G' & V').
  destruct (digit_cells_ok _ _ _ D G' ltac:(done)) as (Dg & M & _).
  exists h'. split_and!; [done..|].
  rewrite (fe_value c) in V' by done. unfold tobytes_cells in V'.
  erewrite value_insert, (fe_value (fe_cells 3)) in V' by done. cbn [wt] in V'.
  unfold eqm in V'. rewrite Z.mod_small in V' by exact M.
  unfold fval in V' at 1. rewrite V'.
  transitivity (fval h - p * q).
  - symmetry. apply (Z.mod_unique_pos _ _ q); [unfold p in *; lia|]. unfold p. lia.
  - apply (Z.mod_unique_pos _ _ q); [done|lia].
Qed.

Lemma fe_tobytes_ok x h :
  rep 3 x h -> fe_tobytes h = Some (le_digits 256 32 (x mod p)).
Proof.
  intros [G Ex]. destruct (fe_words _ _ G) as (h0 & h9 & H0 & H9 & B0 & B9).
  unfold fe_tobytes. rewrite H9, H0. cbn [mbind option_bind].
  rewrite (smul_ok 32 (- 2 ^ 30) (2 ^ 30)) by (done || lia). cbn [mbind option_bind].
  rewrite (sadd_ok 32 (- 2 ^ 30) (2 ^ 30 + 2 ^ 29)) by (done || lia). cbn [mbind option_bind].
  assert (-63 <= (19 * h9 + 2 ^ 24) ≫ 25 <= 64) as B1 by (rewrite shiftr_div by lia; dlia).
  destruct quotient_analysed as (r & Er & R1 & R2).
  destruct (quotient_ok _ _ h _ _ _ _ Er G B1) as (-> & Bq & _). cbn [mbind option_bind].
  change (offset widths (length widths)) with 255 in *. fold (fval h) in *.
  rewrite shiftr_div in * by lia.
  pose proof (tobytes_quotient (fval h) h9 (low_words h h9 G H9) ltac:(lia)) as Q.
  set (q := (fval h + (19 * h9 + 2 ^ 24) / 2 ^ 25) / 2 ^ 255) in *. clearbody q.
  assert (-4 <= q <= 4) as Bq' by (clear Q Er; lia).
  rewrite (smul_ok 32 (- 2 ^ 10) (2 ^ 10) 19 q eq_refl ltac:(clear - Bq'; lia)). cbn [mbind option_bind].
  rewrite (sadd_ok 32 (- 2 ^ 30) (2 ^ 30) h0 (19 * q) eq_refl ltac:(clear - Bq' B0; lia)). cbn [mbind option_bind].
  destruct (tobytes_carries h h0 q G H0 Bq' Q) as (h' & -> & D & M).
  cbn [mbind option_bind]. rewrite (pack_sound widths) by (done || by_eval).
  rewrite M. unfold eqm in Ex. by rewrite Ex.
Qed.



Lemma fe_isnegative_ok x h : rep 3 x h -> fe_isnegative h = Some ((x mod p) mod 2).
Proof.
  intros R. unfold fe_isnegative. rewrite (fe_tobytes_ok x) by done. cbn [mbind option_bind].
  cbn [le_digits lookup list_lookup mbind option_bind]. f_equal.
  change 1 with (2 ^ 1 - 1). rewrite land_mask by lia.
  change 256 with (2 * 128). change (2 ^ 1) with 2. rewrite Z.rem_mul_r by lia.
  rewrite Z.mul_comm, Z_mod_plus_full. apply Zmod_mod.
Qed.

Lemma residue_bytes x : is_bytes (le_digits 256 32 (x mod p)).
Proof. eapply Forall_impl; [apply (le_digits_range 256); lia|]. done. Qed.

Lemma num_residue_p x : le_val 256 (le_digits 256 32 (x mod p)) = x mod p.
Proof.
  rewrite le_val_digits by lia. apply Z.mod_small.
  pose proof (Z.mod_pos_bound x p ltac:(done)). unfold p in *. lia.
Qed.

Lemma fe_isnonzero_ok x h :
  rep 3 x h -> fe_isnonzero h = Some (if decide (eqm p x 0) then 0 else 1).
Proof.
  intros R. unfold fe_isnonzero. rewrite (fe_tobytes_ok x) by done. cbn [mbind option_bind]. f_equal.
  rewrite Scalar.sc_isnonzero_ok by apply residue_bytes.
  destruct (decide (Forall _ _)) as [H|H], (decide (eqm p x 0)) as [H'|H']; try done.
  - destruct H'. unfold eqm. rewrite <- (num_residue_p x), Zmod_0_l.
    rewrite <- (proj2 (replicate_as_Forall 0 32 _)); [by rewrite le_val_zeros|].
    split; [apply length_le_digits|done].
  - destruct H. unfold eqm in H'. rewrite H', Zmod_0_l, le_digits_0 by lia. by apply Forall_replicate.
Qed.

(** ** Reading an element *)

Definition load_cells (t : Z) : list cell :=
  zip_with (fun h w => Cell 0 h w)
    [4294967295; 1073741760; 536870880; 134217720; 67108860; 4294967295; 2147483520; 536870880;
     268435440; (2 ^ t - 1) * 4] fe_weights.

Lemma load_carried : carried frombytes_steps (load_cells 24) = true.
Proof. vm_compute. reflexivity. Qed.

(** Consecutive slices, the first starting at [o], add up. *)
Fixpoint slice_sum (s : bytes) (o : nat) (ns : list nat) : Z :=
  match ns with
  | [] => 0
  | n :: ns => 256 ^ Z.of_nat o * slice o n s + slice_sum s (o + n) ns
  end.

Lemma slice_sum_ok s o ns :
  le_val 256 s mod 256 ^ Z.of_nat o + slice_sum s o ns
  = le_val 256 s mod 256 ^ Z.of_nat (foldl Nat.add o ns).
Proof.
  revert o. induction ns as [|n ns IH]; intros o; cbn [slice_sum foldl]; [lia|].
  rewrite <- IH, Nat2Z.inj_add, Z.pow_add_r, Z.rem_mul_r by (try apply Z.pow_pos_nonneg; try apply Z.pow_nonzero; lia).
  unfold slice. lia.
Qed.

Lemma load_fe_ok s t :
  is_bytes s -> length s = 32%nat -> 23 <= t <= 24 ->
  exists h, load_fe s (2 ^ t - 1) = Some h /\ covers (load_cells t) h
    /\ fval h = le_val 256 s mod 2 ^ (232 + t).
Proof.
  intros Hs Hl Ht. unfold load_fe.
  rewrite !load_4_slice, !load_3_slice by (done || lia). cbn [mbind option_bind].
  eexists. split; [done|].
  assert (Z.land (slice 29 3 s) (2 ^ t - 1) = (le_val 256 s / 2 ^ 232) mod 2 ^ t) as ->.
  { rewrite land_mask by lia. unfold slice. apply Z.mod_mod_divide.
    exists (2 ^ (24 - t)). rewrite <- Z.pow_add_r by lia. change (256 ^ Z.of_nat 3) with (2 ^ 24).
    f_equal. lia. }
  assert (0 <= (le_val 256 s / 2 ^ 232) mod 2 ^ t < 2 ^ t) as B9
    by (apply Z.mod_pos_bound, Z.pow_pos_nonneg; lia).
  rewrite Z.pow_add_r, Z.rem_mul_r by (try apply Z.pow_pos_nonneg; lia).
  set (h9 := (le_val 256 s / 2 ^ 232) mod 2 ^ t) in *. clearbody h9.
  pose proof (slice_sum_ok s 0 [4; 3; 3; 3; 3; 4; 3; 3; 3]%nat) as E.
  cbn [slice_sum foldl Nat.add] in E. change (256 ^ Z.of_nat 29) with (2 ^ 232) in E.
  change (256 ^ Z.of_nat 0) with 1 in E at 1. rewrite Z.mod_1_r in E. rewrite <- E. clear E.
  rewrite !shiftl_mul by lia.
  repeat match goal with |- context [slice ?o ?n s] =>
    let y := fresh "y" in let B := fresh "B" in
    pose proof (slice_range o n s) as B; set (y := slice o n s) in *; clearbody y;
    cbn [Z.of_nat Pos.of_succ_nat Pos.succ] in B end.
  split.
  - repeat constructor; cbn [lo hi]; lia.
  - unfold fval. cbn [mixed widths]. cbn [Z.of_nat Pos.of_succ_nat Pos.succ]. lia.
Qed.



Lemma fe_frombytes_ok t h :
  covers (load_cells t) h -> t = 23 \/ t = 24 -> exists f, fe_frombytes h = Some f /\ rep 1 (fval h) f.
Proof.
  intros G Ht. assert (covers (load_cells 24) h) as G'.
  { destruct Ht as [-> | ->]; [|done]. apply (wider_sound (load_cells 23) (load_cells 24) h); [by vm_compute|done]. }
  destruct (carried_ok _ _ _ load_carried G') as (f & E & R).
  exists f. split; [exact E|]. apply tight_rep. by rewrite fe_value in R.
Qed.

(** The canonicity test rejects exactly the numbers from p to 2^255 - 1. *)
Lemma not_canonical_ok h :
  covers (load_cells 23) h -> not_canonical h = bool_decide (p <= fval h).
Proof.
  intros G. unfold fval, load_cells in *. cbn [zip_with fe_weights] in G.
  do 10 (inversion G as [|? ? ? ? B G']; subst; clear G; rename G' into G; cbn [lo hi] in B;
    let B' := fresh "B" in rename B into B').
  inversion G; subst. clear G. cbn [mixed widths not_canonical].
  apply eq_bool_prop_intro. rewrite bool_decide_spec, Is_true_true.
  rewrite !andb_true_iff, !Z.eqb_eq, Z.leb_le. unfold p.
  split; [intros; lia|]. intros Hge. split_and!; lia.
Qed.

(** ** Selection *)

Definition in_int32 (h : fe) : Prop := Forall (fun x => - 2 ^ 31 <= x < 2 ^ 31) h.

Lemma rep_int32 k x h : rep k x h -> 0 <= k <= 60 -> in_int32 h.
Proof.
  intros [G _] Hk. pose proof (fe_cells_word k Hk) as K. unfold in_int32. revert K.
  induction G as [|c y a s B G IH]; [constructor|]. cbn [forallb]. intros [K1 K2]%andb_prop.
  constructor; [|by apply IH]. unfold in_word in K1. repeat sound_step. apply Z.ltb_lt in H0.
  change (2 ^ (32 - 1)) with (2 ^ 31) in *. lia.
Qed.

Lemma swrap_wrap x : swrap 32 (u32 x) = swrap 32 x.
Proof.
  unfold swrap, wrap. f_equal. rewrite Z.add_mod_idemp_l by done. done.
Qed.

Lemma int32_shift x : - 2 ^ 31 <= x < 2 ^ 31 <-> x ≫ 31 = 0 \/ x ≫ 31 = -1.
Proof. rewrite shiftr_div by lia. dlia. Qed.

Lemma lxor_int32 x y :
  - 2 ^ 31 <= x < 2 ^ 31 -> - 2 ^ 31 <= y < 2 ^ 31 -> - 2 ^ 31 <= Z.lxor x y < 2 ^ 31.
Proof.
  rewrite !int32_shift, Z.shiftr_lxor. intros [-> | ->] [-> | ->]; cbn; auto.
Qed.

Lemma fe_cmov_ok f g b :
  in_int32 f -> in_int32 g -> length f = length g -> b = 0 \/ b = 1 ->
  fe_cmov f g b = Some (if b =? 1 then g else f).
Proof.
  intros Hf Hg Hl Hb. unfold fe_cmov.
  assert (forall m, m = 0 \/ m = 2 ^ 32 - 1 ->
    zip_with (fun x y => Z.lxor x (swrap 32 (Z.land (u32 (Z.lxor x y)) m))) f g
    = if m =? 0 then f else g) as K.
  { intros m Hm. clear Hb. revert g Hg Hl. induction Hf as [|x f Hx Hf IH]; intros [|y g] Hg Hl; try done.
    { by destruct (m =? 0). }
    inversion Hg as [|? ? Hy Hg']; subst. cbn [zip_with].
    rewrite (IH g Hg') by (by injection Hl). destruct Hm as [-> | ->].
    - rewrite Z.land_0_r, Z.lxor_0_r. done.
    - rewrite land_mask by lia. unfold wrap. rewrite Zmod_mod. fold (u32 (Z.lxor x y)).
      rewrite swrap_wrap, swrap_small by (done || by apply lxor_int32).
      by rewrite <- Z.lxor_assoc, Z.lxor_nilpotent, Z.lxor_0_l. }
  destruct Hb as [-> | ->]; cbn -[zip_with]; (rewrite K; [done|]); by (left + right).
Qed.

Lemma fe_cmov_rep k x y f g b :
  rep k x f -> rep k y g -> 0 <= k <= 60 -> b = 0 \/ b = 1 ->
  exists h, fe_cmov f g b = Some h /\ rep k (if b =? 1 then y else x) h.
Proof.
  intros Rf Rg Hk Hb. rewrite fe_cmov_ok; [|by eapply rep_int32..| |done].
  - eexists. split; [done|]. by destruct (b =? 1).
  - by rewrite (covers_length _ _ (proj1 Rf)), (covers_length _ _ (proj1 Rg)).
Qed.

(** ** Powers *)

Lemma fe_sqs_rep n x f :
  rep 1 x f -> exists h, fe_sqs n f = Some h /\ rep 1 (x ^ 2 ^ Z.of_nat n) h.
Proof.
  revert x f. induction n as [|n IH]; intros x f R; cbn [fe_sqs].
  { exists f. by rewrite Z.pow_1_r. }
  destruct (fe_sq_rep 1 x f R ltac:(lia)) as (g & -> & Rg). cbn [mbind option_bind].
  destruct (IH _ _ Rg) as (h & E & Rh). exists h. split; [done|].
  rewrite Nat2Z.inj_succ, Z.pow_succ_r, Z.pow_mul_r by lia. by rewrite Z.pow_2_r.
Qed.

(** The operations on powers of one element. *)
Definition pw (z : Z) (e : positive) : Z := z ^ Z.pos e.

Lemma pw_add z a b : pw z (a + b) = pw z a * pw z b.
Proof. unfold pw. rewrite Pos2Z.inj_add, Z.pow_add_r by lia. done. Qed.

Lemma pw_1 z : pw z 1 = z.
Proof. apply Z.pow_1_r. Qed.

Lemma pw_iter n z a : pw z (Nat.iter n xO a) = pw z a ^ 2 ^ Z.of_nat n.
Proof.
  unfold pw. rewrite <- Z.pow_mul_r by lia. f_equal.
  induction n as [|n IH]; [cbn; lia|]. rewrite Nat2Z.inj_succ, Z.pow_succ_r by lia.
  change (Z.pos (Nat.iter (S n) xO a)) with (2 * Z.pos (Nat.iter n xO a)). lia.
Qed.

#[local] Opaque pw.

Lemma fe_mul_pow z a b k k' f g :
  rep k (pw z a) f -> rep k' (pw z b) g -> k <= 3 -> k' <= 3 ->
  exists h, fe_mul f g = Some h /\ rep 1 (pw z (a + b)) h.
Proof. intros. rewrite pw_add. by eapply fe_mul_rep. Qed.

Lemma fe_sq_pow z a k f :
  rep k (pw z a) f -> k <= 3 -> exists h, fe_sq f = Some h /\ rep 1 (pw z (a + a)) h.
Proof. intros. rewrite pw_add. by eapply fe_sq_rep. Qed.

Lemma fe_sqs_pow n z a f :
  rep 1 (pw z a) f -> exists h, fe_sqs n f = Some h /\ rep 1 (pw z (Nat.iter n xO a)) h.
Proof. intros. rewrite pw_iter. by apply fe_sqs_rep. Qed.

(** One statement of a chain of products and squares. *)
Ltac pow_step z :=
  let h := fresh "t" in let E := fresh "E" in let R := fresh "R" in
  match goal with
  | Hf : rep ?k (pw z ?a) ?f, Hg : rep ?k' (pw z ?b) ?g |- context [fe_mul ?f ?g] =>
      destruct (fe_mul_pow z a b k k' f g Hf Hg ltac:(lia) ltac:(lia)) as (h & E & R)
  | Hf : rep ?k (pw z ?a) ?f |- context [fe_sq ?f] =>
      destruct (fe_sq_pow z a k f Hf ltac:(lia)) as (h & E & R)
  | Hf : rep 1 (pw z ?a) ?f |- context [fe_sqs ?n ?f] =>
      destruct (fe_sqs_pow n z a f Hf) as (h & E & R)
  end;
  match type of R with rep 1 (pw z ?e) _ =>
    let e' := eval vm_compute in e in change e with e' in R end;
  rewrite E; clear E; cbn [mbind option_bind].

Lemma fe_invert_pow z f :
  rep 3 (pw z 1) f ->
  exists h, fe_invert f = Some h /\ rep 1 (pw z (Z.to_pos (p - 2))) h.
Proof.
  intros R. unfold fe_invert. repeat pow_step z. eexists. split; [done|]. done.
Qed.



Lemma fe_divpowm1_pow u v f g :
  rep 3 u f -> rep 3 (pw v 1) g ->
  exists h, fe_divpowm1 f g = Some h
    /\ rep 1 (pw (pw v 7 * u) (Z.to_pos ((p - 5) / 8)) * pw v 3 * u) h.
Proof.
  intros Ru Rv. unfold fe_divpowm1. do 4 pow_step v.
  destruct (fe_mul_rep 1 3 _ u t2 f R2 Ru ltac:(lia) ltac:(lia)) as (t3 & E & R3).
  rewrite E. clear E. cbn [mbind option_bind].
  rewrite <- (pw_1 (pw v 7 * u)) in R3. set (z := pw v 7 * u) in *. clearbody z. clear R R1 R2.
  repeat pow_step z.
  match goal with |- context [fe_mul ?t t0] => match goal with R : rep 1 (pw z ?e) t |- _ =>
    destruct (fe_mul_rep 1 1 (pw z e) (pw v 3) t t0 R R0 ltac:(lia) ltac:(lia)) as (h1 & E & S1);
    rewrite E; clear E; cbn [mbind option_bind];
    destruct (fe_mul_rep 1 3 _ u h1 f S1 Ru ltac:(lia) ltac:(lia)) as (h2 & E & S2) end end.
  exists h2. split; [done|]. exact S2.
Qed.

#[local] Transparent pw.

Lemma fe_invert_rep k z f :
  rep k z f -> k <= 3 -> exists h, fe_invert f = Some h /\ rep 1 (z ^ (p - 2)) h.
Proof.
  intros R Hk. apply fe_invert_pow. rewrite pw_1. by apply (rep_mono k).
Qed.

Lemma fe_divpowm1_rep k k' u v f g :
  rep k u f -> rep k' v g -> k <= 3 -> k' <= 3 ->
  exists h, fe_divpowm1 f g = Some h
    /\ rep 1 (u * v ^ 3 * (u * v ^ 7) ^ ((p - 5) / 8)) h.
Proof.
  intros Ru Rv Hk Hk'. destruct (fe_divpowm1_pow u v f g) as (h & E & R).
  - by apply (rep_mono k).
  - rewrite pw_1. by apply (rep_mono k').
  - exists h. split; [done|]. eapply rep_eqm; [exact R|]. apply eqm_eq. unfold pw.
    change (Z.pos (Z.to_pos ((p - 5) / 8))) with ((p - 5) / 8).
    rewrite (Z.mul_comm (v ^ 7) u). set (w := (u * v ^ 7) ^ _). clearbody w. lia.
Qed.
End Fe.
