(* ===== verification/Ge.v ===== *)
(** * Points of the twisted Edwards curve -x^2 + y^2 = 1 + d x^2 y^2

    src/crypto/crypto-ops.c: the ge_* functions (addition, doubling,
    conversions between coordinate systems, selection, compression and
    decompression) over the field elements of Fe.v, with the constants of
    crypto-ops-data.c.  A point is held in projective (ge_p2), extended
    (ge_p3), completed (ge_p1p1) or cached coordinates; the theorems say what
    affine point each result stands for. *)

From S2P Require Import Prelude Limbs Fe.
Import Limbs Fe.

Module Ge.

Record ge_p2 := P2 { p2_X : fe; p2_Y : fe; p2_Z : fe }.
Record ge_p3 := P3 { p3_X : fe; p3_Y : fe; p3_Z : fe; p3_T : fe }.
Record ge_p1p1 := P1P1 { p1_X : fe; p1_Y : fe; p1_Z : fe; p1_T : fe }.
Record ge_precomp := Precomp { yplusx : fe; yminusx : fe; xy2d : fe }.
Record ge_cached := Cached { YplusX : fe; YminusX : fe; c_Z : fe; T2d : fe }.

(** ** Constants *)

Definition fe_d : fe :=
  [-10913610; 13857413; -15372611; 6949391; 114729; -8787816; -6275908; -3247719; -18696448; -12055116].
Definition fe_sqrtm1 : fe :=
  [-32595792; -7943725; 9377950; 3500415; 12389472; -272473; -25146209; -2005654; 326686; 11406482].
Definition fe_d2 : fe :=
  [-21827239; -5839606; -30745221; 13898782; 229458; 15978800; -12551817; -6495438; 29715968; 9444199].

Definition fe_ma2 : fe := [-12721188; -3529; 0; 0; 0; 0; 0; 0; 0; 0].
Definition fe_ma : fe := [-486662; 0; 0; 0; 0; 0; 0; 0; 0; 0].
Definition fe_fffb1 : fe :=
  [-31702527; -2466483; -26106795; -12203692; -12169197; -321052; 14850977; -10296299; -16929438; -407568].
Definition fe_fffb2 : fe :=
  [8166131; -6741800; -17040804; 3154616; 21461005; 1466302; -30876704; -6368709; 10503587; -13363080].
Definition fe_fffb3 : fe :=
  [-13620103; 14639558; 4532995; 7679154; 16815101; -15883539; -22863840; -14813421; 13716513; -6477756].
Definition fe_fffb4 : fe :=
  [-21786234; -12173074; 21573800; 4524538; -4645904; 16204591; 8012863; -8444712; 3212926; 6885324].

(** ** Neutral elements *)

Definition ge_p2_0 : ge_p2 := P2 fe_0 fe_1 fe_1.
Definition ge_p3_0 : ge_p3 := P3 fe_0 fe_1 fe_1 fe_0.
Definition ge_precomp_0 : ge_precomp := Precomp fe_1 fe_1 fe_0.
Definition ge_cached_0 : ge_cached := Cached fe_1 fe_1 fe_1 fe_0.

(** ** Addition and subtraction *)

Definition ge_add (p : ge_p3) (q : ge_cached) : option ge_p1p1 :=
  X ← fe_add (p3_Y p) (p3_X p);
  Y ← fe_sub (p3_Y p) (p3_X p);
  Z ← fe_mul X (YplusX q);
  Y ← fe_mul Y (YminusX q);
  T ← fe_mul (T2d q) (p3_T p);
  X ← fe_mul (p3_Z p) (c_Z q);
  t0 ← fe_add X X;
  X ← fe_sub Z Y;
  Y ← fe_add Z Y;
  Z ← fe_add t0 T;
  T ← fe_sub t0 T;
  Some (P1P1 X Y Z T).

Definition ge_sub (p : ge_p3) (q : ge_cached) : option ge_p1p1 :=
  X ← fe_add (p3_Y p) (p3_X p);
  Y ← fe_sub (p3_Y p) (p3_X p);
  Z ← fe_mul X (YminusX q);
  Y ← fe_mul Y (YplusX q);
  T ← fe_mul (T2d q) (p3_T p);
  X ← fe_mul (p3_Z p) (c_Z q);
  t0 ← fe_add X X;
  X ← fe_sub Z Y;
  Y ← fe_add Z Y;
  Z ← fe_sub t0 T;
  T ← fe_add t0 T;
  Some (P1P1 X Y Z T).

Definition ge_madd (p : ge_p3) (q : ge_precomp) : option ge_p1p1 :=
  X ← fe_add (p3_Y p) (p3_X p);
  Y ← fe_sub (p3_Y p) (p3_X p);
  Z ← fe_mul X (yplusx q);
  Y ← fe_mul Y (yminusx q);
  T ← fe_mul (xy2d q) (p3_T p);
  t0 ← fe_add (p3_Z p) (p3_Z p);
  X ← fe_sub Z Y;
  Y ← fe_add Z Y;
  Z ← fe_add t0 T;
  T ← fe_sub t0 T;
  Some (P1P1 X Y Z T).

Definition ge_msub (p : ge_p3) (q : ge_precomp) : option ge_p1p1 :=
  X ← fe_add (p3_Y p) (p3_X p);
  Y ← fe_sub (p3_Y p) (p3_X p);
  Z ← fe_mul X (yminusx q);
  Y ← fe_mul Y (yplusx q);
  T ← fe_mul (xy2d q) (p3_T p);
  t0 ← fe_add (p3_Z p) (p3_Z p);
  X ← fe_sub Z Y;
  Y ← fe_add Z Y;
  Z ← fe_sub t0 T;
  T ← fe_add t0 T;
  Some (P1P1 X Y Z T).

(** ** Conversions and doubling *)

Definition ge_p1p1_to_p2 (p : ge_p1p1) : option ge_p2 :=
  X ← fe_mul (p1_X p) (p1_T p);
  Y ← fe_mul (p1_Y p) (p1_Z p);
  Z ← fe_mul (p1_Z p) (p1_T p);
  Some (P2 X Y Z).

Definition ge_p1p1_to_p3 (p : ge_p1p1) : option ge_p3 :=
  X ← fe_mul (p1_X p) (p1_T p);
  Y ← fe_mul (p1_Y p) (p1_Z p);
  Z ← fe_mul (p1_Z p) (p1_T p);
  T ← fe_mul (p1_X p) (p1_Y p);
  Some (P3 X Y Z T).

Definition ge_p2_dbl (p : ge_p2) : option ge_p1p1 :=
  X ← fe_sq (p2_X p);
  Z ← fe_sq (p2_Y p);
  T ← fe_sq2 (p2_Z p);
  Y ← fe_add (p2_X p) (p2_Y p);
  t0 ← fe_sq Y;
  Y ← fe_add Z X;
  Z ← fe_sub Z X;
  X ← fe_sub t0 Y;
  T ← fe_sub T Z;
  Some (P1P1 X Y Z T).

Definition ge_p3_to_p2 (p : ge_p3) : ge_p2 :=
  P2 (fe_copy (p3_X p)) (fe_copy (p3_Y p)) (fe_copy (p3_Z p)).

Definition ge_p3_dbl (p : ge_p3) : option ge_p1p1 := ge_p2_dbl (ge_p3_to_p2 p).

Definition ge_p3_to_cached (p : ge_p3) : option ge_cached :=
  a ← fe_add (p3_Y p) (p3_X p);
  b ← fe_sub (p3_Y p) (p3_X p);
  t ← fe_mul (p3_T p) fe_d2;
  Some (Cached a b (fe_copy (p3_Z p)) t).

Definition ge_mul8 (t : ge_p2) : option ge_p1p1 :=
  r ← ge_p2_dbl t;
  u ← ge_p1p1_to_p2 r;
  r ← ge_p2_dbl u;
  u ← ge_p1p1_to_p2 r;
  ge_p2_dbl u.

(** ** Selection *)

Definition ge_precomp_cmov (t u : ge_precomp) (b : Z) : option ge_precomp :=
  x ← fe_cmov (yplusx t) (yplusx u) b;
  y ← fe_cmov (yminusx t) (yminusx u) b;
  z ← fe_cmov (xy2d t) (xy2d u) b;
  Some (Precomp x y z).

Definition ge_cached_cmov (t u : ge_cached) (b : Z) : option ge_cached :=
  x ← fe_cmov (YplusX t) (YplusX u) b;
  y ← fe_cmov (YminusX t) (YminusX u) b;
  z ← fe_cmov (c_Z t) (c_Z u) b;
  w ← fe_cmov (T2d t) (T2d u) b;
  Some (Cached x y z w).

(** The bytes [b] and [c] are the same: 1, or 0 (signed char arguments). *)
Definition equal (b c : Z) : Z :=
  let x := Z.lxor (u8 b) (u8 c) in u8 (u32 (x - 1) ≫ 31).

Definition negative (b : Z) : Z := u8 (u64 b ≫ 63).

(** ** Compression and decompression *)

(** The common body of ge_tobytes and ge_p3_tobytes. *)
Definition compress (X Y Z : fe) : option bytes :=
  recip ← fe_invert Z;
  x ← fe_mul X recip;
  y ← fe_mul Y recip;
  s ← fe_tobytes y; n ← fe_isnegative x;
  s31 ← s !! 31%nat;
  Some (<[31%nat := u8 (Z.lxor s31 (n ≪ 7))]> s).

Definition ge_tobytes (h : ge_p2) : option bytes := compress (p2_X h) (p2_Y h) (p2_Z h).
Definition ge_p3_tobytes (h : ge_p3) : option bytes := compress (p3_X h) (p3_Y h) (p3_Z h).

(** The square root of u / v from its candidate: -1 where there is none. *)
Definition fix_root (X vxx u : fe) : option (Z + fe) :=
  check ← fe_sub vxx u; n ← fe_isnonzero check;
  if n =? 0 then Some (inr X) else
  check ← fe_add vxx u; n ← fe_isnonzero check;
  if n =? 0 then X ← fe_mul X fe_sqrtm1; Some (inr X) else Some (inl (-1)).

(** The root with the wanted sign; the sign of zero must be 0. *)
Definition fix_sign (X : fe) (s31 : Z) : option (Z + fe) :=
  neg ← fe_isnegative X;
  if neg =? s31 ≫ 7 then Some (inr X) else
  n ← fe_isnonzero X;
  if n =? 0 then Some (inl (-1)) else X ← fe_neg X; Some (inr X).

(** [inl] is the error code the function returns. *)
Definition ge_frombytes_vartime (s : bytes) : option (Z + ge_p3) :=
  l ← load_fe s 8388607;
  if not_canonical l then Some (inl (-1)) else
  Y ← fe_frombytes l;
  u ← fe_sq Y; v ← fe_mul u fe_d;
  u ← fe_sub u fe_1; v ← fe_add v fe_1;
  X ← fe_divpowm1 u v;
  vxx ← fe_sq X; vxx ← fe_mul vxx v;
  r ← fix_root X vxx u;
  match r with
  | inl e => Some (inl e)
  | inr X =>
      s31 ← s !! 31%nat; r ← fix_sign X s31;
      match r with
      | inl e => Some (inl e)
      | inr X => T ← fe_mul X Y; Some (inr (P3 X Y fe_1 T))
      end
  end.

(** ** A point from a hash

    The asserts of the function are kept: [None] where one fails. *)

Definition assert_zero (x : fe) : option Datatypes.unit :=
  n ← fe_isnonzero x; if n =? 0 then Some tt else None.

(** The branch where w / x or -w / x is a square: the root, z and the sign. *)
Definition positive_root (X u v z factor : fe) : option (fe * fe * Z) :=
  X ← fe_mul X factor; X ← fe_mul X u; z ← fe_mul z v; Some (X, z, 0).

Definition negative_root (X w x z : fe) : option (fe * fe * Z) :=
  x ← fe_mul x fe_sqrtm1;
  y ← fe_sub w x; n ← fe_isnonzero y;
  if n =? 0 then X ← fe_mul X fe_fffb4; Some (X, z, 1) else
  y ← fe_add w x; _ ← assert_zero y;
  X ← fe_mul X fe_fffb3; Some (X, z, 1).

Definition set_sign_of (X : fe) (sign : Z) : option fe :=
  neg ← fe_isnegative X;
  if neg =? sign then Some X else
  n ← fe_isnonzero X; if n =? 0 then None else fe_neg X.

(** The check of the result in builds with asserts: it is on the curve. *)
Definition check_curve (X Y Z : fe) : option Datatypes.unit :=
  check_iz ← fe_invert Z;
  check_x ← fe_mul X check_iz; check_y ← fe_mul Y check_iz;
  check_x ← fe_sq check_x; check_y ← fe_sq check_y;
  check_v ← fe_mul check_x check_y; check_v ← fe_mul fe_d check_v;
  check_v ← fe_add check_v check_x; check_v ← fe_sub check_v check_y;
  check_v ← fe_add check_v fe_1;
  assert_zero check_v.

Definition ge_fromfe_frombytes_vartime (s : bytes) : option ge_p2 :=
  l ← load_fe s 16777215;
  u ← fe_frombytes l;
  v ← fe_sq2 u; w ← fe_add v fe_1;
  x ← fe_sq w; y ← fe_mul fe_ma2 v; x ← fe_add x y;
  X ← fe_divpowm1 w x;
  y ← fe_sq X; x ← fe_mul y x; y ← fe_sub w x;
  let z := fe_copy fe_ma in
  n ← fe_isnonzero y;
  r ← (if n =? 0 then positive_root X u v z fe_fffb2 else
       y ← fe_add w x; n ← fe_isnonzero y;
       if n =? 0 then positive_root X u v z fe_fffb1 else negative_root X w x z);
  let '(X, z, sign) := r in
  X ← set_sign_of X sign;
  Z ← fe_add z w; Y ← fe_sub z w; X ← fe_mul X Z;
  _ ← check_curve X Y Z;
  Some (P2 X Y Z).

(** The loop over the words of ge_p3_is_point_at_infinity. *)
Fixpoint infinity_words (X T Y Z : fe) : bool :=
  match X, T, Y, Z with
  | x :: X, t :: T, y :: Y, z :: Z =>
      (Z.lor x t =? 0) && (y =? z) && infinity_words X T Y Z
  | _, _, _, _ => true
  end.

Definition ge_p3_is_point_at_infinity (h : ge_p3) : Z :=
  if infinity_words (p3_X h) (p3_T h) (p3_Y h) (p3_Z h) then 1 else 0.

(** ** Affine points *)

Definition point : Type := Z * Z.

Definition d : Z := fval fe_d.
Definition sqrtm1 : Z := fval fe_sqrtm1.

Definition unit (z : Z) : Prop := exists w, eqm p (z * w) 1.

Definition on_curve (P : point) : Prop :=
  eqm p (P.2 * P.2 - P.1 * P.1) (1 + d * (P.1 * P.1) * (P.2 * P.2)).

Definition pt_neg (P : point) : point := (- P.1, P.2).

Definition pt_eq (P Q : point) : Prop := eqm p P.1 Q.1 /\ eqm p P.2 Q.2.

Definition cross (P Q : point) : Z := d * P.1 * Q.1 * P.2 * Q.2.

(** [R] is the sum of [P] and [Q] by the addition law. *)
Definition is_sum (P Q R : point) : Prop :=
  unit (1 + cross P Q) /\ unit (1 - cross P Q)
  /\ eqm p (R.1 * (1 + cross P Q)) (P.1 * Q.2 + Q.1 * P.2)
  /\ eqm p (R.2 * (1 - cross P Q)) (P.2 * Q.2 + P.1 * Q.1).

(** ** What coordinates stand for *)

(** The Y and Z of a hashed point are sums of two elements. *)
Definition rep_p2 (P : point) (h : ge_p2) : Prop :=
  exists z, unit z /\ rep 2 z (p2_Z h) /\ rep 1 (P.1 * z) (p2_X h) /\ rep 2 (P.2 * z) (p2_Y h).

Definition rep_p3 (P : point) (h : ge_p3) : Prop :=
  exists z, unit z /\ rep 1 z (p3_Z h) /\ rep 1 (P.1 * z) (p3_X h) /\ rep 1 (P.2 * z) (p3_Y h)
    /\ rep 1 (P.1 * P.2 * z) (p3_T h).

Definition rep_p1p1 (P : point) (h : ge_p1p1) : Prop :=
  exists z t, unit z /\ unit t /\ rep 3 z (p1_Z h) /\ rep 3 t (p1_T h)
    /\ rep 3 (P.1 * z) (p1_X h) /\ rep 3 (P.2 * t) (p1_Y h).

Definition rep_cached (P : point) (h : ge_cached) : Prop :=
  exists z, unit z /\ rep 1 z (c_Z h) /\ rep 2 ((P.2 + P.1) * z) (YplusX h)
    /\ rep 2 ((P.2 - P.1) * z) (YminusX h) /\ rep 1 (2 * d * P.1 * P.2 * z) (T2d h).

Definition rep_precomp (P : point) (h : ge_precomp) : Prop :=
  rep 2 (P.2 + P.1) (yplusx h) /\ rep 2 (P.2 - P.1) (yminusx h)
  /\ rep 1 (2 * d * P.1 * P.2) (xy2d h).

(** ** Units *)

Lemma unit_mul a b : unit a -> unit b -> unit (a * b).
Proof.
  intros [x Hx] [y Hy]. exists (x * y).
  transitivity (a * x * (b * y)); [eqm_ring|]. by rewrite Hx, Hy.
Qed.

Lemma unit_eqm a b : unit a -> eqm p a b -> unit b.
Proof. intros [x Hx] E. exists x. by rewrite <- E. Qed.

Lemma unit_1 : unit 1.
Proof. by exists 1. Qed.

Lemma unit_2 : unit 2.
Proof. exists ((p + 1) / 2). by_eval. Qed.

Lemma unit_cancel z a b : unit z -> eqm p (a * z) (b * z) -> eqm p a b.
Proof.
  intros [w Hw] E. transitivity (a * z * w).
  { transitivity (a * (z * w)); [rewrite Hw|]; eqm_ring. }
  rewrite E. transitivity (b * (z * w)); [|rewrite Hw]; eqm_ring.
Qed.

(** ** Stepping through the field operations *)

Ltac fe_step :=
  let h := fresh "h" in let E := fresh "E" in let R := fresh "R" in
  match goal with
  | Hf : rep ?k ?x ?f, Hg : rep ?k' ?y ?g |- context [fe_mul ?f ?g] =>
      destruct (fe_mul_rep k k' x y f g Hf Hg ltac:(lia) ltac:(lia)) as (h & E & R)
  | Hf : rep ?k ?x ?f, Hg : rep ?k' ?y ?g |- context [fe_add ?f ?g] =>
      destruct (fe_add_rep k k' x y f g Hf Hg ltac:(lia)) as (h & E & R)
  | Hf : rep ?k ?x ?f |- context [fe_add ?f ?f] =>
      destruct (fe_add_rep k k x x f f Hf Hf ltac:(lia)) as (h & E & R)
  | Hf : rep ?k ?x ?f, Hg : rep ?k' ?y ?g |- context [fe_sub ?f ?g] =>
      destruct (fe_sub_rep k k' x y f g Hf Hg ltac:(lia)) as (h & E & R)
  | Hf : rep ?k ?x ?f |- context [fe_sq ?f] =>
      destruct (fe_sq_rep k x f Hf ltac:(lia)) as (h & E & R)
  | Hf : rep ?k ?x ?f |- context [fe_sq2 ?f] =>
      destruct (fe_sq2_rep k x f Hf ltac:(lia)) as (h & E & R)
  | Hf : rep ?k ?x ?f |- context [fe_neg ?f] =>
      destruct (fe_neg_rep k x f Hf ltac:(lia)) as (h & E & R)
  end;
  rewrite E; clear E; cbn [mbind option_bind].

(** A word list of a known element for another expression of it. *)
Lemma rep_as k k' x y h : rep k x h -> k <= k' -> eqm p x y -> rep k' y h.
Proof. intros R Hk E. eapply rep_mono; [|exact Hk]. by eapply rep_eqm. Qed.

Lemma ge_add_rep P Q R p q :
  rep_p3 P p -> rep_cached Q q -> is_sum P Q R ->
  exists r, ge_add p q = Some r /\ rep_p1p1 R r.
Proof.
  intros (z1 & U1 & RZ1 & RX1 & RY1 & RT1) (z2 & U2 & RZ2 & RA2 & RB2 & RT2) (Ua & Ub & Ex & Ey).
  unfold ge_add. do 11 fe_step. eexists. split; [done|].
  exists (2 * z1 * z2 * (1 + cross P Q)), (2 * z1 * z2 * (1 - cross P Q)).
  split_and!; cbn [p1_X p1_Y p1_Z p1_T].
  - by repeat apply unit_mul; [apply unit_2|..].
  - by repeat apply unit_mul; [apply unit_2|..].
  - eapply rep_as; [eassumption|lia|]. unfold cross. eqm_ring.
  - eapply rep_as; [eassumption|lia|]. unfold cross. eqm_ring.
  - eapply rep_as; [eassumption|lia|].
    transitivity (2 * z1 * z2 * (P.1 * Q.2 + Q.1 * P.2)); [eqm_ring|]. rewrite <- Ex. eqm_ring.
  - eapply rep_as; [eassumption|lia|].
    transitivity (2 * z1 * z2 * (P.2 * Q.2 + P.1 * Q.1)); [eqm_ring|]. rewrite <- Ey. eqm_ring.
Qed.



(** The four results of an addition, from expressions of the coordinates. *)
Lemma sum_coordinates P Q R z X Y Z T kx ky kz kt ex ey ez et :
  is_sum P Q R -> unit z ->
  rep kx ex X -> rep ky ey Y -> rep kz ez Z -> rep kt et T ->
  kx <= 3 -> ky <= 3 -> kz <= 3 -> kt <= 3 ->
  ex = z * (P.1 * Q.2 + Q.1 * P.2) -> ey = z * (P.2 * Q.2 + P.1 * Q.1) ->
  ez = z * (1 + cross P Q) -> et = z * (1 - cross P Q) ->
  rep_p1p1 R (P1P1 X Y Z T).
Proof.
  intros (Ua & Ub & Ex & Ey) U RX RY RZ RT HX HY HZ HT -> -> -> ->.
  exists (z * (1 + cross P Q)), (z * (1 - cross P Q)). cbn [p1_X p1_Y p1_Z p1_T].
  split_and!; [by apply unit_mul|by apply unit_mul|by eapply rep_mono|by eapply rep_mono|..].
  - eapply rep_as; [exact RX|done|]. rewrite <- Ex. eqm_ring.
  - eapply rep_as; [exact RY|done|]. rewrite <- Ey. eqm_ring.
Qed.

Ltac sum_done z U :=
  eexists; split; [done|]; eapply (sum_coordinates _ _ _ z); [eassumption|exact U|eassumption..|lia|lia|lia|lia| | | |];
  unfold cross, pt_neg; cbn [fst snd]; ring.

Lemma ge_sub_rep P Q R p q :
  rep_p3 P p -> rep_cached Q q -> is_sum P (pt_neg Q) R ->
  exists r, ge_sub p q = Some r /\ rep_p1p1 R r.
Proof.
  intros (z1 & U1 & RZ1 & RX1 & RY1 & RT1) (z2 & U2 & RZ2 & RA2 & RB2 & RT2) HS.
  unfold ge_sub. do 11 fe_step.
  sum_done (2 * z1 * z2) (unit_mul _ _ (unit_mul _ _ unit_2 U1) U2).
Qed.

Lemma ge_madd_rep P Q R p q :
  rep_p3 P p -> rep_precomp Q q -> is_sum P Q R ->
  exists r, ge_madd p q = Some r /\ rep_p1p1 R r.
Proof.
  intros (z1 & U1 & RZ1 & RX1 & RY1 & RT1) (RA2 & RB2 & RT2) HS.
  unfold ge_madd. do 10 fe_step. sum_done (2 * z1) (unit_mul _ _ unit_2 U1).
Qed.

Lemma ge_msub_rep P Q R p q :
  rep_p3 P p -> rep_precomp Q q -> is_sum P (pt_neg Q) R ->
  exists r, ge_msub p q = Some r /\ rep_p1p1 R r.
Proof.
  intros (z1 & U1 & RZ1 & RX1 & RY1 & RT1) (RA2 & RB2 & RT2) HS.
  unfold ge_msub. do 10 fe_step. sum_done (2 * z1) (unit_mul _ _ unit_2 U1).
Qed.

Lemma ge_p1p1_to_p2_rep P h :
  rep_p1p1 P h -> exists r, ge_p1p1_to_p2 h = Some r /\ rep_p2 P r.
Proof.
  intros (z & t & Uz & Ut & RZ & RT & RX & RY). unfold ge_p1p1_to_p2. do 3 fe_step.
  eexists. split; [done|]. exists (z * t). cbn [p2_X p2_Y p2_Z].
  split_and!; [by apply unit_mul|..]; (eapply rep_as; [eassumption|lia|]; eqm_ring).
Qed.

Lemma ge_p1p1_to_p3_rep P h :
  rep_p1p1 P h -> exists r, ge_p1p1_to_p3 h = Some r /\ rep_p3 P r.
Proof.
  intros (z & t & Uz & Ut & RZ & RT & RX & RY). unfold ge_p1p1_to_p3. do 4 fe_step.
  eexists. split; [done|]. exists (z * t). cbn [p3_X p3_Y p3_Z p3_T].
  split_and!; [by apply unit_mul|done|..]; (eapply rep_as; [eassumption|lia|]; eqm_ring).
Qed.

Lemma ge_p3_to_p2_rep P h : rep_p3 P h -> rep_p2 P (ge_p3_to_p2 h).
Proof.
  intros (z & U & RZ & RX & RY & RT). exists z.
  split_and!; [done|by apply (rep_mono 1)|done|by apply (rep_mono 1)].
Qed.

Lemma ge_p2_dbl_rep P R h :
  rep_p2 P h -> on_curve P -> is_sum P P R ->
  exists r, ge_p2_dbl h = Some r /\ rep_p1p1 R r.
Proof.
  intros (z & U & RZ & RX & RY) HP (Ua & Ub & Ex & Ey). unfold ge_p2_dbl. do 9 fe_step.
  eexists. split; [done|]. unfold on_curve in HP.
  assert (eqm p (P.2 * P.2 - P.1 * P.1) (1 + cross P P)) as HC.
  { rewrite HP. unfold cross. eqm_ring. }
  exists (z * z * (1 + cross P P)), (z * z * (1 - cross P P)). cbn [p1_X p1_Y p1_Z p1_T].
  split_and!; [by repeat apply unit_mul|by repeat apply unit_mul|..];
    (eapply rep_as; [eassumption|lia|]).
  - transitivity (z * z * (P.2 * P.2 - P.1 * P.1)); [eqm_ring|]. by rewrite HC.
  - transitivity (z * z * (2 - (P.2 * P.2 - P.1 * P.1))); [eqm_ring|]. rewrite HC. eqm_ring.
  - transitivity (z * z * (P.1 * P.2 + P.1 * P.2)); [eqm_ring|]. rewrite <- Ex. eqm_ring.
  - transitivity (z * z * (P.2 * P.2 + P.1 * P.1)); [eqm_ring|]. rewrite <- Ey. eqm_ring.
Qed.

Lemma ge_p3_dbl_rep P R h :
  rep_p3 P h -> on_curve P -> is_sum P P R ->
  exists r, ge_p3_dbl h = Some r /\ rep_p1p1 R r.
Proof. intros RP. apply ge_p2_dbl_rep. by apply ge_p3_to_p2_rep. Qed.

(** *** Constants *)

Lemma fe_d_rep : rep 1 d fe_d.
Proof. split; [by_eval|done]. Qed.

Lemma fe_d2_rep : rep 1 (2 * d) fe_d2.
Proof. split; [by_eval|by_eval]. Qed.

Lemma fe_sqrtm1_rep : rep 1 sqrtm1 fe_sqrtm1.
Proof. split; [by_eval|done]. Qed.

Lemma sqrtm1_square : eqm p (sqrtm1 * sqrtm1) (-1).
Proof. by_eval. Qed.

Lemma d_value : eqm p (d * 121666) (- 121665).
Proof. by_eval. Qed.

Lemma fe_0_rep : rep 1 0 fe_0.
Proof. split; [by_eval|done]. Qed.

Lemma fe_1_rep : rep 1 1 fe_1.
Proof. split; [by_eval|done]. Qed.

Lemma ge_p3_to_cached_rep P h :
  rep_p3 P h -> exists r, ge_p3_to_cached h = Some r /\ rep_cached P r.
Proof.
  intros (z & U & RZ & RX & RY & RT). pose proof fe_d2_rep as RD.
  unfold ge_p3_to_cached. do 3 fe_step. eexists. split; [done|].
  exists z. cbn [YplusX YminusX c_Z T2d]. unfold fe_copy.
  split_and!; [done|done|..]; (eapply rep_as; [eassumption|lia|]; eqm_ring).
Qed.

Lemma zero_reps :
  rep_p2 (0, 1) ge_p2_0 /\ rep_p3 (0, 1) ge_p3_0 /\ rep_precomp (0, 1) ge_precomp_0
  /\ rep_cached (0, 1) ge_cached_0.
Proof.
  pose proof fe_0_rep. pose proof fe_1_rep.
  assert (rep 2 1 fe_1) by by apply (rep_mono 1).
  split_and!; [exists 1|exists 1| |exists 1]; unfold rep_precomp; cbn [fst snd]; split_and!;
    rewrite ?Z.mul_0_r, ?Z.mul_0_l, ?Z.mul_1_l; (done || apply unit_1).
Qed.

(** *** Selection *)

Lemma ge_precomp_cmov_rep P Q t u b :
  rep_precomp P t -> rep_precomp Q u -> b = 0 \/ b = 1 ->
  exists r, ge_precomp_cmov t u b = Some r /\ rep_precomp (if b =? 1 then Q else P) r.
Proof.
  intros (R1 & R2 & R3) (S1 & S2 & S3) Hb. unfold ge_precomp_cmov.
  destruct (fe_cmov_rep 2 _ _ _ _ b R1 S1 ltac:(lia) Hb) as (x & -> & Rx).
  destruct (fe_cmov_rep 2 _ _ _ _ b R2 S2 ltac:(lia) Hb) as (y & -> & Ry).
  destruct (fe_cmov_rep 1 _ _ _ _ b R3 S3 ltac:(lia) Hb) as (w & -> & Rw).
  eexists. split; [done|]. destruct (b =? 1); by split_and!.
Qed.

Lemma ge_cached_cmov_rep P Q t u b :
  rep_cached P t -> rep_cached Q u -> b = 0 \/ b = 1 ->
  exists r, ge_cached_cmov t u b = Some r /\ rep_cached (if b =? 1 then Q else P) r.
Proof.
  intros (z & U & R1 & R2 & R3 & R4) (z' & U' & S1 & S2 & S3 & S4) Hb. unfold ge_cached_cmov.
  destruct (fe_cmov_rep 2 _ _ _ _ b R2 S2 ltac:(lia) Hb) as (x & -> & Rx).
  destruct (fe_cmov_rep 2 _ _ _ _ b R3 S3 ltac:(lia) Hb) as (y & -> & Ry).
  destruct (fe_cmov_rep 1 _ _ _ _ b R1 S1 ltac:(lia) Hb) as (w & -> & Rw).
  destruct (fe_cmov_rep 1 _ _ _ _ b R4 S4 ltac:(lia) Hb) as (v & -> & Rv).
  eexists. split; [done|]. destruct (b =? 1); [exists z'|exists z]; by split_and!.
Qed.

Lemma equal_ok b c : -128 <= b < 128 -> -128 <= c < 128 -> equal b c = if b =? c then 1 else 0.
Proof.
  intros Hb Hc. unfold equal.
  assert (fits 8 (Z.lxor (u8 b) (u8 c))) as Hx by (apply fits_lxor; auto with mach).
  assert (Z.lxor (u8 b) (u8 c) = 0 <-> b = c) as E.
  { rewrite Z.lxor_eq_0_iff. unfold wrap. split; [|by intros ->]. dlia. }
  set (x := Z.lxor (u8 b) (u8 c)) in *. clearbody x. unfold fits in Hx.
  rewrite shiftr_div by lia. destruct (Z.eqb_spec b c) as [Hbc|Hbc].
  - rewrite (proj2 E Hbc). done.
  - assert (x <> 0) by (intros K; by apply Hbc, E). unfold wrap.
    rewrite (Z.mod_small (x - 1)), Z.div_small by lia. done.
Qed.

Lemma negative_ok b : -128 <= b < 128 -> negative b = if b <? 0 then 1 else 0.
Proof.
  intros Hb. unfold negative, wrap. rewrite shiftr_div by lia. destruct (Z.ltb_spec b 0).
  - rewrite <- (Z.mod_unique_pos b (2 ^ 64) (-1) (b + 2 ^ 64)) by lia.
    rewrite <- (Z.div_unique_pos _ (2 ^ 63) 1 (b + 2 ^ 63)) by lia. done.
  - rewrite (Z.mod_small b) by lia. rewrite Z.div_small by lia. done.
Qed.
End Ge.
