(* ===== verification/Curve.v ===== *)
(** * The group of the curve

    The curve -x^2 + y^2 = 1 + d x^2 y^2 over the field of 2^255 - 19 elements
    whose constants are fe_d and fe_sqrtm1 of src/crypto/crypto-ops-data.c, as
    affine points modulo p.  d is not a square, so the addition law has no
    exceptional cases; the sum of two points of the curve is on the curve, and
    points form a commutative group under it.  The group operations of
    src/crypto/crypto-ops.c are proved against this law. *)

From S2P Require Import Prelude Limbs Primality Scalar Fe Ge.
Import Limbs Primality Fe Ge.

Module Curve.

(** ** The field *)

Lemma p_prime : Z.prime p.
Proof. exact prime_25519. Qed.

Lemma eqm_mul_0 a b : eqm p (a * b) 0 -> eqm p a 0 \/ eqm p b 0.
Proof.
  rewrite !eqm_divide, !Z.sub_0_r. apply Z.divide_prime_mul, p_prime.
Qed.

Lemma nonzero_mul a b : ~ eqm p a 0 -> ~ eqm p b 0 -> ~ eqm p (a * b) 0.
Proof. intros Ha Hb [|]%eqm_mul_0; done. Qed.

Lemma fermat z : ~ eqm p z 0 -> eqm p (z ^ (p - 1)) 1.
Proof.
  intros Hz. apply fermat_little; [exact p_prime|]. by rewrite eqm_divide, Z.sub_0_r in Hz.
Qed.

Definition inv (z : Z) : Z := z ^ (p - 2).

Lemma inv_def z : inv z = z ^ (p - 2).
Proof. done. Qed.

#[global] Opaque inv.

#[global] Instance inv_proper : Proper (eqm p ==> eqm p) inv.
Proof. intros a b E. rewrite !inv_def. by rewrite E. Qed.

Lemma p_large : 2 < p.
Proof. by_eval. Qed.

Lemma inv_ok z : ~ eqm p z 0 -> eqm p (z * inv z) 1.
Proof.
  intros Hz. rewrite <- (fermat z Hz), inv_def. pose proof p_large.
  replace (p - 1) with (Z.succ (p - 2)) by lia. rewrite Z.pow_succ_r by lia. done.
Qed.

Lemma unit_nonzero z : unit z <-> ~ eqm p z 0.
Proof.
  split; [|intros Hz; exists (inv z); by apply inv_ok].
  intros [w Hw] Hz. rewrite Hz in Hw. revert Hw. by_eval.
Qed.

Lemma inv_unit z : unit z -> eqm p (z * inv z) 1.
Proof. rewrite unit_nonzero. apply inv_ok. Qed.

(** Congruences follow from others by linear combination. *)
Lemma combine_1 a b c x y : eqm p a b -> x - y = c * (a - b) -> eqm p x y.
Proof. rewrite !eqm_divide. intros E ->. by apply Z.divide_mul_r. Qed.

Lemma combine_2 a b c a' b' c' x y :
  eqm p a b -> eqm p a' b' -> x - y = c * (a - b) + c' * (a' - b') -> eqm p x y.
Proof. rewrite !eqm_divide. intros E E' ->. by apply Z.divide_add_r; apply Z.divide_mul_r. Qed.

Lemma combine_3 a b c a' b' c' a'' b'' c'' x y :
  eqm p a b -> eqm p a' b' -> eqm p a'' b'' ->
  x - y = c * (a - b) + c' * (a' - b') + c'' * (a'' - b'') -> eqm p x y.
Proof.
  rewrite !eqm_divide. intros E E' E'' ->.
  repeat apply Z.divide_add_r; by apply Z.divide_mul_r.
Qed.

(** ** Numbers that are not squares *)

Definition square (x : Z) : Z := fold (fold (x * x)).

Lemma square_eqm x : eqm p (square x) (x * x).
Proof. apply (fold_reduces (x * x)). Qed.

Lemma square_ok n x : eqm p (Nat.iter n square x) (x ^ (2 ^ Z.of_nat n)).
Proof.
  induction n as [|n IH]; [by rewrite Z.pow_1_r|].
  rewrite Nat2Z.inj_succ, Z.pow_succ_r, Z.mul_comm, Z.pow_mul_r, Z.pow_2_r by lia.
  change (Nat.iter (S n) square x) with (square (Nat.iter n square x)).
  by rewrite square_eqm, IH.
Qed.

Lemma d_squares : eqm p (Nat.iter 254 square d) (- d ^ 10).
Proof. vm_compute. reflexivity. Qed.

Lemma d_nonzero : ~ eqm p d 0.
Proof. by_eval. Qed.

(** Euler's criterion: (p - 1) / 2 is 2^254 - 10. *)
Lemma euler c h :
  eqm p (Nat.iter 254 square c) (- c ^ 10) -> unit (c ^ 10) -> 2 * h = p - 1 -> eqm p (c ^ h) (-1).
Proof.
  intros Hc U Hh. pose proof (square_ok 254 c) as E. rewrite Hc in E.
  assert (2 ^ Z.of_nat 254 = h + 10) as Hp by (unfold p in Hh; lia).
  assert (0 < h) by (unfold p in Hh; lia).
  rewrite Hp, Z.pow_add_r in E by lia.
  apply (unit_cancel _ _ _ U). rewrite <- E. eqm_ring.
Qed.

Lemma nonsquare c t w :
  eqm p (Nat.iter 254 square c) (- c ^ 10) -> ~ eqm p c 0 -> ~ eqm p (c ^ 10) 0 ->
  eqm p (c * (w * w)) (t * t) -> eqm p w 0.
Proof.
  intros Hc Nc U E. destruct (decide (eqm p w 0)) as [|Hw]; [done|]. exfalso.
  assert (~ eqm p t 0) as Ht.
  { intros Ht. rewrite Ht in E. revert E. change (0 * 0) with 0.
    apply nonzero_mul; [exact Nc|by apply nonzero_mul]. }
  assert (exists h, 0 < h /\ 2 * h = p - 1) as (h & Hh & H2) by (exists ((p - 1) / 2); by_eval).
  assert (forall x, ~ eqm p x 0 -> eqm p ((x * x) ^ h) 1) as Sq.
  { intros x Hx. rewrite <- Z.pow_2_r, <- Z.pow_mul_r, H2 by lia. by apply fermat. }
  assert (eqm p ((c * (w * w)) ^ h) ((t * t) ^ h)) as F by (by rewrite E).
  apply unit_nonzero in U.
  rewrite Z.pow_mul_l, (Sq w Hw), (Sq t Ht), (euler c h Hc U H2) in F. revert F. by_eval.
Qed.

Lemma d_nonsquare t w : eqm p (d * (w * w)) (t * t) -> eqm p w 0.
Proof. apply nonsquare; [exact d_squares|exact d_nonzero|by_eval]. Qed.

(** ** Points *)

(** The terms of two points of the curve that the exceptions of the law need. *)
Lemma complete_square x1 y1 x2 y2 i e :
  eqm p (i * i) (-1) -> on_curve (x1, y1) -> on_curve (x2, y2) ->
  eqm p (cross (x1, y1) (x2, y2)) e -> e * e = 1 ->
  eqm p (d * (x1 * y1 * (i * x2 + y2) * (x1 * y1 * (i * x2 + y2))))
        ((i * x1 + e * y1) * (i * x1 + e * y1)).
Proof.
  unfold on_curve, cross. cbn [fst snd]. intros Hi C1 C2 Ec Ee.
  transitivity (d * x1 * x1 * y1 * y1 * ((i * i) * x2 * x2 + y2 * y2 + 2 * i * x2 * y2)); [eqm_ring|].
  rewrite Hi.
  transitivity (d * x1 * x1 * y1 * y1 * (y2 * y2 - x2 * x2)
    + 2 * i * x1 * y1 * (d * x1 * x2 * y1 * y2)); [eqm_ring|].
  rewrite C2, Ec.
  transitivity (d * x1 * x1 * y1 * y1 + (d * x1 * x2 * y1 * y2) * (d * x1 * x2 * y1 * y2)
    + 2 * i * x1 * y1 * e); [eqm_ring|].
  rewrite Ec, Ee.
  transitivity ((i * i) * x1 * x1 + e * e * y1 * y1 + 2 * i * e * x1 * y1); [|eqm_ring].
  rewrite Hi, Ee. eapply (combine_1 _ _ (-1)); [exact C1|]. ring.
Qed.

Lemma cross_not_sign P Q e :
  on_curve P -> on_curve Q -> e * e = 1 -> ~ eqm p (cross P Q) e.
Proof.
  destruct P as [x1 y1], Q as [x2 y2]. intros C1 C2 Ee Ec.
  pose proof sqrtm1_square as I.
  pose proof (complete_square x1 y1 x2 y2 sqrtm1 e I C1 C2 Ec Ee) as W1.
  apply d_nonsquare in W1.
  assert (on_curve (x2, - y2)) as C2' by (revert C2; unfold on_curve; cbn [fst snd]; by rewrite !Z.mul_opp_opp).
  assert (eqm p (cross (x1, y1) (x2, - y2)) (- e)) as Ec'.
  { rewrite <- Ec. unfold cross. cbn [fst snd]. eqm_ring. }
  pose proof (complete_square x1 y1 x2 (- y2) sqrtm1 (- e) I C1 C2' Ec' ltac:(lia)) as W2.
  apply d_nonsquare in W2.
  assert (eqm p (2 * sqrtm1 * (x1 * y1 * x2)) 0) as S.
  { eapply (combine_2 _ _ 1 _ _ 1); [exact W1|exact W2|]. ring. }
  apply eqm_mul_0 in S as [S|S]; [revert S; by_eval|].
  assert (eqm p (cross (x1, y1) (x2, y2)) 0) as Z0.
  { eapply (combine_1 _ _ (d * y2)); [exact S|]. unfold cross. cbn [fst snd]. ring. }
  rewrite Ec in Z0. assert (eqm p (e * e) 0) as Z1 by (by rewrite Z0).
  rewrite Ee in Z1. revert Z1. by_eval.
Qed.

(** The denominators of the addition law are never zero. *)
Lemma denominators P Q : on_curve P -> on_curve Q -> unit (1 + cross P Q) /\ unit (1 - cross P Q).
Proof.
  intros HP HQ. rewrite !unit_nonzero. split; intros E.
  - apply (cross_not_sign P Q (-1) HP HQ eq_refl). eapply (combine_1 _ _ 1); [exact E|]. ring.
  - apply (cross_not_sign P Q 1 HP HQ eq_refl). eapply (combine_1 _ _ (-1)); [exact E|]. ring.
Qed.


(** ** The addition law *)

#[global] Instance pt_eq_equiv : Equivalence pt_eq.
Proof.
  split.
  - intros P. by split.
  - intros P Q [E1 E2]. by split.
  - intros P Q R [E1 E2] [F1 F2]. split; etransitivity; done.
Qed.

#[global] Instance cross_proper : Proper (pt_eq ==> pt_eq ==> eqm p) cross.
Proof. intros P P' [E1 E2] Q Q' [F1 F2]. unfold cross. by rewrite E1, E2, F1, F2. Qed.

#[global] Instance unit_proper : Proper (eqm p ==> iff) unit.
Proof. intros a b E. split; intros U; by eapply unit_eqm. Qed.

#[global] Instance eqm_proper : Proper (eqm p ==> eqm p ==> iff) (eqm p).
Proof. unfold eqm. by intros a b -> c e ->. Qed.

#[global] Instance on_curve_proper : Proper (pt_eq ==> iff) on_curve.
Proof. intros [x y] [x' y'] [E1 E2]. cbn in E1, E2. unfold on_curve. cbn [fst snd]. by rewrite E1, E2. Qed.

#[global] Instance is_sum_proper : Proper (pt_eq ==> pt_eq ==> pt_eq ==> iff) is_sum.
Proof.
  intros P P' EP Q Q' EQ [x y] [x' y'] [G1 G2]. unfold is_sum. cbn in G1, G2. cbn [fst snd].
  pose proof (cross_proper P P' EP Q Q' EQ) as EC. rewrite EC, G1, G2.
  destruct P, P', Q, Q', EP as [E1 E2], EQ as [F1 F2]. cbn in E1, E2, F1, F2. cbn [fst snd].
  by rewrite E1, E2, F1, F2.
Qed.

#[global] Instance pt_neg_proper : Proper (pt_eq ==> pt_eq) pt_neg.
Proof. intros P Q [E1 E2]. split; cbn [fst snd pt_neg]; by rewrite ?E1, ?E2. Qed.

Lemma pt_neg_neg P : pt_eq (pt_neg (pt_neg P)) P.
Proof. split; cbn [fst snd pt_neg]; [|done]. by rewrite Z.opp_involutive. Qed.

Definition pt_add (P Q : point) : point :=
  ((P.1 * Q.2 + Q.1 * P.2) * inv (1 + cross P Q), (P.2 * Q.2 + P.1 * Q.1) * inv (1 - cross P Q)).

#[global] Instance pt_add_proper : Proper (pt_eq ==> pt_eq ==> pt_eq) pt_add.
Proof.
  intros P P' EP Q Q' EQ. pose proof (cross_proper P P' EP Q Q' EQ) as EC.
  destruct EP as [E1 E2], EQ as [F1 F2].
  split; cbn [fst snd pt_add]; by rewrite EC, E1, E2, F1, F2.
Qed.

Lemma is_sum_add P Q : on_curve P -> on_curve Q -> is_sum P Q (pt_add P Q).
Proof.
  intros HP HQ. destruct (denominators P Q HP HQ) as [Ua Ub].
  unfold is_sum, pt_add. cbn [fst snd]. split_and!; [done|done|..].
  - transitivity ((P.1 * Q.2 + Q.1 * P.2) * ((1 + cross P Q) * inv (1 + cross P Q))); [eqm_ring|].
    rewrite (inv_unit _ Ua). eqm_ring.
  - transitivity ((P.2 * Q.2 + P.1 * Q.1) * ((1 - cross P Q) * inv (1 - cross P Q))); [eqm_ring|].
    rewrite (inv_unit _ Ub). eqm_ring.
Qed.

Lemma is_sum_unique P Q R R' : is_sum P Q R -> is_sum P Q R' -> pt_eq R R'.
Proof.
  intros (Ua & Ub & Ex & Ey) (_ & _ & Ex' & Ey'). split.
  - apply (unit_cancel _ _ _ Ua). by rewrite Ex, Ex'.
  - apply (unit_cancel _ _ _ Ub). by rewrite Ey, Ey'.
Qed.

Lemma is_sum_pt_add P Q R : on_curve P -> on_curve Q -> is_sum P Q R <-> pt_eq R (pt_add P Q).
Proof.
  intros HP HQ. split.
  - intros S. by apply (is_sum_unique P Q); [|apply is_sum_add].
  - intros ->. by apply is_sum_add.
Qed.

(** *** The sum is on the curve *)

Lemma sum_polynomial x1 y1 x2 y2 :
  on_curve (x1, y1) -> on_curve (x2, y2) ->
  let e := cross (x1, y1) (x2, y2) in let X := x1 * y2 + x2 * y1 in let Y := y1 * y2 + x1 * x2 in
  eqm p (Y * Y * (1 + e) * (1 + e) - X * X * (1 - e) * (1 - e))
        ((1 - e * e) * (1 - e * e) + d * X * X * Y * Y).
Proof.
  unfold on_curve, cross. cbn [fst snd]. intros C1 C2. generalize d, C1, C2. clear. intros d C1 C2.
  apply (combine_2 _ _
    (d*d*d*x1*x1*y1*y1*x2*x2*x2*x2*y2*y2*y2*y2 - d*d*x1*x1*x2*x2*x2*x2*y2*y2*y2*y2 +
     d*d*y1*y1*x2*x2*x2*x2*y2*y2*y2*y2 - d*d*x2*x2*x2*x2*y2*y2*y2*y2 - d*x1*x1*x2*x2*x2*x2*y2*y2 +
     d*y1*y1*x2*x2*x2*x2*y2*y2 + d*x1*x1*x2*x2*y2*y2*y2*y2 - d*y1*y1*x2*x2*y2*y2*y2*y2 -
     2*d*x2*x2*x2*x2*y2*y2*y2*y2 - 2*x2*x2*x2*x2*y2*y2 + 2*x2*x2*y2*y2*y2*y2 - 2*d*x2*x2*y2*y2 +
     x2*x2*x2*x2 - 4*x2*x2*y2*y2 + y2*y2*y2*y2)
    _ _
    (d*x1*x1*x1*x1*x2*x2*y2*y2 + d*y1*y1*y1*y1*x2*x2*y2*y2 + 2*d*x1*x1*x2*x2*y2*y2 -
     2*d*y1*y1*x2*x2*y2*y2 + 2*x1*x1*x2*x2*y2*y2 - 2*y1*y1*x2*x2*y2*y2 + d*x2*x2*y2*y2 - x1*x1*x2*x2
     + y1*y1*x2*x2 + x1*x1*y2*y2 - y1*y1*y2*y2 + 2*x2*x2*y2*y2 - x2*x2 + y2*y2 + 1)
    _ _ C1 C2). ring.
Qed.

Lemma sum_on_curve P Q R : on_curve P -> on_curve Q -> is_sum P Q R -> on_curve R.
Proof.
  destruct P as [x1 y1], Q as [x2 y2]. intros HP HQ (Ua & Ub & Ex & Ey).
  pose proof (sum_polynomial x1 y1 x2 y2 HP HQ) as S. revert Ua Ub Ex Ey S. cbn [fst snd].
  generalize (cross (x1, y1) (x2, y2)). intros e Ua Ub Ex Ey S.
  unfold on_curve. apply (unit_cancel ((1 + e) * (1 - e) * ((1 + e) * (1 - e)))).
  { by repeat apply unit_mul. }
  transitivity (R.2 * (1 - e) * (R.2 * (1 - e)) * (1 + e) * (1 + e)
    - R.1 * (1 + e) * (R.1 * (1 + e)) * (1 - e) * (1 - e)); [eqm_ring|].
  rewrite Ex, Ey, S. rewrite <- Ex, <- Ey. eqm_ring.
Qed.

Lemma pt_add_curve P Q : on_curve P -> on_curve Q -> on_curve (pt_add P Q).
Proof. intros HP HQ. by apply (sum_on_curve P Q); [..|apply is_sum_add]. Qed.

(** *** The sum is associative *)

Lemma assoc_x_polynomial x1 y1 x2 y2 x3 y3 :
  on_curve (x1, y1) -> on_curve (x2, y2) -> on_curve (x3, y3) ->
  let e12 := cross (x1, y1) (x2, y2) in let e23 := cross (x2, y2) (x3, y3) in
  let X12 := x1 * y2 + x2 * y1 in let Y12 := y1 * y2 + x1 * x2 in
  let X23 := x2 * y3 + x3 * y2 in let Y23 := y2 * y3 + x2 * x3 in
  eqm p ((X12 * (1 - e12) * y3 + x3 * Y12 * (1 + e12)) * (1 - e23 * e23 + d * x1 * y1 * X23 * Y23))
        ((x1 * Y23 * (1 + e23) + y1 * X23 * (1 - e23)) * (1 - e12 * e12 + d * x3 * y3 * X12 * Y12)).
Proof.
  unfold on_curve, cross. cbn [fst snd]. intros C1 C2 C3. generalize d, C1, C2, C3. clear.
  intros d C1 C2 C3.
  apply (combine_3 _ _
    (- d*d*x1*x2*x2*x2*x2*y2*y2*y2*x3*x3*y3 + d*d*y1*x2*x2*x2*y2*y2*y2*y2*x3*x3*y3 +
     d*d*y1*x2*x2*x2*x2*y2*y2*y2*x3*y3*y3 - d*d*x1*x2*x2*x2*y2*y2*y2*y2*x3*y3*y3 -
     d*x1*x2*x2*x2*y2*y2*x3*x3*x3 - d*y1*x2*x2*y2*y2*y2*x3*x3*x3 - d*x1*x2*x2*x2*x2*y2*x3*x3*y3 -
     d*y1*x2*y2*y2*y2*y2*x3*x3*y3 + d*y1*x2*x2*x2*x2*y2*x3*y3*y3 + d*x1*x2*y2*y2*y2*y2*x3*y3*y3 +
     d*y1*x2*x2*x2*y2*y2*y3*y3*y3 + d*x1*x2*x2*y2*y2*y2*y3*y3*y3 - d*x1*x2*x2*x2*y2*y2*x3 -
     d*y1*x2*x2*y2*y2*y2*x3 - d*y1*x2*x2*x2*y2*y2*y3 - d*x1*x2*x2*y2*y2*y2*y3)
    _ _
    (d*d*x1*x1*y1*x2*x2*y2*x3*x3*x3*y3*y3 + d*d*x1*y1*y1*x2*y2*y2*x3*x3*x3*y3*y3 -
     d*d*x1*y1*y1*x2*x2*y2*x3*x3*y3*y3*y3 - d*d*x1*x1*y1*x2*y2*y2*x3*x3*y3*y3*y3 +
     d*x1*x1*x1*x2*x2*y2*x3*x3*y3 - d*x1*y1*y1*x2*x2*y2*x3*x3*y3 - d*x1*x1*y1*x2*y2*y2*x3*x3*y3 +
     d*y1*y1*y1*x2*y2*y2*x3*x3*y3 - d*x1*x1*y1*x2*x2*y2*x3*y3*y3 + d*y1*y1*y1*x2*x2*y2*x3*y3*y3 +
     d*x1*x1*x1*x2*y2*y2*x3*y3*y3 - d*x1*y1*y1*x2*y2*y2*x3*y3*y3 + d*x1*x1*x1*x2*x3*x3*x3*y3*y3 -
     d*x1*y1*y1*x2*x3*x3*x3*y3*y3 + d*x1*x1*y1*y2*x3*x3*x3*y3*y3 - d*y1*y1*y1*y2*x3*x3*x3*y3*y3 +
     d*x1*x1*y1*x2*x3*x3*y3*y3*y3 - d*y1*y1*y1*x2*x3*x3*y3*y3*y3 + d*x1*x1*x1*y2*x3*x3*y3*y3*y3 -
     d*x1*y1*y1*y2*x3*x3*y3*y3*y3 + d*x1*x2*x2*y2*x3*x3*y3 - d*y1*x2*y2*y2*x3*x3*y3 -
     d*y1*x2*x2*y2*x3*y3*y3 + d*x1*x2*y2*y2*x3*y3*y3 + d*x1*x2*x3*x3*x3*y3*y3 +
     d*y1*y2*x3*x3*x3*y3*y3 + d*y1*x2*x3*x3*y3*y3*y3 + d*x1*y2*x3*x3*y3*y3*y3 + x1*x1*x1*x2*x3*x3*x3
     - x1*y1*y1*x2*x3*x3*x3 + x1*x1*y1*y2*x3*x3*x3 - y1*y1*y1*y2*x3*x3*x3 + x1*x1*y1*x2*x3*x3*y3 -
     y1*y1*y1*x2*x3*x3*y3 + x1*x1*x1*y2*x3*x3*y3 - x1*y1*y1*y2*x3*x3*y3 - x1*x1*x1*x2*x3*y3*y3 +
     x1*y1*y1*x2*x3*y3*y3 - x1*x1*y1*y2*x3*y3*y3 + y1*y1*y1*y2*x3*y3*y3 - x1*x1*y1*x2*y3*y3*y3 +
     y1*y1*y1*x2*y3*y3*y3 - x1*x1*x1*y2*y3*y3*y3 + x1*y1*y1*y2*y3*y3*y3 + x1*x1*x1*x2*x3 -
     x1*y1*y1*x2*x3 + x1*x1*y1*y2*x3 - y1*y1*y1*y2*x3 + x1*x2*x3*x3*x3 + y1*y2*x3*x3*x3 +
     x1*x1*y1*x2*y3 - y1*y1*y1*x2*y3 + x1*x1*x1*y2*y3 - x1*y1*y1*y2*y3 + y1*x2*x3*x3*y3 +
     x1*y2*x3*x3*y3 - x1*x2*x3*y3*y3 - y1*y2*x3*y3*y3 - y1*x2*y3*y3*y3 - x1*y2*y3*y3*y3 + x1*x2*x3 +
     y1*y2*x3 + y1*x2*y3 + x1*y2*y3)
    _ _
    (- d*x1*x1*y1*x2*x2*y2*x3 - d*x1*y1*y1*x2*y2*y2*x3 + d*x1*y1*y1*x2*x2*y2*y3 +
     d*x1*x1*y1*x2*y2*y2*y3 - x1*x1*x1*x2*x2*x2*x3 + x1*y1*y1*x2*x2*x2*x3 - x1*x1*y1*x2*x2*y2*x3 +
     y1*y1*y1*x2*x2*y2*x3 + x1*x1*x1*x2*y2*y2*x3 - x1*y1*y1*x2*y2*y2*x3 + x1*x1*y1*y2*y2*y2*x3 -
     y1*y1*y1*y2*y2*y2*x3 - x1*x1*y1*x2*x2*x2*y3 + y1*y1*y1*x2*x2*x2*y3 - x1*x1*x1*x2*x2*y2*y3 +
     x1*y1*y1*x2*x2*y2*y3 + x1*x1*y1*x2*y2*y2*y3 - y1*y1*y1*x2*y2*y2*y3 + x1*x1*x1*y2*y2*y2*y3 -
     x1*y1*y1*y2*y2*y2*y3 - x1*x1*x1*x2*x3 + x1*y1*y1*x2*x3 - x1*x2*x2*x2*x3 - x1*x1*y1*y2*x3 +
     y1*y1*y1*y2*x3 - y1*x2*x2*y2*x3 + x1*x2*y2*y2*x3 + y1*y2*y2*y2*x3 - x1*x1*y1*x2*y3 +
     y1*y1*y1*x2*y3 - y1*x2*x2*x2*y3 - x1*x1*x1*y2*y3 + x1*y1*y1*y2*y3 - x1*x2*x2*y2*y3 +
     y1*x2*y2*y2*y3 + x1*y2*y2*y2*y3 - x1*x2*x3 - y1*y2*x3 - y1*x2*y3 - x1*y2*y3)
    _ _ C1 C2 C3). ring.
Qed.

Lemma assoc_y_polynomial x1 y1 x2 y2 x3 y3 :
  on_curve (x1, y1) -> on_curve (x2, y2) -> on_curve (x3, y3) ->
  let e12 := cross (x1, y1) (x2, y2) in let e23 := cross (x2, y2) (x3, y3) in
  let X12 := x1 * y2 + x2 * y1 in let Y12 := y1 * y2 + x1 * x2 in
  let X23 := x2 * y3 + x3 * y2 in let Y23 := y2 * y3 + x2 * x3 in
  eqm p ((y3 * Y12 * (1 + e12) + x3 * X12 * (1 - e12)) * (1 - e23 * e23 - d * x1 * y1 * X23 * Y23))
        ((y1 * Y23 * (1 + e23) + x1 * X23 * (1 - e23)) * (1 - e12 * e12 - d * x3 * y3 * X12 * Y12)).
Proof.
  unfold on_curve, cross. cbn [fst snd]. intros C1 C2 C3. generalize d, C1, C2, C3. clear.
  intros d C1 C2 C3.
  apply (combine_3 _ _
    (- d*d*y1*x2*x2*x2*x2*y2*y2*y2*x3*x3*y3 + d*d*x1*x2*x2*x2*y2*y2*y2*y2*x3*x3*y3 +
     d*d*x1*x2*x2*x2*x2*y2*y2*y2*x3*y3*y3 - d*d*y1*x2*x2*x2*y2*y2*y2*y2*x3*y3*y3 -
     d*y1*x2*x2*x2*y2*y2*x3*x3*x3 - d*x1*x2*x2*y2*y2*y2*x3*x3*x3 - d*y1*x2*x2*x2*x2*y2*x3*x3*y3 -
     d*x1*x2*y2*y2*y2*y2*x3*x3*y3 + d*x1*x2*x2*x2*x2*y2*x3*y3*y3 + d*y1*x2*y2*y2*y2*y2*x3*y3*y3 +
     d*x1*x2*x2*x2*y2*y2*y3*y3*y3 + d*y1*x2*x2*y2*y2*y2*y3*y3*y3 - d*y1*x2*x2*x2*y2*y2*x3 -
     d*x1*x2*x2*y2*y2*y2*x3 - d*x1*x2*x2*x2*y2*y2*y3 - d*y1*x2*x2*y2*y2*y2*y3)
    _ _
    (- d*d*x1*y1*y1*x2*x2*y2*x3*x3*x3*y3*y3 - d*d*x1*x1*y1*x2*y2*y2*x3*x3*x3*y3*y3 +
     d*d*x1*x1*y1*x2*x2*y2*x3*x3*y3*y3*y3 + d*d*x1*y1*y1*x2*y2*y2*x3*x3*y3*y3*y3 +
     d*x1*x1*y1*x2*x2*y2*x3*x3*y3 - d*y1*y1*y1*x2*x2*y2*x3*x3*y3 - d*x1*x1*x1*x2*y2*y2*x3*x3*y3 +
     d*x1*y1*y1*x2*y2*y2*x3*x3*y3 - d*x1*x1*x1*x2*x2*y2*x3*y3*y3 + d*x1*y1*y1*x2*x2*y2*x3*y3*y3 +
     d*x1*x1*y1*x2*y2*y2*x3*y3*y3 - d*y1*y1*y1*x2*y2*y2*x3*y3*y3 + d*x1*x1*y1*x2*x3*x3*x3*y3*y3 -
     d*y1*y1*y1*x2*x3*x3*x3*y3*y3 + d*x1*x1*x1*y2*x3*x3*x3*y3*y3 - d*x1*y1*y1*y2*x3*x3*x3*y3*y3 +
     d*x1*x1*x1*x2*x3*x3*y3*y3*y3 - d*x1*y1*y1*x2*x3*x3*y3*y3*y3 + d*x1*x1*y1*y2*x3*x3*y3*y3*y3 -
     d*y1*y1*y1*y2*x3*x3*y3*y3*y3 + d*y1*x2*x2*y2*x3*x3*y3 - d*x1*x2*y2*y2*x3*x3*y3 -
     d*x1*x2*x2*y2*x3*y3*y3 + d*y1*x2*y2*y2*x3*y3*y3 + d*y1*x2*x3*x3*x3*y3*y3 +
     d*x1*y2*x3*x3*x3*y3*y3 + d*x1*x2*x3*x3*y3*y3*y3 + d*y1*y2*x3*x3*y3*y3*y3 + x1*x1*y1*x2*x3*x3*x3
     - y1*y1*y1*x2*x3*x3*x3 + x1*x1*x1*y2*x3*x3*x3 - x1*y1*y1*y2*x3*x3*x3 + x1*x1*x1*x2*x3*x3*y3 -
     x1*y1*y1*x2*x3*x3*y3 + x1*x1*y1*y2*x3*x3*y3 - y1*y1*y1*y2*x3*x3*y3 - x1*x1*y1*x2*x3*y3*y3 +
     y1*y1*y1*x2*x3*y3*y3 - x1*x1*x1*y2*x3*y3*y3 + x1*y1*y1*y2*x3*y3*y3 - x1*x1*x1*x2*y3*y3*y3 +
     x1*y1*y1*x2*y3*y3*y3 - x1*x1*y1*y2*y3*y3*y3 + y1*y1*y1*y2*y3*y3*y3 + x1*x1*y1*x2*x3 -
     y1*y1*y1*x2*x3 + x1*x1*x1*y2*x3 - x1*y1*y1*y2*x3 + y1*x2*x3*x3*x3 + x1*y2*x3*x3*x3 +
     x1*x1*x1*x2*y3 - x1*y1*y1*x2*y3 + x1*x1*y1*y2*y3 - y1*y1*y1*y2*y3 + x1*x2*x3*x3*y3 +
     y1*y2*x3*x3*y3 - y1*x2*x3*y3*y3 - x1*y2*x3*y3*y3 - x1*x2*y3*y3*y3 - y1*y2*y3*y3*y3 + y1*x2*x3 +
     x1*y2*x3 + x1*x2*y3 + y1*y2*y3)
    _ _
    (d*x1*y1*y1*x2*x2*y2*x3 + d*x1*x1*y1*x2*y2*y2*x3 - d*x1*x1*y1*x2*x2*y2*y3 -
     d*x1*y1*y1*x2*y2*y2*y3 - x1*x1*y1*x2*x2*x2*x3 + y1*y1*y1*x2*x2*x2*x3 - x1*x1*x1*x2*x2*y2*x3 +
     x1*y1*y1*x2*x2*y2*x3 + x1*x1*y1*x2*y2*y2*x3 - y1*y1*y1*x2*y2*y2*x3 + x1*x1*x1*y2*y2*y2*x3 -
     x1*y1*y1*y2*y2*y2*x3 - x1*x1*x1*x2*x2*x2*y3 + x1*y1*y1*x2*x2*x2*y3 - x1*x1*y1*x2*x2*y2*y3 +
     y1*y1*y1*x2*x2*y2*y3 + x1*x1*x1*x2*y2*y2*y3 - x1*y1*y1*x2*y2*y2*y3 + x1*x1*y1*y2*y2*y2*y3 -
     y1*y1*y1*y2*y2*y2*y3 - x1*x1*y1*x2*x3 + y1*y1*y1*x2*x3 - y1*x2*x2*x2*x3 - x1*x1*x1*y2*x3 +
     x1*y1*y1*y2*x3 - x1*x2*x2*y2*x3 + y1*x2*y2*y2*x3 + x1*y2*y2*y2*x3 - x1*x1*x1*x2*y3 +
     x1*y1*y1*x2*y3 - x1*x2*x2*x2*y3 - x1*x1*y1*y2*y3 + y1*y1*y1*y2*y3 - y1*x2*x2*y2*y3 +
     x1*x2*y2*y2*y3 + y1*y2*y2*y2*y3 - y1*x2*x3 - x1*y2*x3 - x1*x2*y3 - y1*y2*y3)
    _ _ C1 C2 C3). ring.
Qed.

(** The coordinates of (P1 + P2) + P3 and of P1 + (P2 + P3), with the inner
    sums A and B given by their numerators and denominators. *)
Lemma assoc_x x1 y1 x3 y3 e12 X12 Y12 A1 A2 e23 X23 Y23 B1 B2 r r' :
  unit (1 + e12) -> unit (1 - e12) -> unit (1 + e23) -> unit (1 - e23) ->
  eqm p (A1 * (1 + e12)) X12 -> eqm p (A2 * (1 - e12)) Y12 ->
  eqm p (B1 * (1 + e23)) X23 -> eqm p (B2 * (1 - e23)) Y23 ->
  eqm p ((X12 * (1 - e12) * y3 + x3 * Y12 * (1 + e12)) * (1 - e23 * e23 + d * x1 * y1 * X23 * Y23))
        ((x1 * Y23 * (1 + e23) + y1 * X23 * (1 - e23)) * (1 - e12 * e12 + d * x3 * y3 * X12 * Y12)) ->
  unit (1 + d * A1 * x3 * A2 * y3) -> unit (1 + d * x1 * B1 * y1 * B2) ->
  eqm p (r * (1 + d * A1 * x3 * A2 * y3)) (A1 * y3 + x3 * A2) ->
  eqm p (r' * (1 + d * x1 * B1 * y1 * B2)) (x1 * B2 + B1 * y1) -> eqm p r r'.
Proof.
  intros U1 U2 U3 U4 EA1 EA2 EB1 EB2 S Ul Ur El Er.
  apply (unit_cancel ((1 + d * A1 * x3 * A2 * y3) * (1 + d * x1 * B1 * y1 * B2)
    * ((1 + e12) * (1 - e12) * ((1 + e23) * (1 - e23))))).
  { by repeat apply unit_mul. }
  transitivity (r * (1 + d * A1 * x3 * A2 * y3) * ((1 + d * x1 * B1 * y1 * B2)
    * ((1 + e12) * (1 - e12) * ((1 + e23) * (1 - e23))))); [eqm_ring|]. rewrite El.
  transitivity ((A1 * (1 + e12) * (1 - e12) * y3 + x3 * (A2 * (1 - e12)) * (1 + e12))
    * (1 - e23 * e23 + d * x1 * y1 * (B1 * (1 + e23)) * (B2 * (1 - e23)))); [eqm_ring|].
  rewrite EA1, EA2, EB1, EB2, S. rewrite <- EA1, <- EA2, <- EB1, <- EB2.
  transitivity ((x1 * B2 + B1 * y1) * ((1 + d * A1 * x3 * A2 * y3)
    * ((1 + e12) * (1 - e12) * ((1 + e23) * (1 - e23))))); [eqm_ring|]. rewrite <- Er. eqm_ring.
Qed.

Lemma assoc_y x1 y1 x3 y3 e12 X12 Y12 A1 A2 e23 X23 Y23 B1 B2 r r' :
  unit (1 + e12) -> unit (1 - e12) -> unit (1 + e23) -> unit (1 - e23) ->
  eqm p (A1 * (1 + e12)) X12 -> eqm p (A2 * (1 - e12)) Y12 ->
  eqm p (B1 * (1 + e23)) X23 -> eqm p (B2 * (1 - e23)) Y23 ->
  eqm p ((y3 * Y12 * (1 + e12) + x3 * X12 * (1 - e12)) * (1 - e23 * e23 - d * x1 * y1 * X23 * Y23))
        ((y1 * Y23 * (1 + e23) + x1 * X23 * (1 - e23)) * (1 - e12 * e12 - d * x3 * y3 * X12 * Y12)) ->
  unit (1 - d * A1 * x3 * A2 * y3) -> unit (1 - d * x1 * B1 * y1 * B2) ->
  eqm p (r * (1 - d * A1 * x3 * A2 * y3)) (A2 * y3 + A1 * x3) ->
  eqm p (r' * (1 - d * x1 * B1 * y1 * B2)) (y1 * B2 + x1 * B1) -> eqm p r r'.
Proof.
  intros U1 U2 U3 U4 EA1 EA2 EB1 EB2 S Ul Ur El Er.
  apply (unit_cancel ((1 - d * A1 * x3 * A2 * y3) * (1 - d * x1 * B1 * y1 * B2)
    * ((1 + e12) * (1 - e12) * ((1 + e23) * (1 - e23))))).
  { by repeat apply unit_mul. }
  transitivity (r * (1 - d * A1 * x3 * A2 * y3) * ((1 - d * x1 * B1 * y1 * B2)
    * ((1 + e12) * (1 - e12) * ((1 + e23) * (1 - e23))))); [eqm_ring|]. rewrite El.
  transitivity ((y3 * (A2 * (1 - e12)) * (1 + e12) + x3 * (A1 * (1 + e12)) * (1 - e12))
    * (1 - e23 * e23 - d * x1 * y1 * (B1 * (1 + e23)) * (B2 * (1 - e23)))); [eqm_ring|].
  rewrite EA1, EA2, EB1, EB2, S. rewrite <- EA1, <- EA2, <- EB1, <- EB2.
  transitivity ((y1 * B2 + x1 * B1) * ((1 - d * A1 * x3 * A2 * y3)
    * ((1 + e12) * (1 - e12) * ((1 + e23) * (1 - e23))))); [eqm_ring|]. rewrite <- Er. eqm_ring.
Qed.

Lemma is_sum_assoc P1 P2 P3 A B R R' :
  on_curve P1 -> on_curve P2 -> on_curve P3 ->
  is_sum P1 P2 A -> is_sum P2 P3 B -> is_sum A P3 R -> is_sum P1 B R' -> pt_eq R R'.
Proof.
  destruct P1 as [x1 y1], P2 as [x2 y2], P3 as [x3 y3].
  intros H1 H2 H3 (U1 & U2 & EA1 & EA2) (U3 & U4 & EB1 & EB2) (Ul & Ul' & El & El') (Ur & Ur' & Er & Er').
  cbn [fst snd] in *. split.
  - eapply assoc_x; [exact U1|exact U2|exact U3|exact U4|exact EA1|exact EA2|exact EB1|exact EB2| |
      exact Ul|exact Ur|exact El|exact Er].
    by apply assoc_x_polynomial.
  - eapply assoc_y; [exact U1|exact U2|exact U3|exact U4|exact EA1|exact EA2|exact EB1|exact EB2| |
      exact Ul'|exact Ur'|exact El'|exact Er'].
    by apply assoc_y_polynomial.
Qed.


(** ** The group *)

Create HintDb curve discriminated.
#[global] Hint Constants Opaque : curve.

#[global] Hint Resolve pt_add_curve : curve.

Definition pt_zero : point := (0, 1).

Lemma pt_zero_curve : on_curve pt_zero.
Proof. by_eval. Qed.
#[global] Hint Resolve pt_zero_curve : curve.

Lemma pt_neg_curve P : on_curve P -> on_curve (pt_neg P).
Proof. unfold on_curve. cbn [fst snd pt_neg]. by rewrite Z.mul_opp_opp. Qed.
#[global] Hint Resolve pt_neg_curve : curve.

Lemma pt_add_comm P Q : pt_eq (pt_add P Q) (pt_add Q P).
Proof.
  assert (cross P Q = cross Q P) as E by (unfold cross; ring).
  split; cbn [fst snd pt_add]; rewrite E; eqm_ring.
Qed.

Lemma pt_add_assoc P Q R :
  on_curve P -> on_curve Q -> on_curve R -> pt_eq (pt_add (pt_add P Q) R) (pt_add P (pt_add Q R)).
Proof.
  intros HP HQ HR.
  apply (is_sum_assoc P Q R (pt_add P Q) (pt_add Q R)); auto using is_sum_add with curve.
Qed.

Lemma is_sum_O P : is_sum pt_zero P P.
Proof.
  assert (cross pt_zero P = 0) as E by (unfold cross, pt_zero; cbn [fst snd]; ring).
  unfold is_sum. rewrite E. unfold pt_zero. cbn [fst snd]. split_and!; [apply unit_1|apply unit_1|eqm_ring..].
Qed.

Lemma pt_add_O P : on_curve P -> pt_eq (pt_add pt_zero P) P.
Proof. intros HP. symmetry. apply is_sum_pt_add; [auto with curve..|apply is_sum_O]. Qed.

Lemma pt_add_neg P : on_curve P -> pt_eq (pt_add P (pt_neg P)) pt_zero.
Proof.
  intros HP. destruct (denominators P (pt_neg P)) as [Ua Ub]; [auto with curve..|].
  symmetry. apply is_sum_pt_add; [auto with curve..|]. unfold is_sum.
  split_and!; [done|done|unfold pt_zero, pt_neg; cbn [fst snd]; eqm_ring|].
  unfold cross, pt_zero. destruct P as [x y]. unfold on_curve in HP. cbn [fst snd pt_neg] in *.
  eapply (combine_1 _ _ (-1)); [exact HP|]. ring.
Qed.

(** P + (-P + Q) = Q *)
Lemma pt_add_neg_l P Q : on_curve P -> on_curve Q -> pt_eq (pt_add P (pt_add (pt_neg P) Q)) Q.
Proof.
  intros HP HQ. rewrite <- pt_add_assoc by auto with curve. rewrite pt_add_neg by done. by apply pt_add_O.
Qed.

Lemma pt_neg_add P Q : pt_eq (pt_neg (pt_add P Q)) (pt_add (pt_neg P) (pt_neg Q)).
Proof.
  assert (cross (pt_neg P) (pt_neg Q) = cross P Q) as E by (unfold cross, pt_neg; cbn [fst snd]; ring).
  split; cbn [fst snd pt_add pt_neg]; rewrite E; eqm_ring.
Qed.

Lemma pt_neg_O : pt_eq (pt_neg pt_zero) pt_zero.
Proof. done. Qed.

Lemma pt_add_swap P Q R S :
  on_curve P -> on_curve Q -> on_curve R -> on_curve S ->
  pt_eq (pt_add (pt_add P Q) (pt_add R S)) (pt_add (pt_add P R) (pt_add Q S)).
Proof.
  intros HP HQ HR HS. rewrite !pt_add_assoc by auto with curve.
  rewrite <- (pt_add_assoc Q R S), <- (pt_add_assoc R Q S) by done. by rewrite (pt_add_comm Q R).
Qed.

(** *** Multiples *)

Fixpoint nmul (n : nat) (P : point) : point :=
  match n with
  | 0%nat => pt_zero
  | S n => pt_add P (nmul n P)
  end.

Definition zmul (k : Z) (P : point) : point :=
  if k <? 0 then pt_neg (nmul (Z.to_nat (- k)) P) else nmul (Z.to_nat k) P.

Lemma nmul_curve n P : on_curve P -> on_curve (nmul n P).
Proof. intros HP. induction n; cbn [nmul]; auto with curve. Qed.
#[global] Hint Resolve nmul_curve : curve.

Lemma zmul_curve k P : on_curve P -> on_curve (zmul k P).
Proof. intros HP. unfold zmul. destruct (k <? 0); auto with curve. Qed.
#[global] Hint Resolve zmul_curve : curve.

Lemma zmul_0 P : zmul 0 P = pt_zero.
Proof. done. Qed.

Lemma zmul_1 P : on_curve P -> pt_eq (zmul 1 P) P.
Proof. intros HP. change (zmul 1 P) with (pt_add P pt_zero). rewrite pt_add_comm. by apply pt_add_O. Qed.

Lemma zmul_opp k P : pt_eq (zmul (- k) P) (pt_neg (zmul k P)).
Proof.
  unfold zmul. destruct (Z.ltb_spec (- k) 0), (Z.ltb_spec k 0); try lia.
  - by rewrite Z.opp_involutive.
  - by rewrite pt_neg_neg.
  - assert (k = 0) as -> by lia. done.
Qed.

Lemma zmul_succ k P : on_curve P -> pt_eq (zmul (1 + k) P) (pt_add P (zmul k P)).
Proof.
  intros HP. unfold zmul. destruct (Z.ltb_spec (1 + k) 0), (Z.ltb_spec k 0); try lia.
  - replace (Z.to_nat (- k)) with (S (Z.to_nat (- (1 + k)))) by lia. cbn [nmul].
    rewrite pt_neg_add, pt_add_neg_l by auto with curve. done.
  - assert (k = -1) as -> by lia. change (pt_eq pt_zero (pt_add P (pt_neg (pt_add P pt_zero)))).
    by rewrite (pt_add_comm P pt_zero), pt_add_O, pt_add_neg.
  - by replace (Z.to_nat (1 + k)) with (S (Z.to_nat k)) by lia.
Qed.

Lemma zmul_pred k P : on_curve P -> pt_eq (zmul (k - 1) P) (pt_add (pt_neg P) (zmul k P)).
Proof.
  intros HP. replace k with (1 + (k - 1)) at 2 by lia. rewrite zmul_succ by done.
  rewrite <- pt_add_assoc by auto with curve. rewrite (pt_add_comm (pt_neg P)), pt_add_neg by done.
  by rewrite pt_add_O by auto with curve.
Qed.

Lemma zmul_add j k P : on_curve P -> pt_eq (zmul (j + k) P) (pt_add (zmul j P) (zmul k P)).
Proof.
  intros HP. pattern j. apply Z.peano_ind; clear j.
  - rewrite zmul_0, pt_add_O by auto with curve. done.
  - intros j IH. replace (Z.succ j + k) with (1 + (j + k)) by lia. replace (Z.succ j) with (1 + j) by lia.
    by rewrite !zmul_succ, pt_add_assoc, IH by auto with curve.
  - intros j IH. replace (Z.pred j + k) with (j + k - 1) by lia. replace (Z.pred j) with (j - 1) by lia.
    by rewrite !zmul_pred, pt_add_assoc, IH by auto with curve.
Qed.

Lemma zmul_mul j k P : on_curve P -> pt_eq (zmul (j * k) P) (zmul j (zmul k P)).
Proof.
  intros HP. pattern j. apply Z.peano_ind; clear j.
  - done.
  - intros j IH. replace (Z.succ j * k) with (k + j * k) by lia. replace (Z.succ j) with (1 + j) by lia.
    rewrite zmul_add, zmul_succ, IH by auto with curve. done.
  - intros j IH. replace (Z.pred j * k) with (- k + j * k) by lia. replace (Z.pred j) with (j - 1) by lia.
    rewrite zmul_add, zmul_pred, IH, zmul_opp by auto with curve. done.
Qed.

#[global] Instance zmul_proper k : Proper (pt_eq ==> pt_eq) (zmul k).
Proof.
  assert (forall n, Proper (pt_eq ==> pt_eq) (nmul n)) as N.
  { intros n P Q E. induction n as [|n IH]; cbn [nmul]; [done|]. by rewrite IH, E. }
  intros P Q E. unfold zmul. destruct (k <? 0); by rewrite E.
Qed.
#[global] Opaque zmul pt_add.


(** ** The operations of the code *)

(** C34. Field arithmetic: on limbs up to three times the size a carry leaves,
    none of the operations overflows (an overflow would be [None]), and each
    computes in the field of 2^255 - 19 elements: sums, differences, opposites,
    products, squares, doubled squares and inverses; fe_tobytes gives the one
    32-byte encoding of the residue, and fe_isnegative and fe_isnonzero its
    parity and whether it is not zero. *)
Theorem field_arithmetic k k' x y f g :
  rep k x f -> rep k' y g -> 0 <= k <= 3 -> 0 <= k' <= 3 ->
  (exists h, fe_add f g = Some h /\ rep (k + k') (x + y) h)
  /\ (exists h, fe_sub f g = Some h /\ rep (k + k') (x - y) h)
  /\ (exists h, fe_neg f = Some h /\ rep k (- x) h)
  /\ (exists h, fe_mul f g = Some h /\ rep 1 (x * y) h)
  /\ (exists h, fe_sq f = Some h /\ rep 1 (x * x) h)
  /\ (exists h, fe_sq2 f = Some h /\ rep 1 (2 * (x * x)) h)
  /\ (exists h i, fe_invert f = Some h /\ rep 1 i h /\ (~ eqm p x 0 -> eqm p (x * i) 1))
  /\ fe_tobytes f = Some (le_digits 256 32 (x mod p))
  /\ fe_isnegative f = Some ((x mod p) mod 2)
  /\ fe_isnonzero f = Some (if decide (eqm p x 0) then 0 else 1).
Proof.
  intros Rf Rg Hk Hk'. pose proof (rep_mono k 3 x f Rf ltac:(lia)) as R3.
  split_and!.
  - by apply fe_add_rep; [| |lia].
  - by apply fe_sub_rep; [| |lia].
  - by apply fe_neg_rep; [|lia].
  - by apply (fe_mul_rep k k'); [| |lia..].
  - by apply (fe_sq_rep k); [|lia].
  - by apply (fe_sq2_rep k); [|lia].
  - destruct (fe_invert_rep k x f Rf ltac:(lia)) as (h & E & R). exists h, (inv x).
    split; [done|]. rewrite inv_def. split; [done|]. rewrite <- inv_def. apply inv_ok.
  - by apply fe_tobytes_ok.
  - by apply fe_isnegative_ok.
  - by apply fe_isnonzero_ok.
Qed.

(** C35. Point arithmetic: ge_add, ge_sub, ge_madd, ge_msub and the doublings
    compute the complete Edwards addition for all points of the curve, equal and
    opposite ones included, without an overflow; the results are points of the
    curve, and the conversions between the coordinate systems keep the point. *)
Theorem point_arithmetic P Q hp hq hm :
  on_curve P -> on_curve Q -> rep_p3 P hp -> rep_cached Q hq -> rep_precomp Q hm ->
  on_curve (pt_add P Q)
  /\ (exists r, ge_add hp hq = Some r /\ rep_p1p1 (pt_add P Q) r)
  /\ (exists r, ge_sub hp hq = Some r /\ rep_p1p1 (pt_add P (pt_neg Q)) r)
  /\ (exists r, ge_madd hp hm = Some r /\ rep_p1p1 (pt_add P Q) r)
  /\ (exists r, ge_msub hp hm = Some r /\ rep_p1p1 (pt_add P (pt_neg Q)) r)
  /\ (exists r, ge_p3_dbl hp = Some r /\ rep_p1p1 (pt_add P P) r)
  /\ (exists r, ge_p2_dbl (ge_p3_to_p2 hp) = Some r /\ rep_p1p1 (pt_add P P) r)
  /\ (exists c, ge_p3_to_cached hp = Some c /\ rep_cached P c)
  /\ rep_p2 P (ge_p3_to_p2 hp)
  /\ (forall R r, rep_p1p1 R r -> (exists s, ge_p1p1_to_p2 r = Some s /\ rep_p2 R s)
                              /\ (exists s, ge_p1p1_to_p3 r = Some s /\ rep_p3 R s)).
Proof.
  intros HP HQ Rp Rq Rm. pose proof (is_sum_add P Q HP HQ) as S.
  pose proof (is_sum_add P (pt_neg Q) HP (pt_neg_curve Q HQ)) as S'. pose proof (is_sum_add P P HP HP) as SP.
  split_and!.
  - by apply pt_add_curve.
  - exact (ge_add_rep P Q _ hp hq Rp Rq S).
  - exact (ge_sub_rep P Q _ hp hq Rp Rq S').
  - exact (ge_madd_rep P Q _ hp hm Rp Rm S).
  - exact (ge_msub_rep P Q _ hp hm Rp Rm S').
  - exact (ge_p3_dbl_rep P _ hp Rp HP SP).
  - exact (ge_p2_dbl_rep P _ _ (ge_p3_to_p2_rep P hp Rp) HP SP).
  - exact (ge_p3_to_cached_rep P hp Rp).
  - exact (ge_p3_to_p2_rep P hp Rp).
  - intros R r HR. exact (conj (ge_p1p1_to_p2_rep R r HR) (ge_p1p1_to_p3_rep R r HR)).
Qed.

Lemma field_arithmetic_witness :
  (exists h, fe_mul fe_d fe_sqrtm1 = Some h /\ rep 1 (d * sqrtm1) h)
  /\ exists h i, fe_invert fe_d = Some h /\ rep 1 i h /\ eqm p (d * i) 1.
Proof.
  destruct (field_arithmetic 1 1 d sqrtm1 fe_d fe_sqrtm1 fe_d_rep fe_sqrtm1_rep ltac:(lia) ltac:(lia))
    as (_ & _ & _ & M & _ & _ & (h & i & E & R & V) & _).
  split; [exact M|]. exists h, i. split_and!; [exact E|exact R|]. apply V. by_eval.
Defined.

(** The identity added to itself. *)
Lemma point_arithmetic_witness :
  exists r, ge_add ge_p3_0 ge_cached_0 = Some r /\ rep_p1p1 (pt_add pt_zero pt_zero) r.
Proof.
  destruct zero_reps as (_ & R3 & Rp & Rc).
  exact (proj1 (proj2 (point_arithmetic pt_zero pt_zero ge_p3_0 ge_cached_0 ge_precomp_0
    pt_zero_curve pt_zero_curve R3 Rc Rp))).
Defined.

End Curve.
