(* ===== verification/Points.v ===== *)
(** * Points of the curve as the program holds them

    The operations of Ge against the group of Curve: additions and doublings
    compute the group's sum on every pair of points of the curve, a point is
    written as 32 bytes that depend only on the point (y and the parity of x),
    and exactly the encodings of the points of the curve are read back, each
    as its point. *)

From S2P Require Import Prelude Limbs Primality Scalar Fe Ge Curve.
Import Limbs Primality Fe Ge Curve.

Module Points.

(** ** Encoding *)

Definition encode (P : point) : bytes :=
  le_digits 256 32 (P.2 mod p + 2 ^ 255 * ((P.1 mod p) mod 2)).

#[global] Instance encode_proper : Proper (pt_eq ==> eq) encode.
Proof. intros [x y] [x' y'] [E1 E2]. unfold encode. cbn [fst snd] in *. by rewrite E1, E2. Qed.

Lemma residue_range x : 0 <= x mod p < p.
Proof. apply Z.mod_pos_bound. by_eval. Qed.

Lemma p_bound : p < 2 ^ 255.
Proof. by_eval. Qed.

(** The sign goes to the top bit of the last byte. *)
Lemma set_sign v n :
  0 <= v < 2 ^ 255 -> n = 0 \/ n = 1 ->
  exists s, le_digits 256 32 v !! 31%nat = Some s
    /\ <[31%nat := u8 (Z.lxor s (n ≪ 7))]> (le_digits 256 32 v) = le_digits 256 32 (v + 2 ^ 255 * n).
Proof.
  intros Hv Hn. set (l := le_digits 256 32 v).
  assert (length l = 32%nat) as L by apply length_le_digits.
  assert (Forall (fun d => 0 <= d < 256) l) as R by (apply le_digits_range; lia).
  assert (le_val 256 l = v) as V by (unfold l; rewrite le_val_digits, Z.mod_small by lia; done).
  destruct (lookup_lt_is_Some_2 l 31 ltac:(lia)) as [s Hs]. exists s. split; [done|].
  pose proof (take_drop_middle _ _ _ Hs) as T. rewrite (drop_ge l 32) in T by lia.
  assert (le_val 256 (take 31 l) + 256 ^ 31 * s = v) as V'.
  { transitivity (le_val 256 (take 31 l ++ [s])); [|by rewrite T].
    rewrite le_val_app, length_take, L by lia. cbn [le_val Nat.min]. lia. }
  assert (Forall (fun d => 0 <= d < 256) (take 31 l)) as R1 by by apply Forall_take.
  pose proof (le_val_bound 256 ltac:(lia) _ R1) as B. rewrite length_take, L in B. cbn [Nat.min] in B.
  assert (0 <= s < 128) as Bs by (change (256 ^ Z.of_nat 31) with (256 ^ 31) in B; nia).
  assert (u8 (Z.lxor s (n ≪ 7)) = s + 128 * n) as ->.
  { unfold wrap. assert (n = 0 \/ n = 1) as [-> | ->] by done.
    - rewrite Z.shiftl_0_l, Z.lxor_0_r, Z.mod_small; lia.
    - rewrite <- Z.add_nocarry_lxor.
      + rewrite Z.mod_small; [|change (1 ≪ 7) with 128; lia]. change (1 ≪ 7) with 128. lia.
      + apply Z.bits_inj_0. intros i. rewrite Z.land_spec.
        change (1 ≪ 7) with (2 ^ 7). rewrite Z.pow2_bits_eqb by lia.
        destruct (Z.eqb_spec 7 i) as [<-|]; [|by rewrite andb_false_r].
        rewrite <- (Z.mod_small s (2 ^ 7)) by lia. by rewrite Z.mod_pow2_bits_high by lia. }
  rewrite <- T, insert_app_r_alt by (rewrite length_take; lia).
  rewrite length_take, L. cbn [Nat.min Nat.sub insert list_insert].
  apply (le_val_inj 256 ltac:(lia)).
  - apply Forall_app. split; [done|]. constructor; [lia|done].
  - apply le_digits_range. lia.
  - rewrite length_app, length_take, L, length_le_digits. done.
  - rewrite le_val_digits, le_val_app, length_take, L by lia. cbn [le_val Nat.min].
    change (256 ^ Z.of_nat 31) with (256 ^ 31). rewrite Z.mod_small; [|lia]. lia.
Qed.

Lemma mod_2_cases x : x mod 2 = 0 \/ x mod 2 = 1.
Proof. dlia. Qed.

Lemma compress_ok P z X Y Z :
  unit z -> rep 2 z Z -> rep 1 (P.1 * z) X -> rep 2 (P.2 * z) Y -> compress X Y Z = Some (encode P).
Proof.
  intros U RZ RX RY. unfold compress.
  destruct (fe_invert_rep 2 z Z RZ ltac:(lia)) as (r & -> & Rr). cbn [mbind option_bind].
  destruct (fe_mul_rep 1 1 _ _ X r RX Rr ltac:(lia) ltac:(lia)) as (x & -> & Rx). cbn [mbind option_bind].
  destruct (fe_mul_rep 2 1 _ _ Y r RY Rr ltac:(lia) ltac:(lia)) as (y & -> & Ry). cbn [mbind option_bind].
  assert (forall c, eqm p (c * z * z ^ (p - 2)) c) as C.
  { intros c. transitivity (c * (z * inv z)); [rewrite inv_def; eqm_ring|].
    rewrite inv_unit by done. eqm_ring. }
  rewrite (fe_tobytes_ok P.2); [|by eapply rep_as; [exact Ry|lia|apply C]].
  rewrite (fe_isnegative_ok P.1); [|by eapply rep_as; [exact Rx|lia|apply C]].
  cbn [mbind option_bind]. pose proof (residue_range P.2). pose proof p_bound.
  destruct (set_sign (P.2 mod p) ((P.1 mod p) mod 2) ltac:(lia) (mod_2_cases _)) as (s & -> & E).
  cbn [mbind option_bind]. by rewrite E.
Qed.

Lemma ge_tobytes_ok P h : rep_p2 P h -> ge_tobytes h = Some (encode P).
Proof. intros (z & U & RZ & RX & RY). by apply (compress_ok P z). Qed.

Lemma ge_p3_tobytes_ok P h : rep_p3 P h -> ge_p3_tobytes h = Some (encode P).
Proof. intros R%ge_p3_to_p2_rep. by apply (ge_tobytes_ok P (ge_p3_to_p2 h)). Qed.

(** ** Square roots *)

Lemma square_0 x : eqm p (x * x) 0 -> eqm p x 0.
Proof. by intros [|]%eqm_mul_0. Qed.

Lemma same_square x y : eqm p (x * x) (y * y) -> eqm p x y \/ eqm p x (- y).
Proof.
  intros E. assert (eqm p ((x - y) * (x + y)) 0) as [F|F]%eqm_mul_0.
  { eapply (combine_1 _ _ 1); [exact E|]. ring. }
  - left. eapply (combine_1 _ _ 1); [exact F|]. ring.
  - right. eapply (combine_1 _ _ 1); [exact F|]. ring.
Qed.

(** The candidate root of u / v. *)
Definition root (u v : Z) : Z := u * v ^ 3 * (u * v ^ 7) ^ ((p - 5) / 8).

(** v root^2 / u *)
Definition root_sign (u v : Z) : Z := (u * v ^ 7) ^ ((p - 1) / 4).

Lemma exponents : exists e, 0 <= e /\ 8 * e + 5 = p /\ (p - 5) / 8 = e /\ (p - 1) / 4 = 2 * e + 1.
Proof. exists ((p - 5) / 8). by_eval. Qed.

Lemma root_square u v : eqm p (v * root u v * root u v) (u * root_sign u v).
Proof.
  unfold root, root_sign. destruct exponents as (e & He & _ & -> & ->).
  rewrite Z.pow_add_r, Z.pow_1_r, <- (Z.add_diag e), Z.pow_add_r by lia. eqm_ring.
Qed.

Lemma root_sign_4 u v :
  ~ eqm p u 0 -> ~ eqm p v 0 -> let t := root_sign u v in eqm p (t * t * (t * t)) 1.
Proof.
  intros Hu Hv. cbn zeta. unfold root_sign. transitivity ((u * v ^ 7) ^ (p - 1)); [|apply fermat].
  - destruct exponents as (e & He & E & _ & ->).
    rewrite <- !Z.pow_add_r by lia. apply eqm_eq. f_equal. lia.
  - apply nonzero_mul; [done|]. change 7 with (1 + 2 * 3). rewrite Z.pow_add_r, Z.pow_mul_r, !Z.pow_2_r by lia.
    change 3 with (1 + 2). rewrite Z.pow_add_r, Z.pow_1_r, Z.pow_2_r, Z.pow_1_r by lia.
    by repeat apply nonzero_mul.
Qed.


Lemma root_exists u v x :
  eqm p (v * x * x) u ->
  eqm p (v * root u v * root u v) u \/ eqm p (v * root u v * root u v) (- u).
Proof.
  intros E. rewrite root_square. destruct (decide (eqm p u 0)) as [Hu|Hu].
  { left. eapply (combine_1 _ _ (root_sign u v - 1)); [exact Hu|]. ring. }
  assert (~ eqm p v 0) as Hv by (intros Hv; rewrite Hv in E; by apply Hu; rewrite <- E).
  assert (~ eqm p x 0) as Hx by (intros Hx; rewrite Hx, Z.mul_0_r in E; by apply Hu; rewrite <- E).
  assert (eqm p (root_sign u v * root_sign u v) (1 * 1)) as [T|T]%same_square.
  { set (w := v * v * v * v * x).
    assert (eqm p (u * v ^ 7) (w * w)) as W by (rewrite <- E; unfold w; eqm_ring).
    transitivity (w ^ (p - 1)); [|apply fermat; by repeat apply nonzero_mul].
    unfold root_sign. rewrite W. destruct exponents as (e & He & Ep & _ & ->).
    rewrite <- (Z.pow_2_r w), <- Z.pow_mul_r, <- Z.pow_add_r by lia. apply eqm_eq. f_equal. lia. }
  - left. rewrite T. eqm_ring.
  - right. rewrite T. eqm_ring.
Qed.

#[global] Opaque root root_sign.

(** ** Decoding *)

Lemma fix_root_ok u v b X V U :
  rep 1 b X -> rep 1 (b * b * v) V -> rep 2 u U ->
  (exists x X', fix_root X V U = Some (inr X') /\ rep 1 x X' /\ eqm p (v * x * x) u)
  \/ (fix_root X V U = Some (inl (-1)) /\ ~ eqm p (v * b * b) u /\ ~ eqm p (v * b * b) (- u)).
Proof.
  intros RX RV RU. unfold fix_root.
  destruct (fe_sub_rep 1 2 _ _ V U RV RU ltac:(lia)) as (c & -> & Rc). cbn [mbind option_bind].
  rewrite (fe_isnonzero_ok _ _ Rc). cbn [mbind option_bind].
  destruct (decide (eqm p (b * b * v - u) 0)) as [E|E]; cbn [Z.eqb].
  { left. exists b, X. split_and!; [done|done|]. eapply (combine_1 _ _ 1); [exact E|]. ring. }
  destruct (fe_add_rep 1 2 _ _ V U RV RU ltac:(lia)) as (c' & -> & Rc'). cbn [mbind option_bind].
  rewrite (fe_isnonzero_ok _ _ Rc'). cbn [mbind option_bind].
  destruct (decide (eqm p (b * b * v + u) 0)) as [F|F]; cbn [Z.eqb].
  - destruct (fe_mul_rep 1 1 _ _ X _ RX fe_sqrtm1_rep ltac:(lia) ltac:(lia)) as (X' & -> & RX').
    cbn [mbind option_bind]. left. exists (b * sqrtm1), X'. split_and!; [done|done|].
    transitivity (v * b * b * (sqrtm1 * sqrtm1)); [eqm_ring|]. rewrite sqrtm1_square.
    eapply (combine_1 _ _ (-1)); [exact F|]. ring.
  - right. split_and!; [done|..]; intros G; [apply E|apply F]; eapply (combine_1 _ _ 1); try exact G; ring.
Qed.

(** The parity of a residue tells a number from its opposite. *)
Lemma parity_opp x : ~ eqm p x 0 -> ((- x) mod p) mod 2 = 1 - (x mod p) mod 2.
Proof.
  unfold eqm. rewrite Zmod_0_l. intros Hx. rewrite Z_mod_nz_opp_full by done.
  assert (p mod 2 = 1) as Hp by by_eval. rewrite Zminus_mod, Hp.
  destruct (mod_2_cases (x mod p)) as [-> | ->]; done.
Qed.

Lemma fix_sign_ok x X t n :
  rep 1 x X -> t ≫ 7 = n -> n = 0 \/ n = 1 ->
  (exists x' X', fix_sign X t = Some (inr X') /\ rep 1 x' X' /\ (x' mod p) mod 2 = n
    /\ eqm p (x' * x') (x * x))
  \/ (fix_sign X t = Some (inl (-1)) /\ eqm p x 0 /\ n = 1).
Proof.
  intros RX Ht Hn. unfold fix_sign.
  rewrite (fe_isnegative_ok x) by (eapply rep_mono; [exact RX|lia]). cbn [mbind option_bind]. rewrite Ht.
  destruct (Z.eqb_spec ((x mod p) mod 2) n) as [E|E].
  { left. exists x, X. done. }
  rewrite (fe_isnonzero_ok x) by (eapply rep_mono; [exact RX|lia]). cbn [mbind option_bind].
  destruct (decide (eqm p x 0)) as [Z0|Z0]; cbn [Z.eqb].
  - right. split_and!; [done..|]. unfold eqm in Z0. rewrite Z0 in E.
    rewrite Zmod_0_l in E. change (0 mod 2) with 0 in E. lia.
  - destruct (fe_neg_rep 1 _ X RX ltac:(lia)) as (X' & -> & RX'). cbn [mbind option_bind]. left.
    exists (- x), X'. split_and!; [done|done| |eqm_ring].
    rewrite parity_opp by done. destruct (mod_2_cases (x mod p)); lia.
Qed.

(** The equation of the curve, for a given y. *)
Lemma on_curve_root x y : on_curve (x, y) <-> eqm p ((y * y * d + 1) * x * x) (y * y - 1).
Proof.
  unfold on_curve. cbn [fst snd].
  split; intros E; (eapply (combine_1 _ _ (-1)); [exact E|ring]).
Qed.

(** The denominator of x^2 is never zero on the curve. *)
Lemma denominator_nonzero x y : on_curve (x, y) -> ~ eqm p (y * y * d + 1) 0.
Proof.
  rewrite on_curve_root. intros E V. rewrite V in E. change (0 * x * x) with 0 in E.
  assert (eqm p (d + 1) 0) as D; [|revert D; by_eval].
  eapply (combine_2 _ _ 1 _ _ (d)); [exact V|exact E|]. ring.
Qed.

Lemma encode_eq P s :
  is_bytes s -> length s = 32%nat ->
  encode P = s <-> P.2 mod p = le_val 256 s mod 2 ^ 255 /\ (P.1 mod p) mod 2 = le_val 256 s / 2 ^ 255.
Proof.
  intros Hs Hl. unfold encode. set (n := (P.1 mod p) mod 2). set (y := P.2 mod p).
  assert (0 <= y < 2 ^ 255) as By by (pose proof (residue_range P.2); pose proof p_bound; unfold y; lia).
  assert (n = 0 \/ n = 1) as Bn by apply mod_2_cases. clearbody n y.
  assert (Forall (fun d => 0 <= d < 256) s) as Hs' by done.
  split.
  - intros <-. rewrite le_val_digits by lia. change (256 ^ Z.of_nat 32) with (2 ^ 256).
    rewrite (Z.mod_small (_ + _)) by lia.
    split; [apply (Z.mod_unique _ _ n); lia|apply (Z.div_unique _ _ _ y); lia].
  - intros [Ey En]. rewrite <- (le_digits_val 256 ltac:(lia) s Hs'), Hl. f_equal.
    rewrite Ey, En. pose proof (Z_div_mod_eq_full (le_val 256 s) (2 ^ 255)). lia.
Qed.

Lemma top_byte s t :
  is_bytes s -> length s = 32%nat -> s !! 31%nat = Some t -> t ≫ 7 = le_val 256 s / 2 ^ 255 /\ 0 <= t < 256.
Proof.
  intros Hs Hl Ht. assert (Forall (fun d => 0 <= d < 256) s) as Hs' by done.
  pose proof (take_drop_middle _ _ _ Ht) as T. rewrite (drop_ge s 32) in T by lia.
  assert (Forall (fun d => 0 <= d < 256) (take 31 s)) as R1 by by apply Forall_take.
  pose proof (le_val_bound 256 ltac:(lia) _ R1) as B. rewrite length_take, Hl in B. cbn [Nat.min] in B.
  rewrite Forall_lookup in Hs'. pose proof (Hs' _ _ Ht). split; [|done].
  rewrite <- T, le_val_app, length_take, Hl by lia. cbn [Nat.min le_val].
  rewrite shiftr_div by lia. change (2 ^ 7) with 128.
  change (2 ^ 255) with (256 ^ 31 * 128). change (256 ^ Z.of_nat 31) with (256 ^ 31) in *.
  set (low := le_val 256 (take 31 s)) in *. clearbody low.
  apply (Z.div_unique _ _ _ (low + 256 ^ 31 * (t mod 128))); pose proof (Z.mod_pos_bound t 128);
    pose proof (Z_div_mod_eq_full t 128); lia.
Qed.


(** What reading 32 bytes does: the point they encode, or -1 if there is none. *)
Definition decodes (s : bytes) (r : Z + ge_p3) : Prop :=
  match r with
  | inr h => exists P, rep_p3 P h /\ on_curve P /\ encode P = s
  | inl e => e = -1 /\ forall P, on_curve P -> encode P <> s
  end.

(** Two points of the curve with the same y have x or -x. *)
Lemma same_y x x' y : on_curve (x, y) -> on_curve (x', y) -> eqm p (x' * x') (x * x).
Proof.
  intros C C'. pose proof (denominator_nonzero x y C) as V. apply unit_nonzero in V.
  apply on_curve_root in C, C'. apply (unit_cancel _ _ _ V).
  eapply (combine_2 _ _ 1 _ _ (-1)); [exact C'|exact C|]. ring.
Qed.

(** A point of the curve is determined by its y and the parity of its x. *)
Lemma same_point P Q :
  on_curve P -> on_curve Q -> P.2 mod p = Q.2 mod p -> (P.1 mod p) mod 2 = (Q.1 mod p) mod 2 -> pt_eq P Q.
Proof.
  destruct P as [x y], Q as [x' y']. cbn [fst snd]. intros C C' Ey Ex.
  assert (eqm p x' x \/ eqm p x' (- x)) as [E|E].
  { apply same_square, (same_y x x' y C). eapply on_curve_proper; [|exact C']. by split. }
  - by split.
  - split; [|done]. cbn [fst snd]. destruct (decide (eqm p x 0)) as [Z0|Z0].
    { rewrite E, Z0. done. }
    exfalso. unfold eqm in E. rewrite E, parity_opp in Ex by done.
    destruct (mod_2_cases (x mod p)); lia.
Qed.

(** A point of the curve with the y and the parity of an encoding. *)
Lemma encoded P s y :
  is_bytes s -> length s = 32%nat -> y = le_val 256 s mod 2 ^ 255 -> y mod p = y ->
  on_curve P -> encode P = s -> on_curve (P.1, y) /\ (P.1 mod p) mod 2 = le_val 256 s / 2 ^ 255.
Proof.
  intros Hs Hl -> My C [Ey En]%encode_eq; [|done..]. split; [|done].
  eapply on_curve_proper; [|exact C]. split; cbn [fst snd]; [done|]. unfold eqm. by rewrite My.
Qed.

Lemma ge_frombytes_vartime_ok s :
  is_bytes s -> length s = 32%nat -> exists r, ge_frombytes_vartime s = Some r /\ decodes s r.
Proof.
  intros Hs Hl. unfold ge_frombytes_vartime.
  destruct (load_fe_ok s 23 Hs Hl ltac:(lia)) as (l & E & C & Fv).
  change (2 ^ 23 - 1) with 8388607 in E. change (232 + 23) with 255 in Fv. rewrite E. clear E.
  cbn [mbind option_bind]. rewrite (not_canonical_ok _ C). case_bool_decide as Hp.
  { eexists. split; [done|]. split; [done|]. intros P _ [Ey _]%encode_eq; [|done..].
    pose proof (residue_range P.2). lia. }
  destruct (fe_frombytes_ok 23 l C ltac:(auto)) as (Y & -> & RY). cbn [mbind option_bind].
  rewrite Fv in Hp, RY. set (y := le_val 256 s mod 2 ^ 255) in *.
  assert (0 <= y) by (apply Z.mod_pos_bound; lia).
  assert (y mod p = y) as My by (apply Z.mod_small; lia).
  pose proof fe_d_rep as Rd. pose proof fe_1_rep as R1.
  do 4 fe_step. change (1 + 1) with 2 in *.
  match goal with |- context [fe_divpowm1 ?f ?g] =>
    match goal with Hf : rep 2 ?u f, Hg : rep 2 ?v g |- _ =>
      destruct (fe_divpowm1_rep 2 2 u v f g Hf Hg ltac:(lia) ltac:(lia)) as (X & -> & RX);
      rename Hf into RU; change (rep 1 (root u v) X) in RX; set (b := root u v) in RX; cbn [mbind option_bind] end end.
  do 2 fe_step.
  match goal with |- context [fix_root X ?V ?U] =>
    match goal with HV : rep 1 _ V |- _ =>
      destruct (fix_root_ok _ _ _ X V U RX HV RU) as [(x & X' & -> & RX' & Ex)|(-> & N1 & N2)] end end;
    cbn [mbind option_bind].
  2: { eexists. split; [done|]. split; [done|]. intros P C0 E.
       destruct (encoded P s y Hs Hl eq_refl My C0 E) as [C1 _].
       apply on_curve_root, root_exists in C1 as [C1|C1]; [by apply N1|by apply N2]. }
  destruct (lookup_lt_is_Some_2 s 31 ltac:(lia)) as [t Ht]. rewrite Ht. cbn [mbind option_bind].
  destruct (top_byte s t Hs Hl Ht) as [Et Bt]. set (n := le_val 256 s / 2 ^ 255) in *.
  assert (n = 0 \/ n = 1) as Hn by (rewrite <- Et, shiftr_div by lia; dlia).
  destruct (fix_sign_ok x X' t n RX' Et Hn) as [(x' & X'' & -> & RX'' & Sx & Qx)|(-> & Zx & Hn1)];
    cbn [mbind option_bind].
  - destruct (fe_mul_rep 1 1 _ _ X'' Y RX'' RY ltac:(lia) ltac:(lia)) as (T & -> & RT).
    eexists. split; [done|]. exists (x', y). split_and!.
    + exists 1. cbn [fst snd p3_X p3_Y p3_Z p3_T]. rewrite !Z.mul_1_r. split_and!; try done. apply unit_1.
    + apply on_curve_root. rewrite <- Z.mul_assoc, Qx, Z.mul_assoc. exact Ex.
    + apply encode_eq; [done..|]. cbn [fst snd]. by rewrite My.
  - eexists. split; [done|]. split; [done|]. intros P C0 E.
    destruct (encoded P s y Hs Hl eq_refl My C0 E) as [C1 En].
    apply on_curve_root in Ex. pose proof (same_y _ _ _ Ex C1) as Q. rewrite Zx in Q.
    apply square_0 in Q. unfold eqm in Q. rewrite Q, Zmod_0_l in En. fold n in En. by rewrite Hn1 in En.
Qed.

End Points.
