(* ===== verification/HashPoint.v ===== *)
(** * A point from a hash

    ge_fromfe_frombytes_vartime of src/crypto/crypto-ops.c takes 32 bytes to a
    point of the curve.  For every input the asserts of the function hold (one
    of the four root constants fits, a root to negate is not zero, the result
    satisfies the equation of the curve) and the result is a point of the
    curve, within the bounds that ge_mul8 and ge_tobytes need. *)

From S2P Require Import Prelude Limbs Primality Scalar Fe Ge Curve Points.
Import Limbs Primality Fe Ge Curve Points.

Module HashPoint.

(** ** Facts about the constants *)

Definition A : Z := 486662.

Lemma two_squares : eqm p (Nat.iter 254 square 2) (- 2 ^ 10).
Proof. vm_compute. reflexivity. Qed.

Lemma two_nonsquare t w : eqm p (2 * (w * w)) (t * t) -> eqm p w 0.
Proof. apply nonsquare; [exact two_squares|by_eval..]. Qed.

Lemma one_nonzero : ~ eqm p 1 0.
Proof. by_eval. Qed.

Lemma A_nonzero : ~ eqm p A 0.
Proof. by_eval. Qed.

Lemma fffb_squares :
  eqm p (fval fe_fffb1 * fval fe_fffb1) (-2 * A * (A + 2))
  /\ eqm p (fval fe_fffb2 * fval fe_fffb2) (2 * A * (A + 2))
  /\ eqm p (fval fe_fffb3 * fval fe_fffb3) (- sqrtm1 * A * (A + 2))
  /\ eqm p (fval fe_fffb4 * fval fe_fffb4) (sqrtm1 * A * (A + 2)).
Proof. by_eval. Qed.

(** d is -(A - 2) / (A + 2). *)
Lemma d_of_A : eqm p (d * (A + 2)) (2 - A).
Proof. by_eval. Qed.

(** ** The map *)

Section map.

Context (u : Z).

Let v := 2 * (u * u).
Let w := v + 1.
Let x := w * w + - (A * A) * v.

Lemma w_nonzero : ~ eqm p w 0.
Proof.
  intros E. assert (eqm p u 0) as U.
  { apply (two_nonsquare sqrtm1). rewrite sqrtm1_square. eapply (combine_1 _ _ 1); [exact E|]. unfold w, v. ring. }
  apply one_nonzero. rewrite <- E. unfold w, v. rewrite U. eqm_ring.
Qed.

Lemma x_nonzero : ~ eqm p x 0.
Proof.
  intros E. assert (eqm p (A * u) 0) as [F|U]%eqm_mul_0.
  { apply (two_nonsquare w). eapply (combine_1 _ _ (-1)); [exact E|]. unfold x, w, v. ring. }
  - by apply A_nonzero.
  - apply one_nonzero. rewrite <- E. unfold x, w, v. rewrite U. eqm_ring.
Qed.

(** X^2 (z^2 + A z w + w^2) = -(A + 2) z w: z / w and X are the coordinates of
    a point, one on the Montgomery form of the curve, one on ours. *)
Definition maps (X z : Z) : Prop :=
  eqm p (X * X * (z * z + A * z * w + w * w)) (- (A + 2) * z * w).

Lemma maps_positive r t f :
  eqm p (x * r * r) (w * t) -> eqm p (t * (f * f)) (2 * A * (A + 2)) -> maps (r * f * u) (- A * v).
Proof.
  intros Er Ef. unfold maps.
  transitivity ((x * r * r) * (f * f) * (u * u)); [unfold x, w, v; eqm_ring|]. rewrite Er.
  transitivity (w * (t * (f * f)) * (u * u)); [eqm_ring|]. rewrite Ef. unfold w, v. eqm_ring.
Qed.

Lemma maps_negative r t f :
  eqm p (x * r * r) (w * t) -> eqm p (t * (f * f)) (A * (A + 2)) -> maps (r * f) (- A).
Proof.
  intros Er Ef. unfold maps.
  transitivity ((x * r * r) * (f * f)); [unfold x, w, v; eqm_ring|]. rewrite Er.
  transitivity (w * (t * (f * f))); [eqm_ring|]. rewrite Ef. eqm_ring.
Qed.

Lemma maps_opp X z : maps X z -> maps (- X) z.
Proof. unfold maps. by rewrite Z.mul_opp_opp. Qed.

Lemma maps_nonzero X z : maps X z -> ~ eqm p (z + w) 0.
Proof.
  unfold maps. intros M E.
  assert (eqm p z (- w)) as Ez by (eapply (combine_1 _ _ 1); [exact E|ring]).
  rewrite Ez in M.
  assert (eqm p (d * (X * X)) (1 * 1)) as D.
  { apply (unit_cancel ((A + 2) * (w * w))).
    { apply unit_nonzero, nonzero_mul; [by_eval|]. apply nonzero_mul; apply w_nonzero. }
    transitivity (d * (A + 2) * (X * X * (w * w))); [eqm_ring|]. rewrite d_of_A.
    eapply (combine_1 _ _ 1); [exact M|]. ring. }
  apply d_nonsquare in D as X0. rewrite X0 in D. apply one_nonzero. rewrite <- D. eqm_ring.
Qed.

Definition mapped (X z : Z) : point := (X, (z - w) * inv (z + w)).

Lemma mapped_y X z : maps X z -> eqm p ((mapped X z).2 * (z + w)) (z - w).
Proof.
  intros M%maps_nonzero. cbn [snd mapped].
  transitivity ((z - w) * ((z + w) * inv (z + w))); [eqm_ring|]. rewrite inv_ok by done. eqm_ring.
Qed.

Lemma mapped_curve X z : maps X z -> on_curve (mapped X z).
Proof.
  intros M. pose proof (mapped_y X z M) as Ey. pose proof (maps_nonzero X z M) as N. unfold maps in M.
  unfold on_curve. change ((mapped X z).1) with X. revert Ey. generalize ((mapped X z).2). intros y Ey.
  apply (unit_cancel ((z + w) * (z + w) * (A + 2))).
  { apply unit_nonzero. repeat apply nonzero_mul; [done..|by_eval]. }
  transitivity ((A + 2) * ((y * (z + w)) * (y * (z + w))) - (A + 2) * (X * X) * (z + w) * (z + w)); [eqm_ring|].
  transitivity ((A + 2) * (z + w) * (z + w)
    + d * (A + 2) * (X * X) * ((y * (z + w)) * (y * (z + w)))); [|eqm_ring].
  rewrite Ey, d_of_A. eapply (combine_1 _ _ (-4)); [exact M|]. ring.
Qed.

End map.


(** ** The steps of the function *)

Lemma assert_zero_ok x h : rep 3 x h -> eqm p x 0 -> assert_zero h = Some tt.
Proof. intros R E. unfold assert_zero. rewrite (fe_isnonzero_ok x) by done. by rewrite decide_True. Qed.

Lemma set_sign_of_ok x X sign :
  rep 1 x X -> sign = 0 \/ sign = 1 -> (sign = 1 -> ~ eqm p x 0) ->
  exists x' X', set_sign_of X sign = Some X' /\ rep 1 x' X' /\ (x' = x \/ x' = - x)
    /\ (x' mod p) mod 2 = sign.
Proof.
  intros R Hs Hx. unfold set_sign_of. assert (rep 3 x X) as R3 by by apply (rep_mono 1).
  rewrite (fe_isnegative_ok x) by done. cbn [mbind option_bind].
  destruct (Z.eqb_spec ((x mod p) mod 2) sign) as [E|E]; [exists x, X; auto|].
  assert (~ eqm p x 0) as Nx.
  { intros E0. assert (sign = 0) as -> by (destruct Hs; [done|]; by exfalso; apply Hx).
    unfold eqm in E0. by rewrite E0, Zmod_0_l in E. }
  rewrite (fe_isnonzero_ok x) by done. cbn [mbind option_bind]. rewrite decide_False by done. cbn [Z.eqb].
  destruct (fe_neg_rep 1 x X R ltac:(lia)) as (X' & -> & R'). exists (- x), X'. split_and!; auto.
  rewrite parity_opp by done. destruct (mod_2_cases (x mod p)), Hs; lia.
Qed.

(** A number whose fourth power is 1 is one of the four powers of sqrt(-1). *)
Lemma fourth_root t :
  eqm p (t * t * (t * t)) 1 ->
  eqm p t 1 \/ eqm p t (-1) \/ eqm p t (- sqrtm1) \/ eqm p t sqrtm1.
Proof.
  intros E. pose proof sqrtm1_square as I.
  destruct (same_square (t * t) 1) as [F|F]; [by rewrite E|..].
  - destruct (same_square t 1) as [G|G]; [by rewrite F|auto..].
  - destruct (same_square t sqrtm1) as [G|G]; [by rewrite F, I|auto..].
Qed.

Lemma fe_ma_within : within 0 486662 (- A) fe_ma.
Proof. split; [by_eval|done]. Qed.

Lemma fe_ma2_rep : rep 1 (- (A * A)) fe_ma2.
Proof. split; by_eval. Qed.

Lemma fe_1_within : within 0 1 1 fe_1.
Proof. split; [by_eval|done]. Qed.

Lemma fffb_reps :
  rep 1 (fval fe_fffb1) fe_fffb1 /\ rep 1 (fval fe_fffb2) fe_fffb2
  /\ rep 1 (fval fe_fffb3) fe_fffb3 /\ rep 1 (fval fe_fffb4) fe_fffb4.
Proof. unfold rep. split_and!; (done || by_eval). Qed.

(** A root with its sign and z, as the two branches leave them. *)
Definition branch (u : Z) (r : fe * fe * Z) : Prop :=
  let '(X, zh, sign) := r in
  exists xr z k e, rep 1 xr X /\ within k e z zh /\ maps u xr z /\ 0 <= k <= 1 /\ 0 <= e <= 486662
    /\ (k = 1 -> e = 0) /\ (sign = 0 \/ sign = 1 /\ ~ eqm p xr 0).

Section branches.

Context (u : Z).

Let v := 2 * (u * u).
Let w := v + 1.
Let x := w * w + - (A * A) * v.
Let r := root w x.
Let t := root_sign w x.

Lemma root_eq : eqm p (x * r * r) (w * t).
Proof. apply root_square. Qed.

Lemma t_fourth : eqm p (t * t * (t * t)) 1.
Proof. apply root_sign_4; [apply w_nonzero|apply x_nonzero]. Qed.

Lemma positive_root_ok X uh vh f c :
  rep 1 r X -> rep 1 u uh -> rep 1 v vh -> rep 1 c f -> eqm p (t * (c * c)) (2 * A * (A + 2)) ->
  exists res, positive_root X uh vh fe_ma f = Some res /\ branch u res.
Proof.
  intros RX Ru Rv Rf Ef. unfold positive_root.
  destruct (fe_mul_rep 1 1 _ _ X f RX Rf ltac:(lia) ltac:(lia)) as (X1 & -> & R1). cbn [mbind option_bind].
  destruct (fe_mul_rep 1 1 _ _ X1 uh R1 Ru ltac:(lia) ltac:(lia)) as (X2 & -> & R2). cbn [mbind option_bind].
  assert (rep 1 (- A) fe_ma) as Rma by (apply (within_rep 0 486662); [exact fe_ma_within|lia..]).
  destruct (fe_mul_tight 1 1 _ _ fe_ma vh Rma Rv ltac:(lia) ltac:(lia)) as (zh & -> & Tz).
  cbn [mbind option_bind]. eexists. split; [done|].
  exists (r * c * u), (- A * v), 1, 0. split_and!; [done|by apply tight_within| |lia..|auto].
  apply (maps_positive u r t c); [apply root_eq|done].
Qed.

Lemma negative_root_ok X wh xh :
  rep 1 r X -> rep 2 w wh -> rep 1 (w * t) xh -> ~ eqm p t 1 -> ~ eqm p t (-1) ->
  exists res, negative_root X wh xh fe_ma = Some res /\ branch u res.
Proof.
  intros RX Rw Rx N1 N2. unfold negative_root.
  pose proof w_nonzero u as Hw. pose proof sqrtm1_square as I.
  destruct fffb_squares as (_ & _ & Q3 & Q4). destruct fffb_reps as (_ & _ & R3 & R4).
  assert (forall f c, rep 1 c f -> ~ eqm p c 0 -> eqm p (t * (c * c)) (A * (A + 2)) ->
    exists X', fe_mul X f = Some X' /\ branch u (X', fe_ma, 1)) as Br.
  { intros f c Rf Nc Ef. destruct (fe_mul_rep 1 1 _ _ X f RX Rf ltac:(lia) ltac:(lia)) as (X1 & E & R1).
    exists X1. split; [done|]. exists (r * c), (- A), 0, 486662.
    assert (maps u (r * c) (- A)) as M by (apply (maps_negative u r t c); [apply root_eq|done]).
    split_and!; [done|exact fe_ma_within|done|lia..|]. right. split; [done|].
    apply nonzero_mul; [|done]. intros E0. pose proof root_eq as Er. rewrite E0, Z.mul_0_r in Er.
    symmetry in Er. apply eqm_mul_0 in Er as [Er|Er]; [exact (Hw Er)|].
    pose proof t_fourth as T4. rewrite Er in T4. apply one_nonzero. by rewrite <- T4. }
  destruct (fe_mul_rep 1 1 _ _ xh _ Rx fe_sqrtm1_rep ltac:(lia) ltac:(lia)) as (x1 & -> & Rx1).
  cbn [mbind option_bind].
  destruct (fe_sub_rep 2 1 _ _ wh x1 Rw Rx1 ltac:(lia)) as (y & -> & Ry). cbn [mbind option_bind].
  rewrite (fe_isnonzero_ok _ _ Ry). cbn [mbind option_bind].
  destruct (fourth_root t t_fourth) as [T|[T|[T|T]]]; [by destruct (N1 T)|by destruct (N2 T)|..].
  - rewrite decide_True; [|rewrite T; eapply (combine_1 _ _ w); [exact I|]; ring]. cbn [Z.eqb].
    destruct (Br fe_fffb4 (fval fe_fffb4) R4 ltac:(by_eval)) as (X' & -> & B).
    { rewrite Q4, T. eapply (combine_1 _ _ (- A * (A + 2))); [exact I|]. ring. }
    cbn [mbind option_bind]. eexists. split; [reflexivity|exact B].
  - assert (~ eqm p (w - w * t * sqrtm1) 0) as Ny.
    { rewrite T. intros E. assert (eqm p (2 * w) 0) as [E2|E2]%eqm_mul_0; [|revert E2; clear; by_eval|exact (Hw E2)].
      eapply (combine_2 _ _ 1 _ _ w); [exact E|exact I|]. ring. }
    rewrite (decide_False (P := eqm p (w - w * t * sqrtm1) 0)) by exact Ny. cbn [Z.eqb].
    destruct (fe_add_rep 2 1 _ _ wh x1 Rw Rx1 ltac:(lia)) as (y' & -> & Ry'). cbn [mbind option_bind].
    rewrite (assert_zero_ok _ _ Ry'); [|rewrite T; eapply (combine_1 _ _ w); [exact I|]; ring].
    cbn [mbind option_bind].
    destruct (Br fe_fffb3 (fval fe_fffb3) R3 ltac:(by_eval)) as (X' & -> & B).
    { rewrite Q3, T. eapply (combine_1 _ _ (- A * (A + 2))); [exact I|]. ring. }
    cbn [mbind option_bind]. eexists. split; [reflexivity|exact B].
Qed.

End branches.


Lemma check_curve_ok P z X Y Z :
  unit z -> on_curve P -> rep 1 (P.1 * z) X -> rep 2 (P.2 * z) Y -> rep 2 z Z ->
  check_curve X Y Z = Some tt.
Proof.
  intros U C RX RY RZ. unfold check_curve.
  destruct (fe_invert_rep 2 z Z RZ ltac:(lia)) as (iz & -> & Ri). cbn [mbind option_bind].
  rewrite <- inv_def in Ri. pose proof (inv_unit z U) as Ei. set (zi := inv z) in *. clearbody zi.
  destruct (fe_mul_rep 1 1 _ _ X iz RX Ri ltac:(lia) ltac:(lia)) as (x1 & -> & Rx1). cbn [mbind option_bind].
  destruct (fe_mul_rep 2 1 _ _ Y iz RY Ri ltac:(lia) ltac:(lia)) as (y1 & -> & Ry1). cbn [mbind option_bind].
  destruct (fe_sq_tight 1 _ x1 Rx1 ltac:(lia)) as (x2 & -> & Tx). cbn [mbind option_bind].
  destruct (fe_sq_tight 1 _ y1 Ry1 ltac:(lia)) as (y2 & -> & Ty). cbn [mbind option_bind].
  destruct (fe_mul_rep 1 1 _ _ x2 y2 (tight_rep _ _ Tx) (tight_rep _ _ Ty) ltac:(lia) ltac:(lia))
    as (v1 & -> & Rv1). cbn [mbind option_bind].
  destruct (fe_mul_tight 1 1 _ _ _ v1 fe_d_rep Rv1 ltac:(lia) ltac:(lia)) as (v2 & -> & Tv).
  cbn [mbind option_bind].
  destruct (fe_add_within 1 0 1 0 _ _ v2 x2 Tv Tx ltac:(lia) ltac:(lia)) as (v3 & -> & Wv3).
  cbn [mbind option_bind].
  destruct (fe_sub_within _ _ 1 0 _ _ v3 y2 Wv3 Ty ltac:(lia) ltac:(lia)) as (v4 & -> & Wv4).
  cbn [mbind option_bind].
  destruct (fe_add_within _ _ _ _ _ _ v4 fe_1 Wv4 fe_1_within ltac:(lia) ltac:(lia)) as (v5 & -> & Wv5).
  cbn [mbind option_bind]. eapply assert_zero_ok; [eapply within_rep; [exact Wv5|lia..]|].
  assert (forall c, eqm p (c * z * zi) c) as K.
  { intros c. transitivity (c * (z * zi)); [eqm_ring|]. rewrite Ei. eqm_ring. }
  rewrite !K. unfold on_curve in C. eapply (combine_1 _ _ (-1)); [exact C|]. ring.
Qed.

(** The last steps: sign, coordinates, check. *)
Lemma finish_ok u X zh sign wh :
  branch u (X, zh, sign) -> within 1 1 (2 * (u * u) + 1) wh ->
  exists h P, (X ← set_sign_of X sign;
               Z ← fe_add zh wh; Y ← fe_sub zh wh; X ← fe_mul X Z;
               _ ← check_curve X Y Z; Some (P2 X Y Z)) = Some h
    /\ rep_p2 P h /\ on_curve P.
Proof.
  intros (xr & z & k & e & RX & Wz & M & Hk & He & Hke & Hs) Ww.
  destruct (set_sign_of_ok xr X sign RX) as (x' & X' & -> & RX' & Ex & _);
    [destruct Hs as [|[]]; auto|intros ->; by destruct Hs as [|[]]|].
  cbn [mbind option_bind].
  assert (maps u x' z) as M' by (destruct Ex as [-> | ->]; [|apply maps_opp]; exact M).
  destruct (fe_add_within _ _ _ _ _ _ zh wh Wz Ww ltac:(lia) ltac:(lia)) as (Z & -> & WZ).
  destruct (fe_sub_within _ _ _ _ _ _ zh wh Wz Ww ltac:(lia) ltac:(lia)) as (Y & -> & WY).
  cbn [mbind option_bind].
  assert (forall x h, within (k + 1) (e + 1) x h -> rep 2 x h) as W2.
  { intros x h Wh. assert (k = 0 \/ k = 1) as [-> | ->] by lia.
    - apply (within_rep _ _ _ _ _ Wh); lia.
    - rewrite Hke in Wh by done. apply (within_rep _ _ _ _ _ Wh); lia. }
  apply W2 in WZ, WY.
  destruct (fe_mul_rep 1 2 _ _ X' Z RX' WZ ltac:(lia) ltac:(lia)) as (X2 & -> & RX2).
  cbn [mbind option_bind]. set (P := mapped u x' z).
  pose proof (mapped_curve u x' z M') as C. fold P in C.
  assert (unit (z + (2 * (u * u) + 1))) as U by (apply unit_nonzero, (maps_nonzero u x' z M')).
  assert (rep 2 (P.2 * (z + (2 * (u * u) + 1))) Y) as RY.
  { eapply rep_eqm; [exact WY|]. symmetry. apply (mapped_y u x' z M'). }
  rewrite (check_curve_ok P _ X2 Y Z U C RX2 RY WZ). cbn [mbind option_bind].
  eexists _, P. split; [reflexivity|]. split; [|exact C]. by exists (z + (2 * (u * u) + 1)).
Qed.

Lemma times_sign t e c q y : eqm p t e -> eqm p (c * c) q -> e * q = y -> eqm p (t * (c * c)) y.
Proof. intros -> -> <-. done. Qed.

(** The choice of the root constant. *)
Lemma choose_root u X uh vh wh xh :
  let v := 2 * (u * u) in let w := v + 1 in let x := w * w + - (A * A) * v in
  rep 1 (root w x) X -> rep 1 u uh -> rep 1 v vh -> rep 2 w wh -> rep 1 (root w x * root w x * x) xh ->
  exists n y res, fe_sub wh xh = Some y /\ fe_isnonzero y = Some n
    /\ (if n =? 0 then positive_root X uh vh fe_ma fe_fffb2 else
         y ← fe_add wh xh; n ← fe_isnonzero y;
         if n =? 0 then positive_root X uh vh fe_ma fe_fffb1 else negative_root X wh xh fe_ma) = Some res
    /\ branch u res.
Proof.
  intros v w x RX Ru Rv Rw Rx. set (t := root_sign w x).
  assert (rep 1 (w * t) xh) as Rx'.
  { eapply rep_eqm; [exact Rx|]. transitivity (x * root w x * root w x); [eqm_ring|]. apply (root_eq u). }
  pose proof (w_nonzero u) as Hw. fold v in Hw. fold w in Hw.
  destruct fffb_squares as (Q1 & Q2 & _). destruct fffb_reps as (R1 & R2 & _).
  destruct (fe_sub_rep 2 1 _ _ wh xh Rw Rx' ltac:(lia)) as (y & -> & Ry).
  pose proof (fe_isnonzero_ok _ _ Ry) as En.
  destruct (decide (eqm p (w - w * t) 0)) as [E|E].
  { destruct (positive_root_ok u X uh vh fe_fffb2 (fval fe_fffb2) RX Ru Rv R2) as (res & Eq & B).
    - apply (times_sign _ 1 _ (2 * A * (A + 2))); [|exact Q2|reflexivity].
      { change (eqm p t 1). apply (unit_cancel w); [by apply unit_nonzero|]. eapply (combine_1 _ _ (-1)); [exact E|]. ring. }
    - exists 0, y, res. split_and!; [reflexivity|exact En|exact Eq|exact B]. }
  destruct (fe_add_rep 2 1 _ _ wh xh Rw Rx' ltac:(lia)) as (y' & -> & Ry').
  destruct (decide (eqm p (w + w * t) 0)) as [E'|E'].
  { destruct (positive_root_ok u X uh vh fe_fffb1 (fval fe_fffb1) RX Ru Rv R1) as (res & Eq & B).
    - apply (times_sign _ (-1) _ (-2 * A * (A + 2))); [|exact Q1|reflexivity].
      { change (eqm p t (-1)). apply (unit_cancel w); [by apply unit_nonzero|]. eapply (combine_1 _ _ 1); [exact E'|]. ring. }
    - exists 1, y, res. split_and!; [reflexivity|exact En| |exact B]. cbn [Z.eqb mbind option_bind].
      rewrite (fe_isnonzero_ok _ _ Ry'). cbn [mbind option_bind].
      rewrite (decide_True (P := eqm p (w + w * t) 0)) by exact E'. exact Eq. }
  destruct (negative_root_ok u X wh xh RX Rw Rx') as (res & Eq & B).
  - intros T. apply E. fold v w x t in T. rewrite T. eqm_ring.
  - intros T. apply E'. fold v w x t in T. rewrite T. eqm_ring.
  - exists 1, y, res. split_and!; [reflexivity|exact En| |exact B]. cbn [Z.eqb mbind option_bind].
    rewrite (fe_isnonzero_ok _ _ Ry'). cbn [mbind option_bind].
    rewrite (decide_False (P := eqm p (w + w * t) 0)) by exact E'. exact Eq.
Qed.

Lemma ge_fromfe_ok s :
  is_bytes s -> length s = 32%nat ->
  exists h P, ge_fromfe_frombytes_vartime s = Some h /\ rep_p2 P h /\ on_curve P.
Proof.
  intros Hs Hl. unfold ge_fromfe_frombytes_vartime.
  destruct (load_fe_ok s 24 Hs Hl ltac:(lia)) as (l & E & C & Fv).
  change (2 ^ 24 - 1) with 16777215 in E. rewrite E. clear E. cbn [mbind option_bind].
  destruct (fe_frombytes_ok 24 l C ltac:(auto)) as (uh & -> & Ru). cbn [mbind option_bind].
  set (u := fval l) in *. clearbody u. clear Fv C.
  destruct (fe_sq2_tight 1 u uh Ru ltac:(lia)) as (vh & -> & Tv). cbn [mbind option_bind].
  destruct (fe_add_within 1 0 0 1 _ _ vh fe_1 Tv fe_1_within ltac:(lia) ltac:(lia)) as (wh & -> & Ww).
  cbn [mbind option_bind]. change (1 + 0) with 1 in Ww. change (0 + 1) with 1 in Ww.
  pose proof (tight_rep _ _ Tv) as Rv.
  assert (rep 2 (2 * (u * u) + 1) wh) as Rw by (apply (within_rep 1 1 _ _ _ Ww); lia).
  destruct (fe_sq_rep 2 _ wh Rw ltac:(lia)) as (x1 & -> & Rx1). cbn [mbind option_bind].
  destruct (fe_mul_rep 1 1 _ _ _ vh fe_ma2_rep Rv ltac:(lia) ltac:(lia)) as (y1 & -> & Ry1).
  cbn [mbind option_bind].
  destruct (fe_add_rep 1 1 _ _ x1 y1 Rx1 Ry1 ltac:(lia)) as (x2 & -> & Rx2). cbn [mbind option_bind].
  destruct (fe_divpowm1_rep 2 2 _ _ wh x2 Rw Rx2 ltac:(lia) ltac:(lia)) as (X & -> & RX).
  cbn [mbind option_bind].
  match type of RX with rep 1 (?a * ?b ^ 3 * _) X => change (rep 1 (root a b) X) in RX end.
  destruct (fe_sq_rep 1 _ X RX ltac:(lia)) as (y2 & -> & Ry2). cbn [mbind option_bind].
  destruct (fe_mul_rep 1 2 _ _ y2 x2 Ry2 Rx2 ltac:(lia) ltac:(lia)) as (x3 & -> & Rx3).
  cbn [mbind option_bind].
  destruct (choose_root u X uh vh wh x3) as (n & y3 & res & -> & En & Er & Br); [done..|].
  cbn [mbind option_bind]. unfold fe_copy. rewrite En. cbn [mbind option_bind]. rewrite Er.
  cbn [mbind option_bind]. destruct res as [[X' z] sign]. by apply (finish_ok u).
Qed.

End HashPoint.
