(* ===== verification/Recode.v ===== *)
(** * Signed digits of scalars

    src/crypto/crypto-ops.c: [slide], which rewrites the 256 bits of a scalar
    into sparse odd digits between -15 and 15 for the double multiplications,
    and the radix-16 digits between -8 and 8 that ge_scalarmult_base and
    ge_scalarmult compute.  The theorems: the digits are in the stated
    ranges and stand for the same number, as long as no carry leaves the top;
    for the slides that needs the scalar below 2^254, and the scalar of 32
    bytes 255 shows it cannot be dropped. *)

From S2P Require Import Prelude Limbs.
Import Limbs.

Module Recode.

(** ** The sliding digits *)

Definition at_ (r : list Z) (i : nat) : Z := nth i r 0.

(** r[i] = 1 & (a[i >> 3] >> (i & 7)) *)
Definition slide_bits (a : bytes) : list Z :=
  map (fun i => Z.land 1 (at_ a (i / 8) ≫ Z.of_nat (i mod 8))) (seq 0 256).

(** The loop on k: add one at position [k]; [n] positions are left. *)
Fixpoint slide_carry (n k : nat) (r : list Z) : list Z :=
  match n with
  | O => r
  | S n => if at_ r k =? 0 then <[k := 1]> r else slide_carry n (S k) (<[k := 0]> r)
  end.

(** The loop on b, the values still to come in [bs]. *)
Fixpoint slide_absorb (bs : list nat) (i : nat) (r : list Z) : list Z :=
  match bs with
  | [] => r
  | b :: bs =>
      if Nat.leb 256 (i + b) then r else
      let x := at_ r (i + b) ≪ Z.of_nat b in
      if at_ r (i + b) =? 0 then slide_absorb bs i r
      else if at_ r i + x <=? 15 then
        slide_absorb bs i (<[(i + b)%nat := 0]> (<[i := at_ r i + x]> r))
      else if -15 <=? at_ r i - x then
        slide_absorb bs i (slide_carry (256 - (i + b)) (i + b) (<[i := at_ r i - x]> r))
      else r
  end.

Definition slide_at (r : list Z) (i : nat) : list Z :=
  if at_ r i =? 0 then r else slide_absorb (seq 1 6) i r.

Definition slide (a : bytes) : list Z := foldl slide_at (slide_bits a) (seq 0 256).

(** ** Radix 16 *)

(** e[2i], e[2i+1] of ge_scalarmult_base before the carries. *)
Definition nibbles (a : bytes) : list Z :=
  mjoin (map (fun x => [Z.land (x ≫ 0) 15; Z.land (x ≫ 4) 15]) a).

(** The carries over all digits but the last. *)
Fixpoint nibble_carries (carry : Z) (e : list Z) : list Z :=
  match e with
  | [] => []
  | [x] => [x + carry]
  | x :: e =>
      let x := x + carry in
      let carry := (x + 8) ≫ 4 in
      (x - carry ≪ 4) :: nibble_carries carry e
  end.

Definition base_digits (a : bytes) : list Z := nibble_carries 0 (nibbles a).

(** The digits of ge_scalarmult, byte by byte. *)
Fixpoint byte_digits (carry : Z) (a : bytes) : list Z :=
  match a with
  | [] => []
  | [x] =>
      let carry := carry + x in
      let carry2 := (carry + 8) ≫ 4 in
      [carry - carry2 ≪ 4; carry2]
  | x :: a =>
      let carry := carry + x in
      let carry2 := (carry + 8) ≫ 4 in
      let carry' := (carry2 + 8) ≫ 4 in
      (carry - carry2 ≪ 4) :: (carry2 - carry' ≪ 4) :: byte_digits carry' a
  end.

Definition scalarmult_digits (a : bytes) : list Z := byte_digits 0 a.



(** ** Radix 16: the same number, digits between -8 and 8 *)

Abbreviation num := (le_val 256).

Lemma nibbles_val a : is_bytes a -> le_val 16 (nibbles a) = num a.
Proof.
  unfold nibbles. induction 1 as [|x a Hx Ha IH]; [done|]. cbn [map]. rewrite mjoin_cons.
  cbn [app le_val]. rewrite IH. unfold fits in Hx.
  change 15 with (2 ^ 4 - 1). rewrite !land_mask, !shiftr_div by lia.
  change (2 ^ 0) with 1. rewrite Z.div_1_r. dlia.
Qed.

Lemma nibbles_range a : is_bytes a -> Forall (fun x => 0 <= x <= 15) (nibbles a).
Proof.
  unfold nibbles. induction 1 as [|x a Hx Ha IH]; [constructor|]. cbn [map]. rewrite mjoin_cons.
  apply Forall_app. split; [|done]. change 15 with (2 ^ 4 - 1).
  rewrite !land_mask by lia. repeat constructor;
    pose proof (Z.mod_pos_bound (x ≫ 0) (2 ^ 4)); pose proof (Z.mod_pos_bound (x ≫ 4) (2 ^ 4)); lia.
Qed.

Lemma nibble_carries_val c e : e <> [] -> le_val 16 (nibble_carries c e) = le_val 16 e + c.
Proof.
  revert c. induction e as [|x e IH]; intros c He; [done|]. destruct e as [|y e]; [cbn; lia|].
  cbn [nibble_carries le_val] in *. rewrite IH by done. rewrite shiftl_mul by lia. lia.
Qed.

Lemma nibble_carries_range c e top :
  0 <= c <= 1 -> Forall (fun x => 0 <= x <= 15) e -> list.last e = Some top -> top <= 7 ->
  Forall (fun x => -8 <= x <= 8) (nibble_carries c e).
Proof.
  intros Hc He. revert c Hc. induction He as [|x e Hx He IH]; intros c Hc Ht Htop; [done|].
  destruct e as [|y e].
  - injection Ht as ->. constructor; [lia|constructor].
  - cbn [nibble_carries]. rewrite shiftl_mul, shiftr_div by lia. constructor; [dlia|].
    apply IH; [dlia|done|done].
Qed.

Lemma length_nibble_carries c e : length (nibble_carries c e) = length e.
Proof.
  revert c. induction e as [|x [|y e] IH]; intros c; [done..|]. cbn [nibble_carries length] in *.
  by rewrite IH.
Qed.

Lemma nibbles_last a x :
  list.last a = Some x -> list.last (nibbles a) = Some (Z.land (x ≫ 4) 15).
Proof.
  unfold nibbles. induction a as [|y a IH]; intros H; [done|]. cbn [map]. rewrite mjoin_cons.
  destruct a as [|z a]; [by injection H as ->|]. rewrite last_app, IH by done. done.
Qed.

Lemma length_nibbles a : length (nibbles a) = (2 * length a)%nat.
Proof.
  unfold nibbles. induction a as [|x a IH]; [done|]. cbn [map]. rewrite mjoin_cons.
  rewrite length_app, IH. cbn. lia.
Qed.

Lemma base_digits_ok a x :
  is_bytes a -> list.last a = Some x -> x <= 127 ->
  le_val 16 (base_digits a) = num a /\ Forall (fun e => -8 <= e <= 8) (base_digits a)
  /\ length (base_digits a) = (2 * length a)%nat.
Proof.
  intros Ha Hl Hx. unfold base_digits.
  assert (fits 8 x) as Bx.
  { apply last_Some in Hl as [a' ->]. apply Forall_app in Ha as [_ Ha]. by inversion Ha. }
  split; [|split].
  - rewrite nibble_carries_val, nibbles_val by (done || (intros E; apply (f_equal length) in E;
      rewrite length_nibbles in E; destruct a; done)). lia.
  - eapply nibble_carries_range; [lia|by apply nibbles_range|by apply nibbles_last|].
    change 15 with (2 ^ 4 - 1). rewrite land_mask, shiftr_div by lia. unfold fits in Bx. dlia.
  - by rewrite length_nibble_carries, length_nibbles.
Qed.

Lemma byte_digits_ok c a x :
  is_bytes a -> 0 <= c <= 1 -> list.last a = Some x -> x <= 127 ->
  le_val 16 (byte_digits c a) = num a + c /\ Forall (fun e => -8 <= e <= 8) (byte_digits c a)
  /\ length (byte_digits c a) = (2 * length a)%nat.
Proof.
  intros Ha. revert c. induction Ha as [|y a Hy Ha IH]; intros c Hc Hl Hx; [done|]. unfold fits in Hy.
  destruct a as [|y' a].
  - injection Hl as ->. cbn [byte_digits le_val length]. rewrite shiftl_mul, shiftr_div by lia.
    split; [lia|]. split; [|done]. repeat constructor; dlia.
  - set (c2 := (c + y + 8) ≫ 4). set (c' := (c2 + 8) ≫ 4).
    change (byte_digits c (y :: y' :: a))
      with ((c + y - c2 ≪ 4) :: (c2 - c' ≪ 4) :: byte_digits c' (y' :: a)).
    assert (0 <= c2 <= 16) by (unfold c2; rewrite shiftr_div by lia; dlia).
    assert (0 <= c' <= 1) by (unfold c'; rewrite shiftr_div by lia; dlia).
    destruct (IH c' ltac:(done) Hl Hx) as (V & R & L).
    rewrite !shiftl_mul by lia. split_and!.
    + change (num (y :: y' :: a)) with (y + 256 * num (y' :: a)).
      change (le_val 16 (?u :: ?v :: byte_digits c' (y' :: a)))
        with (u + 16 * (v + 16 * le_val 16 (byte_digits c' (y' :: a)))).
      rewrite V. lia.
    + constructor; [unfold c2; rewrite shiftr_div by lia; dlia|].
      constructor; [unfold c'; rewrite shiftr_div by lia; dlia|done].
    + change (S (S (length (byte_digits c' (y' :: a)))) = (2 * S (length (y' :: a)))%nat). lia.
Qed.

Lemma scalarmult_digits_ok a x :
  is_bytes a -> list.last a = Some x -> x <= 127 ->
  le_val 16 (scalarmult_digits a) = num a /\ Forall (fun e => -8 <= e <= 8) (scalarmult_digits a)
  /\ length (scalarmult_digits a) = (2 * length a)%nat.
Proof.
  intros Ha Hl Hx. destruct (byte_digits_ok 0 a x Ha ltac:(lia) Hl Hx) as (V & R & L).
  split_and!; [unfold scalarmult_digits; lia|done..].
Qed.


(** ** The sliding digits *)

Definition bit (x : Z) : Prop := x = 0 \/ x = 1.

(** Zero or odd, between -15 and 15. *)
Definition sliding (x : Z) : Prop := x = 0 \/ (Z.odd x = true /\ -15 <= x <= 15).

Lemma at_insert r i j x :
  (i < length r)%nat -> at_ (<[i := x]> r) j = if Nat.eqb i j then x else at_ r j.
Proof.
  intros Hi. unfold at_. destruct (Nat.eqb_spec i j) as [-> |Hn].
  - apply nth_lookup_Some. by apply list_lookup_insert_eq.
  - rewrite !nth_lookup. by rewrite list_lookup_insert_ne.
Qed.

Lemma at_lookup r i : (i < length r)%nat -> r !! i = Some (at_ r i).
Proof. intros. by apply lookup_nth. Qed.

Lemma val_insert r i x :
  (i < length r)%nat -> le_val 2 (<[i := x]> r) = le_val 2 r + 2 ^ Z.of_nat i * (x - at_ r i).
Proof.
  unfold at_. revert i. induction r as [|y r IH]; intros [|i] Hi; cbn [length] in Hi; try lia.
  - cbn [insert list_insert le_val nth]. lia.
  - cbn [insert list_insert le_val nth].
    rewrite IH by lia. rewrite Nat2Z.inj_succ, Z.pow_succ_r by lia. lia.
Qed.

Lemma slide_carry_ok n k r :
  (k + n = length r)%nat -> (forall j, k <= j -> bit (at_ r j))%nat ->
  let r' := slide_carry n k r in
  length r' = length r /\ (forall j, j < k -> at_ r' j = at_ r j)%nat
  /\ (forall j, k <= j -> bit (at_ r' j))%nat
  /\ (le_val 2 r' = le_val 2 r + 2 ^ Z.of_nat k
      \/ forall j, (k <= j < length r)%nat -> at_ r j = 1).
Proof.
  revert k r. induction n as [|n IH]; intros k r Hl Hb; cbn [slide_carry]; cbv zeta.
  { split_and!; [done..|]. right. lia. }
  destruct (Hb k ltac:(lia)) as [E|E]; rewrite E; cbn [Z.eqb].
  - rewrite length_insert. split_and!; [done|..].
    + intros j Hj. rewrite at_insert by lia. by destruct (Nat.eqb_spec k j); [lia|].
    + intros j Hj. rewrite at_insert by lia. destruct (Nat.eqb_spec k j); [by right|by apply Hb].
    + left. rewrite val_insert by lia. rewrite E. lia.
  - destruct (IH (S k) (<[k := 0]> r)) as (L & A & B & V).
    { rewrite length_insert. lia. }
    { intros j Hj. rewrite at_insert by lia. destruct (Nat.eqb_spec k j); [by left|apply Hb; lia]. }
    rewrite length_insert in *. split_and!; [done|..].
    + intros j Hj. rewrite A, at_insert by lia. by destruct (Nat.eqb_spec k j); [lia|].
    + intros j Hj. destruct (decide (j = k)) as [-> |]; [|apply B; lia].
      rewrite A, at_insert, Nat.eqb_refl by lia. by left.
    + destruct V as [V|V]; [left|right].
      * rewrite V, val_insert, E, Nat2Z.inj_succ, Z.pow_succ_r by lia. lia.
      * intros j Hj. destruct (decide (j = k)) as [-> |]; [done|].
        specialize (V j ltac:(lia)). rewrite at_insert in V by lia.
        by destruct (Nat.eqb_spec k j); [lia|].
Qed.

Lemma val_bits_nonneg r : (forall j, bit (at_ r j)) -> 0 <= le_val 2 r.
Proof.
  induction r as [|x r IH]; intros Hb; cbn [le_val]; [lia|].
  specialize (IH (fun j => Hb (S j))). destruct (Hb O) as [E|E]; cbn in E; lia.
Qed.

Lemma val_ones r : (forall j, (j < length r)%nat -> at_ r j = 1) -> le_val 2 r = 2 ^ Z.of_nat (length r) - 1.
Proof.
  induction r as [|x r IH]; intros H; cbn [le_val length]; [lia|].
  rewrite IH by (intros j Hj; apply (H (S j)); cbn; lia).
  pose proof (H O ltac:(cbn; lia)) as E. cbn in E.
  rewrite Nat2Z.inj_succ, Z.pow_succ_r by lia. lia.
Qed.

Lemma at_drop r k j : at_ (drop k r) j = at_ r (k + j).
Proof. unfold at_. rewrite !nth_lookup, lookup_drop. done. Qed.

Lemma val_split k r :
  (k <= length r)%nat ->
  le_val 2 r = le_val 2 (take k r) + 2 ^ Z.of_nat k * le_val 2 (drop k r).
Proof.
  intros Hk. rewrite <- (take_drop k r) at 1. rewrite le_val_app by lia.
  by rewrite length_take, Nat.min_l by lia.
Qed.

(** A number whose bits are all one from [i + b] on is at least this big. *)
Lemma val_top_ones i b r :
  length r = 256%nat -> (i + b < 256)%nat -> (0 < b)%nat ->
  (forall j, i < j -> bit (at_ r j))%nat -> (forall j, (i + b <= j < 256)%nat -> at_ r j = 1) ->
  le_val 2 (take i r) + 2 ^ Z.of_nat i * at_ r i + (2 ^ 256 - 2 ^ Z.of_nat (i + b)) <= le_val 2 r.
Proof.
  intros L Hi Hb HB H1. rewrite (val_split i r) by lia.
  rewrite (drop_S r (at_ r i) i) by (apply at_lookup; lia). cbn [le_val].
  rewrite (val_split (b - 1) (drop (S i) r)) by (rewrite length_drop; lia).
  rewrite drop_drop. replace (S i + (b - 1))%nat with (i + b)%nat by lia.
  rewrite (val_ones (drop (i + b) r)).
  - assert (0 <= le_val 2 (take (b - 1) (drop (S i) r))).
    { apply val_bits_nonneg. intros j. unfold at_. rewrite nth_lookup.
      destruct (decide (j < b - 1)%nat) as [Hj|Hj].
      - rewrite lookup_take_lt, lookup_drop by lia. fold (at_ r (S i + j)).
        rewrite <- nth_lookup. apply HB. lia.
      - rewrite lookup_take_ge by lia. by left. }
    rewrite length_drop, L.
    assert (2 ^ 256 = 2 ^ Z.of_nat (i + b) * 2 ^ Z.of_nat (256 - (i + b))) as ->.
    { rewrite <- Z.pow_add_r by lia. f_equal. lia. }
    assert (2 ^ Z.of_nat (i + b) = 2 ^ Z.of_nat i * (2 * 2 ^ Z.of_nat (b - 1))) as ->.
    { rewrite <- Z.pow_succ_r, <- Z.pow_add_r by lia. f_equal. lia. }
    assert (0 < 2 ^ Z.of_nat i) by (apply Z.pow_pos_nonneg; lia). nia.
  - rewrite length_drop, L. intros j Hj. rewrite at_drop. apply H1. lia.
Qed.


(** The state of the inner loop at [i]: the digits below are done, the digit
    at [i] is odd, the bits above are bits, and the number is still [V]. *)
Record absorbing (V : Z) (i : nat) (low r : list Z) : Prop := {
  ab_length : length r = 256%nat;
  ab_low : take i r = low;
  ab_digit : Z.odd (at_ r i) = true /\ -15 <= at_ r i <= 15;
  ab_bits : forall j, (i < j)%nat -> bit (at_ r j);
  ab_value : le_val 2 r = V
}.

(** No carry is lost below 2^254. *)
Lemma carry_room V i b low r :
  absorbing V i low r -> V < 2 ^ 254 -> (i + b < 256)%nat -> (0 < b)%nat ->
  - (5 * 2 ^ Z.of_nat i) <= le_val 2 low ->
  15 < at_ r i + 1 ≪ Z.of_nat b -> -15 <= at_ r i - 1 ≪ Z.of_nat b ->
  ~ (forall j, (i + b <= j < 256)%nat -> at_ r j = 1).
Proof.
  intros [L Lo [_ D] B Vr] HV Hi Hb Hlow C1 C2 H1.
  pose proof (val_top_ones i b r L Hi Hb ltac:(intros; by apply B) H1) as T.
  rewrite Lo, Vr in T. rewrite shiftl_mul, Z.mul_1_l in * by lia.
  assert (b <= 4)%nat.
  { destruct (decide (b <= 4)%nat); [done|]. pose proof (Z.pow_le_mono_r 2 5 (Z.of_nat b)). lia. }
  assert (2 ^ Z.of_nat (i + b) <= 2 ^ 255) as P by (apply Z.pow_le_mono_r; lia).
  rewrite Nat2Z.inj_add, Z.pow_add_r in * by lia.
  assert (0 < 2 ^ Z.of_nat i) by (apply Z.pow_pos_nonneg; lia).
  assert (2 ^ Z.of_nat b = 2 \/ 2 ^ Z.of_nat b = 4 \/ 2 ^ Z.of_nat b = 8 \/ 2 ^ Z.of_nat b = 16) as K.
  { destruct b as [|[|[|[|[|]]]]]; try lia; auto. }
  set (m := 2 ^ Z.of_nat i) in *. clearbody m.
  assert (16 - 2 ^ Z.of_nat b <= at_ r i) as D1 by lia.
  assert (m * (16 - 2 ^ Z.of_nat b) <= m * at_ r i) by nia.
  destruct K as [K|[K|[K|K]]]; rewrite K in *; lia.
Qed.

Lemma even_shift b : (0 < b)%nat -> Z.even (1 ≪ Z.of_nat b) = true.
Proof.
  intros. rewrite shiftl_mul, Z.mul_1_l by lia.
  replace (Z.of_nat b) with (Z.succ (Z.of_nat (b - 1))) by lia.
  rewrite Z.pow_succ_r by lia. by rewrite Z.even_mul.
Qed.

(** The bit at [i + b] is added to the digit. *)
Lemma absorbing_add V i b low r :
  absorbing V i low r -> (0 < b)%nat -> (i + b < 256)%nat -> at_ r (i + b) = 1 ->
  at_ r i + 1 ≪ Z.of_nat b <= 15 ->
  let r' := <[(i + b)%nat := 0]> (<[i := at_ r i + 1 ≪ Z.of_nat b]> r) in
  absorbing V i low r' /\ (forall m, (i < m < i + b)%nat -> at_ r' m = at_ r m).
Proof.
  intros [L Lo [Od D] B Vr] Hb Hi E C. cbv zeta. set (x := at_ r i + _) in *.
  assert (forall j, at_ (<[(i + b)%nat := 0]> (<[i := x]> r)) j
    = if Nat.eqb (i + b) j then 0 else if Nat.eqb i j then x else at_ r j) as K.
  { intros j. rewrite !at_insert by (rewrite ?length_insert; lia). done. }
  split; [split|].
  - by rewrite !length_insert.
  - by rewrite !take_insert_ge by lia.
  - rewrite K, Nat.eqb_refl. destruct (Nat.eqb_spec (i + b) i); [lia|]. unfold x in *. split.
    + by rewrite Z.odd_add, Od, <- Z.negb_even, even_shift.
    + rewrite shiftl_mul in * by lia. pose proof (Z.pow_pos_nonneg 2 (Z.of_nat b)). lia.
  - intros j Hj. rewrite K. destruct (Nat.eqb_spec (i + b) j); [by left|].
    destruct (Nat.eqb_spec i j); [lia|by apply B].
  - rewrite !val_insert by (rewrite ?length_insert; lia). rewrite at_insert by lia.
    destruct (Nat.eqb_spec i (i + b)); [lia|]. unfold x.
    rewrite E, shiftl_mul, Nat2Z.inj_add, Z.pow_add_r by lia. lia.
  - intros m Hm. rewrite K. destruct (Nat.eqb_spec (i + b) m); [lia|].
    by destruct (Nat.eqb_spec i m); [lia|].
Qed.

Lemma take_at i r r' :
  (i <= length r)%nat -> length r' = length r -> (forall j, (j < i)%nat -> at_ r' j = at_ r j) ->
  take i r' = take i r.
Proof.
  intros Hi L E. apply list_eq_same_length with i; [rewrite length_take; lia..|].
  intros j x y Hj. rewrite !lookup_take_lt, !at_lookup, E by lia. congruence.
Qed.

(** The bit at [i + b] is subtracted and carried. *)
Lemma absorbing_sub V i b low r :
  absorbing V i low r -> V < 2 ^ 254 -> - (5 * 2 ^ Z.of_nat i) <= le_val 2 low ->
  (0 < b)%nat -> (i + b < 256)%nat -> at_ r (i + b) = 1 ->
  15 < at_ r i + 1 ≪ Z.of_nat b -> -15 <= at_ r i - 1 ≪ Z.of_nat b ->
  let r' := slide_carry (256 - (i + b)) (i + b) (<[i := at_ r i - 1 ≪ Z.of_nat b]> r) in
  absorbing V i low r' /\ (forall m, (i < m < i + b)%nat -> at_ r' m = at_ r m).
Proof.
  intros A HV Hlow Hb Hi E C1 C2. cbv zeta. pose proof A as [L Lo [Od D] B Vr].
  set (r1 := <[i := at_ r i - 1 ≪ Z.of_nat b]> r).
  assert (length r1 = 256%nat) as L1 by (unfold r1; by rewrite length_insert).
  assert (forall j, j <> i -> at_ r1 j = at_ r j) as R1.
  { intros j Hj. unfold r1. rewrite at_insert by lia. by destruct (Nat.eqb_spec i j); [lia|]. }
  destruct (slide_carry_ok (256 - (i + b)) (i + b) r1) as (L' & A1 & A2 & A3); [lia|..].
  { intros j Hj. rewrite R1 by lia. apply B. lia. }
  split; [split|].
  - congruence.
  - rewrite <- Lo. apply take_at; [lia|congruence|]. intros j Hj. by rewrite A1, R1 by lia.
  - rewrite A1 by lia. unfold r1. rewrite at_insert, Nat.eqb_refl by lia. split.
    + by rewrite Z.odd_sub, Od, <- Z.negb_even, even_shift.
    + rewrite shiftl_mul in * by lia. pose proof (Z.pow_pos_nonneg 2 (Z.of_nat b)). lia.
  - intros j Hj. destruct (decide (j < i + b)%nat); [|apply A2; lia]. rewrite A1, R1 by lia. by apply B.
  - destruct A3 as [A3|A3].
    + rewrite A3. unfold r1. rewrite val_insert, shiftl_mul, Nat2Z.inj_add, Z.pow_add_r by lia. lia.
    + exfalso. eapply (carry_room V i b low r); try done. intros j Hj.
      rewrite <- (R1 j) by lia. apply A3. lia.
  - intros m Hm. by rewrite A1, R1 by lia.
Qed.

Lemma slide_absorb_ok V i low bs r :
  absorbing V i low r -> V < 2 ^ 254 -> - (5 * 2 ^ Z.of_nat i) <= le_val 2 low ->
  Forall (fun b => 0 < b)%nat bs ->
  absorbing V i low (slide_absorb bs i r)
  /\ (forall m, (i < m)%nat -> Forall (fun b => m < i + b)%nat bs ->
       at_ (slide_absorb bs i r) m = at_ r m).
Proof.
  intros A HV Hlow Hbs. revert r A. induction Hbs as [|b bs Hb Hbs IH]; intros r A; [done|].
  cbn [slide_absorb]. destruct (Nat.leb_spec 256 (i + b)) as [|Hi]; [done|].
  destruct (ab_bits _ _ _ _ A (i + b)%nat ltac:(lia)) as [E|E]; rewrite E; cbn [Z.eqb].
  { destruct (IH r A) as [A' K]. split; [done|]. intros m Hm Hf. apply K; [done|]. by inversion Hf. }
  destruct (Z.leb_spec (at_ r i + 1 ≪ Z.of_nat b) 15) as [C1|C1];
    [|destruct (Z.leb_spec (-15) (at_ r i - 1 ≪ Z.of_nat b)) as [C2|C2]; [|done]].
  - destruct (absorbing_add V i b low r A Hb Hi E C1) as [A1 K1]. destruct (IH _ A1) as [A' K].
    split; [done|]. intros m Hm Hf. inversion Hf; subst. rewrite K, K1 by (done || lia). done.
  - destruct (absorbing_sub V i b low r A HV Hlow Hb Hi E C1 C2) as [A1 K1]. destruct (IH _ A1) as [A' K].
    split; [done|]. intros m Hm Hf. inversion Hf; subst. rewrite K, K1 by (done || lia). done.
Qed.

(** The state between two positions of the outer loop. *)
Record slid (V : Z) (i : nat) (r : list Z) : Prop := {
  sl_length : length r = 256%nat;
  sl_done : forall j, (j < i)%nat -> sliding (at_ r j);
  sl_bits : forall j, (i <= j)%nat -> bit (at_ r j);
  sl_value : le_val 2 r = V;
  sl_bound : Z.abs (le_val 2 (take i r)) <= 10 * 2 ^ Z.of_nat i;
  sl_gap : at_ r i <> 0 -> Z.abs (le_val 2 (take i r)) <= 5 * 2 ^ Z.of_nat i
}.

Lemma val_take_S i r :
  (i < length r)%nat -> le_val 2 (take (S i) r) = le_val 2 (take i r) + 2 ^ Z.of_nat i * at_ r i.
Proof.
  intros Hi. rewrite (take_S_r r i (at_ r i)) by by apply at_lookup.
  rewrite le_val_app, length_take, Nat.min_l by lia. cbn [le_val]. lia.
Qed.

Lemma slide_first_absorb V i r :
  slid V i r -> V < 2 ^ 254 -> (i < 256)%nat -> at_ r i = 1 ->
  let r' := slide_absorb (seq 1 6) i r in
  absorbing V i (take i r) r' /\ at_ r' (S i) = 0.
Proof.
  intros [L Dn B Vr B10 B5] HV Hi E. cbv zeta.
  assert (absorbing V i (take i r) r) as A.
  { split; [done|done|rewrite E; done|intros; apply B; lia|done]. }
  assert (- (5 * 2 ^ Z.of_nat i) <= le_val 2 (take i r)) as Hlow by (rewrite E in B5; lia).
  split; [apply slide_absorb_ok; [done..|by_eval]|].
  change (seq 1 6) with (1 :: seq 2 5)%nat. cbn [slide_absorb].
  destruct (Nat.leb_spec 256 (i + 1)) as [|H1].
  { unfold at_. apply nth_overflow. lia. }
  assert (forall r', absorbing V i (take i r) r' -> at_ r' (i + 1) = 0 ->
    at_ (slide_absorb (seq 2 5) i r') (S i) = 0) as K.
  { intros r' A' E'. destruct (slide_absorb_ok V i (take i r) (seq 2 5) r') as [_ K]; [done..|by_eval|].
    rewrite K; [by rewrite <- E', Nat.add_1_r|lia|]. repeat constructor; lia. }
  destruct (B (i + 1)%nat ltac:(lia)) as [E1|E1]; rewrite E1; cbn [Z.eqb]; [by apply K|].
  rewrite E. cbn [Z.of_nat Pos.of_succ_nat]. change (1 + 1 ≪ 1 <=? 15) with true. cbn iota.
  destruct (absorbing_add V i 1 (take i r) r A ltac:(lia) H1 E1) as [A1 _]; [by rewrite E|].
  rewrite E in A1. apply K; [done|]. rewrite at_insert, Nat.eqb_refl; [done|]. rewrite length_insert. lia.
Qed.

Lemma slide_at_ok V i r :
  slid V i r -> V < 2 ^ 254 -> (i < 256)%nat -> slid V (S i) (slide_at r i).
Proof.
  intros HS HV Hi. pose proof HS as [L Dn B Vr B10 B5]. unfold slide_at.
  assert (2 ^ Z.of_nat (S i) = 2 * 2 ^ Z.of_nat i) as P2
    by (rewrite Nat2Z.inj_succ, Z.pow_succ_r by lia; done).
  destruct (B i ltac:(lia)) as [E|E]; rewrite E; cbn [Z.eqb].
  - split; [done|..|done| |].
    + intros j Hj. destruct (decide (j = i)) as [-> |]; [by left|apply Dn; lia].
    + intros j Hj. apply B. lia.
    + rewrite val_take_S, E, P2 by lia. lia.
    + intros _. rewrite val_take_S, E, P2 by lia. lia.
  - destruct (slide_first_absorb V i r HS HV Hi E) as [[L' Lo [Od D] B' Vr'] E0].
    set (r' := slide_absorb (seq 1 6) i r) in *. clearbody r'.
    assert (le_val 2 (take (S i) r') = le_val 2 (take i r) + 2 ^ Z.of_nat i * at_ r' i) as VT
      by (rewrite val_take_S, Lo by lia; done).
    assert (0 < 2 ^ Z.of_nat i) by (apply Z.pow_pos_nonneg; lia).
    split; [done|..|done| |done].
    + intros j Hj. destruct (decide (j = i)) as [-> |]; [by right|].
      assert (at_ r' j = at_ r j) as ->; [|apply Dn; lia].
      assert (take i r' !! j = take i r !! j) as K by (by rewrite Lo).
      rewrite !lookup_take_lt, !at_lookup in K by lia. congruence.
    + intros j Hj. apply B'. lia.
    + rewrite VT, P2. rewrite E in B5. specialize (B5 ltac:(done)). nia.
Qed.

Lemma le_digits_map b n x k :
  1 < b -> le_digits b n (x / b ^ Z.of_nat k) = map (fun i => (x / b ^ Z.of_nat i) mod b) (seq k n).
Proof.
  intros Hb. revert k. induction n as [|n IH]; intros k; [done|]. cbn [le_digits seq map].
  rewrite <- IH, Nat2Z.inj_succ, Z.pow_succ_r by lia. f_equal. f_equal.
  rewrite Z.div_div by (try apply Z.pow_pos_nonneg; lia). f_equal. lia.
Qed.

Lemma slide_bit a i :
  is_bytes a -> (i < 8 * length a)%nat ->
  Z.land 1 (at_ a (i / 8) ≫ Z.of_nat (i mod 8)) = (num a / 2 ^ Z.of_nat i) mod 2.
Proof.
  intros Ha Hi. set (q := (i / 8)%nat). set (m := (i mod 8)%nat).
  assert (i = 8 * q + m /\ m < 8)%nat as [Ei Hm].
  { split; [apply Nat.div_mod_eq|apply Nat.mod_upper_bound; lia]. }
  assert (num a / 2 ^ Z.of_nat i = le_val 256 (drop q a) / 2 ^ Z.of_nat m) as ->.
  { rewrite le_val_drop by done. rewrite Ei, Nat2Z.inj_add, Z.pow_add_r by lia.
    rewrite <- Z.div_div by (try apply Z.pow_pos_nonneg; try apply Z.pow_nonzero; lia).
    do 2 f_equal. change 256 with (2 ^ 8). rewrite <- Z.pow_mul_r by lia. f_equal. lia. }
  assert (a !! q = Some (at_ a q)) as Hq by (apply at_lookup; lia).
  pose proof (Forall_lookup_1 _ _ _ _ Ha Hq) as B. unfold fits in B.
  rewrite (drop_S a (at_ a q) q Hq). cbn [le_val]. change 256 with (2 ^ 8).
  rewrite split_word by lia. rewrite Z.land_comm. change 1 with (2 ^ 1 - 1).
  rewrite land_mask, shiftr_div by lia.
  replace (2 ^ (8 - Z.of_nat m)) with (2 * 2 ^ (7 - Z.of_nat m)).
  - change (2 ^ 1) with 2. set (u := at_ a q / _). set (v := 2 ^ (7 - _)).
    replace (u + 2 * v * _) with (u + v * le_val (2 ^ 8) (drop (S q) a) * 2) by lia.
    by rewrite Z_mod_plus_full.
  - rewrite <- Z.pow_succ_r by lia. f_equal. lia.
Qed.

Lemma slide_bits_digits a :
  is_bytes a -> length a = 32%nat -> slide_bits a = le_digits 2 256 (num a).
Proof.
  intros Ha Hl. pose proof (le_digits_map 2 256 (num a) 0 ltac:(lia)) as E.
  rewrite Z.div_1_r in E. rewrite E. apply map_ext_in. intros i Hi%in_seq.
  apply slide_bit; [done|lia].
Qed.

Lemma slide_bits_ok a :
  is_bytes a -> length a = 32%nat -> slid (num a) 0 (slide_bits a).
Proof.
  intros Ha Hl. rewrite slide_bits_digits by done.
  pose proof (le_val_bound 256 ltac:(lia) a Ha) as B. rewrite Hl in B.
  split; [apply length_le_digits|lia| |..].
  - intros j _. unfold at_. destruct (nth_in_or_default j (le_digits 2 256 (num a)) 0) as [H| ->]; [|by left].
    pose proof (le_digits_range 2 ltac:(lia) 256 (num a)) as R. rewrite List.Forall_forall in R.
    apply R in H. unfold bit. lia.
  - rewrite le_val_digits by lia. by apply Z.mod_small.
  - rewrite take_0. cbn. lia.
  - rewrite take_0. cbn. lia.
Qed.

Lemma slide_ok a :
  is_bytes a -> length a = 32%nat -> num a < 2 ^ 254 -> slid (num a) 256 (slide a).
Proof.
  intros Ha Hl HV. unfold slide.
  assert (forall n i r, slid (num a) i r -> (i + n = 256)%nat ->
    slid (num a) 256 (foldl slide_at r (seq i n))) as K.
  { induction n as [|n IH]; intros i r HS Hn; cbn [seq foldl].
    - by replace 256%nat with i by lia.
    - apply IH; [|lia]. apply slide_at_ok; [done..|lia]. }
  apply (K 256%nat 0%nat); [by apply slide_bits_ok|done].
Qed.

(** For a scalar below 2^254, [slide] gives 256 digits, each zero or odd
    and between -15 and 15, with the value of the scalar; for a scalar whose
    last byte is at most 127 both radix-16 recodings give 64 digits between
    -8 and 8 with its value.  These are the digits the scalar
    multiplications index their tables with. *)
Theorem recodings_exact a x :
  is_bytes a -> length a = 32%nat -> list.last a = Some x ->
  (num a < 2 ^ 254 ->
   le_val 2 (slide a) = num a /\ Forall sliding (slide a) /\ length (slide a) = 256%nat)
  /\ (x <= 127 ->
      Forall (fun e => le_val 16 e = num a /\ Forall (fun t => -8 <= t <= 8) e /\ length e = 64%nat)
        [base_digits a; scalarmult_digits a]).
Proof.
  intros Ha Hl Hx. split.
  - intros HV. destruct (slide_ok a Ha Hl HV) as [L Dn _ V _ _]. split_and!; [done| |done].
    apply Forall_lookup_2. intros i y Hi. pose proof (lookup_lt_Some _ _ _ Hi).
    rewrite at_lookup in Hi by done. apply Some_inj in Hi as <-. apply Dn. lia.
  - intros H. destruct (base_digits_ok a x Ha Hx H) as (V & R & L).
    destruct (scalarmult_digits_ok a x Ha Hx H) as (V' & R' & L').
    rewrite Hl in *. repeat constructor; done.
Qed.

Lemma recodings_exact_witness :
  le_val 2 (slide (replicate 31 255 ++ [15])) = num (replicate 31 255 ++ [15]).
Proof. apply (recodings_exact (replicate 31 255 ++ [15]) 15); by_eval. Defined.

(** The comment of ge_double_scalarmult_base_vartime promises a A + b B
    for every 32-byte a; but [slide] loses the carry out of bit 255: the
    digits of 2^256 - 1 stand for -1. *)
Theorem slide_loses_carry :
  let a := replicate 32 255 in num a = 2 ^ 256 - 1 /\ le_val 2 (slide a) = -1.
Proof. split; vm_compute; reflexivity. Qed.

End Recode.
