(* ===== verification/ScalarMult.v ===== *)
(** * Scalar multiplication

    src/crypto/crypto-ops.c: ge_scalarmult, ge_scalarmult_p3,
    ge_scalarmult_base with its table lookup [select], ge_dsm_precomp and the
    ge_double_scalarmult_* functions.  The multiples of the points are given
    by a family of points closed under the addition law (a homomorphism from
    pairs of integers); the lemmas say that each function returns the
    member of the family its scalars name, without overflowing a word.
    Multiples states them for the multiples of arbitrary points of the curve
    and the tables of the base point. *)

From S2P Require Import Prelude Limbs Fe Ge Curve Recode.
Import Limbs Fe Ge Curve Recode.

Module ScalarMult.

(** ** Table lookup in constant time *)

(** babs = b - (((-bnegative) & b) << 1), an unsigned char. *)
Definition babs (b : Z) : Z := u8 (b - Z.land (- negative b) b ≪ 1).

(** One conditional move per table entry; [j] is the multiple of the next. *)
Fixpoint precomp_cmovs (t : ge_precomp) (row : list ge_precomp) (n j : Z) : option ge_precomp :=
  match row with
  | [] => Some t
  | u :: row => t' ← ge_precomp_cmov t u (equal n j); precomp_cmovs t' row n (j + 1)
  end.

Definition select (base : list (list ge_precomp)) (pos : nat) (b : Z) : option ge_precomp :=
  row ← base !! pos;
  t ← precomp_cmovs ge_precomp_0 row (babs b) 1;
  m ← fe_neg (xy2d t);
  ge_precomp_cmov t (Precomp (fe_copy (yminusx t)) (fe_copy (yplusx t)) m) (negative b).

Fixpoint cached_cmovs (t : ge_cached) (row : list ge_cached) (n j : Z) : option ge_cached :=
  match row with
  | [] => Some t
  | u :: row => t' ← ge_cached_cmov t u (equal n j); cached_cmovs t' row n (j + 1)
  end.

Definition select_cached (Ai : list ge_cached) (b : Z) : option ge_cached :=
  t ← cached_cmovs ge_cached_0 Ai (babs b) 1;
  m ← fe_neg (T2d t);
  ge_cached_cmov t (Cached (fe_copy (YminusX t)) (fe_copy (YplusX t)) (fe_copy (c_Z t)) m) (negative b).

(** ** ge_scalarmult_base *)

(** The additions of one of its loops: (i / 2, e[i]) for the i of the loop. *)
Fixpoint base_adds (base : list (list ge_precomp)) (h : ge_p3) (es : list (nat * Z)) : option ge_p3 :=
  match es with
  | [] => Some h
  | (i, e) :: es =>
      t ← select base i e; r ← ge_madd h t; h' ← ge_p1p1_to_p3 r; base_adds base h' es
  end.

Definition numbered (l : list Z) : list (nat * Z) := zip (seq 0 (length l)) l.

Fixpoint evens (l : list Z) : list Z :=
  match l with
  | x :: _ :: l => x :: evens l
  | [x] => [x]
  | [] => []
  end.

Fixpoint odds (l : list Z) : list Z :=
  match l with
  | _ :: y :: l => y :: odds l
  | _ => []
  end.

Definition ge_scalarmult_base (base : list (list ge_precomp)) (a : bytes) : option ge_p3 :=
  let e := base_digits a in
  h ← base_adds base ge_p3_0 (numbered (odds e));
  r ← ge_p3_dbl h; s ← ge_p1p1_to_p2 r;
  r ← ge_p2_dbl s; s ← ge_p1p1_to_p2 r;
  r ← ge_p2_dbl s; s ← ge_p1p1_to_p2 r;
  r ← ge_p2_dbl s; h ← ge_p1p1_to_p3 r;
  base_adds base h (numbered (evens e)).

(** ** ge_scalarmult *)

(** Ai[0 .. n]: A, then A + Ai[i]. *)
Fixpoint multiples_table (n : nat) (A : ge_p3) (last : ge_cached) : option (list ge_cached) :=
  match n with
  | O => Some [last]
  | S n =>
      t ← ge_add A last; u ← ge_p1p1_to_p3 t; c ← ge_p3_to_cached u;
      l ← multiples_table n A c; Some (last :: l)
  end.

(** The body of the loop up to the last addition. *)
Definition scalarmult_step (Ai : list ge_cached) (r : ge_p2) (b : Z) : option ge_p1p1 :=
  t ← ge_p2_dbl r; r ← ge_p1p1_to_p2 t;
  t ← ge_p2_dbl r; r ← ge_p1p1_to_p2 t;
  t ← ge_p2_dbl r; r ← ge_p1p1_to_p2 t;
  t ← ge_p2_dbl r; u ← ge_p1p1_to_p3 t;
  cur ← select_cached Ai b;
  ge_add u cur.

(** The loops over digits, the most significant first. *)
Fixpoint scalarmult_loop (Ai : list ge_cached) (r : ge_p2) (es : list Z) : option ge_p2 :=
  match es with
  | [] => Some r
  | b :: es => t ← scalarmult_step Ai r b; r' ← ge_p1p1_to_p2 t; scalarmult_loop Ai r' es
  end.

Definition ge_scalarmult (a : bytes) (A : ge_p3) : option ge_p2 :=
  c ← ge_p3_to_cached A; Ai ← multiples_table 7 A c;
  scalarmult_loop Ai ge_p2_0 (reverse (scalarmult_digits a)).

(** The last step of the _p3 version converts to extended coordinates. *)
Definition ge_scalarmult_p3 (a : bytes) (A : ge_p3) : option ge_p3 :=
  c ← ge_p3_to_cached A; Ai ← multiples_table 7 A c;
  match scalarmult_digits a with
  | e0 :: es =>
      r ← scalarmult_loop Ai ge_p2_0 (reverse es);
      t ← scalarmult_step Ai r e0; ge_p1p1_to_p3 t
  | [] => None
  end.

(** ** The double multiplications *)

(** r[n] .. : s2 + r[k] *)
Fixpoint dsm_table (n : nat) (s2 : ge_p3) (last : ge_cached) : option (list ge_cached) :=
  match n with
  | O => Some [last]
  | S n =>
      t ← ge_add s2 last; u ← ge_p1p1_to_p3 t; c ← ge_p3_to_cached u;
      l ← dsm_table n s2 c; Some (last :: l)
  end.

Definition ge_dsm_precomp (s : ge_p3) : option (list ge_cached) :=
  c ← ge_p3_to_cached s; t ← ge_p3_dbl s; s2 ← ge_p1p1_to_p3 t;
  dsm_table 7 s2 c.

(** if(d > 0) add Ai[d / 2]; else if(d < 0) subtract Ai[(-d) / 2]; *)
Definition add_cached (Ai : list ge_cached) (t : ge_p1p1) (d : Z) : option ge_p1p1 :=
  if 0 <? d then u ← ge_p1p1_to_p3 t; q ← aget Ai (d / 2); ge_add u q
  else if d <? 0 then u ← ge_p1p1_to_p3 t; q ← aget Ai (- d / 2); ge_sub u q
  else Some t.

Definition add_precomp (Bi : list ge_precomp) (t : ge_p1p1) (d : Z) : option ge_p1p1 :=
  if 0 <? d then u ← ge_p1p1_to_p3 t; q ← aget Bi (d / 2); ge_madd u q
  else if d <? 0 then u ← ge_p1p1_to_p3 t; q ← aget Bi (- d / 2); ge_msub u q
  else Some t.

(** The first loop skips the leading zeros. *)
Fixpoint skip_zeros (l : list (Z * Z)) : list (Z * Z) :=
  match l with
  | (x, y) :: l' => if (x =? 0) && (y =? 0) then skip_zeros l' else l
  | [] => []
  end.

Definition slides (a b : bytes) : list (Z * Z) := skip_zeros (reverse (zip (slide a) (slide b))).

Section double.
Context (add_a add_b : ge_p1p1 -> Z -> option ge_p1p1).

Definition double_step (r : ge_p2) (d : Z * Z) : option ge_p1p1 :=
  t ← ge_p2_dbl r; t ← add_a t d.1; add_b t d.2.

Fixpoint double_loop (r : ge_p2) (l : list (Z * Z)) : option ge_p2 :=
  match l with
  | [] => Some r
  | d :: l => t ← double_step r d; r' ← ge_p1p1_to_p2 t; double_loop r' l
  end.

(** The loop of the _p3 versions: [r3] is written at i = 0 only. *)
Fixpoint double_loop_p3 (r3 : ge_p3) (r : ge_p2) (l : list (Z * Z)) : option ge_p3 :=
  match l with
  | [] => Some r3
  | [d] => t ← double_step r d; ge_p1p1_to_p3 t
  | d :: l => t ← double_step r d; r' ← ge_p1p1_to_p2 t; double_loop_p3 r3 r' l
  end.

End double.

Definition ge_double_scalarmult_base_vartime (Bi : list ge_precomp) (a : bytes) (A : ge_p3)
    (b : bytes) : option ge_p2 :=
  Ai ← ge_dsm_precomp A;
  double_loop (add_cached Ai) (add_precomp Bi) ge_p2_0 (slides a b).

Definition ge_double_scalarmult_base_vartime_p3 (Bi : list ge_precomp) (r3 : ge_p3) (a : bytes)
    (A : ge_p3) (b : bytes) : option ge_p3 :=
  Ai ← ge_dsm_precomp A;
  double_loop_p3 (add_cached Ai) (add_precomp Bi) r3 ge_p2_0 (slides a b).

Definition ge_double_scalarmult_precomp_vartime2 (a : bytes) (Ai : list ge_cached) (b : bytes)
    (Bi : list ge_cached) : option ge_p2 :=
  double_loop (add_cached Ai) (add_cached Bi) ge_p2_0 (slides a b).

Definition ge_double_scalarmult_precomp_vartime2_p3 (r3 : ge_p3) (a : bytes) (Ai : list ge_cached)
    (b : bytes) (Bi : list ge_cached) : option ge_p3 :=
  double_loop_p3 (add_cached Ai) (add_cached Bi) r3 ge_p2_0 (slides a b).

Definition ge_double_scalarmult_precomp_vartime (a : bytes) (A : ge_p3) (b : bytes)
    (Bi : list ge_cached) : option ge_p2 :=
  Ai ← ge_dsm_precomp A; ge_double_scalarmult_precomp_vartime2 a Ai b Bi.



(** ** Families of points

    [M m n] plays the part of m A + n B. *)

Record family (M : Z -> Z -> point) : Prop := {
  fam_zero : pt_eq (M 0 0) (0, 1);
  fam_curve : forall m n, on_curve (M m n);
  fam_opp : forall m n, pt_eq (M (- m) (- n)) (pt_neg (M m n));
  fam_add : forall m n m' n', is_sum (M m n) (M m' n') (M (m + m') (n + n'))
}.

Lemma rep_p2_eq P Q h : rep_p2 P h -> pt_eq P Q -> rep_p2 Q h.
Proof.
  intros (z & U & R1 & R2 & R3) [E1 E2]. exists z.
  split_and!; [done|done|..]; (eapply rep_eqm; [eassumption|]); by rewrite ?E1, ?E2.
Qed.

Lemma rep_p3_eq P Q h : rep_p3 P h -> pt_eq P Q -> rep_p3 Q h.
Proof.
  intros (z & U & R1 & R2 & R3 & R4) [E1 E2]. exists z.
  split_and!; [done|done|..]; (eapply rep_eqm; [eassumption|]); by rewrite ?E1, ?E2.
Qed.

Lemma rep_p1p1_eq P Q h : rep_p1p1 P h -> pt_eq P Q -> rep_p1p1 Q h.
Proof.
  intros (z & t & U & V & R1 & R2 & R3 & R4) [E1 E2]. exists z, t.
  split_and!; [done|done|done|done|..]; (eapply rep_eqm; [eassumption|]); by rewrite ?E1, ?E2.
Qed.

Lemma rep_cached_eq P Q h : rep_cached P h -> pt_eq P Q -> rep_cached Q h.
Proof.
  intros (z & U & R1 & R2 & R3 & R4) [E1 E2]. exists z.
  split_and!; [done|done|..]; (eapply rep_eqm; [eassumption|]); by rewrite ?E1, ?E2.
Qed.

Lemma rep_precomp_eq P Q h : rep_precomp P h -> pt_eq P Q -> rep_precomp Q h.
Proof.
  intros (R1 & R2 & R3) [E1 E2]. unfold rep_precomp.
  split_and!; (eapply rep_eqm; [eassumption|]); by rewrite ?E1, ?E2.
Qed.

(** ** Table lookup *)

Lemma babs_ok b : -8 <= b <= 8 -> babs b = Z.abs b.
Proof.
  intros Hb. unfold babs. rewrite negative_ok by lia. unfold wrap.
  rewrite shiftl_mul by lia. destruct (Z.ltb_spec b 0).
  - change (- (1)) with (-1). rewrite Z.land_m1_l. rewrite Z.mod_small; lia.
  - change (- 0) with 0. rewrite Z.land_0_l. rewrite Z.mod_small; lia.
Qed.

Lemma negative_bit b : -128 <= b < 128 -> negative b = 0 \/ negative b = 1.
Proof. intros. rewrite negative_ok by done. destruct (b <? 0); auto. Qed.

Lemma equal_bit b c : -128 <= b < 128 -> -128 <= c < 128 -> equal b c = 0 \/ equal b c = 1.
Proof. intros. rewrite equal_ok by done. destruct (b =? c); auto. Qed.

Section lookup.
Context (K : Z -> point) (K_zero : pt_eq (K 0) (0, 1)) (K_opp : forall k, pt_eq (K (- k)) (pt_neg (K k))).

(** The entry of the table that the moves have picked so far. *)
Definition picked (n j : Z) : Z := if n <? j then n else 0.

Lemma picked_step n j :
  0 <= n -> 1 <= j -> (if equal n j =? 1 then j else picked n j) = picked n (j + 1) \/ 128 <= n \/ 128 <= j.
Proof.
  intros Hn Hj. destruct (decide (n < 128)); [|lia]. destruct (decide (j < 128)); [|lia]. left.
  rewrite equal_ok by lia. unfold picked.
  destruct (Z.eqb_spec n j), (Z.ltb_spec n j), (Z.ltb_spec n (j + 1)); cbn; lia.
Qed.

Lemma cached_cmovs_ok row t n j :
  rep_cached (K (picked n j)) t -> 0 <= n <= 8 -> 1 <= j -> j + Z.of_nat (length row) <= 100 ->
  (forall i u, row !! i = Some u -> rep_cached (K (j + Z.of_nat i)) u) ->
  exists r, cached_cmovs t row n j = Some r /\ rep_cached (K (picked n (j + Z.of_nat (length row)))) r.
Proof.
  revert t j. induction row as [|u row IH]; intros t j Rt Hn Hj Hl Hrow; cbn [cached_cmovs length] in *.
  { exists t. by rewrite Z.add_0_r. }
  pose proof (Hrow O u eq_refl) as Ru. rewrite Z.add_0_r in Ru.
  destruct (ge_cached_cmov_rep _ _ _ _ (equal n j) Rt Ru ltac:(apply equal_bit; lia)) as (t' & -> & R').
  cbn [mbind option_bind]. destruct (picked_step n j) as [E|]; [lia..| |lia].
  replace (j + Z.of_nat (S (length row))) with (j + 1 + Z.of_nat (length row)) by lia.
  apply IH; [|lia..|].
  - rewrite <- E. by destruct (equal n j =? 1).
  - intros i v Hi. replace (j + 1 + Z.of_nat i) with (j + Z.of_nat (S i)) by lia. by apply Hrow.
Qed.

Lemma precomp_cmovs_ok row t n j :
  rep_precomp (K (picked n j)) t -> 0 <= n <= 8 -> 1 <= j -> j + Z.of_nat (length row) <= 100 ->
  (forall i u, row !! i = Some u -> rep_precomp (K (j + Z.of_nat i)) u) ->
  exists r, precomp_cmovs t row n j = Some r /\ rep_precomp (K (picked n (j + Z.of_nat (length row)))) r.
Proof.
  revert t j. induction row as [|u row IH]; intros t j Rt Hn Hj Hl Hrow; cbn [precomp_cmovs length] in *.
  { exists t. by rewrite Z.add_0_r. }
  pose proof (Hrow O u eq_refl) as Ru. rewrite Z.add_0_r in Ru.
  destruct (ge_precomp_cmov_rep _ _ _ _ (equal n j) Rt Ru ltac:(apply equal_bit; lia)) as (t' & -> & R').
  cbn [mbind option_bind]. destruct (picked_step n j) as [E|]; [lia..| |lia].
  replace (j + Z.of_nat (S (length row))) with (j + 1 + Z.of_nat (length row)) by lia.
  apply IH; [|lia..|].
  - rewrite <- E. by destruct (equal n j =? 1).
  - intros i v Hi. replace (j + 1 + Z.of_nat i) with (j + Z.of_nat (S i)) by lia. by apply Hrow.
Qed.

(** The negation at the end: the multiple of |b| becomes that of b. *)
Lemma signed_multiple b : pt_eq (if negative b =? 1 then pt_neg (K (Z.abs b)) else K (Z.abs b)) (K b)
  \/ ~ -128 <= b < 128.
Proof using K_opp.
  destruct (decide (-128 <= b < 128)) as [Hb|]; [left|by right].
  rewrite negative_ok by done. destruct (Z.ltb_spec b 0).
  - cbn. rewrite Z.abs_neq by lia. etransitivity; [apply pt_neg_proper, K_opp|apply pt_neg_neg].
  - cbn. by rewrite Z.abs_eq by lia.
Qed.

Lemma select_cached_ok Ai b :
  length Ai = 8%nat -> (forall i u, Ai !! i = Some u -> rep_cached (K (1 + Z.of_nat i)) u) ->
  -8 <= b <= 8 -> exists r, select_cached Ai b = Some r /\ rep_cached (K b) r.
Proof using K_opp K_zero.
  intros Hl HA Hb. unfold select_cached. rewrite babs_ok by done.
  destruct (cached_cmovs_ok Ai ge_cached_0 (Z.abs b) 1) as (t & -> & Rt); [|lia|lia|lia|done|].
  { assert (picked (Z.abs b) 1 = 0) as -> by (unfold picked; destruct (Z.ltb_spec (Z.abs b) 1); lia).
    eapply rep_cached_eq; [apply zero_reps|]. symmetry. exact K_zero. }
  cbn [mbind option_bind]. rewrite Hl in Rt.
  assert (picked (Z.abs b) (1 + Z.of_nat 8) = Z.abs b) as E
    by (unfold picked; destruct (Z.ltb_spec (Z.abs b) (1 + Z.of_nat 8)); lia).
  rewrite E in Rt. destruct Rt as (z & U & R1 & R2 & R3 & R4).
  destruct (fe_neg_rep 1 _ _ R4 ltac:(lia)) as (m & -> & Rm). cbn [mbind option_bind]. unfold fe_copy.
  destruct (ge_cached_cmov_rep (K (Z.abs b)) (pt_neg (K (Z.abs b))) t
    (Cached (YminusX t) (YplusX t) (c_Z t) m) (negative b)) as (r & -> & Rr).
  - by exists z.
  - exists z. cbn [YplusX YminusX c_Z T2d pt_neg fst snd].
    split_and!; [done|done|..]; (eapply rep_eqm; [eassumption|]; eqm_ring).
  - apply negative_bit. lia.
  - eexists. split; [done|]. destruct (signed_multiple b) as [Es|]; [|lia].
    by eapply rep_cached_eq.
Qed.

Lemma select_ok base pos row b :
  base !! pos = Some row -> length row = 8%nat ->
  (forall i u, row !! i = Some u -> rep_precomp (K (1 + Z.of_nat i)) u) ->
  -8 <= b <= 8 -> exists r, select base pos b = Some r /\ rep_precomp (K b) r.
Proof using K_opp K_zero.
  intros Hrow Hl HA Hb. unfold select. rewrite Hrow, babs_ok by done. cbn [mbind option_bind].
  destruct (precomp_cmovs_ok row ge_precomp_0 (Z.abs b) 1) as (t & -> & Rt); [|lia|lia|lia|done|].
  { assert (picked (Z.abs b) 1 = 0) as -> by (unfold picked; destruct (Z.ltb_spec (Z.abs b) 1); lia).
    eapply rep_precomp_eq; [apply zero_reps|]. symmetry. exact K_zero. }
  cbn [mbind option_bind]. rewrite Hl in Rt.
  assert (picked (Z.abs b) (1 + Z.of_nat 8) = Z.abs b) as E
    by (unfold picked; destruct (Z.ltb_spec (Z.abs b) (1 + Z.of_nat 8)); lia).
  rewrite E in Rt. pose proof Rt as (R1 & R2 & R3).
  destruct (fe_neg_rep 1 _ _ R3 ltac:(lia)) as (m & -> & Rm). cbn [mbind option_bind]. unfold fe_copy.
  destruct (ge_precomp_cmov_rep (K (Z.abs b)) (pt_neg (K (Z.abs b))) t
    (Precomp (yminusx t) (yplusx t) m) (negative b)) as (r & -> & Rr).
  - done.
  - unfold rep_precomp. cbn [yplusx yminusx xy2d pt_neg fst snd].
    split_and!; (eapply rep_eqm; [eassumption|]; eqm_ring).
  - apply negative_bit. lia.
  - eexists. split; [done|]. destruct (signed_multiple b) as [Es|]; [|lia].
    by eapply rep_precomp_eq.
Qed.

End lookup.


Section multiplication.
Context (M : Z -> Z -> point) (F : family M).

Lemma fam_sub m n m' n' : is_sum (M m n) (pt_neg (M m' n')) (M (m - m') (n - n')).
Proof using F.
  rewrite <- (fam_opp M F). apply (fam_add M F m n (- m') (- n')).
Qed.

Lemma fam_dbl m n : is_sum (M m n) (M m n) (M (2 * m) (2 * n)).
Proof using F. replace (2 * m) with (m + m) by lia. replace (2 * n) with (n + n) by lia. apply (fam_add M F). Qed.

Lemma dbl_p2 m n r :
  rep_p2 (M m n) r -> exists t, ge_p2_dbl r = Some t /\ rep_p1p1 (M (2 * m) (2 * n)) t.
Proof using F. intros R. eapply ge_p2_dbl_rep; [exact R|apply (fam_curve M F)|apply fam_dbl]. Qed.

Lemma dbl_p3 m n r :
  rep_p3 (M m n) r -> exists t, ge_p3_dbl r = Some t /\ rep_p1p1 (M (2 * m) (2 * n)) t.
Proof using F. intros R. eapply ge_p3_dbl_rep; [exact R|apply (fam_curve M F)|apply fam_dbl]. Qed.

Lemma add_p3 m n m' n' u q :
  rep_p3 (M m n) u -> rep_cached (M m' n') q ->
  exists t, ge_add u q = Some t /\ rep_p1p1 (M (m + m') (n + n')) t.
Proof using F. intros R1 R2. eapply ge_add_rep; [done..|apply (fam_add M F)]. Qed.

Lemma madd_p3 m n m' n' u q :
  rep_p3 (M m n) u -> rep_precomp (M m' n') q ->
  exists t, ge_madd u q = Some t /\ rep_p1p1 (M (m + m') (n + n')) t.
Proof using F. intros R1 R2. eapply ge_madd_rep; [done..|apply (fam_add M F)]. Qed.

Lemma sub_p3 m n m' n' u q :
  rep_p3 (M m n) u -> rep_cached (M m' n') q ->
  exists t, ge_sub u q = Some t /\ rep_p1p1 (M (m - m') (n - n')) t.
Proof using F. intros R1 R2. eapply ge_sub_rep; [done..|apply fam_sub]. Qed.

Lemma msub_p3 m n m' n' u q :
  rep_p3 (M m n) u -> rep_precomp (M m' n') q ->
  exists t, ge_msub u q = Some t /\ rep_p1p1 (M (m - m') (n - n')) t.
Proof using F. intros R1 R2. eapply ge_msub_rep; [done..|apply fam_sub]. Qed.

Lemma zero_p2 : rep_p2 (M 0 0) ge_p2_0.
Proof using F. eapply rep_p2_eq; [apply zero_reps|]. symmetry. apply (fam_zero M F). Qed.

Lemma zero_p3 : rep_p3 (M 0 0) ge_p3_0.
Proof using F. eapply rep_p3_eq; [apply zero_reps|]. symmetry. apply (fam_zero M F). Qed.

(** One statement on points. *)
Ltac ge_step :=
  let r := fresh "r" in let E := fresh "E" in let R := fresh "R" in
  match goal with
  | H : rep_p2 (M ?m ?n) ?x |- context [ge_p2_dbl ?x] => destruct (dbl_p2 m n x H) as (r & E & R)
  | H : rep_p3 (M ?m ?n) ?x |- context [ge_p3_dbl ?x] => destruct (dbl_p3 m n x H) as (r & E & R)
  | H : rep_p1p1 ?P ?x |- context [ge_p1p1_to_p2 ?x] => destruct (ge_p1p1_to_p2_rep P x H) as (r & E & R)
  | H : rep_p1p1 ?P ?x |- context [ge_p1p1_to_p3 ?x] => destruct (ge_p1p1_to_p3_rep P x H) as (r & E & R)
  | H : rep_p3 ?P ?x |- context [ge_p3_to_cached ?x] => destruct (ge_p3_to_cached_rep P x H) as (r & E & R)
  | H : rep_p3 (M ?m ?n) ?x, H' : rep_cached (M ?m' ?n') ?y |- context [ge_add ?x ?y] =>
      destruct (add_p3 m n m' n' x y H H') as (r & E & R)
  | H : rep_p3 (M ?m ?n) ?x, H' : rep_cached (M ?m' ?n') ?y |- context [ge_sub ?x ?y] =>
      destruct (sub_p3 m n m' n' x y H H') as (r & E & R)
  | H : rep_p3 (M ?m ?n) ?x, H' : rep_precomp (M ?m' ?n') ?y |- context [ge_madd ?x ?y] =>
      destruct (madd_p3 m n m' n' x y H H') as (r & E & R)
  | H : rep_p3 (M ?m ?n) ?x, H' : rep_precomp (M ?m' ?n') ?y |- context [ge_msub ?x ?y] =>
      destruct (msub_p3 m n m' n' x y H H') as (r & E & R)
  end;
  rewrite E; clear E; cbn [mbind option_bind].

(** The member named by other arithmetic of the same value. *)
Ltac member H := match goal with |- context [M ?m ?n] =>
  match type of H with context [M ?m' ?n'] =>
    replace m with m' by lia; replace n with n' by lia; exact H end end.

(** *** ge_scalarmult *)

Lemma multiples_table_ok n A c k :
  rep_p3 (M 1 0) A -> rep_cached (M k 0) c ->
  exists l, multiples_table n A c = Some l /\ length l = S n
    /\ forall i u, l !! i = Some u -> rep_cached (M (k + Z.of_nat i) 0) u.
Proof using F.
  intros RA. revert c k. induction n as [|n IH]; intros c k Rc; cbn [multiples_table].
  { exists [c]. split_and!; [done..|]. intros [|i] u Hu; [|done]. injection Hu as <-. by rewrite Z.add_0_r. }
  do 3 ge_step. destruct (IH _ _ R1) as (l & -> & Hl & Hn). cbn [mbind option_bind].
  exists (c :: l). split_and!; [done|by rewrite <- Hl|]. intros [|i] u Hu.
  - injection Hu as <-. by rewrite Z.add_0_r.
  - pose proof (Hn i u Hu) as K. member K.
Qed.

(** A table of A, 2A, ... 8A. *)
Definition table_of (Ai : list ge_cached) : Prop :=
  length Ai = 8%nat /\ forall i u, Ai !! i = Some u -> rep_cached (M (1 + Z.of_nat i) 0) u.

Lemma scalarmult_step_ok Ai m r b :
  table_of Ai -> rep_p2 (M m 0) r -> -8 <= b <= 8 ->
  exists t, scalarmult_step Ai r b = Some t /\ rep_p1p1 (M (16 * m + b) 0) t.
Proof using F.
  intros [Hl HA] R Hb. unfold scalarmult_step. do 8 ge_step.
  destruct (select_cached_ok (fun k => M k 0)) with (Ai := Ai) (b := b) as (cur & -> & Rc);
    [apply (fam_zero M F)|intros k; apply (fam_opp M F k 0)|done..|].
  cbn [mbind option_bind]. cbv beta in Rc. ge_step. eexists. split; [done|].
  match goal with H : rep_p1p1 _ _ |- _ => member H end.
Qed.

Lemma scalarmult_loop_ok Ai es m r :
  table_of Ai -> rep_p2 (M m 0) r -> Forall (fun b => -8 <= b <= 8) es ->
  exists r', scalarmult_loop Ai r es = Some r'
    /\ rep_p2 (M (foldl (fun acc b => 16 * acc + b) m es) 0) r'.
Proof using F.
  intros T R Hes. revert m r R. induction Hes as [|b es Hb Hes IH]; intros m r R; cbn [scalarmult_loop foldl].
  { by exists r. }
  destruct (scalarmult_step_ok Ai m r b T R Hb) as (t & -> & Rt). cbn [mbind option_bind].
  ge_step. by apply IH.
Qed.

Lemma horner b l acc :
  foldl (fun acc d => b * acc + d) acc (reverse l) = le_val b l + b ^ Z.of_nat (length l) * acc.
Proof.
  revert acc. induction l as [|x l IH]; intros acc; [cbn; lia|].
  rewrite reverse_cons, foldl_app, IH. cbn [foldl le_val length].
  rewrite Nat2Z.inj_succ, Z.pow_succ_r by lia. lia.
Qed.

Lemma scalar_table A :
  rep_p3 (M 1 0) A ->
  exists c Ai, ge_p3_to_cached A = Some c /\ multiples_table 7 A c = Some Ai /\ table_of Ai.
Proof using F.
  intros RA. destruct (ge_p3_to_cached_rep _ _ RA) as (c & Ec & Rc).
  destruct (multiples_table_ok 7 A c 1 RA Rc) as (Ai & E & Hl & Hn). by exists c, Ai.
Qed.

(** A scalar as the functions take it: 32 bytes, the last at most 127. *)
Definition small_scalar (a : bytes) : Prop :=
  is_bytes a /\ length a = 32%nat /\ exists x, list.last a = Some x /\ x <= 127.

Lemma ge_scalarmult_ok a A :
  small_scalar a -> rep_p3 (M 1 0) A ->
  exists r, ge_scalarmult a A = Some r /\ rep_p2 (M (num a) 0) r.
Proof using F.
  intros (Ha & Hl & x & Hx & Hb) RA. destruct (scalar_table A RA) as (c & Ai & Ec & Et & T).
  destruct (scalarmult_digits_ok a x Ha Hx Hb) as (V & R & L).
  unfold ge_scalarmult. rewrite Ec. cbn [mbind option_bind]. rewrite Et. cbn [mbind option_bind].
  destruct (scalarmult_loop_ok Ai (reverse (scalarmult_digits a)) 0 ge_p2_0 T zero_p2) as (r & E & Rr).
  { by apply Forall_reverse. }
  exists r. split; [done|]. rewrite horner, V in Rr. member Rr.
Qed.

Lemma ge_scalarmult_p3_ok a A :
  small_scalar a -> rep_p3 (M 1 0) A ->
  exists r, ge_scalarmult_p3 a A = Some r /\ rep_p3 (M (num a) 0) r.
Proof using F.
  intros (Ha & Hl & x & Hx & Hb) RA. destruct (scalar_table A RA) as (c & Ai & Ec & Et & T).
  destruct (scalarmult_digits_ok a x Ha Hx Hb) as (V & R & L).
  unfold ge_scalarmult_p3. rewrite Ec. cbn [mbind option_bind]. rewrite Et. cbn [mbind option_bind].
  destruct (scalarmult_digits a) as [|e0 es]; [rewrite Hl in L; done|].
  inversion R as [|? ? R0 Res]; subst.
  destruct (scalarmult_loop_ok Ai (reverse es) 0 ge_p2_0 T zero_p2) as (r & -> & Rr).
  { by apply Forall_reverse. }
  cbn [mbind option_bind]. rewrite horner in Rr.
  destruct (scalarmult_step_ok Ai _ r e0 T Rr R0) as (t & -> & Rt). cbn [mbind option_bind].
  ge_step. eexists. split; [done|]. cbn [le_val] in V.
  match goal with H : rep_p3 _ r0 |- _ => member H end.
Qed.
(** *** ge_scalarmult_base *)

(** base[i][j] = (j + 1) 256^i B *)
Definition base_table (base : list (list ge_precomp)) : Prop :=
  length base = 32%nat /\
  forall i row, base !! i = Some row -> length row = 8%nat /\
    forall j u, row !! j = Some u -> rep_precomp (M 0 ((1 + Z.of_nat j) * 256 ^ Z.of_nat i)) u.

Lemma base_adds_ok base es n h :
  base_table base -> rep_p3 (M 0 n) h ->
  Forall (fun '(i, e) => (i < 32)%nat /\ -8 <= e <= 8) es ->
  exists h', base_adds base h es = Some h'
    /\ rep_p3 (M 0 (n + foldr (fun '(i, e) s => e * 256 ^ Z.of_nat i + s) 0 es)) h'.
Proof using F.
  intros [Hl HB] R Hes. revert n h R.
  induction Hes as [|[i e] es [Hi He] Hes IH]; intros n h R; cbn [base_adds foldr].
  { exists h. by rewrite Z.add_0_r. }
  destruct (lookup_lt_is_Some_2 base i ltac:(lia)) as [row Hrow].
  destruct (HB i row Hrow) as [Hr Hj].
  destruct (select_ok (fun k => M 0 (k * 256 ^ Z.of_nat i))) with (base := base) (pos := i) (row := row)
    (b := e) as (t & -> & Rt); [apply (fam_zero M F)| |done..|].
  { intros k. replace (- k * 256 ^ Z.of_nat i) with (- (k * 256 ^ Z.of_nat i)) by lia. apply (fam_opp M F 0). }
  cbn [mbind option_bind]. cbv beta in Rt. do 2 ge_step.
  destruct (IH _ _ R1) as (h' & E & R'). exists h'. split; [done|]. member R'.
Qed.

Lemma numbered_sum l k :
  foldr (fun '(i, e) s => e * 256 ^ Z.of_nat i + s) 0 (zip (seq k (length l)) l)
  = 256 ^ Z.of_nat k * le_val 256 l.
Proof.
  revert k. induction l as [|x l IH]; intros k; cbn [length seq zip zip_with foldr le_val]; [lia|].
  unfold zip in IH. rewrite IH, Nat2Z.inj_succ, Z.pow_succ_r by lia. lia.
Qed.

Lemma numbered_range (P : Z -> Prop) l k :
  Forall P l -> Forall (fun '(i, e) => (i < k + length l)%nat /\ P e) (zip (seq k (length l)) l).
Proof.
  intros H. revert k. induction H as [|x l Hx Hl IH]; intros k; cbn [length seq zip zip_with]; constructor.
  - split; [lia|done].
  - specialize (IH (S k)). eapply Forall_impl; [exact IH|]. intros [i e] [Hi He]. split; [lia|done].
Qed.

Lemma evens_odds_val l : le_val 16 l = le_val 256 (evens l) + 16 * le_val 256 (odds l).
Proof.
  assert (forall n l, (length l <= n)%nat -> le_val 16 l = le_val 256 (evens l) + 16 * le_val 256 (odds l))
    as G; [|by apply (G (length l))].
  clear. induction n as [|n IH]; intros [|x [|y l]] Hn; cbn [length] in Hn; try lia; try (cbn; lia).
  cbn [evens odds le_val]. rewrite (IH l) by lia. lia.
Qed.

Lemma evens_odds_ok (P : Z -> Prop) n l :
  Forall P l -> length l = (2 * n)%nat ->
  Forall P (evens l) /\ Forall P (odds l) /\ length (evens l) = n /\ length (odds l) = n.
Proof.
  revert l. induction n as [|n IH]; intros [|x [|y l]] H Hl; cbn [length] in Hl; try lia.
  { by repeat constructor. }
  inversion H as [|? ? Hx H']; subst. inversion H' as [|? ? Hy Hl']; subst.
  destruct (IH l Hl' ltac:(lia)) as (E & O & LE & LO). cbn [evens odds length].
  split_and!; [by constructor|by constructor|lia|lia].
Qed.

Lemma ge_scalarmult_base_ok base a :
  base_table base -> small_scalar a ->
  exists r, ge_scalarmult_base base a = Some r /\ rep_p3 (M 0 (num a)) r.
Proof using F.
  intros HB (Ha & Hl & x & Hx & Hb). destruct (base_digits_ok a x Ha Hx Hb) as (V & R & L).
  rewrite Hl in L. destruct (evens_odds_ok _ 32 _ R L) as (RE & RO & LE & LO).
  unfold ge_scalarmult_base, numbered. rewrite LE, LO.
  pose proof zero_p3 as R0.
  destruct (base_adds_ok base (zip (seq 0 32) (odds (base_digits a))) 0 ge_p3_0 HB R0) as (h & -> & Rh).
  { rewrite <- LO at 1. eapply Forall_impl; [apply (numbered_range _ _ 0 RO)|]. intros [i e]. by rewrite LO. }
  rewrite <- LO, numbered_sum in Rh. cbn [mbind option_bind]. do 8 ge_step.
  change (2 * (2 * (2 * (2 * 0)))) with 0 in *.
  match goal with H : rep_p3 _ ?g |- context [base_adds _ ?g _] =>
    destruct (base_adds_ok base (zip (seq 0 32) (evens (base_digits a))) _ g HB H) as (h' & E & Rr) end.
  { rewrite <- LE at 1. eapply Forall_impl; [apply (numbered_range _ _ 0 RE)|]. intros [i e]. by rewrite LE. }
  rewrite <- LE, numbered_sum in Rr. exists h'. split; [exact E|].
  rewrite evens_odds_val in V. change (256 ^ Z.of_nat 0) with 1 in Rr. member Rr.
Qed.

(** *** The double multiplications *)

(** P, 3P, ... 15P for P = al A + be B. *)
Definition odd_table (al be : Z) (l : list ge_cached) : Prop :=
  length l = 8%nat /\
  forall i u, l !! i = Some u -> rep_cached (M (al * (2 * Z.of_nat i + 1)) (be * (2 * Z.of_nat i + 1))) u.

Definition odd_precomp (al be : Z) (l : list ge_precomp) : Prop :=
  length l = 8%nat /\
  forall i u, l !! i = Some u -> rep_precomp (M (al * (2 * Z.of_nat i + 1)) (be * (2 * Z.of_nat i + 1))) u.

Lemma dsm_table_ok al be n s2 c k :
  rep_p3 (M (2 * al) (2 * be)) s2 -> rep_cached (M (al * k) (be * k)) c ->
  exists l, dsm_table n s2 c = Some l /\ length l = S n
    /\ forall i u, l !! i = Some u ->
         rep_cached (M (al * (2 * Z.of_nat i + k)) (be * (2 * Z.of_nat i + k))) u.
Proof using F.
  intros RA. revert c k. induction n as [|n IH]; intros c k Rc; cbn [dsm_table].
  { exists [c]. split_and!; [done..|]. intros [|i] u Hu; [|done]. by injection Hu as <-. }
  do 3 ge_step. destruct (IH r1 (2 + k)) as (l & -> & Hl & Hn).
  { member R1. }
  cbn [mbind option_bind]. exists (c :: l). split_and!; [done|by rewrite <- Hl|]. intros [|i] u Hu.
  - by injection Hu as <-.
  - pose proof (Hn i u Hu) as K. member K.
Qed.

Lemma ge_dsm_precomp_ok al be s :
  rep_p3 (M al be) s -> exists l, ge_dsm_precomp s = Some l /\ odd_table al be l.
Proof using F.
  intros R. unfold ge_dsm_precomp. do 3 ge_step.
  destruct (dsm_table_ok al be 7 r0 r1 1) as (l & E & Hl & Hn); [done|member R2|]. by exists l.
Qed.

Lemma sliding_index d n : sliding d -> n = 8%nat -> d <> 0 ->
  exists i, (i < n)%nat /\ Z.abs d = 2 * Z.of_nat i + 1 /\ Z.abs d / 2 = Z.of_nat i.
Proof.
  intros [->|[Ho Hd]] -> Hn; [done|]. apply Z.odd_spec in Ho as [c Hc].
  exists (Z.to_nat (Z.abs d / 2)). rewrite Z2Nat.id by dlia. split_and!; [dlia|dlia|done].
Qed.

Lemma add_cached_ok al be l m n t d :
  odd_table al be l -> sliding d -> rep_p1p1 (M m n) t ->
  exists t', add_cached l t d = Some t' /\ rep_p1p1 (M (m + al * d) (n + be * d)) t'.
Proof using F.
  intros [Hl HT] Hd R. unfold add_cached.
  destruct (decide (d = 0)) as [-> |Hn].
  { exists t. split; [done|]. member R. }
  destruct (sliding_index d (length l) Hd Hl Hn) as (i & Hi & Ei & Ed).
  destruct (lookup_lt_is_Some_2 l i Hi) as [q Hq]. pose proof (HT i q Hq) as Rq.
  destruct (Z.ltb_spec 0 d), (Z.ltb_spec d 0); try lia.
  - ge_step. rewrite Z.abs_eq in * by lia. rewrite Ed, aget_nat, Hq. cbn [mbind option_bind].
    ge_step. eexists. split; [done|]. rewrite Ei. member R1.
  - ge_step. rewrite Z.abs_neq in * by lia. rewrite Ed, aget_nat, Hq. cbn [mbind option_bind].
    ge_step. eexists. split; [done|]. replace d with (- (2 * Z.of_nat i + 1)) by lia. member R1.
Qed.

Lemma add_precomp_ok al be l m n t d :
  odd_precomp al be l -> sliding d -> rep_p1p1 (M m n) t ->
  exists t', add_precomp l t d = Some t' /\ rep_p1p1 (M (m + al * d) (n + be * d)) t'.
Proof using F.
  intros [Hl HT] Hd R. unfold add_precomp.
  destruct (decide (d = 0)) as [-> |Hn].
  { exists t. split; [done|]. member R. }
  destruct (sliding_index d (length l) Hd Hl Hn) as (i & Hi & Ei & Ed).
  destruct (lookup_lt_is_Some_2 l i Hi) as [q Hq]. pose proof (HT i q Hq) as Rq.
  destruct (Z.ltb_spec 0 d), (Z.ltb_spec d 0); try lia.
  - ge_step. rewrite Z.abs_eq in * by lia. rewrite Ed, aget_nat, Hq. cbn [mbind option_bind].
    ge_step. eexists. split; [done|]. rewrite Ei. member R1.
  - ge_step. rewrite Z.abs_neq in * by lia. rewrite Ed, aget_nat, Hq. cbn [mbind option_bind].
    ge_step. eexists. split; [done|]. replace d with (- (2 * Z.of_nat i + 1)) by lia. member R1.
Qed.

(** What a step promises of the two additions. *)
Definition adds (al be : Z) (add : ge_p1p1 -> Z -> option ge_p1p1) : Prop :=
  forall m n t d, sliding d -> rep_p1p1 (M m n) t ->
    exists t', add t d = Some t' /\ rep_p1p1 (M (m + al * d) (n + be * d)) t'.

Definition doubled (acc : Z) (l : list Z) : Z := foldl (fun acc d => 2 * acc + d) acc l.

Section loops.
Context (add_a add_b : ge_p1p1 -> Z -> option ge_p1p1).
Context (Ha : adds 1 0 add_a) (Hb : adds 0 1 add_b).

Lemma double_step_ok m n r d :
  rep_p2 (M m n) r -> sliding d.1 -> sliding d.2 ->
  exists t, double_step add_a add_b r d = Some t /\ rep_p1p1 (M (2 * m + d.1) (2 * n + d.2)) t.
Proof using F Ha Hb.
  intros R H1 H2. unfold double_step. ge_step.
  destruct (Ha _ _ _ _ H1 R0) as (t1 & -> & R1). cbn [mbind option_bind].
  destruct (Hb _ _ _ _ H2 R1) as (t2 & -> & R2). exists t2. split; [done|]. member R2.
Qed.

Lemma double_loop_ok l m n r :
  rep_p2 (M m n) r -> Forall (fun d => sliding d.1 /\ sliding d.2) l ->
  exists r', double_loop add_a add_b r l = Some r'
    /\ rep_p2 (M (doubled m l.*1) (doubled n l.*2)) r'.
Proof using F Ha Hb.
  intros R Hl. revert m n r R. induction Hl as [|d l [H1 H2] Hl IH]; intros m n r R; cbn [double_loop fmap list_fmap].
  { by exists r. }
  destruct (double_step_ok m n r d R H1 H2) as (t & -> & Rt). cbn [mbind option_bind]. ge_step.
  by apply IH.
Qed.

Lemma double_loop_p3_ok l m n r r3 :
  rep_p2 (M m n) r -> Forall (fun d => sliding d.1 /\ sliding d.2) l -> l <> [] ->
  exists r', double_loop_p3 add_a add_b r3 r l = Some r'
    /\ rep_p3 (M (doubled m l.*1) (doubled n l.*2)) r'.
Proof using F Ha Hb.
  intros R Hl. revert m n r R. induction Hl as [|d l [H1 H2] Hl IH]; intros m n r R Hne; [done|].
  destruct (double_step_ok m n r d R H1 H2) as (t & Et & Rt).
  destruct l as [|d' l].
  - cbn [double_loop_p3 fmap list_fmap]. rewrite Et. cbn [mbind option_bind]. ge_step. by eexists.
  - change (double_loop_p3 add_a add_b r3 r (d :: d' :: l))
      with (t ← double_step add_a add_b r d; r' ← ge_p1p1_to_p2 t;
            double_loop_p3 add_a add_b r3 r' (d' :: l)).
    rewrite Et. cbn [mbind option_bind]. ge_step.
    destruct (IH _ _ _ R0 ltac:(done)) as (r' & E & R'). by exists r'.
Qed.

End loops.

Lemma skip_zeros_doubled l :
  doubled 0 (skip_zeros l).*1 = doubled 0 l.*1
  /\ doubled 0 (skip_zeros l).*2 = doubled 0 l.*2.
Proof.
  induction l as [|[x y] l IH]; [done|]. cbn [skip_zeros].
  destruct ((x =? 0) && (y =? 0)) eqn:E; [|done]. apply andb_prop in E as [->%Z.eqb_eq ->%Z.eqb_eq]. done.
Qed.

Lemma skip_zeros_Forall (P : Z * Z -> Prop) l : Forall P l -> Forall P (skip_zeros l).
Proof.
  induction 1 as [|[x y] l H Hl IH]; [constructor|]. cbn [skip_zeros].
  destruct ((x =? 0) && (y =? 0)); [done|]. by constructor.
Qed.

(** A scalar for the double multiplications: 32 bytes below 2^254. *)
Definition slide_scalar (a : bytes) : Prop :=
  is_bytes a /\ length a = 32%nat /\ num a < 2 ^ 254.

Lemma slide_digits a :
  slide_scalar a -> le_val 2 (slide a) = num a /\ Forall sliding (slide a) /\ length (slide a) = 256%nat.
Proof.
  intros (Ha & Hl & HV). destruct (slide_ok a Ha Hl HV) as [L Dn _ V _ _]. split_and!; [done| |done].
  apply Forall_lookup_2. intros i y Hi. pose proof (lookup_lt_Some _ _ _ Hi).
  rewrite at_lookup in Hi by done. apply Some_inj in Hi as <-. apply Dn. lia.
Qed.

Lemma slides_ok a b :
  slide_scalar a -> slide_scalar b ->
  Forall (fun d => sliding d.1 /\ sliding d.2) (slides a b)
  /\ doubled 0 (slides a b).*1 = num a /\ doubled 0 (slides a b).*2 = num b.
Proof.
  intros (Va & Da & La)%slide_digits (Vb & Db & Lb)%slide_digits. unfold slides.
  destruct (skip_zeros_doubled (reverse (zip (slide a) (slide b)))) as [E1 E2]. rewrite E1, E2.
  split_and!.
  - apply skip_zeros_Forall, Forall_reverse, Forall_lookup_2. intros i [x y] Hi.
    apply lookup_zip_Some in Hi as [Hx Hy].
    split; [apply (Forall_lookup_1 _ _ _ _ Da Hx)|apply (Forall_lookup_1 _ _ _ _ Db Hy)].
  - rewrite fmap_reverse, fst_zip by lia. unfold doubled. rewrite horner, Va. lia.
  - rewrite fmap_reverse, snd_zip by lia. unfold doubled. rewrite horner, Vb. lia.
Qed.

Lemma slides_zero a b :
  slide_scalar a -> slide_scalar b -> slides a b = [] <-> num a = 0 /\ num b = 0.
Proof.
  intros Ha Hb. split.
  - intros E. destruct (slides_ok a b Ha Hb) as (_ & Ea & Eb). rewrite E in *. by split.
  - assert (forall s, slide_scalar s -> num s = 0 -> s = replicate 32 0) as Z0.
    { intros s (Hs & Hl & _) E. apply (le_val_inj 256); [lia|done|by_eval|by rewrite Hl|by_eval || done]. }
    intros [E1 E2]. rewrite (Z0 a Ha E1), (Z0 b Hb E2). vm_compute. reflexivity.
Qed.

Lemma double_p2 add_a add_b a b :
  adds 1 0 add_a -> adds 0 1 add_b -> slide_scalar a -> slide_scalar b ->
  exists r, double_loop add_a add_b ge_p2_0 (slides a b) = Some r /\ rep_p2 (M (num a) (num b)) r.
Proof using F.
  intros H1 H2 Ha Hb. destruct (slides_ok a b Ha Hb) as (D & Ea & Eb).
  destruct (double_loop_ok _ _ H1 H2 (slides a b) 0 0 ge_p2_0 zero_p2 D) as (r & E & R).
  exists r. split; [done|]. by rewrite Ea, Eb in R.
Qed.

Lemma double_p3 add_a add_b a b r3 :
  adds 1 0 add_a -> adds 0 1 add_b -> slide_scalar a -> slide_scalar b ->
  exists r, double_loop_p3 add_a add_b r3 ge_p2_0 (slides a b) = Some r
    /\ if decide (num a = 0 /\ num b = 0) then r = r3 else rep_p3 (M (num a) (num b)) r.
Proof using F.
  intros H1 H2 Ha Hb. pose proof (slides_zero a b Ha Hb) as SZ.
  destruct (decide (num a = 0 /\ num b = 0)) as [H0|H0].
  { rewrite (proj2 SZ H0). by exists r3. }
  destruct (slides_ok a b Ha Hb) as (D & Ea & Eb).
  destruct (double_loop_p3_ok _ _ H1 H2 (slides a b) 0 0 ge_p2_0 r3 zero_p2 D) as (r & E & R).
  { intros K. by apply H0, SZ. }
  exists r. split; [done|]. by rewrite Ea, Eb in R.
Qed.

(** The double multiplications, with tables of odd multiples. *)
Lemma double_family a b A Bi r3 :
  slide_scalar a -> slide_scalar b -> rep_p3 (M 1 0) A -> odd_precomp 0 1 Bi ->
  (exists r, ge_double_scalarmult_base_vartime Bi a A b = Some r /\ rep_p2 (M (num a) (num b)) r)
  /\ (exists r, ge_double_scalarmult_base_vartime_p3 Bi r3 a A b = Some r
        /\ if decide (num a = 0 /\ num b = 0) then r = r3 else rep_p3 (M (num a) (num b)) r)
  /\ forall Ci, odd_table 0 1 Ci ->
     exists Ai, ge_dsm_precomp A = Some Ai
     /\ (exists r, ge_double_scalarmult_precomp_vartime a A b Ci = Some r
          /\ ge_double_scalarmult_precomp_vartime2 a Ai b Ci = Some r
          /\ rep_p2 (M (num a) (num b)) r)
     /\ (exists r, ge_double_scalarmult_precomp_vartime2_p3 r3 a Ai b Ci = Some r
          /\ if decide (num a = 0 /\ num b = 0) then r = r3 else rep_p3 (M (num a) (num b)) r).
Proof using F.
  intros Ha Hb RA HB. destruct (ge_dsm_precomp_ok 1 0 A RA) as (Ai & EA & TA).
  assert (adds 1 0 (add_cached Ai)) as H1 by (intros m n t d; by apply add_cached_ok).
  assert (adds 0 1 (add_precomp Bi)) as H2 by (intros m n t d; by apply add_precomp_ok).
  unfold ge_double_scalarmult_base_vartime, ge_double_scalarmult_base_vartime_p3,
    ge_double_scalarmult_precomp_vartime, ge_double_scalarmult_precomp_vartime2,
    ge_double_scalarmult_precomp_vartime2_p3.
  rewrite EA. cbn [mbind option_bind]. split_and!; [by apply double_p2|by apply double_p3|].
  intros Ci TC. assert (adds 0 1 (add_cached Ci)) as H3 by (intros m n t d; by apply add_cached_ok).
  exists Ai. split; [done|]. split; [|by apply double_p3].
  destruct (double_p2 _ _ a b H1 H3 Ha Hb) as (r & E & R). by exists r.
Qed.

End multiplication.

End ScalarMult.
