(* ===== verification/BaseTable.v ===== *)
(** * The tables of the base point are right

    ge_base[i][j] is (j + 1) 256^i B and ge_Bi[i] is (2 i + 1) B, for the base
    point B of the curve, and l B is the neutral element.  The proof is a chain
    of multiples of B: each is the sum of two earlier ones (or the opposite of
    one), which a check of two products per coordinate certifies without
    inversions; the table entries are then compared with the multiples. *)

From S2P Require Import Prelude Limbs Primality Scalar Fe Ge Curve ScalarMult BaseData.
Import Limbs Primality Fe Ge Curve ScalarMult BaseData.

Module BaseTable.

(** The base point: y is 4/5 and x is even. *)
Definition B : point :=
  (15112221349535400772501151409588531511454012693041857206046113283949847762202,
   46316835694926478169428394003475163141307993866256225615783033603165251855960).

Lemma B_curve : on_curve B.
Proof. by_eval. Qed.
#[global] Hint Resolve B_curve : curve.

(** ** Chains of multiples *)

(** The sum of the multiples [i] and [j] steps back, with twice its
    coordinates, or the opposite of the one [i] steps back. *)
Inductive node := Sum (i j : nat) (a b : Z) | Neg (i : nat).

(** A multiple [coef] B: twice its coordinates, their product and d times it. *)
Record mult := Mult { coef : Z; ma : Z; mb : Z; mq : Z; mt : Z }.

Definition reduce (x : Z) : Z := fold (fold x).

Definition zero_mod (x : Z) : bool := let r := reduce x in (r =? 0) || (r =? p).

Definition make (c a b : Z) : mult := let q := reduce (a * b) in Mult c a b q (reduce (d * q)).

Definition sum_ok (P Q : mult) (a b : Z) : bool :=
  let e := reduce (mt P * mq Q) in
  let u := (mb P - ma P) * (mb Q - ma Q) in let v := (mb P + ma P) * (mb Q + ma Q) in
  zero_mod (a * (16 + e) - 4 * (v - u)) && zero_mod (b * (16 - e) - 4 * (v + u)).

Fixpoint run_chain (env : list mult) (l : list node) : option (list mult) :=
  match l with
  | [] => Some env
  | Sum i j a b :: l =>
      P ← env !! i; Q ← env !! j;
      if sum_ok P Q a b then run_chain (make (coef P + coef Q) a b :: env) l else None
  | Neg i :: l =>
      P ← env !! i; run_chain (make (- coef P) (- ma P) (mb P) :: env) l
  end.

(** ** Tables *)

Definition bounded (k : Z) (h : fe) : bool :=
  Nat.eqb (length h) 10 && forallb (fun '(c, x) => (lo c <=? x) && (x <=? hi c)) (zip (fe_cells k) h).

Definition entry_ok (env : list mult) (c : Z) (t : ge_precomp) : bool :=
  let s := fval (yplusx t) in let r := fval (yminusx t) in
  bounded 2 (yplusx t) && bounded 2 (yminusx t) && bounded 1 (xy2d t)
  && existsb (fun m => if coef m =? c then zero_mod (s - r - ma m) && zero_mod (s + r - mb m)
                         && zero_mod (2 * fval (xy2d t) - mt m) else false) env.

(** The entries of a row are the multiples c, c + k, c + 2 k, ... *)
Fixpoint row_ok (env : list mult) (k c : Z) (row : list ge_precomp) : bool :=
  match row with
  | [] => true
  | t :: row => entry_ok env c t && row_ok env k (c + k) row
  end.

Fixpoint rows_ok (env : list mult) (c : Z) (rows : list (list ge_precomp)) : bool :=
  match rows with
  | [] => true
  | row :: rows => Nat.eqb (length row) 8 && row_ok env c c row && rows_ok env (256 * c) rows
  end.

Definition neutral_ok (env : list mult) (c : Z) : bool :=
  existsb (fun m => if coef m =? c then zero_mod (ma m) && zero_mod (mb m - 2) else false) env.

(** ** Soundness *)

Definition good (m : mult) : Prop :=
  let P := zmul (coef m) B in
  eqm p (ma m) (2 * P.1) /\ eqm p (mb m) (2 * P.2)
  /\ eqm p (mq m) (ma m * mb m) /\ eqm p (mt m) (d * (ma m * mb m)).

Lemma reduce_eqm x : eqm p (reduce x) x.
Proof. apply (fold_reduces x). Qed.

Lemma zero_mod_ok x : zero_mod x = true -> eqm p x 0.
Proof.
  unfold zero_mod. rewrite orb_true_iff, !Z.eqb_eq. intros E.
  transitivity (reduce x); [symmetry; apply reduce_eqm|]. destruct E as [-> | ->]; [done|]. unfold eqm. by rewrite Z_mod_same_full, Zmod_0_l.
Qed.

Lemma make_good c a b :
  eqm p a (2 * (zmul c B).1) -> eqm p b (2 * (zmul c B).2) -> good (make c a b).
Proof.
  intros Ea Eb. unfold good, make. cbn [coef ma mb mq mt].
  split_and!; [done|done|apply reduce_eqm|]. by rewrite !reduce_eqm.
Qed.

Lemma sum_good P Q a b :
  good P -> good Q -> sum_ok P Q a b = true -> good (make (coef P + coef Q) a b).
Proof.
  intros (A1 & B1 & Q1 & T1) (A2 & B2 & Q2 & T2) [X%zero_mod_ok Y%zero_mod_ok]%andb_prop.
  rewrite reduce_eqm in X, Y. revert A1 B1 A2 B2.
  destruct (zmul_add (coef P) (coef Q) B B_curve) as [S1 S2].
  destruct (is_sum_add _ _ (zmul_curve (coef P) B B_curve) (zmul_curve (coef Q) B B_curve))
    as (Ua & Ub & Ex & Ey).
  rewrite <- S1 in Ex. rewrite <- S2 in Ey. revert Ua Ub Ex Ey. unfold cross.
  generalize (zmul (coef P) B), (zmul (coef Q) B). intros [x1 y1] [x2 y2]. cbn [fst snd].
  intros Ua Ub Ex Ey A1 B1 A2 B2. rewrite T1, Q2, A1, B1, A2, B2 in X, Y.
  assert (unit 16) as U16 by (apply unit_nonzero; by_eval).
  apply make_good.
  - apply (unit_cancel (16 * (1 + d * x1 * x2 * y1 * y2))); [by apply unit_mul|].
    transitivity (32 * (x1 * y2 + x2 * y1)); [eapply (combine_1 _ _ 1); [exact X|]; ring|].
    rewrite <- Ex. eqm_ring.
  - apply (unit_cancel (16 * (1 - d * x1 * x2 * y1 * y2))); [by apply unit_mul|].
    transitivity (32 * (y1 * y2 + x1 * x2)); [eapply (combine_1 _ _ 1); [exact Y|]; ring|].
    rewrite <- Ey. eqm_ring.
Qed.

Lemma neg_good P : good P -> good (make (- coef P) (- ma P) (mb P)).
Proof.
  intros (A1 & B1 & _ & _). destruct (zmul_opp (coef P) B) as [N1 N2]. cbn [fst snd pt_neg] in N1, N2.
  apply make_good; [rewrite N1, A1|rewrite N2, B1]; eqm_ring.
Qed.

Lemma run_chain_good l env env' :
  Forall good env -> run_chain env l = Some env' -> Forall good env'.
Proof.
  revert env. induction l as [|[i j a b|i] l IH]; intros env G E; cbn [run_chain] in E.
  - by injection E as <-.
  - apply bind_Some in E as (P & HP & (Q & HQ & E)%bind_Some).
    destruct (sum_ok P Q a b) eqn:K; [|done]. eapply IH; [|exact E]. constructor; [|done].
    rewrite Forall_lookup in G. by apply sum_good; [apply (G i)|apply (G j)|].
  - apply bind_Some in E as (P & HP & E). eapply IH; [|exact E]. constructor; [|done].
    rewrite Forall_lookup in G. by apply neg_good, (G i).
Qed.

Lemma bounded_ok k h : bounded k h = true -> covers (fe_cells k) h.
Proof.
  unfold bounded. intros [L%Nat.eqb_eq F]%andb_prop. unfold covers. apply Forall2_same_length_lookup_2.
  - by rewrite L.
  - intros i c x Hc Hx. rewrite forallb_forall in F.
    assert (In (c, x) (zip (fe_cells k) h)) as I.
    { apply list_elem_of_In, list_elem_of_lookup. exists i. rewrite lookup_zip_with, Hc, Hx. done. }
    specialize (F _ I). cbn in F. apply andb_prop in F as [F1%Z.leb_le F2%Z.leb_le]. done.
Qed.

Lemma entry_good env c t :
  Forall good env -> entry_ok env c t = true -> rep_precomp (zmul c B) t.
Proof.
  intros G. unfold entry_ok. rewrite !andb_true_iff, existsb_exists.
  intros (((B1 & B2) & B3) & m & Hm & H). destruct (Z.eqb_spec (coef m) c) as [<-|]; [|done].
  apply andb_prop in H as [[X Y]%andb_prop T]. apply zero_mod_ok in X, Y, T. apply bounded_ok in B1, B2, B3.
  rewrite Forall_forall in G. destruct (G m) as (A1 & A2 & _ & A4); [by apply list_elem_of_In|].
  rewrite A1 in X. rewrite A2 in Y. rewrite A4, A1, A2 in T. revert X Y T.
  generalize (zmul (coef m) B). intros [x y] X Y T. cbn [fst snd] in *.
  unfold rep_precomp, rep. cbn [fst snd].
  split_and!; [done| |done| |done|]; apply (unit_cancel 2 _ _ unit_2).
  - eapply (combine_2 _ _ 1 _ _ 1); [exact X|exact Y|]. ring.
  - eapply (combine_2 _ _ (-1) _ _ 1); [exact X|exact Y|]. ring.
  - eapply (combine_1 _ _ 1); [exact T|]. ring.
Qed.

Lemma row_good env k c row :
  Forall good env -> row_ok env k c row = true ->
  forall j t, row !! j = Some t -> rep_precomp (zmul (c + Z.of_nat j * k) B) t.
Proof.
  intros G. revert c. induction row as [|t row IH]; intros c R j u Hj; [done|].
  cbn [row_ok] in R. apply andb_prop in R as [R1 R2]. destruct j as [|j].
  - injection Hj as <-. replace (c + Z.of_nat 0 * k) with c by lia. by apply (entry_good env).
  - replace (c + Z.of_nat (S j) * k) with (c + k + Z.of_nat j * k) by lia. by apply IH.
Qed.

Lemma rows_good env c rows :
  Forall good env -> rows_ok env c rows = true ->
  forall i row, rows !! i = Some row -> length row = 8%nat /\
    forall j t, row !! j = Some t -> rep_precomp (zmul ((1 + Z.of_nat j) * (c * 256 ^ Z.of_nat i)) B) t.
Proof.
  intros G. revert c. induction rows as [|row rows IH]; intros c R i row' Hi; [done|].
  cbn [rows_ok] in R. rewrite !andb_true_iff in R. destruct R as ((L%Nat.eqb_eq & R1) & R2).
  destruct i as [|i].
  - injection Hi as <-. split; [done|]. intros j t Hj.
    replace ((1 + Z.of_nat j) * (c * 256 ^ Z.of_nat 0)) with (c + Z.of_nat j * c) by lia.
    by apply (row_good env c c row).
  - destruct (IH _ R2 i row' Hi) as [L' H]. split; [done|]. intros j t Hj.
    rewrite Nat2Z.inj_succ, Z.pow_succ_r by lia. replace (c * (256 * _)) with (256 * c * 256 ^ Z.of_nat i) by lia.
    by apply H.
Qed.

Lemma neutral_good env c : Forall good env -> neutral_ok env c = true -> pt_eq (zmul c B) pt_zero.
Proof.
  unfold neutral_ok. rewrite existsb_exists.
  intros G (m & Hm & H). destruct (Z.eqb_spec (coef m) c) as [<-|]; [|done].
  apply andb_prop in H as [X%zero_mod_ok Y%zero_mod_ok].
  rewrite Forall_forall in G. destruct (G m) as (A1 & A2 & _); [by apply list_elem_of_In|].
  rewrite A1 in X. rewrite A2 in Y. split; cbn [fst snd pt_zero]; apply (unit_cancel 2 _ _ unit_2).
  - eapply (combine_1 _ _ 1); [exact X|]. ring.
  - eapply (combine_1 _ _ 1); [exact Y|]. ring.
Qed.

(** ** The chain *)

Definition chain : list node :=
  [Sum 0 0
     49454826470213082005109149143351177669245536334795276913452847365042467216412
     31099351160560380352705337420899084503099144132890121161014159186125286098834;
   Sum 0 1
     35897422310251779602461596686429621651457404227445049352753851555625254896843
     16649687557066887952980754240738402276602834452595110633482404420807453010344;
   Sum 0 2
     29165908464745972903552341689886003637419761118835724518572748252630217912544
     7070592815068838088684174091045270544729103339445700396937293440632182022769;
   Sum 0 3
     9037964452214974298716801994655396473512387880498849546088722613686669010041
     28298342948685755794924734287474063353933055159265335298466077913825896403437;
   Sum 0 4
     11391190561811634281612841736312151203888592142927325672476235368573062079629
     4798369922999026589115214650375662177091393805760865654457515810086263651816;
   Sum 0 5
     18398268531118045943011070805616719113991109719032505205087556590074968441358
     45024175699391198552057121733259375441640509622466525701153356407237903435120;
   Sum 0 6
     35516736942273016816891854464027988214423500124234395864356159319309812435363
     30598340331312543949298669618124188228159452455422126030191408819101596873576;
   Sum 0 0
     32243275238019215546879680566872312935090886887664841179168395560968590062576
     43954171183431626170817687560243827454991654823428663618209169601080905846761;
   Sum 0 0
     52296635867009080010886346804084652917344324917535663631339652826072813968972
     3804588475974200726952630076781162583212905958468846337027310884550754542821;
   Sum 0 0
     5407934095448845855885591213689612876942190260669698198263415401248078776342
     55272703501974830988017071899291921655101180181920372409470017459975080907340;
   Sum 0 0
     50311835565629674520796139450483706463729459526492608858009111872564092713742
     37017652840882143879500555076287234409142459496622484831685893525191355993592;
   Sum 0 0
     27584125795237049651060512694569025201220647676325861648971355999680078367423
     13871369445044535236441507659248419279968719196641125190122732203216375246222;
   Sum 0 0
     42449377344879977823333574317621227476647546955246224695767915879934027524116
     18837628939281593501393820903244518054555871156516929032456075427030811224035;
   Sum 0 1
     44051542851196722582358493604464905087360037082026181695840625996554139412361
     32826263631215163323292335539777088448093285916174366116701161827539919517700;
   Sum 0 2
     38959782855017118820588177989616951096685943342907928002441110066450538976995
     24350706162048716563488734428838828010953966647343875386612296943705875513978;
   Sum 0 3
     34472807576949623024231510425205503398553956866146354852730175685809606408119
     5293844867160147078243407429979629132299100662088392025074376126845028799356;
   Sum 0 4
     29158783405049383724629077344424653534811397954030586012255768571414041463869
     28819693621292226307594228430918643233725693770067564845632247131286501372280;
   Sum 0 5
     55583440467746866183304923433114357676011324932630959530706304775885081951026
     45277296953546114970181680046987958130240053915189618064582452310575235727858;
   Sum 0 6
     54372610930473103499685147604248890663105359283664157860216730895862552997870
     4624083994903173417745175047100473016315931606632610778142211855132028726428;
   Sum 0 0
     55251959956723027420988523710964398299335593798237348847217394132349938937319
     23214474778766860744498930759014988220487472556382314076216414995257903956413;
   Sum 0 0
     21561414451055598447454084110113103991806638388758302954162234761748326618044
     46143454586282021624904473631708390842952369956652174139691722748683940093733;
   Sum 0 0
     6928641198534225393758577506494159787919792719250948850581204301921343411988
     45492222874917065431663970872078253511031473465388890721115664642677782155797;
   Sum 0 0
     24707064209833303127493945342796962853603316130449236275602249851178603380247
     833304938543940162209620749269618422393184644600203832309101529472400693919;
   Sum 0 0
     27053888220146365231562811498372277466859496610045495136583170557794039581405
     40365876562502499699424272973855696269064840311298858201780773750146824001644;
   Sum 0 0
     47843452645263874357927259973152026224933685112804365829571227356213119327841
     7592349035420343397197609710434396856643467315778403898856302444335201012706;
   Sum 0 1
     46865518710667431030134021013554881303435944058970700977904464952456043791667
     46819499523508997453330184208280477736498102342112438431385851645281548461460;
   Sum 0 2
     38389132607482018161545987333045066106058828870382481555689672710619096492155
     20770948120584444079286427642588871933677670017402016421314701098752754429154;
   Sum 0 3
     4853754882661776363116220292563055858878519800855521438484686293082975770979
     2932071009569789741172474219752249685844071824850046621922622319831706063210;
   Sum 0 4
     21988400202153323515907718593086685671086720428412654149120952030151107970887
     41906625223339000224196502974267252991941503246387514725640375894280290969346;
   Sum 0 5
     50220282622207140810230286713757848318295395666590475022570253222997691015087
     53852659487371704994547057898747447190840167691543583023401052198962560809133;
   Sum 0 6
     32788064732193762308906404085437970913821530179751888972315432523624405609576
     50182563681323104410271496787158683168241406249184006210358586038652912649708;
   Sum 0 0
     6061305960515640587909180481289163746823318472404567983127131900831501478874
     6899793691613843030747494702502140249232874240664607942770864904981697710576;
   Sum 0 0
     7386481838858202999549882359268236319277519884639847276369553961437820919565
     46651364219620712607764536130237717940693958771845134713059868826372073676969;
   Sum 0 0
     53986106908985471515548191053863188797882870626134436048903602853992384634488
     41513147757286726651587642052876701681224738299528532743336069796196471972594;
   Sum 0 0
     5144290713180670677607968573126242628714962627437266019709039889171188776123
     39847850220547006949145266605695516617688688012684542640414487829307578054291;
   Sum 0 0
     9906374461487925861324226491888508613360464333908655865645290265824119518446
     29911141169757013091962573649409919121552725592682727280189370126623513776522;
   Sum 0 0
     39315899271366186370579139420423170687928867058444665067078576580320308370022
     55889278693507862434847275085973413066152649487028934584125904663823228606487;
   Sum 0 1
     4713182903218911809379852431485372631010391981540454937106005706312928949187
     37871350644580366516151919472647715166290077923751106411772140982571457342677;
   Sum 0 2
     36056975693986916562752911056764165378167912494859635105960611295260099196649
     50897340787957651167152466884795034915083385072903398567123261223312205145900;
   Sum 0 3
     37940259374203808698813860988434305496361565456004424626382669658722531942453
     11910449009098577715162841200069485254274032081144718858580379684600971842476;
   Sum 0 4
     47808929792667217982591465497993977656329240523864433971937725995315001422294
     34319003036290203419766473073196664881540871850102747953624047158359067259765;
   Sum 0 5
     35377192303270444698648427279627185921578718301254668511526563444006563257496
     41638486817575954604601110960886528803952408103104860116732968332384104329157;
   Sum 0 6
     37917485546597874147511239941242328434499497857962441386156769916121407621362
     40225293411121139556284197557296256435439002369052412458915306692479065071645;
   Sum 0 0
     27384887257257084964796276597696207564498087695457496414321196775182948072534
     13071322897904125818433903125070748241399214490763731621691260427242711553260;
   Sum 0 0
     30250207672607759927219029162307702602742094608835227379955426518637825173197
     51417284579727503932604048450475809453261467817842097434662397761784873419802;
   Sum 0 0
     8100348126471128272934145069182892721396995939932582580586715774402078961461
     44621803055421263206361986631633345798662948008752892951434460191592748001984;
   Sum 0 0
     51869775196612612204837034175715088697326971090455006095733632188036436041155
     27968326273015372257974037887972767450691467053054275103341919924763430342423;
   Sum 0 0
     11866385427777752835069523255914311539321403222839798202323453746120356272521
     40939114935618367906255688418540428093679050254925237338219605057564400906823;
   Sum 0 0
     10274855520343491308519326537271401813266023747007527859453163395965516053053
     46660538214672290140066166551600409260289565198718419041387680527762010206121;
   Sum 0 1
     36976998045492110327744491114583139479751410341027380191632938779430906073586
     47619829183040688065285922034206810917381950031447914853496373253765709746562;
   Sum 0 2
     46813179612345920349703591768671307612908483241504952489834440312956285876670
     17813805648203078793875129764855187320627059236949884479458297532456644182981;
   Sum 0 3
     35597178186487726303419290118270361609677186724592193890644568189311838689605
     56470146292430915628035581216417057276274145697557345686424158984601255108221;
   Sum 0 4
     20575914282574765425383448246890128271642798703272784236213693980860954445025
     38626338647927800161952852985630964715205156968039906523537276807424313783927;
   Sum 0 5
     10625761101837167121543902698770202797796743682855379550443836375518989059467
     42264262527672884669351946102139018990142153643210802771058916740418570224161;
   Sum 0 6
     3877031233313899336724419243849685378931247023091368070669958429582269079455
     50179764833151141304436519471205673877778413655320911507664204604573769974941;
   Sum 0 0
     39278903642295481341397249400545469641789627819470583160940412399537401210784
     57093762225041996391089062358899036237062878987377143486130043785244075628983;
   Sum 0 0
     24938904401366243219920880759915689515173269773488203700137328279773784050024
     20978294556374220724269990223926453128282092002697882151245361317483187065296;
   Sum 0 0
     1099378663318655123210389384845205651538832904223632468022922549130011991310
     45043444784125007249888997578967628179875669958805312642707505919499506063609;
   Sum 0 0
     32331191011230306992521674780178403078086236860148276413729454383998219167479
     3960556085383931427962298279860904528326152143335257278180501115009540349174;
   Sum 0 0
     13951833161232862276861987146866143495834841184868344338695548418043761533386
     55459892210825929310224472631700535864936073765090083014641997167708685125300;
   Sum 0 0
     53442804735055365149884220923161034822426897489433543532716296327754602211456
     18576774689784345598341488621957952359821054185447159805904316978686545737896;
   Sum 0 1
     52030068125665038074969596367128051198092464331953362048031957654350801324137
     54333386930103862956361256914382963638358751988568781707616652123268270444714;
   Sum 0 2
     21977048603524746484493454703859805842996259965328632005601018253484242325568
     56881439270749142586792314459751082538826453882707805856659577157333778626662;
   Sum 0 3
     26318021866149536148044225068185097358950399221958914516658645797794689024569
     17960563010353675102109220650418504569065515222912194599346974459972140352653;
   Sum 0 4
     41184780112600215921724500383014969879050254271147878496974575687758858612124
     10082407598311520739003504734959614447314970352235800649628434946320530614756;
   Sum 0 5
     16623275136655845806761907106580139333043980526496485287597238707334507582389
     55667375621339687640331913815643660269428114467207495353770086418997081337210;
   Sum 0 6
     23536805658793791778587171295596065293900261125615954766813120545750417586299
     35642261242706960225381310298126096663443436955534889109296060448812946936197;
   Sum 0 0
     17125437444260585045874137425463051409190862201166652829369369612157713469583
     56710956009183617851993220296316543002079493710754674662138103757597599327129;
   Sum 0 0
     14586664508866249207624724421316847344493846203992009782204528831271079135325
     42970202709359117403338541919632689288929357531231576381277367157067462859932;
   Sum 0 0
     41169593199286647065723974531052496456977598814567000377616476744262379402960
     52957481601466538576396262730937369341921070289859588054968287095036390534216;
   Sum 0 0
     20373472223070270798152740100945623400478915726357003265119042175103889159245
     10248519138966701458393916757645815052993205566495338844985467395729876903324;
   Sum 0 0
     16877692517599265487214169215183784397631593468791673927144196626953479518903
     15231188024989371219548248194126911954124204070994243233561458536977021412159;
   Sum 0 0
     57164327151756142040573559222146917855255267853524155961594754634332403899046
     1138530362493919792234966026429497425249585150204014196066614910900356712179;
   Sum 0 1
     14247353221515394512548153186165540386799900524937828858981380342492603480487
     37088678154470224084494208262282479667674284350661777941742467558822841694521;
   Sum 0 2
     13329877891313916449875490548829074527172942803771815641832507956654860127688
     4253268151965308637180985770306264621963052027203371322033154516900545067460;
   Sum 0 3
     18772138409664552200331035266532552860345506570449347930676985407323901218136
     56791552205349729872719513012940948914833471163371697332851416060195667552147;
   Sum 0 4
     33558539735932515116146667507202945268662937514863754123718092338987416156969
     6532246971424788670541936311720309036144333134125843684152130013062928307340;
   Sum 0 5
     51271037521384178693983666776122344782444066696308159552817774953276000107193
     29043535330316214920833322782848423775559088465207121137525254754107326084205;
   Sum 0 6
     53787813276756855640538804453951490600082915509459266359148746486607572145078
     47776227273638070859853814214516888526180647045383321909462613708441164436818;
   Sum 0 0
     378710350808483345476258518229113930956681230162622183554690606721177081672
     45638553592931633008032016018937845483203316767171755240073960513411753758685;
   Sum 0 0
     28320918898818864692352015125644216481457405984430489018564386976001535924144
     24011623258552458751608854910364565898703385554151557861937630823412424520619;
   Sum 0 0
     8136523394813277923871699243485927067607074940179767488961806779075965317706
     35481386654353635709602908245174389117638064864258025413698495068770035783664;
   Sum 0 0
     23647533545128590932859750510479133323962162896352167093168855611681230305512
     50185466093545161991796632409604136579394388242896056582907083729072687869437;
   Sum 0 0
     45109234279350485533614683557965423512331334628904590431261402927532377381851
     51928660423306125975434377562487772927643803369965903301347573436910264207394;
   Sum 0 0
     43469449099683380386181684953618153432838912662423715482531519915890259845408
     713906128419894385885850035115341705329241374011511230528343203250094995733;
   Sum 0 1
     11687164127871184675264388081865579067875210745845830902080071693611399423076
     23944690040998979744813184110204360258707364684733658450583943653570132489482;
   Sum 0 2
     2107329749924728265833957180758290162882851857754790389965879405941666714117
     43775496791315350773087862719092908170776302530221228715691701072530673330721;
   Sum 0 3
     29837193354122771660248497699525746252397722407510558269200110838265695625207
     15374730710999232861565356573766609810588509092453841985229698029738219059825;
   Sum 0 4
     56622012947241876689791023892389087848403592768993446584689288432531604632725
     13137236090987778769043451293401274664212975959309725293012844044523905926190;
   Sum 0 5
     1838875964282963282083695296233141770949304987523128237155036865034118273392
     18341434101509695922765371485440450415688406471701630368889913077590462223338;
   Sum 0 6
     39868502204129240532303589103290752044479061905145426458182041225860548162583
     22814437695192845511982868525318642325231171946559950151616589800064520028414;
   Sum 0 0
     21041090945345161979154370079062274775827610388801260346138540173436161415677
     39145159448585573392808682450388734732837182543453311448317478329513915727483;
   Sum 0 0
     29268308537853347217800617559373395836377103591347816339402178372706040713706
     45270278480896043736402059733697546852421240201875342176708529859756861320020;
   Sum 0 0
     22773051003731862732479218509753823058099830599064508633203206729353131840641
     2386387116954346178086397604581518501438054609088794109232288947332412697555;
   Sum 0 0
     3717488483306672430687591354572205445036250267724094991933284602445518298692
     45480274304754092046823765777187579602387412203819826814896028269603025187621;
   Sum 0 0
     30880035537558747051414223654346047768220777792602410063814242548496094413847
     2847208635490854645580762452789549526106260811815988261448635589933912335910;
   Sum 0 0
     2020495505512724521762486469802896663408456131970795742776809763769379408686
     11914176254955311038444741583098149555049844475215096652310387944872868025327;
   Sum 0 1
     17336391335234325427205216351030294207321883758859022228107418072088054622414
     17466926401368834566052505178989762403792496085358091724490728228783148481649;
   Sum 0 2
     40992271044377591790725873867828156258148350042839747314556763960166218703589
     18755258890086729254649195021869917065438528819115264080136558560183934208065;
   Sum 0 3
     48848234584518872615371869876127697088038936400751785097433054880019209880986
     15271913877811355793702067020445767325573720503534875011092545942087372969767;
   Sum 0 4
     40154770980266629461577761272935442805151163180902035741502456530369079149625
     25637001477488697633437498301385363673764862570964591708920551720575002316548;
   Sum 0 5
     36835567789464673005312479761479602712305687136907527250159415989976330997685
     27630440904728045530861165298613242773233361419570975906501053431514381094988;
   Sum 0 6
     39259639998603049018253173739350348271859435409952908045335068303693051250021
     23397636992594189853428743055066997584161145811692526818446499082964695330186;
   Sum 0 0
     44936571903802549872159613857153043780569942582266911882175542372512055772255
     53001032793913560441317774245209043612823265149741060216849042725192958844490;
   Sum 0 0
     30852953158307649280127496215879276257636755353628347421865210460946035306070
     51852359071557550181107252798167304416115124372408379813001961349248997481243;
   Sum 0 0
     25425116787844087020622233092565788995659598585090595825083012843253530540112
     21475555291057036286277453774822581419452891292309575290770947813734573640637;
   Sum 0 0
     14037374608315981961757418778792349871972380648634637383451065510305247870625
     9181431818603892969340645304206977789562079448953209604586276776229648489050;
   Sum 0 0
     28418407787844946623447191329646085218766476672180561711902569744537395428670
     50296452352633975450153408770872711961329328316553596791358196137751287479365;
   Sum 0 0
     42554617638798858501776227274731661083462812525893395179089341659005547603179
     39238408847793464841113640340231132731621029445402537771881143629384406298015;
   Sum 0 1
     52060321984417736370680453408164522604585935608016132969438265658469915438056
     57690766535098275119205477911303142026715150572767274968948169124559832265639;
   Sum 0 2
     28555008363476815548470186756065910576380633051971347623095589675916514822856
     31846711554789661001689333916963088527097889148128788539992840548252554387209;
   Sum 0 3
     55304819130061296131537094813090235033089133733522545638436253254374714801680
     45460200696274804955455598756308216940041837358767338579683437086212139392375;
   Sum 0 4
     41994557100804378992964588320228738472782311092493336189018163937130718432291
     20130439587639420910753107122643691146529381182221841467730464430280281349665;
   Sum 0 5
     9523870211912596981937922509122222565424016242548353483025939688237350956684
     56947542091259037189110825943704675325943042231536332153000852309327829606819;
   Sum 0 6
     6941098798077857192919486673746714482373165988934227811129456154344092507169
     36774296466767317240574112460926171823755271190049144697137102543851470787144;
   Sum 0 0
     31558541922336437590459656181403066480430408452046745599720478011739809754008
     31764287905245383494773304486809410556816223287032724829215667443421776400777;
   Sum 0 0
     23869777502716753170734777211084525728168375825506955365251765909607230581370
     28428898487332613816683856132427791789979529831977464237920386224300720487306;
   Sum 0 0
     49490803016364704005904894924375034290627439184191024500918630463981327348692
     25210406608218719473679151292340190840056300340150065010043657626851952785012;
   Sum 0 0
     14279484017491631564935396415837414435141734779259146984423185963619339718500
     20782048660105862137832439707283409048120379767147221948814901921892668995144;
   Sum 0 0
     29449399007531518604858815143054008712204367857709365857294062086070020612603
     53548939201687268678937244211703399963110361084825945288464986961752533142004;
   Sum 0 0
     7978741120911417969267586951396889047494348694369435380764314464241169574658
     7115363339495820591185520609241018651420889943725239269396567340395302067783;
   Sum 0 1
     10254329451908170517886526156554662680585634197430473013890454530995823267983
     43134901364664415214372113405667789368280758054607898737970085783060555248282;
   Sum 0 2
     10119773612288479308772500468264478645069963293919061575285620410409646527198
     31667937184043144526215465833541814595666330505930384993286648937508474483659;
   Sum 0 3
     40794705225153757811544087067188485100086170356983472332301986740760790011631
     48874876039238553657933350303653846800330309864779332295626234961779976949386;
   Sum 0 4
     12397103972692901219182141038972153964838717957815000116584216557294228681809
     15607354150163688636102149400373627483539575378141620493906824030501919346745;
   Sum 0 5
     41706807499973039139366530733542111833022974500062811541058200846530096441375
     45173017279830971857503127916531377343109371756427587219590578410711318071248;
   Sum 0 6
     10068998226203078838342391350978032258795172426000600322594645522949584936014
     20072537882598241875433241509562145331984502901401150417684038186377167599001;
   Sum 0 0
     57403178391326805323755696816242777888729410457411667674580670903894428744708
     14408774460191628578310225568628334972958982778923355400078964924235800299580;
   Sum 0 0
     8086208897593684325491332986625997283658703831645742785384276073193464691174
     51167894928861743307173681929744462996988709167289560079796226422036696390852;
   Sum 0 0
     33934827603097403594485773687360180330637176699949513584525620500468558070138
     31498535064242928616281916264152018129410504300834013751042412181620701086513;
   Sum 0 0
     5159298548613097699675466000790665446579179517059405832845884053868548001850
     31807707545101407159075825126484844456595085547351291320661736963557061214814;
   Sum 0 0
     37858389006907750637148035230006408841278946904011604709480906049064344238557
     56224007273960753892909989232410874429570568651116573144569581136806795975964;
   Sum 0 0
     31353256429097558267718148099992748343352369800138606522578821135380507094469
     55428957051473638621386079686898262323990190098163533470683224557845358542454;
   Sum 0 1
     28892168735926299605496034628953779409753537347230304234924560802964645373601
     35986453022183403227442950639395157166082048300602737915098984544514164836357;
   Sum 0 2
     12763749891614409035077783509812615144658122560559291258409544249167558221071
     38308900207711409734052304037691230592034351654106879659744324883708370183075;
   Sum 0 3
     42302753618976195759549843973178223002923592877444153954009007381179711778150
     42330443936679516646144220635638380865828949506426888468010741051796000961664;
   Sum 0 4
     16363924121464905160767568582472657237313911417674886032713952225440103575014
     49984803909555010309827633104714314373306210492870684700219944099273911542696;
   Sum 0 5
     54950234014990167545785152247762028436637495598099370496873493505964152414276
     38596378856433096043668295484504506135841673003391839132117024264199158644840;
   Sum 0 6
     57813229446536144419063428450223609087787331980994824739890383687657720535793
     17191416610847676436854674478369940263388268977214979690872021340229184187814;
   Sum 0 0
     27323464412310609262946414970751775680081726102012812921843047567325435505732
     37405334604942812535887292373123258152955157829380155718058589000411783231730;
   Sum 0 0
     11461559125624428551649643593495422661147924664371816057295879179960211718847
     28103401728865006391206348846348486356278518910794557938979652494072145039422;
   Sum 0 0
     54646530801340130787075550053943285272781596568407326610952724833274953457945
     53418367941186722881092104921903686745753346189596689164111257154874124902;
   Sum 0 0
     9883589219975357963758376000228696087973990780171414619817828414316448740440
     22786144936802771806461298120705657775965867964208060536093371038237360050190;
   Sum 0 0
     16244385677738045149812679433162577573429567042518602379342497091361753197491
     48555021438369964812781425340193615157268221966471618097264597535773285971330;
   Sum 0 0
     20403198781767155787457378296358856775827377481196915500874110758205463146133
     11110404178299910213415499701617230501515922405842774902746975681877987324899;
   Sum 0 1
     13736508198690318564928722319737283645811712557177284410085739633346040737565
     17249279669898893349679035538755944508610520914375791535623366714915143537256;
   Sum 0 2
     46371845971957923531051759208531511657422278790022278965800954571081149581236
     14839484451521536139105291263754209411881601087673497937342289417823050690461;
   Sum 0 3
     36334326973285945854817862179980939705671067580771855112660453918920832293270
     24009986326888082119295112660849017197961347243813617020081805339185999023391;
   Sum 0 4
     53087694003686350518607201706596824259556851479803863314571530397722006763449
     35639878495105800323479044688042665645190518850680599305419800290388286839516;
   Sum 0 5
     2905711979850683070853650062889421929800034559954275210705756131485548958568
     33652152009446867775391128163167998915277760204668787865697669209653796116419;
   Sum 0 6
     46668056550332382368328279183314155508753792159467041312128372436575306685236
     26061261274342896138072258284435790989871722127969109436859691387970875451193;
   Sum 0 0
     57592727167725695337624089210357014489651754454684484029548310416636925669514
     52573874088666826694181157559506398392350880775201974897367572721644252634571;
   Sum 0 0
     44304755631426147770246048268440363324026051035869531307371186103615461902218
     40421480813025005934055886673313576222328296397831843799102937144302122000682;
   Sum 0 0
     29345854421630550611902733338736674432947329180276927625413842705388016557363
     54025656149252136457208664953592246514532279645011930705771321161174197521701;
   Sum 0 0
     27820484224627059496494676116692531470409586063926376720830310223129753870458
     56052066693929968287562649621978108180925249513018120616330847096666671569332;
   Sum 0 0
     22743758324747625807195265786106261542200420338913359017208709391242278687262
     11357846068671606999708387025898371414624823625172941185526151648513330529212;
   Sum 0 0
     36725678489788559184430499823107927575702121555486227997773090527139695855910
     8421615640892839302211484986380633707630984652553009579005024260373164469370;
   Sum 0 1
     23401159676304635096676435911825261945948055710990715866292527855465164656359
     426480009009299851965765566636770968190479433372349913380554489583323564477;
   Sum 0 2
     47842214911850883225101258172957876301696374661336811193716460302082780950196
     25198476532797269996869113684481536548584877926756475112278649218920748134988;
   Sum 0 3
     19827419652088334126684595403088676586692870876224262892750603812147501250077
     32846778313865077645922959440839197234890000830827621694386674470530745948951;
   Sum 0 4
     20943800370891311698594577115521468622390114640611430507730828262131216799103
     51971352047703070680973319291571010437852674525598599738127327612538063802801;
   Sum 0 5
     43123291641691749556833371871803927927757153775656425720138720796452641714886
     35927099755831835422207568993126131128925812758358901793110605087117654618882;
   Sum 0 6
     11496595636813213093239039031051251345701314985455558147849483381962634475939
     26345231649997854220237051976479078991563477007467800609042694671824423252189;
   Sum 0 0
     8558998414051114287875686524687777495009663373030470208781483739424906354539
     45362078023521414675001205130114222554216846812513711727674540201430550225232;
   Sum 0 0
     33736977831695658280495017576874485247547222546094874662347841932308002685285
     15203662211611828296612090267514101973650704563142557510252814014842883289919;
   Sum 0 0
     8219451226461008852649338673093786409398696300751181301922159972804526012958
     27096440030781574656525199412457305556799072209913864565085871943235867187598;
   Sum 0 0
     5452461374811316713176683672942526356216295270266290486767896935989444493159
     13572393238351147216618566886761439477754149953155816943662240170906673400988;
   Sum 0 0
     2918755789485970123433467840892640529484412597517154817905824896646269692681
     40735710968539806468670309987132586650736973920382295730283992093392709785135;
   Sum 0 0
     30938139411100109460325576905357520558449752931225506279903744102493364028393
     56185670878124416329217882796897628224275793276495384661983930838729706561226;
   Sum 0 1
     46278981372464671038238788519565754695092480138106514048506737629397726138066
     44283850976766532063798602369507343710887070136044153834173325130749736532431;
   Sum 0 2
     53931246798638810452976278163560875248196055612215377005712058944387414038129
     8340683755462140958129439883181788477746310211413544661606984991188048087832;
   Sum 0 3
     25727315185671024195178909283223156867643596415003691656896377679928826907318
     41745720461497784602939294069335948368527889960582949528672775962095834925536;
   Sum 0 4
     27262352308932508592820061549312658815726244059967438185917536330265168242136
     16395760855266378238583925293897811173158542690481637016395622624376947552518;
   Sum 0 5
     30954846021403080892705515634515739440973843524797926850727112981103022043719
     3209431945142095343677425646302327487920390266283848904409635004007066592777;
   Sum 0 6
     56820568891126077450337473416858732617665368690592486034494027451103464411795
     15002455272199509325643393834329148184468381883913803263731804483306180723084;
   Sum 0 0
     39669520413015645546091105914641881090008356726405053278835514277318902492169
     40028472591383667824707746866345681236291083080360067916201918322071690286188;
   Sum 0 0
     23236101508647438770887465903135712489127651456244467353245424001241980166804
     27260845013396279777370326601204742937386366295321196321125556900177562647337;
   Sum 0 0
     5198756481894110904016305569295389767895840567920265157230807553732556846069
     16839933712385134692076068578100784365949053944532952494803987410059868847327;
   Sum 0 0
     51913971978322272632471923054473832915435853658788590598057046628433467378702
     42833086563476058281467252652113335669497920593104245598439483764583337936355;
   Sum 0 0
     12341455383224694642982796640128969242895099511773561161123690887608933337179
     44553119438889692938741403235475579240534759873349132341540483019594572029130;
   Sum 0 0
     30991335695927038190141805950508026508108594118877902711729668133065280120472
     31201851199659990123021326380570623830398526005291079220743983504514173999995;
   Sum 0 1
     45905183632520289674845889689250041485095146607595910560941279094475373197092
     2128030413087084974185181181921692625925677777906483329221446699203719868191;
   Sum 0 2
     3742214204561095180130075846523531254783458883403869882783447936844651829096
     4394560662024647140644826897831055533321729368757300995369106236509840520696;
   Sum 0 3
     34344214832895904008739340875939568963900821845658579681962637803908161814193
     5821675495473262212434996388622173565924873915166540741841889710957307021044;
   Sum 0 4
     15700665361543760170508184008371951102443043260278392193555219445032512892212
     12150703221781961934113441563069615633853075900011575241825115545002094575156;
   Sum 0 5
     27649218597669894712434453768146801405068058215460538046983714161840099644244
     2860933852921715452172120492022283625409616307115009389318183139803017448779;
   Sum 0 6
     32285353373296850869480430878610648267414502415210023010652329436080371511187
     24509158045351193620463769724552139151080846225347100036755051696554962803756;
   Sum 0 0
     10109595236654562142887477432987193536475961286927600715589369724113238534924
     7161332790029184915478330916552100377555966417065201301293792007248000824807;
   Sum 0 0
     6232792415601948253482705302085513886606017234143757183015619125409823020410
     46099886707798903202315367994430340080793959189874829619051880495383967357191;
   Sum 0 0
     28110980916255445071779961504677929989665187732469671404576536573313678824520
     34557502354187205275231894364063781221939113144590863797411691087549013343907;
   Sum 0 0
     26511331859312292562160899774015283819019998609698983489477276419627707795238
     53514369641000832028008702194489083321742460053418013397113332668415758064853;
   Sum 0 0
     10995751810540310681863683156996937551899614933544534080505513314287241646171
     28201003507182138885826338632625637992019543668776182274469241646284425350377;
   Sum 0 0
     51040278094408301278951009961555559878090652578638835210962251684954365346077
     33677422812891830500319786152097303500985646802110620877979204666301173485183;
   Sum 0 1
     8825493384302887643046536126371368774424882301862352327199191690478906478478
     30049436873295524638567023224438736212756030810053147340029876916166082301041;
   Sum 0 2
     30753360428945188776594153551602138151592907337367555347948512929437485716518
     14514527858104513695133647891168600039985407748581354158958901231380517105171;
   Sum 0 3
     9209242948199400189020164711161636652583002421753898224464891418120573066817
     40026657350521394696260974514134288478989098977584603672498092473547561164699;
   Sum 0 4
     26902841258252965534737977075807651487171646078061593514545770180117282711771
     20770936303613961744013784947047661570722849270742734259778296484607241271041;
   Sum 0 5
     10145263683252482136918611700801141585842690513646858534228558068517686652189
     18273564903518653257907405116492061135399370700688471224080687644213454794835;
   Sum 0 6
     50653881564993146377370090452621043103656170093272893363410201910677529782225
     54571045596283060257008172076199244033446702142472231648021094229604720837772;
   Sum 0 0
     17988779677101372207587750070175219365454623280059674475268074368877351332475
     23644678890215979267607998002314291553409804145286724873686424195817404869317;
   Sum 0 0
     34462012926558608991616812009761458609921827653685091660530486444834137137514
     38560931670031415263176498590635796607884987969199644028105486764616817476246;
   Sum 0 0
     20289774098082647596255556823160859256355870640519610560789187345183240280103
     16205322839472435561899857575557724003874697688330798956424731359812200128989;
   Sum 0 0
     30141350675611683130956697038551709298123680780191624871152896664393652720912
     37998924096559891150915031532108150796159435786770490196481419771710130547180;
   Sum 0 0
     53871781380925124036414441469950627293732904897484193732230367577305147885503
     25575626720710181746178445462576968117781697684143512567817568753974905805066;
   Sum 0 0
     28618310353268341879161745914078250332018254012876626596710499552149527298851
     57450725257279139276599500964773974821149001836550681370885165203950454100060;
   Sum 0 1
     50208960024566769588245234132534954702273326798123232697622369127214067296848
     53064988848695310041514612783702597781763772161256095418859482752859927235580;
   Sum 0 2
     28522386204855969624687982026589010930223144597978769627761476460246721362934
     22868649655069534078286263452578364818564538891347533967226328717238362214077;
   Sum 0 3
     21956650366266375366673458817653017333200614646626393968341966667397534879761
     34027352890687820283649829653031361569346118711177772035165098310729141026908;
   Sum 0 4
     46360506277554970229544205233396195362706225372068008710736746871814995360096
     17274516862653793282145326549939711646281780281896196162097415025593822017204;
   Sum 0 5
     53432572371013454000585954715866943264655486210691961581153578708610471942277
     49211003801472714431063947907793033098389652468773495742451816945447199779474;
   Sum 0 6
     8049817017634133540120743929173332714542677864467161260442452899795617420686
     24578337371568095648602741615648778107081534880928484604936445388563511899276;
   Sum 0 0
     51137790621499825129562074907013893626724233952690948483780784210913957183503
     2946057672593289489532211534071341653143721773731120612196340665204340815850;
   Sum 0 0
     21286106062093803154633830531982019446574092570806157739018320173671322493438
     10533513715917931580415011902060771775622054868388864649713312905245769412076;
   Sum 0 0
     1771306915702173518346908666700716940229838015780947066342151608032625019576
     10347747462030911797686290819963976426097456883721477420254538957135673817248;
   Sum 0 0
     43243026341725042199061827540360925586590273702583019786316984826301059845246
     23738137978547662397350092473992644914940832665993629265889803848548605330174;
   Sum 0 0
     39200756091315113750579850710702631211778294624186121446639520790135273324322
     53938572182974584169031288592103072949776929494838019741414302249328491535089;
   Sum 0 0
     57317508565459345764201745883317576131049978348697933921072903790938487316020
     17629290190180711744481778072042343404902664152489800962524288507867150448499;
   Sum 0 1
     27291124672376441788284534537627531765810428135463334620767416116265886113120
     1605905239893253191133047697887341668248263734902314105044498724501469360149;
   Sum 0 2
     30082681601463501281267692598011334296471551451471088456337281251820842905805
     32495480689186854048982597920265064383676201734317858991316691194244132218949;
   Sum 0 3
     31847270414484894567302309466406245703164483642092343817712585237982855723284
     50577204373986781318705275796238281803085993843804650642499689646856815863056;
   Sum 0 4
     44816963536844530724679941200670811521305698036223453927093275225222302468248
     39766904502579710287877757806313025378783670617988176218553814331153151444311;
   Sum 0 5
     24844512013474761055117462642347410926895848717875266018788052973859017218348
     14641525821255028759473182372500443093619293681960548356845501722806523032227;
   Sum 0 6
     17804980536795687607605054650419799070395454512668887082472962892779919146850
     7705504560475810234018321093069901909802145658642934233939012616737887633032;
   Sum 0 0
     13973405578894972598510651169680231675384256515376693010120747809920457869774
     20585925974862998419612355405125432586800343338743953159352856749884354313916;
   Sum 0 0
     34088232271193010057474358693357018939822083950700717137510164404073971740214
     27014316726852116056116807588254887554853758885908600119725408760674885199077;
   Sum 0 0
     13502198874641583697050577341853862747848862177337926085426754040713039693765
     27698809860369384709064346460469706196283621356544491473317225292605829293271;
   Sum 0 0
     36651813678391779157579799986136115595702735069912157203931823599268693013496
     45232201518391433892798543098964996776442448001603770026917039334168319186558;
   Sum 0 0
     26097862591318083002644459991747006027189721679710175384258125475718986445876
     52816068332493773535632178683503997720348954715620323997146245979508792473561;
   Sum 0 0
     35609104043897002006947617568965393489511950512435249993721554400040995558448
     21588733739057844146617050931458716086586305947439393550337756138293850894985;
   Sum 0 1
     26917833158514527235566175309750146347134386165924844595243637426901343409053
     36480287277660977804775570288076533432877124103138950058928058467174415235843;
   Sum 0 2
     54487500876651253802788787270867319569526252846878412760865404930180550401800
     16669448936445955455855593714204653920329493613166130131713541665526930564214;
   Sum 0 3
     8488408782537036546595048873371827999300684472952797414633047321872742238847
     10145321517542174995008965477733842395934432401963908855071854212765493873822;
   Sum 0 4
     30763456803841835014764137375983618461091212116258057699381135966442745770490
     38859934307788036403850218475790117148538193218909595251057733469456119928648;
   Sum 0 5
     17996128494050777097430313669952474720761123606614855030133306455828648261478
     52295782124516481678433488924852874774784190746928153989568007934716385953731;
   Sum 0 6
     55063671790561184616216957829979267358105218166287406050773835748185064784042
     52421301162615700711506665090104958716453028686495947944550350456618034147841;
   Sum 0 0
     44918044020812883760143996846257995415893748888754210282168942849578371093644
     49755938465186674797718561017410890900195325632155803102455109485496451706675;
   Sum 0 0
     14925850810814931659571397469559224790863622356966495470299187455213839729429
     28928111288617294334384358149695690488358957025923695204031463468280265645861;
   Sum 0 0
     33000136985932130059880178070986221925636973766339491827598476534166562428230
     46856525842074256871268031012624389899486166029682139127547735964713230938712;
   Sum 0 0
     46139352304490848609804390829875215790456879129074761035632942091992187326803
     15764707312592386901262795724413252580731151035374825594814510147671341318270;
   Sum 0 0
     18309902293056668454649664464473159740609715754141744762894680045997174980725
     3028345119156424993962782685870782822773041298553951489625251154625337482816;
   Sum 0 0
     2418096040179965439688991367638164003787215075699158537740566473790176935234
     1482110018610152143060811547258161109159105506872686603647316289749971136750;
   Sum 0 1
     40870132143684126293162757784330706078228330407416472784340267287398666236882
     50192064914114284594122174742641998884870032183118229100823801388499884219298;
   Sum 0 2
     36266196039128479576716621484902265664732302788958370548213927539920185428518
     18384992069835762502559210700142071391308751074164199307750888607521798946383;
   Sum 0 3
     25946955735352630367163367983987052146168535763105856107476627520972412911078
     34364679449687973278088742827132271579153464822568042210690569760282781617027;
   Sum 0 4
     5470728917489627799356675772489424230117327110816438107189463264798016490382
     15319851727031002509664564876309208092194267488019841728557241698685936795318;
   Sum 0 5
     26465292097582215180307194981049347817507441348976395121599817603241899595795
     41225749936714758526929368143160712605681683566554078925348234966701280688162;
   Sum 0 6
     11550182852673137920939969167521756014645733379988303618104856122408348237778
     1878358333792645326861864091977148571105226359963396516667384704857067369257;
   Sum 0 0
     9187949282827322720818946272014672166686147092783740159304820695352768610484
     22150832491696671224263248874488726466040242890138246862555686853399310251948;
   Sum 0 0
     51201291901002984939741330060093819029331558098676469503236454085540587710964
     12140690480436390724982601989135224126806495028350074437007009566539839268459;
   Sum 0 0
     36866143117370195720795696112414821280210999283266458678575602125660830645057
     9989183812411360327338996776830292157675402143648495098380607412680417439725;
   Sum 0 0
     49812105769125564127903359398708096511151912675641615324119047349864737740868
     55240507865874145104269279356261241203108359438697706521569146390463007101113;
   Sum 0 0
     56974714303167795040247306442841921405781229483095356568165350290096291367207
     14364819222544473565762055090419236047063674192532106753331606091085631527348;
   Sum 0 0
     26524427810095417088240142362532544780893561784663031322930819762836600808515
     56800230697180803884263448849649727814983909237566568201530877956302371251077;
   Sum 0 1
     41343349195649585336750024115513189912119636300792193855403552332588531538005
     6970569522074677355797225608286212574968224433666483212675362123190915604164;
   Sum 0 2
     43303999223363211567000592292499033047715066838319306006949103991558179172051
     37613759246659568177725711996301472481422251168363103535270942430126793578793;
   Sum 0 3
     46888062318305738720190880589446747714686478000842806747839905679060912662973
     33860144375593654563112901403921774916870401489339587623690100605528537549356;
   Sum 0 4
     25511294346944384324403318113554861087185012780811606518348941985679908491621
     37239212373404559314005901639597326413932911049319569325972701007647704719612;
   Sum 0 5
     14127611587477441240432279106568319881501971353862010842969070851359362857266
     2592852998618686176138400684625649599688481579410609886203175347257630772851;
   Sum 0 6
     43746595122174832796233284029906714400483628918347893823159831099283311409495
     18177240113622175355125676847332745668673913310387498636116502973895144897924;
   Sum 0 0
     6497001079037033759927176048292148321870781142095929518689540521493541246217
     14786260231710971150307643607240044611942653552426614539186675523749979451288;
   Sum 0 0
     49940923821123370174108821110337183814332956597630920126701795082424978869014
     1288187096153537948013206580447571142245392464776386341476334758547167182341;
   Sum 0 0
     54490692972104313225112521328952756841580073316595352003798197049770710154718
     39881696666086045632349714814139868805232160908859920233022224914872456311095;
   Sum 0 0
     38272517170057130272091530636951670934607271655582413927020575209605271430222
     8793037359708808608330260360629190057005505365373638108141682503289668063207;
   Sum 0 0
     4103240039896120640278330014449580092125915127369451320151731811533603854036
     53269253945404043704543187762178112442032763739577339241804580801710360388192;
   Sum 0 0
     29642717159297527115171855277629106051748473108032031522904512460678842323323
     31641648709586752515795258874098238311530192694800533224252624123841717298088;
   Sum 0 1
     55585531195110966937672912784210347617522528622274275442526806382399075576643
     32454112502777117982160899174790361119637770504155471041560834777566479382191;
   Sum 0 2
     7284729452088614986690397063106132016397656630051186053402393279102873108529
     19156364515110961335022003893040207036372552399693514290181780988877441738511;
   Sum 0 3
     18581896540393564033104478716376360727246264074826200415034682825635401055056
     13848700540918589596023891855379719909883070790223480248343322166283922903931;
   Sum 0 4
     17192095806551371506493160388301771453257211047901657689615733344432402903506
     37775700714215501033591167365615527903158098710037605046283125629283639684606;
   Sum 0 5
     49538471188493768233350190902354818890498979660027154604674717245685019250486
     11181609262747441282383558029605968999190585859093685073780444480621340200090;
   Sum 0 6
     50258303066706808279435109082945357208326066586688776689397279414523280755824
     15612143207441718808201124458073557514160075012120707879231904460930509793564;
   Sum 0 0
     32572972280194580337805622456677434932391821576613079593928896211791830405308
     33648345545191315199584882081135871276847999448346197571384060182719595660973;
   Sum 0 0
     45762403979484684054884607693887566241864907975119351369285202088767759563747
     13303211078225313998254863359500119063484963895958189244349964806470642307984;
   Sum 0 0
     24087129871918067753178429655603282180619275933876729662443855082165634538935
     51677288022717186769821230726661611435048314125772016758070053980060446667157;
   Sum 0 0
     13327464563216593110868848336516547895998427736970032539116504496235329213344
     13002165434054709366370072927039876140742766581492724903242959287367054720924;
   Sum 0 0
     13239982717048084850335430748431698526093091312402428870152342026249053210186
     53834618132266607836659416556696328414368378071058265271701813944032914179638;
   Sum 0 0
     20004851406518390181043725259569754417370028643073931526826468125436557180557
     41316083886201689846242835438802817321461333021234526571066064722248556148220;
   Sum 0 1
     43546072142494114706177794029968550496141393351885640887231128295290653267455
     27113543483051518245895927068798718402903526142534364633665231020294719360388;
   Sum 0 2
     18132918399980974115133567025732990769812867920896012056297106788616829282886
     3896606584488675055734558773144566013754691813629250628418422005694497528885;
   Sum 0 3
     47709424929821148300098631540210299155133261754052701038652884456332700616394
     47035823585718627497620683152526721372843499543855368434842504514860659152989;
   Sum 0 4
     44190833278291002019969488393491792213941995800516543721822594665295125192061
     20527741881162734740160309907439157890106041933957044313842460237214728611205;
   Sum 0 5
     53656597482748374462890854267367944986014005735681113996011964608634564354907
     32823655505115374384845525484347161100248515497763816902941177295509046716312;
   Sum 0 6
     9610975218056178376070871574124472926987395411190106641820204795147086654478
     46304492338177016435536033832256581022055989644989988193293132883655216460749;
   Sum 0 0
     14205346668300216518357453094074746001574018749410050031685231497584253829712
     14660691966884841137188982590910919040640432903232146107053428025537462512622;
   Sum 0 0
     53748666478521387434150576839714530238511819109456608301447253092452168196821
     11504561212796247258574005213417952982170508941494732591451947622817999446438;
   Sum 0 0
     24263564677572143455883706567824029723754694867165770497280198081853122144463
     34175983757467695019349829127369162249541912054880764272767853442856127394925;
   Sum 0 0
     57076975554451469563500045374723221333846192241742146772724719150402571693472
     26221695278995788621207580405667090884296873747725171150323955992676720992269;
   Sum 0 0
     25130516195911385046571264315880301333866551451518688132107172184315183605018
     30619595528727713413188569891341020485388440736879200576247915319207429050489;
   Sum 0 0
     6095212041572056568265665453466305088233743471061052129133692466510319388328
     55318554493035167605698474061783845237391396745968058968052441205099452661962;
   Sum 0 1
     49208685934886633396606396976495204746499494227898531732905129644959556881521
     13405213418496860483251210059868608972079476775603164196112948539488116709717;
   Sum 0 2
     9080537013466686377872436612072548986797766742274135819864468901091569674734
     53049580858629001589799173226748676895082739434709506652820524320514394403404;
   Sum 0 3
     25731673463360859929741673753079755378539967710442308783036347159667819341500
     51114169318918635365603101403554771363728135048599382837165702759159643508137;
   Sum 0 4
     54618467650798124391809843958658227962173323053973875237439872327354552914348
     47328681630420696594730695289994070305757010515060283523028430779581464171728;
   Sum 0 5
     7786230166702873811746557110277305942600338024184090839293122921111219886912
     35221903346830068685535538921308061158295125487922136786163915083320615622435;
   Sum 0 6
     6892875628038546576489313427738416127992853573794709045902511418851362160566
     20188564917130430844690082364346191417179308367988922769767405601201440362286;
   Sum 0 0
     5982673615382297969818802592153273057076417995849451020308959190474724119725
     10287049908778039321866007974310068158273851354170185193539557225848407388566;
   Sum 0 0
     22678115829275355560973318697741260561781346166087006611516842111440922791735
     5635610797477351723550200565864746029662146477514587895458310531191715566060;
   Sum 0 0
     15106611389165079619525767410330930462047008085118637110789267802658171204196
     17838013824698519609399608312498026267991261045271531592615742325696055777138;
   Sum 0 0
     24853762944624917306151884739850791549246704214745042998520036572357345802760
     40283976519627631744708583691132919399015539464361309649267150320716503323869;
   Sum 0 0
     27685674525777860327744597698855087803255438779318157939981696522105649862633
     14809725606207770780693452470728858170499058836742578989048309437483270682473;
   Sum 0 0
     41938971630646924991315272887552189912221781189817275673672867057058434496492
     25411473786377373829720358055880569371017050723303807036597137089924782620969;
   Sum 0 1
     12799131585518474000247267070919919094134106312201917450236890326455347388054
     41479446169256302977369994350615716839143982674170278997131341054374306550662;
   Sum 0 2
     11239273853874985617065650382063476424454258925232725990509756596618874735023
     35130014802561251895268069606510431478804581117840502707509273252990513173578;
   Sum 0 3
     38403109544962950686918603247932727705219960233612341220784118790425631411197
     42198667970605958767016066042450265823993412770598657579155854250389301231533;
   Sum 0 4
     45720502270737548188762371717798024089153477537551039513254364391892989696687
     11680147632062504244190877519336784118925363627649111033315469628834999077163;
   Sum 0 5
     25896552398743394963912618956217445614862388913473598504777178387703905248811
     44600563565223612288717524834229864091693311345491419652949575099071738668102;
   Sum 0 6
     23165602662381560129340262454773911245800592846400001419430034089731554344247
     7200277344272729521507718595716209393156166131623275542964872960564441863108;
   Sum 0 0
     16104823180886646092127715010693025673183750063118037326224411535377225921506
     3565846128894086947378355213487636436366799530846091099922731528660753692627;
   Sum 0 0
     5923187037184470959083321807596503462819758627418589377764189140600962017244
     14653031540235728122072548807758559590761212665627263257099908813013506784150;
   Sum 0 0
     27746894582813304505041701126100777900366230412563603586161994663111870873870
     3709072682139971859861340526926544904701565033585212138441416184189373636342;
   Sum 0 0
     13471695896803395895949948754265033402369128528347202922677527174174496067903
     43654042478128941101331216108904852573225702658470941168039935432691450053835;
   Sum 0 0
     46279854352512301055368320754187591736759751452314595811424672422700122633654
     39574712266785575924348559327240625730668796207720057089289228736396816384114;
   Sum 0 0
     49099439926015361363857385741168068970574244613184109902388891383728785411686
     33347554490052335475498290389538186554595698391135481005877923264086758889816;
   Sum 0 1
     34040295900489847174327294154147194274972771946111894591854920907583667457183
     48874541591473176238926808208159796827489665937471993980603759008342206356022;
   Sum 0 2
     54320366946082714970106162685319995200545983803586732214065677106792443897144
     47860887471983931870665604949239734597783338240530119613493620975052578716273;
   Sum 0 3
     21353295181910259649223767472754870239804713355052054167449194952068350392577
     31434766239878467760469246056742866718524834452309221057419263210409606533197;
   Sum 0 4
     30696807015450292689156031258207263372711859845530481153927301574920045609659
     28194455848648887177956532499119033153055645991338282506582079403783172330082;
   Sum 0 5
     55246120643237762318963811034758674229634256372746540315723600741816160952536
     5856732661535279428570745950706088434145613832820069105417092085729690647833;
   Sum 0 6
     17816195526317888494307094350713065568534875478360657753943815872663940812327
     25919194682074272901160035175773241968278591016861814178682787929046171514397;
   Sum 0 0
     10542620896937520055112483212130237963301237895357468180766903362805377074992
     18749798026677266505291955916693090706385810751195123797992031185765866284629;
   Sum 0 0
     41991175460424088701966469969032464730323860227954774018840189057466402843299
     44283197019621705874709702538722159988079026247413233278165942513926306894468;
   Sum 0 0
     8496997839969785948713952459790996722086422358319018967175887851041972870827
     57345015363188753281860302545385818398860053493734171294135881874208516804775;
   Sum 0 0
     6657271508136019979627514642760013844300307884363451881255004621442718552000
     3371906224335213738590668071724965155869576779134898389022421848711934983957;
   Sum 0 0
     14887439693948159333496179808970583008857937448980746184550301295978638175384
     37640480169331229467165204530151053917971949080622142384908516610259167174724;
   Sum 0 0
     56439343823696647829809507342571611218299306824465060071680605672997340445798
     48486375043204106728798498808788907889703414759511045575221242880566473862384;
   Sum 0 1
     27753233072360630504125868831082936833391999684071356181175667527344379136318
     40513252844795328010488672766166445588652927249252548954678842753090961162579;
   Sum 0 2
     45111136425114129733098246833591328929485150473558429040521666624082322298146
     30858364992230970855404973975480332574496176507477441202557647177190124884076;
   Sum 0 3
     9915553981035802428658533688798793327199429746510085793971219231700572019455
     27727516996909439550387178967052094719595260444642900520889699990560278457592;
   Sum 0 4
     27890561548014684969981061697655428974665111034821592110715469580193131623594
     46904184776984092067220175066886527028688484987884493058513566672937415685329;
   Sum 0 5
     52735616846750942710597979398397280642395956395557563324456907425267334389858
     3207172627791443819869426152847011387105358736867716947645559028247153964749;
   Sum 0 6
     39034359051592921136364155647876378609128441672847718204115530279191045648271
     57440325197080447425733309947035820111008558249911717899132404214793025148512;
   Sum 0 0
     34310276738380718668012832960539089283535602585315141633702934926781017758314
     21355432880682304657712734244890427575516726416594123125896189339684815401614;
   Sum 0 0
     44807302128614685145707466430163744191639909011368190236725973301158717256299
     54184243692271013702441436986031669842884480602076063027825773767495991226621;
   Sum 0 0
     49624067175476703267546053886675712599466699606767064005508312803412108015585
     33220640176351377874237478019774986418766492850739754024515848254629282057564;
   Sum 0 0
     55217298896379403011122748674664806059025162319013798617757300837218479295882
     5387588605440950429537030575367696643734414713976093496629527643336317653947;
   Sum 0 0
     48712894972992448887923935667501362233261252312517012574857996878973198121105
     37473960524425155511625260694711619741058306904808456016409370408842580153965;
   Sum 0 0
     40774866771561597580731519971208921321747518047823829091600193563329736694843
     12087418943563086713085324794344360425825314395199357038789099172051393018652;
   Sum 0 1
     55196831053715807723797253298738529367365369099501129281941544733835900878913
     40517149316152347738950033497159821986165518930220790755372405614685504794847;
   Sum 0 2
     20584947457367798597539036267424459028729957886013680763545240177420567292712
     32465991946689943982153086376678180022848292664523840160252560200352191913580;
   Sum 0 3
     20932675085214786940397231389907646268420074123405930078359537715462122648042
     26501470714216815029892736797277175560387496118448715753974710253338921101287;
   Sum 0 4
     4904316058939803397544075654633052737624508586044793104250255955149429076601
     21341783839656460083546612098651654841528322423419354607872495749986266927937;
   Sum 0 5
     31130581230393832999276569798522910292668922547781956400784370716389830443814
     7791622533403860673957458486481525823052467588796789939271004743607866925743;
   Sum 0 6
     35189228129809078930807057329267425579216571050785089657259847224930330967127
     17464353014663327549655576163489041470158941644642453910048887834854775185691;
   Sum 0 0
     26754108413197204368812335965520684729933126323525613131922907153903399641191
     15012378265252935414773812974083008260586867669774506341486744295400843681492;
   Sum 0 0
     54308249072545854469498355815735358650455864036545719621702005671127373821766
     43997061566564890436073417841919580854337335447972409975855476552001531487828;
   Sum 0 0
     36044499768644992264340149056807068231595980370771524811201071154813759117156
     38561570880190429348116262332906489527232668239246065736549863639805797432640;
   Sum 0 0
     5847649592342454031010351413167793711549562920276802926398369178585636804419
     55669413104092268869663735807867296885959517306630689623182370353633322095611;
   Sum 0 0
     48005323397296950091773213912432029702920752187578106128295209808348933250081
     29223476490740599591976025576703347380427717296149262921590676231931032369597;
   Sum 0 0
     34875261092343445561721029495328601568851820617040190003630942910077605195809
     52832141431481466285161511568606733929640834466644192224047796459634085213721;
   Sum 0 1
     19488139758220694996380204868952484769633215185650728601909478797543312630984
     31204242400954801276895051135809182961209895612658717917638870588869221035679;
   Sum 0 2
     14960853468424135204347001720010229070567003965586153681233022419917935461937
     15190375856646289079461567590957182309335446125354427341228563277491141587241;
   Sum 0 3
     55519255068338159487320003982143611709648593516574562785169096672841638259711
     54538251618783961869518988326198751421497641881939703508748911983236472523392;
   Sum 0 4
     27019499410683514361751466345933475306761991585679568605995697921543713640789
     48472224677416277203157107349689256139327850215807955135394409439237948526499;
   Sum 0 5
     55502316803313034924646658259079754766579425526810566227370215458827769547624
     43783848198338802710517484316451741579064495836183238145148704523729748296787;
   Sum 0 6
     6677577362176980178993413601713162337129730384373187583722492088852308998020
     52853698530347062888303877004034052319321131255934864515100381240724193004896;
   Sum 0 0
     34004375609751843440608384933402316459410534235722515639391276800777372153932
     36752733437338553381077803617659029635858056274301360410756650584476225832463;
   Sum 0 0
     33097708304248982543396616540208707128033323202379973842514147046375910283850
     2317649114613900938196008464249187155486100891609319930127844298936425330890;
   Sum 0 0
     4824425626323585674266619703619586172299172317776083435320022550757003408250
     21901085067901660944000872735072672219379018835668813771624075049201197328077;
   Sum 0 0
     12594837630023130307116983840781629980245257109938908370124664243122241103918
     8122385951981944109060216365523983668761661795468946093075273731806339594477;
   Sum 0 0
     36853680517275945437340390977311361977074341486349150203069352914147239169806
     19159127097560899268565937344530193783744406119655023973084065112984371558411;
   Sum 0 0
     13375006811040919288912968647959325170012494718999645614396557572106213638732
     56002836045391387863852838991556127662989810039391522117676432814326375130022;
   Sum 0 1
     22657001339643294591605052397014231580266667973542625319539663369994296408058
     23859935274920206809205811199728852664256886206834068635106044824159733728147;
   Sum 0 2
     51788769546694378707520858279418531643646598704771497405942415654485927203786
     12781478449745932205603610835574783922928043904099837809698161663852357534127;
   Sum 0 3
     44169452238238222336667997118216490812179421313891868506236482607046261813774
     15287708209800108950005761983519785153483373825464746326236195509848634995589;
   Sum 0 4
     22354400238617632496647497133358650970199757036159493299245024109565462775576
     10338479749977434247633220720778204084306135045212366447024047194990856327569;
   Sum 0 5
     42080926860094845808399548771156785573290685457391903574183168235157192442267
     49014578257488708809290191321381391610283785834027454551465171365911862461072;
   Sum 0 6
     27930114668971309115039262489933912858736314507565033837707136271390496188370
     41849249745910298098446982931889622851798659470338795343711105261262676122608;
   Sum 0 0
     22740125091134767283891741920443248853585699246182930906721504290282018466057
     55006663910262613679328170358186564731276253035717358082626508803351211284032;
   Sum 0 0
     10413515760343527120809851501257241121060503480421874922738770395338081555527
     18288076126958144084963662886401146536859978618659122950015590469299497095256;
   Sum 0 0
     23678754504338740346916164971643006323376143463347977289614872436626702834562
     242868897611556877620044586268794598885379362471826148086866558275925401725;
   Sum 0 0
     32826200805069097149578550650375838665241371897983489069239603553892322553218
     53828654458721628698509984901498836783095529747898590290511610430648084416106;
   Sum 0 0
     21883948934264762194249998992061783956621897689053217379486236467560395517009
     36030669745793781302613384848794543751736960884845400913252887840257407952975;
   Sum 0 0
     23133565255724111550858627201987981376935843266366311921061433522624379620438
     16964546835462509523263242991145350096929174380825161136469011456637911955173;
   Sum 0 1
     31837157477791086381802641236601079904252663259788023704913187402728099031857
     7720816802004693503985432158431308328287056484671636157589811598021967091760;
   Sum 0 2
     7497752198397536175581357144633006700129461592712779103717091877814540898856
     9006899566587815496825208003749486426274496662623733082786332941498237959122;
   Sum 0 3
     27064906959720545316441096924049282160305222807394676651522867046821706630014
     9731210909448438037147285296702382271829366792497091518666894387130801978065;
   Sum 0 4
     27172573093045165780515252223355391670426457223484833154679498409285799887846
     13262686467299627977554234187602356431093115456876314218715371745532292401978;
   Sum 0 5
     25978449972436628582106948312501551395856843742924370914909468344044814037638
     36372335596016870762938043775071861150800312258604776869563218312774515814124;
   Sum 0 6
     3501012616889599495601867551329965960715571573169972081817937330512825958862
     19522327613724135269221646495411295860959820111167733710329298168745391204906;
   Sum 372 379
     48386120605076020834460976059677028163441605847019690277727937614061647880888
     57207467887141152290526027172371587048575456884089951704660537588782052270995;
   Sum 0 379
     18902291587013574706750320755523061863174038182386666101721203917654790367126
     41218805436572139616231407081710623485770187044112482571629168491933611748902;
   Sum 0 380
     14884470133027561581559799572664950971681509187457254391863518214675608158170
     17059571729029968823154073072572865759206960343731303837925418050132132249344;
   Sum 0 381
     13647760552520370807211354336103726272027937752098393191493553680380508445589
     17004069561411315441794319878110244644356168418784573529604614448969317923262;
   Neg 383;
   Neg 370;
   Sum 1 0
     21258526074577800645483775740926283755336641153823830837559841360402884012349
     26281342920006762184652756760119273421164709123741820374573430031080432258287;
   Neg 362;
   Sum 1 0
     48410911735696001829118530487474287474869499762100539430174726365283856883976
     55994356014160221654945983192766046472333409079153735462753362669734240052839;
   Sum 0 347
     33814660148941676480016405783446163260298062815638523986937702547135275732710
     22946120676354948508728292269597441960568962180668940572360970307163766570173;
   Sum 0 340
     23455695478438674865008034365882105272112647765014693943699824988016985811968
     3195075282617104825759185672363212441493193060889438985810852805898841279367;
   Sum 0 325
     57840375149837094733189074816814318937124495986324491728995128309235441685307
     35624763696523242667531375350221060848161113123029344017060876799654473418373;
   Sum 0 319
     51830596204452824621287609174810923678082217201010820195742905768097507556220
     39259710346799917882065590278348528494842302260185496869466949580731863115028;
   Sum 0 304
     14511649251974328362646476172074528802695963838051338149495014250279692241128
     674622286567928784798982257928158775529142803035782839885789849936320263871;
   Neg 295;
   Sum 1 0
     52120027701770702833785172811061206835028003050917279933027355606671772197577
     44530321286981361941002450924106050789335189769682457598970930428054662032243;
   Neg 282;
   Sum 1 0
     29580400537273659146219589664003014521142816072330474361218720077345236711163
     36888845452746914125508957438083472955333503065198286853573049796924930983289;
   Neg 277;
   Sum 1 0
     7175012770814000830975078823874934058416852029575436536714884975550949673247
     6582035066662191501354417717449940600138748027295436167512322992884672652937;
   Neg 262;
   Sum 1 0
     21545880076412160040605188444784381240474414034845319515185181324339909919895
     17324334781325897163225034524894800646369079842036737745203201675380177405062;
   Neg 256;
   Sum 1 0
     45346918414505993537913274501749868488183514876688454519717124378573424359075
     26501821176602952801063411394721960614424784018344969984319330299698775114820;
   Neg 234;
   Sum 1 0
     39177158948410624929728524791409300437294460136402655818894597880511026333046
     31898890563198930315772703067454740327008943668073342311487941965633738450132;
   Sum 0 225
     48570589723010949207297889335929612296332253217742280142788525315085989853852
     47228170542170406701090123175906620317766756370950458207513168122865082332406;
   Sum 0 34
     24486596517924172292698239546045160553830296931252841290754679827717387611690
     56705791087141379148731960991681556103530586284479681771878148570434690789379;
   Sum 0 0
     44696947103039596563854254511381859445448568870781987907378103491900840381639
     76064198440040348766240225890900514325284220158672584348669627535171067299;
   Sum 0 0
     48118832039443993449650470725187026800257441919245831258801095941138614394097
     20616478766976659250637516147514898622726846312663282533685239938415221553896;
   Sum 0 0
     31862398498771039293739776124313676070992253077386026042364865793699494006943
     37476203718687508376746548386523656966969305406010749376572516538242988418178;
   Sum 0 0
     27844133129888671972153574902752384605670993988907345349102684061312831867828
     10586657235590988724630744488526972069432277007175336322418512265830605999259;
   Neg 409;
   Sum 0 397
     15390845922888973680458088333248061913582135097442723450308933838622614676867
     1555260589526682943975235437523656932266123982205943081347318021444015733139;
   Sum 0 384
     15501281184443999516767206747746267721071267755310647980985070867109048605740
     13915694613801661778147819388496057643323888125749652007202166146385830893905;
   Neg 376;
   Sum 1 0
     7571342776085665787940086665119230610614744977833761596162753303964466912631
     49188833177766325446691095057981151253810104081387435619930238119820476649170;
   Neg 363;
   Sum 1 0
     39640535267143717861935023349099708062242218332390685410289408088233966864113
     17832398399685423760368579553118486168752654807558027231679400231224982825756;
   Sum 0 356
     13664742565679018092494857423243047067994247999941272656065071716805365973959
     1602428761426533614942281891153530306524903205053829938651574730926436854422;
   Sum 0 346
     55891436662389408758920276464849338563546186059328775749066249067178447022803
     26830950816038282201613985198978543910495282507194692576200343224716476852849;
   Sum 0 329
     16482769781314211814678651016340418387298742380886525420151955571321830508201
     17156915388112527733036114603308586571569024754957893205630973429558066024285;
   Sum 0 320
     1428783379441911477497121631493990647738871076293714089935776633172285854971
     25435109618612990816622578364569596981770183171586828825354091142114823846951;
   Neg 312;
   Sum 1 0
     7900076178128328554861243173579741977025867226031348982204654931086461625660
     26817942052161832894586373244439106898309816888616267854288643787580359700458;
   Sum 0 297
     44428561919427326467526894466376275201311797041571680565341357307449939130356
     26867484891807427134508147455376996640237796743395775978699732427382942031331;
   Sum 0 291
     12475544971560866586941773032255614485384657757904018269252638764456908607835
     22092935060801130238616123077792354209068371880524902660318456882834121455266;
   Neg 282;
   Sum 1 0
     53348546212976234892326458997631049857348433000731558915580885863595513032440
     26725290311980326216283516845540955161458976126871518171955050468183546601369;
   Neg 267;
   Sum 1 0
     33391065587205238172403350821399933230410100531321727604848412978848806369838
     56472720044042887371899247115747667519190537917000659150909736146140568805645;
   Neg 262;
   Sum 1 0
     34524977655457417857493206652780727339707703804613009230033398624146291255320
     33675037779576931408968782784111846167939684312156663801251695071610718409266;
   Sum 0 248
     30051911488769425739631917601591569320963998343912936670626107942643732952121
     10586657235590988724630744488526972069432277007175336322418512265830605999259;
   Sum 22 0
     0
     2].

Definition start : list mult := [make 1 (2 * B.1) (2 * B.2)].

Definition tables_ok (env : list mult) : bool :=
  rows_ok env 1 ge_base && row_ok env 2 1 ge_Bi && neutral_ok env Scalar.ell.

Lemma chain_checked : from_option tables_ok false (run_chain start chain) = true.
Proof. vm_compute. reflexivity. Qed.

Lemma checked_env (o : option (list mult)) :
  from_option tables_ok false o = true -> exists env, o = Some env /\ tables_ok env = true.
Proof. destruct o as [env|]; [|done]. by exists env. Qed.

Lemma start_good : Forall good start.
Proof.
  constructor; [|done]. destruct (zmul_1 B B_curve) as [E1 E2].
  apply make_good; [by rewrite E1|by rewrite E2].
Qed.

Lemma chain_env :
  exists env, Forall good env /\ rows_ok env 1 ge_base = true /\ row_ok env 2 1 ge_Bi = true
    /\ neutral_ok env Scalar.ell = true.
Proof.
  destruct (checked_env _ chain_checked) as (env & R & C).
  unfold tables_ok in C. rewrite !andb_true_iff in C. destruct C as ((C1 & C2) & C3).
  exists env. split_and!; [|done..]. by apply (run_chain_good chain start env start_good).
Qed.

Lemma ge_base_entries i row :
  ge_base !! i = Some row -> length row = 8%nat /\
  forall j t, row !! j = Some t -> rep_precomp (zmul ((1 + Z.of_nat j) * 256 ^ Z.of_nat i) B) t.
Proof.
  intros Hi. destruct chain_env as (env & G & C & _).
  destruct (rows_good env 1 ge_base G C i row Hi) as [L H]. split; [done|].
  intros j t Hj. rewrite <- (Z.mul_1_l (256 ^ Z.of_nat i)). by apply H.
Qed.

Lemma ge_Bi_entries i t : ge_Bi !! i = Some t -> rep_precomp (zmul (2 * Z.of_nat i + 1) B) t.
Proof.
  intros Hi. destruct chain_env as (env & G & _ & C & _).
  replace (2 * Z.of_nat i + 1) with (1 + Z.of_nat i * 2) by lia. by apply (row_good env 2 1 ge_Bi).
Qed.

(** l B is the neutral element. *)
Lemma B_order : pt_eq (zmul Scalar.ell B) pt_zero.
Proof. destruct chain_env as (env & G & _ & _ & C). by apply (neutral_good env). Qed.

End BaseTable.
