(* ===== verification/Order.v ===== *)
(** * The order of the group

    The base point has the prime order l, and the whole curve has 8 l points:
    l 8 P is the neutral element for every point P.  The subgroup generated by
    the base point and a point of order 8 has 8 l elements; if a point lay
    outside it there would be at least 16 l points, but a point is determined
    by its y and the parity of its x, of which there are fewer than 16 l.  The
    ring signatures of src/crypto/crypto.cpp rely on this: they multiply hashed
    points, cleared of their cofactor by ge_mul8, by scalars reduced modulo l. *)

From S2P Require Import Prelude Limbs Primality Scalar Fe Ge Curve Points HashPoint BaseData ScalarMult BaseTable.
Import Limbs Primality Fe Ge Curve Points BaseTable.

Module Order.

(** ** Orders of points *)

#[global] Instance pt_eq_dec P Q : Decision (pt_eq P Q).
Proof. unfold pt_eq. apply _. Defined.

Lemma zmul_zero k : pt_eq (zmul k pt_zero) pt_zero.
Proof.
  pattern k. apply Z.peano_ind; clear k; [done|..]; intros k IH.
  - replace (Z.succ k) with (1 + k) by lia. rewrite zmul_succ, IH by apply pt_zero_curve.
    apply pt_add_O, pt_zero_curve.
  - replace (Z.pred k) with (k - 1) by lia. rewrite zmul_pred, IH, pt_neg_O by apply pt_zero_curve.
    apply pt_add_O, pt_zero_curve.
Qed.

(** Multiples of an annihilator annihilate. *)
Lemma zmul_multiple a k P : on_curve P -> pt_eq (zmul a P) pt_zero -> pt_eq (zmul (k * a) P) pt_zero.
Proof. intros HP E. rewrite zmul_mul, E by done. apply zmul_zero. Qed.

Lemma zmul_gcd a b P :
  on_curve P -> pt_eq (zmul a P) pt_zero -> pt_eq (zmul b P) pt_zero -> pt_eq (zmul (Z.gcd a b) P) pt_zero.
Proof.
  intros HP Ea Eb. destruct (Z.gcd_bezout a b (Z.gcd a b) eq_refl) as (u & v & <-).
  rewrite zmul_add, (zmul_multiple a), (zmul_multiple b) by done. apply pt_add_O, pt_zero_curve.
Qed.

Lemma zmul_sub j k P : on_curve P -> pt_eq (zmul (j - k) P) (pt_add (zmul j P) (pt_neg (zmul k P))).
Proof. intros HP. replace (j - k) with (j + - k) by lia. by rewrite zmul_add, zmul_opp. Qed.

Lemma zmul_eqm n j k P :
  on_curve P -> pt_eq (zmul n P) pt_zero -> eqm n j k -> pt_eq (zmul j P) (zmul k P).
Proof.
  intros HP E [c Hc]%eqm_divide. replace j with (c * n + k) by lia.
  rewrite zmul_add, zmul_multiple by done. apply pt_add_O, zmul_curve, HP.
Qed.

Lemma zmul_distr k P Q :
  on_curve P -> on_curve Q -> pt_eq (zmul k (pt_add P Q)) (pt_add (zmul k P) (zmul k Q)).
Proof.
  intros HP HQ. assert (on_curve (pt_add P Q)) as HS by auto with curve.
  pattern k. apply Z.peano_ind; clear k.
  - rewrite !zmul_0. symmetry. apply pt_add_O, pt_zero_curve.
  - intros k IH. replace (Z.succ k) with (1 + k) by lia.
    rewrite !zmul_succ, IH by auto with curve. apply pt_add_swap; auto with curve.
  - intros k IH. replace (Z.pred k) with (k - 1) by lia.
    rewrite !zmul_pred, IH, pt_neg_add by auto with curve. apply pt_add_swap; auto with curve.
Qed.

Lemma pt_add_cancel P Q R :
  on_curve P -> on_curve Q -> on_curve R -> pt_eq (pt_add P Q) (pt_add P R) -> pt_eq Q R.
Proof.
  intros HP HQ HR E. rewrite <- (pt_add_neg_l (pt_neg P) Q), <- (pt_add_neg_l (pt_neg P) R) by auto with curve.
  by rewrite pt_neg_neg, E.
Qed.

(** *** The base point *)

Abbreviation ell := Scalar.ell.

Lemma ell_prime : Z.prime ell.
Proof. exact prime_order. Qed.

Lemma B_nonzero : ~ pt_eq B pt_zero.
Proof. by_eval. Qed.

Lemma B_order_divides k : pt_eq (zmul k B) pt_zero -> (ell | k).
Proof.
  intros E. destruct (decide (k mod ell = 0)) as [D|D]; rewrite Z.mod_divide in D by done; [done|].
  pose proof (zmul_gcd _ _ B B_curve B_order E) as G.
  rewrite (Z.coprime_prime_l _ _ ell_prime D) in G. rewrite zmul_1 in G by exact B_curve.
  by destruct B_nonzero.
Qed.

Lemma zmul_B_mod j k : eqm ell j k -> pt_eq (zmul j B) (zmul k B).
Proof. apply zmul_eqm; [exact B_curve|exact B_order]. Qed.

(** *** A point of order 8 *)

Definition T8 : point :=
  (14399317868200118260347934320527232580618823971194345261214217575416788799818,
   55188659117513257062467267217118295137698188065244968500265048394206261417927).

Definition T4 : point :=
  (38214883241950591754978413199355411911188925816896391856984770930832735035197, 0).

Lemma T8_curve : on_curve T8.
Proof. by_eval. Qed.
#[global] Hint Resolve T8_curve : curve.

Lemma T4_curve : on_curve T4.
Proof. by_eval. Qed.

(** A sum of points of the curve, checked on its two equations. *)
Lemma sum_by_eval P Q R :
  on_curve P -> on_curve Q ->
  eqm p (R.1 * (1 + cross P Q)) (P.1 * Q.2 + Q.1 * P.2) ->
  eqm p (R.2 * (1 - cross P Q)) (P.2 * Q.2 + P.1 * Q.1) -> pt_eq (pt_add P Q) R.
Proof.
  intros HP HQ Ex Ey. symmetry. apply is_sum_pt_add; [done..|].
  destruct (denominators P Q HP HQ). by unfold is_sum.
Qed.

Lemma zmul_2 P : on_curve P -> pt_eq (zmul 2 P) (pt_add P P).
Proof. intros HP. change 2 with (1 + 1). rewrite zmul_succ by done. by rewrite zmul_1. Qed.

Lemma zmul_4_T8 : pt_eq (zmul 4 T8) (0, -1).
Proof.
  change 4 with (2 * 2). rewrite zmul_mul, (zmul_2 T8) by apply T8_curve.
  rewrite (sum_by_eval T8 T8 T4); [|apply T8_curve|apply T8_curve|by_eval|by_eval].
  rewrite (zmul_2 T4) by apply T4_curve.
  apply sum_by_eval; [apply T4_curve|apply T4_curve|by_eval|by_eval].
Qed.

Lemma T8_order : pt_eq (zmul 8 T8) pt_zero.
Proof.
  change 8 with (2 * 4). rewrite zmul_mul, zmul_4_T8 by apply T8_curve.
  rewrite zmul_2 by by_eval. apply sum_by_eval; by_eval.
Qed.

Lemma T8_order_divides k : pt_eq (zmul k T8) pt_zero -> (8 | k).
Proof.
  intros E. pose proof (zmul_gcd _ _ T8 T8_curve T8_order E) as G.
  assert (Z.gcd 8 k = 8 \/ (Z.gcd 8 k | 4)) as [<-|[c Hc]].
  { pose proof (Z.gcd_divide_l 8 k) as D. pose proof (Z.gcd_nonneg 8 k) as N.
    apply Z.divide_pos_le in D as L; [|lia]. set (g := Z.gcd 8 k) in *. clearbody g.
    assert (g = 0 \/ g = 1 \/ g = 2 \/ g = 3 \/ g = 4 \/ g = 5 \/ g = 6 \/ g = 7 \/ g = 8) as C by lia.
    destruct C as [->|[->|[->|[->|[->|[->|[->|[->| ->]]]]]]]]; first
      [by left|right; (exists 4 + exists 2 + exists 1); lia|exfalso; destruct D; lia]. }
  - apply Z.gcd_divide_r.
  - exfalso. apply (zmul_multiple _ c _ T8_curve) in G. rewrite <- Hc, zmul_4_T8 in G. revert G. by_eval.
Qed.


(** ** Counting *)

Lemma pigeonhole n m (f : Z -> Z) :
  0 <= n -> 0 <= m ->
  (forall i, 0 <= i < n -> 0 <= f i < m) ->
  (forall i j, 0 <= i < n -> 0 <= j < n -> f i = f j -> i = j) -> n <= m.
Proof.
  intros Hn Hm R I.
  assert (f <$> seqZ 0 n ⊆+ seqZ 0 m) as S.
  { apply NoDup_submseteq.
    - apply NoDup_alt. intros i j y Hi Hj.
      apply list_lookup_fmap_Some in Hi as (x & -> & Hx). apply list_lookup_fmap_Some in Hj as (x' & E & Hx').
      apply lookup_seqZ in Hx as [-> ?], Hx' as [-> ?]. apply I in E; lia.
    - intros y (x & -> & Hx)%list_elem_of_fmap. apply elem_of_seqZ in Hx. apply elem_of_seqZ.
      specialize (R x ltac:(lia)). lia. }
  apply submseteq_length in S. rewrite length_fmap, !length_seqZ in S. lia.
Qed.

(** A point of the curve is its y and the parity of its x. *)
Definition code (P : point) : Z := P.2 mod p + p * ((P.1 mod p) mod 2).

Lemma code_range P : 0 <= code P < 2 * p.
Proof.
  unfold code. pose proof (residue_range P.2). destruct (mod_2_cases (P.1 mod p)) as [-> | ->]; lia.
Qed.

Lemma code_inj P Q : on_curve P -> on_curve Q -> code P = code Q -> pt_eq P Q.
Proof.
  intros HP HQ E. unfold code in E.
  pose proof (residue_range P.2). pose proof (residue_range Q.2).
  assert (P.2 mod p = Q.2 mod p /\ (P.1 mod p) mod 2 = (Q.1 mod p) mod 2) as [Ey Ex].
  { destruct (mod_2_cases (P.1 mod p)) as [E1|E1], (mod_2_cases (Q.1 mod p)) as [E2|E2];
      rewrite E1, E2 in *; lia. }
  by apply same_point.
Qed.

(** ** The subgroup of the base point and the point of order 8 *)

Definition sub (u v : Z) : point := pt_add (zmul u B) (zmul v T8).

Lemma sub_curve u v : on_curve (sub u v).
Proof. unfold sub. auto with curve. Qed.
#[global] Hint Resolve sub_curve : curve.

Lemma sub_diff u v u' v' : pt_eq (pt_add (sub u v) (pt_neg (sub u' v'))) (sub (u - u') (v - v')).
Proof.
  unfold sub. rewrite pt_neg_add, pt_add_swap, !zmul_sub by auto with curve. done.
Qed.

Lemma sub_8ell u v : pt_eq (zmul (8 * ell) (sub u v)) pt_zero.
Proof.
  unfold sub. rewrite zmul_distr by auto with curve.
  rewrite <- !zmul_mul by auto with curve.
  rewrite (zmul_eqm ell (8 * ell * u) 0), (zmul_eqm 8 (8 * ell * v) 0);
    [|auto with curve|exact T8_order| |auto with curve|exact B_order|].
  - rewrite !zmul_0. apply pt_add_O, pt_zero_curve.
  - apply eqm_divide. exists (ell * v). ring.
  - apply eqm_divide. exists (8 * u). ring.
Qed.

Lemma sub_zero u v : pt_eq (sub u v) pt_zero -> (ell | u) /\ (8 | v).
Proof.
  intros E. assert (ell | 8 * u) as D.
  { apply B_order_divides. assert (pt_eq (zmul 8 (sub u v)) pt_zero) as E8.
    { rewrite E. apply zmul_zero. }
    unfold sub in E8. rewrite zmul_distr, <- !zmul_mul in E8 by auto with curve.
    rewrite (zmul_eqm 8 (8 * v) 0 T8) in E8; [|auto with curve|exact T8_order|].
    - rewrite zmul_0, pt_add_comm, pt_add_O in E8 by auto with curve. done.
    - apply eqm_divide. exists v. ring. }
  apply (Z.divide_prime_mul _ _ _ ell_prime) in D as [D|D].
  { exfalso. apply Z.divide_pos_le in D; [|done]. revert D. by_eval. }
  split; [done|]. apply T8_order_divides. unfold sub in E.
  rewrite (zmul_eqm ell u 0 B) in E; [|auto with curve|exact B_order|].
  - by rewrite zmul_0, pt_add_O in E by auto with curve.
  - apply eqm_divide. by rewrite Z.sub_0_r.
Qed.

Lemma sub_inj u v u' v' :
  0 <= u < ell -> 0 <= u' < ell -> 0 <= v < 8 -> 0 <= v' < 8 ->
  pt_eq (sub u v) (sub u' v') -> u = u' /\ v = v'.
Proof.
  intros Hu Hu' Hv Hv' E. assert (pt_eq (sub (u - u') (v - v')) pt_zero) as Z0.
  { rewrite <- sub_diff, E. apply pt_add_neg. auto with curve. }
  apply sub_zero in Z0 as [[a Ha] [b Hb]]. split; [|lia].
  clear - Hu Hu' Ha. generalize dependent ell. intros n Hu Hu' Ha.
  assert (a = 0) as -> by nia. lia.
Qed.

(** ** All points *)

Section outside.

Context (P : point) (HP : on_curve P) (Out : ~ pt_eq (zmul (8 * ell) P) pt_zero).

(** The subgroup, and its translate by P. *)
Let element (i : Z) : point := pt_add (zmul (i mod 2) P) (sub (i / 16) ((i / 2) mod 8)).

Lemma outside u v : ~ pt_eq P (sub u v).
Proof using Out. intros E. apply Out. rewrite E. apply sub_8ell. Qed.

Lemma element_curve i : on_curve (element i).
Proof using HP. unfold element. auto with curve. Qed.

Lemma element_inj i j :
  0 <= i < 16 * ell -> 0 <= j < 16 * ell -> pt_eq (element i) (element j) -> i = j.
Proof using HP Out.
  intros Hi Hj E. unfold element in E.
  assert (forall k, 0 <= k < 16 * ell -> 0 <= k / 16 < ell /\ 0 <= (k / 2) mod 8 < 8) as R by (intros; dlia).
  assert (i mod 2 = j mod 2) as Em.
  { destruct (mod_2_cases i) as [Ei|Ei], (mod_2_cases j) as [Ej|Ej]; rewrite Ei, Ej in *;
      [reflexivity|exfalso|exfalso|reflexivity].
    - rewrite zmul_0, zmul_1, pt_add_O in E by auto with curve.
      apply (outside (i / 16 - j / 16) ((i / 2) mod 8 - (j / 2) mod 8)).
      rewrite <- sub_diff, E, pt_add_assoc, pt_add_neg by auto with curve.
      rewrite pt_add_comm, pt_add_O by auto with curve. done.
    - rewrite zmul_0, zmul_1, pt_add_O in E by auto with curve.
      apply (outside (j / 16 - i / 16) ((j / 2) mod 8 - (i / 2) mod 8)).
      rewrite <- sub_diff, <- E, pt_add_assoc, pt_add_neg by auto with curve.
      rewrite pt_add_comm, pt_add_O by auto with curve. done. }
  rewrite Em in E. apply pt_add_cancel in E; [|auto with curve..].
  apply sub_inj in E as [E1 E2]; [|by apply R..]. dlia.
Qed.

Lemma too_many : 16 * ell <= 2 * p.
Proof using HP Out.
  apply (pigeonhole _ _ (fun i => code (element i))); [done|done|..].
  - intros. apply code_range.
  - intros i j Hi Hj E. apply element_inj; [done|done|]. apply code_inj; [apply element_curve..|done].
Qed.

End outside.

(** 8 l annihilates every point of the curve. *)
Lemma curve_order P : on_curve P -> pt_eq (zmul (8 * ell) P) pt_zero.
Proof.
  intros HP. destruct (decide (pt_eq (zmul (8 * ell) P) pt_zero)) as [|N]; [done|].
  exfalso. pose proof (too_many P HP N) as L. revert L. by_eval.
Qed.

(** So l annihilates the points cleared of their cofactor. *)
Lemma cleared_order P : on_curve P -> pt_eq (zmul ell (zmul 8 P)) pt_zero.
Proof. intros HP. rewrite <- zmul_mul, Z.mul_comm by done. by apply curve_order. Qed.

End Order.
