(* ===== verification/Multiples.v ===== *)
(** * Scalar multiplication on the curve

    The functions of ScalarMult with the tables of the base point: on every
    point of the curve they compute the multiples of the group of Curve. *)

From S2P Require Import Prelude Limbs Primality Scalar Fe Ge Curve Points HashPoint BaseData Recode ScalarMult BaseTable.
Import Limbs Fe Ge Curve Points BaseData Recode ScalarMult BaseTable.

Module Multiples.

(** The combinations m A + n C of two points of the curve. *)
Definition combination (A C : point) (m n : Z) : point := pt_add (zmul m A) (zmul n C).

Lemma combination_family A C : on_curve A -> on_curve C -> family (combination A C).
Proof.
  intros HA HC. unfold combination. split.
  - rewrite !zmul_0. by apply pt_add_O, pt_zero_curve.
  - intros m n. auto with curve.
  - intros m n. by rewrite pt_neg_add, !zmul_opp.
  - intros m n m' n'. apply is_sum_pt_add; [auto with curve..|].
    rewrite !zmul_add by done. apply pt_add_swap; auto with curve.
Qed.

Lemma combination_l A C m : on_curve A -> on_curve C -> pt_eq (combination A C m 0) (zmul m A).
Proof.
  intros HA HC. unfold combination. rewrite zmul_0, pt_add_comm. apply pt_add_O. auto with curve.
Qed.

Lemma combination_r A C n : on_curve A -> on_curve C -> pt_eq (combination A C 0 n) (zmul n C).
Proof. intros HA HC. unfold combination. rewrite zmul_0. apply pt_add_O. auto with curve. Qed.

Lemma combination_10 A C h : on_curve A -> on_curve C -> rep_p3 A h -> rep_p3 (combination A C 1 0) h.
Proof.
  intros HA HC R. eapply rep_p3_eq; [exact R|]. symmetry. rewrite combination_l by done. by apply zmul_1.
Qed.

Lemma base_combination A : on_curve A -> base_table (combination A B) ge_base.
Proof.
  intros HA. split; [done|]. intros i row Hi. destruct (ge_base_entries i row Hi) as [L H].
  split; [done|]. intros j u Hj. eapply rep_precomp_eq; [by apply (H j u)|].
  symmetry. apply combination_r; [done|exact B_curve].
Qed.

Lemma odd_combination A : on_curve A -> odd_precomp (combination A B) 0 1 ge_Bi.
Proof.
  intros HA. split; [done|]. intros i u Hi. rewrite Z.mul_0_l, Z.mul_1_l.
  eapply rep_precomp_eq; [by apply (ge_Bi_entries i u)|].
  symmetry. apply combination_r; [done|exact B_curve].
Qed.


Lemma combination_01 A C h : on_curve A -> on_curve C -> rep_p3 C h -> rep_p3 (combination A C 0 1) h.
Proof.
  intros HA HC R. eapply rep_p3_eq; [exact R|]. symmetry. rewrite combination_r by done. by apply zmul_1.
Qed.

(** ** One scalar *)

Section single.

Context (a : bytes) (A : point) (h : ge_p3) (Ha : small_scalar a) (HA : on_curve A) (Rh : rep_p3 A h).

Lemma multiply_p2 : exists r, ge_scalarmult a h = Some r /\ rep_p2 (zmul (num a) A) r.
Proof using Ha HA Rh.
  pose proof (combination_family A B HA B_curve) as F.
  destruct (ge_scalarmult_ok _ F a h Ha (combination_10 A B h HA B_curve Rh)) as (r & E & R).
  exists r. split; [done|]. eapply rep_p2_eq; [exact R|]. apply combination_l; [done|exact B_curve].
Qed.

Lemma multiply_p3 : exists r, ge_scalarmult_p3 a h = Some r /\ rep_p3 (zmul (num a) A) r.
Proof using Ha HA Rh.
  pose proof (combination_family A B HA B_curve) as F.
  destruct (ge_scalarmult_p3_ok _ F a h Ha (combination_10 A B h HA B_curve Rh)) as (r & E & R).
  exists r. split; [done|]. eapply rep_p3_eq; [exact R|]. apply combination_l; [done|exact B_curve].
Qed.

End single.

Lemma multiply_base a :
  small_scalar a -> exists r, ge_scalarmult_base ge_base a = Some r /\ rep_p3 (zmul (num a) B) r.
Proof.
  intros Ha. pose proof (combination_family B B B_curve B_curve) as F.
  destruct (ge_scalarmult_base_ok _ F ge_base a (base_combination B B_curve) Ha) as (r & E & R).
  exists r. split; [done|]. eapply rep_p3_eq; [exact R|]. apply combination_r; exact B_curve.
Qed.

(** ** Two scalars *)

Section double.

Context (a b : bytes) (A : point) (h : ge_p3) (Ha : slide_scalar a) (Hb : slide_scalar b)
  (HA : on_curve A) (Rh : rep_p3 A h).

Lemma multiply_double_base :
  exists r, ge_double_scalarmult_base_vartime ge_Bi a h b = Some r
    /\ rep_p2 (pt_add (zmul (num a) A) (zmul (num b) B)) r.
Proof using Ha Hb HA Rh.
  pose proof (combination_family A B HA B_curve) as F.
  exact (proj1 (double_family _ F a b h ge_Bi h Ha Hb (combination_10 A B h HA B_curve Rh)
    (odd_combination A HA))).
Qed.

Lemma multiply_double_base_p3 r3 :
  exists r, ge_double_scalarmult_base_vartime_p3 ge_Bi r3 a h b = Some r
    /\ if decide (num a = 0 /\ num b = 0) then r = r3
       else rep_p3 (pt_add (zmul (num a) A) (zmul (num b) B)) r.
Proof using Ha Hb HA Rh.
  pose proof (combination_family A B HA B_curve) as F.
  exact (proj1 (proj2 (double_family _ F a b h ge_Bi r3 Ha Hb (combination_10 A B h HA B_curve Rh)
    (odd_combination A HA)))).
Qed.

Lemma multiply_double_precomp C hC r3 :
  on_curve C -> rep_p3 C hC ->
  exists Ai Ci, ge_dsm_precomp h = Some Ai /\ ge_dsm_precomp hC = Some Ci
  /\ (exists r, ge_double_scalarmult_precomp_vartime a h b Ci = Some r
       /\ ge_double_scalarmult_precomp_vartime2 a Ai b Ci = Some r
       /\ rep_p2 (pt_add (zmul (num a) A) (zmul (num b) C)) r)
  /\ (exists r, ge_double_scalarmult_precomp_vartime2_p3 r3 a Ai b Ci = Some r
       /\ if decide (num a = 0 /\ num b = 0) then r = r3
          else rep_p3 (pt_add (zmul (num a) A) (zmul (num b) C)) r).
Proof using Ha Hb HA Rh.
  intros HC RC. pose proof (combination_family A C HA HC) as F.
  destruct (ge_dsm_precomp_ok _ F 0 1 hC (combination_01 A C hC HA HC RC)) as (Ci & EC & TC).
  pose proof (combination_10 A C h HA HC Rh) as RA.
  destruct (ge_dsm_precomp_ok _ F 1 0 h RA) as (Ai & EA & TA).
  assert (adds (combination A C) 1 0 (add_cached Ai)) as H1 by (intros m n t d; by apply add_cached_ok).
  assert (adds (combination A C) 0 1 (add_cached Ci)) as H3 by (intros m n t d; by apply add_cached_ok).
  exists Ai, Ci. split_and!; [done|done|..].
  - unfold ge_double_scalarmult_precomp_vartime. rewrite EA. cbn [mbind option_bind].
    destruct (double_p2 _ F _ _ a b H1 H3 Ha Hb) as (r & E & R). by exists r.
  - exact (double_p3 _ F _ _ a b r3 H1 H3 Ha Hb).
Qed.

End double.

(** ** The properties *)

(** The tables of crypto-ops-data.c: every ge_base[i][j] is the point
    (j + 1) 256^i B and every ge_Bi[i] the point (2 i + 1) B, B being a point
    of the curve whose multiple by the group order l is the neutral element. *)
Theorem base_tables :
  length ge_base = 32%nat /\ length ge_Bi = 8%nat /\ on_curve B
  /\ (forall i row, ge_base !! i = Some row -> length row = 8%nat /\
       forall j t, row !! j = Some t -> rep_precomp (zmul ((1 + Z.of_nat j) * 256 ^ Z.of_nat i) B) t)
  /\ (forall i t, ge_Bi !! i = Some t -> rep_precomp (zmul (2 * Z.of_nat i + 1) B) t)
  /\ pt_eq (zmul Scalar.ell B) pt_zero.
Proof.
  split_and!; [done|done|exact B_curve|exact ge_base_entries|exact ge_Bi_entries|exact B_order].
Qed.

(** C23. Scalar multiplication: for every 32-byte scalar a whose last byte is at
    most 127 and every point A of the curve, ge_scalarmult and
    ge_scalarmult_p3 return the a-fold sum of A and ge_scalarmult_base the
    a-fold sum of B; no 32- or 64-bit word overflows on the way. *)
Theorem scalar_multiplication a A h :
  small_scalar a -> on_curve A -> rep_p3 A h ->
  (exists r, ge_scalarmult a h = Some r /\ rep_p2 (zmul (num a) A) r)
  /\ (exists r, ge_scalarmult_p3 a h = Some r /\ rep_p3 (zmul (num a) A) r)
  /\ (exists r, ge_scalarmult_base ge_base a = Some r /\ rep_p3 (zmul (num a) B) r).
Proof.
  intros Ha HA Rh. split_and!; [by apply multiply_p2|by apply multiply_p3|by apply multiply_base].
Qed.

(** C24. Double scalar multiplication: with scalars below 2^254 and points A and
    C of the curve, ge_double_scalarmult_base_vartime returns a A + b B, and
    the precomp versions a A + b C.  The two _p3 versions do so too, except
    that they leave their result r3 as it was when both scalars are zero. *)
Theorem double_scalar_multiplication a b A h C hC r3 :
  slide_scalar a -> slide_scalar b -> on_curve A -> rep_p3 A h -> on_curve C -> rep_p3 C hC ->
  (exists r, ge_double_scalarmult_base_vartime ge_Bi a h b = Some r
     /\ rep_p2 (pt_add (zmul (num a) A) (zmul (num b) B)) r)
  /\ (exists r, ge_double_scalarmult_base_vartime_p3 ge_Bi r3 a h b = Some r
        /\ if decide (num a = 0 /\ num b = 0) then r = r3
           else rep_p3 (pt_add (zmul (num a) A) (zmul (num b) B)) r)
  /\ exists Ai Ci, ge_dsm_precomp h = Some Ai /\ ge_dsm_precomp hC = Some Ci
     /\ (exists r, ge_double_scalarmult_precomp_vartime a h b Ci = Some r
          /\ ge_double_scalarmult_precomp_vartime2 a Ai b Ci = Some r
          /\ rep_p2 (pt_add (zmul (num a) A) (zmul (num b) C)) r)
     /\ (exists r, ge_double_scalarmult_precomp_vartime2_p3 r3 a Ai b Ci = Some r
          /\ if decide (num a = 0 /\ num b = 0) then r = r3
             else rep_p3 (pt_add (zmul (num a) A) (zmul (num b) C)) r).
Proof.
  intros Ha Hb HA Rh HC RC. split_and!.
  - by apply multiply_double_base.
  - by apply multiply_double_base_p3.
  - by apply multiply_double_precomp.
Qed.

(** ** Witnesses *)

Definition sample_scalar : bytes := replicate 31 255 ++ [15].

Lemma sample_small : small_scalar sample_scalar.
Proof. unfold small_scalar. split_and!; [by_eval|done|exists 15; by_eval]. Qed.

Lemma H_rep : exists P, on_curve P /\ rep_p3 P ge_p3_H.
Proof.
  exists (fval (p3_X ge_p3_H), fval (p3_Y ge_p3_H)). split; [by_eval|].
  exists 1. unfold rep. split_and!; try by_eval. apply unit_1.
Qed.

Lemma scalar_multiplication_witness :
  exists r P, ge_scalarmult sample_scalar ge_p3_H = Some r /\ rep_p2 (zmul (num sample_scalar) P) r.
Proof.
  destruct H_rep as (P & HP & RP).
  destruct (scalar_multiplication sample_scalar P ge_p3_H sample_small HP RP) as ((r & E & R) & _).
  exists r, P. exact (conj E R).
Defined.

Lemma double_scalar_multiplication_witness :
  exists r P, ge_double_scalarmult_base_vartime ge_Bi sample_scalar ge_p3_H sample_scalar = Some r
    /\ rep_p2 (pt_add (zmul (num sample_scalar) P) (zmul (num sample_scalar) B)) r.
Proof.
  destruct H_rep as (P & HP & RP).
  destruct (double_scalar_multiplication sample_scalar sample_scalar P ge_p3_H P ge_p3_H ge_p3_H)
    as ((r & E & R) & _);
    [unfold slide_scalar; by_eval|unfold slide_scalar; by_eval|exact HP|exact RP|exact HP|exact RP|].
  exists r, P. exact (conj E R).
Defined.

End Multiples.
