(* ===== verification/Crypto.v ===== *)
(** * Keys and signatures

    src/crypto/crypto.cpp over the group operations of Ge and ScalarMult, the
    scalars of Scalar and any hash with 32-byte digests.  Every function is
    modelled with its asserts: [debug] says whether the build has them, and
    [None] is an abort (a failed assert, local_abort, undefined behaviour).
    Random bytes come from a list of the answers of the generator.  The theorems
    say that the two sides of each scheme agree: derivations, derived keys,
    signatures and transaction proofs made by the functions that generate them
    are accepted by those that check them, and what the checks accept. *)

From S2P Require Import Prelude Keccak Varint Limbs Primality Scalar Fe Ge Curve Points HashPoint BaseData Recode ScalarMult BaseTable Order Multiples.
Import Keccak Varint Limbs Scalar Fe Ge Curve Points BaseData ScalarMult BaseTable Order Multiples.

Module Crypto.

(** The answers of prng::generate_random, in order. *)
Abbreviation randomness := (list bytes).

Record signature := Sig { sig_c : bytes; sig_r : bytes }.

(** ** Random scalars *)

(** The 64-bit word [i] of a 32-byte number, on a little-endian machine. *)
Definition word_64 (k : bytes) (i : nat) : Z := le_val 256 (take 8 (drop (8 * i) k)).

Definition scalar_ok (k : bytes) : bool :=
  let k0 := word_64 k 0 in let k1 := word_64 k 1 in let k2 := word_64 k 2 in let k3 := word_64 k 3 in
  let lw3 := 0xf000000000000000 in let lw2 := 0x0000000000000001 in
  let lw1 := 0x3910a40b8c82308f in let lw0 := 0x2913ce8b72676ae3 in
  if (k0 =? 0) && (k1 =? 0) && (k2 =? 0) && (k3 =? 0) then false else
  if k3 <? lw3 then true else
  if lw3 <? k3 then false else
  if k2 <? lw2 then true else
  if lw2 <? k2 then false else
  if k1 <? lw1 then true else
  if lw1 <? k1 then false else
  if k0 <? lw0 then true else
  false.

(** [None]: the answers ran out before an acceptable one. *)
Fixpoint random_scalar (rng : randomness) : option (bytes * randomness) :=
  match rng with
  | [] => None
  | v32 :: rng =>
      if scalar_ok v32 then v ← sc_reduce32 v32; Some (v, rng) else random_scalar rng
  end.

Definition random_scalar_16 (rng : randomness) : option (bytes * randomness) :=
  match rng with
  | [] => None
  | v16 :: rng => Some (v16, rng)
  end.

Section functions.

Context `{H : !FastHash} (debug : bool).

Definition assert (b : bool) : option Datatypes.unit := if debug && negb b then None else Some tt.

(** The blocks that are only compiled with asserts. *)
Definition in_debug (block : option Datatypes.unit) : option Datatypes.unit :=
  if debug then block else Some tt.

Definition hash_to_scalar (data : bytes) : option bytes := sc_reduce32 (fast_hash data).

(** ** Keys *)

(** ge_scalarmult_base and ge_p3_tobytes. *)
Definition base_bytes (sec : bytes) : option bytes :=
  point ← ge_scalarmult_base ge_base sec; ge_p3_tobytes point.

(** ge_scalarmult and ge_tobytes. *)
Definition mult_bytes (sec : bytes) (point : ge_p3) : option bytes :=
  point2 ← ge_scalarmult sec point; ge_tobytes point2.

(** The public key, the secret key and the number returned. *)
Definition generate_legacy_keys (recovery_key : bytes) (recover : bool) (rng : randomness)
    : option (bytes * bytes * bytes * randomness) :=
  '(r, rng) ← (if recover then Some (recovery_key, rng) else random_scalar rng);
  sec ← sc_reduce32 r;
  pub ← base_bytes sec;
  Some (pub, sec, r, rng).

Definition generate_wallet_secret (rng : randomness) : option (bytes * randomness) := random_scalar_16 rng.

Definition generate_wallet_keys (wallet_secret : bytes) (key_variant : Z) : option (bytes * bytes) :=
  sec ← hash_to_scalar (le_digits 256 4 key_variant ++ wallet_secret);
  pub ← base_bytes sec;
  Some (pub, sec).

Definition check_key (key : bytes) : option bool :=
  r ← ge_frombytes_vartime key;
  match r with inr _ => Some true | inl _ => Some false end.

(** A function that returns false with no result, or true with one. *)
Definition secret_key_to_public_key (sec : bytes) : option (option bytes) :=
  n ← sc_check sec;
  if n =? 0 then pub ← base_bytes sec; Some (Some pub) else Some None.

Definition generate_key_derivation (key1 key2 : bytes) : option (option bytes) :=
  n ← sc_check key2; _ ← assert (n =? 0);
  r ← ge_frombytes_vartime key1;
  match r with
  | inl _ => Some None
  | inr point =>
      point2 ← ge_scalarmult key2 point;
      point3 ← ge_mul8 point2;
      point2 ← ge_p1p1_to_p2 point3;
      derivation ← ge_tobytes point2;
      Some (Some derivation)
  end.

Definition derivation_to_scalar (derivation : bytes) (output_index : Z) : option bytes :=
  let v := write_varint output_index in
  _ ← assert (Nat.leb (length v) 10);
  hash_to_scalar (derivation ++ v).

Definition derive_public_key (derivation : bytes) (output_index : Z) (base : bytes)
    : option (option bytes) :=
  r ← ge_frombytes_vartime base;
  match r with
  | inl _ => Some None
  | inr point1 =>
      scalar ← derivation_to_scalar derivation output_index;
      point2 ← ge_scalarmult_base ge_base scalar;
      point3 ← ge_p3_to_cached point2;
      point4 ← ge_add point1 point3;
      point5 ← ge_p1p1_to_p2 point4;
      derived_key ← ge_tobytes point5;
      Some (Some derived_key)
  end.

Definition derive_secret_key (derivation : bytes) (output_index : Z) (base : bytes) : option bytes :=
  n ← sc_check base; _ ← assert (n =? 0);
  scalar ← derivation_to_scalar derivation output_index;
  sc_add base scalar.

Definition derive_subaddress_public_key (out_key derivation : bytes) (output_index : Z)
    : option (option bytes) :=
  r ← ge_frombytes_vartime out_key;
  match r with
  | inl _ => Some None
  | inr point1 =>
      scalar ← derivation_to_scalar derivation output_index;
      point2 ← ge_scalarmult_base ge_base scalar;
      point3 ← ge_p3_to_cached point2;
      point4 ← ge_sub point1 point3;
      point5 ← ge_p1p1_to_p2 point4;
      derived_key ← ge_tobytes point5;
      Some (Some derived_key)
  end.

(** ** Signatures *)

Definition generate_signature (prefix_hash pub sec : bytes) (rng : randomness)
    : option (signature * randomness) :=
  _ ← in_debug (n ← sc_check sec; _ ← assert (n =? 0);
                t2 ← base_bytes sec; assert (bool_decide (pub = t2)));
  '(k, rng) ← random_scalar rng;
  comm ← base_bytes k;
  c ← hash_to_scalar (prefix_hash ++ pub ++ comm);
  r ← sc_mulsub c sec k;
  Some (Sig c r, rng).

Definition check_signature (prefix_hash pub : bytes) (sig : signature) : option bool :=
  ok ← check_key pub; _ ← assert ok;
  r ← ge_frombytes_vartime pub;
  match r with
  | inl _ => Some false
  | inr tmp3 =>
      nc ← sc_check (sig_c sig); nr ← sc_check (sig_r sig);
      if negb (nc =? 0) || negb (nr =? 0) then Some false else
      tmp2 ← ge_double_scalarmult_base_vartime ge_Bi (sig_c sig) tmp3 (sig_r sig);
      comm ← ge_tobytes tmp2;
      c ← hash_to_scalar (prefix_hash ++ pub ++ comm);
      c ← sc_sub c (sig_c sig);
      Some (sc_isnonzero c =? 0)
  end.

(** ** Transaction proofs *)

(** Reading the optional spend key of the recipient: without one the proof is
    about multiples of the base point. *)
Definition decode_spend (B : option bytes) : option (Z + option ge_p3) :=
  match B with
  | None => Some (inr None)
  | Some B =>
      r ← ge_frombytes_vartime B;
      match r with inl e => Some (inl e) | inr B_p3 => Some (inr (Some B_p3)) end
  end.

(** k B, or k G. *)
Definition spend_bytes (k : bytes) (B_p3 : option ge_p3) : option bytes :=
  match B_p3 with Some B_p3 => mult_bytes k B_p3 | None => base_bytes k end.

(** [inl]: the exception thrown. *)
Definition generate_tx_proof (prefix_hash R A : bytes) (B : option bytes) (D r : bytes) (rng : randomness)
    : option (string + signature * randomness) :=
  R_p3 ← ge_frombytes_vartime R;
  match R_p3 with inl _ => Some (inl "tx pubkey is invalid"%string) | inr R_p3 =>
  A_p3 ← ge_frombytes_vartime A;
  match A_p3 with inl _ => Some (inl "recipient view pubkey is invalid"%string) | inr A_p3 =>
  B_p3 ← decode_spend B;
  match B_p3 with inl _ => Some (inl "recipient spend pubkey is invalid"%string) | inr B_p3 =>
  D_p3 ← ge_frombytes_vartime D;
  match D_p3 with inl _ => Some (inl "key derivation is invalid"%string) | inr D_p3 =>
  _ ← in_debug (n ← sc_check r; _ ← assert (n =? 0);
                dbg_R ← spend_bytes r B_p3; _ ← assert (bool_decide (R = dbg_R));
                dbg_D ← mult_bytes r A_p3; assert (bool_decide (D = dbg_D)));
  '(k, rng) ← random_scalar rng;
  X ← spend_bytes k B_p3;
  Y ← mult_bytes k A_p3;
  c ← hash_to_scalar (prefix_hash ++ D ++ X ++ Y);
  sr ← sc_mulsub c r k;
  Some (inr (Sig c sr, rng))
  end end end end.

(** The sum of the points two encodings stand for: false if one is invalid. *)
Definition add_decoded (a b : bytes) : option (option bytes) :=
  a_p3 ← ge_frombytes_vartime a;
  match a_p3 with
  | inl _ => Some None
  | inr a_p3 =>
      b_p3 ← ge_frombytes_vartime b;
      match b_p3 with
      | inl _ => Some None
      | inr b_p3 =>
          cached ← ge_p3_to_cached b_p3;
          p1p1 ← ge_add a_p3 cached;
          p2 ← ge_p1p1_to_p2 p1p1;
          s ← ge_tobytes p2;
          Some (Some s)
      end
  end.

Definition add_base (a : bytes) (r : bytes) : option (option bytes) :=
  a_p3 ← ge_frombytes_vartime a;
  match a_p3 with
  | inl _ => Some None
  | inr a_p3 =>
      rG_p3 ← ge_scalarmult_base ge_base r;
      cached ← ge_p3_to_cached rG_p3;
      p1p1 ← ge_add a_p3 cached;
      p2 ← ge_p1p1_to_p2 p1p1;
      s ← ge_tobytes p2;
      Some (Some s)
  end.

(** c R + r B, or c R + r G. *)
Definition tx_commitment (c : bytes) (R_p3 : ge_p3) (r : bytes) (B_p3 : option ge_p3)
    : option (option bytes) :=
  cR ← mult_bytes c R_p3;
  match B_p3 with
  | Some B_p3 => rB ← mult_bytes r B_p3; add_decoded cR rB
  | None => add_base cR r
  end.

Definition check_tx_proof (prefix_hash R A : bytes) (B : option bytes) (D : bytes) (sig : signature)
    : option bool :=
  R_p3 ← ge_frombytes_vartime R;
  match R_p3 with inl _ => Some false | inr R_p3 =>
  A_p3 ← ge_frombytes_vartime A;
  match A_p3 with inl _ => Some false | inr A_p3 =>
  B_p3 ← decode_spend B;
  match B_p3 with inl _ => Some false | inr B_p3 =>
  D_p3 ← ge_frombytes_vartime D;
  match D_p3 with inl _ => Some false | inr D_p3 =>
  nc ← sc_check (sig_c sig); nr ← sc_check (sig_r sig);
  if negb (nc =? 0) || negb (nr =? 0) then Some false else
  X ← tx_commitment (sig_c sig) R_p3 (sig_r sig) B_p3;
  match X with None => Some false | Some X =>
  Y ← tx_commitment (sig_c sig) D_p3 (sig_r sig) (Some A_p3);
  match Y with None => Some false | Some Y =>
  c2 ← hash_to_scalar (prefix_hash ++ D ++ X ++ Y);
  c2 ← sc_sub c2 (sig_c sig);
  Some (sc_isnonzero c2 =? 0)
  end end end end end end.

End functions.


(** ** Scalars *)

(** A scalar that sc_check accepts. *)
Definition valid (k : bytes) : Prop := scalar k /\ num k < ell.

#[global] Instance valid_dec k : Decision (valid k).
Proof. unfold valid, scalar. apply _. Defined.

Lemma scalar_range k : scalar k -> 0 <= num k < 2 ^ 256.
Proof. intros [Hb Hl]. pose proof (le_val_bound 256 ltac:(lia) k Hb) as B. by rewrite Hl in B. Qed.

Lemma valid_range k : valid k -> 0 <= num k < ell.
Proof. intros [Hs Hn]. pose proof (scalar_range k Hs). lia. Qed.

Lemma valid_inj a b : valid a -> valid b -> num a = num b -> a = b.
Proof. intros [[Ha La] _] [[Hb Lb] _]. apply le_val_inj; [lia|done|done|congruence]. Qed.

Lemma ell_small : ell < 2 ^ 253.
Proof. by_eval. Qed.

Lemma valid_small k : valid k -> small_scalar k.
Proof.
  intros [[Hb Hl] Hn]. split_and!; [done|done|].
  destruct (lookup_lt_is_Some_2 k 31 ltac:(lia)) as [t Ht]. exists t.
  destruct (top_byte k t Hb Hl Ht) as [E R]. pose proof (scalar_range k (conj Hb Hl)).
  pose proof ell_small. rewrite (Z.div_small (num k)) in E by lia. rewrite shiftr_div in E by lia.
  split; [by rewrite last_lookup, Hl|dlia].
Qed.

Lemma valid_slide k : valid k -> slide_scalar k.
Proof. intros [[Hb Hl] Hn]. pose proof ell_small. split_and!; [done|done|lia]. Qed.

Lemma residue_valid x : valid (residue x).
Proof. split; [apply residue_scalar|]. rewrite num_residue. apply Z.mod_pos_bound. done. Qed.

Lemma residue_residue x : residue (num (residue x)) = residue x.
Proof. unfold residue at 1 3. by rewrite num_residue, Zmod_mod. Qed.

Lemma valid_check k : valid k -> sc_check k = Some 0.
Proof. intros [Hs Hn]. rewrite sc_check_ok by done. by rewrite (proj2 (Z.ltb_lt _ _)). Qed.

Lemma check_valid k : scalar k -> exists n, sc_check k = Some n /\ (n =? 0) = bool_decide (valid k).
Proof.
  intros Hs. rewrite sc_check_ok by done. eexists. split; [done|].
  destruct (Z.ltb_spec (num k) ell) as [L|L]; symmetry.
  - by apply bool_decide_eq_true.
  - apply bool_decide_eq_false. intros [_ L']. lia.
Qed.

Lemma residue_zero x : (sc_isnonzero (residue x) =? 0) = bool_decide (eqm ell x 0).
Proof.
  rewrite sc_isnonzero_ok by apply residue_scalar.
  destruct (decide (Forall (eq 0) _)) as [F|F]; symmetry.
  - apply bool_decide_eq_true. unfold eqm.
    pose proof (num_residue x) as N. rewrite <- N, (Zmod_0_l ell).
    rewrite <- (proj2 (replicate_as_Forall 0 32 _)); [by rewrite le_val_zeros|].
    split; [apply length_le_digits|done].
  - apply bool_decide_eq_false. unfold eqm. intros E. apply F. unfold residue.
    rewrite E, Zmod_0_l, le_digits_0 by lia. by apply Forall_replicate.
Qed.

(** The comparison at the end of every check. *)
Lemma compare_ok a b :
  scalar a -> scalar b ->
  exists c, sc_sub a b = Some c /\ (sc_isnonzero c =? 0) = bool_decide (eqm ell (num a) (num b)).
Proof.
  intros Ha Hb. rewrite sc_sub_ok by done. eexists. split; [done|]. rewrite residue_zero.
  apply bool_decide_ext. rewrite !eqm_divide, Z.sub_0_r. done.
Qed.

(** *** Random scalars *)

Lemma word_64_range k i : scalar k -> (i < 4)%nat -> 0 <= word_64 k i < 2 ^ 64.
Proof.
  intros [Hb Hl] Hi. unfold word_64.
  assert (Forall (fun d => 0 <= d < 256) (take 8 (drop (8 * i) k))) as F by by apply Forall_take, Forall_drop.
  pose proof (le_val_bound 256 ltac:(lia) _ F) as R. rewrite length_take, length_drop, Hl in R.
  by replace (8 `min` (32 - 8 * i))%nat with 8%nat in R by lia.
Qed.

Lemma word_64_sum k :
  scalar k -> num k = word_64 k 0 + 2 ^ 64 * (word_64 k 1 + 2 ^ 64 * (word_64 k 2 + 2 ^ 64 * word_64 k 3)).
Proof.
  intros [Hb Hl].
  assert (forall n l, length l = (8 + n)%nat ->
    num l = le_val 256 (take 8 l) + 2 ^ 64 * num (drop 8 l)) as S.
  { intros n l Hn. rewrite <- (take_drop 8 l) at 1. rewrite le_val_app, length_take, Hn by lia.
    by replace (8 `min` (8 + n))%nat with 8%nat by lia. }
  rewrite (S 24%nat k), (S 16%nat (drop 8 k)), (S 8%nat (drop 8 (drop 8 k))),
    (S 0%nat (drop 8 (drop 8 (drop 8 k)))) by (rewrite ?length_drop; lia).
  unfold word_64. rewrite !drop_drop. cbn [Nat.add Nat.mul].
  rewrite (drop_ge k 32) by lia. cbn [le_val]. rewrite drop_0. lia.
Qed.

(** scalar_ok accepts the numbers from 1 to 15 l - 1. *)
Lemma scalar_ok_range k : scalar k -> scalar_ok k = bool_decide (0 < num k < 15 * ell).
Proof.
  intros Hk. rewrite (word_64_sum k Hk).
  pose proof (word_64_range k 0 Hk ltac:(lia)). pose proof (word_64_range k 1 Hk ltac:(lia)).
  pose proof (word_64_range k 2 Hk ltac:(lia)). pose proof (word_64_range k 3 Hk ltac:(lia)).
  unfold scalar_ok, ell. generalize dependent (word_64 k 0). generalize dependent (word_64 k 1).
  generalize dependent (word_64 k 2). generalize dependent (word_64 k 3).
  intros k3 H3 k2 H2 k1 H1 k0 H0. clear k Hk.
  repeat match goal with |- context [?a =? ?b] => destruct (Z.eqb_spec a b); cbn [andb] end;
  repeat match goal with |- context [?a <? ?b] => destruct (Z.ltb_spec a b) end;
  symmetry; (apply bool_decide_eq_true || apply bool_decide_eq_false); lia.
Qed.

Lemma random_scalar_valid rng k rng' :
  Forall scalar rng -> random_scalar rng = Some (k, rng') -> valid k /\ Forall scalar rng'.
Proof.
  induction 1 as [|v rng Hv Hr IH]; cbn [random_scalar]; [done|].
  destruct (scalar_ok v); [|done]. rewrite sc_reduce32_ok by done. cbn [mbind option_bind].
  intros E. injection E as <- <-. split; [apply residue_valid|done].
Qed.


(** ** Encoded points *)

Lemma encode_scalar P : scalar (encode P).
Proof.
  split; [|apply length_le_digits]. eapply Forall_impl; [apply (le_digits_range 256); lia|]. done.
Qed.

Lemma encode_inj P Q : on_curve P -> on_curve Q -> encode P = encode Q -> pt_eq P Q.
Proof.
  intros HP HQ E. destruct (encode_scalar Q) as [Hb Hl].
  pose proof (proj1 (encode_eq Q _ Hb Hl) eq_refl) as [EQ1 EQ2].
  apply (encode_eq P) in E as [EP1 EP2]; [|done..]. apply same_point; congruence.
Qed.

Lemma decode_encode P :
  on_curve P -> exists h, ge_frombytes_vartime (encode P) = Some (inr h) /\ rep_p3 P h.
Proof.
  intros HP. destruct (encode_scalar P) as [Hb Hl].
  destruct (ge_frombytes_vartime_ok (encode P) Hb Hl) as ([e|h] & E & D).
  - destruct D as [_ N]. by destruct (N P HP).
  - destruct D as (Q & RQ & HQ & EQ). exists h. split; [done|].
    eapply rep_p3_eq; [exact RQ|]. by apply encode_inj.
Qed.

(** Reading 32 bytes: false, or a point they encode. *)
Lemma decode_cases s :
  scalar s ->
  (exists e, ge_frombytes_vartime s = Some (inl e) /\ forall P, on_curve P -> encode P <> s)
  \/ exists P h, ge_frombytes_vartime s = Some (inr h) /\ rep_p3 P h /\ on_curve P /\ encode P = s.
Proof.
  intros [Hb Hl]. destruct (ge_frombytes_vartime_ok s Hb Hl) as ([e|h] & E & D).
  - left. exists e. by destruct D.
  - right. destruct D as (P & ? & ? & ?). by exists P, h.
Qed.

(** C36. The encoding of points: of the 32-byte strings ge_frombytes_vartime
    accepts exactly those that encode a point of the curve, returning that point,
    and rejects the others with -1; the point read is written back as the same
    bytes, and a point written is read back as itself. *)
Theorem point_codec s P hp :
  scalar s -> on_curve P -> rep_p3 P hp ->
  ((exists h, ge_frombytes_vartime s = Some (inr h) /\ ge_p3_tobytes h = Some s
       /\ exists Q, rep_p3 Q h /\ on_curve Q)
   \/ (ge_frombytes_vartime s = Some (inl (-1)) /\ forall Q, on_curve Q -> encode Q <> s))
  /\ exists t h, ge_p3_tobytes hp = Some t /\ scalar t
       /\ ge_frombytes_vartime t = Some (inr h) /\ rep_p3 P h.
Proof.
  intros Hs HP R. split.
  - destruct Hs as [Hb Hl]. destruct (ge_frombytes_vartime_ok s Hb Hl) as ([e|h] & E & D).
    + right. by destruct D as [-> N].
    + left. destruct D as (Q & RQ & HQ & EQ). exists h. split; [exact E|]. split; [|by exists Q].
      by rewrite (ge_p3_tobytes_ok Q h RQ), EQ.
  - destruct (decode_encode P HP) as (h & E & Rh). exists (encode P), h.
    exact (conj (ge_p3_tobytes_ok P hp R) (conj (encode_scalar P) (conj E Rh))).
Qed.

Lemma point_codec_witness : exists t h P,
  ge_p3_tobytes ge_p3_H = Some t /\ ge_frombytes_vartime t = Some (inr h) /\ rep_p3 P h.
Proof.
  destruct H_rep as (P & HP & R).
  destruct (point_codec (replicate 32 0) P ge_p3_H ltac:(by_eval) HP R) as (_ & t & h & E1 & _ & E2 & Rh).
  exists t, h, P. exact (conj E1 (conj E2 Rh)).
Defined.

Lemma base_bytes_ok a : small_scalar a -> base_bytes a = Some (encode (zmul (num a) B)).
Proof.
  intros Ha. unfold base_bytes. destruct (multiply_base a Ha) as (r & -> & R). go.
  by apply ge_p3_tobytes_ok.
Qed.

Lemma mult_bytes_ok a P h :
  small_scalar a -> on_curve P -> rep_p3 P h -> mult_bytes a h = Some (encode (zmul (num a) P)).
Proof.
  intros Ha HP R. unfold mult_bytes. destruct (multiply_p2 a P h Ha HP R) as (r & -> & Rr).
  go. by apply ge_tobytes_ok.
Qed.

(** ge_add and ge_sub of two points, and the result in projective coordinates. *)
Lemma add_p2 P Q hp hq :
  on_curve P -> on_curve Q -> rep_p3 P hp -> rep_p3 Q hq ->
  exists c r s, ge_p3_to_cached hq = Some c /\ ge_add hp c = Some r /\ ge_p1p1_to_p2 r = Some s
    /\ ge_tobytes s = Some (encode (pt_add P Q)).
Proof.
  intros HP HQ Rp Rq. destruct (ge_p3_to_cached_rep Q hq Rq) as (c & Ec & Rc).
  destruct (ge_add_rep P Q (pt_add P Q) hp c Rp Rc (is_sum_add P Q HP HQ)) as (r & Er & Rr).
  destruct (ge_p1p1_to_p2_rep _ r Rr) as (s & Es & Rs). exists c, r, s. split_and!; [done..|].
  by apply ge_tobytes_ok.
Qed.

Lemma sub_p2 P Q hp hq :
  on_curve P -> on_curve Q -> rep_p3 P hp -> rep_p3 Q hq ->
  exists c r s, ge_p3_to_cached hq = Some c /\ ge_sub hp c = Some r /\ ge_p1p1_to_p2 r = Some s
    /\ ge_tobytes s = Some (encode (pt_add P (pt_neg Q))).
Proof.
  intros HP HQ Rp Rq. destruct (ge_p3_to_cached_rep Q hq Rq) as (c & Ec & Rc).
  destruct (ge_sub_rep P Q (pt_add P (pt_neg Q)) hp c Rp Rc) as (r & Er & Rr).
  { apply is_sum_add; [done|by apply pt_neg_curve]. }
  destruct (ge_p1p1_to_p2_rep _ r Rr) as (s & Es & Rs). exists c, r, s. split_and!; [done..|].
  by apply ge_tobytes_ok.
Qed.

Lemma ge_dsm_precomp_total I hI :
  on_curve I -> rep_p3 I hI -> exists l, ge_dsm_precomp hI = Some l.
Proof.
  intros HI RI.
  assert (slide_scalar sc_0) as Z0 by by_eval.
  destruct (multiply_double_precomp sc_0 sc_0 I hI Z0 Z0 HI RI I hI hI HI RI) as (Ai & _ & E & _). by exists Ai.
Qed.

(** Clearing the cofactor. *)
Lemma mul8_ok P h :
  on_curve P -> rep_p2 P h -> exists r, ge_mul8 h = Some r /\ rep_p1p1 (zmul 8 P) r.
Proof.
  intros HP R. unfold ge_mul8.
  assert (forall Q g, on_curve Q -> rep_p2 Q g -> exists r, ge_p2_dbl g = Some r /\ rep_p1p1 (zmul 2 Q) r) as D.
  { intros Q g HQ RQ. apply (ge_p2_dbl_rep Q (zmul 2 Q) g RQ HQ).
    apply is_sum_pt_add; [done|done|]. by apply zmul_2. }
  destruct (D P h HP R) as (r1 & -> & R1). go.
  destruct (ge_p1p1_to_p2_rep _ r1 R1) as (s1 & -> & S1). go.
  destruct (D (zmul 2 P) s1 (zmul_curve 2 P HP) S1) as (r2 & -> & R2). go.
  destruct (ge_p1p1_to_p2_rep _ r2 R2) as (s2 & -> & S2). go.
  destruct (D (zmul 2 (zmul 2 P)) s2) as (r3 & -> & R3); [auto with curve|done|].
  exists r3. split; [done|]. eapply rep_p1p1_eq; [exact R3|].
  change 8 with (2 * (2 * 2)). by rewrite !zmul_mul by auto with curve.
Qed.


Lemma some_encode P Q : pt_eq P Q -> Some (Some (encode P)) = Some (Some (encode Q)).
Proof. intros E. by rewrite (encode_proper P Q E). Qed.

(** The proofs use the operations below by their specifications only. *)
#[local] Opaque ge_base ge_Bi ge_scalarmult_base ge_scalarmult ge_double_scalarmult_base_vartime
  ge_double_scalarmult_precomp_vartime ge_dsm_precomp ge_frombytes_vartime ge_p3_tobytes ge_tobytes
  ge_fromfe_frombytes_vartime ge_mul8 ge_add ge_sub ge_p1p1_to_p2 ge_p1p1_to_p3 ge_p3_to_cached
  sc_add sc_sub sc_mulsub sc_reduce32 sc_check encode residue.

(** ** Derivations *)

Section keys.

Context `{H : !FastHash} (debug : bool).

Lemma assert_true b : b = true -> assert debug b = Some tt.
Proof. intros ->. unfold assert. by rewrite andb_false_r. Qed.

Lemma in_debug_true b : b = Some tt -> in_debug debug b = Some tt.
Proof. intros ->. by destruct debug. Qed.

Lemma hash_to_scalar_ok data : hash_to_scalar data = Some (residue (num (fast_hash data))).
Proof. apply sc_reduce32_ok. split; [apply fast_hash_bytes|apply fast_hash_length]. Qed.

Lemma public_key_ok sec :
  valid sec -> secret_key_to_public_key sec = Some (Some (encode (zmul (num sec) B))).
Proof.
  intros Hs. unfold secret_key_to_public_key. rewrite valid_check by done. go.
  by rewrite base_bytes_ok by by apply valid_small.
Qed.

Lemma derivation_ok P k :
  on_curve P -> valid k ->
  generate_key_derivation debug (encode P) k = Some (Some (encode (zmul 8 (zmul (num k) P)))).
Proof.
  intros HP Hk. unfold generate_key_derivation. rewrite valid_check by done. go.
  rewrite assert_true by done. go.
  destruct (decode_encode P HP) as (h & -> & R). go.
  destruct (multiply_p2 k P h (valid_small k Hk) HP R) as (r & -> & Rr). go.
  destruct (mul8_ok _ r (zmul_curve (num k) P HP) Rr) as (t & -> & Rt). go.
  destruct (ge_p1p1_to_p2_rep _ t Rt) as (u & -> & Ru). go.
  by rewrite (ge_tobytes_ok _ u Ru).
Qed.

(** The scalar of an output. *)
Definition output_scalar (derivation : bytes) (output_index : Z) : Z :=
  num (fast_hash (derivation ++ write_varint output_index)).

Lemma derivation_to_scalar_ok derivation i :
  0 <= i < 2 ^ 64 ->
  derivation_to_scalar debug derivation i = Some (residue (output_scalar derivation i)).
Proof.
  intros Hi. unfold derivation_to_scalar. rewrite assert_true.
  - go. apply hash_to_scalar_ok.
  - apply Nat.leb_le. apply (write_varint_length i 9). cbn. lia.
Qed.

Lemma output_multiple derivation i :
  pt_eq (zmul (num (residue (output_scalar derivation i))) B) (zmul (output_scalar derivation i) B).
Proof. apply zmul_B_mod. rewrite num_residue. apply Zmod_mod. Qed.

Lemma derive_public_key_ok derivation i P :
  0 <= i < 2 ^ 64 -> on_curve P ->
  derive_public_key debug derivation i (encode P)
  = Some (Some (encode (pt_add P (zmul (output_scalar derivation i) B)))).
Proof.
  intros Hi HP. unfold derive_public_key.
  destruct (decode_encode P HP) as (h & -> & R). go.
  rewrite derivation_to_scalar_ok by done. go.
  destruct (multiply_base _ (valid_small _ (residue_valid (output_scalar derivation i)))) as (g & -> & Rg).
  go.
  destruct (add_p2 P _ h g HP (zmul_curve _ _ B_curve) R Rg) as (c & r & s & -> & E1 & E2 & E3).
  go. rewrite E1. go. rewrite E2. go.
  rewrite E3. go. apply some_encode.
  apply (pt_add_proper P P); [done|]. apply output_multiple.
Qed.

Lemma derive_subaddress_ok derivation i P :
  0 <= i < 2 ^ 64 -> on_curve P ->
  derive_subaddress_public_key debug (encode P) derivation i
  = Some (Some (encode (pt_add P (pt_neg (zmul (output_scalar derivation i) B))))).
Proof.
  intros Hi HP. unfold derive_subaddress_public_key.
  destruct (decode_encode P HP) as (h & -> & R). go.
  rewrite derivation_to_scalar_ok by done. go.
  destruct (multiply_base _ (valid_small _ (residue_valid (output_scalar derivation i)))) as (g & -> & Rg).
  go.
  destruct (sub_p2 P _ h g HP (zmul_curve _ _ B_curve) R Rg) as (c & r & s & -> & E1 & E2 & E3).
  go. rewrite E1. go. rewrite E2. go.
  rewrite E3. go. apply some_encode. by rewrite output_multiple.
Qed.

Lemma derive_secret_key_ok derivation i base :
  0 <= i < 2 ^ 64 -> valid base ->
  derive_secret_key debug derivation i base
  = Some (residue (num base + num (residue (output_scalar derivation i)))).
Proof.
  intros Hi Hb. unfold derive_secret_key. rewrite valid_check by done. go.
  rewrite assert_true by done. go.
  rewrite derivation_to_scalar_ok by done. go.
  apply sc_add_ok; [apply Hb|apply residue_scalar].
Qed.

End keys.

(** The shared secret: for two secret keys a and b, the derivation of the
    public key of a with b and of the public key of b with a are the same, and
    no step of either computation fails. *)
Theorem derivation_agrees `{!FastHash} debug a b :
  valid a -> valid b ->
  exists A C D,
    secret_key_to_public_key a = Some (Some A) /\ secret_key_to_public_key b = Some (Some C)
    /\ generate_key_derivation debug A b = Some (Some D)
    /\ generate_key_derivation debug C a = Some (Some D).
Proof.
  intros Ha Hb. rewrite !public_key_ok by done. do 3 eexists. split_and!; [done|done|..].
  - apply derivation_ok; [auto with curve|done].
  - rewrite derivation_ok by auto with curve. apply some_encode.
    rewrite <- (zmul_mul (num a)), <- (zmul_mul (num b)) by exact B_curve. by rewrite Z.mul_comm.
Qed.

(** One-time keys: the public key derived from a base key and an output
    index belongs to the secret key derived from the base secret key, the
    derived secret key is a valid scalar, and derive_subaddress_public_key takes
    the derived public key back to the base key. *)
Theorem derived_keys_match `{!FastHash} debug derivation i base :
  0 <= i < 2 ^ 64 -> valid base ->
  exists pub dpub dsec,
    secret_key_to_public_key base = Some (Some pub)
    /\ derive_public_key debug derivation i pub = Some (Some dpub)
    /\ derive_secret_key debug derivation i base = Some dsec
    /\ valid dsec /\ secret_key_to_public_key dsec = Some (Some dpub)
    /\ derive_subaddress_public_key debug dpub derivation i = Some (Some pub).
Proof.
  intros Hi Hb. rewrite public_key_ok by done. do 3 eexists. split; [done|].
  rewrite derive_public_key_ok, derive_secret_key_ok by auto with curve.
  split; [done|]. split; [done|]. split; [apply residue_valid|].
  rewrite public_key_ok by apply residue_valid. split.
  - apply some_encode. rewrite <- zmul_add by exact B_curve.
    apply zmul_B_mod. rewrite !num_residue. unfold eqm. rewrite Zmod_mod, Z.add_mod_idemp_r by done. done.
  - rewrite derive_subaddress_ok by auto with curve. apply some_encode.
    rewrite pt_add_assoc, pt_add_neg by auto with curve. rewrite pt_add_comm. apply pt_add_O. auto with curve.
Qed.


(** ** Signatures *)

Section signatures.

Context `{H : !FastHash} (debug : bool).

Lemma digest_scalar data : scalar (fast_hash data).
Proof. split; [apply fast_hash_bytes|apply fast_hash_length]. Qed.

Lemma double_bytes a b P h :
  valid a -> valid b -> on_curve P -> rep_p3 P h ->
  exists r, ge_double_scalarmult_base_vartime ge_Bi a h b = Some r
    /\ ge_tobytes r = Some (encode (pt_add (zmul (num a) P) (zmul (num b) B))).
Proof.
  intros Ha Hb HP R.
  destruct (multiply_double_base a b P h (valid_slide a Ha) (valid_slide b Hb) HP R) as (r & E & Rr).
  exists r. split; [done|]. by apply ge_tobytes_ok.
Qed.

(** Both scalars of a signature are checked. *)
Lemma check_both c r :
  scalar c -> scalar r ->
  exists nc nr, sc_check c = Some nc /\ sc_check r = Some nr
    /\ (negb (nc =? 0) || negb (nr =? 0)) = negb (bool_decide (valid c /\ valid r)).
Proof.
  intros Hc Hr. destruct (check_valid c Hc) as (nc & Ec & Vc). destruct (check_valid r Hr) as (nr & Er & Vr).
  exists nc, nr. split_and!; [done|done|]. rewrite Vc, Vr, bool_decide_and. by rewrite negb_andb.
Qed.

(** The challenge a signature must reproduce. *)
Definition challenge (prefix_hash pub : bytes) (Q : point) : Z :=
  num (fast_hash (prefix_hash ++ pub ++ encode Q)).

Lemma hash_compare data c :
  valid c -> exists h d, hash_to_scalar data = Some h /\ sc_sub h c = Some d
    /\ (sc_isnonzero d =? 0) = bool_decide (eqm ell (num (fast_hash data)) (num c)).
Proof.
  intros Hc. rewrite hash_to_scalar_ok. eexists.
  destruct (compare_ok (residue (num (fast_hash data))) c) as (d & Ed & Vd);
    [apply residue_scalar|apply Hc|].
  exists d. split_and!; [done|done|]. rewrite Vd. apply bool_decide_ext.
  unfold eqm. by rewrite num_residue, Zmod_mod.
Qed.

Lemma check_key_ok P : on_curve P -> check_key (encode P) = Some true.
Proof. intros HP. unfold check_key. destruct (decode_encode P HP) as (h & -> & R). by go. Qed.

Lemma check_key_no s e : ge_frombytes_vartime s = Some (inl e) -> check_key s = Some false.
Proof. intros E. unfold check_key. rewrite E. by go. Qed.

Lemma check_signature_ok prefix P sig :
  on_curve P -> scalar (sig_c sig) -> scalar (sig_r sig) ->
  check_signature debug prefix (encode P) sig
  = Some (bool_decide (valid (sig_c sig) /\ valid (sig_r sig))
      && bool_decide (eqm ell (challenge prefix (encode P)
           (pt_add (zmul (num (sig_c sig)) P) (zmul (num (sig_r sig)) B))) (num (sig_c sig)))).
Proof.
  intros HP Hc Hr. unfold check_signature. rewrite check_key_ok by done. go.
  rewrite assert_true by done. go.
  destruct (decode_encode P HP) as (h & -> & R). go.
  destruct (check_both _ _ Hc Hr) as (nc & nr & -> & -> & V). do 2 go. rewrite V.
  destruct (decide (valid (sig_c sig) /\ valid (sig_r sig))) as [[Vc Vr]|N].
  2: { rewrite bool_decide_eq_false_2 by done. done. }
  rewrite bool_decide_eq_true_2 by done. cbn [negb andb].
  destruct (double_bytes _ _ P h Vc Vr HP R) as (t & -> & Et). go. rewrite Et. go.
  destruct (hash_compare (prefix ++ encode P ++ encode (pt_add (zmul (num (sig_c sig)) P)
    (zmul (num (sig_r sig)) B))) (sig_c sig) Vc) as (x & d & -> & Ed & Vd).
  go. rewrite Ed. go. by rewrite Vd.
Qed.

(** k = r + c x modulo l. *)
Lemma response_multiple c x k r P :
  pt_eq (zmul ell P) pt_zero -> on_curve P -> num r = (k - num c * x) mod ell ->
  pt_eq (pt_add (zmul (num c) (zmul x P)) (zmul (num r) P)) (zmul k P).
Proof.
  intros HO HP E. rewrite <- zmul_mul, <- zmul_add by done. apply (zmul_eqm ell); [done|done|].
  rewrite E. unfold eqm. rewrite Z.add_mod_idemp_r by done. f_equal. lia.
Qed.

Lemma generate_signature_ok prefix sec rng k rng' :
  valid sec -> Forall scalar rng -> random_scalar rng = Some (k, rng') ->
  let pub := encode (zmul (num sec) B) in
  let c := residue (challenge prefix pub (zmul (num k) B)) in
  generate_signature debug prefix pub sec rng = Some (Sig c (residue (num k - num c * num sec)), rng').
Proof.
  intros Hs Hr Hk pub c. destruct (random_scalar_valid _ _ _ Hr Hk) as [Vk _].
  unfold generate_signature.
  rewrite in_debug_true.
  2: { rewrite valid_check by done. go. rewrite assert_true by done. go.
    rewrite base_bytes_ok by by apply valid_small. go.
    apply assert_true. by apply bool_decide_eq_true. }
  go. rewrite Hk. go. rewrite base_bytes_ok by by apply valid_small. go.
  rewrite hash_to_scalar_ok. go. rewrite sc_mulsub_ok; [by go|apply residue_scalar|apply Hs|apply Vk].
Qed.

End signatures.

(** Signatures verify: for every valid secret key and every message hash,
    generate_signature succeeds as soon as a random scalar is found, and
    check_signature accepts the result under the public key of the secret key
    (with or without asserts). *)
Theorem signature_verifies `{!FastHash} debug prefix sec rng k rng' :
  valid sec -> Forall scalar rng -> random_scalar rng = Some (k, rng') ->
  exists pub sig,
    secret_key_to_public_key sec = Some (Some pub)
    /\ generate_signature debug prefix pub sec rng = Some (sig, rng')
    /\ check_signature debug prefix pub sig = Some true.
Proof.
  intros Hs Hr Hk. rewrite public_key_ok by done. do 2 eexists. split; [done|].
  rewrite (generate_signature_ok debug prefix sec rng k rng' Hs Hr Hk). split; [done|].
  rewrite check_signature_ok by (auto with curve || apply residue_scalar). cbn [sig_c sig_r].
  rewrite !bool_decide_eq_true_2; [done| |split; apply residue_valid].
  assert (forall c r, num r = (num k - num c * num sec) mod ell ->
    challenge prefix (encode (zmul (num sec) B)) (pt_add (zmul (num c) (zmul (num sec) B)) (zmul (num r) B))
    = challenge prefix (encode (zmul (num sec) B)) (zmul (num k) B)) as ->.
  { intros c r E. unfold challenge.
    by rewrite (response_multiple c (num sec) (num k) r B B_order B_curve E). }
  2: apply num_residue.
  unfold eqm. by rewrite num_residue, Zmod_mod.
Qed.

(** What check_signature accepts, in a build without asserts: 32-byte keys
    and scalars are accepted exactly when the key encodes a point P of the
    curve, both scalars are below l and c is the challenge of c P + r G;
    everything else is rejected, and nothing aborts. *)
Theorem check_signature_spec `{!FastHash} prefix pub sig :
  scalar pub -> scalar (sig_c sig) -> scalar (sig_r sig) ->
  exists b, check_signature false prefix pub sig = Some b
    /\ (b = true <-> exists P, on_curve P /\ encode P = pub /\ valid (sig_c sig) /\ valid (sig_r sig)
         /\ eqm ell (challenge prefix pub (pt_add (zmul (num (sig_c sig)) P) (zmul (num (sig_r sig)) B)))
              (num (sig_c sig))).
Proof.
  intros Hp Hc Hr. destruct (decode_cases pub Hp) as [(e & E & N)|(P & h & E & R & HP & EP)].
  - exists false. split.
    + unfold check_signature. rewrite (check_key_no pub e E). go.
      change (assert false false) with (Some tt). go. rewrite E. by go.
    + split; [done|]. intros (P & HP & EP & _). by destruct (N P HP).
  - subst pub. rewrite check_signature_ok by done. eexists. split; [done|].
    rewrite andb_true_iff, !bool_decide_eq_true. split.
    + intros [[Vc Vr] C]. by exists P.
    + intros (Q & HQ & EQ & Vc & Vr & C). split; [done|].
      apply encode_inj in EQ; [|done..].
      unfold challenge in *. by rewrite EQ in C.
Qed.


(** ** Transaction proofs *)

Lemma add_decoded_ok P Q :
  on_curve P -> on_curve Q -> add_decoded (encode P) (encode Q) = Some (Some (encode (pt_add P Q))).
Proof.
  intros HP HQ. unfold add_decoded. destruct (decode_encode P HP) as (h & -> & R). go.
  destruct (decode_encode Q HQ) as (g & -> & Rg). go.
  destruct (add_p2 P Q h g HP HQ R Rg) as (c & r & s & -> & E1 & E2 & E3).
  go. rewrite E1. go. rewrite E2. go. rewrite E3. by go.
Qed.

Lemma add_base_ok P r :
  on_curve P -> small_scalar r -> add_base (encode P) r = Some (Some (encode (pt_add P (zmul (num r) B)))).
Proof.
  intros HP Hr. unfold add_base. destruct (decode_encode P HP) as (h & -> & R). go.
  destruct (multiply_base r Hr) as (g & -> & Rg). go.
  destruct (add_p2 P _ h g HP (zmul_curve _ _ B_curve) R Rg) as (c & t & s & -> & E1 & E2 & E3).
  go. rewrite E1. go. rewrite E2. go. rewrite E3. by go.
Qed.

(** The point the commitments are multiples of. *)
Definition spend_point (oB : option point) : point := default B oB.

Definition spend_rep (oB : option point) (h : option ge_p3) : Prop :=
  match oB, h with
  | Some P, Some h => rep_p3 P h
  | None, None => True
  | _, _ => False
  end.

Lemma spend_curve oB : (forall P, oB = Some P -> on_curve P) -> on_curve (spend_point oB).
Proof. destruct oB as [P|]; intros HP; [by apply HP|exact B_curve]. Qed.

Lemma decode_spend_ok oB :
  (forall P, oB = Some P -> on_curve P) ->
  exists h, decode_spend (encode <$> oB) = Some (inr h) /\ spend_rep oB h.
Proof.
  destruct oB as [P|]; intros HP; cbn [fmap option_fmap option_map decode_spend].
  - destruct (decode_encode P (HP P eq_refl)) as (h & -> & R). exists (Some h). by split.
  - exists None. by split.
Qed.

Lemma spend_bytes_ok k oB h :
  small_scalar k -> on_curve (spend_point oB) -> spend_rep oB h ->
  spend_bytes k h = Some (encode (zmul (num k) (spend_point oB))).
Proof.
  intros Hk HP R. destruct oB as [P|], h as [h|]; cbn [spend_rep] in R; [|destruct R|destruct R|]; cbn [spend_bytes].
  - by apply mult_bytes_ok.
  - by apply base_bytes_ok.
Qed.

Lemma tx_commitment_ok c P hp r oB h :
  valid c -> valid r -> on_curve P -> rep_p3 P hp -> on_curve (spend_point oB) -> spend_rep oB h ->
  tx_commitment c hp r h
  = Some (Some (encode (pt_add (zmul (num c) P) (zmul (num r) (spend_point oB))))).
Proof.
  intros Hc Hr HP R HB RB. unfold tx_commitment.
  rewrite (mult_bytes_ok c P hp (valid_small c Hc) HP R). go.
  destruct oB as [Q|], h as [h|]; cbn [spend_rep] in RB; [|destruct RB|destruct RB|].
  - rewrite (mult_bytes_ok r Q h (valid_small r Hr) HB RB). go. apply add_decoded_ok; auto with curve.
  - apply add_base_ok; [auto with curve|by apply valid_small].
Qed.

Section tx_proofs.

Context `{H : !FastHash} (debug : bool) (prefix : bytes) (R A D : point) (oB : option point).
Hypothesis HR : on_curve R.
Hypothesis HA : on_curve A.
Hypothesis HD : on_curve D.
Hypothesis HB : forall P, oB = Some P -> on_curve P.

Definition tx_challenge (X Y : point) : Z :=
  num (fast_hash (prefix ++ encode D ++ encode X ++ encode Y)).

Lemma check_tx_proof_ok sig :
  scalar (sig_c sig) -> scalar (sig_r sig) ->
  check_tx_proof prefix (encode R) (encode A) (encode <$> oB) (encode D) sig
  = Some (bool_decide (valid (sig_c sig) /\ valid (sig_r sig))
      && bool_decide (eqm ell
           (tx_challenge (pt_add (zmul (num (sig_c sig)) R) (zmul (num (sig_r sig)) (spend_point oB)))
              (pt_add (zmul (num (sig_c sig)) D) (zmul (num (sig_r sig)) A))) (num (sig_c sig)))).
Proof.
  intros Hc Hr. unfold check_tx_proof.
  destruct (decode_encode R HR) as (hr & -> & RR). go.
  destruct (decode_encode A HA) as (ha & -> & RA). go.
  destruct (decode_spend_ok oB HB) as (hb & -> & RB). go.
  destruct (decode_encode D HD) as (hd & -> & RD). go.
  destruct (check_both _ _ Hc Hr) as (nc & nr & -> & -> & V). do 2 go. rewrite V.
  destruct (decide (valid (sig_c sig) /\ valid (sig_r sig))) as [[Vc Vr]|N].
  2: { rewrite bool_decide_eq_false_2 by done. done. }
  rewrite bool_decide_eq_true_2 by done. cbn [negb andb].
  rewrite (tx_commitment_ok _ R hr _ oB hb Vc Vr HR RR (spend_curve oB HB) RB). go.
  rewrite (tx_commitment_ok _ D hd _ (Some A) (Some ha) Vc Vr HD RD HA RA). go.
  cbn [spend_point default from_option]. unfold tx_challenge, id.
  edestruct hash_compare as (x & d & -> & Ed & Vd); [exact Vc|].
  go. rewrite Ed. go. by rewrite Vd.
Qed.

Lemma generate_tx_proof_ok r rng k rng' :
  valid r -> encode R = encode (zmul (num r) (spend_point oB)) -> encode D = encode (zmul (num r) A) ->
  Forall scalar rng -> random_scalar rng = Some (k, rng') ->
  let c := residue (tx_challenge (zmul (num k) (spend_point oB)) (zmul (num k) A)) in
  generate_tx_proof debug prefix (encode R) (encode A) (encode <$> oB) (encode D) r rng
  = Some (inr (Sig c (residue (num k - num c * num r)), rng')).
Proof.
  intros Hs ER ED Hr Hk c. destruct (random_scalar_valid _ _ _ Hr Hk) as [Vk _].
  pose proof (spend_curve oB HB) as HP. unfold generate_tx_proof.
  destruct (decode_encode R HR) as (hr & -> & RR). go.
  destruct (decode_encode A HA) as (ha & -> & RA). go.
  destruct (decode_spend_ok oB HB) as (hb & -> & RB). go.
  destruct (decode_encode D HD) as (hd & -> & RD). go.
  rewrite in_debug_true.
  2: { rewrite valid_check by done. go. rewrite assert_true by done. go.
    rewrite (spend_bytes_ok r oB hb (valid_small r Hs) HP RB). go.
    rewrite assert_true by by apply bool_decide_eq_true. go.
    rewrite (mult_bytes_ok r A ha (valid_small r Hs) HA RA). go.
    by apply assert_true, bool_decide_eq_true. }
  go. rewrite Hk. go.
  rewrite (spend_bytes_ok k oB hb (valid_small k Vk) HP RB). go.
  rewrite (mult_bytes_ok k A ha (valid_small k Vk) HA RA). go.
  rewrite hash_to_scalar_ok. go. rewrite sc_mulsub_ok; [by go|apply residue_scalar|apply Hs|apply Vk].
Qed.

End tx_proofs.


Lemma multiple_order n : pt_eq (zmul ell (zmul n B)) pt_zero.
Proof. rewrite <- zmul_mul, Z.mul_comm by exact B_curve. apply zmul_multiple; [exact B_curve|exact B_order]. Qed.

(** Transaction proofs verify: for the key r of a transaction, a recipient
    with view key a and, for a subaddress, spend key b, the proof generated for
    R = r G (or r B) and D = r A is accepted, whatever the message. *)
Theorem tx_proof_verifies `{!FastHash} debug prefix a ob r rng k rng' :
  valid a -> (forall b, ob = Some b -> valid b) -> valid r ->
  Forall scalar rng -> random_scalar rng = Some (k, rng') ->
  let A := zmul (num a) B in
  let oB := (fun b => zmul (num b) B) <$> ob in
  let R := encode (zmul (num r) (spend_point oB)) in
  let D := encode (zmul (num r) A) in
  exists sig,
    generate_tx_proof debug prefix R (encode A) (encode <$> oB) D r rng = Some (inr (sig, rng'))
    /\ check_tx_proof prefix R (encode A) (encode <$> oB) D sig = Some true.
Proof.
  intros Ha Hb Hr Hs Hk A oB R D.
  assert (forall P, oB = Some P -> on_curve P) as HB.
  { unfold oB. destruct ob as [b|]; [|done]. intros P [= <-]. auto with curve. }
  pose proof (spend_curve oB HB) as HP. pose proof (zmul_curve (num a) B B_curve : on_curve A) as HA.
  assert (pt_eq (zmul ell (spend_point oB)) pt_zero) as HO.
  { unfold oB. destruct ob as [b|]; [apply multiple_order|exact B_order]. }
  unfold R, D. rewrite (generate_tx_proof_ok debug prefix (zmul (num r) (spend_point oB)) A
    (zmul (num r) A) oB (zmul_curve _ _ HP) HA (zmul_curve _ _ HA) HB r rng k rng' Hr eq_refl eq_refl Hs Hk).
  eexists. split; [done|].
  rewrite check_tx_proof_ok by (auto with curve || apply residue_scalar). cbn [sig_c sig_r].
  rewrite !bool_decide_eq_true_2; [done| |split; apply residue_valid].
  set (c := residue (tx_challenge _ _ _ _)). set (s := residue (_ - _)).
  assert (num s = (num k - num c * num r) mod ell) as E by apply num_residue.
  unfold tx_challenge. rewrite (response_multiple c (num r) (num k) s _ HO HP E).
  rewrite (response_multiple c (num r) (num k) s A (multiple_order _) HA E).
  unfold eqm, c. by rewrite num_residue, Zmod_mod.
Qed.


(** ** Random scalars and wallet keys *)

Lemma random_scalar_first rng v rng' :
  Forall scalar rng -> scalar v -> Forall (fun u => ~ 0 < num u < 15 * ell) rng -> 0 < num v < 15 * ell ->
  random_scalar (rng ++ v :: rng') = Some (residue (num v), rng').
Proof.
  intros Hr Hv. induction Hr as [|u rng Hu _ IH]; intros Hno Hyes; cbn [app random_scalar].
  - rewrite scalar_ok_range, bool_decide_eq_true_2 by done. rewrite sc_reduce32_ok by done. by go.
  - apply Forall_cons in Hno as [Nu Hno]. rewrite scalar_ok_range, bool_decide_eq_false_2 by done.
    by apply IH.
Qed.

(** Random scalars: as soon as the generator answers a number from 1 to
    15 l - 1, random_scalar returns its residue modulo l, having read no further;
    and the accepted answers with residue x are x, x + l, ..., x + 14 l but for
    zero, so that the nonzero scalars are equally likely. *)
Theorem random_scalar_uniform rng v rng' :
  Forall scalar rng -> scalar v -> Forall (fun u => ~ 0 < num u < 15 * ell) rng -> 0 < num v < 15 * ell ->
  random_scalar (rng ++ v :: rng') = Some (residue (num v), rng')
  /\ valid (residue (num v))
  /\ forall x u, 0 <= x < ell -> scalar u ->
       scalar_ok u && (num (residue (num u)) =? x) = true
       <-> exists j, 0 <= j < 15 /\ num u = x + j * ell /\ num u <> 0.
Proof.
  intros Hr Hv Hno Hyes. split; [by apply random_scalar_first|]. split; [apply residue_valid|].
  intros x u Hx Hu. rewrite andb_true_iff, scalar_ok_range, bool_decide_eq_true, num_residue by done.
  rewrite Z.eqb_eq. pose proof (Z.div_mod (num u) ell ltac:(done)). split.
  - intros [R E]. exists (num u / ell). split; [|lia]. split.
    + apply Z.div_pos; lia.
    + apply Z.div_lt_upper_bound; lia.
  - intros (j & Hj & E & N). split; [nia|]. rewrite E, Z.mod_add by done.
    by apply Z.mod_small.
Qed.

Lemma keys_of_number r :
  scalar r -> exists pub, sc_reduce32 r = Some (residue (num r)) /\ base_bytes (residue (num r)) = Some pub
    /\ secret_key_to_public_key (residue (num r)) = Some (Some pub).
Proof.
  intros Hr. rewrite sc_reduce32_ok, base_bytes_ok, public_key_ok;
    [by eexists|apply residue_valid|apply valid_small, residue_valid|done].
Qed.

(** Wallet keys: from a random number, legacy key generation gives a valid
    secret key and its public key, and recovery gives back both, from the number
    or from the secret key; the keys made from a wallet secret are a valid
    secret key and its public key as well. *)
Theorem wallet_keys_recovered `{!FastHash} rk rng k rng' rng2 wallet_secret variant :
  Forall scalar rng -> random_scalar rng = Some (k, rng') ->
  (exists pub sec,
    generate_legacy_keys rk false rng = Some (pub, sec, k, rng')
    /\ valid sec /\ secret_key_to_public_key sec = Some (Some pub)
    /\ generate_legacy_keys k true rng2 = Some (pub, sec, k, rng2)
    /\ generate_legacy_keys sec true rng2 = Some (pub, sec, sec, rng2))
  /\ exists pub sec, generate_wallet_keys wallet_secret variant = Some (pub, sec)
    /\ valid sec /\ secret_key_to_public_key sec = Some (Some pub).
Proof.
  intros Hr Hk. destruct (random_scalar_valid _ _ _ Hr Hk) as [[Vk _] _]. split.
  - destruct (keys_of_number k Vk) as (pub & E1 & E2 & E3). exists pub, (residue (num k)).
    unfold generate_legacy_keys. rewrite Hk. rewrite !some_bind. rewrite E1. rewrite !some_bind. rewrite E2.
    rewrite !some_bind. split_and!; [done|apply residue_valid|done|done|].
    rewrite sc_reduce32_ok by apply residue_scalar. go. rewrite (residue_residue (num k)), E2. by go.
  - unfold generate_wallet_keys, hash_to_scalar.
    destruct (keys_of_number _ (digest_scalar (le_digits 256 4 variant ++ wallet_secret))) as (pub & E1 & E2 & E3).
    rewrite E1. go. rewrite E2. go. do 2 eexists. split_and!; [done|apply residue_valid|done].
Qed.


(** ** Examples, with Keccak as the hash *)

Definition key_5 : bytes := 5 :: replicate 31 0.
Definition key_7 : bytes := 7 :: replicate 31 0.

Lemma key_5_valid : valid key_5.
Proof. by_eval. Qed.

Lemma key_7_valid : valid key_7.
Proof. by_eval. Qed.

Lemma draw_7 : random_scalar [key_7] = Some (key_7, []).
Proof. by_eval. Qed.

Lemma draws_7 : Forall scalar [key_7].
Proof. constructor; [apply key_7_valid|constructor]. Qed.

Lemma derivation_agrees_witness : exists C D,
  secret_key_to_public_key key_7 = Some (Some C)
  /\ generate_key_derivation true C key_5 = Some (Some D).
Proof.
  destruct (@derivation_agrees keccak_fast_hash true key_5 key_7 key_5_valid key_7_valid)
    as (A & C & D & _ & E1 & _ & E2).
  exists C, D. exact (conj E1 E2).
Defined.

Lemma derived_keys_match_witness : exists pub dpub,
  secret_key_to_public_key key_5 = Some (Some pub)
  /\ @derive_public_key keccak_fast_hash true key_7 3 pub = Some (Some dpub).
Proof.
  destruct (@derived_keys_match keccak_fast_hash true key_7 3 key_5 ltac:(lia) key_5_valid)
    as (pub & dpub & _ & E1 & E2 & _).
  exists pub, dpub. exact (conj E1 E2).
Defined.

Lemma signature_verifies_witness : exists pub sig,
  @generate_signature keccak_fast_hash true key_7 pub key_5 [key_7] = Some (sig, [])
  /\ @check_signature keccak_fast_hash true key_7 pub sig = Some true.
Proof.
  destruct (@signature_verifies keccak_fast_hash true key_7 key_5 [key_7] key_7 [] key_5_valid draws_7 draw_7)
    as (pub & sig & _ & E1 & E2).
  exists pub, sig. exact (conj E1 E2).
Defined.

Lemma check_signature_spec_witness : exists b,
  @check_signature keccak_fast_hash false key_7 key_5 (Sig key_5 key_7) = Some b.
Proof.
  destruct (@check_signature_spec keccak_fast_hash key_7 key_5 (Sig key_5 key_7)
    (proj1 key_5_valid) (proj1 key_5_valid) (proj1 key_7_valid)) as (b & E & _).
  exists b. exact E.
Defined.

Lemma tx_proof_verifies_witness : exists R A D sig,
  @generate_tx_proof keccak_fast_hash true key_7 R A None D key_5 [key_7] = Some (inr (sig, []))
  /\ @check_tx_proof keccak_fast_hash key_7 R A None D sig = Some true.
Proof.
  destruct (@tx_proof_verifies keccak_fast_hash true key_7 key_7 None key_5 [key_7] key_7 []
    key_7_valid ltac:(discriminate) key_5_valid draws_7 draw_7) as (sig & E1 & E2).
  do 3 eexists. exists sig. exact (conj E1 E2).
Defined.

Lemma random_scalar_uniform_witness :
  random_scalar (replicate 32 255 :: [key_7]) = Some (residue 7, []).
Proof.
  apply (random_scalar_uniform [replicate 32 255] key_7 []); [by_eval..].
Defined.

Lemma wallet_keys_recovered_witness : exists pub sec,
  @generate_wallet_keys keccak_fast_hash key_5 0 = Some (pub, sec) /\ valid sec.
Proof.
  destruct (@wallet_keys_recovered keccak_fast_hash [] [key_7] key_7 [] [] key_5 0 draws_7 draw_7)
    as (_ & pub & sec & E & V & _).
  exists pub, sec. exact (conj E V).
Defined.

End Crypto.
