(* ===== verification/RingSig.v ===== *)
(** * Key images and ring signatures

    hash_to_ec, generate_key_image, generate_ring_signature and
    check_ring_signature of src/crypto/crypto.cpp.  The theorems: a key image
    is a point of the prime order subgroup, a public key has one, and a common
    image of two keys gives the discrete logarithm between their hashes; a ring
    signature generated by any member of the ring verifies. *)

From S2P Require Import Prelude Keccak Varint Limbs Primality Scalar Fe Ge Curve Points HashPoint BaseData Recode ScalarMult BaseTable Order Multiples Crypto.
Import Keccak Varint Limbs Scalar Fe Ge Curve Points BaseData ScalarMult BaseTable Order Multiples Crypto HashPoint.

Module RingSig.

Section functions.

Context `{H : !FastHash} (debug : bool).

(** ** Key images and ring signatures *)

Definition hash_to_ec (key : bytes) : option ge_p3 :=
  point ← ge_fromfe_frombytes_vartime (fast_hash key);
  point2 ← ge_mul8 point;
  ge_p1p1_to_p3 point2.

Definition generate_key_image (pub sec : bytes) : option bytes :=
  n ← sc_check sec; _ ← assert debug (n =? 0);
  point ← hash_to_ec pub;
  mult_bytes sec point.

(** The two commitments to a member of the ring: c P + r G and r Hp(P) + c I. *)
Definition ring_commitments (pub : bytes) (tmp3 : ge_p3) (sig : signature) (image_pre : list ge_cached)
    : option (bytes * bytes) :=
  tmp2 ← ge_double_scalarmult_base_vartime ge_Bi (sig_c sig) tmp3 (sig_r sig);
  a ← ge_tobytes tmp2;
  tmp3 ← hash_to_ec pub;
  tmp2 ← ge_double_scalarmult_precomp_vartime (sig_r sig) tmp3 (sig_c sig) image_pre;
  b ← ge_tobytes tmp2;
  Some (a, b).

(** The state of the signing loop: the sum of the challenges, the commitments
    so far, the signatures (the signer's is filled in at the end), the signer's
    nonce once it has been drawn. *)
Record ring_state := Ring {
  rs_sum : bytes; rs_ab : bytes; rs_sigs : list signature; rs_k : option bytes; rs_rng : randomness
}.

Definition ring_step (image_pre : list ge_cached) (sec_index : nat) (st : ring_state) (pub : bytes)
    : option ring_state :=
  if decide (length (rs_sigs st) = sec_index) then
    '(k, rng) ← random_scalar (rs_rng st);
    a ← base_bytes k;
    tmp3 ← hash_to_ec pub;
    b ← mult_bytes k tmp3;
    Some (Ring (rs_sum st) (rs_ab st ++ a ++ b) (rs_sigs st ++ [Sig [] []]) (Some k) rng)
  else
    '(c, rng) ← random_scalar (rs_rng st);
    '(r, rng) ← random_scalar rng;
    tmp3 ← ge_frombytes_vartime pub;
    match tmp3 with
    | inl _ => None
    | inr tmp3 =>
        '(a, b) ← ring_commitments pub tmp3 (Sig c r) image_pre;
        sum ← sc_add (rs_sum st) c;
        Some (Ring sum (rs_ab st ++ a ++ b) (rs_sigs st ++ [Sig c r]) (rs_k st) rng)
    end.

Fixpoint ring_loop (image_pre : list ge_cached) (sec_index : nat) (st : ring_state) (pubs : list bytes)
    : option ring_state :=
  match pubs with
  | [] => Some st
  | pub :: pubs => st ← ring_step image_pre sec_index st pub; ring_loop image_pre sec_index st pubs
  end.

Fixpoint all_keys (pubs : list bytes) : option Datatypes.unit :=
  match pubs with
  | [] => Some tt
  | pub :: pubs => ok ← check_key pub; _ ← assert debug ok; all_keys pubs
  end.

Definition generate_ring_signature (prefix_hash image : bytes) (pubs : list bytes) (sec : bytes)
    (sec_index : nat) (rng : randomness) : option (list signature * randomness) :=
  _ ← assert debug (Nat.ltb sec_index (length pubs));
  _ ← in_debug debug (n ← sc_check sec; _ ← assert debug (n =? 0);
                t2 ← base_bytes sec; pub ← pubs !! sec_index;
                _ ← assert debug (bool_decide (pub = t2));
                t3 ← generate_key_image pub sec;
                _ ← assert debug (bool_decide (image = t3));
                all_keys pubs);
  image_unp ← ge_frombytes_vartime image;
  match image_unp with
  | inl _ => None
  | inr image_unp =>
      image_pre ← ge_dsm_precomp image_unp;
      st ← ring_loop image_pre sec_index (Ring sc_0 prefix_hash [] None rng) pubs;
      h ← hash_to_scalar (rs_ab st);
      c ← sc_sub h (rs_sum st);
      k ← rs_k st;
      r ← sc_mulsub c sec k;
      Some (<[sec_index := Sig c r]> (rs_sigs st), rs_rng st)
  end.

(** The checking loop: [Some None] is a return of false, [None] a read past the
    end of the signatures. *)
Fixpoint check_ring_loop (image_pre : list ge_cached) (sum ab : bytes) (pubs : list bytes)
    (sigs : list signature) : option (option (bytes * bytes)) :=
  match pubs, sigs with
  | [], _ => Some (Some (sum, ab))
  | _ :: _, [] => None
  | pub :: pubs, sig :: sigs =>
      nc ← sc_check (sig_c sig); nr ← sc_check (sig_r sig);
      if negb (nc =? 0) || negb (nr =? 0) then Some None else
      tmp3 ← ge_frombytes_vartime pub;
      match tmp3 with
      | inl _ => Some None
      | inr tmp3 =>
          '(a, b) ← ring_commitments pub tmp3 sig image_pre;
          sum ← sc_add sum (sig_c sig);
          check_ring_loop image_pre sum (ab ++ a ++ b) pubs sigs
      end
  end.

Definition check_ring_signature (prefix_hash image : bytes) (pubs : list bytes) (sig : list signature)
    : option bool :=
  _ ← in_debug debug (all_keys pubs);
  image_unp ← ge_frombytes_vartime image;
  match image_unp with
  | inl _ => Some false
  | inr image_unp =>
      image_pre ← ge_dsm_precomp image_unp;
      r ← check_ring_loop image_pre sc_0 prefix_hash pubs sig;
      match r with
      | None => Some false
      | Some (sum, ab) =>
          h ← hash_to_scalar ab;
          h ← sc_sub h sum;
          Some (sc_isnonzero h =? 0)
      end
  end.

End functions.

#[local] Opaque ge_base ge_Bi ge_scalarmult_base ge_scalarmult ge_double_scalarmult_base_vartime
  ge_double_scalarmult_precomp_vartime ge_dsm_precomp ge_frombytes_vartime ge_p3_tobytes ge_tobytes
  ge_fromfe_frombytes_vartime ge_mul8 ge_add ge_sub ge_p1p1_to_p2 ge_p1p1_to_p3 ge_p3_to_cached
  sc_add sc_sub sc_mulsub sc_reduce32 sc_check encode residue.


(** ** Draws *)

(** The randomness left after [n] random scalars. *)
Fixpoint draw (n : nat) (rng : randomness) : option randomness :=
  match n with
  | 0%nat => Some rng
  | S n => '(_, rng) ← random_scalar rng; draw n rng
  end.

Lemma draw_S n rng rng' :
  Forall scalar rng -> draw (S n) rng = Some rng' ->
  exists k rng1, random_scalar rng = Some (k, rng1) /\ valid k /\ Forall scalar rng1 /\ draw n rng1 = Some rng'.
Proof.
  intros Hr. cbn [draw]. destruct (random_scalar rng) as [[k rng1]|] eqn:E; [|done]. go.
  intros D. exists k, rng1. destruct (random_scalar_valid _ _ _ Hr E) as [Vk Hr1].
  exact (conj eq_refl (conj Vk (conj Hr1 D))).
Qed.

Lemma draw_add n m rng rng' :
  Forall scalar rng -> draw (n + m) rng = Some rng' ->
  exists rng1, draw n rng = Some rng1 /\ Forall scalar rng1 /\ draw m rng1 = Some rng'.
Proof.
  revert rng. induction n as [|n IH]; intros rng Hr D; [by exists rng|].
  destruct (draw_S (n + m) rng rng' Hr D) as (k & rng1 & E & _ & Hr1 & D1).
  destruct (IH rng1 Hr1 D1) as (rng2 & E2 & Hr2 & D2). exists rng2. split; [|by split].
  cbn [draw]. rewrite E. by go.
Qed.

(** ** The members of a ring *)

Section members.

Context `{H : !FastHash} (debug : bool).

(** hash_to_ec maps the key to [Q], a point of order dividing l. *)
Definition hashes (key : bytes) (Q : point) : Prop :=
  on_curve Q /\ pt_eq (zmul ell Q) pt_zero /\ exists h, hash_to_ec key = Some h /\ rep_p3 Q h.

Lemma hash_to_ec_ok key : exists Q, hashes key Q.
Proof.
  destruct (ge_fromfe_ok (fast_hash key)) as (h & P & E & R & HP);
    [apply fast_hash_bytes|apply fast_hash_length|].
  exists (zmul 8 P). split_and!; [auto with curve|by apply cleared_order|].
  unfold hash_to_ec. rewrite E. go.
  destruct (mul8_ok P h HP R) as (r & -> & Rr). go.
  destruct (ge_p1p1_to_p3_rep _ r Rr) as (s & Es & Rs). exists s. exact (conj Es Rs).
Qed.

Lemma generate_key_image_ok pub sec Q :
  valid sec -> hashes pub Q -> generate_key_image debug pub sec = Some (encode (zmul (num sec) Q)).
Proof.
  intros Hs (HQ & _ & h & E & R). unfold generate_key_image. rewrite valid_check by done. go.
  rewrite assert_true by done. go. rewrite E. go. apply mult_bytes_ok; [by apply valid_small|done|done].
Qed.

Lemma key_points pubs :
  Forall (fun pub => scalar pub /\ check_key pub = Some true) pubs ->
  exists Ps, pubs = encode <$> Ps /\ Forall on_curve Ps.
Proof.
  induction 1 as [|pub pubs [Hs Hk] _ (Ps & -> & HP)]; [by exists []|].
  destruct (decode_cases pub Hs) as [(e & E & _)|(P & h & _ & _ & HC & <-)].
  - by rewrite (check_key_no pub e E) in Hk.
  - exists (P :: Ps). split; [done|by constructor].
Qed.

Lemma all_keys_ok Ps : Forall on_curve Ps -> all_keys debug (encode <$> Ps) = Some tt.
Proof.
  induction 1 as [|P Ps HP _ IH]; cbn [fmap list_fmap all_keys]; [done|].
  rewrite check_key_ok by done. go. rewrite assert_true by done. by go.
Qed.

Context (I : point) (hI : ge_p3) (image_pre : list ge_cached).
Hypothesis HI : on_curve I.
Hypothesis RI : rep_p3 I hI.
Hypothesis EI : ge_dsm_precomp hI = Some image_pre.

Lemma ring_commitments_ok pub P h Q c r :
  on_curve P -> rep_p3 P h -> hashes pub Q -> valid c -> valid r ->
  ring_commitments pub h (Sig c r) image_pre
  = Some (encode (pt_add (zmul (num c) P) (zmul (num r) B)),
          encode (pt_add (zmul (num r) Q) (zmul (num c) I))).
Proof.
  intros HP R (HQ & _ & hQ & EQ & RQ) Hc Hr. unfold ring_commitments. cbn [sig_c sig_r].
  destruct (double_bytes c r P h Hc Hr HP R) as (t & -> & Et). go. rewrite Et. go.
  rewrite EQ. go.
  destruct (multiply_double_precomp r c Q hQ (valid_slide r Hr) (valid_slide c Hc) HQ RQ I hI hI HI RI)
    as (Ai & Ci & _ & EC & (u & Eu & _ & Ru) & _).
  assert (Ci = image_pre) as -> by congruence.
  rewrite Eu. go. rewrite (ge_tobytes_ok _ u Ru). by go.
Qed.

Lemma check_step sum ab P Q c r pubs sigs :
  scalar sum -> on_curve P -> hashes (encode P) Q -> valid c -> valid r ->
  check_ring_loop image_pre sum ab (encode P :: pubs) (Sig c r :: sigs)
  = check_ring_loop image_pre (residue (num sum + num c))
      (ab ++ encode (pt_add (zmul (num c) P) (zmul (num r) B))
          ++ encode (pt_add (zmul (num r) Q) (zmul (num c) I))) pubs sigs.
Proof.
  intros Hs HP HQ Hc Hr. cbn [check_ring_loop sig_c sig_r].
  rewrite (valid_check c Hc). go. rewrite (valid_check r Hr). go. cbn [Z.eqb negb orb].
  destruct (decode_encode P HP) as (h & -> & R). go.
  rewrite (ring_commitments_ok (encode P) P h Q c r HP R HQ Hc Hr). go.
  rewrite sc_add_ok by (done || apply Hc). by go.
Qed.

Lemma other_step si st P Q c r rng1 rng2 :
  length (rs_sigs st) <> si -> scalar (rs_sum st) -> on_curve P -> hashes (encode P) Q ->
  random_scalar (rs_rng st) = Some (c, rng1) -> random_scalar rng1 = Some (r, rng2) ->
  valid c -> valid r ->
  ring_step image_pre si st (encode P)
  = Some (Ring (residue (num (rs_sum st) + num c))
      (rs_ab st ++ encode (pt_add (zmul (num c) P) (zmul (num r) B))
          ++ encode (pt_add (zmul (num r) Q) (zmul (num c) I))) (rs_sigs st ++ [Sig c r]) (rs_k st) rng2).
Proof.
  intros Hi Hs HP HQ Ec Er Hc Hr. unfold ring_step. rewrite decide_False by done.
  rewrite Ec. go. rewrite Er. go.
  destruct (decode_encode P HP) as (h & -> & R). go.
  rewrite (ring_commitments_ok (encode P) P h Q c r HP R HQ Hc Hr). go.
  rewrite sc_add_ok by (done || apply Hc). by go.
Qed.

Lemma signer_step si st pub Q k rng1 :
  length (rs_sigs st) = si -> hashes pub Q -> random_scalar (rs_rng st) = Some (k, rng1) -> valid k ->
  ring_step image_pre si st pub
  = Some (Ring (rs_sum st) (rs_ab st ++ encode (zmul (num k) B) ++ encode (zmul (num k) Q))
      (rs_sigs st ++ [Sig [] []]) (Some k) rng1).
Proof.
  intros Hi (HQ & _ & h & E & R) Ek Hk. unfold ring_step. rewrite decide_True by done.
  rewrite Ek. go. rewrite base_bytes_ok by by apply valid_small. go. rewrite E. go.
  rewrite (mult_bytes_ok k Q h (valid_small k Hk) HQ R). by go.
Qed.

(** ** The loops *)

Lemma ring_loop_app si st l1 l2 :
  ring_loop image_pre si st (l1 ++ l2)
  = (st1 ← ring_loop image_pre si st l1; ring_loop image_pre si st1 l2).
Proof.
  revert st. induction l1 as [|pub l1 IH]; intros st; cbn [app ring_loop]; [done|].
  destruct (ring_step image_pre si st pub) as [st1|]; [|done]. rewrite !some_bind. apply IH.
Qed.

Lemma challenge_sum s0 s1 t0 t1 c :
  eqm ell (s1 - num (residue (s0 + c))) (t1 - num (residue (t0 + c))) -> eqm ell (s1 - s0) (t1 - t0).
Proof.
  rewrite !num_residue. unfold eqm. rewrite !Zminus_mod_idemp_r. intros E.
  replace (s1 - s0) with (s1 - (s0 + c) + c) by lia. replace (t1 - t0) with (t1 - (t0 + c) + c) by lia.
  rewrite <- (Z.add_mod_idemp_l (s1 - _)), <- (Z.add_mod_idemp_l (t1 - _)) by done. by rewrite E.
Qed.

Lemma ring_sum t1 s1 t3 s3 c :
  eqm ell (t1 - num sc_0) (s1 - num sc_0) -> eqm ell (t3 - num (residue (t1 + c))) (s3 - s1) ->
  eqm ell t3 (s3 + c).
Proof.
  change (num sc_0) with 0. rewrite num_residue, !eqm_divide. intros [a Ha] [b Hb].
  exists (a + b - (t1 + c) / ell). pose proof (Z.div_mod (t1 + c) ell ltac:(done)). lia.
Qed.

(** Members that do not sign: the signatures drawn for them are checked with
    the same commitments, and add the same challenges. *)
Lemma others_ok si Ps st rng' :
  Forall on_curve Ps -> scalar (rs_sum st) -> Forall scalar (rs_rng st) ->
  (forall i, length (rs_sigs st) <= i < length (rs_sigs st) + length Ps -> i <> si)%nat ->
  draw (2 * length Ps) (rs_rng st) = Some rng' ->
  exists sum ab new,
    ring_loop image_pre si st (encode <$> Ps) = Some (Ring sum ab (rs_sigs st ++ new) (rs_k st) rng')
    /\ scalar sum /\ Forall scalar rng' /\ length new = length Ps
    /\ forall sum0 pubs sigs, scalar sum0 -> exists sum1, scalar sum1
         /\ check_ring_loop image_pre sum0 (rs_ab st) ((encode <$> Ps) ++ pubs) (new ++ sigs)
            = check_ring_loop image_pre sum1 ab pubs sigs
         /\ eqm ell (num sum1 - num sum0) (num sum - num (rs_sum st)).
Proof.
  intros HPs. revert st. induction HPs as [|P Ps HP _ IH]; intros st Hs Hr Hi D.
  - exists (rs_sum st), (rs_ab st), []. cbn [length Nat.mul Nat.add draw] in D. injection D as <-.
    split; [|split; [done|split; [done|split; [done|]]]].
    + rewrite app_nil_r. by destruct st.
    + intros sum0 pubs sigs Hs0. exists sum0. split_and!; [done|done|]. by rewrite !Z.sub_diag.
  - cbn [length] in D, Hi. replace (2 * S (length Ps))%nat with (S (S (2 * length Ps))) in D by lia.
    destruct (draw_S _ _ _ Hr D) as (c & rng1 & Ec & Vc & Hr1 & D1).
    destruct (draw_S _ _ _ Hr1 D1) as (r & rng2 & Er & Vr & Hr2 & D2).
    destruct (hash_to_ec_ok (encode P)) as (Q & HQ).
    pose proof (other_step si st P Q c r rng1 rng2 ltac:(apply Hi; lia) Hs HP HQ Ec Er Vc Vr) as E.
    match type of E with _ = Some ?st1 => destruct (IH st1) as (sum & ab & new & EL & Ss & Sr & L & CK) end.
    + apply residue_scalar.
    + exact Hr2.
    + cbn [rs_sigs]. intros i. rewrite length_app. cbn [length]. intros Hr'. apply Hi. lia.
    + exact D2.
    + cbn [rs_sum rs_ab rs_sigs rs_k] in EL, CK. exists sum, ab, (Sig c r :: new).
      split_and!; [|done|done|cbn [length]; lia|].
      { cbn [fmap list_fmap ring_loop]. rewrite E. go. rewrite <- app_assoc in EL. exact EL. }
      intros sum0 pubs sigs Hs0.
      destruct (CK (residue (num sum0 + num c)) pubs sigs (residue_scalar _)) as (sum1 & S1 & E1 & C1).
      exists sum1. split; [done|]. split.
      { cbn [fmap list_fmap app]. by rewrite (check_step sum0 _ P Q c r) by done. }
      by apply (challenge_sum _ _ _ _ (num c)).
Qed.

(** The commitments of the signer, made with the nonce, are those of the
    response computed from it. *)
Lemma signer_check sec Q k c r ab :
  hashes (encode (zmul (num sec) B)) Q -> I = zmul (num sec) Q ->
  num r = (num k - num c * num sec) mod ell ->
  ab ++ encode (pt_add (zmul (num c) (zmul (num sec) B)) (zmul (num r) B))
     ++ encode (pt_add (zmul (num r) Q) (zmul (num c) I))
  = ab ++ encode (zmul (num k) B) ++ encode (zmul (num k) Q).
Proof.
  intros (HQ & HO & _) -> E. rewrite (pt_add_comm (zmul (num r) Q)).
  rewrite (response_multiple c (num sec) (num k) r Q HO HQ E).
  by rewrite (response_multiple c (num sec) (num k) r B B_order B_curve E).
Qed.

Lemma signed_ring prefix sec Q pre post rng rng' :
  Forall on_curve pre -> Forall on_curve post -> Forall scalar rng ->
  hashes (encode (zmul (num sec) B)) Q -> I = zmul (num sec) Q ->
  draw (2 * length pre + S (2 * length post)) rng = Some rng' ->
  let pubs := (encode <$> pre) ++ encode (zmul (num sec) B) :: (encode <$> post) in
  exists sum ab k new1 new2,
    ring_loop image_pre (length pre) (Ring sc_0 prefix [] None rng) pubs
    = Some (Ring sum ab (new1 ++ Sig [] [] :: new2) (Some k) rng')
    /\ scalar sum /\ valid k /\ length new1 = length pre
    /\ forall c r, valid c -> valid r -> num r = (num k - num c * num sec) mod ell ->
       exists sum1, scalar sum1
         /\ check_ring_loop image_pre sc_0 prefix pubs (new1 ++ Sig c r :: new2) = Some (Some (sum1, ab))
         /\ eqm ell (num sum1) (num sum + num c).
Proof.
  intros Hpre Hpost Hr HQ EQ D pubs.
  destruct (draw_add _ _ _ _ Hr D) as (rng1 & D1 & Hr1 & D2).
  destruct (draw_S _ _ _ Hr1 D2) as (k & rng2 & Ek & Vk & Hr2 & D3).
  destruct (others_ok (length pre) pre (Ring sc_0 prefix [] None rng) rng1)
    as (sum1 & ab1 & new1 & E1 & S1 & _ & L1 & C1); [done|by_eval|done|cbn [rs_sigs length]; lia|done|].
  cbn [rs_sum rs_ab rs_sigs rs_k app] in E1, C1.
  pose proof (signer_step (length pre) (Ring sum1 ab1 new1 None rng1) (encode (zmul (num sec) B)) Q k rng2
    L1 HQ Ek Vk) as E2.
  cbn [rs_sum rs_ab rs_sigs] in E2.
  match type of E2 with _ = Some ?st1 => destruct (others_ok (length pre) post st1 rng')
    as (sum3 & ab3 & new2 & E3 & S3 & _ & _ & C3); [done|exact S1|exact Hr2| |exact D3|] end.
  { cbn [rs_sigs]. rewrite length_app, L1. cbn [length]. lia. }
  cbn [rs_sum rs_ab rs_sigs rs_k] in E3, C3.
  exists sum3, ab3, k, new1, new2. split_and!; [|done|done|done|].
  { unfold pubs. rewrite ring_loop_app, E1. go. cbn [ring_loop]. rewrite E2. go.
    rewrite E3, <- app_assoc. done. }
  intros c r Vc Vr E. unfold pubs.
  destruct (C1 sc_0 (encode (zmul (num sec) B) :: (encode <$> post)) (Sig c r :: new2) ltac:(by_eval))
    as (t1 & T1 & -> & M1).
  rewrite (check_step t1 ab1 _ Q c r _ _ T1 (zmul_curve _ _ B_curve) HQ Vc Vr). rewrite (signer_check sec Q k) by done.
  destruct (C3 (residue (num t1 + num c)) [] [] (residue_scalar _)) as (t3 & T3 & E4 & M3).
  rewrite !app_nil_r in E4. exists t3. split; [done|]. split; [exact E4|].
  by apply (ring_sum (num t1) (num sum1)).
Qed.

End members.



Lemma ring_closes h sum sum1 :
  eqm ell (num sum1) (num sum + num (residue (h - num sum))) -> eqm ell h (num sum1).
Proof.
  rewrite num_residue, !eqm_divide. intros [a Ha]. exists ((h - num sum) / ell - a).
  pose proof (Z.div_mod (h - num sum) ell ltac:(done)). lia.
Qed.

(** A point of prime order tells the multiples below l apart. *)
Lemma zmul_inj a b Q :
  on_curve Q -> pt_eq (zmul ell Q) pt_zero -> ~ pt_eq Q pt_zero ->
  0 <= a < ell -> 0 <= b < ell -> pt_eq (zmul a Q) (zmul b Q) -> a = b.
Proof.
  intros HQ HO N Ha Hb E. destruct (decide (a = b)) as [|D]; [done|]. destruct N.
  assert (pt_eq (zmul (a - b) Q) pt_zero) as Z0.
  { unfold Z.sub. rewrite zmul_add, zmul_opp, E by done. apply pt_add_neg. auto with curve. }
  pose proof (zmul_gcd _ _ Q HQ HO Z0) as G.
  assert (~ (ell | a - b)) as ND by (intros D'%Z.divide_abs_r; apply Z.divide_pos_le in D'; lia).
  rewrite (Z.coprime_prime_l _ _ ell_prime ND), zmul_1 in G by done. exact G.
Qed.

(** C38. Key images.  For every two key pairs, [generate_key_image] succeeds without
    an abort; the image is the secret key times the hash of the public key, a point
    whose order divides l, and not the neutral element unless the secret key is zero
    or the hash is neutral.  One public key has one image, so an output that is
    spent twice shows the same image.  Two key pairs with the same image give the
    discrete logarithm of the hash of one public key to the base of the hash of the
    other, computed from the two secret keys. *)
Theorem key_image_spec `{!FastHash} debug a b :
  valid a -> valid b ->
  exists Qa Qb pa pb ia ib,
    secret_key_to_public_key a = Some (Some pa) /\ secret_key_to_public_key b = Some (Some pb)
    /\ hashes pa Qa /\ hashes pb Qb
    /\ generate_key_image debug pa a = Some ia /\ generate_key_image debug pb b = Some ib
    /\ ia = encode (zmul (num a) Qa) /\ check_key ia = Some true /\ pt_eq (zmul ell (zmul (num a) Qa)) pt_zero
    /\ (num a <> 0 -> ~ pt_eq Qa pt_zero -> ia <> encode pt_zero)
    /\ (pa = pb -> a = b /\ ia = ib)
    /\ (ia = ib -> forall inv, (inv * num b) mod ell = 1 -> pt_eq Qb (zmul (inv * num a) Qa)).
Proof.
  intros Ha Hb. pose proof (valid_range a Ha) as Ra. pose proof (valid_range b Hb) as Rb.
  set (pa := encode (zmul (num a) B)). set (pb := encode (zmul (num b) B)).
  destruct (hash_to_ec_ok pa) as (Qa & HQa), (hash_to_ec_ok pb) as (Qb & HQb). pose proof HQa as [Ca [Oa _]]. pose proof HQb as [Cb [Ob _]].
  exists Qa, Qb, pa, pb, (encode (zmul (num a) Qa)), (encode (zmul (num b) Qb)).
  split; [exact (public_key_ok a Ha)|]. split; [exact (public_key_ok b Hb)|]. split; [exact HQa|]. split; [exact HQb|].
  split; [exact (generate_key_image_ok debug pa a Qa Ha HQa)|]. split; [exact (generate_key_image_ok debug pb b Qb Hb HQb)|].
  split; [reflexivity|].
  split; [apply check_key_ok; auto with curve|].
  split; [rewrite <- zmul_mul by assumption; rewrite Z.mul_comm; exact (zmul_multiple _ _ _ Ca Oa)|]. split; [|split].
  - intros Na Nq E. apply encode_inj in E; [|auto with curve..]. apply Na.
    apply (zmul_inj _ _ Qa Ca Oa Nq Ra); [lia|]. rewrite zmul_0. exact E.
  - intros E. apply encode_inj in E; [|apply zmul_curve, B_curve|apply zmul_curve, B_curve]. assert (a = b) as ->.
    { apply valid_inj; [done..|]. apply (zmul_inj _ _ B B_curve B_order B_nonzero); assumption. }
    split; [done|]. pose proof (generate_key_image_ok debug pa b Qa Hb HQa) as E1.
    pose proof (generate_key_image_ok debug pb b Qb Hb HQb) as E2. subst pa pb. congruence.
  - intros E inv Hinv. apply encode_inj in E; [|auto with curve..]. transitivity (zmul (inv * num b) Qb).
    + transitivity (zmul 1 Qb); [symmetry; by apply zmul_1|]. apply (zmul_eqm ell); [assumption|assumption|]. unfold eqm. rewrite Hinv. by_eval.
    + rewrite (zmul_mul inv (num b) Qb Cb), (zmul_mul inv (num a) Qa Ca). by rewrite E.
Qed.

(** The hash of the base point, with the hash of the examples, is not neutral. *)
Lemma hash_of_base Q : @hashes example_hash (encode B) Q -> ~ pt_eq Q pt_zero.
Proof.
  intros (_ & _ & h & E & z & _ & _ & R & _) [N _].
  assert (match @hash_to_ec example_hash (encode B) with Some h => fe_isnonzero (p3_X h) | None => None end = Some 1) as C
    by vm_cast_no_check (@eq_refl (option Z) (Some 1)).
  rewrite E, (fe_isnonzero_ok _ _ (rep_mono 1 3 _ _ R ltac:(lia))) in C. rewrite decide_True in C; [discriminate C|].
  cbn [fst pt_zero] in N. by rewrite N.
Qed.

(** The secret key 1: its image is not the neutral element. *)
Lemma key_image_spec_witness : exists image,
  @generate_key_image example_hash true (encode B) (1 :: replicate 31 0) = Some image
  /\ check_key image = Some true /\ image <> encode pt_zero.
Proof.
  assert (valid (1 :: replicate 31 0)) as V by by_eval.
  assert (secret_key_to_public_key (1 :: replicate 31 0) = Some (Some (encode B))) as EB.
  { assert (num (1 :: replicate 31 0) = 1) as E1 by by_eval. rewrite (public_key_ok _ V), E1, (encode_proper _ _ (zmul_1 B B_curve)). reflexivity. }
  destruct (@key_image_spec example_hash true (1 :: replicate 31 0) key_5 V key_5_valid)
    as (Qa & Qb & pa & pb & ia & ib & EP & _ & HQ & _ & EI & _ & _ & CK & _ & N & _).
  assert (pa = encode B) as -> by congruence. exists ia. split; [exact EI|]. split; [exact CK|].
  apply N; [by_eval|by apply hash_of_base].
Defined.

(** Ring signatures for a ring of points split at the signer. *)
Lemma ring_verifies `{H : !FastHash} debug prefix sec Q pre post rng rng' :
  valid sec -> Forall on_curve pre -> Forall on_curve post -> Forall scalar rng ->
  hashes (encode (zmul (num sec) B)) Q ->
  draw (2 * length pre + S (2 * length post)) rng = Some rng' ->
  let pubs := encode <$> pre ++ zmul (num sec) B :: post in
  let image := encode (zmul (num sec) Q) in
  exists sigs, generate_ring_signature debug prefix image pubs sec (length pre) rng = Some (sigs, rng')
    /\ check_ring_signature debug prefix image pubs sigs = Some true.
Proof.
  intros Hs Hpre Hpost Hr HQ D pubs image.
  assert (on_curve (zmul (num sec) Q)) as HI by (apply zmul_curve, HQ).
  destruct (decode_encode _ HI) as (hI & EI & RI).
  destruct (ge_dsm_precomp_total _ hI HI RI) as (pre' & EP).
  destruct (signed_ring _ hI pre' HI RI EP prefix sec Q pre post rng rng' Hpre Hpost Hr HQ eq_refl D)
    as (sum & ab & k & new1 & new2 & EL & Ss & Vk & L & CK).
  assert (pubs = (encode <$> pre) ++ encode (zmul (num sec) B) :: (encode <$> post)) as Epubs
    by exact (fmap_app encode pre (zmul (num sec) B :: post)).
  assert (all_keys debug pubs = Some tt) as EA.
  { apply all_keys_ok, Forall_app. split; [done|]. constructor; [apply zmul_curve, B_curve|exact Hpost]. }
  set (c := residue (num (residue (num (fast_hash ab))) - num sum)).
  set (r := residue (num k - num c * num sec)).
  destruct (CK c r (residue_valid _) (residue_valid _) (num_residue _)) as (sum1 & S1 & E1 & M1).
  exists (new1 ++ Sig c r :: new2). split.
  - unfold generate_ring_signature. rewrite assert_true.
    2: { apply Nat.ltb_lt. unfold pubs. rewrite length_fmap, length_app. cbn [length]. lia. }
    go. rewrite in_debug_true.
    2: { rewrite valid_check by done. go. rewrite assert_true by done. go.
      rewrite base_bytes_ok by by apply valid_small. go.
      rewrite Epubs, list_lookup_middle by by rewrite length_fmap. go.
      rewrite assert_true by by apply bool_decide_eq_true. go.
      rewrite (generate_key_image_ok debug _ sec Q Hs HQ). go.
      rewrite assert_true by by apply bool_decide_eq_true. go. by rewrite <- Epubs. }
    go. unfold image. rewrite EI. go. rewrite EP. go. rewrite Epubs, EL. go. cbn [rs_ab rs_sum rs_k rs_sigs rs_rng].
    rewrite hash_to_scalar_ok. go. rewrite sc_sub_ok by (done || apply residue_scalar). go. go.
    rewrite sc_mulsub_ok; [go|apply residue_scalar|apply Hs|apply Vk].
    by rewrite <- L, insert_app_r_alt, Nat.sub_diag.
  - unfold check_ring_signature. rewrite in_debug_true by done. go. unfold image. rewrite EI. go.
    rewrite EP. go. rewrite Epubs, E1. go. rewrite hash_to_scalar_ok. go.
    destruct (compare_ok (residue (num (fast_hash ab))) sum1 (residue_scalar _) S1) as (d & -> & Ed).
    go. rewrite Ed. rewrite bool_decide_eq_true_2; [done|]. by apply (ring_closes _ sum).
Qed.


(** C29. Ring signatures verify: for every ring of valid public keys that holds
    the signer's key at any position, with enough random scalars to draw (two
    for each other member and one for the signer), key image and signature are
    generated without an abort and check_ring_signature accepts them, with or
    without asserts. *)
Theorem ring_signature_verifies `{!FastHash} debug prefix pubs sec si pub rng rng' :
  valid sec -> secret_key_to_public_key sec = Some (Some pub) -> pubs !! si = Some pub ->
  Forall (fun pub => scalar pub /\ check_key pub = Some true) pubs ->
  Forall scalar rng -> draw (2 * length pubs - 1) rng = Some rng' ->
  exists image sigs,
    generate_key_image debug pub sec = Some image
    /\ generate_ring_signature debug prefix image pubs sec si rng = Some (sigs, rng')
    /\ check_ring_signature debug prefix image pubs sigs = Some true.
Proof.
  intros Hs Hpub Hsi Hk Hr D. rewrite public_key_ok in Hpub by done.
  assert (pub = encode (zmul (num sec) B)) as -> by congruence.
  destruct (hash_to_ec_ok (encode (zmul (num sec) B))) as (Q & HQ).
  destruct (key_points pubs Hk) as (Ps & -> & HPs).
  rewrite list_lookup_fmap in Hsi. apply fmap_Some in Hsi as (P & HP & EP).
  apply list_elem_of_split_length in HP as (pre & post & -> & ->).
  apply Forall_app in HPs as [Hpre [HP Hpost]%Forall_cons].
  rewrite length_fmap, length_app in D. cbn [length] in D.
  replace (2 * (length pre + S (length post)) - 1)%nat with (2 * length pre + S (2 * length post))%nat in D by lia.
  destruct (ring_verifies debug prefix sec Q pre post rng rng' Hs Hpre Hpost Hr HQ D) as (sigs & E1 & E2).
  exists (encode (zmul (num sec) Q)), sigs. split; [by apply generate_key_image_ok|].
  assert (encode <$> pre ++ P :: post = encode <$> pre ++ zmul (num sec) B :: post) as ->.
  { rewrite !fmap_app, !fmap_cons. by rewrite EP. }
  exact (conj E1 E2).
Qed.


Lemma encoded_key P : on_curve P -> scalar (encode P) /\ check_key (encode P) = Some true.
Proof. intros HP. exact (conj (encode_scalar P) (check_key_ok P HP)). Qed.

Lemma draw_sevens n : draw n (replicate n key_7) = Some [].
Proof.
  assert (scalar_ok key_7 = true) as E1 by by_eval. assert (sc_reduce32 key_7 = Some key_7) as E2 by by_eval.
  induction n as [|n IH]; [done|]. cbn [replicate draw random_scalar]. rewrite E1, E2. do 2 go. exact IH.
Qed.

Lemma sevens n : Forall scalar (replicate n key_7).
Proof. apply Forall_replicate, key_7_valid. Qed.

(** A ring of the keys of 7, 5 and 7, signed with 5. *)
Lemma ring_signature_verifies_witness : exists pub5 pub7 image sigs,
  @generate_ring_signature keccak_fast_hash true key_7 image [pub7; pub5; pub7] key_5 1 (replicate 5 key_7)
    = Some (sigs, [])
  /\ @check_ring_signature keccak_fast_hash true key_7 image [pub7; pub5; pub7] sigs = Some true.
Proof.
  pose proof (public_key_ok key_5 key_5_valid) as E5.
  set (P5 := zmul (num key_5) B) in E5. set (P7 := zmul (num key_7) B).
  assert (on_curve P5) as H5 by apply zmul_curve, B_curve.
  assert (on_curve P7) as H7 by apply zmul_curve, B_curve.
  destruct (@ring_signature_verifies keccak_fast_hash true key_7 [encode P7; encode P5; encode P7] key_5 1
    (encode P5) (replicate 5 key_7) [] key_5_valid E5 eq_refl) as (image & sigs & _ & E1 & E2).
  - exact (Forall_cons_2 _ _ _ (encoded_key P7 H7) (Forall_cons_2 _ _ _ (encoded_key P5 H5)
      (Forall_cons_2 _ _ _ (encoded_key P7 H7) (Forall_nil_2 _)))).
  - exact (sevens 5).
  - exact (draw_sevens 5).
  - exists (encode P5), (encode P7), image, sigs. exact (conj E1 E2).
Defined.

End RingSig.
