(* ===== verification/RctOps.v ===== *)
(** * Keys, commitments and amounts of ring confidential transactions

    src/ringct/rctTypes.cpp (the conversions of amounts) and
    src/ringct/rctOps.cpp (scalar multiples, sums of keys, Pedersen commitments,
    hashing to scalars and points, the encryption of amounts), over the curve
    arithmetic of Ge and ScalarMult.  The theorems
    say what each operation computes on the curve, that H2 holds the powers of
    two of H, that commitments add up, and that amounts come back from every
    conversion and from their encryption. *)

From S2P Require Import Prelude Result Keccak Varint Limbs Primality Scalar Fe Ge Curve Points HashPoint BaseData Recode ScalarMult BaseTable Order Multiples Crypto RingSig.
Import Keccak Varint Limbs Scalar Fe Ge Curve Points HashPoint BaseData ScalarMult BaseTable Order Multiples Crypto RingSig Result.

Module RctOps.

(** ** The conversions of amounts (rctTypes.cpp) *)

(** [fuel] bounds the bytes of the value; [None] when it is not enough. *)
Fixpoint d2h_loop (fuel : nat) (amounth : bytes) (i : nat) (val : Z) : option bytes :=
  if val =? 0 then Some amounth else
  match fuel with
  | 0%nat => None
  | S fuel => d2h_loop fuel (<[i := Z.land val 0xFF]> amounth) (S i) (val / 256)
  end.

(** Eight bytes are enough for 64 bits. *)
Definition d2h (amount : Z) : option bytes := d2h_loop 8 sc_0 0 amount.

Fixpoint d2b_loop (fuel : nat) (amountb : list Z) (val : Z) : option (list Z) :=
  if val =? 0 then Some amountb else
  match fuel with
  | 0%nat => None
  | S fuel => d2b_loop fuel (amountb ++ [Z.land val 1]) (val ≫ 1)
  end.

(** The bits written by the first loop, and the zeros of the second. *)
Definition d2b (val : Z) : option (list Z) :=
  l ← d2b_loop 64 [] val; Some (l ++ replicate (64 - length l) 0).

Definition h2d (test : bytes) : Z :=
  foldr (fun b vali => u64 (vali * 256 + b)) 0 (take 8 test).

Definition b2d (amountb : list Z) : Z :=
  foldr (fun b vali => u64 (vali * 2 + b)) 0 amountb.

(** The bits of one byte, padded to eight. *)
Definition h2b (test : bytes) : option (list Z) :=
  l ← mapM (fun val => l ← d2b_loop 8 [] val; Some (l ++ replicate (8 - length l) 0)) (take 8 test);
  Some (concat l).

(** One byte of eight bits, then 24 zero bytes. *)
Definition b2h (amountb : list Z) : bytes :=
  map (fun j => u8 (foldr (fun b byte => byte * 2 + b) 0 (take 8 (drop (8 * j) amountb)))) (seq 0 8)
  ++ replicate 24 0.

(** ** Constants *)

Definition Zero : bytes := replicate 32 0.
Definition Identity : bytes := 1 :: replicate 31 0.
Definition CurveOrder : bytes := 
  [237; 211; 245; 92; 26; 99; 18; 88; 214; 156; 247; 162; 222; 249; 222; 20; 0; 0; 0; 0; 0; 0; 0; 0; 0; 0;
  0; 0; 0; 0; 0; 16].
Definition G : bytes := 0x58 :: replicate 31 0x66.
Definition EIGHT : bytes := 8 :: replicate 31 0.
Definition INV_EIGHT : bytes :=
  [121; 47; 220; 226; 41; 229; 6; 97; 208; 218; 28; 125; 179; 157; 211; 7; 0; 0; 0; 0; 0; 0; 0; 0; 0; 0; 0;
  0; 0; 0; 0; 6].

Definition H : bytes :=
  [139; 101; 89; 112; 21; 55; 153; 175; 42; 234; 220; 159; 241; 173; 208; 234; 108; 114; 81; 213; 65; 84;
  207; 169; 44; 23; 58; 13; 211; 156; 31; 148].

Definition H2 : list bytes :=
  [
   [139; 101; 89; 112; 21; 55; 153; 175; 42; 234; 220; 159; 241; 173; 208; 234; 108; 114; 81; 213; 65; 84;
   207; 169; 44; 23; 58; 13; 211; 156; 31; 148];
   [143; 170; 68; 138; 228; 179; 226; 187; 61; 77; 19; 9; 9; 245; 95; 205; 121; 113; 28; 28; 131; 205; 188;
   202; 221; 66; 203; 225; 81; 94; 135; 18];
   [18; 167; 214; 44; 119; 145; 101; 74; 87; 243; 230; 118; 148; 237; 80; 180; 154; 125; 158; 63; 193; 228;
   199; 160; 189; 226; 157; 24; 126; 156; 199; 29];
   [120; 154; 185; 147; 75; 73; 196; 249; 230; 120; 92; 109; 87; 164; 152; 179; 234; 212; 67; 240; 79; 19;
   223; 17; 12; 84; 39; 180; 242; 20; 199; 57];
   [119; 30; 146; 153; 217; 79; 2; 172; 114; 227; 142; 68; 222; 86; 138; 193; 220; 178; 237; 198; 237; 182;
   31; 131; 202; 65; 142; 16; 119; 206; 61; 232];
   [115; 185; 109; 180; 48; 57; 129; 155; 218; 245; 104; 14; 92; 50; 215; 65; 72; 136; 132; 209; 141; 147;
   134; 109; 64; 116; 168; 73; 24; 42; 138; 100];
   [141; 69; 142; 28; 47; 104; 235; 235; 204; 210; 253; 93; 55; 159; 94; 88; 248; 19; 77; 243; 224; 232;
   140; 173; 61; 70; 112; 16; 99; 168; 212; 18];
   [9; 85; 30; 219; 228; 148; 65; 142; 129; 40; 68; 85; 214; 75; 53; 238; 138; 192; 147; 6; 138; 95; 22;
   31; 166; 99; 117; 89; 23; 126; 244; 4];
   [208; 90; 136; 102; 244; 223; 140; 238; 30; 38; 139; 29; 35; 164; 197; 140; 146; 231; 96; 48; 151; 134;
   205; 172; 15; 237; 161; 210; 71; 169; 201; 167];
   [85; 205; 170; 213; 24; 189; 135; 29; 209; 235; 123; 199; 2; 62; 29; 192; 253; 243; 51; 152; 100; 248;
   143; 221; 45; 226; 105; 254; 158; 225; 131; 45];
   [231; 105; 126; 149; 26; 152; 207; 213; 113; 43; 132; 187; 229; 243; 78; 215; 51; 233; 71; 63; 203; 104;
   237; 166; 110; 55; 136; 223; 25; 88; 195; 6];
   [249; 42; 151; 11; 174; 114; 120; 41; 137; 191; 200; 58; 223; 170; 146; 164; 244; 156; 126; 149; 145;
   139; 59; 186; 60; 220; 127; 232; 138; 204; 141; 71];
   [31; 102; 194; 212; 145; 215; 90; 249; 21; 200; 219; 106; 109; 28; 176; 205; 79; 125; 220; 213; 230; 61;
   59; 169; 184; 60; 134; 108; 57; 239; 58; 43];
   [62; 236; 152; 132; 180; 63; 88; 233; 62; 248; 222; 234; 38; 0; 4; 239; 234; 42; 70; 52; 79; 197; 150;
   91; 26; 125; 213; 209; 137; 151; 239; 167];
   [178; 159; 143; 12; 203; 150; 151; 127; 231; 119; 212; 137; 214; 190; 158; 126; 188; 25; 196; 9; 181;
   16; 53; 104; 242; 119; 97; 29; 126; 168; 72; 148];
   [86; 177; 245; 18; 101; 185; 85; 152; 118; 213; 141; 36; 157; 12; 20; 109; 105; 161; 3; 99; 102; 153;
   135; 77; 63; 144; 71; 53; 80; 254; 63; 44];
   [29; 122; 54; 87; 94; 34; 245; 209; 57; 255; 156; 197; 16; 250; 19; 133; 5; 87; 107; 99; 129; 90; 148;
   228; 176; 18; 191; 212; 87; 202; 170; 218];
   [208; 172; 80; 122; 134; 78; 205; 5; 147; 250; 103; 190; 125; 35; 19; 67; 146; 208; 14; 64; 7; 226; 83;
   72; 120; 217; 178; 66; 225; 13; 118; 32];
   [246; 198; 132; 11; 156; 241; 69; 187; 45; 204; 248; 110; 148; 11; 224; 252; 9; 142; 50; 227; 16; 153;
   213; 111; 127; 224; 135; 189; 93; 235; 80; 148];
   [40; 131; 26; 51; 64; 7; 14; 177; 219; 135; 193; 46; 5; 152; 13; 95; 51; 233; 239; 144; 248; 58; 72; 23;
   201; 244; 160; 163; 50; 39; 225; 151];
   [135; 99; 34; 115; 214; 41; 204; 183; 225; 237; 26; 118; 143; 162; 235; 213; 23; 96; 243; 46; 28; 11;
   134; 122; 93; 54; 141; 82; 113; 5; 92; 110];
   [92; 123; 41; 66; 67; 71; 150; 77; 4; 39; 85; 23; 197; 174; 20; 182; 181; 234; 39; 152; 181; 115; 252;
   148; 230; 228; 74; 83; 33; 96; 12; 251];
   [230; 148; 80; 66; 215; 139; 194; 195; 189; 110; 197; 140; 81; 26; 159; 232; 89; 192; 173; 99; 253; 228;
   148; 245; 3; 158; 14; 130; 50; 97; 43; 213];
   [54; 213; 105; 7; 226; 236; 116; 93; 182; 229; 79; 11; 46; 27; 35; 0; 171; 203; 66; 46; 113; 45; 165;
   136; 164; 13; 63; 30; 187; 190; 2; 246];
   [52; 219; 110; 228; 208; 96; 142; 95; 120; 54; 80; 73; 90; 59; 47; 82; 115; 197; 19; 78; 82; 132; 228;
   253; 249; 102; 39; 187; 22; 227; 30; 107];
   [142; 118; 89; 251; 69; 163; 120; 125; 103; 74; 232; 103; 49; 250; 162; 83; 142; 192; 253; 244; 66; 171;
   38; 233; 199; 145; 250; 218; 8; 148; 103; 233];
   [48; 6; 207; 25; 139; 36; 243; 27; 180; 199; 230; 52; 96; 0; 171; 199; 1; 232; 39; 207; 187; 93; 245;
   45; 207; 164; 46; 156; 169; 255; 8; 2];
   [245; 253; 64; 60; 182; 232; 190; 33; 71; 46; 55; 127; 253; 128; 90; 140; 96; 131; 234; 72; 3; 184; 72;
   83; 137; 204; 62; 188; 33; 95; 0; 42];
   [55; 49; 178; 96; 235; 63; 148; 130; 228; 95; 28; 63; 59; 157; 207; 131; 75; 117; 230; 238; 248; 196;
   15; 70; 30; 162; 126; 139; 110; 217; 71; 61];
   [159; 157; 171; 9; 195; 245; 228; 40; 85; 194; 222; 151; 27; 101; 147; 40; 162; 219; 196; 84; 132; 95;
   57; 111; 252; 5; 63; 11; 177; 146; 248; 195];
   [94; 5; 93; 37; 248; 95; 219; 152; 242; 115; 228; 175; 224; 132; 100; 192; 3; 183; 15; 30; 240; 103;
   123; 181; 226; 87; 6; 64; 11; 230; 32; 165];
   [134; 139; 207; 54; 121; 203; 107; 80; 11; 148; 65; 140; 11; 137; 37; 249; 134; 85; 48; 48; 58; 228;
   228; 178; 98; 89; 24; 101; 102; 106; 69; 144];
   [179; 219; 107; 211; 137; 122; 251; 209; 223; 63; 150; 68; 171; 33; 200; 5; 14; 31; 0; 56; 165; 47; 124;
   169; 90; 192; 195; 222; 117; 88; 203; 122];
   [129; 25; 179; 160; 89; 255; 44; 172; 72; 62; 105; 188; 212; 29; 109; 39; 20; 148; 71; 145; 66; 136;
   187; 234; 238; 52; 19; 230; 220; 198; 209; 235];
   [16; 252; 88; 243; 95; 199; 254; 122; 232; 117; 82; 75; 181; 133; 0; 3; 0; 91; 127; 151; 140; 12; 101;
   226; 169; 101; 70; 75; 109; 0; 129; 156];
   [90; 205; 148; 235; 60; 87; 131; 121; 193; 234; 88; 163; 67; 236; 79; 207; 249; 98; 119; 111; 227; 85;
   33; 228; 117; 160; 224; 109; 136; 123; 45; 185];
   [51; 218; 243; 162; 20; 214; 224; 212; 45; 35; 0; 167; 180; 75; 57; 41; 13; 184; 152; 155; 66; 121; 116;
   205; 134; 93; 176; 17; 5; 90; 41; 1];
   [207; 198; 87; 47; 41; 175; 209; 100; 164; 148; 230; 78; 111; 26; 235; 130; 12; 62; 125; 163; 85; 20;
   78; 81; 36; 163; 145; 208; 110; 159; 149; 234];
   [213; 49; 42; 75; 14; 246; 21; 163; 49; 246; 53; 44; 46; 210; 29; 172; 158; 124; 54; 57; 139; 147; 154;
   236; 144; 28; 37; 127; 108; 188; 158; 142];
   [85; 29; 103; 254; 252; 123; 91; 159; 159; 219; 246; 175; 87; 201; 108; 138; 116; 215; 228; 90; 0; 32;
   120; 167; 181; 186; 69; 198; 253; 233; 62; 51];
   [213; 10; 199; 189; 92; 165; 147; 198; 86; 146; 143; 56; 66; 128; 23; 252; 123; 165; 2; 133; 76; 67;
   216; 65; 73; 80; 233; 110; 203; 64; 93; 195];
   [7; 115; 225; 142; 161; 190; 68; 254; 26; 151; 226; 57; 87; 60; 250; 227; 228; 233; 94; 249; 170; 159;
   170; 190; 172; 18; 116; 211; 173; 38; 22; 4];
   [233; 175; 14; 124; 168; 147; 48; 210; 184; 97; 93; 27; 65; 55; 202; 97; 126; 33; 41; 127; 47; 13; 237;
   142; 49; 183; 210; 234; 216; 113; 70; 96];
   [123; 18; 69; 131; 9; 127; 16; 41; 160; 199; 65; 145; 254; 115; 120; 201; 16; 90; 204; 112; 102; 149;
   237; 20; 147; 187; 118; 3; 66; 38; 165; 123];
   [236; 64; 5; 123; 153; 84; 118; 101; 11; 61; 185; 142; 157; 183; 87; 56; 168; 205; 47; 148; 216; 99;
   185; 6; 21; 12; 86; 170; 193; 156; 170; 107];
   [1; 217; 255; 114; 158; 253; 57; 216; 55; 132; 192; 254; 89; 196; 174; 129; 166; 112; 52; 203; 83; 201;
   67; 251; 129; 139; 157; 138; 231; 252; 51; 229];
   [0; 223; 179; 198; 150; 50; 140; 118; 66; 69; 25; 167; 190; 254; 142; 15; 108; 118; 249; 71; 181; 39;
   103; 145; 109; 36; 130; 63; 115; 91; 175; 46];
   [70; 27; 121; 155; 77; 156; 238; 168; 213; 128; 220; 183; 109; 17; 21; 13; 83; 94; 22; 57; 209; 96; 3;
   195; 251; 126; 157; 31; 209; 48; 131; 168];
   [238; 3; 3; 148; 121; 229; 34; 143; 220; 85; 28; 189; 231; 7; 157; 52; 18; 234; 24; 106; 81; 124; 204;
   99; 228; 110; 159; 204; 228; 254; 58; 108];
   [168; 207; 181; 67; 82; 78; 127; 2; 185; 240; 69; 172; 213; 67; 194; 28; 55; 59; 76; 155; 152; 172; 32;
   206; 196; 23; 166; 221; 181; 116; 78; 148];
   [147; 43; 121; 75; 248; 156; 110; 218; 245; 208; 101; 12; 124; 75; 173; 146; 66; 178; 86; 38; 227; 126;
   173; 90; 167; 94; 200; 198; 78; 9; 221; 79];
   [22; 177; 12; 119; 156; 229; 207; 239; 89; 199; 113; 13; 46; 104; 68; 30; 166; 250; 203; 104; 233; 181;
   247; 213; 51; 174; 11; 183; 142; 40; 191; 87];
   [15; 119; 199; 103; 67; 231; 57; 111; 153; 16; 19; 159; 73; 55; 216; 55; 174; 84; 226; 16; 56; 172; 92;
   11; 63; 214; 239; 23; 26; 40; 167; 228];
   [215; 229; 116; 183; 185; 82; 242; 147; 232; 13; 222; 144; 94; 181; 9; 55; 63; 63; 108; 209; 9; 160; 34;
   8; 179; 193; 233; 36; 8; 10; 32; 202];
   [69; 102; 111; 140; 56; 30; 61; 166; 117; 86; 63; 248; 186; 35; 248; 59; 250; 195; 12; 52; 171; 221;
   230; 229; 192; 151; 94; 249; 253; 112; 12; 185];
   [178; 70; 18; 228; 84; 96; 126; 177; 171; 164; 71; 248; 22; 209; 164; 85; 30; 249; 95; 167; 36; 127;
   183; 193; 245; 3; 2; 10; 113; 119; 240; 221];
   [126; 32; 136; 97; 133; 109; 164; 44; 139; 180; 106; 117; 103; 248; 18; 19; 98; 217; 251; 36; 150; 241;
   49; 164; 170; 144; 23; 207; 54; 108; 223; 206];
   [91; 100; 107; 255; 106; 209; 16; 1; 101; 3; 122; 5; 86; 1; 234; 2; 53; 140; 15; 65; 5; 15; 157; 254;
   60; 149; 220; 203; 211; 8; 123; 224];
   [116; 109; 29; 204; 254; 210; 240; 255; 30; 19; 197; 30; 45; 80; 213; 50; 67; 117; 251; 213; 191; 124;
   168; 42; 137; 49; 130; 141; 128; 29; 67; 171];
   [203; 152; 17; 13; 74; 107; 185; 125; 34; 254; 173; 188; 108; 13; 137; 48; 197; 248; 252; 80; 139; 47;
   197; 179; 83; 40; 210; 107; 136; 219; 25; 174];
   [96; 182; 38; 160; 51; 181; 95; 39; 215; 103; 108; 64; 149; 234; 186; 188; 122; 44; 126; 222; 38; 36;
   180; 114; 233; 127; 100; 249; 107; 140; 252; 14];
   [229; 181; 43; 201; 39; 70; 141; 247; 24; 147; 235; 129; 151; 239; 130; 12; 247; 108; 176; 170; 246;
   232; 228; 254; 147; 173; 98; 216; 3; 152; 49; 4];
   [5; 101; 65; 174; 93; 169; 150; 27; 226; 176; 165; 232; 149; 229; 197; 186; 21; 60; 187; 98; 221; 86;
   26; 66; 123; 173; 15; 253; 65; 146; 49; 153];
   [248; 254; 240; 90; 63; 165; 201; 243; 235; 164; 22; 56; 178; 71; 183; 17; 169; 159; 150; 15; 231; 58;
   162; 249; 1; 54; 174; 178; 3; 41; 184; 136]].

(** ** Scalar multiples *)

(** rctCryptoOps.c has its own copy of sc_reduce32. *)
Definition sc_reduce32copy (s : bytes) : option bytes := w ← words_32 s; finish round_steps (w ++ [0]).

Definition decode (P : bytes) : result ge_p3 :=
  let* r := lift (ge_frombytes_vartime P) in
  match r with inl _ => throw | inr A => ret A end.

Definition scalarmultBase (a : bytes) : result bytes :=
  let* aG := lift (sc_reduce32copy a) in
  let* point := lift (ge_scalarmult_base ge_base aG) in
  lift (ge_p3_tobytes point).

Definition scalarmultKey (P a : bytes) : result bytes :=
  let* A := decode P in
  let* R := lift (ge_scalarmult a A) in
  lift (ge_tobytes R).

Definition scalarmult8 (P : bytes) : result bytes :=
  let* p3 := decode P in
  let* p1 := lift (ge_mul8 (ge_p3_to_p2 p3)) in
  let* p2 := lift (ge_p1p1_to_p2 p1) in
  lift (ge_tobytes p2).

Definition scalarmultH (a : bytes) : result bytes :=
  let* A := decode H in
  let* R := lift (ge_scalarmult a A) in
  lift (ge_tobytes R).

(** ** Sums *)

Definition addKeys (A B : bytes) : result bytes :=
  let* B2 := decode B in
  let* A2 := decode A in
  let* tmp2 := lift (ge_p3_to_cached B2) in
  let* tmp3 := lift (ge_add A2 tmp2) in
  let* A2 := lift (ge_p1p1_to_p3 tmp3) in
  lift (ge_p3_tobytes A2).

Fixpoint addKeys_loop (p3 : ge_p3) (A : list bytes) : result ge_p3 :=
  match A with
  | [] => ret p3
  | k :: A =>
      let* tmp := decode k in
      let* p2 := lift (ge_p3_to_cached tmp) in
      let* p1 := lift (ge_add p3 p2) in
      let* p3 := lift (ge_p1p1_to_p3 p1) in
      addKeys_loop p3 A
  end.

Definition addKeysV (A : list bytes) : result bytes :=
  match A with
  | [] => ret Identity
  | k :: A =>
      let* p3 := decode k in
      let* p3 := addKeys_loop p3 A in
      lift (ge_p3_tobytes p3)
  end.

Definition addKeys1 (a B : bytes) : result bytes :=
  let* aG := scalarmultBase a in addKeys aG B.

Definition addKeys2 (a b B : bytes) : result bytes :=
  let* B2 := decode B in
  let* rv := lift (ge_double_scalarmult_base_vartime ge_Bi b B2 a) in
  lift (ge_tobytes rv).

Definition precomp (B : bytes) : result (list ge_cached) :=
  let* B2 := decode B in lift (ge_dsm_precomp B2).

Definition addKeys3 (a A b : bytes) (B : list ge_cached) : result bytes :=
  let* A2 := decode A in
  let* rv := lift (ge_double_scalarmult_precomp_vartime a A2 b B) in
  lift (ge_tobytes rv).

Definition addKeys3_2 (a : bytes) (A : list ge_cached) (b : bytes) (B : list ge_cached) : result bytes :=
  let* rv := lift (ge_double_scalarmult_precomp_vartime2 a A b B) in
  lift (ge_tobytes rv).

Definition subKeys (A B : bytes) : result bytes :=
  let* B2 := decode B in
  let* A2 := decode A in
  let* tmp2 := lift (ge_p3_to_cached B2) in
  let* tmp3 := lift (ge_sub A2 tmp2) in
  let* A2 := lift (ge_p1p1_to_p3 tmp3) in
  lift (ge_p3_tobytes A2).

Fixpoint sumKeys_loop (Csum : bytes) (Cis : list bytes) : result bytes :=
  match Cis with
  | [] => ret Csum
  | C :: Cis => let* Csum := addKeys Csum C in sumKeys_loop Csum Cis
  end.

Definition sumKeys (Cis : list bytes) : result bytes := sumKeys_loop Identity Cis.

(** Every byte is compared. *)
Fixpoint equalKeys (a b : bytes) : bool :=
  match a, b with
  | x :: a, y :: b => let rv := equalKeys a b in if negb (x =? y) then false else rv
  | _, _ => true
  end.

(** ** Random keys and commitments *)

Definition skGen (rng : randomness) : result (bytes * randomness) := lift (random_scalar rng).

Fixpoint skv_loop (rows : nat) (rng : randomness) : result (list bytes * randomness) :=
  match rows with
  | 0%nat => ret ([], rng)
  | S rows =>
      let* (sk, rng) := skGen rng in
      let* (rv, rng) := skv_loop rows rng in
      ret (sk :: rv, rng)
  end.

Definition skvGen (rows : nat) (rng : randomness) : result (list bytes * randomness) :=
  let* _ := ensure (Nat.ltb 0 rows) in skv_loop rows rng.

Definition skpkGen (rng : randomness) : result (bytes * bytes * randomness) :=
  let* (sk, rng) := skGen rng in
  let* pk := scalarmultBase sk in
  ret (sk, pk, rng).

Definition genC (a : bytes) (amount : Z) : result bytes :=
  let* am := lift (d2h amount) in
  let* bH := scalarmultH am in
  addKeys1 a bH.

Record ctkey := Ct { dest : bytes; mask : bytes }.

(** The secret and the public pair. *)
Definition ctskpkGen (amount : Z) (rng : randomness) : result (ctkey * ctkey * randomness) :=
  let* (sk_dest, pk_dest, rng) := skpkGen rng in
  let* (sk_mask, pk_mask, rng) := skpkGen rng in
  let* am := lift (d2h amount) in
  let* bH := scalarmultH am in
  let* pk_mask := addKeys pk_mask bH in
  ret (Ct sk_dest sk_mask, Ct pk_dest pk_mask, rng).

Definition zeroCommit (amount : Z) : result bytes :=
  let* am := lift (d2h amount) in
  let* bH := scalarmultH am in
  addKeys G bH.

Definition commit (amount : Z) (mask : bytes) : result bytes :=
  let* c := scalarmultBase mask in
  let* am := lift (d2h amount) in
  let* bH := scalarmultH am in
  addKeys c bH.

(** ** Hashing *)

Section hashing.

Context `{HF : !FastHash}.

Definition hash_keys (keys : list bytes) : result bytes := lift (sc_reduce32 (fast_hash (concat keys))).

Definition hashToPoint (hh : bytes) : result bytes :=
  let* point := lift (ge_fromfe_frombytes_vartime (fast_hash hh)) in
  let* point2 := lift (ge_mul8 point) in
  let* res := lift (ge_p1p1_to_p3 point2) in
  lift (ge_p3_tobytes res).

Definition hashToPointSimple (hh : bytes) : result bytes :=
  let* res := decode (fast_hash hh) in
  let* point2 := lift (ge_mul8 (ge_p3_to_p2 res)) in
  let* res := lift (ge_p1p1_to_p3 point2) in
  lift (ge_p3_tobytes res).

(** The mask and the amount. *)
Definition ecdhEncode (mask amount sharedSec : bytes) : result (bytes * bytes) :=
  let* sharedSec1 := hash_keys [sharedSec] in
  let* sharedSec2 := hash_keys [sharedSec1] in
  let* mask := lift (sc_add mask sharedSec1) in
  let* amount := lift (sc_add amount sharedSec2) in
  ret (mask, amount).

Definition ecdhDecode (mask amount sharedSec : bytes) : result (bytes * bytes) :=
  let* sharedSec1 := hash_keys [sharedSec] in
  let* sharedSec2 := hash_keys [sharedSec1] in
  let* mask := lift (sc_sub mask sharedSec1) in
  let* amount := lift (sc_sub amount sharedSec2) in
  ret (mask, amount).

End hashing.

(** ** The points H and H2 *)

(** H is eight times this point, whose double and quadruple follow. *)
Definition H_eighth : list point :=
  [(194129706910276654339533937762735305852251091580280626372855340470716838662,
    13995546444385116360851220937039844429059978342152102848046484055039135621071);
   (21888523662485334103147505617610736993609042397079160682194210623946441428470,
    8573590147062783950059284884234386560466282082186869296428590547960087412830);
   (50725594864621355881006524847821327804102436609822817917271875876126767698189,
    17418346341671896080016483019606797682727949078726514330466768796091191582492)].

Definition H2_points : list point :=
  [(44115840154693352731557989475342686826820046586146704265789981914775973517427,
    9102111593045260626123023279363907201838477468971026384621755002289944880523);
   (21887502907852327512161645864292694872593502520628969212237600592913256965730,
    8380806599935037659242354410495348749617971758331606941101710285428916267663);
   (41588944903280473071715959327419035112949396200362177688321681581243820540558,
    13469755246781448545577725721178015662878663671798353753790128663488517023506);
   (24462944360703661855804003447120648570478666629264811155506725847509989995922,
    26133579513343503108930451451673578894985231419769096015319839170123187985016);
   (34736432599419345002075668718594423595422573033361693832907570018378399496671,
    47149738893335795882641034422109005694697010491033650766819795722713265479287);
   (5035696844832586922582584478686745869458741122240005196150197282005161362970,
    45475400281408436382554710876136214493265265097268905794334984872261413878131);
   (8791637206177435063168150332781165970727062219171811828526002389578666362064,
    8517365016383976998344779532224037173774186957162897327764185246023969293709);
   (44882878918884453110191118899098714916143033732634125371304788157271779206644,
    2241232327678545381844318609678803585305602763894623640101444518367008281865);
   (9217263585868509733179310401531949339824061003410897985333169323893767985271,
    17996505686238859121320703285315836481924547126788067416773051721428257757904);
   (11587341316027925284725312109808036020833103907048540189469990259331159815446,
    20587092331125437144971741108927105208556364301733708309137538310051354824021);
   (18879868485482183688684621164973113391561606989557349041600957441324455033754,
    3059020320349244796091823329850849009066332517233820599273247430003870558695);
   (50259519091485564485983747384794324295397414505792154678243150646008888335476,
    32364749386758101451140655407938184327260798572173506254847546143679064779513);
   (51618184371412130469615831305363325329491083088823469136159919609849188902024,
    19553580684360393441793788942229395684286311081675642623553136407932553029151);
   (38929998764697060194418013299181021077952701918395182302407844398238865403721,
    18063523422538574885211343078462876657648147418075432440189707909468259937342);
   (10592985877495640278334570871017595565539287443799705470236513782422631798613,
    9174632853763065006037623457445625872547509807654369126025346480563551182770);
   (25884405003252739968463371498281045756666351093484082674290227293988877761582,
    20014831908723568437205990049671135734031552393800925299350582469150469632342);
   (3291915927713039657947548124417918068232598885629581504755257116635916178065,
    41009916894188520737224725386240718313642769103173529128589204475055040789021);
   (41482334082649911855993915686640811685047202292827534739050733420351955806778,
    14682594904023067828567242372238919699297461967897932685625856047890383809744);
   (3569141040624645068746432076217476712207222541635567318112696561217766065639,
    9189229174474053999555599169525451572440335566133621720400262164051193546486);
   (54750502050501753812678189337729024042148318881833874548923784748270879941565,
    10801006640327238675681191643296452702505757370064023216114932518926402880296);
   (5247231924602377698414268984380571186873117197006503179428150175115377374068,
    49917000838018320734124938263496045831154704689929029290001309561954895029127);
   (10950877724520631727960704505986790897793390731077029035960349829294825813919,
    55656346006618368164029886767950390908990627747532195678428643952492374752092);
   (7527321546596294066994481046354532233444903083400383625596677997965962759135,
    38523237384452696684051006711071552178519763487843323838011847651071030760678);
   (14609051779384522541379836316961019298521571006742426699820281553247851110499,
    53377766203456214930824987429281935052023989146632560341167853653435529942326);
   (25712737277381317502381222081738918858081063803048947018506350394000491098090,
    48452047519602010909485358955575340098368855527718301286093530712983871609652);
   (56745973156249230477345160724644945505181100145856305072418898933968892833151,
    47675856046115200585246327266881175827323150401525950745679489837629827544718);
   (26092861902412766090151769103920569442302326551656930625959149842047394260302,
    920524991682083834637566752972237121538246649531578272410433145053056534064);
   (11300693936289462366426195910590205602758794849889940179723509944180797690228,
    18997796215902918262903849784237444308917734703566693761471542166756809309685);
   (7501406001513012941475442530835326218194630505827839143568248608989912119242,
    27718030564420404366564633025373281792982065849215087937739233108982844502327);
   (30313005916617871165024799884883088390663758017258171648842049189328948035839,
    30744151355205440367104589637644448949482849586467749735882098206550560316831);
   (54214202598270634349100642072215201520275741979371807405492429666818868356773,
    16793702208615535986996218703145205182810444946186640957136370747531629233502);
   (37693415674051507939458837795304125420846316407653517513227846849425015451605,
    7359652370475848704737744193336247084213864110678923365119031078858253110150);
   (23675740566217078065331237104817060634389702901902215507010974982589696778616,
    55541448012760645225477627932035569625035623413518798681054971778470368762803);
   (14786124139470644446052311911977488163431587522776322069828567173430325550723,
    48768118336142845476498829712720347648956979202431490569663733682196444289409);
   (20027674157896164542028949596442834585218758717894754530997152123736853202695,
    12892685978249438744407815477155090628881634988635094827588881336968733588496);
   (38818776264814999839963375071064556699991834324735983732858720088307303445395,
    25862193080086059301128034074983348431306774527930247534559007383861058653530);
   (26206382071772616819207860000139758588484236835011523110014274059570025078990,
    525374872072986082675402662247118529128740877812324102487091471282624256563);
   (53882365347687183258723835152445537651541374828017136972102483984710834009243,
    48209522527706357885026109833628075522519679322807880844734363490031502870223);
   (45222167229104647935925341757756639547446992779060613648256871938244179689057,
    6612842169778078702593216454450408418240153203728130898521671817811385266645);
   (33601519402444205932399168378052812384555308175320541519174369541304431348722,
    23179114744408673360674130786102219131320371779551521504884735947722503691605);
   (57885782755842964124280904968679451692808149307755925597289054641053881463829,
    30469724828418937530217966965078903955929630305127246112787138774506592996053);
   (32548187706008030095668147385514017088947192485818319199623486042079246458804,
    1848388982458784650678041648906300240430059942523868902285823907117337244423);
   (38566599956840716636498396927346419529891388523257095161520543366051670653392,
    43546498503943487245602490304831762341140955671360180708436738855512304431081);
   (26407919742309165130375379224703184433330062605849452015480527798190316927098,
    55926274187512637937774297991634032291731867476355630847582736078034084106875);
   (10383970808100680711490195590234212608269322052068566023141708319429332944322,
    48698920693060122326876837536122980264315020114525020763174210031452705603820);
   (45128217331626823137667721595838469940795571629692694682223043441516347986013,
    45775452389638580644817734186989724670430731963079417008475785808437563087105);
   (4626052601440559751628561634009120432073528219788518720301170861156181499782,
    21116220437166107597249215771434047736317736811653624729112225910373261500160);
   (42491102085280442140455972991286696349342346712520285398757936412865369859545,
    18324307830599594413781844327573459966402146073978984172248232610070630308678);
   (34581581910632685795112715522164427366537929724553976482899422296357749086780,
    48954023988739135652333029119069144767953633928241122424393112027512111825902);
   (21960340388546908497137605632632749441948289041688609485711936459222387895739,
    9184876548386959297660286948477166714858821017394776293995494736567796617128);
   (11272421235488258710216428370389040479708689066957703461126893105171939720170,
    36123252478921289852070452883535065623416689792644114218130671509222062631827);
   (24092555184938333255092807336085475413918900663969849757599382821893946019178,
    39688965533560099998848918807953499724625194633674224159406284567524041077014);
   (11997797821102804949559437063302155112044999668514310169081743090983625620633,
    45526625091477959874995192360903346030097906435424176071228457764777949099791);
   (1601509994602381693232066955736016673835590182393756443866306427216305044205,
    33527759138265066684390893531123324158164254483747502911425851362299436393943);
   (47598405048270600565808973951147953620873039818218316396118341995950734916175,
    25803814376742545922543717797070647956916425302858451486596221263918249502277);
   (5810446869357212116405138765904336925708528914857494985056076894857398781513,
    42489962569133779855350351965747243770408289953179469258824931019061367817906);
   (32398694467385399439278747822929578004944710001438265039609411086397047518509,
    35675155951192269902447606549766435676343098439232826906704150316775950000254);
   (43828441849322815424920851440893406270343586074240905519774360253147550390761,
    43639416576949973425680740178803156024246673773369369474360955725316847527003);
   (22350711686641628588738925764518902938852868854977073802542105596923039892113,
    19568034858840428396119332986218384382965067281020939695481349366332109188468);
   (11519816717622446605368503650678244339333777408591483277500126573213417424781,
    20852077371807276340093104651896567451344458097187900378642007709809089026251);
   (34961808490317700960686476548325904437057389410246908036107483865350438970346,
    6778594495956830138242848951118727554302151629421690359547004522149743867488);
   (37546361449045091621200096787086399396019829569202704782948661234707999140786,
    1896876069619807344118808568677515935735458068976729159042254008455036384741);
   (14838734574831445413200033939124225313862355756654344101289092931938177267537,
    11395406154769424536808168821497551060344428743054755586466583438961175258373);
   (34598669537142688881588211151981060077871242680471831086516226716531058598333,
    3943885719882666390496268436807454394155249399381326991627492339864388566776)].


(** ** Amounts *)

Definition amount_ok (amount : Z) : Prop := 0 <= amount < 2 ^ 64.

Lemma land_ones_mod k val : 0 <= k -> Z.land val (2 ^ k - 1) = val mod 2 ^ k.
Proof. intros. rewrite <- Z.land_ones by done. by rewrite Z.ones_equiv, Z.sub_1_r. Qed.

(** Writing digits from position [i] on, over zeros. *)
Lemma d2h_loop_ok fuel l i val :
  0 <= val < 256 ^ Z.of_nat fuel -> length l = (i + fuel)%nat ->
  forall rest, Forall (eq 0) (drop i l) ->
  d2h_loop fuel (l ++ rest) i val = Some (take i l ++ le_digits 256 fuel val ++ rest).
Proof.
  revert l i val. induction fuel as [|fuel IH]; intros l i val Hv Hl rest Hz; cbn [d2h_loop le_digits].
  - assert (val = 0) as -> by (cbn in Hv; lia). cbn [Z.eqb]. by rewrite take_ge by lia.
  - assert (val mod 256 = Z.land val 255) as ML by (symmetry; apply (land_ones_mod 8); lia).
    destruct (Z.eqb_spec val 0) as [->|N].
    + cbn [Z.div Z.modulo]. rewrite <- (take_drop i l) at 1. rewrite <- app_assoc. do 2 f_equal.
      assert (length (drop i l) = S fuel) as Ld by (rewrite length_drop; lia).
      destruct (drop i l) as [|z k] eqn:E; [done|]. apply Forall_cons in Hz as [<- Hz].
      cbn [app]. injection Ld as Ld. f_equal. rewrite Zdiv_0_l, le_digits_0 by lia. f_equal.
      symmetry. by apply replicate_as_Forall.
    + rewrite insert_app_l by lia. change 255 with 0xFF in ML. rewrite <- ML.
      rewrite (IH _ (S i) (val / 256)).
      * rewrite (take_S_r _ i (val mod 256)) by (apply list_lookup_insert_eq; lia).
        rewrite take_insert_ge by lia. by rewrite <- app_assoc.
      * split; [apply Z.div_pos; lia|]. apply Z.div_lt_upper_bound; [lia|].
        rewrite Nat2Z.inj_succ, Z.pow_succ_r in Hv by lia. lia.
      * rewrite length_insert. lia.
      * rewrite drop_insert_lt by lia. apply (Forall_drop _ 1) in Hz. by rewrite drop_drop, Nat.add_1_r in Hz.
Qed.

Lemma le_digits_add b n m x :
  0 < b -> le_digits b (n + m) x = le_digits b n x ++ le_digits b m (x / b ^ Z.of_nat n).
Proof.
  intros Hb. revert x. induction n as [|n IH]; intros x; [by rewrite Z.div_1_r|].
  cbn [Nat.add le_digits app]. f_equal. rewrite IH. do 2 f_equal.
  rewrite Nat2Z.inj_succ, Z.pow_succ_r, Z.div_div by lia. done.
Qed.

Lemma d2h_ok amount : amount_ok amount -> d2h amount = Some (le_digits 256 32 amount).
Proof.
  intros Ha. unfold d2h. change sc_0 with (replicate 8 0 ++ replicate 24 0).
  rewrite d2h_loop_ok; [|exact Ha|done|by apply Forall_replicate].
  cbn [take app]. do 2 f_equal. change 32%nat with (8 + 24)%nat. rewrite le_digits_add by lia.
  rewrite Z.div_small by exact Ha. by rewrite le_digits_0 by lia.
Qed.


Lemma d2b_loop_ok fuel l val :
  0 <= val < 2 ^ Z.of_nat fuel ->
  exists n, (n <= fuel)%nat /\ d2b_loop fuel l val = Some (l ++ le_digits 2 n val)
    /\ val < 2 ^ Z.of_nat n.
Proof.
  revert l val. induction fuel as [|fuel IH]; intros l val Hv; cbn [d2b_loop].
  - exists 0%nat. assert (val = 0) as -> by (cbn in Hv; lia). cbn [Z.eqb le_digits]. by rewrite app_nil_r.
  - destruct (Z.eqb_spec val 0) as [->|N].
    + exists 0%nat. cbn [le_digits]. rewrite app_nil_r. split_and!; [lia|done|done].
    + rewrite Nat2Z.inj_succ, Z.pow_succ_r in Hv by lia.
      change 1 with (2 ^ 1 - 1) at 1. rewrite land_ones_mod by lia. rewrite Z.shiftr_div_pow2 by lia. change (2 ^ 1) with 2.
      destruct (IH (l ++ [val mod 2]) (val / 2)) as (n & Hn & E & R); [split; [apply Z.div_pos|apply Z.div_lt_upper_bound]; lia|].
      exists (S n). split_and!; [lia| |].
      * rewrite E. cbn [le_digits]. by rewrite <- app_assoc.
      * rewrite Nat2Z.inj_succ, Z.pow_succ_r by lia. pose proof (Z.div_mod val 2 ltac:(lia)). pose proof (Z.mod_pos_bound val 2 ltac:(lia)). lia.
Qed.

Lemma d2b_pad fuel val :
  0 <= val < 2 ^ Z.of_nat fuel ->
  (l ← d2b_loop fuel [] val; Some (l ++ replicate (fuel - length l) 0)) = Some (le_digits 2 fuel val).
Proof.
  intros Hv. destruct (d2b_loop_ok fuel [] val Hv) as (n & Hn & -> & R). go. f_equal.
  rewrite app_nil_l, length_le_digits.
  replace fuel with (n + (fuel - n))%nat at 2 by lia. rewrite le_digits_add by lia.
  by rewrite (Z.div_small val), le_digits_0 by lia.
Qed.

Lemma d2b_ok amount : amount_ok amount -> d2b amount = Some (le_digits 2 64 amount).
Proof. intros Ha. by apply (d2b_pad 64). Qed.

(** Reading digits with a wrap to 64 bits at each step. *)
Lemma fold_digits b l :
  1 < b -> Forall (fun x => 0 <= x < b) l -> b ^ Z.of_nat (length l) <= 2 ^ 64 ->
  foldr (fun d vali => u64 (vali * b + d)) 0 l = le_val b l.
Proof.
  intros Hb F. induction F as [|x l Hx F IH]; intros L; cbn [foldr le_val]; [done|].
  cbn [length] in L. rewrite Nat2Z.inj_succ, Z.pow_succ_r in L by lia.
  pose proof (Z.pow_pos_nonneg b (Z.of_nat (length l)) ltac:(lia) ltac:(lia)) as Pp.
  pose proof (le_val_bound b Hb l F) as R.
  rewrite IH by nia. rewrite wrap_small; [lia|]. unfold fits. nia.
Qed.

Lemma h2d_ok s : scalar s -> h2d s = num s mod 2 ^ 64.
Proof.
  intros [Hb Hl]. unfold h2d.
  assert (Forall (fun x => 0 <= x < 256) (take 8 s)) as F by by apply Forall_take.
  assert (length (take 8 s) = 8%nat) as L8 by (rewrite length_take; lia).
  rewrite fold_digits; [|lia|done|by rewrite L8].
  rewrite <- (take_drop 8 s) at 2. rewrite le_val_app, L8 by lia.
  pose proof (le_val_bound 256 ltac:(lia) _ F) as R. rewrite L8 in R.
  change (256 ^ Z.of_nat 8) with (2 ^ 64) in *. rewrite Z.mul_comm, Z.mod_add by lia.
  by rewrite Z.mod_small.
Qed.


Lemma le_digits_mod b n x : 1 < b -> le_digits b n (x mod b ^ Z.of_nat n) = le_digits b n x.
Proof.
  intros Hb. rewrite <- (le_val_digits b Hb n x). rewrite <- (length_le_digits b n x) at 1.
  apply le_digits_val; [done|]. by apply le_digits_range.
Qed.

Lemma bits_of_bytes n x : le_digits 2 (8 * n) x = concat (map (le_digits 2 8) (le_digits 256 n x)).
Proof.
  revert x. induction n as [|n IH]; intros x; [done|].
  replace (8 * S n)%nat with (8 + 8 * n)%nat by lia. rewrite le_digits_add, IH by lia.
  cbn [le_digits map concat]. f_equal. symmetry. exact (le_digits_mod 2 8 x ltac:(lia)).
Qed.

(** The chunks of a concatenation of chunks. *)
Lemma chunks {A} n (f : list Z -> A) (ls : list (list Z)) :
  Forall (fun l => length l = n) ls ->
  map (fun j => f (take n (drop (n * j) (concat ls)))) (seq 0 (length ls)) = map f ls.
Proof.
  induction 1 as [|l ls Hl _ IH]; [done|]. cbn [length seq map concat]. f_equal.
  - rewrite Nat.mul_0_r, drop_0. by rewrite take_app_length' by done.
  - rewrite <- IH, <- seq_shift, map_map. apply map_ext. intros j.
    replace (n * S j)%nat with (length l + n * j)%nat by lia. by rewrite drop_app_add.
Qed.

Lemma h2b_ok s : scalar s -> h2b s = Some (le_digits 2 64 (num s mod 2 ^ 64)).
Proof.
  intros [Hb Hl]. unfold h2b.
  assert (Forall (fun x => 0 <= x < 256) (take 8 s)) as F by by apply Forall_take.
  assert (mapM (fun val => l ← d2b_loop 8 [] val; Some (l ++ replicate (8 - length l) 0)) (take 8 s)
    = Some (map (le_digits 2 8) (take 8 s))) as ->.
  { apply mapM_Some. induction F as [|x l Hx F IH]; constructor; [by apply d2b_pad|done]. }
  go. f_equal. change 64%nat with (8 * 8)%nat. rewrite bits_of_bytes. do 2 f_equal.
  change (2 ^ 64) with (256 ^ Z.of_nat 8). rewrite le_digits_mod by lia. rewrite <- (take_drop 8 s) at 2.
  rewrite le_val_app by lia. replace (length (take 8 s)) with 8%nat by (rewrite length_take; lia).
  rewrite <- (le_digits_mod 256 8) by lia. rewrite Z.mul_comm, Z.mod_add by done.
  rewrite le_digits_mod by lia.
  replace 8%nat with (length (take 8 s)) at 2 by (rewrite length_take; lia).
  by rewrite le_digits_val.
Qed.

Lemma b2h_ok amount : amount_ok amount -> b2h (le_digits 2 64 amount) = le_digits 256 32 amount.
Proof.
  intros Ha. unfold b2h. change 64%nat with (8 * 8)%nat. rewrite bits_of_bytes.
  set (bs := le_digits 256 8 amount).
  change (seq 0 8) with (seq 0 (length bs)).
  pose proof (chunks 8 (fun l => u8 (foldr (fun b byte => byte * 2 + b) 0 l)) (map (le_digits 2 8) bs)) as C.
  rewrite length_map in C. rewrite C by (apply Forall_map, Forall_true; intros; apply length_le_digits).
  clear C. change 32%nat with (8 + 24)%nat. rewrite le_digits_add, (Z.div_small amount), le_digits_0 by (lia || exact Ha).
  f_equal. rewrite map_map. fold bs. transitivity (map id bs); [|apply map_id]. apply map_ext_Forall.
  eapply Forall_impl; [apply (le_digits_range 256); lia|]. intros x Hx. cbn beta in *.
  transitivity (u8 (le_val 2 (le_digits 2 8 x))).
  - f_equal. generalize (le_digits 2 8 x). induction l as [|y l IH]; [done|].
    cbn [foldr le_val]. rewrite IH. lia.
  - rewrite le_val_digits by lia. change (2 ^ Z.of_nat 8) with 256. rewrite (Z.mod_small x) by done.
    by apply wrap_small.
Qed.

(** Amounts: every 64-bit amount comes back from its key and from its
    bits, the conversions between the two agree, and no loop runs past the
    arrays. *)
Theorem amount_conversions amount :
  amount_ok amount ->
  exists h b, d2h amount = Some h /\ d2b amount = Some b
    /\ scalar h /\ num h = amount /\ length b = 64%nat
    /\ h2d h = amount /\ b2d b = amount /\ h2b h = Some b /\ b2h b = h.
Proof.
  intros Ha. rewrite d2h_ok, d2b_ok by done. do 2 eexists. split; [done|]. split; [done|].
  assert (num (le_digits 256 32 amount) = amount) as N.
  { rewrite le_val_digits by lia. apply Z.mod_small. unfold amount_ok in Ha. cbn. lia. }
  assert (scalar (le_digits 256 32 amount)) as S
    by (split; [by apply (le_digits_range 256)|apply length_le_digits]).
  assert (amount mod 2 ^ 64 = amount) as M by by apply Z.mod_small.
  split_and!; [done|done|apply length_le_digits|by rewrite h2d_ok, N|..|by apply b2h_ok].
  - unfold b2d. rewrite fold_digits; [|lia|by apply (le_digits_range 2)|by rewrite length_le_digits].
    rewrite le_val_digits by lia. exact M.
  - by rewrite h2b_ok, N, M.
Qed.

Lemma amount_conversions_witness : exists h, d2h 1000000000 = Some h /\ h2d h = 1000000000.
Proof.
  destruct (amount_conversions 1000000000 ltac:(by_eval)) as (h & b & E & _ & _ & _ & _ & R & _).
  exists h. exact (conj E R).
Defined.


(** ** The points of H2 *)

Definition doubles (P Q : point) : bool :=
  let s := reduce (P.1 * P.2) in let t := reduce (d * reduce (s * s)) in
  zero_mod (Q.1 * (1 + t) - 2 * s) && zero_mod (Q.2 * (1 - t) - (P.2 * P.2 + P.1 * P.1)).

Fixpoint doubling_chain (P : point) (l : list point) : bool :=
  match l with
  | [] => true
  | Q :: l => doubles P Q && doubling_chain Q l
  end.

Lemma doubles_ok P Q : on_curve P -> doubles P Q = true -> pt_eq Q (zmul 2 P).
Proof.
  intros HP [X%zero_mod_ok Y%zero_mod_ok]%andb_prop. rewrite !reduce_eqm in X, Y.
  rewrite zmul_2 by done. apply is_sum_pt_add; [done|done|].
  destruct (denominators P P HP HP) as [U1 U2]. split_and!; [done|done|..]; unfold cross.
  - eapply (combine_1 _ _ 1); [exact X|]. ring.
  - eapply (combine_1 _ _ 1); [exact Y|]. ring.
Qed.

Lemma doubling_chain_ok P l i Q :
  on_curve P -> doubling_chain P l = true -> (P :: l) !! i = Some Q -> pt_eq Q (zmul (2 ^ Z.of_nat i) P).
Proof.
  revert P i. induction l as [|R l IH]; intros P i HP C E.
  - destruct i as [|i]; [|done]. injection E as ->. by rewrite zmul_1.
  - apply andb_prop in C as [C1 C2]. apply doubles_ok in C1; [|done].
    destruct i as [|i]; [injection E as ->; by rewrite zmul_1|].
    assert (on_curve R) as HR by (rewrite C1; auto with curve).
    rewrite (IH R i HR C2 E), C1, Nat2Z.inj_succ, Z.pow_succ_r by lia.
    by rewrite Z.mul_comm, zmul_mul.
Qed.

Definition H_point : point := default pt_zero (head H2_points).

Lemma H_chain : doubling_chain (default pt_zero (head H_eighth)) (tail H_eighth ++ H2_points) = true.
Proof. by_eval. Qed.

Lemma H_eighth_curve : on_curve (default pt_zero (head H_eighth)).
Proof. by_eval. Qed.

(** A check of an encoding that divides nothing. *)
Definition encodes (P : point) (s : bytes) : bool :=
  (0 <=? P.1) && (P.1 <? p) && (0 <=? P.2) && (P.2 <? p)
  && forallb (fun b => (0 <=? b) && (b <? 256)) s && Nat.eqb (length s) 32
  && (le_val 256 s =? P.2 + 2 ^ 255 * (if Z.odd P.1 then 1 else 0)).

Lemma encodes_ok P s : encodes P s = true -> encode P = s.
Proof.
  unfold encodes. rewrite !andb_true_iff, !Z.leb_le, !Z.ltb_lt, Nat.eqb_eq, Z.eqb_eq.
  intros ((((((X0 & X1) & Y0) & Y1) & F) & L) & E).
  apply encode_eq; [|done|].
  { rewrite forallb_forall in F. apply Forall_forall. intros x Hx%list_elem_of_In%F. unfold fits. lia. }
  rewrite E, (Z.mod_small P.1), (Z.mod_small P.2) by done.
  assert (P.2 < 2 ^ 255) by (unfold p in Y1; lia).
  rewrite (Z.mul_comm (2 ^ 255)), Z.mod_add, Z.div_add, Z.mod_small, Z.div_small by lia.
  split; [done|]. rewrite Zmod_odd. by destruct (Z.odd P.1).
Qed.

Lemma H2_encodes : forallb (fun '(P, s) => encodes P s) (zip H2_points H2) = true.
Proof. by_eval. Qed.

Lemma H2_encoded : encode <$> H2_points = H2.
Proof.
  pose proof H2_encodes as E. rewrite forallb_forall in E. symmetry.
  apply list_eq_same_length with (n := 64%nat); [done|done|]. intros i s t Hi Hs Ht.
  rewrite list_lookup_fmap in Ht. apply fmap_Some in Ht as (P & HP & ->). symmetry.
  apply encodes_ok, (E (P, s)), list_elem_of_In, (list_elem_of_lookup_2 _ i).
  by rewrite lookup_zip_with, HP, Hs.
Qed.

Lemma H_point_curve : on_curve H_point.
Proof. by_eval. Qed.
#[global] Hint Resolve H_point_curve : curve.

Lemma H_eight : pt_eq H_point (zmul 8 (default pt_zero (head H_eighth))).
Proof. exact (doubling_chain_ok _ _ 3 H_point H_eighth_curve H_chain eq_refl). Qed.

Lemma H_order : pt_eq (zmul ell H_point) pt_zero.
Proof. rewrite H_eight. apply cleared_order, H_eighth_curve. Qed.

Lemma H_encoded : H = encode H_point.
Proof. by_eval. Qed.

Lemma H2_lookup i : (i < 64)%nat -> H2 !! i = Some (encode (zmul (2 ^ Z.of_nat i) H_point)).
Proof.
  intros Hi. rewrite <- H2_encoded, list_lookup_fmap.
  destruct (lookup_lt_is_Some_2 H2_points i) as [Q HQ]; [done|]. rewrite HQ. cbn [fmap option_fmap option_map].
  f_equal. apply encode_proper.
  rewrite (doubling_chain_ok _ _ (3 + i) Q H_eighth_curve H_chain) by exact HQ.
  rewrite H_eight, <- zmul_mul by exact H_eighth_curve.
  replace (2 ^ Z.of_nat i * 8) with (2 ^ Z.of_nat (3 + i)); [done|].
  rewrite Nat2Z.inj_add, Z.pow_add_r by lia. lia.
Qed.

Lemma H2_length : length H2 = 64%nat.
Proof. done. Qed.

Lemma G_encoded : G = encode B.
Proof. by_eval. Qed.

Lemma Identity_encoded : Identity = encode pt_zero.
Proof. by_eval. Qed.


(** The proofs below use the operations of the curve by their specifications only. *)
#[local] Opaque ge_base ge_Bi ge_scalarmult_base ge_scalarmult ge_double_scalarmult_base_vartime
  ge_double_scalarmult_precomp_vartime ge_dsm_precomp ge_frombytes_vartime ge_p3_tobytes ge_tobytes
  ge_fromfe_frombytes_vartime ge_mul8 ge_add ge_sub ge_p1p1_to_p2 ge_p1p1_to_p3 ge_p3_to_cached
  sc_add sc_sub sc_mulsub sc_reduce32 sc_check encode residue H2 H2_points on_curve.

(** ** The operations on keys *)

(** a G + b H. *)
Definition pedersen (a b : Z) : point := pt_add (zmul a B) (zmul b H_point).

Lemma pedersen_curve a b : on_curve (pedersen a b).
Proof. apply pt_add_curve; apply zmul_curve; [exact B_curve|exact H_point_curve]. Qed.

(** Points built from points of the curve, by their shape. *)
Ltac oncurve := repeat match goal with
  | E : on_curve ?P |- on_curve ?P => exact E
  | |- on_curve (zmul _ _) => apply zmul_curve
  | |- on_curve (pt_add _ _) => apply pt_add_curve
  | |- on_curve (pt_neg _) => apply pt_neg_curve
  | |- on_curve (pedersen _ _) => apply pedersen_curve
  | |- on_curve B => exact B_curve
  | |- on_curve H_point => exact H_point_curve
  | |- on_curve pt_zero => exact pt_zero_curve
  end.

Lemma ret_encode P Q : pt_eq P Q -> ret (encode P) = ret (encode Q).
Proof. intros E. by rewrite (encode_proper P Q E). Qed.

Lemma decode_ok P : on_curve P -> exists h, decode (encode P) = ret h /\ rep_p3 P h.
Proof.
  intros HP. unfold decode. destruct (decode_encode P HP) as (h & -> & R). rgo.
  exists h. exact (conj eq_refl R).
Qed.

Lemma scalarmultBase_ok a : scalar a -> scalarmultBase a = ret (encode (zmul (num a) B)).
Proof.
  intros Ha. unfold scalarmultBase. change (sc_reduce32copy a) with (sc_reduce32 a).
  rewrite sc_reduce32_ok by done. rgo.
  destruct (multiply_base _ (valid_small _ (residue_valid (num a)))) as (r & -> & R). rgo.
  rewrite (ge_p3_tobytes_ok _ r R), lift_some. apply ret_encode.
  apply zmul_B_mod. rewrite num_residue. apply Zmod_mod.
Qed.

Lemma scalarmultKey_ok P a :
  on_curve P -> small_scalar a -> scalarmultKey (encode P) a = ret (encode (zmul (num a) P)).
Proof.
  intros HP Ha. unfold scalarmultKey. destruct (decode_ok P HP) as (h & -> & R). rgo.
  destruct (multiply_p2 a P h Ha HP R) as (r & -> & Rr). rgo. by rewrite (ge_tobytes_ok _ r Rr).
Qed.

Lemma scalarmult8_ok P : on_curve P -> scalarmult8 (encode P) = ret (encode (zmul 8 P)).
Proof.
  intros HP. unfold scalarmult8. destruct (decode_ok P HP) as (h & -> & R). rgo.
  destruct (mul8_ok P _ HP (ge_p3_to_p2_rep P h R)) as (r & -> & Rr). rgo.
  destruct (ge_p1p1_to_p2_rep _ r Rr) as (s & -> & Rs). rgo. by rewrite (ge_tobytes_ok _ s Rs).
Qed.

Lemma scalarmultH_ok a : small_scalar a -> scalarmultH a = ret (encode (zmul (num a) H_point)).
Proof. unfold scalarmultH. rewrite H_encoded. apply (scalarmultKey_ok H_point a H_point_curve). Qed.

Lemma addKeys_ok P Q :
  on_curve P -> on_curve Q -> addKeys (encode P) (encode Q) = ret (encode (pt_add P Q)).
Proof.
  intros HP HQ. unfold addKeys. destruct (decode_ok Q HQ) as (hq & -> & Rq). rgo.
  destruct (decode_ok P HP) as (hp & -> & Rp). rgo.
  destruct (ge_p3_to_cached_rep Q hq Rq) as (c & -> & Rc). rgo.
  destruct (ge_add_rep P Q _ hp c Rp Rc (is_sum_add P Q HP HQ)) as (r & -> & Rr). rgo.
  destruct (ge_p1p1_to_p3_rep _ r Rr) as (s & -> & Rs). rgo. by rewrite (ge_p3_tobytes_ok _ s Rs).
Qed.

Lemma subKeys_ok P Q :
  on_curve P -> on_curve Q -> subKeys (encode P) (encode Q) = ret (encode (pt_add P (pt_neg Q))).
Proof.
  intros HP HQ. unfold subKeys. destruct (decode_ok Q HQ) as (hq & -> & Rq). rgo.
  destruct (decode_ok P HP) as (hp & -> & Rp). rgo.
  destruct (ge_p3_to_cached_rep Q hq Rq) as (c & -> & Rc). rgo.
  destruct (ge_sub_rep P Q _ hp c Rp Rc (is_sum_add P (pt_neg Q) HP (pt_neg_curve Q HQ))) as (r & -> & Rr). rgo.
  destruct (ge_p1p1_to_p3_rep _ r Rr) as (s & -> & Rs). rgo. by rewrite (ge_p3_tobytes_ok _ s Rs).
Qed.

(** The sum of a list of points. *)
Definition pt_sum (l : list point) : point := foldr pt_add pt_zero l.

Lemma pt_sum_curve l : Forall on_curve l -> on_curve (pt_sum l).
Proof. induction 1; [apply pt_zero_curve|by apply pt_add_curve]. Qed.

Lemma addKeys_loop_ok l P h :
  Forall on_curve l -> on_curve P -> rep_p3 P h ->
  exists r, addKeys_loop h (encode <$> l) = ret r /\ rep_p3 (pt_add P (pt_sum l)) r.
Proof.
  intros Hl. revert P h. induction Hl as [|Q l HQ Hl IH]; intros P h HP R; cbn [fmap list_fmap addKeys_loop pt_sum foldr].
  - exists h. split; [reflexivity|]. eapply rep_p3_eq; [exact R|]. rewrite pt_add_comm. symmetry. by apply pt_add_O.
  - destruct (decode_ok Q HQ) as (hq & -> & Rq). rgo.
    destruct (ge_p3_to_cached_rep Q hq Rq) as (c & -> & Rc). rgo.
    destruct (ge_add_rep P Q _ h c R Rc (is_sum_add P Q HP HQ)) as (r & -> & Rr). rgo.
    destruct (ge_p1p1_to_p3_rep _ r Rr) as (s & -> & Rs). rgo.
    destruct (IH (pt_add P Q) s (pt_add_curve P Q HP HQ) Rs) as (t & E & Rt). exists t. split; [exact E|].
    eapply rep_p3_eq; [exact Rt|]. apply pt_add_assoc; [done|done|by apply pt_sum_curve].
Qed.

Lemma addKeysV_ok l : Forall on_curve l -> addKeysV (encode <$> l) = ret (encode (pt_sum l)).
Proof.
  intros [|P l' HP Hl]; cbn [fmap list_fmap addKeysV]; [by rewrite Identity_encoded|].
  destruct (decode_ok P HP) as (h & -> & R). rgo.
  destruct (addKeys_loop_ok l' P h Hl HP R) as (r & -> & Rr). rgo. by rewrite (ge_p3_tobytes_ok _ r Rr).
Qed.

Lemma addKeys1_ok a P :
  scalar a -> on_curve P -> addKeys1 a (encode P) = ret (encode (pt_add (zmul (num a) B) P)).
Proof.
  intros Ha HP. unfold addKeys1. rewrite scalarmultBase_ok by done. rgo. apply addKeys_ok; oncurve.
Qed.

Lemma addKeys2_ok a b P :
  valid a -> valid b -> on_curve P ->
  addKeys2 a b (encode P) = ret (encode (pt_add (zmul (num b) P) (zmul (num a) B))).
Proof.
  intros Ha Hb HP. unfold addKeys2. destruct (decode_ok P HP) as (h & -> & R). rgo.
  destruct (double_bytes b a P h Hb Ha HP R) as (r & -> & E). rgo. by rewrite E.
Qed.


Definition precomputed (I : point) (l : list ge_cached) : Prop :=
  exists h, rep_p3 I h /\ ge_dsm_precomp h = Some l.

Lemma precomp_ok I : on_curve I -> exists l, precomp (encode I) = ret l /\ precomputed I l.
Proof.
  intros HI. unfold precomp. destruct (decode_ok I HI) as (h & -> & R). rgo.
  destruct (ge_dsm_precomp_total I h HI R) as (l & E). rewrite E. exists l.
  exact (conj eq_refl (ex_intro _ h (conj R E))).
Qed.

Lemma addKeys3_ok a b P I l :
  valid a -> valid b -> on_curve P -> on_curve I -> precomputed I l ->
  addKeys3 a (encode P) b l = ret (encode (pt_add (zmul (num a) P) (zmul (num b) I))).
Proof.
  intros Ha Hb HP HI (hI & RI & EI). unfold addKeys3. destruct (decode_ok P HP) as (h & -> & R). rgo.
  destruct (multiply_double_precomp a b P h (valid_slide a Ha) (valid_slide b Hb) HP R I hI hI HI RI)
    as (Ai & Ci & _ & EC & (u & Eu & _ & Ru) & _).
  assert (Ci = l) as -> by congruence. rewrite Eu. rgo. by rewrite (ge_tobytes_ok _ u Ru).
Qed.

(** ** Commitments *)

Lemma d2h_small amount :
  amount_ok amount -> exists am, d2h amount = Some am /\ valid am /\ num am = amount.
Proof.
  intros Ha. rewrite d2h_ok by done. eexists. split; [reflexivity|].
  assert (num (le_digits 256 32 amount) = amount) as N.
  { rewrite le_val_digits by lia. apply Z.mod_small. unfold amount_ok in Ha. cbn. lia. }
  split; [|exact N]. split; [split; [by apply (le_digits_range 256)|apply length_le_digits]|].
  rewrite N. unfold amount_ok, Scalar.ell in *. lia.
Qed.

Lemma amount_H amount :
  amount_ok amount ->
  exists am, d2h amount = Some am /\ scalarmultH am = ret (encode (zmul amount H_point)).
Proof.
  intros Ha. destruct (d2h_small amount Ha) as (am & E & V & N). exists am. split; [exact E|].
  rewrite scalarmultH_ok by by apply valid_small. by rewrite N.
Qed.

Lemma commit_ok amount m :
  amount_ok amount -> scalar m -> commit amount m = ret (encode (pedersen (num m) amount)).
Proof.
  intros Ha Hm. unfold commit. rewrite scalarmultBase_ok by done. rgo.
  destruct (amount_H amount Ha) as (am & -> & E). rgo. rewrite E. rgo. apply addKeys_ok; oncurve.
Qed.

Lemma genC_ok amount m :
  amount_ok amount -> scalar m -> genC m amount = ret (encode (pedersen (num m) amount)).
Proof.
  intros Ha Hm. unfold genC. destruct (amount_H amount Ha) as (am & -> & E). rgo. rewrite E. rgo.
  apply addKeys1_ok; [done|oncurve].
Qed.

Lemma pedersen_add a b a' b' :
  pt_eq (pt_add (pedersen a b) (pedersen a' b')) (pedersen (a + a') (b + b')).
Proof.
  unfold pedersen. rewrite !zmul_add by oncurve.
  apply pt_add_swap; oncurve.
Qed.

Lemma pedersen_eqm a b a' b' : eqm ell a a' -> eqm ell b b' -> pt_eq (pedersen a b) (pedersen a' b').
Proof.
  intros Ea Eb. unfold pedersen. apply pt_add_proper; [by apply zmul_B_mod|].
  by apply (zmul_eqm ell); [exact H_point_curve|exact H_order|].
Qed.


(** Pedersen commitments: two commitments add up to the commitment to the
    sum of the amounts with the sum of the masks (when the sum is an amount),
    and commit, genC and, for mask one, zeroCommit agree. *)
Theorem commitments_add a b m n :
  amount_ok a -> amount_ok b -> amount_ok (a + b) -> scalar m -> scalar n ->
  exists A B' s C, commit a m = ret A /\ commit b n = ret B' /\ sc_add m n = Some s
    /\ commit (a + b) s = ret C /\ addKeys A B' = ret C
    /\ genC m a = ret A /\ zeroCommit a = commit a Identity.
Proof.
  intros Ha Hb Hab Hm Hn. rewrite !commit_ok, sc_add_ok by done.
  do 4 eexists. split; [reflexivity|]. split; [reflexivity|]. split; [reflexivity|].
  rewrite commit_ok by (done || apply residue_scalar). split; [reflexivity|]. split; [|split].
  - rewrite addKeys_ok by apply pedersen_curve. apply ret_encode. rewrite pedersen_add.
    apply pedersen_eqm; [|done]. rewrite num_residue. symmetry. apply Zmod_mod.
  - by apply genC_ok.
  - rewrite commit_ok by (done || by_eval). unfold zeroCommit.
    destruct (amount_H a Ha) as (am & -> & E). rgo. rewrite E. rgo.
    rewrite G_encoded, addKeys_ok by oncurve. apply ret_encode. unfold pedersen.
    change (num Identity) with 1. by rewrite zmul_1 by exact B_curve.
Qed.

Lemma commitments_add_witness : exists A B' C,
  commit 3 (residue 5) = ret A /\ commit 4 (residue 7) = ret B' /\ addKeys A B' = ret C.
Proof.
  destruct (commitments_add 3 4 (residue 5) (residue 7) ltac:(by_eval) ltac:(by_eval) ltac:(by_eval)
    (residue_scalar 5) (residue_scalar 7)) as (A & B' & s & C & E1 & E2 & _ & _ & E3 & _).
  exists A, B', C. exact (conj E1 (conj E2 E3)).
Defined.

(** H and H2: H is the encoding of a point of order l, H2[i] is that of
    2^i H for every i below 64, L is the order of the base point, and 8 times
    INV_EIGHT is one modulo it. *)
Theorem H2_powers :
  on_curve H_point /\ H = encode H_point /\ ~ pt_eq H_point pt_zero
  /\ pt_eq (zmul ell H_point) pt_zero
  /\ length H2 = 64%nat
  /\ (forall i, (i < 64)%nat -> H2 !! i = Some (encode (zmul (2 ^ Z.of_nat i) H_point)))
  /\ num CurveOrder = ell /\ eqm ell (num EIGHT * num INV_EIGHT) 1
  /\ G = encode B /\ Identity = encode pt_zero.
Proof.
  split; [exact H_point_curve|]. split; [exact H_encoded|]. split; [by_eval|]. split; [exact H_order|].
  split; [done|]. split; [exact H2_lookup|]. split; [by_eval|]. split; [by_eval|].
  exact (conj G_encoded Identity_encoded).
Qed.

Lemma residue_back x s :
  valid x -> residue (num (residue (num x + num s)) - num s) = x.
Proof.
  intros Hx. apply valid_inj; [apply residue_valid|done|]. rewrite !num_residue, Zminus_mod_idemp_l.
  replace (num x + num s - num s) with (num x) by lia. apply Z.mod_small. by apply valid_range.
Qed.

(** ** Hashing *)

Section hashed.

Context `{HF : !FastHash}.

Lemma hash_keys_ok keys : hash_keys keys = ret (residue (num (fast_hash (concat keys)))).
Proof. unfold hash_keys. by rewrite sc_reduce32_ok by apply digest_scalar. Qed.

Lemma hashToPoint_ok key Q : hashes key Q -> hashToPoint key = ret (encode Q).
Proof.
  intros (_ & _ & h & E & R). unfold hash_to_ec in E. unfold hashToPoint.
  destruct (ge_fromfe_frombytes_vartime (fast_hash key)) as [t|]; [|discriminate E].
  rewrite some_bind in E. rgo. destruct (ge_mul8 t) as [u|]; [|discriminate E].
  rewrite some_bind in E. rgo. rewrite E. rgo. by rewrite (ge_p3_tobytes_ok Q h R).
Qed.

Lemma ecdh_secrets sharedSec :
  exists s1 s2, scalar s1 /\ scalar s2 /\ hash_keys [sharedSec] = ret s1 /\ hash_keys [s1] = ret s2.
Proof.
  eexists _, _. rewrite !hash_keys_ok. split; [|split; [|split; [reflexivity|reflexivity]]];
    apply residue_scalar.
Qed.

End hashed.

Lemma ecdh_ok `{!FastHash} mask amount sharedSec :
  valid mask -> valid amount ->
  exists m a, ecdhEncode mask amount sharedSec = ret (m, a) /\ valid m /\ valid a
    /\ ecdhDecode m a sharedSec = ret (mask, amount).
Proof.
  intros Hm Ha. destruct (ecdh_secrets sharedSec) as (s1 & s2 & S1 & S2 & E1 & E2).
  unfold ecdhEncode, ecdhDecode. rewrite E1. do 2 eexists. rewrite rbind_ret, E2, rbind_ret.
  rewrite !sc_add_ok by (done || apply Hm || apply Ha). rewrite !lift_some, !rbind_ret.
  split; [reflexivity|]. split; [apply residue_valid|]. split; [apply residue_valid|].
  rewrite ?rbind_ret, E2, rbind_ret, !sc_sub_ok by (done || apply residue_scalar).
  rewrite !lift_some, !rbind_ret. by rewrite !residue_back by done.
Qed.

(** Encrypted amounts: with the shared secret of the output,
    ecdhDecode takes the mask and the amount that ecdhEncode hid back. *)
Theorem ecdh_roundtrip `{!FastHash} mask amount sharedSec :
  valid mask -> valid amount ->
  exists m a, ecdhEncode mask amount sharedSec = ret (m, a) /\ valid m /\ valid a
    /\ ecdhDecode m a sharedSec = ret (mask, amount).
Proof. exact (ecdh_ok mask amount sharedSec). Qed.

Lemma ecdh_roundtrip_witness : exists m a,
  @ecdhEncode keccak_fast_hash key_5 key_7 key_7 = ret (m, a)
  /\ @ecdhDecode keccak_fast_hash m a key_7 = ret (key_5, key_7).
Proof.
  destruct (@ecdh_roundtrip keccak_fast_hash key_5 key_7 key_7 key_5_valid key_7_valid)
    as (m & a & E & _ & _ & D).
  exists m, a. exact (conj E D).
Defined.

End RctOps.
