(* ===== verification/RangeProof.v ===== *)
(** * Borromean range proofs

    genBorromean, verifyBorromean, proveRange and verRange of
    src/ringct/rctSigs.cpp.  A commitment to a 64-bit amount is split into 64
    commitments to 0 or 2^i, and a Borromean ring signature proves each is one
    of the two.  The theorem says that the proof made for any amount is accepted
    and that its commitment opens to the amount. *)

From S2P Require Import Prelude Result Keccak Varint Limbs Primality Scalar Fe Ge Curve Points HashPoint BaseData Recode ScalarMult BaseTable Order Multiples Crypto RingSig RctOps.
Import Keccak Varint Limbs Scalar Fe Ge Curve Points BaseData ScalarMult BaseTable Order Multiples Crypto RingSig RctOps Result.

Module RangeProof.

Record boroSig := Boro { s0 : list bytes; s1 : list bytes; ee : bytes }.

Record rangeSig := Range { asig : boroSig; Ci : list bytes }.

Section functions.

Context `{HF : !FastHash}.

(** ** Signing *)

(** What the first loop leaves at one index: the nonce, L[1] and the response
    s1 (not yet set for a one bit). *)
Record nonce := Nonce { alpha : bytes; L1 : bytes; r1 : bytes }.

Definition boro_first (P2s : bytes) (index : Z) (rng : randomness) : result (nonce * randomness) :=
  let* (alpha, rng) := skGen rng in
  let* L := scalarmultBase alpha in
  if index =? 0 then
    let* (s1, rng) := skGen rng in
    let* c := hash_keys [L] in
    let* L' := addKeys2 s1 c P2s in
    ret (Nonce alpha L' s1, rng)
  else ret (Nonce alpha L [], rng).

Fixpoint boro_loop1 (P2s : list bytes) (indices : list Z) (rng : randomness)
    : result (list nonce * randomness) :=
  match P2s, indices with
  | p2 :: P2s, index :: indices =>
      let* (n, rng) := boro_first p2 index rng in
      let* (ns, rng) := boro_loop1 P2s indices rng in
      ret (n :: ns, rng)
  | _, _ => ret ([], rng)
  end.

(** The second loop at one index: the responses s0 and s1. *)
Definition boro_second (ee x P1s : bytes) (n : nonce) (index : Z) (rng : randomness)
    : result (bytes * bytes * randomness) :=
  if index =? 0 then
    let* s0 := lift (sc_mulsub x ee (alpha n)) in
    ret (s0, r1 n, rng)
  else
    let* (s0, rng) := skGen rng in
    let* LL := addKeys2 s0 ee P1s in
    let* cc := hash_keys [LL] in
    let* s1 := lift (sc_mulsub x cc (alpha n)) in
    ret (s0, s1, rng).

Fixpoint boro_loop2 (ee : bytes) (x P1s : list bytes) (ns : list nonce) (indices : list Z)
    (rng : randomness) : result (list (bytes * bytes) * randomness) :=
  match x, P1s, ns, indices with
  | x :: xs, p1 :: P1s, n :: ns, index :: indices =>
      let* (s0, s1, rng) := boro_second ee x p1 n index rng in
      let* (ss, rng) := boro_loop2 ee xs P1s ns indices rng in
      ret ((s0, s1) :: ss, rng)
  | _, _, _, _ => ret ([], rng)
  end.

Definition genBorromean (x P1s P2s : list bytes) (indices : list Z) (rng : randomness)
    : result (boroSig * randomness) :=
  let* (ns, rng) := boro_loop1 P2s indices rng in
  let* ee := hash_keys (map L1 ns) in
  let* (ss, rng) := boro_loop2 ee x P1s ns indices rng in
  ret (Boro (map fst ss) (map snd ss) ee, rng).

(** ** Verification *)

Definition boro_check (ee s0 s1 : bytes) (p1 p2 : ge_p3) : result bytes :=
  let* t := lift (ge_double_scalarmult_base_vartime ge_Bi ee p1 s0) in
  let* LL := lift (ge_tobytes t) in
  let* chash := hash_keys [LL] in
  let* t := lift (ge_double_scalarmult_base_vartime ge_Bi chash p2 s1) in
  lift (ge_tobytes t).

Fixpoint boro_checks (ee : bytes) (s0 s1 : list bytes) (P1s P2s : list ge_p3) : result (list bytes) :=
  match s0, s1, P1s, P2s with
  | a :: s0, b :: s1, p1 :: P1s, p2 :: P2s =>
      let* l := boro_check ee a b p1 p2 in
      let* Lv1 := boro_checks ee s0 s1 P1s P2s in
      ret (l :: Lv1)
  | _, _, _, _ => ret []
  end.

Definition verifyBorromean (bb : boroSig) (P1s P2s : list ge_p3) : result bool :=
  let* Lv1 := boro_checks (ee bb) (s0 bb) (s1 bb) P1s P2s in
  let* eeComputed := hash_keys Lv1 in
  ret (equalKeys eeComputed (ee bb)).

(** ** Range proofs *)

(** The state of the loop of proveRange. *)
Record range_state := Rs {
  rs_mask : bytes; rs_C : bytes; rs_ai : list bytes; rs_Ci : list bytes; rs_CiH : list bytes
}.

Definition prove_step (st : range_state) (b : Z) (h2 : bytes) (rng : randomness)
    : result (range_state * randomness) :=
  let* (ai, rng) := skGen rng in
  let* ci := (if b =? 0 then scalarmultBase ai else addKeys1 ai h2) in
  let* cih := subKeys ci h2 in
  let* mask := lift (sc_add (rs_mask st) ai) in
  let* C := addKeys (rs_C st) ci in
  ret (Rs mask C (rs_ai st ++ [ai]) (rs_Ci st ++ [ci]) (rs_CiH st ++ [cih]), rng).

Fixpoint prove_loop (st : range_state) (bits : list Z) (h2s : list bytes) (rng : randomness)
    : result (range_state * randomness) :=
  match bits, h2s with
  | b :: bits, h2 :: h2s =>
      let* (st, rng) := prove_step st b h2 rng in prove_loop st bits h2s rng
  | _, _ => ret (st, rng)
  end.

(** The commitment, the mask and the proof. *)
Definition proveRange (amount : Z) (rng : randomness) : result (bytes * bytes * rangeSig * randomness) :=
  let* b := lift (d2b amount) in
  let* (st, rng) := prove_loop (Rs sc_0 Identity [] [] []) b H2 rng in
  let* (sig, rng) := genBorromean (rs_ai st) (rs_Ci st) (rs_CiH st) b rng in
  ret (rs_C st, rs_mask st, Range sig (rs_Ci st), rng).

(** One step of the loop of verRange: the point of the commitment, its
    difference with 2^i H and the running sum; [None] is a return of false. *)
Definition ver_step (Ctmp : ge_p3) (h2 ci : bytes) : option (option (ge_p3 * ge_p3 * ge_p3)) :=
  r ← ge_frombytes_vartime h2;
  match r with
  | inl _ => Some None
  | inr p3 =>
      cached ← ge_p3_to_cached p3;
      r ← ge_frombytes_vartime ci;
      match r with
      | inl _ => Some None
      | inr asCi =>
          p1 ← ge_sub asCi cached;
          cached ← ge_p3_to_cached asCi;
          CiH ← ge_p1p1_to_p3 p1;
          p1 ← ge_add Ctmp cached;
          Ctmp ← ge_p1p1_to_p3 p1;
          Some (Some (asCi, CiH, Ctmp))
      end
  end.

Fixpoint ver_loop (Ctmp : ge_p3) (h2s cis : list bytes)
    : option (option (list ge_p3 * list ge_p3 * ge_p3)) :=
  match h2s, cis with
  | h2 :: h2s, ci :: cis =>
      r ← ver_step Ctmp h2 ci;
      match r with
      | None => Some None
      | Some (asCi, CiH, Ctmp) =>
          r ← ver_loop Ctmp h2s cis;
          match r with
          | None => Some None
          | Some (asCis, CiHs, Ctmp) => Some (Some (asCi :: asCis, CiH :: CiHs, Ctmp))
          end
      end
  | _, _ => Some (Some ([], [], Ctmp))
  end.

(** An exception is a return of false. *)
Definition verRange (C : bytes) (as_ : rangeSig) : option bool :=
  r ← ver_loop ge_p3_identity H2 (Ci as_);
  match r with
  | None => Some false
  | Some (asCi, CiH, Ctmp_p3) =>
      Ctmp ← ge_p3_tobytes Ctmp_p3;
      if negb (equalKeys C Ctmp) then Some false else
      match verifyBorromean (asig as_) asCi CiH with
      | None => None
      | Some (inl _) => Some false
      | Some (inr b) => Some (if negb b then false else true)
      end
  end.

End functions.


(** The proofs use the operations of the curve by their specifications only. *)
#[local] Opaque ge_base ge_Bi ge_scalarmult_base ge_scalarmult ge_double_scalarmult_base_vartime
  ge_double_scalarmult_precomp_vartime ge_dsm_precomp ge_frombytes_vartime ge_p3_tobytes ge_tobytes
  ge_fromfe_frombytes_vartime ge_mul8 ge_add ge_sub ge_p1p1_to_p2 ge_p1p1_to_p3 ge_p3_to_cached
  sc_add sc_sub sc_mulsub sc_reduce32 sc_check encode residue H2 H2_points ge_p3_identity.

Lemma equalKeys_refl a : equalKeys a a = true.
Proof. induction a as [|x a IH]; [done|]. cbn [equalKeys]. by rewrite Z.eqb_refl, IH. Qed.

Lemma skGen_ok rng k rng' : random_scalar rng = Some (k, rng') -> skGen rng = ret (k, rng').
Proof. unfold skGen. by intros ->. Qed.

(** ** Borromean signatures *)

Section borromean.

Context `{HF : !FastHash}.

Lemma boro_check_ok e a b P1 P2 h1 h2 :
  valid e -> valid a -> valid b -> on_curve P1 -> on_curve P2 -> rep_p3 P1 h1 -> rep_p3 P2 h2 ->
  let c := residue (num (fast_hash (concat [encode (pt_add (zmul (num e) P1) (zmul (num a) B))]))) in
  boro_check e a b h1 h2 = ret (encode (pt_add (zmul (num c) P2) (zmul (num b) B))).
Proof.
  intros He Ha Hb HP1 HP2 R1 R2 c. unfold boro_check.
  destruct (double_bytes e a P1 h1 He Ha HP1 R1) as (t & -> & Et). rgo. rewrite Et. rgo.
  rewrite hash_keys_ok. rgo. fold c.
  destruct (double_bytes c b P2 h2 (residue_valid _) Hb HP2 R2) as (u & -> & Eu). rgo. by rewrite Eu.
Qed.

(** The signer knows the secret of one of the two points, as the bit says. *)
Definition knows (x : bytes) (P1 P2 : point) (index : Z) : Prop :=
  valid x /\ on_curve P1 /\ on_curve P2
  /\ (index = 0 /\ pt_eq P1 (zmul (num x) B) \/ index = 1 /\ pt_eq P2 (zmul (num x) B)).

(** The random scalars each loop draws at an index. *)
Definition draws_1 (index : Z) : nat := if index =? 0 then 2 else 1.
Definition draws_2 (index : Z) : nat := if index =? 0 then 0 else 1.

(** What the second loop does with the nonce is accepted. *)
Definition answered (x : bytes) (P1 P2 : point) (index : Z) (n : nonce) : Prop :=
  forall e rng rng', valid e -> Forall scalar rng -> draw (draws_2 index) rng = Some rng' ->
  Forall scalar rng' /\ exists a b, boro_second e x (encode P1) n index rng = ret (a, b, rng')
    /\ forall h1 h2, rep_p3 P1 h1 -> rep_p3 P2 h2 -> boro_check e a b h1 h2 = ret (L1 n).

Lemma response_at c x k r P :
  pt_eq P (zmul (num x) B) -> num r = (num k - num c * num x) mod ell ->
  pt_eq (pt_add (zmul (num c) P) (zmul (num r) B)) (zmul (num k) B).
Proof.
  intros E Er. rewrite E. apply response_multiple; [exact B_order|exact B_curve|exact Er].
Qed.

Lemma mulsub_num x e k : num (residue (num k - num x * num e)) = (num k - num e * num x) mod ell.
Proof. rewrite num_residue. f_equal. lia. Qed.

Lemma boro_zero x P1 P2 rng rng' :
  valid x -> on_curve P1 -> on_curve P2 -> pt_eq P1 (zmul (num x) B) ->
  Forall scalar rng -> draw 2 rng = Some rng' ->
  Forall scalar rng' /\ exists n, boro_first (encode P2) 0 rng = ret (n, rng') /\ answered x P1 P2 0 n.
Proof.
  intros Hx HP1 HP2 E Hr D.
  destruct (draw_S _ _ _ Hr D) as (k & rng1 & Ek & Vk & Hr1 & D1).
  destruct (draw_S _ _ _ Hr1 D1) as (b & rng2 & Eb & Vb & Hr2 & D2). injection D2 as <-.
  split; [done|]. unfold boro_first. rewrite (skGen_ok _ _ _ Ek). rgo.
  rewrite scalarmultBase_ok by apply Vk. rgo. cbn [Z.eqb]. rewrite (skGen_ok _ _ _ Eb). rgo.
  rewrite hash_keys_ok. rgo. set (c := residue (num (fast_hash (concat [encode (zmul (num k) B)])))).
  rewrite addKeys2_ok by (done || apply residue_valid). rgo.
  eexists. split; [reflexivity|]. intros e r r' He Hrr Dr. injection Dr as <-. split; [done|].
  unfold boro_second. cbn [Z.eqb alpha r1].
  rewrite sc_mulsub_ok by (apply Hx || apply He || apply Vk). rgo. do 2 eexists. split; [reflexivity|].
  intros h1 h2 R1 R2. rewrite (boro_check_ok e _ b P1 P2 h1 h2) by (done || apply residue_valid).
  cbn [L1]. rewrite (response_at e x k _ P1 E) by apply mulsub_num. reflexivity.
Qed.

Lemma boro_one x P1 P2 rng rng' :
  valid x -> on_curve P1 -> on_curve P2 -> pt_eq P2 (zmul (num x) B) ->
  Forall scalar rng -> draw 1 rng = Some rng' ->
  Forall scalar rng' /\ exists n, boro_first (encode P2) 1 rng = ret (n, rng') /\ answered x P1 P2 1 n.
Proof.
  intros Hx HP1 HP2 E Hr D.
  destruct (draw_S _ _ _ Hr D) as (k & rng1 & Ek & Vk & Hr1 & D1). injection D1 as <-.
  split; [done|]. unfold boro_first. rewrite (skGen_ok _ _ _ Ek). rgo.
  rewrite scalarmultBase_ok by apply Vk. rgo. cbn [Z.eqb].
  eexists. split; [reflexivity|]. intros e r r' He Hrr Dr.
  destruct (draw_S _ _ _ Hrr Dr) as (a & rng2 & Ea & Va & Hr2 & D2). injection D2 as <-. split; [done|].
  unfold boro_second. cbn [Z.eqb alpha r1]. rewrite (skGen_ok _ _ _ Ea). rgo.
  rewrite addKeys2_ok by done. rgo. rewrite hash_keys_ok. rgo.
  rewrite sc_mulsub_ok by (apply Hx || apply residue_scalar || apply Vk). rgo.
  do 2 eexists. split; [reflexivity|].
  intros h1 h2 R1 R2. rewrite (boro_check_ok e a _ P1 P2 h1 h2) by (done || apply residue_valid).
  cbn [L1]. apply ret_encode. apply (response_at _ x k _ P2 E), mulsub_num.
Qed.

(** *** All indices *)

(** The secret, the two points and the bit of an index. *)
Record member := Member { m_x : bytes; m_P1 : point; m_P2 : point; m_bit : Z }.

Definition known (m : member) : Prop := knows (m_x m) (m_P1 m) (m_P2 m) (m_bit m).
Definition answered_by (m : member) (n : nonce) : Prop := answered (m_x m) (m_P1 m) (m_P2 m) (m_bit m) n.

Definition total_1 (ms : list member) : nat := list_sum (map (fun m => draws_1 (m_bit m)) ms).
Definition total_2 (ms : list member) : nat := list_sum (map (fun m => draws_2 (m_bit m)) ms).

Lemma total_draws ms : Forall known ms -> (total_1 ms + total_2 ms = 2 * length ms)%nat.
Proof.
  induction 1 as [|m ms (_ & _ & _ & B) _ IH]; [done|]. unfold total_1, total_2 in *. simpl.
  destruct B as [[E _]|[E _]]; rewrite E; simpl; lia.
Qed.

Lemma first_ok m rng rng' :
  known m -> Forall scalar rng -> draw (draws_1 (m_bit m)) rng = Some rng' ->
  Forall scalar rng' /\ exists n, boro_first (encode (m_P2 m)) (m_bit m) rng = ret (n, rng') /\ answered_by m n.
Proof.
  destruct m as [x P1 P2 bit]. unfold known, answered_by. cbn [m_x m_P1 m_P2 m_bit].
  intros (Hx & H1 & H2 & [[-> E]|[-> E]]) Hr D; [by apply boro_zero|by apply boro_one].
Qed.

Lemma loop1_ok ms rng rng' :
  Forall known ms -> Forall scalar rng -> draw (total_1 ms) rng = Some rng' ->
  Forall scalar rng' /\ exists ns,
    boro_loop1 (map (fun m => encode (m_P2 m)) ms) (map m_bit ms) rng = ret (ns, rng')
    /\ Forall2 answered_by ms ns.
Proof.
  intros K. revert rng. induction K as [|m ms Hm K IH]; intros rng Hr D.
  - injection D as <-. split; [done|]. exists []. split; [reflexivity|constructor].
  - destruct (draw_add _ _ _ _ Hr D) as (rng1 & D1 & Hr1 & D2).
    destruct (first_ok m rng rng1 Hm Hr D1) as (_ & n & E & A).
    destruct (IH rng1 Hr1 D2) as (Hr' & ns & El & As). split; [done|]. exists (n :: ns).
    split; [|by constructor]. cbn [map boro_loop1]. rewrite E. rgo. rewrite El. by rgo.
Qed.

Lemma loop2_ok e ms ns rng rng' :
  valid e -> Forall2 answered_by ms ns -> Forall scalar rng -> draw (total_2 ms) rng = Some rng' ->
  Forall scalar rng' /\ exists ss,
    boro_loop2 e (map m_x ms) (map (fun m => encode (m_P1 m)) ms) ns (map m_bit ms) rng = ret (ss, rng')
    /\ forall h1s h2s, Forall2 (fun m => rep_p3 (m_P1 m)) ms h1s -> Forall2 (fun m => rep_p3 (m_P2 m)) ms h2s ->
       boro_checks e (map fst ss) (map snd ss) h1s h2s = ret (map L1 ns).
Proof.
  intros He As. revert rng. induction As as [|m n ms ns A As IH]; intros rng Hr D.
  - injection D as <-. split; [done|]. exists []. split; [reflexivity|]. reflexivity.
  - destruct (draw_add _ _ _ _ Hr D) as (rng1 & D1 & Hr1 & D2).
    destruct (A e rng rng1 He Hr D1) as (_ & a & b & E & C).
    destruct (IH rng1 Hr1 D2) as (Hr' & ss & El & Cs). split; [done|]. exists ((a, b) :: ss). split.
    + cbn [map boro_loop2]. rewrite E. rgo. rewrite El. by rgo.
    + intros h1s h2s F1 F2. destruct h1s as [|h1 h1s]; [by inversion F1|]. destruct h2s as [|h2 h2s]; [by inversion F2|].
      apply Forall2_cons in F1 as [R1 F1]. apply Forall2_cons in F2 as [R2 F2].
      cbn [map fst snd boro_checks]. rewrite (C h1 h2 R1 R2). rgo. rewrite (Cs h1s h2s F1 F2). by rgo.
Qed.

Lemma genBorromean_ok ms rng rng' :
  Forall known ms -> Forall scalar rng -> draw (2 * length ms) rng = Some rng' ->
  Forall scalar rng' /\ exists bb,
    genBorromean (map m_x ms) (map (fun m => encode (m_P1 m)) ms) (map (fun m => encode (m_P2 m)) ms)
      (map m_bit ms) rng = ret (bb, rng')
    /\ forall h1s h2s, Forall2 (fun m => rep_p3 (m_P1 m)) ms h1s -> Forall2 (fun m => rep_p3 (m_P2 m)) ms h2s ->
       verifyBorromean bb h1s h2s = ret true.
Proof.
  intros K Hr D. rewrite <- (total_draws ms K) in D.
  destruct (draw_add _ _ _ _ Hr D) as (rng1 & D1 & Hr1 & D2).
  destruct (loop1_ok ms rng rng1 K Hr D1) as (_ & ns & E1 & As).
  set (e := residue (num (fast_hash (concat (map L1 ns))))).
  destruct (loop2_ok e ms ns rng1 rng' (residue_valid _) As Hr1 D2) as (Hr' & ss & E2 & C).
  split; [done|]. eexists. split.
  - unfold genBorromean. rewrite E1. rgo. rewrite hash_keys_ok. rgo. fold e. rewrite E2. rgo. reflexivity.
  - intros h1s h2s F1 F2. unfold verifyBorromean. cbn [ee s0 s1]. rewrite (C h1s h2s F1 F2). rgo.
    rewrite hash_keys_ok. rgo. by rewrite equalKeys_refl.
Qed.

End borromean.


(** ** The commitments to the bits *)

Section range.

Context `{HF : !FastHash}.

Definition h_points (ws : list Z) : list point := map (fun w => zmul w H_point) ws.

(** The commitment of a bit of weight [w] with mask [x], and its difference
    with w H. *)
Definition bit_member (x : bytes) (bit w : Z) : member :=
  Member x (pedersen (num x) (bit * w)) (pt_add (pedersen (num x) (bit * w)) (pt_neg (zmul w H_point))) bit.

Lemma bit_known x bit w : valid x -> bit = 0 \/ bit = 1 -> known (bit_member x bit w).
Proof.
  intros Hx Hb. unfold known, knows, bit_member, pedersen. cbn [m_x m_P1 m_P2 m_bit].
  split; [done|]. split; [oncurve|]. split; [oncurve|]. destruct Hb as [-> | ->]; [left|right]; (split; [done|]).
  - rewrite Z.mul_0_l, zmul_0, pt_add_comm. apply pt_add_O. oncurve.
  - rewrite Z.mul_1_l, pt_add_assoc, pt_add_neg, pt_add_comm by oncurve. apply pt_add_O. oncurve.
Qed.

Definition weighted (bits ws : list Z) : Z := foldr (fun '(b, w) s => b * w + s) 0 (zip bits ws).

Lemma bit_commitment x bit w :
  scalar x -> bit = 0 \/ bit = 1 ->
  (if bit =? 0 then scalarmultBase x else addKeys1 x (encode (zmul w H_point)))
  = ret (encode (pedersen (num x) (bit * w))).
Proof.
  intros Hx [-> | ->]; cbn [Z.eqb].
  - rewrite scalarmultBase_ok by done. apply ret_encode. unfold pedersen.
    rewrite Z.mul_0_l, zmul_0, pt_add_comm. symmetry. apply pt_add_O. oncurve.
  - rewrite addKeys1_ok by (done || oncurve). by rewrite Z.mul_1_l.
Qed.

Lemma prove_step_ok st bit w v ai rng rng' :
  scalar (rs_mask st) -> rs_C st = encode (pedersen (num (rs_mask st)) v) -> bit = 0 \/ bit = 1 ->
  random_scalar rng = Some (ai, rng') -> valid ai ->
  let m := bit_member ai bit w in
  exists mask, valid mask /\ eqm ell (num mask) (num (rs_mask st) + num ai)
    /\ prove_step st bit (encode (zmul w H_point)) rng
       = ret (Rs mask (encode (pedersen (num mask) (v + bit * w))) (rs_ai st ++ [m_x m])
           (rs_Ci st ++ [encode (m_P1 m)]) (rs_CiH st ++ [encode (m_P2 m)]), rng').
Proof.
  intros Hm HC Hb Ek Vk m. exists (residue (num (rs_mask st) + num ai)). split; [apply residue_valid|].
  split; [rewrite num_residue; apply Zmod_mod|]. unfold prove_step. rewrite (skGen_ok _ _ _ Ek). rgo.
  rewrite bit_commitment by (done || apply Vk). rgo.
  rewrite (subKeys_ok (pedersen (num ai) (bit * w)) (zmul w H_point)).
 2: { oncurve. } 2: { oncurve. } rgo.
  rewrite sc_add_ok by (done || apply Vk). rgo. rewrite HC.
  rewrite addKeys_ok by oncurve. rgo. unfold m, bit_member. cbn [m_x m_P1 m_P2].
  do 3 f_equal. apply encode_proper. rewrite pedersen_add. apply pedersen_eqm; [|done].
  rewrite num_residue. symmetry. apply Zmod_mod.
Qed.

Lemma prove_loop_ok bits ws st v rng rng' :
  Forall (fun b => b = 0 \/ b = 1) bits -> length bits = length ws ->
  valid (rs_mask st) -> rs_C st = encode (pedersen (num (rs_mask st)) v) ->
  Forall scalar rng -> draw (length bits) rng = Some rng' ->
  Forall scalar rng' /\ exists xs mask, Forall valid xs /\ length xs = length bits /\ valid mask
    /\ eqm ell (num mask) (num (rs_mask st) + foldr (fun x s => num x + s) 0 xs)
    /\ let ms := zip_with (fun x '(b, w) => bit_member x b w) xs (zip bits ws) in
       prove_loop st bits (encode <$> h_points ws) rng
       = ret (Rs mask (encode (pedersen (num mask) (v + weighted bits ws))) (rs_ai st ++ map m_x ms)
           (rs_Ci st ++ map (fun m => encode (m_P1 m)) ms) (rs_CiH st ++ map (fun m => encode (m_P2 m)) ms), rng').
Proof.
  intros Hb. revert ws st v rng. induction Hb as [|b bits Hb Hbs IH]; intros [|w ws] st v rng L Hm HC Hr D; try done.
  - injection D as <-. split; [done|]. exists [], (rs_mask st). split_and!; [constructor|done|done|by rewrite Z.add_0_r|].
    cbn. rewrite !app_nil_r, Z.add_0_r, <- HC. by destruct st.
  - destruct (draw_S _ _ _ Hr D) as (ai & rng1 & Ek & Vk & Hr1 & D1).
    destruct (prove_step_ok st b w v ai rng rng1 (proj1 Hm) HC Hb Ek Vk) as (mask1 & V1 & M1 & E1).
    match type of E1 with _ = ret (?st1, _) => destruct (IH ws st1 (v + b * w) rng1)
      as (Hr' & xs & mask & Vx & Lx & Vm & Mm & E) end; [by injection L|exact V1|reflexivity|exact Hr1|exact D1|].
    split; [done|]. exists (ai :: xs), mask. split_and!; [by constructor|cbn [length]; lia|done|..].
    { cbn [rs_mask foldr] in *. by rewrite Mm, M1, Z.add_assoc. }
    cbn [h_points map fmap list_fmap prove_loop]. rewrite E1. rgo. fold (h_points ws). rewrite E.
    cbn [rs_ai rs_Ci rs_CiH zip zip_with map]. rewrite <- !app_assoc. cbn [app].
    unfold weighted. cbn [zip zip_with foldr]. by rewrite Z.add_assoc.
Qed.


(** *** Checking the commitments *)

Lemma ver_step_ok T Tp x bit w :
  on_curve T -> rep_p3 T Tp ->
  let m := bit_member x bit w in
  exists h1 h2 Tp', ver_step Tp (encode (zmul w H_point)) (encode (m_P1 m)) = Some (Some (h1, h2, Tp'))
    /\ rep_p3 (m_P1 m) h1 /\ rep_p3 (m_P2 m) h2 /\ rep_p3 (pt_add T (m_P1 m)) Tp'.
Proof.
  intros HT RT m. pose proof (pedersen_curve (num x) (bit * w)) as HP.
  assert (on_curve (zmul w H_point)) as HW by oncurve.
  unfold ver_step. destruct (decode_encode _ HW) as (hw & -> & Rw). go.
  destruct (ge_p3_to_cached_rep _ hw Rw) as (cw & -> & Rcw). go.
  destruct (decode_encode _ HP) as (h1 & E1 & R1). unfold m, bit_member. cbn [m_P1 m_P2]. rewrite E1. go.
  destruct (ge_sub_rep _ _ _ h1 cw R1 Rcw (is_sum_add _ _ HP (pt_neg_curve _ HW))) as (r & -> & Rr). go.
  destruct (ge_p3_to_cached_rep _ h1 R1) as (c1 & -> & Rc1). go.
  destruct (ge_p1p1_to_p3_rep _ r Rr) as (h2 & -> & R2). go.
  destruct (ge_add_rep _ _ _ Tp c1 RT Rc1 (is_sum_add _ _ HT HP)) as (r' & -> & Rr'). go.
  destruct (ge_p1p1_to_p3_rep _ r' Rr') as (Tp' & -> & RT'). go.
  exists h1, h2, Tp'. exact (conj eq_refl (conj R1 (conj R2 RT'))).
Qed.

Lemma ver_loop_ok bits ws xs T Tp :
  length bits = length ws -> length xs = length bits -> on_curve T -> rep_p3 T Tp ->
  let ms := zip_with (fun x '(b, w) => bit_member x b w) xs (zip bits ws) in
  exists h1s h2s Tp', ver_loop Tp (encode <$> h_points ws) (map (fun m => encode (m_P1 m)) ms)
      = Some (Some (h1s, h2s, Tp'))
    /\ Forall2 (fun m => rep_p3 (m_P1 m)) ms h1s /\ Forall2 (fun m => rep_p3 (m_P2 m)) ms h2s
    /\ rep_p3 (pt_add T (pt_sum (map m_P1 ms))) Tp'.
Proof.
  revert bits xs T Tp. induction ws as [|w ws IH]; intros [|b bits] [|x xs] T Tp Lb Lx HT RT; try done.
  - exists [], [], Tp. split; [reflexivity|]. split; [constructor|]. split; [constructor|].
    eapply rep_p3_eq; [exact RT|]. cbn [map pt_sum foldr zip_with zip].
    rewrite pt_add_comm. symmetry. apply pt_add_O. exact HT.
  - destruct (ver_step_ok T Tp x b w HT RT) as (h1 & h2 & Tp1 & E1 & R1 & R2 & RT1).
    assert (on_curve (pt_add T (m_P1 (bit_member x b w)))) as HT1
      by (apply pt_add_curve; [exact HT|apply pedersen_curve]).
    destruct (IH bits xs _ Tp1 ltac:(by injection Lb) ltac:(by injection Lx) HT1 RT1)
      as (h1s & h2s & Tp' & E & F1 & F2 & RT').
    exists (h1 :: h1s), (h2 :: h2s), Tp'. cbn [zip zip_with map h_points fmap list_fmap ver_loop].
    rewrite E1. go. fold (h_points ws). rewrite E. go.
    split; [reflexivity|]. split; [by constructor|]. split; [by constructor|].
    eapply rep_p3_eq; [exact RT'|]. cbn [pt_sum foldr]. apply pt_add_assoc; [exact HT|apply pedersen_curve|].
    apply pt_sum_curve, Forall_map. apply Forall_forall. intros m.
    intros (i & Hi)%list_elem_of_lookup. rewrite lookup_zip_with in Hi.
    destruct (xs !! i), (zip bits ws !! i) as [[? ?]|]; try done. injection Hi as <-. apply pedersen_curve.
Qed.

Lemma sum_commitments bits ws xs :
  length bits = length ws -> length xs = length bits ->
  pt_eq (pt_sum (map m_P1 (zip_with (fun x '(b, w) => bit_member x b w) xs (zip bits ws))))
    (pedersen (foldr (fun x s => num x + s) 0 xs) (weighted bits ws)).
Proof.
  revert bits ws. induction xs as [|x xs IH]; intros [|b bits] [|w ws] Lb Lx; try discriminate.
  - cbn [zip zip_with map pt_sum foldr weighted]. unfold pedersen, weighted. cbn [zip zip_with foldr].
    rewrite !zmul_0. symmetry. apply pt_add_O, pt_zero_curve.
  - cbn [zip zip_with map pt_sum foldr]. fold (pt_sum (map m_P1 (zip_with (fun x '(b, w) => bit_member x b w) xs (zip bits ws)))).
    cbn [length] in Lb, Lx. rewrite IH by lia. unfold bit_member. cbn [m_P1]. apply pedersen_add.
Qed.

End range.

(** ** The proofs *)

Definition powers : list Z := map (fun i => 2 ^ Z.of_nat i) (seq 0 64).

Lemma H2_h_points : H2 = encode <$> h_points powers.
Proof.
  apply list_eq_same_length with (n := 64%nat); [|exact H2_length|].
  { unfold h_points, powers. rewrite length_fmap, !length_map. apply length_seq. }
  intros i x y Hi Hx Hy. rewrite H2_lookup in Hx by exact Hi.
  unfold h_points, powers in Hy. rewrite map_map in Hy.
  change (map ?f ?l) with (f <$> l) in Hy. rewrite !list_lookup_fmap, lookup_seq_lt in Hy by exact Hi.
  cbn [fmap option_fmap option_map Nat.add] in Hy. congruence.
Qed.


Lemma weighted_digits bits k :
  weighted bits (map (fun i => 2 ^ Z.of_nat i) (seq k (length bits))) = 2 ^ Z.of_nat k * le_val 2 bits.
Proof.
  revert k. induction bits as [|b bits IH]; intros k; [cbn; lia|].
  unfold weighted in *. cbn [length seq map zip zip_with foldr le_val]. rewrite IH.
  rewrite Nat2Z.inj_succ, Z.pow_succ_r by lia. lia.
Qed.

Lemma weighted_amount amount : amount_ok amount -> weighted (le_digits 2 64 amount) powers = amount.
Proof.
  intros Ha. unfold powers. rewrite <- (length_le_digits 2 64 amount) at 2.
  rewrite weighted_digits, le_val_digits by lia. rewrite Z.mul_1_l. by apply Z.mod_small.
Qed.

Lemma bits_of_amount amount : Forall (fun b => b = 0 \/ b = 1) (le_digits 2 64 amount).
Proof. eapply Forall_impl; [apply (le_digits_range 2); lia|]. cbn beta. lia. Qed.

Lemma members_known bits ws xs :
  Forall (fun b => b = 0 \/ b = 1) bits -> Forall valid xs ->
  Forall known (zip_with (fun x '(b, w) => bit_member x b w) xs (zip bits ws)).
Proof.
  intros Hb Hx. apply Forall_forall. intros m (i & Hi)%list_elem_of_lookup. rewrite lookup_zip_with in Hi.
  destruct (xs !! i) as [x|] eqn:Ex; [|discriminate]. cbn in Hi. rewrite lookup_zip_with in Hi.
  destruct (bits !! i) as [b|] eqn:Eb; [|discriminate]. destruct (ws !! i) as [w|]; [|discriminate].
  injection Hi as <-. apply bit_known; [exact (Forall_lookup_1 _ _ _ _ Hx Ex)|exact (Forall_lookup_1 _ _ _ _ Hb Eb)].
Qed.

Lemma members_shape bits ws xs :
  length bits = length ws -> length xs = length bits ->
  let ms := zip_with (fun x '(b, w) => bit_member x b w) xs (zip bits ws) in
  map m_x ms = xs /\ map m_bit ms = bits /\ length ms = length bits.
Proof.
  revert bits ws. induction xs as [|x xs IH]; intros [|b bits] [|w ws] Lb Lx; try discriminate; [done|].
  cbn [length] in Lb, Lx. destruct (IH bits ws ltac:(lia) ltac:(lia)) as (E1 & E2 & E3).
  cbn [zip zip_with map length m_x m_bit bit_member]. by rewrite E1, E2, E3.
Qed.

Lemma identity_rep : rep_p3 pt_zero ge_p3_identity.
Proof. Transparent ge_p3_identity. exact (proj1 (proj2 zero_reps)). Opaque ge_p3_identity. Qed.

Lemma identity_commitment : Identity = encode (pedersen (num sc_0) 0).
Proof.
  rewrite Identity_encoded. apply encode_proper. unfold pedersen. change (num sc_0) with 0.
  rewrite !zmul_0. symmetry. apply pt_add_O, pt_zero_curve.
Qed.

Lemma range_proof_ok `{!FastHash} amount rng rng' :
  amount_ok amount -> Forall scalar rng -> draw 192 rng = Some rng' ->
  exists mask sig, proveRange amount rng = ret (encode (pedersen (num mask) amount), mask, sig, rng')
    /\ valid mask /\ verRange (encode (pedersen (num mask) amount)) sig = Some true.
Proof.
  intros Ha Hr D. change 192%nat with (64 + 2 * 64)%nat in D.
  destruct (draw_add _ _ _ _ Hr D) as (rng1 & D1 & Hr1 & D2).
  set (bits := le_digits 2 64 amount). pose proof (bits_of_amount amount) as Hb. fold bits in Hb.
  assert (length bits = 64%nat) as Lb by apply length_le_digits.
  assert (length bits = length powers) as Lp by (rewrite Lb; reflexivity).
  rewrite <- Lb in D1. pose proof (weighted_amount amount Ha : weighted bits powers = amount) as EW.
  destruct (prove_loop_ok bits powers (Rs sc_0 Identity [] [] []) 0 rng rng1)
    as (_ & xs & mask & Vx & Lx & Vm & Mm & E); [exact Hb|exact Lp|by_eval|exact identity_commitment|exact Hr|exact D1|].
  cbv zeta in E. set (ms := zip_with _ xs (zip bits powers)) in E.
  destruct (members_shape bits powers xs Lp Lx) as (Ex & Eb & El). fold ms in Ex, Eb, El.
  rewrite <- Lb, <- El in D2.
  destruct (genBorromean_ok ms rng1 rng') as (_ & bb & EB & VB);
    [by apply members_known|exact Hr1|exact D2|].
  rewrite Z.add_0_l, EW in E. cbn [rs_ai rs_Ci rs_CiH app] in E.
  destruct (ver_loop_ok bits powers xs pt_zero ge_p3_identity Lp Lx pt_zero_curve identity_rep)
    as (h1s & h2s & Tp & EV & F1 & F2 & RT). fold ms in EV, F1, F2, RT.
  exists mask, (Range bb (map (fun m => encode (m_P1 m)) ms)).
  split; [|split; [exact Vm|]].
  - unfold proveRange. rewrite (d2b_ok amount Ha). fold bits. rgo. rewrite H2_h_points, E. rgo.
    cbn [rs_ai rs_Ci rs_CiH rs_C rs_mask]. rewrite <- Eb at 1. rewrite EB. by rgo.
  - unfold verRange. cbn [Ci asig]. rewrite H2_h_points, EV. go.
    rewrite (ge_p3_tobytes_ok _ Tp RT). go.
    assert (encode (pt_add pt_zero (pt_sum (map m_P1 ms))) = encode (pedersen (num mask) amount)) as ->.
    { apply encode_proper. unfold ms. rewrite (sum_commitments bits powers xs Lp Lx).
      rewrite pt_add_O by apply pedersen_curve. rewrite EW.
      apply pedersen_eqm; [by symmetry|done]. }
    rewrite equalKeys_refl. cbn [negb]. by rewrite (VB h1s h2s F1 F2).
Qed.

(** C22. Range proofs: for every 64-bit amount, with 192 random scalars to
    draw, proveRange returns a commitment to the amount with the mask it
    returns, and verRange accepts the proof for that commitment. *)
Theorem range_proof_verifies `{!FastHash} amount rng rng' :
  amount_ok amount -> Forall scalar rng -> draw 192 rng = Some rng' ->
  exists C mask sig, proveRange amount rng = ret (C, mask, sig, rng')
    /\ valid mask /\ commit amount mask = ret C /\ verRange C sig = Some true.
Proof.
  intros Ha Hr D. destruct (range_proof_ok amount rng rng' Ha Hr D) as (mask & sig & E & V & W).
  exists (encode (pedersen (num mask) amount)), mask, sig.
  exact (conj E (conj V (conj (commit_ok amount mask Ha (proj1 V)) W))).
Qed.

Lemma range_proof_verifies_witness : exists C mask sig,
  @proveRange keccak_fast_hash 1000000000 (replicate 192 key_7) = ret (C, mask, sig, [])
  /\ @verRange keccak_fast_hash C sig = Some true.
Proof.
  destruct (@range_proof_verifies keccak_fast_hash 1000000000 (replicate 192 key_7) []
    ltac:(by_eval) (sevens 192) (draw_sevens 192)) as (C & mask & sig & E & _ & _ & V).
  exists C, mask, sig. exact (conj E V).
Defined.

End RangeProof.
