(* ===== verification/Mlsag.v ===== *)
(** * Multilayered linkable ring signatures

    MLSAG_Gen and MLSAG_Ver of src/ringct/rctSigs.cpp, with the operations of
    the software device (src/device/device_default.cpp) they call.  A matrix of
    keys is a list of columns; the first dsRows rows have a key image.  The
    theorem says that the signature made with the secret keys of one column,
    whichever it is, verifies. *)

From S2P Require Import Prelude Result Keccak Varint Limbs Primality Scalar Fe Ge Curve Points HashPoint BaseData Recode ScalarMult BaseTable Order Multiples Crypto RingSig RctOps RangeProof.
Import Keccak Varint Limbs Scalar Fe Ge Curve Points BaseData ScalarMult BaseTable Order Multiples Crypto RingSig RctOps RangeProof Result.

Module Mlsag.

Record mgSig := Mg { ss : list (list bytes); cc : bytes; II : list bytes }.

(** The part of a multisignature that MLSAG_Gen is given. *)
Record multisig_kLRki := Multisig { ms_k : bytes; ms_L : bytes; ms_R : bytes; ms_ki : bytes }.

Section functions.

Context `{HF : !FastHash}.

(** ** The device *)

(** The nonce, its multiples of the base point and of the hash of the key, and
    the key image. *)
Definition mlsag_prepare (Hi xx : bytes) (rng : randomness) : result (bytes * bytes * bytes * bytes * randomness) :=
  let* (a, aG, rng) := skpkGen rng in
  let* aHP := scalarmultKey Hi a in
  let* ki := scalarmultKey Hi xx in
  ret (a, aG, aHP, ki, rng).

Definition mlsag_hash (toHash : list bytes) : result bytes := hash_keys toHash.

Fixpoint sign_rows (c : bytes) (xx alpha : list bytes) : result (list bytes) :=
  match xx, alpha with
  | x :: xx, a :: alpha =>
      let* s := lift (sc_mulsub c x a) in
      let* l := sign_rows c xx alpha in
      ret (s :: l)
  | _, _ => ret []
  end.

Definition mlsag_sign (c : bytes) (xx alpha : list bytes) (rows dsRows : nat) (ss : list bytes)
    : result (list bytes) :=
  let* _ := ensure (Nat.leb dsRows rows) in
  let* _ := ensure (Nat.eqb (length xx) rows) in
  let* _ := ensure (Nat.eqb (length alpha) rows) in
  let* _ := ensure (Nat.eqb (length ss) rows) in
  sign_rows c xx alpha.

(** ** The columns *)

(** The keys hashed for a row with a key image, and for one without. *)
Definition ds_row (s c_old pk : bytes) (Ip : list ge_cached) : result (list bytes) :=
  let* L := addKeys2 s c_old pk in
  let* Hi := hashToPoint pk in
  let* R := addKeys3 s Hi c_old Ip in
  ret [pk; L; R].

Definition nds_row (s c_old pk : bytes) : result (list bytes) :=
  let* L := addKeys2 s c_old pk in
  ret [pk; L].

(** One column of MLSAG_Gen: the rows with a key image come first. *)
Fixpoint gen_column (s pk : list bytes) (Ip : list (list ge_cached)) (c_old : bytes) : result (list bytes) :=
  match s, pk with
  | a :: s, p :: pk =>
      match Ip with
      | t :: Ip =>
          let* l := ds_row a c_old p t in
          let* r := gen_column s pk Ip c_old in
          ret (l ++ r)
      | [] =>
          let* l := nds_row a c_old p in
          let* r := gen_column s pk [] c_old in
          ret (l ++ r)
      end
  | _, _ => ret []
  end.

(** ** Signing *)

(** What the first loops leave for the rows of the signer's column: nonces, key
    images, precomputed tables and the keys to hash. *)
Record prepared := Prep {
  p_alpha : list bytes; p_II : list bytes; p_Ip : list (list ge_cached); p_hash : list bytes
}.

Definition gen_ds_row (pk x : bytes) (kLRki : option multisig_kLRki) (rng : randomness)
    : result (bytes * bytes * list bytes * randomness) :=
  match kLRki with
  | Some m => ret (ms_k m, ms_ki m, [pk; ms_L m; ms_R m], rng)
  | None =>
      let* Hi := hashToPoint pk in
      let* (a, aG, aHP, ki, rng) := mlsag_prepare Hi x rng in
      ret (a, ki, [pk; aG; aHP], rng)
  end.

Fixpoint gen_rows (dsRows : nat) (pk xx : list bytes) (kLRki : option multisig_kLRki) (rng : randomness)
    : result (prepared * randomness) :=
  match pk, xx with
  | p :: pk, x :: xx =>
      match dsRows with
      | S dsRows =>
          let* (a, ki, l, rng) := gen_ds_row p x kLRki rng in
          let* t := precomp ki in
          let* (r, rng) := gen_rows dsRows pk xx kLRki rng in
          ret (Prep (a :: p_alpha r) (ki :: p_II r) (t :: p_Ip r) (l ++ p_hash r), rng)
      | 0%nat =>
          let* (a, aG, rng) := skpkGen rng in
          let* (r, rng) := gen_rows 0 pk xx kLRki rng in
          ret (Prep (a :: p_alpha r) (p_II r) (p_Ip r) ([p; aG] ++ p_hash r), rng)
      end
  | _, _ => ret (Prep [] [] [] [], rng)
  end.

(** The responses so far, rv.cc (empty until it is set) and the last challenge. *)
Record mg_state := Ms { g_ss : list (list bytes); g_cc : bytes; g_c : bytes }.

Definition gen_step (message : bytes) (pk : list (list bytes)) (Ip : list (list ge_cached))
    (cols rows i : nat) (st : mg_state) (rng : randomness) : result (mg_state * randomness) :=
  let* (s, rng) := skvGen rows rng in
  let* pki := lift (pk !! i) in
  let* l := gen_column s pki Ip (g_c st) in
  let* c := mlsag_hash (message :: l) in
  ret (Ms (<[i := s]> (g_ss st)) (if Nat.eqb ((i + 1) mod cols) 0 then c else g_cc st) c, rng).

Fixpoint gen_loop (fuel : nat) (message : bytes) (pk : list (list bytes)) (Ip : list (list ge_cached))
    (cols rows index i : nat) (st : mg_state) (rng : randomness) : result (mg_state * randomness) :=
  if Nat.eqb i index then ret (st, rng) else
  match fuel with
  | 0%nat => None
  | S fuel =>
      let* (st, rng) := gen_step message pk Ip cols rows i st rng in
      gen_loop fuel message pk Ip cols rows index ((i + 1) mod cols)%nat st rng
  end.

(** The columns after the first are as long as it is. *)
Definition rectangular (rows : nat) (m : list (list bytes)) : bool :=
  forallb (fun col => Nat.eqb (length col) rows) m.

(** The signature and, for a multisignature, the challenge of the signer's
    column.  The loop visits each column but the signer's once, so that [cols]
    steps are enough. *)
Definition MLSAG_Gen (message : bytes) (pk : list (list bytes)) (xx : list bytes)
    (kLRki : option multisig_kLRki) (mscout : bool) (index dsRows : nat) (rng : randomness)
    : result (mgSig * bytes * randomness) :=
  let cols := length pk in
  let* _ := ensure (Nat.leb 2 cols) in
  let* _ := ensure (Nat.ltb index cols) in
  let* pk0 := lift (pk !! 0%nat) in
  let rows := length pk0 in
  let* _ := ensure (Nat.leb 1 rows) in
  let* _ := ensure (rectangular rows (drop 1 pk)) in
  let* _ := ensure (Nat.eqb (length xx) rows) in
  let* _ := ensure (Nat.leb dsRows rows) in
  let* _ := ensure (match kLRki with Some _ => mscout | None => negb mscout end) in
  let* _ := ensure (match kLRki with Some _ => Nat.eqb dsRows 1 | None => true end) in
  let* pki := lift (pk !! index) in
  let* (p, rng) := gen_rows dsRows pki xx kLRki rng in
  let* c_old := mlsag_hash (message :: p_hash p) in
  let i := ((index + 1) mod cols)%nat in
  let st := Ms (replicate cols (replicate rows Zero)) (if Nat.eqb i 0 then c_old else []) c_old in
  let* (st, rng) := gen_loop cols message pk (p_Ip p) cols rows index i st rng in
  let* s := lift (g_ss st !! index) in
  let* s := mlsag_sign (g_c st) xx (p_alpha p) rows dsRows s in
  ret (Mg (<[index := s]> (g_ss st)) (g_cc st) (p_II p), g_c st, rng).

(** ** Verification *)

(** [None] is a return of false. *)
Fixpoint ver_column (s pk : list bytes) (Ip : list (list ge_cached)) (c_old : bytes)
    : result (option (list bytes)) :=
  match s, pk with
  | a :: s, p :: pk =>
      match Ip with
      | t :: Ip =>
          let* L := addKeys2 a c_old p in
          let* Hi := hashToPoint p in
          if bool_decide (Hi = Identity) then ret None else
          let* R := addKeys3 a Hi c_old t in
          let* r := ver_column s pk Ip c_old in
          ret (match r with Some r => Some ([p; L; R] ++ r) | None => None end)
      | [] =>
          let* L := addKeys2 a c_old p in
          let* r := ver_column s pk [] c_old in
          ret (match r with Some r => Some ([p; L] ++ r) | None => None end)
      end
  | _, _ => ret (Some [])
  end.

Fixpoint ver_columns (message : bytes) (pk sss : list (list bytes)) (Ip : list (list ge_cached)) (c_old : bytes)
    : result (option bytes) :=
  match pk, sss with
  | pki :: pk, s :: sss =>
      let* l := ver_column s pki Ip c_old in
      match l with
      | None => ret None
      | Some l =>
          let* c := hash_keys (message :: l) in
          ver_columns message pk sss Ip c
      end
  | _, _ => ret (Some c_old)
  end.

(** Every slot is checked; [false] for a bad one. *)
Fixpoint check_slots (l : list bytes) : result bool :=
  match l with
  | [] => ret true
  | s :: l => let* n := lift (sc_check s) in if n =? 0 then check_slots l else ret false
  end.

Fixpoint precomps (l : list bytes) : result (list (list ge_cached)) :=
  match l with
  | [] => ret []
  | ki :: l => let* t := precomp ki in let* r := precomps l in ret (t :: r)
  end.

Definition MLSAG_Ver (message : bytes) (pk : list (list bytes)) (rv : mgSig) (dsRows : nat) : result bool :=
  let cols := length pk in
  if negb (Nat.leb 2 cols) then ret false else
  let* pk0 := lift (pk !! 0%nat) in
  let rows := length pk0 in
  if negb (Nat.leb 1 rows) then ret false else
  if negb (rectangular rows (drop 1 pk)) then ret false else
  if negb (Nat.eqb (length (II rv)) dsRows) then ret false else
  if negb (Nat.eqb (length (ss rv)) cols) then ret false else
  if negb (rectangular rows (ss rv)) then ret false else
  if negb (Nat.leb dsRows rows) then ret false else
  let* ok := check_slots (concat (ss rv)) in
  if negb ok then ret false else
  let* n := lift (sc_check (cc rv)) in
  if negb (n =? 0) then ret false else
  let* Ip := precomps (II rv) in
  let* c := ver_columns message pk (ss rv) Ip (cc rv) in
  match c with
  | None => ret false
  | Some c_old =>
      let* c := lift (sc_sub c_old (cc rv)) in
      ret (sc_isnonzero c =? 0)
  end.

End functions.


(** The proofs use the operations of the curve by their specifications only. *)
#[local] Opaque ge_base ge_Bi ge_scalarmult_base ge_scalarmult ge_double_scalarmult_base_vartime
  ge_double_scalarmult_precomp_vartime ge_dsm_precomp ge_frombytes_vartime ge_p3_tobytes ge_tobytes
  ge_fromfe_frombytes_vartime ge_mul8 ge_add ge_sub ge_p1p1_to_p2 ge_p1p1_to_p3 ge_p3_to_cached
  sc_add sc_sub sc_mulsub sc_reduce32 sc_check encode residue H2 H2_points.

Section columns.

Context `{HF : !FastHash}.

(** ** Columns *)

Definition tabled (t : list ge_cached) : Prop := exists I, on_curve I /\ precomputed I t.

(** No key of the first [n] rows hashes to the neutral element. *)
Definition hashed_well (n : nat) (pk : list bytes) : Prop :=
  Forall (fun p => hashToPoint p <> ret Identity) (take n pk).

Lemma ds_row_ok s c P Q I t :
  valid s -> valid c -> on_curve P -> hashes (encode P) Q -> on_curve I -> precomputed I t ->
  ds_row s c (encode P) t
  = ret [encode P; encode (pt_add (zmul (num c) P) (zmul (num s) B));
         encode (pt_add (zmul (num s) Q) (zmul (num c) I))].
Proof.
  intros Hs Hc HP HQ HI Ht. unfold ds_row. rewrite addKeys2_ok by assumption. rgo.
  rewrite (hashToPoint_ok _ Q HQ). rgo.
  rewrite (addKeys3_ok s c Q I t Hs Hc (proj1 HQ) HI Ht). by rgo.
Qed.

Lemma nds_row_ok s c P :
  valid s -> valid c -> on_curve P ->
  nds_row s c (encode P) = ret [encode P; encode (pt_add (zmul (num c) P) (zmul (num s) B))].
Proof. intros Hs Hc HP. unfold nds_row. rewrite addKeys2_ok by assumption. by rgo. Qed.

(** A column of points is hashed without an exception, and alike when signing
    and verifying. *)
Lemma column_ok s Ps Ts c :
  Forall valid s -> length s = length Ps -> Forall on_curve Ps -> Forall tabled Ts -> valid c ->
  exists l, gen_column s (encode <$> Ps) Ts c = ret l
    /\ (hashed_well (length Ts) (encode <$> Ps) -> ver_column s (encode <$> Ps) Ts c = ret (Some l)).
Proof.
  intros Hs. revert Ps Ts. induction Hs as [|a s Ha Hs IH]; intros [|P Ps] Ts L HPs HTs Hc; try discriminate.
  - exists []. split; [reflexivity|]. intros _. reflexivity.
  - apply Forall_cons in HPs as [HP HPs]. injection L as L. destruct HTs as [|t Ts (I & HI & Ht) HTs].
    + destruct (IH Ps [] L HPs ltac:(constructor) Hc) as (l & E & V).
      eexists. rewrite fmap_cons. cbn [gen_column ver_column]. rewrite nds_row_ok by assumption. rgo.
      rewrite E. rgo. split; [reflexivity|].
      intros _. rewrite addKeys2_ok by assumption. rgo. rewrite V by constructor. by rgo.
    + destruct (IH Ps Ts L HPs HTs Hc) as (l & E & V). destruct (hash_to_ec_ok (encode P)) as (Q & HQ).
      eexists. rewrite fmap_cons. cbn [gen_column ver_column].
      rewrite (ds_row_ok a c P Q I t) by assumption. rgo. rewrite E. rgo. split; [reflexivity|].
      intros W. apply Forall_cons in W as [W1 W2]. rewrite addKeys2_ok by assumption. rgo.
      rewrite (hashToPoint_ok _ Q HQ) in W1 |- *. rgo. rewrite bool_decide_eq_false_2 by congruence.
      rewrite (addKeys3_ok a c Q I t Ha Hc (proj1 HQ) HI Ht). rgo. rewrite (V W2). by rgo.
Qed.

(** ** The signer's column *)

Lemma skpkGen_ok rng k rng' :
  random_scalar rng = Some (k, rng') -> valid k -> skpkGen rng = ret (k, encode (zmul (num k) B), rng').
Proof.
  intros E V. unfold skpkGen, skGen. rewrite E. rgo. rewrite scalarmultBase_ok by apply V. by rgo.
Qed.

Definition response (c x a : bytes) : bytes := residue (num a - num c * num x).

Lemma response_num c x a : num (response c x a) = (num a - num c * num x) mod ell.
Proof. apply num_residue. Qed.

Lemma signed_nds c x a P :
  valid c -> valid x -> valid a -> on_curve P -> pt_eq P (zmul (num x) B) ->
  nds_row (response c x a) c (encode P) = ret [encode P; encode (zmul (num a) B)].
Proof.
  intros Hc Hx Ha HP E. rewrite nds_row_ok by (assumption || apply residue_valid).
  by rewrite (response_at c x a (response c x a) P E) by apply response_num.
Qed.

Lemma signed_ds c x a P Q t :
  valid c -> valid x -> valid a -> on_curve P -> pt_eq P (zmul (num x) B) -> hashes (encode P) Q ->
  precomputed (zmul (num x) Q) t ->
  ds_row (response c x a) c (encode P) t = ret [encode P; encode (zmul (num a) B); encode (zmul (num a) Q)].
Proof.
  intros Hc Hx Ha HP E HQ Ht. pose proof HQ as (CQ & OQ & _).
  rewrite (ds_row_ok _ c P Q (zmul (num x) Q) t) by (assumption || apply residue_valid || (apply zmul_curve; exact CQ)).
  rewrite (response_at c x a (response c x a) P E) by apply response_num.
  rewrite (pt_add_comm (zmul (num (response c x a)) Q)).
  by rewrite (response_multiple c (num x) (num a) _ Q OQ CQ (response_num c x a)).
Qed.

(** What the preparation of the signer's rows must give: for every challenge
    the responses reproduce the keys that were hashed. *)
Definition prepared_for (d : nat) (Ps : list point) (xs : list bytes) (p : prepared) : Prop :=
  length (p_alpha p) = length Ps /\ length (p_II p) = d /\ length (p_Ip p) = d /\ Forall tabled (p_Ip p)
  /\ precomps (p_II p) = ret (p_Ip p)
  /\ forall c, valid c -> exists s, sign_rows c xs (p_alpha p) = ret s /\ Forall valid s /\ length s = length Ps
       /\ gen_column s (encode <$> Ps) (p_Ip p) c = ret (p_hash p).

Lemma gen_rows_nds Ps xs rng rng' :
  Forall2 (fun P x => on_curve P /\ valid x /\ pt_eq P (zmul (num x) B)) Ps xs ->
  Forall scalar rng -> draw (length Ps) rng = Some rng' ->
  Forall scalar rng' /\ exists p, gen_rows 0 (encode <$> Ps) xs None rng = ret (p, rng')
    /\ prepared_for 0 Ps xs p.
Proof.
  intros F. revert rng. induction F as [|P x Ps xs (HP & Hx & E) F IH]; intros rng Hr D.
  - injection D as <-. split; [assumption|]. eexists. split; [reflexivity|].
    do 4 (split; [constructor|]). split; [reflexivity|]. intros c _. exists []. repeat split; constructor.
  - destruct (draw_S _ _ _ Hr D) as (a & rng1 & Ea & Va & Hr1 & D1).
    destruct (IH rng1 Hr1 D1) as (Hr' & p & Ep & La & LI & LT & FT & EP & S). split; [assumption|].
    eexists. rewrite fmap_cons. cbn [gen_rows]. rewrite (skpkGen_ok _ _ _ Ea Va). rgo. rewrite Ep. rgo.
    split; [reflexivity|]. unfold prepared_for. cbn [p_alpha p_II p_Ip p_hash length].
    split; [lia|]. split; [exact LI|]. split; [exact LT|]. split; [exact FT|]. split; [exact EP|].
    intros c Hc. destruct (S c Hc) as (s & E1 & Vs & Ls & E2).
    exists (response c x a :: s). cbn [sign_rows]. rewrite sc_mulsub_ok by (apply Hc || apply Hx || apply Va).
    rgo. rewrite E1. rgo. split; [reflexivity|]. split; [constructor; [apply residue_valid|exact Vs]|].
    split; [cbn [length]; lia|]. rewrite fmap_cons. cbn [gen_column].
    apply length_zero_iff_nil in LT. rewrite LT in E2 |- *.
    rewrite signed_nds by assumption. rgo. rewrite E2. by rgo.
Qed.

Lemma gen_rows_ok d Ps xs rng rng' :
  (d <= length Ps)%nat ->
  Forall2 (fun P x => on_curve P /\ valid x /\ pt_eq P (zmul (num x) B)) Ps xs ->
  Forall scalar rng -> draw (length Ps) rng = Some rng' ->
  Forall scalar rng' /\ exists p, gen_rows d (encode <$> Ps) xs None rng = ret (p, rng')
    /\ prepared_for d Ps xs p.
Proof.
  intros Hd F. revert d Hd rng. induction F as [|P x Ps xs (HP & Hx & E) F IH]; intros d Hd rng Hr D.
  { assert (d = 0%nat) as -> by (cbn in Hd; lia). apply gen_rows_nds; [constructor|assumption..]. }
  destruct d as [|d]; [apply gen_rows_nds; [by constructor|assumption..]|].
  destruct (draw_S _ _ _ Hr D) as (a & rng1 & Ea & Va & Hr1 & D1). cbn [length] in Hd.
  destruct (IH d ltac:(lia) rng1 Hr1 D1) as (Hr' & p & Ep & La & LI & LT & FT & EP & S). split; [assumption|].
  destruct (hash_to_ec_ok (encode P)) as (Q & HQ). pose proof HQ as (CQ & OQ & _).
  destruct (precomp_ok (zmul (num x) Q) (zmul_curve _ _ CQ)) as (t & Et & Pt).
  eexists. rewrite fmap_cons. cbn [gen_rows]. unfold gen_ds_row, mlsag_prepare.
  rewrite (hashToPoint_ok _ Q HQ). rewrite !rbind_ret. rewrite (skpkGen_ok _ _ _ Ea Va). rewrite !rbind_ret.
  rewrite !scalarmultKey_ok by (assumption || by apply valid_small). rewrite !rbind_ret. rewrite Et. rgo. rewrite Ep. rgo.
  split; [reflexivity|]. unfold prepared_for. cbn [p_alpha p_II p_Ip p_hash length].
  split; [lia|]. split; [lia|]. split; [lia|].
  split; [constructor; [exists (zmul (num x) Q); exact (conj (zmul_curve _ _ CQ) Pt)|exact FT]|].
  split; [cbn [precomps]; rewrite Et; rgo; rewrite EP; by rgo|].
  intros c Hc. destruct (S c Hc) as (s & E1 & Vs & Ls & E2).
  exists (response c x a :: s). cbn [sign_rows]. rewrite sc_mulsub_ok by (apply Hc || apply Hx || apply Va).
  rgo. rewrite E1. rgo. split; [reflexivity|]. split; [constructor; [apply residue_valid|exact Vs]|].
  split; [cbn [length]; lia|]. rewrite fmap_cons. cbn [gen_column].
  rewrite (signed_ds c x a P Q t) by assumption. rgo. rewrite E2. by rgo.
Qed.

(** ** The loop over the columns *)

Lemma skv_loop_ok n rng rng' :
  Forall scalar rng -> draw n rng = Some rng' ->
  Forall scalar rng' /\ exists s, skv_loop n rng = ret (s, rng') /\ Forall valid s /\ length s = n.
Proof.
  revert rng. induction n as [|n IH]; intros rng Hr D.
  - injection D as <-. split; [assumption|]. exists []. split; [reflexivity|]. split; [constructor|reflexivity].
  - destruct (draw_S _ _ _ Hr D) as (a & rng1 & Ea & Va & Hr1 & D1).
    destruct (IH rng1 Hr1 D1) as (Hr' & s & E & Vs & L). split; [assumption|]. exists (a :: s).
    cbn [skv_loop]. rewrite (skGen_ok _ _ _ Ea). rgo. rewrite E. rgo.
    split; [reflexivity|]. split; [by constructor|cbn [length]; lia].
Qed.

Definition encoded_columns (PK : list (list point)) : list (list bytes) := fmap (M := list) (fun Ps : list point => encode <$> Ps) PK.

Definition full_column (rows : nat) (Ps : list point) : Prop := Forall on_curve Ps /\ length Ps = rows.

(** Responses for a column. *)
Definition full_row (rows : nat) (s : list bytes) : Prop := Forall valid s /\ length s = rows.

Context (message : bytes) (PK : list (list point)) (Ts : list (list ge_cached)) (rows index : nat).
Hypothesis HPK : Forall (full_column rows) PK.
Hypothesis HTs : Forall tabled Ts.
Hypothesis Hrows : (1 <= rows)%nat.

Let pk : list (list bytes) := encoded_columns PK.
Let cols : nat := length PK.

Lemma ver_columns_cons pki pks s sss c l c' :
  ver_column s pki Ts c = ret (Some l) -> hash_keys (message :: l) = ret c' ->
  ver_columns message (pki :: pks) (s :: sss) Ts c = ver_columns message pks sss Ts c'.
Proof. intros E1 E2. cbn [ver_columns]. rewrite E1. rgo. rewrite E2. by rgo. Qed.

Lemma gen_step_ok i st rng rng' :
  (i < cols)%nat -> valid (g_c st) -> Forall scalar rng -> draw rows rng = Some rng' ->
  Forall scalar rng' /\ exists s c, full_row rows s /\ valid c
    /\ gen_step message pk Ts cols rows i st rng
       = ret (Ms (<[i := s]> (g_ss st)) (if Nat.eqb ((i + 1) mod cols) 0 then c else g_cc st) c, rng')
    /\ (Forall (hashed_well (length Ts)) pk ->
        forall pks sss pki, pk !! i = Some pki ->
        ver_columns message (pki :: pks) (s :: sss) Ts (g_c st) = ver_columns message pks sss Ts c).
Proof.
  intros Hi Hc Hr D. destruct (skv_loop_ok rows rng rng' Hr D) as (Hr' & s & Es & Vs & Ls). split; [assumption|].
  destruct (lookup_lt_is_Some_2 PK i Hi) as [Ps HPs].
  destruct (Forall_lookup_1 _ _ _ _ HPK HPs) as [CPs LPs].
  destruct (column_ok s Ps Ts (g_c st) Vs ltac:(congruence) CPs HTs Hc) as (l & El & Vl).
  assert (pk !! i = Some (encode <$> Ps)) as Epk by (unfold pk, encoded_columns; by rewrite list_lookup_fmap, HPs).
  exists s, (residue (num (fast_hash (concat (message :: l))))). split; [by split|]. split; [apply residue_valid|]. split.
  - unfold gen_step, skvGen. rewrite ensure_holds by by apply Nat.ltb_lt. rewrite rbind_ret, Es, rbind_ret.
    rewrite Epk. rgo. rewrite El. rgo. unfold mlsag_hash. rewrite hash_keys_ok. by rgo.
  - intros W pks sss pki Hpki. assert (pki = encode <$> Ps) as -> by congruence.
    apply (ver_columns_cons _ _ _ _ _ l); [|apply hash_keys_ok].
    apply Vl. exact (Forall_lookup_1 _ _ _ _ W Epk).
Qed.

Lemma take_insert_drop {A} (l news : list A) i k x :
  (i < length l)%nat ->
  take (S i) (<[i := x]> l) ++ news ++ drop (S i + k) (<[i := x]> l)
  = take i l ++ (x :: news) ++ drop (i + S k) l.
Proof.
  intros Hi. rewrite (take_S_r _ i x) by by apply list_lookup_insert_eq.
  rewrite take_insert_ge, drop_insert_lt by lia. rewrite <- app_assoc. cbn [app].
  by replace (S i + k)%nat with (i + S k)%nat by lia.
Qed.

Lemma wrap_index i : (i < cols)%nat -> Nat.eqb ((i + 1) mod cols) 0 = Nat.eqb (i + 1) cols.
Proof.
  intros Hi. destruct (Nat.eqb_spec (i + 1) cols) as [->|N].
  - rewrite Nat.Div0.mod_same. reflexivity.
  - rewrite Nat.mod_small by lia. by destruct (Nat.eqb_spec (i + 1) 0); [lia|].
Qed.

(** Columns [i] to [i + k - 1], none of them the signer's. *)
Lemma segment k i st rng rng' fuel :
  (i < cols)%nat -> (i + k <= cols)%nat -> (index < i \/ i + k <= index)%nat ->
  valid (g_c st) -> length (g_ss st) = cols -> Forall scalar rng -> draw (k * rows) rng = Some rng' ->
  Forall scalar rng' /\ exists news c, Forall (full_row rows) news /\ length news = k /\ valid c
    /\ gen_loop (k + fuel) message pk Ts cols rows index i st rng
       = gen_loop fuel message pk Ts cols rows index ((i + k) mod cols)%nat
           (Ms (take i (g_ss st) ++ news ++ drop (i + k) (g_ss st))
               (if Nat.ltb 0 k && Nat.eqb (i + k) cols then c else g_cc st) c) rng'
    /\ (Forall (hashed_well (length Ts)) pk -> forall pks sss,
        ver_columns message (take k (drop i pk) ++ pks) (news ++ sss) Ts (g_c st)
        = ver_columns message pks sss Ts c).
Proof.
  revert i st rng. induction k as [|k IH]; intros i st rng Hi Hk Hx Hc Ls Hr D.
  - injection D as <-. split; [assumption|]. exists [], (g_c st). split; [constructor|]. split; [reflexivity|].
    split; [assumption|]. split; [|intros _ pks sss; reflexivity].
    cbn [app Nat.ltb Nat.leb andb]. rewrite !Nat.add_0_r, take_drop, Nat.mod_small by exact Hi. by destruct st.
  - cbn [Nat.mul] in D. destruct (draw_add _ _ _ _ Hr D) as (rng1 & D1 & Hr1 & D2).
    destruct (gen_step_ok i st rng rng1 Hi Hc Hr D1) as (_ & s & c1 & Fs & V1 & E1 & W1).
    destruct (lookup_lt_is_Some_2 pk i) as [pki Hpki]; [unfold pk, encoded_columns; by rewrite length_fmap|].
    set (st1 := Ms (<[i := s]> (g_ss st)) (if Nat.eqb ((i + 1) mod cols) 0 then c1 else g_cc st) c1) in E1.
    assert (gen_loop (S k + fuel) message pk Ts cols rows index i st rng
      = gen_loop (k + fuel) message pk Ts cols rows index ((i + 1) mod cols) st1 rng1) as EL.
    { cbn [Nat.add gen_loop]. destruct (Nat.eqb_spec i index); [lia|]. rewrite E1. by rgo. }
    rewrite EL, (drop_S _ _ _ Hpki). destruct k as [|k].
    + injection D2 as <-. split; [assumption|]. exists [s], c1.
      split; [by apply Forall_singleton|]. split; [reflexivity|]. split; [assumption|]. split.
      * cbn [Nat.add Nat.ltb Nat.leb andb]. unfold st1.
        rewrite <- (take_insert_drop (g_ss st) [] i 0 s) by congruence.
        rewrite Nat.add_0_r, app_nil_l, take_drop. by rewrite (wrap_index i Hi).
      * intros W pks sss. cbn [take app]. by apply W1.
    + assert ((i + 1) mod cols = S i)%nat as Ei by (rewrite Nat.mod_small; lia).
      destruct (IH (S i) st1 rng1) as (Hr' & news & c & Fn & Ln & Vc & E2 & W2);
        [lia|lia|lia|exact V1|unfold st1; cbn [g_ss]; by rewrite length_insert|assumption|exact D2|].
      split; [assumption|]. exists (s :: news), c. split; [by constructor|]. split; [cbn [length]; lia|].
      split; [assumption|]. split.
      * rewrite Ei, E2. unfold st1. cbn [g_ss g_cc].
        rewrite (take_insert_drop (g_ss st) news i (S k) s) by congruence. rewrite Ei.
        replace (S i + S k)%nat with (i + S (S k))%nat by lia. reflexivity.
      * intros W pks sss. cbn [take app]. rewrite (W1 W _ _ _ Hpki). exact (W2 W pks sss).
Qed.

(** All columns but the signer's, from the one after it round to it. *)
Lemma whole_loop ss0 c0 rng rng' :
  (index < cols)%nat -> valid c0 -> length ss0 = cols -> Forall scalar rng ->
  draw ((cols - 1) * rows) rng = Some rng' ->
  exists pre post x c1 c2, Forall (full_row rows) pre /\ Forall (full_row rows) post
    /\ length pre = index /\ length (pre ++ x :: post) = cols /\ ss0 !! index = Some x /\ valid c1 /\ valid c2
    /\ gen_loop cols message pk Ts cols rows index ((index + 1) mod cols)%nat
         (Ms ss0 (if Nat.eqb ((index + 1) mod cols) 0 then c0 else []) c0) rng
       = ret (Ms (pre ++ x :: post) c1 c2, rng')
    /\ (Forall (hashed_well (length Ts)) pk ->
        (forall pks sss, ver_columns message (take index pk ++ pks) (pre ++ sss) Ts c1
                         = ver_columns message pks sss Ts c2)
        /\ ver_columns message (drop (S index) pk) post Ts c0 = ret (Some c1)).
Proof.
  intros Hi V0 L0 Hr D. set (k := (cols - 1 - index)%nat).
  replace ((cols - 1) * rows)%nat with (k * rows + index * rows)%nat in D by (unfold k; nia).
  destruct (draw_add _ _ _ _ Hr D) as (rng1 & D1 & Hr1 & D2).
  destruct (lookup_lt_is_Some_2 ss0 index ltac:(congruence)) as [x Hx].
  (* the columns after the signer's *)
  assert (exists post c1, Forall (full_row rows) post /\ length post = k /\ valid c1
    /\ gen_loop cols message pk Ts cols rows index ((index + 1) mod cols)%nat
         (Ms ss0 (if Nat.eqb ((index + 1) mod cols) 0 then c0 else []) c0) rng
       = gen_loop (index + 1) message pk Ts cols rows index 0 (Ms (take (S index) ss0 ++ post) c1 c1) rng1
    /\ (Forall (hashed_well (length Ts)) pk -> ver_columns message (drop (S index) pk) post Ts c0 = ret (Some c1)))
    as (post & c1 & Fp & Lp & V1 & E1 & W1).
  { destruct (decide (k = 0)%nat) as [K|K].
    - exists [], c0. assert ((index + 1)%nat = cols) as EI by (unfold k in K; lia).
      rewrite K in D1. injection D1 as <-. split; [constructor|]. split; [by rewrite K|]. split; [assumption|].
      rewrite EI, Nat.Div0.mod_same. cbn [Nat.eqb]. rewrite take_ge by lia. rewrite app_nil_r.
      split; [reflexivity|]. intros _. rewrite drop_ge by (unfold pk, encoded_columns; rewrite length_fmap; fold cols; lia). reflexivity.
    - destruct (segment k (index + 1) (Ms ss0 [] c0) rng rng1 (index + 1)) as (_ & post & c1 & Fp & Lp & V1 & E & W);
        [unfold k; lia|unfold k; lia|lia|assumption|assumption|assumption|assumption|].
      exists post, c1. split; [assumption|]. split; [assumption|]. split; [assumption|]. split.
      + rewrite Nat.mod_small by (unfold k in K; lia). destruct (Nat.eqb_spec (index + 1) 0); [lia|].
        replace cols with (k + (index + 1))%nat at 1 by (unfold k; lia). rewrite E. cbn [g_ss g_cc].
        replace (index + 1 + k)%nat with cols by (unfold k; lia).
        rewrite Nat.Div0.mod_same, Nat.eqb_refl, (proj2 (Nat.ltb_lt 0 k)) by lia. cbn [andb].
        rewrite drop_ge by lia. by rewrite app_nil_r, Nat.add_1_r.
      + intros Wl. specialize (W Wl [] []). rewrite !app_nil_r in W. cbn [g_c] in W.
        rewrite take_ge in W by (rewrite length_drop; unfold pk, encoded_columns; rewrite length_fmap; fold cols; unfold k; lia).
        rewrite Nat.add_1_r in W. rewrite W. reflexivity. }
  destruct (segment index 0 (Ms (take (S index) ss0 ++ post) c1 c1) rng1 rng' 1)
    as (_ & pre & c2 & Fq & Lq & V2 & E2 & W2);
    [lia|lia|lia|assumption|cbn [g_ss]; rewrite length_app, length_take; unfold k in Lp; lia|assumption|assumption|].
  exists pre, post, x, c1, c2. split; [assumption|]. split; [assumption|]. split; [assumption|].
  split; [rewrite length_app; cbn [length]; unfold k in Lp; lia|]. split; [assumption|]. split; [assumption|].
  split; [assumption|]. split.
  - rewrite E1, E2. cbn [Nat.add g_ss g_cc take app]. rewrite Nat.mod_small by lia.
    cbn [gen_loop]. rewrite Nat.eqb_refl. destruct (Nat.eqb_spec index cols); [lia|]. rewrite andb_false_r.
    rewrite (take_S_r _ _ _ Hx), <- app_assoc, drop_app_length' by (rewrite length_take; lia). reflexivity.
  - intros W. split; [|by apply W1]. intros pks sss. specialize (W2 W pks sss). by rewrite drop_0 in W2.
Qed.

End columns.


Lemma check_slots_ok l : Forall valid l -> check_slots l = ret true.
Proof.
  induction 1 as [|s l V _ IH]; [reflexivity|]. cbn [check_slots]. rewrite (valid_check s V). rgo. exact IH.
Qed.

Lemma columns_rectangular rows PK n :
  Forall (full_column rows) PK -> rectangular rows (drop n (encoded_columns PK)) = true.
Proof.
  intros F. apply forallb_forall. intros col Hc%list_elem_of_In. apply Nat.eqb_eq.
  apply subseteq_drop in Hc || apply (elem_of_drop_subset n) in Hc.
  apply list_elem_of_fmap in Hc as (Ps & -> & HPs). rewrite length_fmap.
  exact (proj2 (proj1 (Forall_forall _ _) F Ps HPs)).
Qed.

Lemma first_column rows PK :
  (2 <= length PK)%nat -> Forall (full_column rows) PK ->
  exists pk0, encoded_columns PK !! 0%nat = Some pk0 /\ length pk0 = rows.
Proof.
  destruct PK as [|P0 PK]; [cbn; lia|]. intros _ [[_ L] _]%Forall_cons. exists (encode <$> P0).
  split; [reflexivity|]. by rewrite length_fmap.
Qed.

Lemma rows_checked rows sss :
  Forall (full_row rows) sss -> rectangular rows sss = true /\ check_slots (concat sss) = ret true.
Proof.
  intros F. split.
  - apply forallb_forall. intros s Hs%list_elem_of_In. apply Nat.eqb_eq.
    exact (proj2 (proj1 (Forall_forall _ _) F s Hs)).
  - apply check_slots_ok. apply Forall_concat. eapply Forall_impl; [exact F|]. by intros s [V _].
Qed.

(** What MLSAG_Ver needs of a signature. *)
Lemma mlsag_accepted `{!FastHash} message PK rows d sss c1 Is Ts :
  (2 <= length PK)%nat -> (1 <= rows)%nat -> (d <= rows)%nat -> Forall (full_column rows) PK ->
  Forall (full_row rows) sss -> length sss = length PK -> valid c1 -> length Is = d -> precomps Is = ret Ts ->
  ver_columns message (encoded_columns PK) sss Ts c1 = ret (Some c1) ->
  MLSAG_Ver message (encoded_columns PK) (Mg sss c1 Is) d = ret true.
Proof.
  intros H2' H1 Hd HPK Fs Ls V1 LI EI EV. unfold MLSAG_Ver. cbn [ss cc II].
  assert (length (encoded_columns PK) = length PK) as Lpk by apply length_fmap. rewrite Lpk.
  rewrite (proj2 (Nat.leb_le 2 _) H2'). cbn [negb].
  destruct (first_column rows PK H2' HPK) as (pk0 & -> & L0). rgo. rewrite L0.
  rewrite (proj2 (Nat.leb_le 1 _) H1), (columns_rectangular rows PK 1 HPK). cbn [negb].
  destruct (rows_checked rows sss Fs) as [R1 R2].
  rewrite LI, Ls, !Nat.eqb_refl, R1, (proj2 (Nat.leb_le d _) Hd), R2. cbn [negb]. rgo. cbn [negb].
  rewrite (valid_check c1 V1). rgo. cbn [Z.eqb negb]. rewrite EI. rgo. rewrite EV. rgo.
  destruct (compare_ok c1 c1 (proj1 V1) (proj1 V1)) as (z & -> & Ez). rgo.
  rewrite Ez. by rewrite bool_decide_eq_true_2.
Qed.

(** Signatures on a matrix of points. *)
Lemma mlsag_points `{!FastHash} message PK Ps xs index d rows rng rng' :
  (2 <= length PK)%nat -> (1 <= rows)%nat -> (d <= rows)%nat -> Forall (full_column rows) PK ->
  PK !! index = Some Ps ->
  Forall2 (fun P x => on_curve P /\ valid x /\ pt_eq P (zmul (num x) B)) Ps xs ->
  Forall (hashed_well d) (encoded_columns PK) ->
  Forall scalar rng -> draw (length PK * rows) rng = Some rng' ->
  exists sig c, MLSAG_Gen message (encoded_columns PK) xs None false index d rng = ret (sig, c, rng')
    /\ MLSAG_Ver message (encoded_columns PK) sig d = ret true.
Proof.
  intros H2' H1 Hd HPK HPs Fx W Hr D.
  pose proof (lookup_lt_Some _ _ _ HPs) as Hi.
  destruct (Forall_lookup_1 _ _ _ _ HPK HPs) as [CPs LPs]. pose proof (Forall2_length _ _ _ Fx) as Lx.
  replace (length PK * rows)%nat with (rows + (length PK - 1) * rows)%nat in D by nia.
  destruct (draw_add _ _ _ _ Hr D) as (rng1 & D1 & Hr1 & D2). rewrite <- LPs in D1.
  destruct (gen_rows_ok d Ps xs rng rng1 ltac:(lia) Fx Hr D1) as (_ & p & Ep & La & LI & LT & FT & EP & S).
  set (c0 := residue (num (fast_hash (concat (message :: p_hash p))))).
  destruct (whole_loop message PK (p_Ip p) rows index HPK FT H1 (replicate (length PK) (replicate rows Zero))
    c0 rng1 rng' Hi (residue_valid _) ltac:(apply length_replicate) Hr1 D2)
    as (pre & post & x & c1 & c2 & Fpre & Fpost & Lpre & Lall & Hx & V1 & V2 & EL & W').
  rewrite LT in W'. specialize (W' W) as [Wpre Wpost].
  destruct (S c2 V2) as (s & Es & Vs & Ls & Ec).
  exists (Mg (pre ++ s :: post) c1 (p_II p)), c2. split.
  - unfold MLSAG_Gen.
    assert (length (encoded_columns PK) = length PK) as -> by apply length_fmap.
    destruct (first_column rows PK H2' HPK) as (pk0 & -> & L0).
    rewrite (ensure_holds _ (proj2 (Nat.leb_le 2 _) H2')), (ensure_holds _ (proj2 (Nat.ltb_lt index _) Hi)).
    rewrite !rbind_ret, lift_some, rbind_ret, L0.
    rewrite (ensure_holds _ (proj2 (Nat.leb_le 1 _) H1)), (ensure_holds _ (columns_rectangular rows PK 1 HPK)).
    rewrite (ensure_holds _ (proj2 (Nat.eqb_eq (length xs) rows) ltac:(congruence))).
    rewrite (ensure_holds _ (proj2 (Nat.leb_le d rows) Hd)). cbn [negb]. rewrite !(ensure_holds true) by reflexivity.
    rewrite !rbind_ret.
    assert (encoded_columns PK !! index = Some (encode <$> Ps)) as ->
      by (unfold encoded_columns; by rewrite list_lookup_fmap, HPs).
    rgo. rewrite Ep. rgo. unfold mlsag_hash at 1. rewrite hash_keys_ok. rgo. fold c0. rewrite EL. rgo.
    cbn [g_ss g_c g_cc]. rewrite list_lookup_middle by (symmetry; exact Lpre). rgo.
    unfold mlsag_sign.
    rewrite (ensure_holds _ (proj2 (Nat.leb_le d rows) Hd)), (ensure_holds _ (proj2 (Nat.eqb_eq (length xs) rows) ltac:(congruence))).
    rewrite (ensure_holds _ (proj2 (Nat.eqb_eq (length (p_alpha p)) rows) ltac:(congruence))).
    rewrite (ensure_holds (Nat.eqb (length x) rows)) by (apply lookup_replicate in Hx as [-> _]; by apply Nat.eqb_eq, length_replicate).
    rewrite !rbind_ret, Es. rgo.
    rewrite <- Lpre, insert_app_r_alt, Nat.sub_diag by lia. reflexivity.
  - apply mlsag_accepted with (Ts := p_Ip p) (rows := rows); try assumption.
    + apply Forall_app. split; [assumption|]. constructor; [|assumption]. split; [assumption|congruence].
    + rewrite <- Lall, !length_app. reflexivity.
    + assert (encoded_columns PK = take index (encoded_columns PK) ++ (encode <$> Ps) :: drop (Datatypes.S index) (encoded_columns PK)) as EQ.
      { symmetry. apply take_drop_middle. unfold encoded_columns. by rewrite list_lookup_fmap, HPs. }
      rewrite EQ at 1. rewrite Wpre.
      destruct (column_ok s Ps (p_Ip p) c2 Vs ltac:(congruence) CPs FT V2) as (l & El & Vl).
      assert (l = p_hash p) as -> by (apply ret_inj; congruence).
      rewrite (ver_columns_cons message (p_Ip p) (encode <$> Ps) _ s post c2 (p_hash p) c0); [exact Wpost| |apply hash_keys_ok].
      apply Vl. rewrite LT. apply (Forall_lookup_1 _ _ index _ W). unfold encoded_columns. by rewrite list_lookup_fmap, HPs.
Qed.


Lemma matrix_points rows pk :
  Forall (fun col => length col = rows /\ Forall (fun p => scalar p /\ check_key p = Some true) col) pk ->
  exists PK, pk = encoded_columns PK /\ Forall (full_column rows) PK.
Proof.
  induction 1 as [|col pk [L K] _ (PK & -> & F)]; [by exists []|].
  destruct (key_points col K) as (Ps & -> & C). exists (Ps :: PK). split; [reflexivity|].
  constructor; [|exact F]. split; [exact C|]. by rewrite length_fmap in L.
Qed.

Lemma secret_points Ps xx :
  Forall on_curve Ps ->
  Forall2 (fun p x => valid x /\ secret_key_to_public_key x = Some (Some p)) (encode <$> Ps) xx ->
  Forall2 (fun P x => on_curve P /\ valid x /\ pt_eq P (zmul (num x) B)) Ps xx.
Proof.
  intros C. rewrite Forall2_fmap_l. intros F. induction F as [|P x Ps xx [V E] F IH]; [constructor|].
  apply Forall_cons in C as [HP C]. constructor; [|exact (IH C)]. split; [exact HP|]. split; [exact V|].
  rewrite public_key_ok in E by exact V. apply encode_inj; [exact HP|oncurve|congruence].
Qed.

(** C21. MLSAG signatures verify: for every matrix of valid public keys with at
    least two columns of the same positive length, and the secret keys of any one
    of its columns, MLSAG_Gen makes a signature (with as many random scalars to
    draw as the matrix has keys) that MLSAG_Ver accepts, provided no key of a row
    with a key image hashes to the neutral element. *)
Theorem mlsag_verifies `{!FastHash} message pk pki xx index d rows rng rng' :
  (2 <= length pk)%nat -> (1 <= rows)%nat -> (d <= rows)%nat ->
  Forall (fun col => length col = rows /\ Forall (fun p => scalar p /\ check_key p = Some true) col) pk ->
  Forall (hashed_well d) pk ->
  pk !! index = Some pki ->
  Forall2 (fun p x => valid x /\ secret_key_to_public_key x = Some (Some p)) pki xx ->
  Forall scalar rng -> draw (length pk * rows) rng = Some rng' ->
  exists sig c, MLSAG_Gen message pk xx None false index d rng = ret (sig, c, rng')
    /\ MLSAG_Ver message pk sig d = ret true.
Proof.
  intros H2' H1 Hd HK W Hi Fx Hr D.
  destruct (matrix_points rows pk HK) as (PK & -> & HPK).
  unfold encoded_columns in Hi. rewrite list_lookup_fmap in Hi. apply fmap_Some in Hi as (Ps & HPs & ->).
  assert (length (encoded_columns PK) = length PK) as L by apply length_fmap. rewrite L in H2', D.
  apply (mlsag_points message PK Ps xx index d rows rng rng'); try assumption.
  apply (secret_points Ps xx (proj1 (Forall_lookup_1 _ _ _ _ HPK HPs)) Fx).
Qed.

(** ** An example *)

Lemma hash_nonzero `{!FastHash} key :
  (if hash_to_ec key is Some h then negb (fval (p3_X h) mod p =? 0) else false) = true ->
  hashToPoint key <> ret Identity.
Proof.
  intros C E. destruct (hash_to_ec_ok key) as (Q & HQ). pose proof HQ as (CQ & _ & h & Eh & (z & U & RZ & RX & _)).
  rewrite Eh in C. rewrite (hashToPoint_ok key Q HQ), Identity_encoded in E. apply ret_inj in E.
  apply encode_inj in E as [E1 _]; [|exact CQ|apply pt_zero_curve].
  assert (fval (p3_X h) mod p = 0) as X0.
  { destruct RX as [_ RX]. rewrite <- (Zmod_0_l p). change (eqm p (fval (p3_X h)) 0).
    rewrite RX, E1. by rewrite Z.mul_0_l. }
  by rewrite X0 in C.
Qed.

#[local] Transparent ge_fromfe_frombytes_vartime ge_mul8 ge_p1p1_to_p2 ge_p1p1_to_p3.

Lemma hash_G_nonzero : @hashToPoint example_hash G <> ret Identity.
Proof. apply hash_nonzero. vm_compute. reflexivity. Qed.

Lemma G_key : secret_key_to_public_key Identity = Some (Some G).
Proof.
  rewrite public_key_ok by by_eval. rewrite G_encoded. apply some_encode. apply zmul_1, B_curve.
Qed.

Lemma G_checked : scalar G /\ check_key G = Some true.
Proof. rewrite G_encoded. exact (encoded_key B B_curve). Qed.


(** A matrix of two columns with the same key, signed in the second. *)
Lemma mlsag_verifies_witness : exists sig c,
  @MLSAG_Gen example_hash key_7 [[G]; [G]] [Identity] None false 1 1 (replicate 2 key_7) = ret (sig, c, [])
  /\ @MLSAG_Ver example_hash key_7 [[G]; [G]] sig 1 = ret true.
Proof.
  apply (@mlsag_verifies example_hash key_7 [[G]; [G]] [G] [Identity] 1 1 1 (replicate 2 key_7) []);
    [cbn [length]; lia|lia|lia|..|exact (sevens 2)|exact (draw_sevens 2)].
  - do 2 (apply Forall_cons_2; [split; [reflexivity|apply Forall_singleton, G_checked]|]). apply Forall_nil_2.
  - do 2 (apply Forall_cons_2; [apply Forall_singleton, hash_G_nonzero|]). apply Forall_nil_2.
  - reflexivity.
  - apply Forall2_cons_2; [split; [by_eval|exact G_key]|apply Forall2_nil_2].
Defined.

End Mlsag.
