(* ===== verification/RctSigs.v ===== *)
(** * Ring confidential transactions

    The signatures of whole transactions, src/ringct/rctSigs.cpp: proveRctMG,
    proveRctMGSimple and their verification, get_pre_mlsag_hash, genRct and
    genRctSimple, verRct, verRctSemanticsSimple, verRctNonSemanticsSimple,
    decodeRct, decodeRctSimple and signMultisig.  The bulletproofs of
    bulletproofs.cc are arguments of the definitions that use them.  The theorem
    says that the signature made for a transaction that balances, with Borromean
    range proofs, passes both verifications, and that every recipient decodes
    their amount. *)

From S2P Require Import Prelude Result Keccak Varint Serialization Transaction Limbs Primality Scalar Fe Ge Curve Points HashPoint BaseData Recode ScalarMult BaseTable Order Multiples Crypto RingSig RctOps RangeProof Mlsag.
Import Keccak Varint Limbs Scalar Fe Ge Curve Points BaseData ScalarMult BaseTable Order Multiples Crypto RingSig RctOps RangeProof Mlsag Result.

Module RctSigs.

(** A bulletproof with its commitments, which are not serialized. *)
Record proof := Bp { bp_V : list bytes; bp_body : Transaction.Bulletproof }.

Record rctSig := Rct {
  r_type : Z; r_message : bytes; r_mixRing : list (list ctkey); r_pseudoOuts : list bytes;
  r_ecdhInfo : list (bytes * bytes); r_outPk : list ctkey; r_txnFee : Z;
  r_rangeSigs : list rangeSig; r_bulletproofs : list proof; r_MGs : list mgSig; r_p_pseudoOuts : list bytes
}.

Definition is_bulletproof (rv : rctSig) : bool := r_type rv =? Transaction.RCTTypeBulletproof.

(** rctSig::get_pseudo_outs. *)
Definition get_pseudo_outs (rv : rctSig) : list bytes :=
  if is_bulletproof rv then r_p_pseudoOuts rv else r_pseudoOuts rv.

(** The fields that serialize_rctsig_base writes. *)
Definition base_fields (rv : rctSig) : Transaction.rctSig :=
  {| Transaction.type := r_type rv; Transaction.txnFee := r_txnFee rv;
     Transaction.pseudoOuts := r_pseudoOuts rv;
     Transaction.ecdhInfo :=
       map (fun '(m, a) => {| Transaction.ecdh_mask := m; Transaction.ecdh_amount := a |}) (r_ecdhInfo rv);
     Transaction.outPk := map mask (r_outPk rv);
     Transaction.rangeSigs := []; Transaction.bulletproofs := []; Transaction.MGs := [];
     Transaction.p_pseudoOuts := [] |}.

(** A failed check of n_bulletproof_amounts returns zero. *)
Definition n_bulletproof_amounts (p : proof) : Z :=
  let l := Z.of_nat (length (Transaction.bp_L (bp_body p))) in
  let v := Z.of_nat (length (bp_V p)) in
  if l <? 6 then 0 else
  if negb (Nat.eqb (length (Transaction.bp_L (bp_body p))) (length (Transaction.bp_R (bp_body p)))) then 0 else
  if 6 + 4 <? l then 0 else
  if (1 ≪ (l - 6)) <? v then 0 else
  if v * 2 <=? (1 ≪ (l - 6)) then 0 else
  if v <=? 0 then 0 else v.

Fixpoint n_bulletproofs_amounts (n : Z) (ps : list proof) : Z :=
  match ps with
  | [] => n
  | p :: ps =>
      let n2 := n_bulletproof_amounts p in
      if n2 <? u64 (2 ^ 32 - 1 - n) then
        if n2 =? 0 then 0 else n_bulletproofs_amounts (n + n2) ps
      else 0
  end.

Definition BULLETPROOF_MAX_OUTPUTS : Z := 16.

Definition is_canonical_bulletproof_layout (proofs : list proof) : bool :=
  match proofs with
  | [p] => let sz := Z.of_nat (length (bp_V p)) in
           if (sz =? 0) || (BULLETPROOF_MAX_OUTPUTS <? sz) then false else true
  | _ => false
  end.

(** A try block whose exceptions return false. *)
Definition caught (m : result bool) : option bool :=
  match m with
  | None => None
  | Some (inl _) => Some false
  | Some (inr b) => Some b
  end.

Section functions.

Context `{HF : !FastHash} (debug : bool).

(** bulletproof_PROVE and bulletproof_VERIFY. *)
Context (bulletproof_PROVE : list Z -> list bytes -> randomness -> result (proof * randomness)).
Context (bulletproof_VERIFY : list proof -> result bool).

Definition proveRangeBulletproof (amounts : list Z) (rng : randomness)
    : result (list bytes * list bytes * proof * randomness) :=
  let* (masks, rng) := skvGen (length amounts) rng in
  let* (p, rng) := bulletproof_PROVE amounts masks rng in
  let* _ := ensure (Nat.eqb (length (bp_V p)) (length amounts)) in
  ret (bp_V p, masks, p, rng).

Definition verBulletproof (proofs : list proof) : option bool := caught (bulletproof_VERIFY proofs).

(** ** The message that is signed *)

Definition bulletproof_keys (p : proof) : list bytes :=
  let b := bp_body p in
  [Transaction.bp_A b; Transaction.bp_S b; Transaction.bp_T1 b; Transaction.bp_T2 b;
   Transaction.bp_taux b; Transaction.bp_mu b]
  ++ Transaction.bp_L b ++ Transaction.bp_R b
  ++ [Transaction.bp_a b; Transaction.bp_b b; Transaction.bp_t b].

Definition rangeSig_keys (r : rangeSig) : list bytes :=
  s0 (asig r) ++ s1 (asig r) ++ [ee (asig r)] ++ Ci r.

Definition get_pre_mlsag_hash (rv : rctSig) : result bytes :=
  let* ring0 := (match r_mixRing rv with [] => throw | ring0 :: _ => ret ring0 end) in
  let inputs := if is_bulletproof rv || (r_type rv =? Transaction.RCTTypeSimple)
                then length (r_mixRing rv) else length ring0 in
  let outputs := length (r_ecdhInfo rv) in
  let* blob := (match Transaction.put_rctsig_base inputs outputs (base_fields rv) with
                | None => throw | Some b => ret b end) in
  let kv := if is_bulletproof rv then concat (map bulletproof_keys (r_bulletproofs rv))
            else concat (map rangeSig_keys (r_rangeSigs rv)) in
  ret (fast_hash (concat [r_message rv; fast_hash blob; fast_hash (concat kv)])).

(** ** The signatures of the inputs *)

(** Sums and differences of keys, in order. *)
Fixpoint add_all (acc : bytes) (l : list bytes) : result bytes :=
  match l with
  | [] => ret acc
  | k :: l => let* acc := addKeys acc k in add_all acc l
  end.

Fixpoint sub_all (acc : bytes) (l : list bytes) : result bytes :=
  match l with
  | [] => ret acc
  | k :: l => let* acc := subKeys acc k in sub_all acc l
  end.

(** A column of the matrix of a full signature: the keys, then the input
    commitments minus the output commitments and the fee. *)
Definition full_mg_column (outPk : list ctkey) (txnFeeKey : bytes) (col : list ctkey) : result (list bytes) :=
  let* k := add_all Identity (map mask col) in
  let* k := sub_all k (map mask outPk) in
  let* k := subKeys k txnFeeKey in
  ret (map dest col ++ [k]).

Fixpoint each {A B} (f : A -> result B) (l : list A) : result (list B) :=
  match l with
  | [] => ret []
  | x :: l => let* y := f x in let* r := each f l in ret (y :: r)
  end.

(** Sums and differences of scalars, in order. *)
Fixpoint sc_add_all (acc : bytes) (l : list bytes) : result bytes :=
  match l with
  | [] => ret acc
  | k :: l => let* acc := lift (sc_add acc k) in sc_add_all acc l
  end.

Fixpoint sc_sub_all (acc : bytes) (l : list bytes) : result bytes :=
  match l with
  | [] => ret acc
  | k :: l => let* acc := lift (sc_sub acc k) in sc_sub_all acc l
  end.

Definition same_length (rows : nat) (m : list (list ctkey)) : bool :=
  forallb (fun col => Nat.eqb (length col) rows) m.

Definition proveRctMG (message : bytes) (pubs : list (list ctkey)) (inSk outSk outPk : list ctkey)
    (kLRki : option multisig_kLRki) (mscout : bool) (index : nat) (txnFeeKey : bytes) (rng : randomness)
    : result (mgSig * bytes * randomness) :=
  let* _ := ensure (Nat.leb 1 (length pubs)) in
  let* pubs0 := lift (pubs !! 0%nat) in
  let rows := length pubs0 in
  let* _ := ensure (Nat.leb 1 rows) in
  let* _ := ensure (same_length rows (drop 1 pubs)) in
  let* _ := ensure (Nat.eqb (length inSk) rows) in
  let* _ := ensure (Nat.eqb (length outSk) (length outPk)) in
  let* _ := ensure (match kLRki with Some _ => mscout | None => negb mscout end) in
  let* last := sc_add_all sc_0 (map mask inSk) in
  let* M := each (full_mg_column outPk txnFeeKey) pubs in
  let* last := sc_sub_all last (map mask outSk) in
  MLSAG_Gen message M (map dest inSk ++ [last]) kLRki mscout index rows rng.

(** A column of a simple signature: the key, and the difference of the
    commitment with the pseudo output. *)
Definition simple_mg_column (C : bytes) (pub : ctkey) : result (list bytes) :=
  let* k := subKeys (mask pub) C in
  ret [dest pub; k].

Definition proveRctMGSimple (message : bytes) (pubs : list ctkey) (inSk : ctkey) (a Cout : bytes)
    (kLRki : option multisig_kLRki) (mscout : bool) (index : nat) (rng : randomness)
    : result (mgSig * bytes * randomness) :=
  let* _ := ensure (Nat.leb 1 (length pubs)) in
  let* _ := ensure (match kLRki with Some _ => mscout | None => negb mscout end) in
  let* sk1 := lift (sc_sub (mask inSk) a) in
  let* M := each (simple_mg_column Cout) pubs in
  MLSAG_Gen message M [dest inSk; sk1] kLRki mscout index 1 rng.

Definition verRctMG (mg : mgSig) (pubs : list (list ctkey)) (outPk : list ctkey) (txnFeeKey message : bytes)
    : result bool :=
  if negb (Nat.leb 1 (length pubs)) then ret false else
  let* pubs0 := lift (pubs !! 0%nat) in
  let rows := length pubs0 in
  if negb (Nat.leb 1 rows) then ret false else
  if negb (same_length rows (drop 1 pubs)) then ret false else
  let* M := each (full_mg_column outPk txnFeeKey) pubs in
  MLSAG_Ver message M mg rows.

Definition verRctMGSimple (message : bytes) (mg : mgSig) (pubs : list ctkey) (C : bytes) : option bool :=
  caught (
    if negb (Nat.leb 1 (length pubs)) then ret false else
    let* M := each (simple_mg_column C) pubs in
    MLSAG_Ver message M mg 1).

(** ** Making a signature *)

(** A commitment, its mask and its range proof for every output. *)
Fixpoint prove_outputs (amounts : list Z) (rng : randomness)
    : result (list (bytes * bytes * rangeSig) * randomness) :=
  match amounts with
  | [] => ret ([], rng)
  | amount :: amounts =>
      let* (C, mask, sig, rng) := proveRange amount rng in
      let* _ := (if debug then let* ok := lift (verRange C sig) in ensure ok else ret tt) in
      let* (l, rng) := prove_outputs amounts rng in
      ret ((C, mask, sig) :: l, rng)
  end.

(** The masked amounts and masks of the outputs. *)
Fixpoint encode_outputs (masks : list bytes) (amounts : list Z) (amount_keys : list bytes)
    : result (list (bytes * bytes)) :=
  match masks, amounts, amount_keys with
  | m :: masks, amount :: amounts, k :: amount_keys =>
      let* am := lift (d2h amount) in
      let* e := ecdhEncode m am k in
      let* l := encode_outputs masks amounts amount_keys in
      ret (e :: l)
  | _, _, _ => ret []
  end.

Definition set_dest (destinations Cs : list bytes) : list ctkey := zip_with Ct destinations Cs.

(** The signature, the masks of the outputs and the challenge of a
    multisignature. *)
Definition genRct (message : bytes) (inSk : list ctkey) (destinations : list bytes) (amounts : list Z)
    (mixRing : list (list ctkey)) (amount_keys : list bytes) (kLRki : option multisig_kLRki) (msout : bool)
    (index : nat) (rng : randomness) : result (rctSig * list bytes * bytes * randomness) :=
  let n := length destinations in
  let* _ := ensure (Nat.eqb (length amounts) n || Nat.eqb (length amounts) (n + 1)) in
  let* _ := ensure (Nat.eqb (length amount_keys) n) in
  let* _ := ensure (Nat.ltb index (length mixRing)) in
  let* _ := ensure (same_length (length inSk) mixRing) in
  let* _ := ensure (match kLRki with Some _ => msout | None => negb msout end) in
  let* (outs, rng) := prove_outputs (take n amounts) rng in
  let masks := map (fun o => o.1.2) outs in
  let* ecdh := encode_outputs masks (take n amounts) amount_keys in
  let txnFee := if Nat.ltb n (length amounts) then default 0 (amounts !! n) else 0 in
  let* feeh := lift (d2h txnFee) in
  let* txnFeeKey := scalarmultH feeh in
  let outPk := set_dest destinations (map (fun o => o.1.1) outs) in
  let rv := Rct Transaction.RCTTypeFull message mixRing [] ecdh outPk txnFee (map snd outs) [] [] [] in
  let* h := get_pre_mlsag_hash rv in
  let* (mg, c, rng) := proveRctMG h mixRing inSk (map (Ct []) masks) outPk kLRki msout index txnFeeKey rng in
  ret (Rct Transaction.RCTTypeFull message mixRing [] ecdh outPk txnFee (map snd outs) [] [mg] [], masks, c, rng).

(** The masks of the pseudo outputs but for the last, their sum and their
    commitments. *)
Fixpoint pseudo_loop (amounts : list Z) (sumpouts : bytes) (rng : randomness)
    : result (list (bytes * bytes) * bytes * randomness) :=
  match amounts with
  | [] => ret ([], sumpouts, rng)
  | amount :: amounts =>
      let* (a, rng) := skGen rng in
      let* sumpouts := lift (sc_add a sumpouts) in
      let* C := genC a amount in
      let* (l, sumpouts, rng) := pseudo_loop amounts sumpouts rng in
      ret ((a, C) :: l, sumpouts, rng)
  end.

Fixpoint sum_masks (acc : bytes) (masks : list bytes) : result bytes :=
  match masks with
  | [] => ret acc
  | m :: masks => let* acc := lift (sc_add m acc) in sum_masks acc masks
  end.

(** One MLSAG for each input. *)
Fixpoint sign_inputs (message : bytes) (mixRing : list (list ctkey)) (inSk : list ctkey)
    (pseudo : list (bytes * bytes)) (kLRki : list (option multisig_kLRki)) (msout : bool) (index : list nat)
    (rng : randomness) : result (list (mgSig * bytes) * randomness) :=
  match mixRing, inSk, pseudo, kLRki, index with
  | ring :: mixRing, sk :: inSk, (a, C) :: pseudo, m :: kLRki, i :: index =>
      let* (mg, c, rng) := proveRctMGSimple message ring sk a C m msout i rng in
      let* (l, rng) := sign_inputs message mixRing inSk pseudo kLRki msout index rng in
      ret ((mg, c) :: l, rng)
  | _, _, _, _, _ => ret ([], rng)
  end.

Definition all_indices (index : list nat) (mixRing : list (list ctkey)) : bool :=
  forallb (fun '(i, ring) => Nat.ltb i (length ring)) (zip index mixRing).

(** The output commitments, their masks and the range proofs of the two kinds. *)
Definition range_proofs (outamounts : list Z) (bulletproof : bool) (rng : randomness)
    : result (list bytes * list bytes * list rangeSig * list proof * randomness) :=
  if bulletproof then
    let* (C, masks, p, rng) := proveRangeBulletproof outamounts rng in
    let* _ := (if debug then let* ok := lift (verBulletproof [p]) in ensure ok else ret tt) in
    let* Cs := each scalarmult8 C in
    ret (Cs, masks, [], [p], rng)
  else
    let* (outs, rng) := prove_outputs outamounts rng in
    ret (map (fun o => o.1.1) outs, map (fun o => o.1.2) outs, map snd outs, [], rng).

Definition genRctSimple (message : bytes) (inSk : list ctkey) (destinations : list bytes)
    (inamounts outamounts : list Z) (txnFee : Z) (mixRing : list (list ctkey)) (amount_keys : list bytes)
    (kLRki : option (list multisig_kLRki)) (msout : bool) (index : list nat) (bulletproof : bool)
    (rng : randomness) : result (rctSig * list bytes * list bytes * randomness) :=
  let* _ := ensure (Nat.ltb 0 (length inamounts)) in
  let* _ := ensure (Nat.eqb (length inamounts) (length inSk)) in
  let* _ := ensure (Nat.eqb (length outamounts) (length destinations)) in
  let* _ := ensure (Nat.eqb (length amount_keys) (length destinations)) in
  let* _ := ensure (Nat.eqb (length index) (length inSk)) in
  let* _ := ensure (Nat.eqb (length mixRing) (length inSk)) in
  let* _ := ensure (all_indices index mixRing) in
  let* _ := ensure (match kLRki with Some _ => msout | None => negb msout end) in
  let* _ := ensure (match kLRki with Some l => Nat.eqb (length l) (length inamounts) | None => true end) in
  let* (Cs, masks, rsigs, bps, rng) := range_proofs outamounts bulletproof rng in
  let* sumout := sum_masks Zero masks in
  let* ecdh := encode_outputs masks outamounts amount_keys in
  let* (ps, sumpouts, rng) := pseudo_loop (take (length inamounts - 1) inamounts) Zero rng in
  let* amount := lift (last inamounts) in
  let* a := lift (sc_sub sumout sumpouts) in
  let* C := genC a amount in
  let pseudo := ps ++ [(a, C)] in
  let outPk := set_dest destinations Cs in
  let type := if bulletproof then Transaction.RCTTypeBulletproof else Transaction.RCTTypeSimple in
  let mk (mgs : list mgSig) :=
    Rct type message mixRing (if bulletproof then [] else map snd pseudo) ecdh outPk txnFee rsigs bps mgs
      (if bulletproof then map snd pseudo else []) in
  let* h := get_pre_mlsag_hash (mk []) in
  let kl := match kLRki with Some l => map Some l | None => map (fun _ => None) inamounts end in
  let* (mgs, rng) := sign_inputs h mixRing inSk pseudo kl msout index rng in
  ret (mk (map fst mgs), masks, map snd mgs, rng).

(** ** Verification *)

Fixpoint all_ranges (outPk : list ctkey) (sigs : list rangeSig) : option bool :=
  match outPk, sigs with
  | o :: outPk, s :: sigs =>
      ok ← verRange (mask o) s;
      r ← all_ranges outPk sigs;
      Some (if negb ok then false else r)
  | _, _ => Some true
  end.

Definition verRct (rv : rctSig) (semantics : bool) : option bool :=
  if negb (r_type rv =? Transaction.RCTTypeFull) then Some false else
  if semantics then
    if negb (Nat.eqb (length (r_outPk rv)) (length (r_rangeSigs rv))) then Some false else
    if negb (Nat.eqb (length (r_outPk rv)) (length (r_ecdhInfo rv))) then Some false else
    if negb (Nat.eqb (length (r_MGs rv)) 1) then Some false else
    all_ranges (r_outPk rv) (r_rangeSigs rv)
  else
    caught (
      let* feeh := lift (d2h (r_txnFee rv)) in
      let* txnFeeKey := scalarmultH feeh in
      let* mg := lift (r_MGs rv !! 0%nat) in
      let* h := get_pre_mlsag_hash rv in
      verRctMG mg (r_mixRing rv) (r_outPk rv) txnFeeKey h).

(** The checks of sizes at the start of verRctSemanticsSimple. *)
Definition sizes_ok (rv : rctSig) : bool :=
  if negb ((r_type rv =? Transaction.RCTTypeSimple) || is_bulletproof rv) then false else
  if is_bulletproof rv then
    if negb (Z.of_nat (length (r_outPk rv)) <=? BULLETPROOF_MAX_OUTPUTS) then false else
    if negb (Z.of_nat (length (r_outPk rv)) =? n_bulletproofs_amounts 0 (r_bulletproofs rv)) then false else
    if negb (is_canonical_bulletproof_layout (r_bulletproofs rv)) then false else
    if negb (Nat.eqb (length (r_p_pseudoOuts rv)) (length (r_MGs rv))) then false else
    if negb (Nat.eqb (length (r_pseudoOuts rv)) 0) then false else
    Nat.eqb (length (r_outPk rv)) (length (r_ecdhInfo rv))
  else
    if negb (Nat.eqb (length (r_outPk rv)) (length (r_rangeSigs rv))) then false else
    if negb (Nat.eqb (length (r_pseudoOuts rv)) (length (r_MGs rv))) then false else
    if negb (Nat.eqb (length (r_p_pseudoOuts rv)) 0) then false else
    Nat.eqb (length (r_outPk rv)) (length (r_ecdhInfo rv)).

(** Outputs and fee against pseudo outputs. *)
Definition sums_match (rv : rctSig) : result bool :=
  let* sumOutpks := addKeysV (map mask (r_outPk rv)) in
  let* feeh := lift (d2h (r_txnFee rv)) in
  let* txnFeeKey := scalarmultH feeh in
  let* sumOutpks := addKeys txnFeeKey sumOutpks in
  let* sumPseudoOuts := addKeysV (get_pseudo_outs rv) in
  ret (equalKeys sumPseudoOuts sumOutpks).

Fixpoint all_sums (rvv : list rctSig) : result bool :=
  match rvv with
  | [] => ret true
  | rv :: rvv => let* ok := sums_match rv in if negb ok then ret false else all_sums rvv
  end.

(** The Borromean proofs run on the thread pool; every result must be true. *)
Fixpoint all_borromean (rvv : list rctSig) : option bool :=
  match rvv with
  | [] => Some true
  | rv :: rvv =>
      ok ← (if is_bulletproof rv then Some true else all_ranges (r_outPk rv) (r_rangeSigs rv));
      r ← all_borromean rvv;
      Some (if negb ok then false else r)
  end.

Definition verRctSemanticsSimple (rvv : list rctSig) : option bool :=
  caught (
    if negb (forallb sizes_ok rvv) then ret false else
    let* ok := all_sums rvv in
    if negb ok then ret false else
    let proofs := concat (map (fun rv => if is_bulletproof rv then r_bulletproofs rv else []) rvv) in
    let* ok := (match proofs with [] => ret true | _ => lift (verBulletproof proofs) end) in
    if negb ok then ret false else
    lift (all_borromean rvv)).

(** The MLSAG of each input, on the thread pool. *)
Fixpoint all_inputs (message : bytes) (mgs : list mgSig) (mixRing : list (list ctkey)) (pseudoOuts : list bytes)
    : option bool :=
  match mixRing with
  | [] => Some true
  | ring :: mixRing =>
      match mgs, pseudoOuts with
      | mg :: mgs, C :: pseudoOuts =>
          ok ← verRctMGSimple message mg ring C;
          r ← all_inputs message mgs mixRing pseudoOuts;
          Some (if negb ok then false else r)
      | _, _ => None
      end
  end.

Definition verRctNonSemanticsSimple (rv : rctSig) : option bool :=
  caught (
    if negb ((r_type rv =? Transaction.RCTTypeSimple) || is_bulletproof rv) then ret false else
    if negb (Nat.eqb (length (get_pseudo_outs rv)) (length (r_mixRing rv))) then ret false else
    let* message := get_pre_mlsag_hash rv in
    lift (all_inputs message (r_MGs rv) (r_mixRing rv) (get_pseudo_outs rv))).

(** ** Decoding *)

(** The amount and the mask of output [i], for the types the caller accepts. *)
Definition decode_output (rv : rctSig) (sk : bytes) (i : nat) : result (Z * bytes) :=
  let* _ := ensure (Nat.ltb i (length (r_ecdhInfo rv))) in
  let* _ := ensure (Nat.eqb (length (r_outPk rv)) (length (r_ecdhInfo rv))) in
  let* e := lift (r_ecdhInfo rv !! i) in
  let* (m, amount) := ecdhDecode e.1 e.2 sk in
  let* o := lift (r_outPk rv !! i) in
  let* nm := lift (sc_check m) in
  let* _ := ensure (nm =? 0) in
  let* na := lift (sc_check amount) in
  let* _ := ensure (na =? 0) in
  let* Ctmp := addKeys2 m amount H in
  let* _ := ensure (equalKeys (mask o) Ctmp) in
  ret (h2d amount, m).

(** A wrong type returns false, which is the amount zero, and sets no mask. *)
Definition decodeRct (rv : rctSig) (sk : bytes) (i : nat) : result (Z * option bytes) :=
  if negb (r_type rv =? Transaction.RCTTypeFull) then ret (0, None) else
  let* (amount, m) := decode_output rv sk i in ret (amount, Some m).

Definition decodeRctSimple (rv : rctSig) (sk : bytes) (i : nat) : result (Z * option bytes) :=
  if negb ((r_type rv =? Transaction.RCTTypeSimple) || is_bulletproof rv) then ret (0, None) else
  let* (amount, m) := decode_output rv sk i in ret (amount, Some m).

(** ** Multisignatures *)

Fixpoint multisig_ok (indices : list nat) (mgs : list mgSig) : bool :=
  match indices, mgs with
  | i :: indices, mg :: mgs =>
      if negb (Nat.ltb i (length (ss mg))) then false else
      if match ss mg !! i with Some (_ :: _) => false | _ => true end then false else
      multisig_ok indices mgs
  | _, _ => true
  end.

Fixpoint multisig_add (indices : list nat) (k c : list bytes) (secret_key : bytes) (mgs : list mgSig)
    : option (list mgSig) :=
  match indices, k, c, mgs with
  | i :: indices, k1 :: k, c1 :: c, mg :: mgs =>
      diff ← sc_mulsub c1 secret_key k1;
      row ← ss mg !! i;
      s ← row !! 0%nat;
      s ← sc_add s diff;
      rest ← multisig_add indices k c secret_key mgs;
      Some (Mg (<[i := <[0%nat := s]> row]> (ss mg)) (cc mg) (II mg) :: rest)
  | _, _, _, _ => Some mgs
  end.

(** False leaves the signature as it is. *)
Definition signMultisig (rv : rctSig) (indices : list nat) (k c : list bytes) (secret_key : bytes)
    : option (bool * rctSig) :=
  if negb (Transaction.known_type (r_type rv)) then Some (false, rv) else
  if negb (Nat.eqb (length indices) (length k)) then Some (false, rv) else
  if negb (Nat.eqb (length k) (length (r_MGs rv))) then Some (false, rv) else
  if negb (Nat.eqb (length k) (length c)) then Some (false, rv) else
  if (r_type rv =? Transaction.RCTTypeFull) && negb (Nat.eqb (length (r_MGs rv)) 1) then Some (false, rv) else
  if negb (multisig_ok indices (r_MGs rv)) then Some (false, rv) else
  mgs ← multisig_add indices k c secret_key (r_MGs rv);
  Some (true, Rct (r_type rv) (r_message rv) (r_mixRing rv) (r_pseudoOuts rv) (r_ecdhInfo rv) (r_outPk rv)
                (r_txnFee rv) (r_rangeSigs rv) (r_bulletproofs rv) mgs (r_p_pseudoOuts rv)).

End functions.

(** ** Commitments that are opened *)

#[local] Opaque ge_base ge_Bi ge_scalarmult_base ge_scalarmult ge_double_scalarmult_base_vartime
  ge_double_scalarmult_precomp_vartime ge_dsm_precomp ge_frombytes_vartime ge_p3_tobytes ge_tobytes
  ge_fromfe_frombytes_vartime ge_mul8 ge_add ge_sub ge_p1p1_to_p2 ge_p1p1_to_p3 ge_p3_to_cached
  sc_add sc_sub sc_mulsub sc_reduce32 sc_check encode residue H2 H2_points ge_p3_identity.

Fixpoint zsum (l : list Z) : Z := match l with [] => 0 | x :: l => x + zsum l end.

Lemma zsum_app l k : zsum (l ++ k) = zsum l + zsum k.
Proof. induction l as [|x l IH]; [done|]. cbn [app zsum]. lia. Qed.

(** A mask and the commitment it opens to an amount. *)
Definition opens (amount : Z) (o : bytes * bytes) : Prop :=
  valid o.1 /\ o.2 = encode (pedersen (num o.1) amount).

Definition masks_sum (l : list (bytes * bytes)) : Z := zsum (map (fun o => num o.1) l).

(** The sum of opened commitments commits to the sum of the amounts. *)
Lemma opened_sum amounts l :
  Forall2 opens amounts l ->
  exists Ps, map snd l = encode <$> Ps /\ Forall on_curve Ps
    /\ pt_eq (pt_sum Ps) (pedersen (masks_sum l) (zsum amounts)).
Proof.
  induction 1 as [|a [m C] amounts l [V E] _ (Ps & E1 & HP & E2)].
  - exists []. split; [reflexivity|]. split; [constructor|]. symmetry. unfold pedersen.
    change (masks_sum []) with 0. change (zsum []) with 0. rewrite !zmul_0. apply pt_add_O, pt_zero_curve.
  - cbn [fst snd] in *. exists (pedersen (num m) a :: Ps). cbn [map fmap list_fmap snd]. rewrite E, E1.
    split; [reflexivity|]. split; [constructor; [apply pedersen_curve|exact HP]|].
    cbn [pt_sum foldr]. fold (pt_sum Ps). rewrite E2. apply pedersen_add.
Qed.

Lemma sc_add_step a s x :
  valid a -> valid s -> eqm ell (num s) x ->
  exists t, sc_add a s = Some t /\ valid t /\ eqm ell (num t) (num a + x).
Proof.
  intros [Va _] [Vs _] E. eexists. split; [apply sc_add_ok; assumption|]. split; [apply residue_valid|].
  rewrite num_residue. rewrite <- E. apply Zmod_mod.
Qed.

Lemma sum_masks_ok amounts l acc x :
  Forall2 opens amounts l -> valid acc -> eqm ell (num acc) x ->
  exists s, sum_masks acc (map fst l) = ret s /\ valid s /\ eqm ell (num s) (x + masks_sum l).
Proof.
  intros F. revert acc x. induction F as [|a [m C] amounts l [V _] _ IH]; intros acc x Va Ea.
  - exists acc. split; [reflexivity|]. split; [exact Va|]. change (masks_sum []) with 0. by rewrite Z.add_0_r.
  - cbn [map fst sum_masks] in *. destruct (sc_add_step m acc x V Va Ea) as (t & -> & Vt & Et). rgo.
    destruct (IH t _ Vt Et) as (s & -> & Vs & Es). exists s. split; [reflexivity|]. split; [exact Vs|].
    rewrite Es. unfold masks_sum. cbn [map zsum fst].
    match goal with |- eqm _ ?u ?v => assert (u = v) as -> by lia end. reflexivity.
Qed.

Lemma pseudo_loop_ok amounts acc x rng rng' :
  Forall amount_ok amounts -> valid acc -> eqm ell (num acc) x -> Forall scalar rng ->
  draw (length amounts) rng = Some rng' ->
  exists l s, pseudo_loop amounts acc rng = ret (l, s, rng') /\ valid s
    /\ eqm ell (num s) (x + masks_sum l) /\ Forall2 opens amounts l /\ Forall scalar rng'.
Proof.
  intros F. revert acc x rng. induction F as [|a amounts Ha _ IH]; intros acc x rng Va Ea Hr D.
  - injection D as ->. exists [], acc. split; [reflexivity|]. split; [exact Va|].
    split; [change (masks_sum []) with 0; by rewrite Z.add_0_r|]. split; [constructor|exact Hr].
  - destruct (draw_S (length amounts) rng rng' Hr D) as (k & rng1 & E & Vk & Hr1 & D1).
    destruct (sc_add_step k acc x Vk Va Ea) as (t & Et & Vt & Nt).
    destruct (IH t _ rng1 Vt Nt Hr1 D1) as (l & s & E1 & Vs & Ns & Fl & Hr').
    exists ((k, encode (pedersen (num k) a)) :: l), s. split.
    + cbn [pseudo_loop]. rewrite (skGen_ok _ _ _ E). rgo. rewrite Et. rgo.
      rewrite (genC_ok a k Ha (proj1 Vk)). rgo. rewrite E1. by rgo.
    + split; [exact Vs|]. split; [|split; [constructor; [split; [exact Vk|reflexivity]|exact Fl]|exact Hr']].
      rewrite Ns. unfold masks_sum. cbn [map zsum fst].
      match goal with |- eqm _ ?u ?v => assert (u = v) as -> by lia end. reflexivity.
Qed.


(** ** Outputs *)

Section outputs.

Context `{HF : !FastHash} (debug : bool).

(** A commitment to the amount with its mask and an accepted range proof. *)
Definition proved (amount : Z) (o : bytes * bytes * rangeSig) : Prop :=
  opens amount (o.1.2, o.1.1) /\ verRange o.1.1 o.2 = Some true.

Lemma prove_outputs_ok amounts rng rng' :
  Forall amount_ok amounts -> Forall scalar rng -> draw (length amounts * 192) rng = Some rng' ->
  exists outs, prove_outputs debug amounts rng = ret (outs, rng') /\ Forall2 proved amounts outs
    /\ Forall scalar rng'.
Proof.
  intros F. revert rng. induction F as [|a amounts Ha _ IH]; intros rng Hr D.
  - injection D as ->. exists []. split; [reflexivity|]. split; [constructor|exact Hr].
  - destruct (draw_add 192 _ _ _ Hr D) as (rng1 & D1 & Hr1 & D2).
    destruct (range_proof_ok a rng rng1 Ha Hr D1) as (m & sig & E & V & W).
    destruct (IH rng1 Hr1 D2) as (outs & E1 & F1 & Hr').
    exists ((encode (pedersen (num m) a), m, sig) :: outs). split.
    + cbn [prove_outputs]. rewrite E. rgo. destruct debug.
      * rewrite W. rgo. rewrite (ensure_holds true) by reflexivity. rgo. rewrite E1. by rgo.
      * rgo. rewrite E1. by rgo.
    + split; [|exact Hr']. constructor; [|exact F1]. split; [split; [exact V|reflexivity]|exact W].
Qed.

Definition mask_pair (o : bytes * bytes * rangeSig) : bytes * bytes := (o.1.2, o.1.1).

Lemma proved_opens amounts outs :
  Forall2 proved amounts outs -> Forall2 opens amounts (map mask_pair outs).
Proof. induction 1 as [|a o amounts outs [O _] _ IH]; constructor; assumption. Qed.

Lemma mask_pair_masks outs : map fst (map mask_pair outs) = map (fun o => o.1.2) outs.
Proof. rewrite map_map. reflexivity. Qed.

Lemma mask_pair_commitments outs : map snd (map mask_pair outs) = map (fun o => o.1.1) outs.
Proof. rewrite map_map. reflexivity. Qed.

(** The second argument of an output: the key its amount is masked with. *)
Lemma encode_outputs_ok amounts l keys :
  Forall2 opens amounts l -> Forall amount_ok amounts -> length keys = length amounts ->
  exists es, encode_outputs (map fst l) amounts keys = ret es /\ length es = length amounts
    /\ forall i a k e, amounts !! i = Some a -> keys !! i = Some k -> es !! i = Some e ->
         exists o am, l !! i = Some o /\ ecdhDecode e.1 e.2 k = ret (o.1, am) /\ d2h a = Some am /\ valid am.
Proof.
  intros F. revert keys. induction F as [|a [m C] amounts l [V _] _ IH]; intros [|k keys] Ha Lk; try discriminate.
  - exists []. split; [reflexivity|]. split; [reflexivity|]. intros i ? ? ? E. by rewrite lookup_nil in E.
  - apply Forall_cons in Ha as [Ha Hs]. cbn [length] in Lk.
    destruct (IH keys Hs ltac:(lia)) as (es & E & Le & W).
    destruct (d2h_small a Ha) as (am & Ed & Vd & _). destruct (ecdh_ok m am k V Vd) as (em & ea & Ee & _ & _ & De).
    exists ((em, ea) :: es). split; [|split; [cbn [length]; lia|]].
    + cbn [encode_outputs map fst] in *. rewrite Ed. rgo. rewrite Ee. rgo. rewrite E. by rgo.
    + intros [|i] a' k' e'; [|exact (W i a' k' e')]. cbn. intros [= <-] [= <-] [= <-].
      exists (m, C), am. split; [reflexivity|]. split; [exact De|]. exact (conj Ed Vd).
Qed.

Lemma decode_output_ok rv k i a o am e C :
  amount_ok a -> d2h a = Some am -> valid am -> opens a o -> r_ecdhInfo rv !! i = Some e ->
  length (r_outPk rv) = length (r_ecdhInfo rv) -> r_outPk rv !! i = Some C -> mask C = o.2 ->
  ecdhDecode e.1 e.2 k = ret (o.1, am) -> decode_output rv k i = ret (a, o.1).
Proof.
  intros Ha Ed Vd [V EC] Ee L EO EM De. unfold decode_output.
  rewrite (ensure_holds _ (proj2 (Nat.ltb_lt _ _) (lookup_lt_Some _ _ _ Ee))). rgo.
  rewrite (ensure_holds _ (proj2 (Nat.eqb_eq _ _) L)). rgo. rewrite Ee. rgo. rewrite De. rgo. rewrite EO. rgo.
  rewrite (valid_check _ V). rgo. rewrite (ensure_holds (0 =? 0)) by reflexivity. rgo.
  rewrite (valid_check _ Vd). rgo. rewrite (ensure_holds (0 =? 0)) by reflexivity. rgo.
  rewrite H_encoded, (addKeys2_ok o.1 am H_point V Vd H_point_curve). rgo.
  pose proof (d2h_small a Ha) as (am' & Ed' & _ & Na). assert (am' = am) as -> by congruence.
  rewrite EM, EC, Na. rewrite (encode_proper (pt_add (zmul a H_point) (zmul (num o.1) B)) (pedersen (num o.1) a)) by apply pt_add_comm.
  rewrite equalKeys_refl, (ensure_holds true) by reflexivity. rgo.
  rewrite (h2d_ok am (proj1 Vd)), Na, Z.mod_small by exact Ha. reflexivity.
Qed.

Lemma all_ranges_ok amounts outs ds :
  Forall2 proved amounts outs -> length ds = length amounts ->
  all_ranges (set_dest ds (map (fun o => o.1.1) outs)) (map snd outs) = Some true.
Proof.
  intros F. revert ds. induction F as [|a o amounts outs [_ V] _ IH]; intros [|d ds] L; try discriminate; [reflexivity|].
  cbn [length] in L. unfold set_dest. cbn [map zip_with all_ranges mask]. rewrite V. go.
  unfold set_dest in IH. rewrite IH by lia. by go.
Qed.

(** A transaction that balances: the pseudo outputs open to the inputs, the
    outputs to the output amounts. *)
Lemma sums_match_ok rv ia oa ps os :
  Forall2 opens ia ps -> Forall2 opens oa os -> amount_ok (r_txnFee rv) ->
  zsum ia = zsum oa + r_txnFee rv -> eqm ell (masks_sum ps) (masks_sum os) ->
  map mask (r_outPk rv) = map snd os -> get_pseudo_outs rv = map snd ps ->
  sums_match rv = ret true.
Proof.
  intros Fi Fo Hf Bal M E1 E2. unfold sums_match. rewrite E1, E2.
  destruct (opened_sum oa os Fo) as (Po & -> & Co & So). destruct (opened_sum ia ps Fi) as (Pi & -> & Cp & Si).
  rewrite (addKeysV_ok Po Co). rgo. destruct (amount_H _ Hf) as (am & -> & Eh). rgo. rewrite Eh. rgo.
  pose proof (pt_sum_curve Po Co). rewrite addKeys_ok by oncurve. rgo. rewrite (addKeysV_ok Pi Cp). rgo.
  assert (pt_eq (pt_sum Pi) (pt_add (zmul (r_txnFee rv) H_point) (pt_sum Po))) as EQ.
  { rewrite Si, So, Bal, (pedersen_eqm _ _ _ _ M (reflexivity _)).
    assert (pt_eq (zmul (r_txnFee rv) H_point) (pedersen 0 (r_txnFee rv))) as ->.
    { unfold pedersen. rewrite zmul_0. symmetry. apply pt_add_O. oncurve. }
    rewrite pedersen_add, Z.add_0_l, (Z.add_comm (r_txnFee rv)). reflexivity. }
  rewrite (encode_proper _ _ EQ), equalKeys_refl. reflexivity.
Qed.

End outputs.


(** ** Inputs *)

Section inputs.

Context `{HF : !FastHash}.

(** A member of a ring: two points, of which the key does not hash to the
    neutral element. *)
Definition ring_key (k : ctkey) : Prop :=
  scalar (dest k) /\ check_key (dest k) = Some true /\ hashToPoint (dest k) <> ret Identity
  /\ scalar (mask k) /\ check_key (mask k) = Some true.

(** The secrets of a member: the secret key and the mask of the amount. *)
Definition secret_of (amount : Z) (sk pk : ctkey) : Prop :=
  valid (dest sk) /\ valid (mask sk)
  /\ secret_key_to_public_key (dest sk) = Some (Some (dest pk)) /\ commit amount (mask sk) = ret (mask pk).

Definition point_key (Q : point * point) : ctkey := Ct (encode Q.1) (encode Q.2).

Definition good_points (Q : point * point) : Prop :=
  on_curve Q.1 /\ on_curve Q.2 /\ hashToPoint (encode Q.1) <> ret Identity.

Lemma check_key_point k : scalar k -> check_key k = Some true -> exists P, on_curve P /\ k = encode P.
Proof.
  intros S K. destruct (key_points [k]) as ([|P [|]] & E & C); try discriminate.
  - apply Forall_singleton. exact (conj S K).
  - exists P. split; [exact (Forall_inv C)|]. by injection E.
Qed.

Lemma ring_key_points k : ring_key k -> exists Q, k = point_key Q /\ good_points Q.
Proof.
  destruct k as [d m]. intros (Sd & Kd & Hd & Sm & Km). cbn [dest mask] in *.
  destruct (check_key_point d Sd Kd) as (P & CP & ->). destruct (check_key_point m Sm Km) as (Q & CQ & ->).
  exists (P, Q). split; [reflexivity|]. exact (conj CP (conj CQ Hd)).
Qed.

Lemma ring_points ring :
  Forall ring_key ring -> exists Qs, ring = map point_key Qs /\ Forall good_points Qs.
Proof.
  induction 1 as [|k ring K _ (Qs & -> & F)]; [by exists []|].
  destruct (ring_key_points k K) as (Q & -> & G). exists (Q :: Qs). split; [reflexivity|by constructor].
Qed.

(** The points that secrets open. *)
Lemma secret_points_of amount sk Q :
  amount_ok amount -> good_points Q -> secret_of amount sk (point_key Q) ->
  pt_eq Q.1 (zmul (num (dest sk)) B) /\ pt_eq Q.2 (pedersen (num (mask sk)) amount).
Proof.
  intros Ha (C1 & C2 & _) (V1 & V2 & E1 & E2). cbn [point_key dest mask] in *. split.
  - rewrite public_key_ok in E1 by exact V1. apply encode_inj; [exact C1|oncurve|congruence].
  - rewrite (commit_ok amount (mask sk) Ha (proj1 V2)) in E2. apply ret_inj in E2.
    apply encode_inj; [exact C2|oncurve|congruence].
Qed.

(** *** One input of a simple signature *)

Definition simple_column (C : point) (Q : point * point) : list point := [Q.1; pt_add Q.2 (pt_neg C)].

Lemma simple_column_ok C Q :
  on_curve C -> good_points Q -> simple_mg_column (encode C) (point_key Q) = ret (encode <$> simple_column C Q).
Proof.
  intros HC (C1 & C2 & _). unfold simple_mg_column. cbn [point_key dest mask].
  rewrite subKeys_ok by assumption. by rgo.
Qed.

Lemma simple_columns_ok C Qs :
  on_curve C -> Forall good_points Qs ->
  each (simple_mg_column (encode C)) (map point_key Qs) = ret (encoded_columns (map (simple_column C) Qs)).
Proof.
  intros HC. induction 1 as [|Q Qs G _ IH]; [reflexivity|].
  cbn [map each]. rewrite (simple_column_ok C Q HC G). rgo. rewrite IH. rgo. reflexivity.
Qed.

Lemma simple_columns_full C Qs :
  on_curve C -> Forall good_points Qs -> Forall (full_column 2) (map (simple_column C) Qs).
Proof.
  intros HC. induction 1 as [|Q Qs (C1 & C2 & _) _ IH]; [constructor|]. constructor; [|exact IH].
  split; [|reflexivity]. constructor; [exact C1|]. constructor; [oncurve|constructor].
Qed.

Lemma simple_columns_hashed C Qs :
  Forall good_points Qs -> Forall (hashed_well 1) (encoded_columns (map (simple_column C) Qs)).
Proof.
  induction 1 as [|Q Qs (_ & _ & N) _ IH]; [constructor|]. constructor; [|exact IH].
  constructor; [exact N|constructor].
Qed.

(** The difference with a commitment to the same amount is a multiple of the
    base point. *)
Lemma pedersen_difference a b v :
  pt_eq (pt_add (pedersen a v) (pt_neg (pedersen b v))) (zmul (a - b) B).
Proof.
  assert (pt_eq (pt_neg (pedersen b v)) (pedersen (- b) (- v))) as ->.
  { unfold pedersen. rewrite pt_neg_add, !zmul_opp. reflexivity. }
  rewrite pedersen_add, !Z.add_opp_r, Z.sub_diag. unfold pedersen.
  rewrite zmul_0, pt_add_comm. apply pt_add_O. oncurve.
Qed.

Lemma simple_input_ok message ring sk pk a C index amount rng rng' :
  (2 <= length ring)%nat -> Forall ring_key ring -> ring !! index = Some pk -> amount_ok amount ->
  secret_of amount sk pk -> opens amount (a, C) ->
  Forall scalar rng -> draw (length ring * 2) rng = Some rng' ->
  exists mg c, proveRctMGSimple message ring sk a C None false index rng = ret (mg, c, rng')
    /\ verRctMGSimple message mg ring C = Some true.
Proof.
  intros L2 K Hi Ha S [Va EC] Hr D. cbn [fst snd] in *. subst C.
  destruct (ring_points ring K) as (Qs & -> & G). rewrite length_map in L2, D.
  rewrite list_lookup_fmap in Hi. apply fmap_Some in Hi as (Q & HQ & ->).
  pose proof (Forall_lookup_1 _ _ _ _ G HQ) as GQ. pose proof S as (V1 & V2 & _).
  destruct (secret_points_of amount sk Q Ha GQ S) as [E1 E2].
  set (C := pedersen (num a) amount). pose proof (pedersen_curve (num a) amount : on_curve C) as HC.
  set (PK := map (simple_column C) Qs). assert (length PK = length Qs) as LP by apply length_map.
  rewrite <- LP in D, L2.
  destruct (mlsag_points message PK (simple_column C Q) [dest sk; residue (num (mask sk) - num a)] index 1 2 rng rng')
    as (sig & c & EG & EV); [exact L2|lia|lia|by apply simple_columns_full| | |by apply simple_columns_hashed|exact Hr|exact D|].
  - unfold PK. rewrite list_lookup_fmap, HQ. reflexivity.
  - destruct GQ as (C1 & C2 & _). constructor; [split; [exact C1|exact (conj V1 E1)]|].
    constructor; [|constructor]. split; [oncurve|]. split; [apply residue_valid|].
    rewrite E2. unfold C. rewrite pedersen_difference. symmetry. apply zmul_B_mod. rewrite num_residue. apply Zmod_mod.
  - exists sig, c. split.
    + unfold proveRctMGSimple. rewrite length_map, <- LP, (ensure_holds _ (proj2 (Nat.leb_le 1 (length PK)) ltac:(lia))).
      cbn [negb]. rewrite (ensure_holds true) by reflexivity. rewrite !rbind_ret.
      rewrite (sc_sub_ok _ _ (proj1 V2) (proj1 Va)). rgo. rewrite (simple_columns_ok C Qs HC G). rgo. exact EG.
    + unfold verRctMGSimple. rewrite length_map, <- LP, (proj2 (Nat.leb_le 1 _)) by lia. cbn [negb].
      rewrite (simple_columns_ok C Qs HC G). rgo. fold PK. by rewrite EV.
Qed.

End inputs.


(** ** The signed message *)

Section prehash.

Context `{HF : !FastHash}.

Lemma put_n_total {A} (put : Serialization.writer A) l :
  (forall x, exists b, put x = Some b) -> exists b, Serialization.put_n put l = Some b.
Proof.
  intros T. induction l as [|x l [b E]]; [by eexists|]. destruct (T x) as [c Ec].
  cbn [Serialization.put_n]. rewrite Ec, E. by eexists.
Qed.

Lemma put_sized_total {A} (put : Serialization.writer A) n l :
  (forall x, exists b, put x = Some b) -> length l = n -> exists b, Transaction.put_sized put n l = Some b.
Proof. intros T L. unfold Transaction.put_sized. rewrite (proj2 (Nat.eqb_eq _ _) L). by apply put_n_total. Qed.

(** The hash of a well formed signature exists and does not depend on the
    MLSAGs. *)
Lemma prehash_ok type message mixRing pseudoOuts ecdh outPk fee rsigs :
  type = Transaction.RCTTypeFull \/ type = Transaction.RCTTypeSimple ->
  mixRing <> [] -> (type = Transaction.RCTTypeSimple -> length pseudoOuts = length mixRing) ->
  length outPk = length ecdh ->
  exists h, forall mgs, get_pre_mlsag_hash (Rct type message mixRing pseudoOuts ecdh outPk fee rsigs [] mgs []) = ret h.
Proof.
  intros T N Lp Lo. unfold get_pre_mlsag_hash, is_bulletproof.
  destruct mixRing as [|ring0 rings]; [done|]. cbn [r_mixRing r_type r_ecdhInfo r_message r_bulletproofs r_rangeSigs].
  set (inputs := if (type =? Transaction.RCTTypeBulletproof) || (type =? Transaction.RCTTypeSimple)
                 then length (ring0 :: rings) else length ring0).
  assert (exists b, forall mgs, Transaction.put_rctsig_base inputs (length ecdh)
    (base_fields (Rct type message (ring0 :: rings) pseudoOuts ecdh outPk fee rsigs [] mgs [])) = Some b) as [b Eb].
  { unfold base_fields, Transaction.put_rctsig_base.
    cbn [r_type r_txnFee r_pseudoOuts r_ecdhInfo r_outPk Transaction.type Transaction.txnFee Transaction.pseudoOuts
      Transaction.ecdhInfo Transaction.outPk].
    destruct (put_sized_total Transaction.put_ecdh (length ecdh)
      (map (fun '(m, a) => {| Transaction.ecdh_mask := m; Transaction.ecdh_amount := a |}) ecdh)) as [e ->];
      [intros []; by eexists|apply length_map|].
    destruct (put_sized_total Serialization.put_blob (length ecdh) (map mask outPk)) as [f ->];
      [by eexists|by rewrite length_map|].
    destruct T as [-> | ->]; [by eexists|].
    destruct (put_sized_total Serialization.put_blob inputs pseudoOuts) as [d ->];
      [by eexists|exact (Lp eq_refl)|]. by eexists. }
  eexists. intros mgs. rgo. rewrite Eb. rgo. reflexivity.
Qed.

End prehash.

(** ** What signatures are made of

    The fields of a signature, read off the computation that made it. *)

Section shapes.

Context `{HF : !FastHash} (debug : bool).
Context (PROVE : list Z -> list bytes -> randomness -> result (proof * randomness)).
Context (VERIFY : list proof -> result bool).

(** The key image of a secret key for a public key. *)
Definition image_of (pk sk ki : bytes) : Prop :=
  exists Hi, hashToPoint pk = ret Hi /\ scalarmultKey Hi sk = ret ki.

Lemma gen_ds_row_image pk x rng a ki l rng' :
  gen_ds_row pk x None rng = ret (a, ki, l, rng') -> image_of pk x ki.
Proof.
  intros E. unfold gen_ds_row in E. rinv E Hi EH. rinv E t ET.
  unfold mlsag_prepare in ET. rinv ET u EU. rinv ET v EV. rinv ET w EW. apply ret_inj in ET, E.
  exists Hi. split; [exact EH|]. congruence.
Qed.

Lemma gen_rows_images d pk xx : forall rng p rng',
  gen_rows d pk xx None rng = ret (p, rng') -> length pk = length xx ->
  forall i k x, (i < d)%nat -> pk !! i = Some k -> xx !! i = Some x ->
    exists ki, p_II p !! i = Some ki /\ image_of k x ki.
Proof.
  revert d xx. induction pk as [|k0 pk IH]; intros d [|x0 xx] rng p rng' E L i k x Hd Hk Hx; try done.
  destruct d as [|d]; [lia|]. cbn [gen_rows] in E. rinv E y EY. rinv E t ET. rinv E z EZ. apply ret_inj in E.
  injection E as <- <-. cbn [length] in L. destruct i as [|i]; cbn in Hk, Hx.
  - injection Hk as ->. injection Hx as ->. eexists. split; [reflexivity|]. exact (gen_ds_row_image _ _ _ _ _ _ _ EY).
  - apply (IH d xx _ _ _ EZ ltac:(lia) i k x ltac:(lia) Hk Hx).
Qed.

Lemma gen_rows_length d pk xx : forall rng p rng',
  gen_rows d pk xx None rng = ret (p, rng') -> length pk = length xx -> (d <= length pk)%nat -> length (p_II p) = d.
Proof.
  revert d xx. induction pk as [|k0 pk IH]; intros d [|x0 xx] rng p rng' E L Hd; try done; cbn [length] in *.
  - apply ret_inj in E. injection E as <- <-. cbn. lia.
  - cbn [gen_rows] in E. destruct d as [|d].
    + rinv E y EY. rinv E z EZ. apply ret_inj in E. injection E as <- <-. apply (IH 0%nat xx _ _ _ EZ); lia.
    + rinv E y EY. rinv E t ET. rinv E z EZ. apply ret_inj in E. injection E as <- <-. cbn [p_II length].
      f_equal. apply (IH d xx _ _ _ EZ); lia.
Qed.

(** The images of a signature are those of the first rows of the signer's column. *)
Lemma MLSAG_Gen_images message pk xx index d rng mg c rng' pki :
  MLSAG_Gen message pk xx None false index d rng = ret (mg, c, rng') -> pk !! index = Some pki ->
  (d <= length pki)%nat -> length pki = length xx ->
  length (II mg) = d
  /\ forall i k x, (i < d)%nat -> pki !! i = Some k -> xx !! i = Some x -> exists ki, II mg !! i = Some ki /\ image_of k x ki.
Proof.
  intros E Hi Hd L. unfold MLSAG_Gen in E.
  rinv E u1 E1. rinv E u2 E2. rinv E pk0 E3. rinv E u4 E4. rinv E u5 E5. rinv E u6 E6. rinv E u7 E7. rinv E v8 E8. rinv E u9 E9.
  rinv E pk1 E10. rinv E y E11. rinv E c0 E12. rinv E z E13. rinv E s E14. rinv E s' E15. apply ret_inj in E.
  injection E as <- <- <-. cbn [II]. apply lift_inv in E10. rewrite Hi in E10. injection E10 as <-.
  split; [exact (gen_rows_length _ _ _ _ _ _ E11 L Hd)|]. exact (gen_rows_images _ _ _ _ _ _ E11 L).
Qed.

Lemma each_lookup {A B} (f : A -> result B) l : forall r i x,
  each f l = ret r -> l !! i = Some x -> exists y, r !! i = Some y /\ f x = ret y.
Proof.
  induction l as [|z l IH]; intros r i x E Hx; [done|]. cbn [each] in E. rinv E y Ey. rinv E r' Er. apply ret_inj in E. subst r.
  destruct i as [|i]; cbn in Hx; [injection Hx as ->; by exists y|]. exact (IH r' i x Er Hx).
Qed.

Lemma proveRctMGSimple_image message ring sk a C index rng mg c rng' pk :
  proveRctMGSimple message ring sk a C None false index rng = ret (mg, c, rng') -> ring !! index = Some pk ->
  exists ki, II mg = [ki] /\ image_of (dest pk) (dest sk) ki.
Proof.
  intros E Hi. unfold proveRctMGSimple in E. rinv E u1 E1. rinv E u2 E2. rinv E sk1 E3. rinv E M E4.
  destruct (each_lookup _ _ _ _ _ E4 Hi) as (col & Hc & Ec). unfold simple_mg_column in Ec. rinv Ec k Ek. apply ret_inj in Ec. subst col.
  destruct (MLSAG_Gen_images _ _ _ _ _ _ _ _ _ _ E Hc) as [L H]; [cbn; lia|done|].
  destruct (H 0%nat (dest pk) (dest sk)) as (ki & EI & HI); [lia|done|done|]. exists ki. split; [|exact HI].
  destruct (II mg) as [|k0 [|k1 l]]; cbn in L, EI; try lia. congruence.
Qed.

(** The image of each input. *)
Lemma sign_inputs_images message mixRing inSk pseudo kl index : forall rng mgs rng' i ring sk j pk,
  sign_inputs message mixRing inSk pseudo kl false index rng = ret (mgs, rng') ->
  length inSk = length mixRing -> length pseudo = length mixRing -> length index = length mixRing ->
  length kl = length mixRing -> Forall (fun k => k = None) kl ->
  mixRing !! i = Some ring -> inSk !! i = Some sk -> index !! i = Some j -> ring !! j = Some pk ->
  exists mg ki, map fst mgs !! i = Some mg /\ II mg = [ki] /\ image_of (dest pk) (dest sk) ki.
Proof.
  revert inSk pseudo kl index.
  induction mixRing as [|ring0 mixRing IH]; intros inSk pseudo kl index rng mgs rng' i ring sk j pk E L1 L2 L3 L4 F Hr Hs Hj Hp; [done|].
  destruct inSk as [|sk0 inSk], pseudo as [|[a0 C0] pseudo], index as [|j0 index], kl as [|m0 kl]; try discriminate.
  apply Forall_cons in F as [-> F]. cbn [sign_inputs] in E. rinv E x Ex. rinv E y Ey. apply ret_inj in E. injection E as <- <-.
  cbn [length] in *. destruct i as [|i]; cbn in Hr, Hs, Hj.
  - injection Hr as ->. injection Hs as ->. injection Hj as ->. eexists.
    destruct (proveRctMGSimple_image _ _ _ _ _ _ _ _ _ _ _ Ex Hp) as (ki & E1 & E2). exists ki. by split_and!.
  - apply (IH inSk pseudo kl index _ _ _ i ring sk j pk Ey); try done; lia.
Qed.

Lemma sign_inputs_length message mixRing : forall inSk pseudo kl index rng mgs rng',
  sign_inputs message mixRing inSk pseudo kl false index rng = ret (mgs, rng') ->
  length inSk = length mixRing -> length pseudo = length mixRing -> length index = length mixRing ->
  length kl = length mixRing -> length mgs = length mixRing.
Proof.
  induction mixRing as [|ring0 mixRing IH]; intros inSk pseudo kl index rng mgs rng' E L1 L2 L3 L4;
    destruct inSk as [|sk0 inSk], pseudo as [|[a0 C0] pseudo], index as [|j0 index], kl as [|m0 kl]; try discriminate.
  - apply ret_inj in E. by injection E as <- <-.
  - cbn [sign_inputs] in E. rinv E x Ex. rinv E y Ey. apply ret_inj in E. injection E as <- <-. cbn [length] in *. f_equal.
    apply (IH _ _ _ _ _ _ _ Ey); lia.
Qed.

Lemma prove_outputs_length amounts : forall rng l rng',
  prove_outputs debug amounts rng = ret (l, rng') -> length l = length amounts.
Proof.
  induction amounts as [|a amounts IH]; intros rng l rng' E; cbn [prove_outputs] in E.
  - apply ret_inj in E. by injection E as <- <-.
  - rinv E x Ex. rinv E y Ey. rinv E z Ez. apply ret_inj in E. injection E as <- <-. cbn [length]. f_equal. by eapply IH.
Qed.

Lemma pseudo_loop_length amounts : forall s rng l s' rng',
  pseudo_loop amounts s rng = ret (l, s', rng') -> length l = length amounts.
Proof.
  induction amounts as [|a amounts IH]; intros s rng l s' rng' E; cbn [pseudo_loop] in E.
  - apply ret_inj in E. by injection E as <- <- <-.
  - rinv E x Ex. rinv E y Ey. rinv E z Ez. rinv E w Ew. apply ret_inj in E. injection E as <- <- <-. cbn [length]. f_equal. by eapply IH.
Qed.

Lemma set_dest_dests ds Cs : length ds = length Cs -> map dest (set_dest ds Cs) = ds.
Proof.
  unfold set_dest. revert Cs. induction ds as [|d ds IH]; intros [|C Cs] L; try discriminate; [done|].
  cbn in *. by rewrite IH by lia.
Qed.

(** The fields of a simple signature with Borromean proofs. *)
Lemma genRctSimple_shape message inSk destinations inamounts outamounts fee mixRing keys index rng rv masks cs rng' :
  genRctSimple debug PROVE VERIFY message inSk destinations inamounts outamounts fee mixRing keys None false index false rng
    = ret (rv, masks, cs, rng') ->
  r_type rv = Transaction.RCTTypeSimple /\ r_message rv = message /\ r_mixRing rv = mixRing /\ r_txnFee rv = fee
  /\ length masks = length destinations /\ map dest (r_outPk rv) = destinations /\ r_bulletproofs rv = []
  /\ length (r_MGs rv) = length mixRing
  /\ forall i ring sk j pk, mixRing !! i = Some ring -> inSk !! i = Some sk -> index !! i = Some j -> ring !! j = Some pk ->
       exists mg ki, r_MGs rv !! i = Some mg /\ II mg = [ki] /\ image_of (dest pk) (dest sk) ki.
Proof.
  intros E. unfold genRctSimple in E.
  rinv E u1 E1. rinv E u2 E2. rinv E u3 E3. rinv E u4 E4. rinv E u5 E5. rinv E u6 E6. rinv E u7 E7. rinv E v8 E8. rinv E u9 E9.
  apply ensure_inv in E1, E2, E3, E4, E5, E6. apply Nat.eqb_eq in E2, E3, E4, E5, E6. apply Nat.ltb_lt in E1.
  rinv E x10 E10. rinv E x11 E11. rinv E x12 E12. rinv E x13 E13. rinv E x14 E14. rinv E x15 E15. rinv E x16 E16.
  rinv E x17 E17. rinv E x18 E18. apply ret_inj in E. injection E as <- <- <- <-.
  unfold range_proofs in E10. rinv E10 x19 E19. apply ret_inj in E10. injection E10 as <- <- <- <- <-.
  apply prove_outputs_length in E19. apply pseudo_loop_length in E13.
  rewrite length_take in E13.
  match type of E18 with sign_inputs _ _ _ ?ps _ _ _ _ = _ =>
    assert (length ps = length mixRing) as LP by (rewrite length_app; cbn [length]; lia) end.
  assert (length (map (fun _ => @None multisig_kLRki) inamounts) = length mixRing) as LK by (rewrite length_map; lia).
  cbn [r_type r_message r_mixRing r_txnFee r_outPk r_bulletproofs r_MGs]. rewrite !length_map. split_and!; try done.
  - lia.
  - apply set_dest_dests. rewrite length_map. lia.
  - apply (sign_inputs_length _ _ _ _ _ _ _ _ _ E18); lia.
  - intros i ring sk j pk. apply (sign_inputs_images _ _ _ _ _ _ _ _ _ _ _ _ _ _ E18); try lia. by apply Forall_fmap, Forall_true.
Qed.

(** The fields of a full signature: its images are those of the rows of the
    signer's column. *)
Lemma genRct_shape message inSk destinations amounts mixRing keys index rng rv masks c rng' :
  genRct debug message inSk destinations amounts mixRing keys None false index rng = ret (rv, masks, c, rng') ->
  r_type rv = Transaction.RCTTypeFull /\ r_message rv = message /\ r_mixRing rv = mixRing
  /\ length masks = length destinations /\ map dest (r_outPk rv) = destinations /\ r_bulletproofs rv = []
  /\ exists mg, r_MGs rv = [mg] /\ length (II mg) = length inSk
       /\ forall col i pk sk, mixRing !! index = Some col -> col !! i = Some pk -> inSk !! i = Some sk ->
            exists ki, II mg !! i = Some ki /\ image_of (dest pk) (dest sk) ki.
Proof.
  intros E. unfold genRct in E. rinv E u1 E1. rinv E u2 E2. rinv E u3 E3. rinv E u4 E4. rinv E u5 E5.
  apply ensure_inv in E1, E2, E3. apply Nat.ltb_lt in E3.
  rinv E x6 E6. rinv E x7 E7. rinv E x9 E9. rinv E x10 E10. rinv E x11 E11. rinv E x12 E12. apply ret_inj in E. injection E as <- <- <- <-.
  assert (length (take (length destinations) amounts) = length destinations) as LT.
  { rewrite length_take. apply orb_true_iff in E1. rewrite !Nat.eqb_eq in E1. lia. }
  apply prove_outputs_length in E6. rewrite LT in E6.
  cbn [r_type r_message r_mixRing r_outPk r_bulletproofs r_MGs]. rewrite length_map.
  split; [done|]. split; [done|]. split; [done|]. split; [exact E6|]. split; [apply set_dest_dests; by rewrite length_map|].
  split; [done|]. eexists. split; [reflexivity|].
  unfold proveRctMG in E12. rinv E12 v1 F1. rinv E12 pubs0 F2. rinv E12 v3 F3. rinv E12 v4 F4. rinv E12 v5 F5. rinv E12 v6 F6.
  rinv E12 v7 F7. rinv E12 last0 F8. rinv E12 M F9. rinv E12 last1 F10.
  apply ensure_inv, Nat.eqb_eq in F5.
  assert (forall col, mixRing !! index = Some col -> length col = length inSk) as LC.
  { intros col Hc. apply ensure_inv in E4. unfold same_length in E4. rewrite forallb_forall in E4.
    apply Nat.eqb_eq, E4. apply list_elem_of_In. by eapply list_elem_of_lookup_2. }
  destruct (lookup_lt_is_Some_2 mixRing index E3) as [col Hc].
  destruct (each_lookup _ _ _ _ _ F9 Hc) as (mcol & Hm & Em). unfold full_mg_column in Em.
  rinv Em k1 G1. rinv Em k2 G2. rinv Em k3 G3. apply ret_inj in Em. subst mcol.
  destruct (MLSAG_Gen_images _ _ _ _ _ _ _ _ _ _ E12 Hm) as [L H].
  { rewrite length_app, length_map, (LC col Hc). lia. }
  { rewrite !length_app, !length_map, (LC col Hc). done. }
  split; [rewrite L; congruence|]. intros col' i pk sk Hc' Hpk Hsk. rewrite Hc in Hc'. injection Hc' as <-.
  pose proof (lookup_lt_Some _ _ _ Hsk) as Hi.
  apply (H i (dest pk) (dest sk)).
  - lia.
  - rewrite lookup_app_l by (rewrite length_map; by apply lookup_lt_Some in Hpk). by rewrite list_lookup_fmap, Hpk.
  - rewrite lookup_app_l by (by rewrite length_map). by rewrite list_lookup_fmap, Hsk.
Qed.

End shapes.

(** ** Transactions *)

Record input := In { i_amount : Z; i_ring : list ctkey; i_index : nat; i_sk : ctkey }.

Record output := Out { o_dest : bytes; o_amount : Z; o_key : bytes }.

Section transactions.

Context `{HF : !FastHash}.

(** An input the signer can spend. *)
Definition spendable (x : input) : Prop :=
  amount_ok (i_amount x) /\ (2 <= length (i_ring x))%nat /\ Forall ring_key (i_ring x)
  /\ exists pk, i_ring x !! i_index x = Some pk /\ secret_of (i_amount x) (i_sk x) pk.

Definition signing_draws (ins : list input) : nat := list_sum (map (fun x => (length (i_ring x) * 2)%nat) ins).

Lemma sign_inputs_ok message ins ps rng rng' :
  Forall spendable ins -> Forall2 opens (map i_amount ins) ps ->
  Forall scalar rng -> draw (signing_draws ins) rng = Some rng' ->
  exists mgs, sign_inputs message (map i_ring ins) (map i_sk ins) ps (map (fun _ => None) (map i_amount ins)) false
      (map i_index ins) rng = ret (mgs, rng')
    /\ length mgs = length ins
    /\ all_inputs message (map fst mgs) (map i_ring ins) (map snd ps) = Some true.
Proof.
  intros F. revert ps rng. induction F as [|x ins (Ha & L2 & K & pk & Hi & S) _ IH]; intros ps rng O Hr D.
  - injection D as ->. exists []. by split_and!.
  - apply Forall2_cons_inv_l in O as ([a C] & ps' & O1 & O2 & ->).
    destruct (draw_add _ _ _ _ Hr D) as (rng1 & D1 & Hr1 & D2).
    destruct (simple_input_ok message _ _ pk a C _ _ rng rng1 L2 K Hi Ha S O1 Hr D1) as (mg & c & EG & EV).
    destruct (IH ps' rng1 O2 Hr1 D2) as (mgs & E1 & L1 & E2). exists ((mg, c) :: mgs).
    split; [|split; [cbn [length]; lia|]].
    + cbn [map sign_inputs]. rewrite EG. rgo. rewrite E1. by rgo.
    + cbn [map fst snd all_inputs]. rewrite EV. go. rewrite E2. by go.
Qed.

(** The masks of the pseudo outputs, the last of which makes the sums equal. *)
Lemma pseudo_masks_ok amounts amount os oa rng rng' :
  Forall amount_ok amounts -> amount_ok amount -> Forall2 opens oa os -> Forall scalar rng ->
  draw (length amounts) rng = Some rng' ->
  exists sumout l s a, sum_masks Zero (map fst os) = ret sumout
    /\ pseudo_loop amounts Zero rng = ret (l, s, rng') /\ sc_sub sumout s = Some a
    /\ Forall2 opens (amounts ++ [amount]) (l ++ [(a, encode (pedersen (num a) amount))])
    /\ genC a amount = ret (encode (pedersen (num a) amount))
    /\ eqm ell (masks_sum (l ++ [(a, encode (pedersen (num a) amount))])) (masks_sum os)
    /\ Forall scalar rng'.
Proof.
  intros HA Ha Fo Hr D.
  destruct (sum_masks_ok oa os Zero 0 Fo ltac:(by_eval) ltac:(reflexivity)) as (sumout & Eo & Vo & No).
  destruct (pseudo_loop_ok amounts Zero 0 rng rng' HA ltac:(by_eval) ltac:(reflexivity) Hr D)
    as (l & s & El & Vs & Ns & Fl & Hr').
  exists sumout, l, s, (residue (num sumout - num s)).
  split; [exact Eo|]. split; [exact El|]. split; [apply sc_sub_ok; [exact (proj1 Vo)|exact (proj1 Vs)]|].
  split; [|split; [|split; [|exact Hr']]].
  - apply Forall2_app; [exact Fl|]. constructor; [|constructor]. split; [apply residue_valid|reflexivity].
  - apply genC_ok; [exact Ha|apply residue_scalar].
  - unfold masks_sum in *. rewrite map_app, zsum_app. cbn [map zsum fst].
    rewrite num_residue, Z.add_0_r. rewrite !Z.add_0_l in No, Ns.
    rewrite <- Ns, <- No. unfold eqm. rewrite Zplus_mod_idemp_r. f_equal. lia.
Qed.

Lemma indices_ok ins : Forall spendable ins -> all_indices (map i_index ins) (map i_ring ins) = true.
Proof.
  unfold all_indices. induction 1 as [|x ins (_ & _ & _ & pk & Hi & _) _ IH]; [reflexivity|].
  cbn [map zip zip_with forallb]. rewrite (proj2 (Nat.ltb_lt _ _) (lookup_lt_Some _ _ _ Hi)). exact IH.
Qed.

Lemma set_dest_masks ds Cs : length ds = length Cs -> map mask (set_dest ds Cs) = Cs.
Proof.
  revert Cs. induction ds as [|d ds IH]; intros [|C Cs] L; try discriminate; [reflexivity|].
  cbn [length] in L. unfold set_dest in *. cbn [zip_with map mask]. rewrite IH by lia. reflexivity.
Qed.

(** The signature genRctSimple makes, from what its parts return. *)
Definition simple_rct (message : bytes) (ins : list input) (outs : list output) (fee : Z)
    (ecdh : list (bytes * bytes)) (os : list (bytes * bytes * rangeSig)) (ps : list (bytes * bytes))
    (mgs : list mgSig) : rctSig :=
  Rct Transaction.RCTTypeSimple message (map i_ring ins) (map snd ps) ecdh
    (set_dest (map o_dest outs) (map (fun o => o.1.1) os)) fee (map snd os) [] mgs [].

Definition balanced (ins : list input) (outs : list output) (fee : Z) : Prop :=
  zsum (map i_amount ins) = zsum (map o_amount outs) + fee.

Lemma simple_accepted VERIFY message ins outs fee ecdh os ps mgs h :
  Forall2 proved (map o_amount outs) os -> Forall2 opens (map i_amount ins) ps -> amount_ok fee ->
  balanced ins outs fee -> eqm ell (masks_sum ps) (masks_sum (map mask_pair os)) ->
  length ecdh = length outs -> length mgs = length ins ->
  get_pre_mlsag_hash (simple_rct message ins outs fee ecdh os ps mgs) = ret h ->
  all_inputs h mgs (map i_ring ins) (map snd ps) = Some true ->
  verRctSemanticsSimple VERIFY [simple_rct message ins outs fee ecdh os ps mgs] = Some true
  /\ verRctNonSemanticsSimple (simple_rct message ins outs fee ecdh os ps mgs) = Some true.
Proof.
  intros Fo Fp Hf Bal M Le Lm Eh EI.
  pose proof (Forall2_length _ _ _ Fo) as Lo. pose proof (Forall2_length _ _ _ Fp) as Lp. rewrite length_map in Lo, Lp.
  set (rv := simple_rct _ _ _ _ _ _ _ _) in *. assert (is_bulletproof rv = false) as Eb by reflexivity.
  assert (length (r_outPk rv) = length outs) as L1.
  { cbn [rv simple_rct r_outPk]. unfold set_dest. rewrite length_zip_with, !length_map. lia. }
  split.
  - unfold verRctSemanticsSimple. cbn [forallb map]. assert (sizes_ok rv = true) as ->.
    { unfold sizes_ok. rewrite L1. unfold rv. cbn [simple_rct r_type r_rangeSigs r_pseudoOuts r_MGs r_p_pseudoOuts r_ecdhInfo is_bulletproof].
      rewrite !length_map, Le, <- Lp, Lm, <- Lo, !Nat.eqb_refl. reflexivity. }
    cbn [negb andb]. cbn [all_sums].
    rewrite (sums_match_ok rv _ _ ps (map mask_pair os) Fp (proved_opens _ _ Fo) Hf Bal M);
      [| |reflexivity].
    + rgo. cbn [negb]. rgo. cbn [negb concat app]. rewrite Eb. cbn [app]. rgo. cbn [negb all_borromean]. rewrite Eb.
      cbn [rv simple_rct r_outPk r_rangeSigs].
      rewrite (all_ranges_ok _ _ _ Fo) by (rewrite !length_map; reflexivity). reflexivity.
    + rewrite mask_pair_commitments. cbn [rv simple_rct r_outPk]. apply set_dest_masks. rewrite !length_map. exact Lo.
  - unfold verRctNonSemanticsSimple. cbn [rv simple_rct r_type r_mixRing get_pseudo_outs r_MGs].
    change (length (get_pseudo_outs rv)) with (length (map snd ps)).
    rewrite !length_map, <- Lp, Nat.eqb_refl. cbn [negb].
    change (Transaction.RCTTypeSimple =? Transaction.RCTTypeSimple) with true. cbn [orb negb].
    fold rv. rewrite Eh. rgo. change (get_pseudo_outs rv) with (map snd ps). rewrite EI. reflexivity.
Qed.

(** What genRctSimple returns, with Borromean proofs. *)
Lemma genRctSimple_ok debug PROVE VERIFY message ins x outs fee rng rng1 rng2 rng' :
  let ins' := ins ++ [x] in
  Forall spendable ins' -> Forall (fun o => amount_ok (o_amount o)) outs -> Forall scalar rng ->
  draw (length outs * 192) rng = Some rng1 -> draw (length ins) rng1 = Some rng2 ->
  draw (signing_draws ins') rng2 = Some rng' ->
  exists os ps ecdh mgs h,
    genRctSimple debug PROVE VERIFY message (map i_sk ins') (map o_dest outs) (map i_amount ins') (map o_amount outs)
      fee (map i_ring ins') (map o_key outs) None false (map i_index ins') false rng
    = ret (simple_rct message ins' outs fee ecdh os ps (map fst mgs), map (fun o => o.1.2) os, map snd mgs, rng')
    /\ Forall2 proved (map o_amount outs) os /\ Forall2 opens (map i_amount ins') ps
    /\ eqm ell (masks_sum ps) (masks_sum (map mask_pair os))
    /\ encode_outputs (map fst (map mask_pair os)) (map o_amount outs) (map o_key outs) = ret ecdh
    /\ length mgs = length ins'
    /\ get_pre_mlsag_hash (simple_rct message ins' outs fee ecdh os ps (map fst mgs)) = ret h
    /\ all_inputs h (map fst mgs) (map i_ring ins') (map snd ps) = Some true.
Proof.
  intros ins' HS HO Hr D1 D2 D3. assert (ins' <> []) as N by (unfold ins'; by destruct ins).
  assert (Forall amount_ok (map o_amount outs)) as HOA by (apply Forall_fmap; exact HO).
  assert (Forall amount_ok (map i_amount ins ++ [i_amount x])) as HIA.
  { change [i_amount x] with (map i_amount [x]). rewrite <- map_app. apply Forall_fmap.
    eapply Forall_impl; [exact HS|]. intros ? [E _]. exact E. }
  apply Forall_app in HIA as [HIA HX]. apply Forall_inv in HX.
  rewrite <- (length_map o_amount) in D1. rewrite <- (length_map i_amount) in D2.
  destruct (prove_outputs_ok debug _ rng rng1 HOA Hr D1) as (os & EO & FO & Hr1).
  destruct (pseudo_masks_ok (map i_amount ins) (i_amount x) (map mask_pair os) _ rng1 rng2 HIA HX (proved_opens _ _ FO) Hr1 D2)
    as (sumout & l & sm & a & E1 & E2 & E3 & FP & E4 & EM & Hr2).
  destruct (encode_outputs_ok _ _ (map o_key outs) (proved_opens _ _ FO) HOA) as (ecdh & EE & LE & _);
    [by rewrite !length_map|].
  set (ps := l ++ _) in *. change [i_amount x] with (map i_amount [x]) in FP. rewrite <- map_app in FP. fold ins' in FP.
  pose proof (Forall2_length _ _ _ FO) as Lo. pose proof (Forall2_length _ _ _ FP) as Lp. rewrite length_map in Lo, Lp, LE.
  destruct (prehash_ok Transaction.RCTTypeSimple message (map i_ring ins') (map snd ps) ecdh
    (set_dest (map o_dest outs) (map (fun o => o.1.1) os)) fee (map snd os)) as [h EH];
    [by right|by destruct ins'|by rewrite !length_map| |].
  { unfold set_dest. rewrite length_zip_with, !length_map. lia. }
  destruct (sign_inputs_ok h ins' ps rng2 rng' HS FP Hr2 D3) as (mgs & ES & LM & EI).
  exists os, ps, ecdh, mgs, h. split; [|exact (conj FO (conj FP (conj EM (conj EE (conj LM (conj (EH _) EI))))))].
  unfold genRctSimple. rewrite !length_map.
  rewrite (ensure_holds _ (proj2 (Nat.ltb_lt 0 (length ins')) ltac:(destruct ins'; [done|cbn [length]; lia]))).
  rewrite !Nat.eqb_refl, (indices_ok ins' HS). cbn [negb]. rewrite !(ensure_holds true) by reflexivity.
  rewrite !rbind_ret. unfold range_proofs. rewrite EO, !rbind_ret. cbv beta iota.
  rewrite <- mask_pair_masks, E1, EE, !rbind_ret.
  assert (map i_amount ins' = map i_amount ins ++ [i_amount x]) as EA by (unfold ins'; apply map_app).
  replace (take (length ins' - 1) (map i_amount ins')) with (map i_amount ins)
    by (rewrite EA, take_app_le by (rewrite length_map; unfold ins'; rewrite length_app; cbn [length]; lia);
        rewrite take_ge; [reflexivity|rewrite length_map; unfold ins'; rewrite length_app; cbn [length]; lia]).
  rewrite E2. rgo. rewrite EA, last_snoc. rgo. rewrite E3. rgo. rewrite E4. rgo. rewrite <- EA. fold ps.
  rewrite EH. rgo. rewrite ES. rgo. reflexivity.
Qed.

(** Every recipient decodes their output. *)
Lemma outputs_decoded rv outs os :
  Forall (fun o => amount_ok (o_amount o)) outs -> Forall2 proved (map o_amount outs) os ->
  encode_outputs (map fst (map mask_pair os)) (map o_amount outs) (map o_key outs) = ret (r_ecdhInfo rv) ->
  r_outPk rv = set_dest (map o_dest outs) (map (fun o => o.1.1) os) ->
  length (r_ecdhInfo rv) = length outs
  /\ forall j o, outs !! j = Some o ->
       exists m, map (fun o => o.1.2) os !! j = Some m /\ decode_output rv (o_key o) j = ret (o_amount o, m).
Proof.
  intros HO FO EE EP. pose proof (proved_opens _ _ FO) as FM.
  assert (Forall amount_ok (map o_amount outs)) as HOA by (apply Forall_fmap; exact HO).
  destruct (encode_outputs_ok _ _ (map o_key outs) FM HOA) as (es & E & L & W); [by rewrite !length_map|].
  rewrite EE in E. apply ret_inj in E as <-. rewrite length_map in L. split; [exact L|]. intros j o Ho.
  pose proof (lookup_lt_Some _ _ _ Ho) as Hj. destruct (lookup_lt_is_Some_2 (r_ecdhInfo rv) j ltac:(lia)) as [e He].
  pose proof (Forall2_length _ _ _ FO) as Lo. rewrite length_map in Lo.
  destruct (W j (o_amount o) (o_key o) e) as (q & am & Hq & Ed & Ea & Va);
    [by rewrite list_lookup_fmap, Ho|by rewrite list_lookup_fmap, Ho|exact He|].
  pose proof Hq as Hq'. rewrite list_lookup_fmap in Hq'. apply fmap_Some in Hq' as (t & Ht & ->).
  exists t.1.2. split; [by rewrite list_lookup_fmap, Ht|].
  apply (decode_output_ok rv _ j _ (mask_pair t) am e (Ct (o_dest o) t.1.1)); try assumption; try reflexivity.
  - exact (Forall_lookup_1 _ _ _ _ HO Ho).
  - apply (Forall2_lookup_lr _ _ _ j _ _ FM); [by rewrite list_lookup_fmap, Ho|exact Hq].
  - rewrite EP. unfold set_dest. rewrite length_zip_with, !length_map. lia.
  - rewrite EP. unfold set_dest. rewrite lookup_zip_with, !list_lookup_fmap, Ho, Ht. reflexivity.
Qed.

End transactions.

(** Making and checking a simple signature. *)
Lemma simple_signed `{!FastHash} debug PROVE VERIFY message ins outs fee rng rng' :
  ins <> [] -> Forall spendable ins -> Forall (fun o => amount_ok (o_amount o)) outs -> amount_ok fee ->
  balanced ins outs fee -> Forall scalar rng ->
  draw (length outs * 192 + (length ins - 1 + signing_draws ins)) rng = Some rng' ->
  exists rv masks cs,
    genRctSimple debug PROVE VERIFY message (map i_sk ins) (map o_dest outs) (map i_amount ins) (map o_amount outs)
      fee (map i_ring ins) (map o_key outs) None false (map i_index ins) false rng = ret (rv, masks, cs, rng')
    /\ verRctSemanticsSimple VERIFY [rv] = Some true
    /\ verRctNonSemanticsSimple rv = Some true
    /\ forall j o, outs !! j = Some o ->
         exists m, masks !! j = Some m /\ decodeRctSimple rv (o_key o) j = ret (o_amount o, Some m).
Proof.
  intros N HS HO Hf Bal Hr D. destruct ins as [|x ins0 _] using rev_ind; [done|].
  destruct (draw_add _ _ _ _ Hr D) as (rng1 & D1 & Hr1 & D'). destruct (draw_add _ _ _ _ Hr1 D') as (rng2 & D2 & Hr2 & D3).
  replace (length (ins0 ++ [x]) - 1)%nat with (length ins0) in D2 by (rewrite length_app; cbn [length]; lia).
  destruct (genRctSimple_ok debug PROVE VERIFY message ins0 x outs fee rng rng1 rng2 rng' HS HO Hr D1 D2 D3)
    as (os & ps & ecdh & mgs & h & EG & FO & FP & EM & EE & LM & EH & EI).
  set (rv := simple_rct _ _ _ _ _ _ _ _) in *.
  destruct (outputs_decoded rv outs os HO FO EE eq_refl) as [LE DE].
  exists rv, (map (fun o => o.1.2) os), (map snd mgs). split; [exact EG|].
  destruct (simple_accepted VERIFY message (ins0 ++ [x]) outs fee ecdh os ps (map fst mgs) h) as [V1 V2]; try assumption;
    [by rewrite length_map|].
  split; [exact V1|]. split; [exact V2|]. intros j o Ho. destruct (DE j o Ho) as (m & Hm & Em).
  exists m. split; [exact Hm|]. unfold decodeRctSimple. cbn [rv simple_rct r_type].
  change (Transaction.RCTTypeSimple =? Transaction.RCTTypeSimple) with true. cbn [orb negb]. fold rv. rewrite Em. by rgo.
Qed.

(** C4. A confidential transaction is accepted and understood: for every list
    of spendable inputs (rings of at least two valid members whose keys do not
    hash to the neutral element, one of them known by its secret key and mask)
    and every list of outputs with 64-bit amounts, such that the inputs are worth
    the outputs and the fee, genRctSimple with Borromean proofs makes a signature
    (with 192 random scalars to draw for each output, one for each input but the
    last and two for each ring member) that verRctSemanticsSimple and
    verRctNonSemanticsSimple accept, and decodeRctSimple gives every recipient
    the amount and the mask of their output. *)
Theorem simple_transaction_verifies `{!FastHash} debug PROVE VERIFY message ins outs fee rng rng' :
  ins <> [] -> Forall spendable ins -> Forall (fun o => amount_ok (o_amount o)) outs -> amount_ok fee ->
  balanced ins outs fee -> Forall scalar rng ->
  draw (length outs * 192 + (length ins - 1 + signing_draws ins)) rng = Some rng' ->
  exists rv masks cs,
    genRctSimple debug PROVE VERIFY message (map i_sk ins) (map o_dest outs) (map i_amount ins) (map o_amount outs)
      fee (map i_ring ins) (map o_key outs) None false (map i_index ins) false rng = ret (rv, masks, cs, rng')
    /\ verRctSemanticsSimple VERIFY [rv] = Some true
    /\ verRctNonSemanticsSimple rv = Some true
    /\ forall j o, outs !! j = Some o ->
         exists m, masks !! j = Some m /\ decodeRctSimple rv (o_key o) j = ret (o_amount o, Some m).
Proof. apply simple_signed. Qed.


(** ** Full signatures *)

Section full.

Context `{HF : !FastHash}.

Definition sum_from (P : point) (l : list point) : point := fold_left pt_add l P.
Definition minus_from (P : point) (l : list point) : point := fold_left (fun P Q => pt_add P (pt_neg Q)) l P.

Lemma add_all_ok l P :
  on_curve P -> Forall on_curve l ->
  add_all (encode P) (encode <$> l) = ret (encode (sum_from P l)) /\ on_curve (sum_from P l).
Proof.
  intros HP F. revert P HP. induction F as [|Q l HQ _ IH]; intros P HP; [exact (conj eq_refl HP)|].
  cbn [fmap list_fmap add_all sum_from fold_left]. rewrite addKeys_ok by assumption. rgo. apply IH. oncurve.
Qed.

Lemma sub_all_ok l P :
  on_curve P -> Forall on_curve l ->
  sub_all (encode P) (encode <$> l) = ret (encode (minus_from P l)) /\ on_curve (minus_from P l).
Proof.
  intros HP F. revert P HP. induction F as [|Q l HQ _ IH]; intros P HP; [exact (conj eq_refl HP)|].
  cbn [fmap list_fmap sub_all minus_from fold_left]. rewrite subKeys_ok by assumption. rgo. apply IH. oncurve.
Qed.

(** Commitments as points. *)
Definition commits (c : Z * Z) (P : point) : Prop := pt_eq P (pedersen c.1 c.2).

Lemma sum_from_commits cs l P m v :
  Forall2 commits cs l -> pt_eq P (pedersen m v) ->
  pt_eq (sum_from P l) (pedersen (m + zsum (map fst cs)) (v + zsum (map snd cs))).
Proof.
  intros F. revert P m v. induction F as [|[m' v'] Q cs l E _ IH]; intros P m v EP.
  - cbn [map zsum]. rewrite !Z.add_0_r. exact EP.
  - cbn [sum_from fold_left map zsum fst snd]. rewrite !Z.add_assoc. apply IH.
    unfold commits in E. cbn [fst snd] in E. rewrite EP, E. apply pedersen_add.
Qed.

Lemma pedersen_minus a b a' b' :
  pt_eq (pt_add (pedersen a b) (pt_neg (pedersen a' b'))) (pedersen (a - a') (b - b')).
Proof.
  assert (pt_eq (pt_neg (pedersen a' b')) (pedersen (- a') (- b'))) as ->.
  { unfold pedersen. rewrite pt_neg_add, !zmul_opp. reflexivity. }
  rewrite pedersen_add, !Z.add_opp_r. reflexivity.
Qed.

Lemma minus_from_commits cs l P m v :
  Forall2 commits cs l -> pt_eq P (pedersen m v) ->
  pt_eq (minus_from P l) (pedersen (m - zsum (map fst cs)) (v - zsum (map snd cs))).
Proof.
  intros F. revert P m v. induction F as [|[m' v'] Q cs l E _ IH]; intros P m v EP.
  - cbn [map zsum]. rewrite !Z.sub_0_r. exact EP.
  - cbn [minus_from fold_left map zsum fst snd]. rewrite !Z.sub_add_distr. apply IH.
    unfold commits in E. cbn [fst snd] in E. rewrite EP, E. apply pedersen_minus.
Qed.

Lemma sc_add_all_ok l acc x :
  Forall valid l -> valid acc -> eqm ell (num acc) x ->
  exists s, sc_add_all acc l = ret s /\ valid s /\ eqm ell (num s) (x + zsum (map (fun k => num k) l)).
Proof.
  intros F. revert acc x. induction F as [|k l Vk _ IH]; intros acc x Va E.
  - exists acc. cbn [map zsum]. rewrite Z.add_0_r. exact (conj eq_refl (conj Va E)).
  - cbn [sc_add_all map zsum]. rewrite (sc_add_ok acc k (proj1 Va) (proj1 Vk)). rgo. rewrite Z.add_assoc.
    apply IH; [apply residue_valid|]. rewrite num_residue, <- E. apply Zmod_mod.
Qed.

Lemma sc_sub_all_ok l acc x :
  Forall valid l -> valid acc -> eqm ell (num acc) x ->
  exists s, sc_sub_all acc l = ret s /\ valid s /\ eqm ell (num s) (x - zsum (map (fun k => num k) l)).
Proof.
  intros F. revert acc x. induction F as [|k l Vk _ IH]; intros acc x Va E.
  - exists acc. cbn [map zsum]. rewrite Z.sub_0_r. exact (conj eq_refl (conj Va E)).
  - cbn [sc_sub_all map zsum]. rewrite (sc_sub_ok acc k (proj1 Va) (proj1 Vk)). rgo. rewrite Z.sub_add_distr.
    apply IH; [apply residue_valid|]. rewrite num_residue, <- E. apply Zmod_mod.
Qed.

(** *** The matrix *)

Definition full_points (outs : list point) (feeP : point) (Qs : list (point * point)) : list point :=
  map fst Qs ++ [pt_add (minus_from (sum_from pt_zero (map snd Qs)) outs) (pt_neg feeP)].

Lemma point_keys Qs :
  map dest (map point_key Qs) = encode <$> map fst Qs /\ map mask (map point_key Qs) = encode <$> map snd Qs.
Proof. induction Qs as [|Q Qs [E1 E2]]; [done|]. cbn [map fmap list_fmap]. by rewrite E1, E2. Qed.

Lemma full_column_ok outPk Os fee Qs :
  map mask outPk = encode <$> Os -> Forall on_curve Os -> on_curve fee -> Forall good_points Qs ->
  full_mg_column outPk (encode fee) (map point_key Qs) = ret (encode <$> full_points Os fee Qs)
  /\ full_column (length Qs + 1) (full_points Os fee Qs).
Proof.
  intros EO HO Hf G. assert (Forall on_curve (map fst Qs) /\ Forall on_curve (map snd Qs)) as [G1 G2].
  { split; apply Forall_fmap; (eapply Forall_impl; [exact G|]); intros Q (? & ? & _); assumption. }
  destruct (add_all_ok (map snd Qs) pt_zero pt_zero_curve G2) as [E1 C1].
  destruct (sub_all_ok Os _ C1 HO) as [E2 C2]. split.
  - unfold full_mg_column. destruct (point_keys Qs) as [-> ->]. rewrite EO, Identity_encoded, E1. rgo. rewrite E2. rgo. rewrite subKeys_ok by assumption. rgo.
    unfold full_points. rewrite fmap_app. reflexivity.
  - unfold full_points. split; [|rewrite length_app, length_map; reflexivity].
    apply Forall_app. split; [exact G1|]. constructor; [oncurve|constructor].
Qed.

Lemma full_columns_ok outPk Os fee rows M :
  map mask outPk = encode <$> Os -> Forall on_curve Os -> on_curve fee ->
  Forall (fun Qs => Forall good_points Qs /\ length Qs = rows) M ->
  each (full_mg_column outPk (encode fee)) (map (map point_key) M)
    = ret (encoded_columns (map (full_points Os fee) M))
  /\ Forall (full_column (rows + 1)) (map (full_points Os fee) M)
  /\ Forall (hashed_well rows) (encoded_columns (map (full_points Os fee) M)).
Proof.
  intros EO HO Hf. induction 1 as [|Qs M [G L] _ (E & F & W)]; [exact (conj eq_refl (conj (Forall_nil_2 _) (Forall_nil_2 _)))|].
  destruct (full_column_ok outPk Os fee Qs EO HO Hf G) as [E1 F1]. rewrite L in F1.
  cbn [map each]. rewrite E1. rgo. rewrite E. rgo. split; [reflexivity|]. split; [constructor; assumption|].
  constructor; [|exact W]. unfold hashed_well, full_points. rewrite fmap_app, take_app_le, take_ge
    by (rewrite length_fmap, length_map; lia).
  apply Forall_fmap, Forall_fmap. eapply Forall_impl; [exact G|]. intros Q (_ & _ & N). exact N.
Qed.

Lemma matrix_of_rings rows rings :
  Forall (fun col => Forall ring_key col /\ length col = rows) rings ->
  exists M, rings = map (map point_key) M /\ Forall (fun Qs => Forall good_points Qs /\ length Qs = rows) M.
Proof.
  induction 1 as [|col rings [K L] _ (M & -> & F)]; [by exists []|].
  destruct (ring_points col K) as (Qs & -> & G). exists (Qs :: M). split; [reflexivity|].
  rewrite length_map in L. by constructor.
Qed.

(** The secrets of the signer's column. *)
Definition owned (p : Z * ctkey) (pk : ctkey) : Prop := amount_ok p.1 /\ secret_of p.1 p.2 pk.

Lemma owned_points own Qs :
  Forall good_points Qs -> Forall2 owned own (map point_key Qs) ->
  Forall2 (fun P x => on_curve P /\ valid x /\ pt_eq P (zmul (num x) B)) (map fst Qs) (map dest (map snd own))
  /\ Forall2 commits (map (fun p => (num (mask p.2), p.1)) own) (map snd Qs)
  /\ Forall valid (map mask (map snd own)).
Proof.
  intros G. revert own. induction G as [|Q Qs GQ _ IH]; intros own F.
  - apply Forall2_nil_inv_r in F as ->. split_and!; constructor.
  - apply Forall2_cons_inv_r in F as (p & own' & [Ha S] & F & ->). destruct (IH own' F) as (I1 & I2 & I3).
    destruct (secret_points_of p.1 p.2 Q Ha GQ S) as [E1 E2]. destruct S as (V1 & V2 & _). destruct GQ as (C1 & _).
    cbn [map]. split; [constructor; [exact (conj C1 (conj V1 E1))|exact I1]|].
    split; [constructor; [exact E2|exact I2]|constructor; assumption].
Qed.

Lemma opened_commits oa os :
  Forall2 opens oa os ->
  exists Os, map snd os = encode <$> Os /\ Forall on_curve Os
    /\ Forall2 commits (zip (map (fun o => num o.1) os) oa) Os /\ Forall valid (map fst os)
    /\ map fst (zip (map (fun o => num o.1) os) oa) = map (fun o => num o.1) os
    /\ map snd (zip (map (fun o => num o.1) os) oa) = oa.
Proof.
  induction 1 as [|a [m C] oa os [V E] _ (Os & E1 & H1 & F1 & V1 & Z1 & Z2)].
  - exists []. split_and!; constructor.
  - cbn [fst snd] in *. exists (pedersen (num m) a :: Os). cbn [map fmap list_fmap zip zip_with fst snd].
    rewrite E, E1, Z1, Z2. split; [reflexivity|]. split; [constructor; [apply pedersen_curve|exact H1]|].
    split; [constructor; [unfold commits; reflexivity|exact F1]|]. split; [constructor; assumption|]. exact (conj eq_refl eq_refl).
Qed.

(** The last row of the signer's column opens to the difference of the masks. *)
Lemma full_secret (own : list (Z * ctkey)) (Qs : list (point * point)) oa (os : list (bytes * bytes)) Os fee :
  Forall2 commits (map (fun p => (num (mask p.2), p.1)) own) (map snd Qs) ->
  Forall2 commits (zip (map (fun o => num o.1) os) oa) Os ->
  map fst (zip (map (fun o => num o.1) os) oa) = map (fun o => num o.1) os ->
  map snd (zip (map (fun o => num o.1) os) oa) = oa ->
  zsum (map fst own) = zsum oa + fee ->
  pt_eq (pt_add (minus_from (sum_from pt_zero (map snd Qs)) Os) (pt_neg (zmul fee H_point)))
    (zmul (zsum (map (fun p => num (mask p.2)) own) - masks_sum os) B).
Proof.
  intros F1 F2 Z1 Z2 Bal.
  assert (forall x, pt_eq (zmul x H_point) (pedersen 0 x)) as EH.
  { intros x. unfold pedersen. rewrite zmul_0. symmetry. apply pt_add_O. oncurve. }
  assert (pt_eq pt_zero (pedersen 0 0)) as E0 by (rewrite <- EH, zmul_0; reflexivity).
  rewrite (minus_from_commits _ _ _ _ _ F2 (sum_from_commits _ _ _ _ _ F1 E0)), EH, pedersen_minus, Z1, Z2.
  rewrite !map_map. cbn [fst snd]. change (map (fun p : Z * ctkey => p.1) own) with (map fst own).
  rewrite Bal, !Z.add_0_l, Z.sub_0_r.
  replace (zsum oa + fee - zsum oa - fee) with 0 by lia. unfold pedersen.
  rewrite zmul_0, pt_add_comm. apply pt_add_O. oncurve.
Qed.

Lemma same_length_ok rows rings :
  Forall (fun col => Forall ring_key col /\ length col = rows) rings -> same_length rows rings = true.
Proof.
  induction 1 as [|col rings [_ L] _ IH]; [reflexivity|]. unfold same_length in *. cbn [forallb].
  rewrite (proj2 (Nat.eqb_eq _ _) L). exact IH.
Qed.

Lemma rings_shape rows rings :
  (2 <= length rings)%nat -> Forall (fun col => Forall ring_key col /\ length col = rows) rings ->
  (exists c0, rings !! 0%nat = Some c0 /\ length c0 = rows) /\ same_length rows (drop 1 rings) = true.
Proof.
  intros L K. split; [|apply same_length_ok; by apply Forall_drop].
  destruct (lookup_lt_is_Some_2 rings 0 ltac:(lia)) as [c0 E]. exists c0. split; [exact E|].
  exact (proj2 (Forall_lookup_1 _ _ _ _ K E)).
Qed.

Lemma full_signed message rings own col outPk oa os fee index rows rng rng' :
  (2 <= length rings)%nat -> (1 <= rows)%nat ->
  Forall (fun col => Forall ring_key col /\ length col = rows) rings -> rings !! index = Some col ->
  Forall2 owned own col -> Forall2 opens oa os -> map mask outPk = map snd os -> amount_ok fee ->
  zsum (map fst own) = zsum oa + fee ->
  Forall scalar rng -> draw (length rings * (rows + 1)) rng = Some rng' ->
  exists mg c,
    proveRctMG message rings (map snd own) (map (Ct []) (map fst os)) outPk None false index
      (encode (zmul fee H_point)) rng = ret (mg, c, rng')
    /\ verRctMG mg rings outPk (encode (zmul fee H_point)) message = ret true.
Proof.
  intros L2 L1 K Hi O Fo EO Hf Bal Hr D. destruct (rings_shape rows rings L2 K) as ((c0 & E0 & Lc) & SL).
  assert (length outPk = length os) as LO by (rewrite <- (length_map mask), EO; apply length_map).
  destruct (matrix_of_rings rows rings K) as (M & -> & G). rewrite length_map in L2, D.
  rewrite list_lookup_fmap in Hi. apply fmap_Some in Hi as (Qs & HQ & ->).
  destruct (Forall_lookup_1 _ _ _ _ G HQ) as [GQ LQ].
  destruct (owned_points own Qs GQ O) as (FP & FC & VM). pose proof (Forall2_length _ _ _ O) as Lown. rewrite length_map in Lown.
  destruct (opened_commits oa os Fo) as (Os & ES & HOs & FO & VO & Z1 & Z2). rewrite ES in EO.
  set (feeP := zmul fee H_point). assert (on_curve feeP) as Cf by (unfold feeP; oncurve).
  destruct (full_columns_ok outPk Os feeP rows M EO HOs Cf G) as (EM & FM & WM).
  destruct (sc_add_all_ok _ sc_0 0 VM ltac:(by_eval) ltac:(reflexivity)) as (s1 & E1 & V1 & N1).
  destruct (sc_sub_all_ok _ s1 _ VO V1 N1) as (s2 & E2 & V2 & N2). rewrite Z.add_0_l, !map_map in N2.
  set (PK := map (full_points Os feeP) M) in *. assert (length PK = length M) as LP by apply length_map.
  rewrite <- LP in D, L2. assert (length (map (map point_key) M) = length PK) as LR by (rewrite LP; apply length_map).
  assert (length (map snd own) = rows) as Lsk by (rewrite length_map; congruence).
  destruct (mlsag_points message PK (full_points Os feeP Qs) (map dest (map snd own) ++ [s2]) index rows (rows + 1) rng rng')
    as (sig & c & EG & EV); [exact L2|lia|lia|exact FM| | |exact WM|exact Hr|exact D|].
  { unfold PK. rewrite list_lookup_fmap, HQ. reflexivity. }
  { apply Forall2_app; [exact FP|]. constructor; [|constructor]. split.
    - destruct (Forall_lookup_1 _ _ index (full_points Os feeP Qs) FM) as [C _];
        [unfold PK; by rewrite list_lookup_fmap, HQ|]. unfold full_points in C.
      apply Forall_app in C as [_ C]. exact (Forall_inv C).
    - split; [exact V2|]. unfold feeP. rewrite (full_secret own Qs oa os Os fee FC FO Z1 Z2 Bal).
      symmetry. apply zmul_B_mod. exact N2. }
  exists sig, c. split.
  - unfold proveRctMG. rewrite LR, (ensure_holds _ (proj2 (Nat.leb_le 1 (length PK)) ltac:(lia))). rgo.
    rewrite E0. rgo. rewrite Lc, SL, Lsk, !length_map, LO, !Nat.eqb_refl, (proj2 (Nat.leb_le 1 rows) L1). cbn [negb].
    rewrite !(ensure_holds true) by reflexivity. rewrite !rbind_ret.
    rewrite E1. rgo. rewrite EM. rgo. rewrite (map_map (Ct [])). cbn [mask]. rewrite map_id, E2. rgo. exact EG.
  - unfold verRctMG. rewrite E0, LR, (proj2 (Nat.leb_le 1 (length PK)) ltac:(lia)). cbn [negb]. rgo.
    rewrite Lc, SL, (proj2 (Nat.leb_le 1 rows) L1). cbn [negb]. rewrite EM. rgo. exact EV.
Qed.

(** The signature genRct makes. *)
Definition full_rct (message : bytes) (rings : list (list ctkey)) (outs : list output) (fee : Z)
    (ecdh : list (bytes * bytes)) (os : list (bytes * bytes * rangeSig)) (mgs : list mgSig) : rctSig :=
  Rct Transaction.RCTTypeFull message rings [] ecdh (set_dest (map o_dest outs) (map (fun o => o.1.1) os)) fee
    (map snd os) [] mgs [].

(** The amounts genRct is given: the fee is left out when it is zero, or given. *)
Definition with_fee (outs : list output) (fee : Z) (amounts : list Z) : Prop :=
  amounts = map o_amount outs ++ [fee] \/ fee = 0 /\ amounts = map o_amount outs.

Lemma with_fee_amounts outs fee amounts :
  with_fee outs fee amounts ->
  take (length outs) amounts = map o_amount outs
  /\ (if Nat.ltb (length outs) (length amounts) then default 0 (amounts !! length outs) else 0) = fee
  /\ (Nat.eqb (length amounts) (length outs) || Nat.eqb (length amounts) (length outs + 1)) = true.
Proof.
  intros [->|[-> ->]].
  - rewrite take_app_le, take_ge, length_app, length_map, Nat.eqb_refl, orb_true_r by (rewrite length_map; lia).
    cbn [length]. rewrite (proj2 (Nat.ltb_lt _ _)) by lia.
    rewrite lookup_app_r, length_map, Nat.sub_diag by (rewrite length_map; lia). done.
  - rewrite take_ge, length_map, Nat.ltb_irrefl, Nat.eqb_refl by (rewrite length_map; lia). done.
Qed.

Lemma genRct_ok debug message rings own col outs fee amounts index rng rng1 rng' :
  (2 <= length rings)%nat -> (1 <= length own)%nat ->
  Forall (fun col => Forall ring_key col /\ length col = length own) rings -> rings !! index = Some col ->
  Forall2 owned own col -> Forall (fun o => amount_ok (o_amount o)) outs -> amount_ok fee ->
  zsum (map fst own) = zsum (map o_amount outs) + fee -> with_fee outs fee amounts -> Forall scalar rng ->
  draw (length outs * 192) rng = Some rng1 -> draw (length rings * (length own + 1)) rng1 = Some rng' ->
  exists os ecdh mg c h,
    genRct debug message (map snd own) (map o_dest outs) amounts rings (map o_key outs) None false
      index rng = ret (full_rct message rings outs fee ecdh os [mg], map (fun o => o.1.2) os, c, rng')
    /\ Forall2 proved (map o_amount outs) os
    /\ encode_outputs (map fst (map mask_pair os)) (map o_amount outs) (map o_key outs) = ret ecdh
    /\ get_pre_mlsag_hash (full_rct message rings outs fee ecdh os [mg]) = ret h
    /\ verRctMG mg rings (set_dest (map o_dest outs) (map (fun o => o.1.1) os)) (encode (zmul fee H_point)) h = ret true.
Proof.
  intros L2 L1 K Hi O HO Hf Bal WF Hr D1 D2. destruct (with_fee_amounts _ _ _ WF) as (W1 & W2 & W3). pose proof (Forall2_length _ _ _ O) as Lown.
  assert (Forall amount_ok (map o_amount outs)) as HOA by (apply Forall_fmap; exact HO).
  rewrite <- (length_map o_amount) in D1.
  destruct (prove_outputs_ok debug _ rng rng1 HOA Hr D1) as (os & EO & FO & Hr1).
  pose proof (Forall2_length _ _ _ FO) as Lo. rewrite length_map in Lo.
  destruct (encode_outputs_ok _ _ (map o_key outs) (proved_opens _ _ FO) HOA) as (ecdh & EE & LE & _);
    [by rewrite !length_map|]. rewrite length_map in LE.
  set (outPk := set_dest (map o_dest outs) (map (fun o => o.1.1) os)).
  destruct (prehash_ok Transaction.RCTTypeFull message rings [] ecdh outPk fee (map snd os)) as [h EH];
    [by left|by destruct rings; [cbn in L2; lia|]|discriminate| |].
  { unfold outPk, set_dest. rewrite length_zip_with, !length_map. lia. }
  destruct (full_signed h rings own col outPk _ (map mask_pair os) fee index (length own) rng1 rng' L2 L1 K Hi O
    (proved_opens _ _ FO)) as (mg & c & EP & EV); try assumption.
  { rewrite mask_pair_commitments. apply set_dest_masks. rewrite !length_map. exact Lo. }
  exists os, ecdh, mg, c, h. split; [|exact (conj FO (conj EE (conj (EH _) EV)))].
  unfold genRct. rewrite !length_map, W1, W2, W3, !Nat.eqb_refl. rewrite (ensure_holds true) by reflexivity.
  rewrite (ensure_holds _ (proj2 (Nat.ltb_lt _ _) (lookup_lt_Some _ _ _ Hi))), (same_length_ok _ _ K). cbn [negb].
  rewrite !(ensure_holds true) by reflexivity. rewrite !rbind_ret.
  rewrite EO. rgo. rewrite <- mask_pair_masks, EE. rgo.
  destruct (amount_H fee Hf) as (am & -> & Eh). rgo. rewrite Eh. rgo. fold outPk. rewrite EH. rgo. rewrite EP. by rgo.
Qed.

End full.

(** Making and checking a full signature. *)
Lemma full_signature `{!FastHash} debug message rings own col outs fee amounts index rng rng' :
  (2 <= length rings)%nat -> (1 <= length own)%nat ->
  Forall (fun col => Forall ring_key col /\ length col = length own) rings -> rings !! index = Some col ->
  Forall2 owned own col -> Forall (fun o => amount_ok (o_amount o)) outs -> amount_ok fee ->
  zsum (map fst own) = zsum (map o_amount outs) + fee -> with_fee outs fee amounts -> Forall scalar rng ->
  draw (length outs * 192 + length rings * (length own + 1)) rng = Some rng' ->
  exists rv masks c,
    genRct debug message (map snd own) (map o_dest outs) amounts rings (map o_key outs) None false
      index rng = ret (rv, masks, c, rng')
    /\ verRct rv true = Some true /\ verRct rv false = Some true
    /\ forall j o, outs !! j = Some o ->
         exists m, masks !! j = Some m /\ decodeRct rv (o_key o) j = ret (o_amount o, Some m).
Proof.
  intros L2 L1 K Hi O HO Hf Bal WF Hr D. destruct (draw_add _ _ _ _ Hr D) as (rng1 & D1 & _ & D2).
  destruct (genRct_ok debug message rings own col outs fee amounts index rng rng1 rng' L2 L1 K Hi O HO Hf Bal WF Hr D1 D2)
    as (os & ecdh & mg & c & h & EG & FO & EE & EH & EV).
  set (rv := full_rct _ _ _ _ _ _ _) in *. destruct (outputs_decoded rv outs os HO FO EE eq_refl) as [LE DE].
  exists rv, (map (fun o => o.1.2) os), c. split; [exact EG|].
  pose proof (Forall2_length _ _ _ FO) as Lo. rewrite length_map in Lo.
  assert (length (r_outPk rv) = length outs) as LP.
  { cbn [rv full_rct r_outPk]. unfold set_dest. rewrite length_zip_with, !length_map. lia. }
  assert ((r_type rv =? Transaction.RCTTypeFull) = true) as ET by reflexivity.
  split; [|split].
  - unfold verRct. rewrite ET, LP, LE, Nat.eqb_refl. cbn [negb]. cbn [rv full_rct r_rangeSigs r_MGs r_outPk].
    rewrite length_map, Lo, Nat.eqb_refl. cbn [length Nat.eqb negb].
    apply (all_ranges_ok _ _ _ FO). by rewrite !length_map.
  - unfold verRct. rewrite ET. cbn [negb]. change (r_txnFee rv) with fee.
    destruct (amount_H fee Hf) as (am & -> & Eh). rgo. rewrite Eh. rgo.
    change (r_MGs rv !! 0%nat) with (Some mg). rgo. rewrite EH. rgo. cbn [rv full_rct r_mixRing r_outPk].
    rewrite EV. reflexivity.
  - intros j o Ho. destruct (DE j o Ho) as (m & Hm & Em). exists m. split; [exact Hm|].
    unfold decodeRct. rewrite ET. cbn [negb]. rewrite Em. by rgo.
Qed.

(** C18. The same for full signatures: with at least two columns of valid
    members, the secrets of one of them, and inputs that are worth the outputs and
    the fee, genRct makes a signature that both passes of verRct accept, and
    decodeRct gives every recipient their amount and mask. *)
Theorem full_transaction_verifies `{!FastHash} debug message rings own col outs fee index rng rng' :
  (2 <= length rings)%nat -> (1 <= length own)%nat ->
  Forall (fun col => Forall ring_key col /\ length col = length own) rings -> rings !! index = Some col ->
  Forall2 owned own col -> Forall (fun o => amount_ok (o_amount o)) outs -> amount_ok fee ->
  zsum (map fst own) = zsum (map o_amount outs) + fee -> Forall scalar rng ->
  draw (length outs * 192 + length rings * (length own + 1)) rng = Some rng' ->
  exists rv masks c,
    genRct debug message (map snd own) (map o_dest outs) (map o_amount outs ++ [fee]) rings (map o_key outs) None false
      index rng = ret (rv, masks, c, rng')
    /\ verRct rv true = Some true /\ verRct rv false = Some true
    /\ forall j o, outs !! j = Some o ->
         exists m, masks !! j = Some m /\ decodeRct rv (o_key o) j = ret (o_amount o, Some m).
Proof. intros. eapply full_signature; eauto. by left. Qed.


(** ** Acceptance means balance *)

Lemma equalKeys_eq a b : length a = length b -> equalKeys a b = true -> a = b.
Proof.
  revert b. induction a as [|x a IH]; intros [|y b] L E; try discriminate; [reflexivity|].
  cbn [equalKeys] in E. destruct (Z.eqb_spec x y) as [->|]; [|discriminate].
  cbn [length] in L. by rewrite (IH b ltac:(lia) E).
Qed.

Lemma pedersen_zero_l x : pt_eq (pedersen 0 x) (zmul x H_point).
Proof. unfold pedersen. rewrite zmul_0. apply pt_add_O. oncurve. Qed.

Lemma pedersen_zero_r x : pt_eq (pedersen x 0) (zmul x B).
Proof. unfold pedersen. rewrite zmul_0, pt_add_comm. apply pt_add_O. oncurve. Qed.

(** Two openings of one commitment. *)
Lemma pedersen_cancel a b a' b' :
  pt_eq (pedersen a b) (pedersen a' b') -> pt_eq (zmul (b' - b) H_point) (zmul (a - a') B).
Proof.
  intros E. rewrite <- pedersen_zero_l, <- pedersen_zero_r.
  transitivity (pt_add (pedersen a' b') (pt_neg (pedersen a' b))).
  - rewrite pedersen_minus, Z.sub_diag. reflexivity.
  - rewrite <- E, pedersen_minus, Z.sub_diag. reflexivity.
Qed.

(** The logarithm of H that two openings give. *)
Lemma logarithm d m k :
  pt_eq (zmul d H_point) (zmul m B) -> eqm ell (k * d) 1 -> pt_eq H_point (zmul (k * m) B).
Proof.
  intros E K. rewrite zmul_mul, <- E, <- zmul_mul by oncurve.
  rewrite (zmul_eqm ell (k * d) 1 H_point H_point_curve H_order K). symmetry. apply zmul_1, H_point_curve.
Qed.

Lemma sums_matched rv ia oa ps os :
  Forall2 opens ia ps -> Forall2 opens oa os -> amount_ok (r_txnFee rv) ->
  map mask (r_outPk rv) = map snd os -> get_pseudo_outs rv = map snd ps -> sums_match rv = ret true ->
  pt_eq (pedersen (masks_sum ps) (zsum ia)) (pedersen (masks_sum os) (zsum oa + r_txnFee rv)).
Proof.
  intros Fi Fo Hf E1 E2. unfold sums_match. rewrite E1, E2.
  destruct (opened_sum oa os Fo) as (Po & -> & Co & So). destruct (opened_sum ia ps Fi) as (Pi & -> & Cp & Si).
  rewrite (addKeysV_ok Po Co). rgo. destruct (amount_H _ Hf) as (am & -> & Eh). rgo. rewrite Eh. rgo.
  pose proof (pt_sum_curve Po Co). pose proof (pt_sum_curve Pi Cp).
  rewrite addKeys_ok by oncurve. rgo. rewrite (addKeysV_ok Pi Cp). rgo.
  intros E%ret_inj. apply equalKeys_eq in E; [|by rewrite !(proj2 (encode_scalar _))].
  apply encode_inj in E; [|oncurve..]. rewrite <- Si, E, So, <- pedersen_zero_l, pedersen_add.
  rewrite Z.add_0_l, (Z.add_comm (r_txnFee rv)). reflexivity.
Qed.

Lemma caught_true m : caught m = Some true -> m = ret true.
Proof. destruct m as [[]|]; cbn [caught]; [discriminate| |discriminate]. by intros [= ->]. Qed.

Lemma semantics_sums `{!FastHash} VERIFY rv : verRctSemanticsSimple VERIFY [rv] = Some true -> sums_match rv = ret true.
Proof.
  intros E%caught_true. destruct (negb (forallb sizes_ok [rv])); [by apply ret_inj in E|].
  cbn [all_sums] in E. destruct (sums_match rv) as [[e|[]]|] eqn:S; try discriminate. reflexivity.
Qed.

(** C5. What verification says about amounts: if verRctSemanticsSimple accepts a
    signature, of either type and with any bulletproof verifier, and the pseudo
    outputs and the outputs are opened to amounts, then the difference of the sums
    times H is the difference of the masks times G; so someone who knows the
    openings of an accepted transaction whose sums differ knows the discrete
    logarithm of H, and computes it with one inversion. *)
Theorem accepted_sums `{!FastHash} VERIFY rv ia oa ps os :
  verRctSemanticsSimple VERIFY [rv] = Some true -> amount_ok (r_txnFee rv) ->
  Forall2 opens ia ps -> get_pseudo_outs rv = map snd ps ->
  Forall2 opens oa os -> map mask (r_outPk rv) = map snd os ->
  let excess := zsum oa + r_txnFee rv - zsum ia in
  let difference := masks_sum ps - masks_sum os in
  pt_eq (zmul excess H_point) (zmul difference B)
  /\ forall k, eqm ell (k * excess) 1 -> pt_eq H_point (zmul (k * difference) B).
Proof.
  intros V Hf Fi Ei Fo Eo excess difference.
  pose proof (semantics_sums VERIFY rv V) as E.
  pose proof (pedersen_cancel _ _ _ _ (sums_matched rv ia oa ps os Fi Fo Hf Eo Ei E)) as C.
  split; [exact C|]. intros k K. exact (logarithm excess difference k C K).
Qed.


(** ** An example *)

(** One input of five coins, spent in a ring of two equal members. *)
Definition sample_member : ctkey := Ct G (encode (pedersen 1 5)).
Definition sample_secret : ctkey := Ct Identity Identity.
Definition sample_input : input := In 5 [sample_member; sample_member] 1 sample_secret.
Definition sample_output : output := Out G 3 key_7.

Lemma sample_ring_key : @ring_key example_hash sample_member.
Proof.
  destruct G_checked as [S K]. destruct (encoded_key (pedersen 1 5) (pedersen_curve 1 5)) as [S' K'].
  exact (conj S (conj K (conj hash_G_nonzero (conj S' K')))).
Qed.

Lemma sample_secret_of : secret_of 5 sample_secret sample_member.
Proof.
  assert (valid Identity) as V by by_eval. split; [exact V|]. split; [exact V|]. split; [exact G_key|].
  apply (commit_ok 5 Identity ltac:(by_eval) (proj1 V)).
Qed.

Lemma sample_spendable : Forall (@spendable example_hash) [sample_input].
Proof.
  apply Forall_singleton. split; [change (amount_ok 5); by_eval|]. split; [cbn [sample_input i_ring length]; lia|].
  split; [do 2 (apply Forall_cons_2; [exact sample_ring_key|]); apply Forall_nil_2|].
  exists sample_member. exact (conj eq_refl sample_secret_of).
Qed.

Lemma sample_outputs : Forall (fun o => amount_ok (o_amount o)) [sample_output].
Proof. apply Forall_singleton. by_eval. Qed.

Definition no_prove (_ : list Z) (_ : list bytes) (_ : randomness) : result (proof * randomness) := throw.
Definition no_verify (_ : list proof) : result bool := ret false.

(** Five coins in, three out and a fee of two. *)
Lemma simple_transaction_verifies_witness : exists rv masks cs m,
  @genRctSimple example_hash true no_prove no_verify key_5 [sample_secret] [G] [5] [3] 2
    [[sample_member; sample_member]] [key_7] None false [1%nat] false (replicate 196 key_7) = ret (rv, masks, cs, [])
  /\ @verRctSemanticsSimple example_hash no_verify [rv] = Some true
  /\ @verRctNonSemanticsSimple example_hash rv = Some true
  /\ @decodeRctSimple example_hash rv key_7 0 = ret (3, Some m).
Proof.
  destruct (@simple_transaction_verifies example_hash true no_prove no_verify key_5 [sample_input] [sample_output] 2
    (replicate 196 key_7) []) as (rv & masks & cs & E & V1 & V2 & D);
    [discriminate|exact sample_spendable|exact sample_outputs|by_eval|reflexivity|exact (sevens 196)|exact (draw_sevens 196)|].
  destruct (D 0%nat sample_output eq_refl) as (m & _ & Dm). exists rv, masks, cs, m.
  exact (conj E (conj V1 (conj V2 Dm))).
Defined.

Lemma full_transaction_verifies_witness : exists rv masks c m,
  @genRct example_hash true key_5 [sample_secret] [G] [3; 2] [[sample_member]; [sample_member]] [key_7] None false 0
    (replicate 196 key_7) = ret (rv, masks, c, [])
  /\ @verRct example_hash rv true = Some true /\ @verRct example_hash rv false = Some true
  /\ @decodeRct example_hash rv key_7 0 = ret (3, Some m).
Proof.
  destruct (@full_transaction_verifies example_hash true key_5 [[sample_member]; [sample_member]] [(5, sample_secret)]
    [sample_member] [sample_output] 2 0 (replicate 196 key_7) []) as (rv & masks & c & E & V1 & V2 & D);
    [cbn [length]; lia|cbn [length]; lia| |reflexivity| |exact sample_outputs|by_eval|reflexivity|exact (sevens 196)
    |exact (draw_sevens 196)|].
  - do 2 (apply Forall_cons_2; [split; [apply Forall_singleton, sample_ring_key|reflexivity]|]). apply Forall_nil_2.
  - apply Forall2_cons_2; [split; [by_eval|exact sample_secret_of]|apply Forall2_nil_2].
  - destruct (D 0%nat sample_output eq_refl) as (m & _ & Dm). exists rv, masks, c, m.
    exact (conj E (conj V1 (conj V2 Dm))).
Defined.

(** The sums of the sample transaction. *)
Lemma accepted_sums_witness : exists rv ps os,
  @verRctSemanticsSimple example_hash no_verify [rv] = Some true
  /\ Forall2 opens [5] ps /\ Forall2 opens [3] os
  /\ pt_eq (zmul (3 + 2 - 5) H_point) (zmul (masks_sum ps - masks_sum os) B).
Proof.
  destruct (draw_add 192 4 _ _ (sevens 196) (draw_sevens 196)) as (rng1 & D1 & Hr1 & D2).
  destruct (@genRctSimple_ok example_hash true no_prove no_verify key_5 [] sample_input [sample_output] 2
    (replicate 196 key_7) rng1 rng1 [] sample_spendable sample_outputs (sevens 196) D1 eq_refl D2)
    as (os & ps & ecdh & mgs & h & _ & FO & FP & EM & EE & LM & EH & EI).
  destruct (outputs_decoded (simple_rct key_5 [sample_input] [sample_output] 2 ecdh os ps (map fst mgs))
    [sample_output] os sample_outputs FO EE eq_refl) as [LE _].
  destruct (@simple_accepted example_hash no_verify key_5 [sample_input] [sample_output] 2 ecdh os ps (map fst mgs) h
    FO FP ltac:(by_eval) eq_refl EM LE ltac:(by rewrite length_map) EH EI) as [V _].
  pose proof (Forall2_length _ _ _ FO) as Lo. assert (amount_ok 2) as F2 by by_eval.
  exists (simple_rct key_5 [sample_input] [sample_output] 2 ecdh os ps (map fst mgs)), ps, (map mask_pair os).
  split; [exact V|]. split; [exact FP|]. split; [exact (proved_opens _ _ FO)|].
  apply (@accepted_sums example_hash no_verify _ [5] [3] ps (map mask_pair os) V F2 FP eq_refl (proved_opens _ _ FO)).
  rewrite mask_pair_commitments. apply set_dest_masks. rewrite (length_map _ os). exact Lo.
Defined.

End RctSigs.
