(* ===== verification/Account.v ===== *)
(** * Accounts, subaddresses and received outputs

    The account of src/cryptonote_basic/account.cpp, the subaddresses and the
    payment ids of the software device (src/device/device_default.cpp), and the
    functions of src/cryptonote_basic/cryptonote_format_utils.cpp that find the
    outputs of a transaction that belong to an account and the secret keys and
    key images that spend them.  The theorems say that what a sender derives from
    an address and a transaction key is what the owner of the address finds, for
    the main address and for every subaddress. *)

From stdpp Require Import gmap.
From S2P Require Import Prelude Result Keccak Varint Serialization Transaction TxExtra Limbs Primality Scalar Fe Ge Curve Points HashPoint BaseData Recode ScalarMult BaseTable Order Multiples Crypto RingSig RctOps.
Import Keccak Varint Limbs Scalar Fe Ge Curve Points BaseData ScalarMult BaseTable Order Multiples Crypto RingSig RctOps Result.

Module Account.

(** ** Data *)

Record account_public_address := Addr { m_spend_public_key : bytes; m_view_public_key : bytes }.

#[global] Instance account_public_address_eq_dec : EqDecision account_public_address.
Proof. solve_decision. Defined.

Record subaddress_index := Sub { major : Z; minor : Z }.

#[global] Instance subaddress_index_eq_dec : EqDecision subaddress_index.
Proof. solve_decision. Defined.

Definition is_zero (index : subaddress_index) : bool := (major index =? 0) && (minor index =? 0).

Record account_keys := Keys {
  m_account_address : account_public_address;
  m_spend_secret_key : bytes;
  m_view_secret_key : bytes;
  m_multisig_keys : list bytes;
  m_short_seed : bytes
}.

Record keypair := Pair { pub : bytes; sec : bytes }.

Definition null_skey : bytes := replicate 32 0.

(** std::unordered_map<crypto::public_key, subaddress_index>. *)
Abbreviation subaddress_map := (gmap bytes subaddress_index).

(** ** Options of an account *)

Definition ACC_OPT_UNKNOWN : Z := 0.
Definition ACC_OPT_KURZ_ADDRESS : Z := 1.
Definition ACC_OPT_LONG_ADDRESS : Z := 2.
Definition BC_HEIGHT_PERIOD : Z := 100000.
Definition BC_HEIGHT_ZERO_V : Z := 300000.

Definition get_keying_type (acc_opt_val : Z) : Z :=
  if acc_opt_val =? 0 then ACC_OPT_UNKNOWN
  else if Z.land acc_opt_val 3 =? 1 then ACC_OPT_KURZ_ADDRESS
  else if Z.land acc_opt_val 3 =? 2 then ACC_OPT_LONG_ADDRESS
  else ACC_OPT_UNKNOWN.

Definition set_keying_type (type acc_opt_val : Z) : Z :=
  let acc_opt_val := Z.land acc_opt_val 0xfc in
  if type =? ACC_OPT_KURZ_ADDRESS then Z.lor acc_opt_val 1
  else if type =? ACC_OPT_LONG_ADDRESS then Z.lor acc_opt_val 2
  else acc_opt_val.

Definition set_seed_restore_height (bc_height acc_opt_val : Z) : Z :=
  if bc_height <=? BC_HEIGHT_ZERO_V then acc_opt_val
  else
    let bc_height := u64 (bc_height - BC_HEIGHT_ZERO_V) in
    let bc_height := bc_height / BC_HEIGHT_PERIOD in
    let bc_height := Z.min bc_height 15 in
    u8 (Z.lor acc_opt_val (u64 (bc_height ≪ 4))).

Definition get_seed_restore_height (acc_opt_val : Z) : Z :=
  let height := acc_opt_val ≫ 4 in
  if height =? 0 then 0 else u64 (height * BC_HEIGHT_PERIOD + BC_HEIGHT_ZERO_V).

(** The constructor with a height. *)
Definition acc_options (keying_type bc_height : Z) : Z :=
  set_seed_restore_height bc_height (set_keying_type keying_type 0).

Record account_base := Acc { m_keys : account_keys; m_creation_timestamp : Z; m_options : Z }.

Definition KEY_VARIANT_KURZ : Z := 0.
Definition KEY_VARIANT_VIEWKEY : Z := 1.
Definition KEY_VARIANT_SPENDKEY : Z := 2.
Definition EARLIEST_TIMESTAMP : Z := 1483228800.

Section functions.

Context `{HF : !FastHash} (debug : bool).

(** ** The account *)

Definition generate (acc : account_base) : result account_base :=
  let k := m_keys acc in
  if get_keying_type (m_options acc) =? ACC_OPT_KURZ_ADDRESS then
    let* (p, s) := lift (generate_wallet_keys (m_short_seed k) KEY_VARIANT_KURZ) in
    ret (Acc (Keys (Addr p p) s s (m_multisig_keys k) (m_short_seed k)) (m_creation_timestamp acc) (m_options acc))
  else
    let* (p, s) := lift (generate_wallet_keys (m_short_seed k) KEY_VARIANT_SPENDKEY) in
    let* (p', s') := lift (generate_wallet_keys (m_short_seed k) KEY_VARIANT_VIEWKEY) in
    ret (Acc (Keys (Addr p p') s s' (m_multisig_keys k) (m_short_seed k)) (m_creation_timestamp acc) (m_options acc)).

Definition with_seed (acc : account_base) (seed : bytes) (time acc_opt : Z) : account_base :=
  let k := m_keys acc in
  Acc (Keys (m_account_address k) (m_spend_secret_key k) (m_view_secret_key k) (m_multisig_keys k) seed) time acc_opt.

Definition generate_new (acc : account_base) (acc_opt time : Z) (rng : randomness)
    : result (account_base * randomness) :=
  let* (seed, rng) := lift (generate_wallet_secret rng) in
  let* acc := generate (with_seed acc seed time acc_opt) in
  ret (acc, rng).

Definition recover (acc : account_base) (recovery_seed : bytes) (acc_opt : Z) : result account_base :=
  generate (with_seed acc recovery_seed EARLIEST_TIMESTAMP acc_opt).

Definition recover_legacy (acc : account_base) (recovery_seed : bytes) : result account_base :=
  let k := m_keys acc in
  let* (p, s, _, _) := lift (generate_legacy_keys recovery_seed true []) in
  let* second := lift (keccak s 32) in
  let* (p', s', _, _) := lift (generate_legacy_keys second true []) in
  ret (Acc (Keys (Addr p p') s s' (m_multisig_keys k) (m_short_seed k)) EARLIEST_TIMESTAMP (m_options acc)).

Definition has_25word_seed (acc : account_base) : result bool :=
  let* second := lift (keccak (m_spend_secret_key (m_keys acc)) 32) in
  let* second := lift (sc_reduce32 second) in
  ret (bool_decide (second = m_view_secret_key (m_keys acc))).

Definition has_14word_seed (acc : account_base) : result bool :=
  let k := m_keys acc in
  if get_keying_type (m_options acc) =? ACC_OPT_UNKNOWN then ret false
  else if get_keying_type (m_options acc) =? ACC_OPT_KURZ_ADDRESS then
    let* (_, spend) := lift (generate_wallet_keys (m_short_seed k) KEY_VARIANT_KURZ) in
    ret (bool_decide (spend = m_spend_secret_key k))
  else
    let* (_, spend) := lift (generate_wallet_keys (m_short_seed k) KEY_VARIANT_SPENDKEY) in
    let* (_, view) := lift (generate_wallet_keys (m_short_seed k) KEY_VARIANT_VIEWKEY) in
    ret (bool_decide (spend = m_spend_secret_key k) && bool_decide (view = m_view_secret_key k)).

Definition create_from_keys (acc : account_base) (address : account_public_address) (spendkey viewkey : bytes)
    : account_base :=
  let k := m_keys acc in
  Acc (Keys address spendkey viewkey (m_multisig_keys k) (m_short_seed k)) EARLIEST_TIMESTAMP (m_options acc).

Definition create_from_viewkey (acc : account_base) (address : account_public_address) (viewkey : bytes)
    : account_base := create_from_keys acc address null_skey viewkey.

Definition forget_spend_key (acc : account_base) : account_base :=
  let k := m_keys acc in
  Acc (Keys (m_account_address k) null_skey (m_view_secret_key k) [] (m_short_seed k))
    (m_creation_timestamp acc) (m_options acc).

(** The result, and the account with its view key unchanged if it is false. *)
Definition make_multisig (acc : account_base) (view_secret_key spend_secret_key spend_public_key : bytes)
    (multisig_keys : list bytes) : result (bool * account_base) :=
  let k := m_keys acc in
  let mk view := Acc (Keys (Addr spend_public_key view) spend_secret_key view_secret_key multisig_keys (m_short_seed k))
                   EARLIEST_TIMESTAMP (m_options acc) in
  let* r := lift (secret_key_to_public_key view_secret_key) in
  match r with
  | Some view => ret (true, mk view)
  | None => ret (false, mk (m_view_public_key (m_account_address k)))
  end.

Definition finalize_multisig (acc : account_base) (spend_public_key : bytes) : account_base :=
  let k := m_keys acc in
  Acc (Keys (Addr spend_public_key (m_view_public_key (m_account_address k))) (m_spend_secret_key k)
         (m_view_secret_key k) (m_multisig_keys k) (m_short_seed k))
    (m_creation_timestamp acc) (m_options acc).

(** ** Subaddresses *)

(** The prefix is copied with its terminating zero. *)
Definition get_subaddress_secret_key (a : bytes) (index : subaddress_index) : result bytes :=
  let data := bytes_of_string "SubAddr" ++ [0] ++ a
              ++ le_digits 256 4 (major index) ++ le_digits 256 4 (minor index) in
  lift (hash_to_scalar data).

(** Reading a key that the failed call did not write is undefined. *)
Definition get_subaddress_spend_public_key (keys : account_keys) (index : subaddress_index) : result bytes :=
  if is_zero index then ret (m_spend_public_key (m_account_address keys)) else
  let* m := get_subaddress_secret_key (m_view_secret_key keys) index in
  let* r := lift (secret_key_to_public_key m) in
  let* M := lift r in
  addKeys (m_spend_public_key (m_account_address keys)) M.

Fixpoint spend_public_keys_loop (keys : account_keys) (account : Z) (cached : ge_cached) (n : nat) (idx : Z)
    : result (list bytes) :=
  match n with
  | 0%nat => ret []
  | S n =>
      let index := Sub account idx in
      let* D := (if is_zero index then ret (m_spend_public_key (m_account_address keys)) else
                 let* m := get_subaddress_secret_key (m_view_secret_key keys) index in
                 let* p3 := lift (ge_scalarmult_base ge_base m) in
                 let* p1p1 := lift (ge_add p3 cached) in
                 let* p3 := lift (ge_p1p1_to_p3 p1p1) in
                 lift (ge_p3_tobytes p3)) in
      let* l := spend_public_keys_loop keys account cached n (idx + 1) in
      ret (D :: l)
  end.

Definition get_subaddress_spend_public_keys (keys : account_keys) (account begin_ end_ : Z) : result (list bytes) :=
  let* _ := ensure (begin_ <=? end_) in
  let* p3 := decode (m_spend_public_key (m_account_address keys)) in
  let* cached := lift (ge_p3_to_cached p3) in
  spend_public_keys_loop keys account cached (Z.to_nat (end_ - begin_)) begin_.

Definition get_subaddress (keys : account_keys) (index : subaddress_index) : result account_public_address :=
  if is_zero index then ret (m_account_address keys) else
  let* D := get_subaddress_spend_public_key keys index in
  let* C := scalarmultKey D (m_view_secret_key keys) in
  ret (Addr D C).

Definition verify_keys (secret_key public_key : bytes) : result bool :=
  let* r := lift (secret_key_to_public_key secret_key) in
  match r with Some calculated => ret (bool_decide (public_key = calculated)) | None => ret false end.

(** ** Payment ids *)

Definition ENCRYPTED_PAYMENT_ID_TAIL : Z := 0x8d.
Definition UNI_PAYMENT_ID_TAIL : Z := 0x55.

Definition xor_bytes : bytes -> bytes -> bytes := zip_with Z.lxor.

(** [None]: the function returns false. *)
Definition encrypt_payment_id_8 (payment_id public_key secret_key : bytes) : result (option bytes) :=
  let* r := lift (generate_key_derivation debug public_key secret_key) in
  match r with
  | None => ret None
  | Some derivation =>
      let hash := fast_hash (derivation ++ [ENCRYPTED_PAYMENT_ID_TAIL]) in
      ret (Some (xor_bytes payment_id (take 8 hash)))
  end.

(** The 40 bytes of the packed struct, and the struct they are. *)
Definition pid_bytes (p : TxExtra.uniform_payment_id) : bytes :=
  le_digits 256 8 (TxExtra.zero p) ++ TxExtra.payment_id p.

Definition pid_of (b : bytes) : TxExtra.uniform_payment_id :=
  {| TxExtra.zero := le_val 256 (take 8 b); TxExtra.payment_id := drop 8 b |}.

Definition encrypt_payment_id (payment_id : TxExtra.uniform_payment_id) (public_key secret_key : bytes)
    : result (option TxExtra.uniform_payment_id) :=
  let* r := lift (generate_key_derivation debug public_key secret_key) in
  match r with
  | None => ret None
  | Some derivation =>
      let* hash := lift (keccak (derivation ++ [UNI_PAYMENT_ID_TAIL]) 200) in
      ret (Some (pid_of (xor_bytes (pid_bytes payment_id) (take 40 hash))))
  end.

(** ** Finding outputs *)

Definition add_public_key (A B : bytes) : result bytes :=
  let* B2 := decode B in
  let* A2 := decode A in
  let* tmp2 := lift (ge_p3_to_cached B2) in
  let* tmp3 := lift (ge_add A2 tmp2) in
  let* A2 := lift (ge_p1p1_to_p3 tmp3) in
  lift (ge_p3_tobytes A2).

(** The public key derived for an output; [None] if a step returns false. *)
Definition derived_output (acc : account_keys) (tx_pub_key : bytes) (output_index : Z) : result (option bytes) :=
  let* r := lift (generate_key_derivation debug tx_pub_key (m_view_secret_key acc)) in
  match r with
  | None => ret None
  | Some derivation =>
      lift (derive_public_key debug derivation output_index (m_spend_public_key (m_account_address acc)))
  end.

Definition is_out_to_acc (acc : account_keys) (out_key tx_pub_key : bytes) (additional_tx_pub_keys : list bytes)
    (output_index : Z) : result bool :=
  let* r := derived_output acc tx_pub_key output_index in
  match r with
  | None => ret false
  | Some pk =>
      if bool_decide (pk = out_key) then ret true else
      match additional_tx_pub_keys with
      | [] => ret false
      | _ =>
          match additional_tx_pub_keys !! Z.to_nat output_index with
          | None => ret false
          | Some key =>
              let* r := derived_output acc key output_index in
              match r with None => ret false | Some pk => ret (bool_decide (pk = out_key)) end
          end
      end
  end.

(** The result of derive_subaddress_public_key is ignored: a key that it did not
    write is looked up, which is undefined. *)
Definition find_subaddress (subaddresses : subaddress_map) (out_key derivation : bytes) (output_index : Z)
    : result (option (subaddress_index * bytes)) :=
  let* r := lift (derive_subaddress_public_key debug out_key derivation output_index) in
  let* subaddress_spendkey := lift r in
  match subaddresses !! subaddress_spendkey with
  | Some index => ret (Some (index, derivation))
  | None => ret None
  end.

Definition is_out_to_acc_precomp (subaddresses : subaddress_map) (out_key derivation : bytes)
    (additional_derivations : list bytes) (output_index : Z) : result (option (subaddress_index * bytes)) :=
  let* found := find_subaddress subaddresses out_key derivation output_index in
  match found with
  | Some info => ret (Some info)
  | None =>
      match additional_derivations with
      | [] => ret None
      | _ =>
          match additional_derivations !! Z.to_nat output_index with
          | None => ret None
          | Some derivation => find_subaddress subaddresses out_key derivation output_index
          end
      end
  end.

(** The loop of lookup_acc_outs from output [i] on: the indices found are
    appended to [outs]; [None] is false. *)
Fixpoint lookup_loop (acc : account_keys) (tx_pub_key : bytes) (additional_tx_pub_keys : list bytes)
    (vout : list Transaction.tx_out) (i : nat) (outs : list nat) (money_transfered : Z)
    : result (option (list nat * Z)) :=
  match vout with
  | [] => ret (Some (outs, money_transfered))
  | o :: vout =>
      match Transaction.target o with
      | Transaction.txout_to_key key =>
          let* mine := is_out_to_acc acc key tx_pub_key additional_tx_pub_keys (Z.of_nat i) in
          if mine : bool then
            lookup_loop acc tx_pub_key additional_tx_pub_keys vout (S i) (outs ++ [i])
              (u64 (money_transfered + Transaction.amount o))
          else lookup_loop acc tx_pub_key additional_tx_pub_keys vout (S i) outs money_transfered
      | _ => ret None
      end
  end.

Definition lookup_acc_outs_with (acc : account_keys) (tx : Transaction.transaction_prefix) (tx_pub_key : bytes)
    (additional_tx_pub_keys : list bytes) (outs : list nat) : result (option (list nat * Z)) :=
  if Nat.eqb (length additional_tx_pub_keys) 0
     || Nat.eqb (length additional_tx_pub_keys) (length (Transaction.vout tx))
  then lookup_loop acc tx_pub_key additional_tx_pub_keys (Transaction.vout tx) 0 outs 0
  else ret None.

Definition lookup_acc_outs (acc : account_keys) (tx : Transaction.transaction_prefix) (outs : list nat)
    : result (option (list nat * Z)) :=
  let tx_pub_key := TxExtra.get_tx_pub_key_from_extra (Transaction.extra tx) 0 in
  if bool_decide (TxExtra.null_pkey = tx_pub_key) then ret None else
  lookup_acc_outs_with acc tx tx_pub_key (TxExtra.get_additional_tx_pub_keys_from_extra (Transaction.extra tx)) outs.

(** ** Spending outputs *)

(** The keys of the output and its image; [None] is false. *)
Definition generate_key_image_helper_precomp (ack : account_keys) (out_key recv_derivation : bytes)
    (real_output_index : Z) (received_index : subaddress_index) : result (option (keypair * bytes)) :=
  let image (p : keypair) : result (option (keypair * bytes)) :=
    let* ki := lift (generate_key_image debug (pub p) (sec p)) in ret (Some (p, ki)) in
  if bool_decide (m_spend_secret_key ack = null_skey) then image (Pair out_key null_skey) else
  let* scalar_step1 := lift (derive_secret_key debug recv_derivation real_output_index (m_spend_secret_key ack)) in
  let* (subaddr_sk, scalar_step2) :=
    (if is_zero received_index then ret ([], scalar_step1) else
     let* subaddr_sk := get_subaddress_secret_key (m_view_secret_key ack) received_index in
     let* s := lift (sc_add scalar_step1 subaddr_sk) in
     ret (subaddr_sk, s)) in
  let* r :=
    match m_multisig_keys ack with
    | [] => lift (secret_key_to_public_key scalar_step2)
    | _ =>
        let* r := lift (derive_public_key debug recv_derivation real_output_index
                          (m_spend_public_key (m_account_address ack))) in
        match r with
        | None => ret None
        | Some p =>
            if is_zero received_index then ret (Some p) else
            let* r := lift (secret_key_to_public_key subaddr_sk) in
            match r with
            | None => ret None
            | Some subaddr_pk => let* p := add_public_key p subaddr_pk in ret (Some p)
            end
        end
    end in
  match r with
  | None => ret None
  | Some p => if bool_decide (p = out_key) then image (Pair p scalar_step2) else ret None
  end.

(** The derivations of the additional keys; [None] if one is false. *)
Fixpoint all_derivations (view_secret_key : bytes) (keys : list bytes) : result (option (list bytes)) :=
  match keys with
  | [] => ret (Some [])
  | key :: keys =>
      let* r := lift (generate_key_derivation debug key view_secret_key) in
      match r with
      | None => ret None
      | Some d =>
          let* l := all_derivations view_secret_key keys in
          match l with None => ret None | Some l => ret (Some (d :: l)) end
      end
  end.

Definition generate_key_image_helper (ack : account_keys) (subaddresses : subaddress_map)
    (out_key tx_public_key : bytes) (additional_tx_public_keys : list bytes) (real_output_index : Z)
    : result (option (keypair * bytes)) :=
  let* r := lift (generate_key_derivation debug tx_public_key (m_view_secret_key ack)) in
  match r with
  | None => ret None
  | Some recv_derivation =>
      let* r := all_derivations (m_view_secret_key ack) additional_tx_public_keys in
      match r with
      | None => ret None
      | Some additional_recv_derivations =>
          let* info := is_out_to_acc_precomp subaddresses out_key recv_derivation additional_recv_derivations
                         real_output_index in
          match info with
          | None => ret None
          | Some (index, derivation) =>
              generate_key_image_helper_precomp ack out_key derivation real_output_index index
          end
      end
  end.

End functions.


(** ** Keys that belong together *)

Definition consistent (k : account_keys) : Prop :=
  valid (m_spend_secret_key k) /\ valid (m_view_secret_key k)
  /\ secret_key_to_public_key (m_spend_secret_key k) = Some (Some (m_spend_public_key (m_account_address k)))
  /\ secret_key_to_public_key (m_view_secret_key k) = Some (Some (m_view_public_key (m_account_address k))).

(** The proofs use the operations below by their specifications only. *)
#[local] Opaque ge_base ge_scalarmult_base ge_scalarmult ge_frombytes_vartime ge_p3_tobytes ge_tobytes
  ge_mul8 ge_add ge_sub ge_p1p1_to_p2 ge_p1p1_to_p3 ge_p3_to_cached sc_add sc_reduce32 sc_check encode residue zmul keccak.

Section subaddresses.

Context `{HF : !FastHash} (debug : bool).

(** The number added to the spend key for a subaddress. *)
Definition sub_number (a : bytes) (index : subaddress_index) : Z :=
  if is_zero index then 0 else
  num (fast_hash (bytes_of_string "SubAddr" ++ [0] ++ a
         ++ le_digits 256 4 (major index) ++ le_digits 256 4 (minor index))).

(** The spend key of a subaddress, and the point whose multiples are its view
    key and the keys of the transactions to it. *)
Definition spend_point_of (k : account_keys) (index : subaddress_index) : point :=
  zmul (num (m_spend_secret_key k) + sub_number (m_view_secret_key k) index) B.

Definition base_of (k : account_keys) (index : subaddress_index) : point :=
  if is_zero index then B else spend_point_of k index.

Definition view_point_of (k : account_keys) (index : subaddress_index) : point :=
  zmul (num (m_view_secret_key k)) (base_of k index).

Lemma spend_point_curve k index : on_curve (spend_point_of k index).
Proof. apply zmul_curve, B_curve. Qed.

Lemma base_curve k index : on_curve (base_of k index).
Proof. unfold base_of. destruct (is_zero index); [apply B_curve|apply spend_point_curve]. Qed.

Lemma view_point_curve k index : on_curve (view_point_of k index).
Proof. apply zmul_curve, base_curve. Qed.

Lemma consistent_spend k :
  consistent k -> m_spend_public_key (m_account_address k) = encode (zmul (num (m_spend_secret_key k)) B).
Proof. intros (V & _ & E & _). rewrite public_key_ok in E by exact V. congruence. Qed.

Lemma consistent_view k :
  consistent k -> m_view_public_key (m_account_address k) = encode (zmul (num (m_view_secret_key k)) B).
Proof. intros (_ & V & _ & E). rewrite public_key_ok in E by exact V. congruence. Qed.

Lemma get_subaddress_secret_key_ok a index :
  is_zero index = false -> get_subaddress_secret_key a index = ret (residue (sub_number a index)).
Proof. intros Z. unfold get_subaddress_secret_key, sub_number. rewrite Z, hash_to_scalar_ok. apply lift_some. Qed.

Lemma residue_multiple x : pt_eq (zmul (num (residue x)) B) (zmul x B).
Proof. apply zmul_B_mod. rewrite num_residue. apply Zmod_mod. Qed.

Lemma spend_point_split k index :
  pt_eq (pt_add (zmul (num (m_spend_secret_key k)) B) (zmul (num (residue (sub_number (m_view_secret_key k) index))) B))
        (spend_point_of k index).
Proof. rewrite residue_multiple, <- zmul_add by exact B_curve. reflexivity. Qed.

Lemma spend_key_zero k index :
  is_zero index = true -> spend_point_of k index = zmul (num (m_spend_secret_key k)) B.
Proof. intros Z. unfold spend_point_of, sub_number. by rewrite Z, Z.add_0_r. Qed.

Lemma spend_public_key_ok k index :
  consistent k -> get_subaddress_spend_public_key k index = ret (encode (spend_point_of k index)).
Proof.
  intros C. unfold get_subaddress_spend_public_key. rewrite (consistent_spend k C). destruct (is_zero index) eqn:Z.
  - by rewrite spend_key_zero.
  - rewrite get_subaddress_secret_key_ok by exact Z. rgo. rewrite public_key_ok by apply residue_valid. rgo. rgo.
    rewrite addKeys_ok by (apply zmul_curve, B_curve). apply ret_encode, spend_point_split.
Qed.

Lemma get_subaddress_ok k index :
  consistent k ->
  get_subaddress k index = ret (Addr (encode (spend_point_of k index)) (encode (view_point_of k index))).
Proof.
  intros C. unfold get_subaddress, view_point_of, base_of. destruct (is_zero index) eqn:Z.
  - rewrite spend_key_zero by exact Z. rewrite <- (consistent_spend k C), <- (consistent_view k C).
    by destruct (m_account_address k).
  - rewrite spend_public_key_ok by exact C. rgo.
    rewrite scalarmultKey_ok by (apply spend_point_curve || apply valid_small, C). by rgo.
Qed.

Lemma spend_public_keys_loop_ok k account cached n : forall idx,
  consistent k -> rep_cached (zmul (num (m_spend_secret_key k)) B) cached ->
  exists l, spend_public_keys_loop k account cached n idx = ret l
    /\ l = map (fun j => encode (spend_point_of k (Sub account j))) (seqZ idx (Z.of_nat n)).
Proof.
  induction n as [|n IH]; intros idx C R; [by exists []|]. cbn [spend_public_keys_loop].
  destruct (IH (idx + 1) C R) as (l & El & Hl). eexists. split.
  2: { rewrite Nat2Z.inj_succ, seqZ_cons, Z.pred_succ by lia. cbn [map]. rewrite <- Z.add_1_r, <- Hl. reflexivity. }
  destruct (is_zero (Sub account idx)) eqn:Z.
  - rgo. rewrite El. rgo. by rewrite (consistent_spend k C), spend_key_zero.
  - rewrite get_subaddress_secret_key_ok by exact Z. rgo.
    destruct (multiply_base _ (valid_small _ (residue_valid (sub_number (m_view_secret_key k) (Sub account idx)))))
      as (g & -> & Rg). rgo.
    destruct (ge_add_rep _ _ _ g cached Rg R (is_sum_add _ _ (zmul_curve _ _ B_curve) (zmul_curve _ _ B_curve)))
      as (r & -> & Rr). rgo.
    destruct (ge_p1p1_to_p3_rep _ r Rr) as (s & -> & Rs). rgo. rewrite (ge_p3_tobytes_ok _ s Rs). rgo. rewrite El. rgo.
    do 2 f_equal. apply encode_proper. rewrite pt_add_comm. apply spend_point_split.
Qed.

(** ** Sending and receiving *)

(** The key of a transaction to an address. *)
Definition tx_public_key (addr : account_public_address) (is_subaddress : bool) (tx_key : bytes) : result bytes :=
  if is_subaddress then scalarmultKey (m_spend_public_key addr) tx_key else scalarmultBase tx_key.

Definition shared_point (k : account_keys) (index : subaddress_index) (r : bytes) : point :=
  zmul 8 (zmul (num r) (view_point_of k index)).

Lemma shared_curve k index r : on_curve (shared_point k index r).
Proof. apply zmul_curve, zmul_curve, view_point_curve. Qed.

Lemma tx_public_key_ok k index r :
  valid r ->
  tx_public_key (Addr (encode (spend_point_of k index)) (encode (view_point_of k index))) (negb (is_zero index)) r
  = ret (encode (zmul (num r) (base_of k index))).
Proof.
  intros Hr. unfold tx_public_key, base_of. cbn [m_spend_public_key]. destruct (is_zero index); cbn [negb].
  - apply scalarmultBase_ok, Hr.
  - apply scalarmultKey_ok; [apply spend_point_curve|by apply valid_small].
Qed.

Lemma sender_derivation k index r :
  valid r ->
  generate_key_derivation debug (encode (view_point_of k index)) r = Some (Some (encode (shared_point k index r))).
Proof. intros Hr. apply derivation_ok; [apply view_point_curve|exact Hr]. Qed.

Lemma receiver_derivation k index r :
  valid (m_view_secret_key k) ->
  generate_key_derivation debug (encode (zmul (num r) (base_of k index))) (m_view_secret_key k)
  = Some (Some (encode (shared_point k index r))).
Proof.
  intros Ha. rewrite derivation_ok by (apply zmul_curve, base_curve || exact Ha). apply some_encode.
  unfold shared_point, view_point_of. rewrite <- (zmul_mul (num (m_view_secret_key k))), <- (zmul_mul (num r)) by apply base_curve.
  by rewrite Z.mul_comm.
Qed.

(** The key of output [i] and the number of its secret key. *)
Definition output_point (k : account_keys) (index : subaddress_index) (derivation : bytes) (i : Z) : point :=
  pt_add (spend_point_of k index) (zmul (output_scalar derivation i) B).

Definition output_secret (k : account_keys) (index : subaddress_index) (derivation : bytes) (i : Z) : bytes :=
  residue (num (m_spend_secret_key k) + sub_number (m_view_secret_key k) index + output_scalar derivation i).

Lemma output_point_curve k index d i : on_curve (output_point k index d i).
Proof. apply pt_add_curve; [apply spend_point_curve|apply zmul_curve, B_curve]. Qed.

Lemma output_secret_ok k index d i :
  secret_key_to_public_key (output_secret k index d i) = Some (Some (encode (output_point k index d i))).
Proof.
  rewrite public_key_ok by apply residue_valid. apply some_encode. unfold output_secret. rewrite residue_multiple.
  apply zmul_add, B_curve.
Qed.

Lemma sender_output k index d i :
  0 <= i < 2 ^ 64 ->
  derive_public_key debug d i (encode (spend_point_of k index)) = Some (Some (encode (output_point k index d i))).
Proof. intros Hi. exact (derive_public_key_ok debug d i (spend_point_of k index) Hi (spend_point_curve k index)). Qed.

Lemma find_subaddress_ok k index subs d i :
  0 <= i < 2 ^ 64 -> subs !! encode (spend_point_of k index) = Some index ->
  find_subaddress debug subs (encode (output_point k index d i)) d i = ret (Some (index, d)).
Proof.
  intros Hi L. unfold find_subaddress. rewrite derive_subaddress_ok by (exact Hi || apply output_point_curve). rgo. rgo.
  replace (encode _) with (encode (spend_point_of k index)); [by rewrite L|].
  apply encode_proper. unfold output_point.
  rewrite pt_add_assoc, pt_add_neg by (apply spend_point_curve || apply zmul_curve, B_curve || apply pt_neg_curve, zmul_curve, B_curve).
  symmetry. rewrite pt_add_comm. apply pt_add_O, spend_point_curve.
Qed.

End subaddresses.


(** ** Spending what was received *)

Section spending.

Context `{HF : !FastHash} (debug : bool).

(** The keys and the image of an output. *)
Definition spends (out_key : bytes) (p : keypair) (ki : bytes) : Prop :=
  pub p = out_key /\ valid (sec p) /\ secret_key_to_public_key (sec p) = Some (Some out_key)
  /\ generate_key_image debug out_key (sec p) = Some ki.

Lemma residue_proper x y : eqm ell x y -> residue x = residue y.
Proof. intros E. apply valid_inj; [apply residue_valid..|]. by rewrite !num_residue. Qed.

Lemma output_secret_sum k index d i :
  residue (num (residue (num (m_spend_secret_key k) + num (residue (output_scalar d i))))
           + num (residue (sub_number (m_view_secret_key k) index)))
  = output_secret k index d i.
Proof.
  unfold output_secret. apply residue_proper. unfold eqm. rewrite !num_residue.
  rewrite Z.add_mod_idemp_l, Z.add_mod_idemp_r by done. rewrite <- Z.add_assoc, (Z.add_comm (output_scalar d i mod ell)).
  rewrite Z.add_assoc, Z.add_mod_idemp_r by done. done.
Qed.

Lemma output_secret_zero k index d i :
  is_zero index = true ->
  residue (num (m_spend_secret_key k) + num (residue (output_scalar d i))) = output_secret k index d i.
Proof.
  intros Z. unfold output_secret, sub_number. rewrite Z, Z.add_0_r. apply residue_proper. unfold eqm.
  rewrite num_residue, Z.add_mod_idemp_r by done. done.
Qed.

Lemma helper_precomp_ok k index d i :
  consistent k -> m_multisig_keys k = [] -> m_spend_secret_key k <> null_skey -> 0 <= i < 2 ^ 64 ->
  exists ki, generate_key_image_helper_precomp debug k (encode (output_point k index d i)) d i index
    = ret (Some (Pair (encode (output_point k index d i)) (output_secret k index d i), ki))
    /\ generate_key_image debug (encode (output_point k index d i)) (output_secret k index d i) = Some ki.
Proof.
  intros C M N Hi. destruct (hash_to_ec_ok (encode (output_point k index d i))) as (Q & HQ).
  pose proof (generate_key_image_ok debug _ (output_secret k index d i) Q (residue_valid _) HQ) as EI.
  eexists. split; [|exact EI].
  unfold generate_key_image_helper_precomp. rewrite bool_decide_eq_false_2 by exact N.
  rewrite derive_secret_key_ok by (exact Hi || apply C). rgo.
  match goal with |- context [rbind ?f ?e] => assert (exists x, e = ret (x, output_secret k index d i)) as [x ->] end.
  { destruct (is_zero index) eqn:Z; [eexists; by rewrite (output_secret_zero k index d i Z)|].
    rewrite get_subaddress_secret_key_ok by exact Z. rgo. rewrite sc_add_ok by apply residue_scalar. rgo.
    eexists. by rewrite (output_secret_sum k index d i). }
  rgo. rewrite M, output_secret_ok. rgo. rewrite bool_decide_eq_true_2 by reflexivity. cbn [pub sec]. rewrite EI. by rgo.
Qed.

(** The keys of a transaction lead to the output: its main key is made for the
    address, or the additional key of the output is and the main key finds
    nothing. *)
Definition leads (k : account_keys) (subs : subaddress_map) (out_key R main : bytes) (additional : list bytes) (i : Z)
    : Prop :=
  (exists ds, all_derivations debug (m_view_secret_key k) additional = ret (Some ds))
  /\ (main = R
      \/ additional !! Z.to_nat i = Some R
         /\ exists d, generate_key_derivation debug main (m_view_secret_key k) = Some (Some d)
                      /\ find_subaddress debug subs out_key d i = ret None).

Lemma all_derivations_lookup a keys ds i key :
  all_derivations debug a keys = ret (Some ds) -> keys !! i = Some key ->
  exists d, generate_key_derivation debug key a = Some (Some d) /\ ds !! i = Some d.
Proof.
  revert ds i. induction keys as [|k0 keys IH]; intros ds i E L; [done|]. cbn [all_derivations] in E.
  destruct (generate_key_derivation debug k0 a) as [[d0|]|] eqn:E0; rewrite ?lift_some, ?rbind_ret in E; try done.
  cbv beta iota in E. destruct (all_derivations debug a keys) as [[|[l|]]|] eqn:El; try done.
  injection E as <-. destruct i as [|i]; cbn in L |- *; [injection L as <-; by exists d0|]. by apply (IH l).
Qed.

Lemma helper_ok k index subs r main additional i :
  consistent k -> m_multisig_keys k = [] -> m_spend_secret_key k <> null_skey -> valid r -> 0 <= i < 2 ^ 64 ->
  subs !! encode (spend_point_of k index) = Some index ->
  let d := encode (shared_point k index r) in let out_key := encode (output_point k index d i) in
  leads k subs out_key (encode (zmul (num r) (base_of k index))) main additional i ->
  exists p ki, generate_key_image_helper debug k subs out_key main additional i = ret (Some (p, ki))
    /\ spends out_key p ki.
Proof.
  intros C M N Hr Hi L d out_key [[ds Eds] Lead].
  destruct (helper_precomp_ok k index d i C M N Hi) as (ki & EH & EI).
  exists (Pair out_key (output_secret k index d i)), ki.
  split; [|exact (conj eq_refl (conj (residue_valid _) (conj (output_secret_ok k index d i) EI)))].
  pose proof (receiver_derivation debug k index r (proj1 (proj2 C))) as ER.
  pose proof (find_subaddress_ok debug k index subs d i Hi L) as EF.
  unfold generate_key_image_helper. destruct Lead as [->|[La (d0 & E0 & F0)]].
  - rewrite ER. rgo. rewrite Eds. rgo. unfold is_out_to_acc_precomp. fold d out_key in EF |- *. rewrite EF. rgo. exact EH.
  - destruct (all_derivations_lookup _ _ _ _ _ Eds La) as (d1 & E1 & L1).
    rewrite ER in E1. injection E1 as <-.
    rewrite E0. rgo. rewrite Eds. rgo. unfold is_out_to_acc_precomp. rewrite F0. rgo.
    destruct ds as [|d2 ds]; [done|]. rewrite L1. fold d out_key in EF |- *. rewrite EF. rgo. exact EH.
Qed.

End spending.

(** C17. What is sent to an address is found and can be spent: for every account
    with matching keys and every subaddress index (0, 0 being the main address),
    every transaction secret key and output index, the key a sender derives from
    the address is recognised by the owner, from the public key of the
    transaction and a table with the subaddress, as an output of that index, and
    generate_key_image_helper returns the secret key of the output and its key
    image. *)
Theorem output_received `{!FastHash} debug k index subs r i :
  consistent k -> m_multisig_keys k = [] -> m_spend_secret_key k <> null_skey -> valid r -> 0 <= i < 2 ^ 64 ->
  (forall D, get_subaddress_spend_public_key k index = ret D -> subs !! D = Some index) ->
  exists addr R d out_key p ki,
    get_subaddress k index = ret addr
    /\ tx_public_key addr (negb (is_zero index)) r = ret R
    /\ generate_key_derivation debug (m_view_public_key addr) r = Some (Some d)
    /\ derive_public_key debug d i (m_spend_public_key addr) = Some (Some out_key)
    /\ generate_key_derivation debug R (m_view_secret_key k) = Some (Some d)
    /\ is_out_to_acc_precomp debug subs out_key d [] i = ret (Some (index, d))
    /\ generate_key_image_helper debug k subs out_key R [] i = ret (Some (p, ki))
    /\ spends debug out_key p ki.
Proof.
  intros C M N Hr Hi L. specialize (L _ (spend_public_key_ok k index C)).
  set (d := encode (shared_point k index r)).
  destruct (helper_ok debug k index subs r (encode (zmul (num r) (base_of k index))) [] i C M N Hr Hi L)
    as (p & ki & EH & S); [split; [by exists []|by left]|].
  eexists _, _, d, (encode (output_point k index d i)), p, ki. split; [exact (get_subaddress_ok k index C)|].
  split; [exact (tx_public_key_ok k index r Hr)|]. split; [exact (sender_derivation debug k index r Hr)|].
  split; [exact (sender_output debug k index d i Hi)|].
  split; [exact (receiver_derivation debug k index r (proj1 (proj2 C)))|].
  split; [|exact (conj EH S)]. unfold is_out_to_acc_precomp.
  rewrite (find_subaddress_ok debug k index subs d i Hi L). by rgo.
Qed.


(** The range version of the subaddress keys, which decodes the spend key once,
    computes what get_subaddress_spend_public_key gives for each index of the
    range, and throws when the range is reversed. *)
Theorem subaddress_keys_agree `{!FastHash} k account begin_ end_ :
  consistent k ->
  (end_ < begin_ -> get_subaddress_spend_public_keys k account begin_ end_ = throw)
  /\ (begin_ <= end_ -> exists l, get_subaddress_spend_public_keys k account begin_ end_ = ret l
        /\ Z.of_nat (length l) = end_ - begin_
        /\ forall i D, l !! i = Some D <->
             begin_ + Z.of_nat i < end_
             /\ get_subaddress_spend_public_key k (Sub account (begin_ + Z.of_nat i)) = ret D).
Proof.
  intros C. unfold get_subaddress_spend_public_keys. split; intros O.
  - by rewrite (proj2 (Z.leb_gt _ _)).
  - rewrite (proj2 (Z.leb_le _ _)) by exact O. cbn [ensure]. rgo. rewrite (consistent_spend k C).
    destruct (decode_ok (zmul (num (m_spend_secret_key k)) B) (zmul_curve _ _ B_curve)) as (h & -> & R). rgo.
    destruct (ge_p3_to_cached_rep _ h R) as (c & -> & Rc). rgo.
    destruct (spend_public_keys_loop_ok k account c (Z.to_nat (end_ - begin_)) begin_ C Rc) as (l & -> & ->).
    rewrite Z2Nat.id by lia. eexists. split; [reflexivity|]. rewrite length_map, length_seqZ. split; [lia|].
    intros i D. rewrite list_lookup_fmap, fmap_Some. setoid_rewrite lookup_seqZ. split.
    + intros (j & [-> Hj] & ->). split; [lia|]. apply spend_public_key_ok, C.
    + intros [Hj E]. exists (begin_ + Z.of_nat i). split; [lia|].
      rewrite spend_public_key_ok in E by exact C. by apply ret_inj in E.
Qed.

(** ** Payment ids *)

Lemma xor_bytes_twice a b : (length a <= length b)%nat -> xor_bytes (xor_bytes a b) b = a.
Proof.
  revert b. induction a as [|x a IH]; intros [|y b] L; cbn in *; try lia; [done..|].
  unfold xor_bytes in *. cbn. rewrite Z.lxor_assoc, Z.lxor_nilpotent, Z.lxor_0_r, IH by lia. done.
Qed.

Lemma xor_bytes_length a b : (length a <= length b)%nat -> length (xor_bytes a b) = length a.
Proof. intros L. unfold xor_bytes. rewrite length_zip_with. lia. Qed.

Lemma xor_bytes_range a b : is_bytes a -> is_bytes b -> is_bytes (xor_bytes a b).
Proof.
  intros Ha Hb. revert b Hb. induction Ha as [|x a Hx Ha IH]; intros b Hb; [constructor|].
  destruct Hb as [|y b Hy Hb]; [constructor|]. constructor; [by apply fits_lxor|by apply IH].
Qed.

Lemma pid_of_bytes p : TxExtra.ok_pid p -> pid_of (pid_bytes p) = p.
Proof.
  intros [Hz _]. destruct p as [z id]. unfold pid_of, pid_bytes. cbn [TxExtra.zero TxExtra.payment_id] in *.
  rewrite take_app_le, take_ge by (rewrite length_le_digits; lia).
  rewrite drop_app_ge, length_le_digits by (rewrite length_le_digits; lia).
  f_equal. rewrite le_val_digits by lia. exact (wrap_small 64 z Hz).
Qed.

Lemma pid_bytes_of b : is_bytes b -> (8 <= length b)%nat -> pid_bytes (pid_of b) = b.
Proof.
  intros Hb L. unfold pid_bytes, pid_of. cbn [TxExtra.zero TxExtra.payment_id].
  assert (length (take 8 b) = 8%nat) as L8 by (rewrite length_take; lia).
  replace (le_digits 256 8 (le_val 256 (take 8 b))) with (take 8 b); [apply take_drop|].
  rewrite <- L8 at 2. symmetry. apply le_digits_val; [lia|]. by apply Forall_take.
Qed.

Lemma pid_bytes_length p : length (TxExtra.payment_id p) = 32%nat -> length (pid_bytes p) = 40%nat.
Proof. intros L. unfold pid_bytes. rewrite length_app, length_le_digits, L. done. Qed.

(** The pad of a payment id. *)
Lemma pid_pad derivation :
  exists hash, keccak (derivation ++ [UNI_PAYMENT_ID_TAIL]) 200 = Some hash
    /\ length (take 40 hash) = 40%nat /\ is_bytes (take 40 hash).
Proof.
  rewrite (keccak_eq_absorbed _ 200) by reflexivity. eexists. split; [reflexivity|].
  split; [rewrite !length_take, length_lanes_bytes, absorbed_length; lia|].
  apply Forall_take, Forall_take, is_bytes_lanes.
Qed.

(** Encrypted payment ids are read by the owner of the address: what the
    sender encrypts with the view key of an address or subaddress and the transaction
    secret key is decrypted with the transaction public key and the view secret
    key, for both kinds of payment id. *)
Theorem payment_id_roundtrip `{!FastHash} debug k index r id8 pid :
  consistent k -> valid r -> length id8 = 8%nat ->
  TxExtra.ok_pid pid -> is_bytes (TxExtra.payment_id pid) ->
  exists addr R id8' pid',
    get_subaddress k index = ret addr /\ tx_public_key addr (negb (is_zero index)) r = ret R
    /\ encrypt_payment_id_8 debug id8 (m_view_public_key addr) r = ret (Some id8')
    /\ encrypt_payment_id_8 debug id8' R (m_view_secret_key k) = ret (Some id8)
    /\ encrypt_payment_id debug pid (m_view_public_key addr) r = ret (Some pid')
    /\ encrypt_payment_id debug pid' R (m_view_secret_key k) = ret (Some pid).
Proof.
  intros C Hr L8 Hp Hb. destruct (pid_pad (encode (shared_point k index r))) as (hash & EK & LK & BK).
  rewrite get_subaddress_ok by exact C. do 4 eexists. split; [reflexivity|].
  rewrite tx_public_key_ok by exact Hr. split; [reflexivity|]. cbn [m_view_public_key].
  unfold encrypt_payment_id_8, encrypt_payment_id.
  rewrite sender_derivation by exact Hr. rewrite receiver_derivation by apply C.
  assert (is_bytes (pid_bytes pid)) as BP.
  { apply Forall_app. split; [|exact Hb]. eapply Forall_impl; [apply (le_digits_range 256); lia|done]. }
  pose proof (pid_bytes_length pid (proj2 Hp)) as LP.
  split; [by rgo|]. split.
  { rgo. rewrite xor_bytes_twice; [done|]. rewrite length_take, fast_hash_length. lia. }
  split; [rgo; rewrite EK; rgo; reflexivity|]. rgo. rewrite EK. rgo.
  rewrite pid_bytes_of, xor_bytes_twice, pid_of_bytes; [done|exact Hp|lia|by apply xor_bytes_range|].
  rewrite xor_bytes_length; lia.
Qed.


(** ** Making and recovering accounts *)

Section accounts.

Context `{HF : !FastHash}.

Lemma wallet_keys_ok seed variant :
  exists p s, generate_wallet_keys seed variant = Some (p, s)
    /\ valid s /\ secret_key_to_public_key s = Some (Some p).
Proof.
  unfold generate_wallet_keys, hash_to_scalar.
  destruct (keys_of_number _ (digest_scalar (le_digits 256 4 variant ++ seed))) as (p & E1 & E2 & E3).
  rewrite E1. go. rewrite E2. go. do 2 eexists. split_and!; [done|apply residue_valid|done].
Qed.

Lemma generate_ok acc :
  exists acc', generate acc = ret acc' /\ consistent (m_keys acc')
    /\ m_short_seed (m_keys acc') = m_short_seed (m_keys acc) /\ m_options acc' = m_options acc
    /\ m_creation_timestamp acc' = m_creation_timestamp acc
    /\ has_14word_seed acc' = ret (negb (get_keying_type (m_options acc) =? ACC_OPT_UNKNOWN)).
Proof.
  unfold generate. destruct (get_keying_type (m_options acc) =? ACC_OPT_KURZ_ADDRESS) eqn:K.
  - destruct (wallet_keys_ok (m_short_seed (m_keys acc)) KEY_VARIANT_KURZ) as (p & s & E & V & P).
    rewrite E. rgo. eexists. split; [reflexivity|]. cbn [m_keys m_short_seed m_options m_creation_timestamp].
    split_and!; try done. unfold has_14word_seed. cbn [m_keys m_short_seed m_options m_spend_secret_key m_view_secret_key]. rewrite K, E.
    destruct (get_keying_type (m_options acc) =? ACC_OPT_UNKNOWN); [done|]. rgo. by rewrite bool_decide_eq_true_2.
  - destruct (wallet_keys_ok (m_short_seed (m_keys acc)) KEY_VARIANT_SPENDKEY) as (p & s & E & V & P).
    destruct (wallet_keys_ok (m_short_seed (m_keys acc)) KEY_VARIANT_VIEWKEY) as (p' & s' & E' & V' & P').
    rewrite E. rgo. rewrite E'. rgo. eexists. split; [reflexivity|].
    cbn [m_keys m_short_seed m_options m_creation_timestamp]. split_and!; try done.
    unfold has_14word_seed. cbn [m_keys m_short_seed m_options m_spend_secret_key m_view_secret_key]. rewrite K, E, E'.
    destruct (get_keying_type (m_options acc) =? ACC_OPT_UNKNOWN); [done|]. rgo. rgo. by rewrite !bool_decide_eq_true_2.
Qed.

(** The keys of an account depend on its seed and its options only. *)
Lemma generate_same acc acc' a b :
  m_short_seed (m_keys acc) = m_short_seed (m_keys acc') -> m_options acc = m_options acc' ->
  generate acc = ret a -> generate acc' = ret b ->
  m_account_address (m_keys a) = m_account_address (m_keys b)
  /\ m_spend_secret_key (m_keys a) = m_spend_secret_key (m_keys b)
  /\ m_view_secret_key (m_keys a) = m_view_secret_key (m_keys b).
Proof.
  intros ES EO. unfold generate. rewrite <- ES, <- EO.
  destruct (wallet_keys_ok (m_short_seed (m_keys acc)) KEY_VARIANT_KURZ) as (p1 & s1 & -> & _).
  destruct (wallet_keys_ok (m_short_seed (m_keys acc)) KEY_VARIANT_SPENDKEY) as (p2 & s2 & -> & _).
  destruct (wallet_keys_ok (m_short_seed (m_keys acc)) KEY_VARIANT_VIEWKEY) as (p3 & s3 & -> & _).
  destruct (get_keying_type (m_options acc) =? ACC_OPT_KURZ_ADDRESS); rewrite !lift_some, !rbind_ret;
    intros E1 E2; apply ret_inj in E1 as <-; apply ret_inj in E2 as <-; split_and!; reflexivity.
Qed.

End accounts.

(** Accounts can be made and recovered: a new account has matching spend
    and view keys and reports a 14-word seed if its keying type is known;
    recovering its seed with the same options, on any other account, gives the
    same address and secret keys; and an account recovered from a legacy seed has
    matching keys and reports a 25-word seed. *)
Theorem account_recovered `{!FastHash} acc other acc_opt time seed rng legacy :
  scalar legacy ->
  exists a b c,
    generate_new acc acc_opt time (seed :: rng) = ret (a, rng)
    /\ consistent (m_keys a) /\ m_short_seed (m_keys a) = seed
    /\ has_14word_seed a = ret (negb (get_keying_type acc_opt =? ACC_OPT_UNKNOWN))
    /\ recover other seed acc_opt = ret b
    /\ m_account_address (m_keys b) = m_account_address (m_keys a)
    /\ m_spend_secret_key (m_keys b) = m_spend_secret_key (m_keys a)
    /\ m_view_secret_key (m_keys b) = m_view_secret_key (m_keys a)
    /\ recover_legacy acc legacy = ret c /\ consistent (m_keys c) /\ has_25word_seed c = ret true.
Proof.
  intros Hl. destruct (generate_ok (with_seed acc seed time acc_opt)) as (a & Ea & Ca & Sa & Oa & _ & Wa).
  destruct (generate_ok (with_seed other seed EARLIEST_TIMESTAMP acc_opt)) as (b & Eb & _).
  destruct (generate_same (with_seed other seed EARLIEST_TIMESTAMP acc_opt) (with_seed acc seed time acc_opt) b a
    eq_refl eq_refl Eb Ea) as (S1 & S2 & S3).
  destruct (keys_of_number legacy Hl) as (p & L1 & L2 & L3).
  assert (exists h, keccak (residue (num legacy)) 32 = Some h /\ scalar h) as (h & EK & Sh).
  { rewrite (keccak_eq_absorbed _ 32) by reflexivity. eexists. split; [reflexivity|]. split.
    - apply Forall_take, is_bytes_lanes.
    - rewrite length_take, length_lanes_bytes, absorbed_length. lia. }
  destruct (keys_of_number h Sh) as (p' & K1 & K2 & K3).
  assert (exists c, recover_legacy acc legacy = ret c /\ consistent (m_keys c) /\ has_25word_seed c = ret true) as (c & Ec).
  { unfold recover_legacy, generate_legacy_keys. rewrite !some_bind, L1. rewrite !some_bind, L2. rewrite !some_bind. rgo.
    rewrite EK. rgo. rewrite !some_bind, K1. rewrite !some_bind, K2. rewrite !some_bind. rgo.
    eexists. split; [reflexivity|]. cbn [m_keys]. split; [split_and!; [apply residue_valid..|exact L3|exact K3]|].
    unfold has_25word_seed. cbn [m_keys m_spend_secret_key m_view_secret_key]. rewrite EK. rgo. rewrite K1. rgo.
    by rewrite bool_decide_eq_true_2. }
  exists a, b, c. split; [unfold generate_new; cbn [generate_wallet_secret random_scalar_16]; rgo; rewrite Ea; by rgo|].
  exact (conj Ca (conj Sa (conj Wa (conj Eb (conj S1 (conj S2 (conj S3 Ec))))))).
Qed.

(** The options of an account keep the keying type, and the restore height
    rounded down to a step of 100000 blocks, at most 1800000 and at least the
    400000th block. *)
Theorem acc_options_spec type height :
  type = ACC_OPT_KURZ_ADDRESS \/ type = ACC_OPT_LONG_ADDRESS -> fits 64 height ->
  fits 8 (acc_options type height) /\ get_keying_type (acc_options type height) = type
  /\ get_seed_restore_height (acc_options type height)
     = if height <? 400000 then 0 else Z.min (height / 100000 * 100000) 1800000.
Proof.
  intros T [H0 H1]. unfold acc_options, set_seed_restore_height, BC_HEIGHT_ZERO_V, BC_HEIGHT_PERIOD.
  destruct (Z.leb_spec height 300000) as [L|L].
  - rewrite (proj2 (Z.ltb_lt _ _)) by lia. destruct T as [-> | ->]; by_eval.
  - rewrite (wrap_small 64 (height - 300000)) by (unfold fits; lia).
    assert (exists q, Z.min ((height - 300000) / 100000) 15 = q /\ 0 <= q <= 15) as (q & Eq & Hq).
    { eexists. split; [reflexivity|]. pose proof (Z.div_pos (height - 300000) 100000). lia. }
    rewrite Eq.
    assert ((if height <? 400000 then 0 else Z.min (height / 100000 * 100000) 1800000)
            = if q =? 0 then 0 else (q + 3) * 100000) as ->.
    { pose proof (Z.div_mod (height - 300000) 100000 ltac:(done)) as D.
      pose proof (Z.mod_pos_bound (height - 300000) 100000 ltac:(done)) as M.
      assert (height / 100000 = (height - 300000) / 100000 + 3) as ->.
      { replace height with (height - 300000 + 3 * 100000) at 1 by lia. by rewrite Z.div_add. }
      destruct (Z.ltb_spec height 400000), (Z.eqb_spec q 0); lia. }
    assert (q ∈ seqZ 0 16) as Q by (apply elem_of_seqZ; lia). clear -T Q.
    destruct T as [-> | ->]; revert q Q; apply Forall_forall; by_eval.
Qed.

(** ** Examples *)

Definition sample_keys : account_keys :=
  Keys (Addr (encode (zmul (num key_5) B)) (encode (zmul (num key_7) B))) key_5 key_7 [] [].

Lemma sample_consistent : consistent sample_keys.
Proof.
  exact (conj key_5_valid (conj key_7_valid (conj (public_key_ok key_5 key_5_valid) (public_key_ok key_7 key_7_valid)))).
Qed.

(** Subaddress (1, 2) and the third output of a transaction. *)
Lemma output_received_witness : exists subs addr out_key R p ki,
  @get_subaddress example_hash sample_keys (Sub 1 2) = ret addr
  /\ tx_public_key addr true key_7 = ret R
  /\ @generate_key_image_helper example_hash true sample_keys subs out_key R [] 3 = ret (Some (p, ki))
  /\ @secret_key_to_public_key (sec p) = Some (Some out_key).
Proof.
  set (subs := {[ encode (@spend_point_of example_hash sample_keys (Sub 1 2)) := Sub 1 2 ]} : subaddress_map).
  destruct (@output_received example_hash true sample_keys (Sub 1 2) subs key_7 3)
    as (addr & R & d & out_key & p & ki & E1 & E2 & _ & _ & _ & _ & E3 & _ & _ & E4 & _);
    [exact sample_consistent|reflexivity|change (key_5 <> null_skey); by_eval|exact key_7_valid|lia| |].
  - intros D. rewrite (@spend_public_key_ok example_hash) by exact sample_consistent. intros E%ret_inj. subst D.
    apply lookup_insert_eq.
  - exists subs, addr, out_key, R, p, ki. exact (conj E1 (conj E2 (conj E3 E4))).
Defined.

Lemma subaddress_keys_agree_witness : exists l,
  @get_subaddress_spend_public_keys example_hash sample_keys 0 0 3 = ret l /\ Z.of_nat (length l) = 3.
Proof.
  destruct (proj2 (@subaddress_keys_agree example_hash sample_keys 0 0 3 sample_consistent) ltac:(lia)) as (l & E & L & _).
  exists l. exact (conj E L).
Defined.

Definition sample_pid : TxExtra.uniform_payment_id := {| TxExtra.zero := 0; TxExtra.payment_id := key_5 |}.

Lemma payment_id_roundtrip_witness : exists R pid',
  @encrypt_payment_id true sample_pid (m_view_public_key (m_account_address sample_keys)) key_5 = ret (Some pid')
  /\ @encrypt_payment_id true pid' R key_7 = ret (Some sample_pid).
Proof.
  destruct (@payment_id_roundtrip example_hash true sample_keys (Sub 0 0) key_5 (replicate 8 1) sample_pid)
    as (addr & R & id8' & pid' & E1 & _ & _ & _ & E2 & E3);
    [exact sample_consistent|exact key_5_valid|reflexivity|split; by_eval|by_eval|].
  exists R, pid'. apply ret_inj in E1. subst addr. exact (conj E2 E3).
Defined.

Lemma account_recovered_witness : exists a b,
  @generate_new example_hash (Acc sample_keys 0 0) 2 1700000000 [key_7] = ret (a, [])
  /\ @recover example_hash (Acc sample_keys 0 0) key_7 2 = ret b
  /\ m_spend_secret_key (m_keys b) = m_spend_secret_key (m_keys a).
Proof.
  destruct (@account_recovered example_hash (Acc sample_keys 0 0) (Acc sample_keys 0 0) 2 1700000000 key_7 [] key_5)
    as (a & b & c & E1 & _ & _ & _ & E2 & _ & E3 & _); [exact (proj1 key_5_valid)|].
  exists a, b. exact (conj E1 (conj E2 E3)).
Defined.

Lemma acc_options_spec_witness :
  get_seed_restore_height (acc_options ACC_OPT_LONG_ADDRESS 750000) = 700000.
Proof.
  apply (acc_options_spec ACC_OPT_LONG_ADDRESS 750000); [by right|by_eval].
Defined.

End Account.
