(* ===== verification/TxBuild.v ===== *)
(** * Building transactions

    src/cryptonote_core/cryptonote_tx_utils.cpp: classify_addresses,
    get_destination_view_key_pub, construct_tx_with_tx_key and
    construct_tx_and_get_tx_key, over the accounts of Account, the extra of
    TxExtra, the permutations of Permute and the signatures of RctSigs.  The
    theorem composes them: from outputs the sender owns and destinations with
    valid keys, a transaction is made whose inputs are sorted by key image, whose
    signature verifies, and whose outputs their owners find, decode and can spend. *)

From stdpp Require Import gmap sorting.
From S2P Require Import Prelude Result Permute Keccak Varint Serialization Transaction TxExtra TxHash Limbs Primality Scalar Fe Ge Curve Points HashPoint BaseData Recode ScalarMult BaseTable Order Multiples Crypto RingSig RctOps RangeProof Mlsag RctSigs Account.
Import Keccak Varint Limbs Scalar Fe Ge Curve Points BaseData ScalarMult BaseTable Order Multiples Crypto RingSig RctOps RangeProof Mlsag RctSigs Account Permute Result.

Module TxBuild.

(** ** Data *)

Record tx_source_entry := Source {
  outputs : list (Z * ctkey);
  real_output : nat;
  real_out_tx_key : bytes;
  real_out_additional_tx_keys : list bytes;
  real_output_in_tx_index : Z;
  src_amount : Z;
  src_rct : bool;
  src_mask : bytes;
  src_kLRki : multisig_kLRki
}.

Record tx_destination_entry := Dest {
  dst_amount : Z;
  dst_addr : account_public_address;
  dst_is_subaddress : bool
}.

Definition CURRENT_TRANSACTION_VERSION : Z := 3.
Definition CRYPTONOTE_MAX_BLOCK_NUMBER : Z := 500000000.

(** A transaction with the expanded signature. *)
Record built := Built { b_prefix : Transaction.transaction_prefix; b_rct : rctSig }.

(** ** Addresses of the destinations *)

Definition is_change (change_addr : option account_public_address) (d : tx_destination_entry) : bool :=
  bool_decide (change_addr = Some (dst_addr d)).

(** The numbers of standard addresses and of subaddresses, and the last
    subaddress; [seen] is unique_dst_addresses. *)
Fixpoint classify_loop (change_addr : option account_public_address) (ds : list tx_destination_entry)
    (seen : list account_public_address) (num_std num_sub : nat) (single : option account_public_address)
    : nat * nat * option account_public_address :=
  match ds with
  | [] => (num_std, num_sub, single)
  | d :: ds =>
      if is_change change_addr d || bool_decide (dst_addr d ∈ seen)
      then classify_loop change_addr ds seen num_std num_sub single
      else if dst_is_subaddress d
      then classify_loop change_addr ds (dst_addr d :: seen) num_std (num_sub + 1) (Some (dst_addr d))
      else classify_loop change_addr ds (dst_addr d :: seen) (num_std + 1) num_sub single
  end.

Definition classify_addresses (destinations : list tx_destination_entry)
    (change_addr : option account_public_address) : nat * nat * option account_public_address :=
  classify_loop change_addr destinations [] 0 0 None.

Definition need_additional (num_std num_sub : nat) : bool :=
  Nat.ltb 0 num_sub && (Nat.ltb 0 num_std || Nat.ltb 1 num_sub).

(** The loop, with the number of addresses found and the last of them. *)
Fixpoint view_key_loop (change_addr : option account_public_address) (allow_any_key : bool)
    (ds : list tx_destination_entry) (addr : account_public_address) (count : nat) : bytes :=
  match ds with
  | [] =>
      match change_addr with
      | Some c => if Nat.eqb count 0 then m_view_public_key c else m_view_public_key addr
      | None => m_view_public_key addr
      end
  | d :: ds =>
      if (dst_amount d =? 0) || is_change change_addr d || bool_decide (dst_addr d = addr)
      then view_key_loop change_addr allow_any_key ds addr count
      else if Nat.ltb 0 count
      then (if allow_any_key then m_view_public_key addr else TxExtra.null_pkey)
      else view_key_loop change_addr allow_any_key ds (dst_addr d) (count + 1)
  end.

Definition get_destination_view_key_pub (destinations : list tx_destination_entry)
    (change_addr : option account_public_address) (allow_any_key : bool) : bytes :=
  match change_addr with
  | Some c =>
      if allow_any_key then m_view_public_key c
      else view_key_loop change_addr allow_any_key destinations (Addr TxExtra.null_pkey TxExtra.null_pkey) 0
  | None => view_key_loop change_addr allow_any_key destinations (Addr TxExtra.null_pkey TxExtra.null_pkey) 0
  end.

Section functions.

Context `{HF : !FastHash} (debug : bool).
Context (bulletproof_PROVE : list Z -> list bytes -> randomness -> result (proof * randomness)).
Context (bulletproof_VERIFY : list proof -> result bool).

(** ** Inputs *)

(** An input of the transaction being built: the image of txin_to_key, the
    offsets, and the ephemeral keys. *)
Record built_input := Input { in_amount : Z; in_offsets : list Z; in_image : bytes; in_ephemeral : keypair }.

Definition make_input (keys : account_keys) (subaddresses : subaddress_map) (msout : bool) (src : tx_source_entry)
    : result (option built_input) :=
  let? real := ret (outputs src !! real_output src) in
  let out_key := dest real.2 in
  let? (in_ephemeral, img) :=
    generate_key_image_helper debug keys subaddresses out_key (real_out_tx_key src) (real_out_additional_tx_keys src)
      (real_output_in_tx_index src) in
  let? _ := check (msout || bool_decide (pub in_ephemeral = out_key)) in
  let k_image := if msout then ms_ki (src_kLRki src) else img in
  ret (Some (Input (src_amount src) (absolute_output_offsets_to_relative (map fst (outputs src))) k_image in_ephemeral)).

(** The inputs in the order of the sources, and summary_inputs_money. *)
Fixpoint fill_inputs (keys : account_keys) (subaddresses : subaddress_map) (msout : bool)
    (sources : list tx_source_entry) (money : Z) : result (option (list built_input * Z)) :=
  match sources with
  | [] => ret (Some ([], money))
  | src :: sources =>
      let? i := make_input keys subaddresses msout src in
      let? (l, money) := fill_inputs keys subaddresses msout sources (u64 (money + src_amount src)) in
      ret (Some (i :: l, money))
  end.

(** The indices sorted by decreasing key image.  Equal images, which only one
    output spent twice has, keep their order here; std::sort may exchange them. *)
Definition image_order (ins : list built_input) (i0 i1 : nat) : Prop :=
  memcmp_gt (default [] (in_image <$> ins !! i1)) (default [] (in_image <$> ins !! i0)) = false.

#[global] Instance image_order_dec ins i0 i1 : Decision (image_order ins i0 i1).
Proof. unfold image_order. apply _. Defined.

Definition ins_order (ins : list built_input) : list nat :=
  merge_sort (image_order ins) (seq 0 (length ins)).

(** The three swaps of the lambda: tx.vin and in_contexts, which are one list
    here, and sources. *)
Definition swap_inputs (i0 i1 : nat) (s : list built_input * list tx_source_entry)
    : list built_input * list tx_source_entry :=
  (swap_elements i0 i1 s.1, swap_elements i0 i1 s.2).

Definition sort_inputs (ins : list built_input) (sources : list tx_source_entry)
    : result (list built_input * list tx_source_entry) :=
  apply_permutation swap_inputs (ins_order ins) (ins, sources).

(** ** Outputs *)

(** What the loop appends for one destination: the output key, the amount key,
    and the additional key of the transaction. *)
Record built_output := Output { out_key : bytes; amount_key : bytes; out_additional : option bytes }.

Definition make_output (keys : account_keys) (change_addr : option account_public_address) (txkey_pub tx_key : bytes)
    (additional_sec : option bytes) (output_index : Z) (d : tx_destination_entry)
    : result (option built_output) :=
  let* additional :=
    match additional_sec with
    | Some s =>
        let* p := (if dst_is_subaddress d then scalarmultKey (m_spend_public_key (dst_addr d)) s
                   else scalarmultBase s) in
        ret (Some p)
    | None => ret None
    end in
  let? derivation :=
    (if is_change change_addr d then lift (generate_key_derivation debug txkey_pub (m_view_secret_key keys))
     else
       let key := match additional_sec with
                  | Some s => if dst_is_subaddress d then s else tx_key
                  | None => tx_key
                  end in
       lift (generate_key_derivation debug (m_view_public_key (dst_addr d)) key)) in
  let* scalar1 := lift (derivation_to_scalar debug derivation output_index) in
  let? out_eph_public_key :=
    lift (derive_public_key debug derivation output_index (m_spend_public_key (dst_addr d))) in
  ret (Some (Output out_eph_public_key scalar1 additional)).

(** [secs] are the secret keys of the additional keys, [None] for each output if
    there are none; the result has the outputs and summary_outs_money. *)
Fixpoint fill_outputs (keys : account_keys) (change_addr : option account_public_address) (txkey_pub tx_key : bytes)
    (secs : list (option bytes)) (output_index : Z) (destinations : list tx_destination_entry) (money : Z)
    : result (option (list built_output * Z)) :=
  match destinations, secs with
  | d :: destinations, s :: secs =>
      let? o := make_output keys change_addr txkey_pub tx_key s output_index d in
      let? (l, money) :=
        fill_outputs keys change_addr txkey_pub tx_key secs (output_index + 1) destinations (u64 (money + dst_amount d)) in
      ret (Some (o :: l, money))
  | _, _ => ret (Some ([], money))
  end.

(** ** The extra *)

(** A payment id that was not given: zero is not zero. *)
Definition dummy_pid : TxExtra.uniform_payment_id :=
  {| TxExtra.zero := 2 ^ 64 - 1; TxExtra.payment_id := TxHash.null_hash |}.

Definition choose_pid (payment_id : option TxExtra.uniform_payment_id) : option TxExtra.uniform_payment_id :=
  match payment_id with
  | None => Some dummy_pid
  | Some p => if TxExtra.zero p =? 0 then Some p else None
  end.

(** The extra of the transaction: its key, the additional keys and the
    encrypted payment id.  The results of the first two are ignored. *)
Definition make_extra (txkey_pub : bytes) (additional : option (list bytes)) (tx_key : bytes)
    (destinations : list tx_destination_entry) (change_addr : option account_public_address)
    (payment_id : option TxExtra.uniform_payment_id) : result (option bytes) :=
  let extra := snd (TxExtra.add_tx_pub_key_to_extra [] txkey_pub) in
  let extra := match additional with
               | Some l => snd (TxExtra.add_additional_tx_pub_keys_to_extra extra l)
               | None => extra
               end in
  let? pid := ret (choose_pid payment_id) in
  let view_key_pub :=
    get_destination_view_key_pub destinations change_addr
      (match payment_id with None => true | Some _ => false end) in
  let? _ := check (negb (bool_decide (view_key_pub = TxExtra.null_pkey))) in
  let? pid := encrypt_payment_id debug pid view_key_pub tx_key in
  let (ok, extra) := TxExtra.add_payment_id_to_tx_extra extra pid in
  ret (if ok : bool then Some extra else None).

(** ** Signing *)

Definition txin_of (src : tx_source_entry) (i : built_input) : Transaction.txin_v :=
  Transaction.txin_to_key (if src_rct src then 0 else in_amount i) (in_offsets i) (in_image i).

Definition sum64 (l : list Z) : Z := foldl (fun a x => u64 (a + x)) 0 l.

(** The matrix of a full signature: one column for each ring position. *)
Definition full_ring (n : nat) (sources : list tx_source_entry) : option (list (list ctkey)) :=
  mapM (fun i => mapM (fun src => snd <$> outputs src !! i) sources) (seq 0 n).

Definition sign_tx (prefix : Transaction.transaction_prefix) (ins : list built_input) (sources : list tx_source_entry)
    (outs : list built_output) (destinations : list tx_destination_entry) (bulletproof msout : bool) (rng : randomness)
    : result (option (rctSig * list bytes * randomness)) :=
  let* first := lift (head sources) in
  let n_total_outs := length (outputs first) in
  let use_simple_rct := Nat.ltb 1 (length sources) || bulletproof in
  let? _ := check (use_simple_rct
                   || forallb (fun src => Nat.eqb (real_output src) (real_output first)) sources) in
  let? _ := check (use_simple_rct
                   || forallb (fun src => Nat.eqb n_total_outs (length (outputs src))) (drop 1 sources)) in
  let inamounts := map src_amount sources in
  let outamounts := map dst_amount destinations in
  let amount_in := sum64 inamounts in
  let amount_out := sum64 outamounts in
  let inSk := zip_with (fun i src => Ct (sec (in_ephemeral i)) (src_mask src)) ins sources in
  let index := map real_output sources in
  let kLRki := map src_kLRki sources in
  let message := TxHash.get_transaction_prefix_hash prefix in
  let dests := map out_key outs in
  let amount_keys := map amount_key outs in
  let* (rv, outSk, c, rng) :=
    (if use_simple_rct then
       genRctSimple debug bulletproof_PROVE bulletproof_VERIFY message inSk dests inamounts outamounts
         (u64 (amount_in - amount_out)) (map (fun src => map snd (outputs src)) sources) amount_keys
         (if msout then Some kLRki else None) msout index bulletproof rng
     else
       let* mixRing := lift (full_ring n_total_outs sources) in
       let outamounts := if amount_out <? amount_in then outamounts ++ [u64 (amount_in - amount_out)] else outamounts in
       let* (rv, outSk, c, rng) :=
         genRct debug message inSk dests outamounts mixRing amount_keys (if msout then head kLRki else None) msout
           (real_output first) rng in
       ret (rv, outSk, [c], rng)) in
  let? _ := check (Nat.eqb (length (Transaction.vout prefix)) (length outSk)) in
  ret (Some (rv, c, rng)).

(** ** The whole transaction *)

(** The transaction, the sources in their new order, and the challenges of a
    multisignature; [None] is false. *)
Definition construct_tx_with_tx_key (keys : account_keys) (subaddresses : subaddress_map)
    (sources : list tx_source_entry) (destinations : list tx_destination_entry)
    (change_addr : option account_public_address) (payment_id : option TxExtra.uniform_payment_id) (unlock_time : Z)
    (tx_key : bytes) (additional_tx_keys : list bytes) (bulletproof msout : bool) (rng : randomness)
    : result (option (built * list tx_source_entry * list bytes * randomness)) :=
  let? _ := check (negb (Nat.eqb (length sources) 0)) in
  let? _ := check (unlock_time <=? CRYPTONOTE_MAX_BLOCK_NUMBER) in
  let? _ := check (negb (bulletproof && (BULLETPROOF_MAX_OUTPUTS <? Z.of_nat (length destinations)))) in
  let? (ins, summary_inputs_money) := fill_inputs keys subaddresses msout sources 0 in
  let* (ins, sources) := sort_inputs ins sources in
  let '(num_std, num_sub, single) := classify_addresses destinations change_addr in
  let* txkey_pub :=
    (if Nat.eqb num_std 0 && Nat.eqb num_sub 1 then
       let* single := lift single in
       scalarmultKey (m_spend_public_key single) tx_key
     else scalarmultBase tx_key) in
  let need := need_additional num_std num_sub in
  let? _ := check (negb need || Nat.eqb (length destinations) (length additional_tx_keys)) in
  let secs := if need then map Some additional_tx_keys else map (fun _ => None) destinations in
  let? (outs, summary_outs_money) := fill_outputs keys change_addr txkey_pub tx_key secs 0 destinations 0 in
  let additional := omap out_additional outs in
  let? _ := check (Nat.eqb (length additional) (length additional_tx_keys)) in
  let? extra := make_extra txkey_pub (if need then Some additional else None) tx_key destinations change_addr payment_id in
  let? _ := check (summary_outs_money <=? summary_inputs_money) in
  let prefix :=
    {| Transaction.version := CURRENT_TRANSACTION_VERSION; Transaction.unlock_time := unlock_time;
       Transaction.vin := zip_with txin_of sources ins;
       Transaction.vout := map (fun o => {| Transaction.amount := 0; Transaction.target := Transaction.txout_to_key (out_key o) |}) outs;
       Transaction.extra := extra |} in
  let? (rv, c, rng) := sign_tx prefix ins sources outs destinations bulletproof msout rng in
  ret (Some (Built prefix rv, sources, c, rng)).

(** A new key for each destination. *)
Fixpoint generate_keys (n : nat) (rng : randomness) : result (list bytes * randomness) :=
  match n with
  | 0%nat => ret ([], rng)
  | S n =>
      let* (_, s, _, rng) := lift (generate_legacy_keys [] false rng) in
      let* (l, rng) := generate_keys n rng in
      ret (s :: l, rng)
  end.

(** [shuffled] is the order the shuffle leaves the destinations in.  The result
    has the key of the transaction and the additional keys too. *)
Definition construct_tx_and_get_tx_key (keys : account_keys) (subaddresses : subaddress_map)
    (sources : list tx_source_entry) (shuffled : list tx_destination_entry)
    (change_addr : option account_public_address) (payment_id : option TxExtra.uniform_payment_id) (unlock_time : Z)
    (additional_tx_keys : list bytes) (bulletproof msout : bool) (rng : randomness)
    : result (option (built * list tx_source_entry * list bytes * randomness) * bytes * list bytes) :=
  let* (_, tx_key, _, rng) := lift (generate_legacy_keys [] false rng) in
  let '(num_std, num_sub, _) := classify_addresses shuffled change_addr in
  let* (additional_tx_keys, rng) :=
    (if need_additional num_std num_sub then generate_keys (length shuffled) rng
     else ret (additional_tx_keys, rng)) in
  let* r := construct_tx_with_tx_key keys subaddresses sources shuffled change_addr payment_id unlock_time tx_key
              additional_tx_keys bulletproof msout rng in
  ret (r, tx_key, additional_tx_keys).

Definition construct_tx (keys : account_keys) (sources : list tx_source_entry) (shuffled : list tx_destination_entry)
    (change_addr : option account_public_address) (payment_id : option TxExtra.uniform_payment_id) (unlock_time : Z)
    (rng : randomness) : result (option (built * list tx_source_entry * list bytes * randomness)) :=
  let subaddresses : subaddress_map := {[ m_spend_public_key (m_account_address keys) := Sub 0 0 ]} in
  let* (r, _, _) := construct_tx_and_get_tx_key keys subaddresses sources shuffled change_addr payment_id unlock_time []
                      false false rng in
  ret r.

End functions.


(** ** Inputs that can be spent *)

(** The proofs use the operations below by their specifications only. *)
#[local] Opaque generate_key_derivation derive_public_key derivation_to_scalar generate_key_image encode residue zmul
  scalarmultKey scalarmultBase genRctSimple genRct merge_sort.

Section inputs.

Context `{HF : !FastHash} (debug : bool) (keys : account_keys) (subs : subaddress_map).

(** A source whose real output the account can spend. *)
Definition own_source (src : tx_source_entry) : Prop :=
  amount_ok (src_amount src) /\ valid (src_mask src) /\ (2 <= length (outputs src))%nat
  /\ Forall (fun o => ring_key o.2) (outputs src)
  /\ exists o p ki, outputs src !! real_output src = Some o
       /\ generate_key_image_helper debug keys subs (dest o.2) (real_out_tx_key src) (real_out_additional_tx_keys src)
            (real_output_in_tx_index src) = ret (Some (p, ki))
       /\ spends debug (dest o.2) p ki /\ commit (src_amount src) (src_mask src) = ret (mask o.2).

(** The input of RctSigs for a source and the keys found for it. *)
Definition rct_input (src : tx_source_entry) (i : built_input) : input :=
  In (src_amount src) (map snd (outputs src)) (real_output src) (Ct (sec (in_ephemeral i)) (src_mask src)).

Definition input_for (src : tx_source_entry) (i : built_input) : Prop :=
  in_amount i = src_amount src
  /\ in_offsets i = absolute_output_offsets_to_relative (map fst (outputs src))
  /\ spendable (rct_input src i)
  /\ exists o, outputs src !! real_output src = Some o
       /\ spends debug (dest o.2) (in_ephemeral i) (in_image i).

Lemma make_input_ok src :
  own_source src -> exists i, make_input debug keys subs false src = ret (Some i) /\ input_for src i.
Proof.
  intros (Ha & Vm & L & F & o & p & ki & Eo & EH & Sp & EC). unfold make_input. rewrite Eo. tgo. rewrite EH. tgo.
  pose proof Sp as (Ep & Vs & Ek & EI). rewrite bool_decide_eq_true_2 by exact Ep. cbn [orb]. rewrite check_holds by done. tgo.
  eexists. split; [reflexivity|]. split; [done|]. split; [done|]. split; [|by exists o].
  split; [exact Ha|]. cbn [rct_input i_amount i_ring i_index i_sk in_ephemeral]. rewrite length_map. split; [exact L|].
  split; [by apply Forall_fmap|]. exists o.2. rewrite list_lookup_fmap, Eo. split; [done|].
  exact (conj Vs (conj Vm (conj Ek EC))).
Qed.

Lemma fill_inputs_ok sources : forall money,
  Forall own_source sources ->
  exists ins, fill_inputs debug keys subs false sources money
      = ret (Some (ins, foldl (fun a x => u64 (a + x)) money (map src_amount sources)))
    /\ Forall2 input_for sources ins.
Proof.
  induction sources as [|src sources IH]; intros money F; [by exists []|]. apply Forall_cons in F as [Hs F].
  destruct (make_input_ok src Hs) as (i & Ei & Hi). destruct (IH (u64 (money + src_amount src)) F) as (ins & E & H).
  exists (i :: ins). split; [|by constructor]. cbn [fill_inputs]. rewrite Ei. tgo. rewrite E. by tgo.
Qed.

End inputs.

Lemma sum64_from l : forall a,
  0 <= a -> Forall (fun x => 0 <= x) l -> a + zsum l < 2 ^ 64 -> foldl (fun a x => u64 (a + x)) a l = a + zsum l.
Proof.
  induction l as [|x l IH]; intros a Ha F B; cbn [foldl zsum] in *; [lia|]. apply Forall_cons in F as [Hx F].
  assert (0 <= zsum l) as P by (clear -F; induction F; cbn [zsum]; lia).
  rewrite (wrap_small 64) by (unfold fits; lia). rewrite IH by (assumption || lia). lia.
Qed.

Lemma sum64_ok l : Forall amount_ok l -> zsum l < 2 ^ 64 -> sum64 l = zsum l.
Proof.
  intros F B. unfold sum64. rewrite sum64_from; [lia|lia| |lia].
  eapply Forall_impl; [exact F|]. unfold amount_ok. lia.
Qed.

(** ** Sorting *)

Lemma reorder_Forall2 {A B} (R : A -> B -> Prop) p (l : list A) (k : list B) :
  Forall2 R l k -> Forall2 R (reorder p l) (reorder p k).
Proof.
  intros F. unfold reorder. induction p as [|i p IH]; [constructor|]. cbn [omap list_omap].
  destruct (l !! i) as [x|] eqn:E.
  - destruct (Forall2_lookup_l _ _ _ _ _ F E) as (y & -> & Hy). by constructor.
  - rewrite (proj2 (lookup_ge_None k i)); [exact IH|]. rewrite <- (Forall2_length _ _ _ F). by apply lookup_ge_None.
Qed.

Section sorting.

Context (ins : list built_input).

#[local] Instance image_order_total : Total (image_order ins).
Proof.
  intros i j. unfold image_order. destruct (memcmp_gt (default [] (in_image <$> ins !! j)) _) eqn:E; [|by left].
  right. by apply memcmp_gt_asym.
Qed.

Lemma ins_order_permutation : ins_order ins ≡ₚ seq 0 (length ins).
Proof. apply merge_sort_Permutation. Qed.

(** Consecutive images are not increasing. *)
Definition images_sorted (l : list built_input) : Prop :=
  Sorted (fun a b => memcmp_gt (in_image b) (in_image a) = false) l.

Lemma reorder_sorted p :
  Forall (fun k => (k < length ins)%nat) p -> Sorted (image_order ins) p -> images_sorted (reorder p ins).
Proof.
  intros F S. unfold images_sorted, reorder. induction S as [|i p S IH H]; [constructor|]. apply Forall_cons in F as [Hi F].
  cbn [omap list_omap]. destruct (lookup_lt_is_Some_2 ins i Hi) as [x Ex]. rewrite Ex. constructor; [by apply IH|].
  destruct H as [|j p H]; [constructor|]. apply Forall_cons in F as [Hj F]. cbn [omap list_omap].
  destruct (lookup_lt_is_Some_2 ins j Hj) as [y Ey]. rewrite Ey. constructor.
  unfold image_order in H. by rewrite Ex, Ey in H.
Qed.

Lemma sort_inputs_ok sources :
  length ins = length sources ->
  exists p, p ≡ₚ seq 0 (length ins) /\ sort_inputs ins sources = ret (reorder p ins, reorder p sources)
    /\ images_sorted (reorder p ins).
Proof.
  intros L. exists (ins_order ins). pose proof ins_order_permutation as P. split; [exact P|].
  assert (length (ins_order ins) = length ins) as Lp by (rewrite P; apply length_seq).
  assert (ins_order ins ≡ₚ seq 0 (length (ins_order ins))) as P' by by rewrite Lp.
  split.
  - unfold sort_inputs.
    pose proof (apply_permutation_ok (ins_order ins) ins Lp P') as E1.
    pose proof (apply_permutation_ok (ins_order ins) sources ltac:(lia) P') as E2.
    change ins with (fst (ins, sources)) in E1 at 2. change sources with (snd (ins, sources)) in E2 at 1.
    rewrite (apply_permutation_hom swap_inputs swap_elements fst) in E1 by done.
    rewrite (apply_permutation_hom swap_inputs swap_elements snd) in E2 by done.
    apply rbind_inv in E1 as ([a b] & E & E1). rewrite E, rbind_ret in E2. rewrite E.
    apply ret_inj in E1, E2. cbn [fst snd] in E1, E2. by subst.
  - apply reorder_sorted; [by apply permutation_range|]. apply Sorted_merge_sort, _.
Qed.

End sorting.


(** ** Outputs *)

(** The bytes of a public key. *)
Definition is_key (b : bytes) : Prop := scalar b /\ check_key b = Some true.

Lemma is_key_point b : is_key b -> exists P, on_curve P /\ b = encode P.
Proof. intros [S K]. by apply check_key_point. Qed.

Lemma encode_is_key P : on_curve P -> is_key (encode P).
Proof. intros H. exact (conj (encode_scalar P) (check_key_ok P H)). Qed.

Definition good_dest (d : tx_destination_entry) : Prop :=
  amount_ok (dst_amount d) /\ is_key (m_spend_public_key (dst_addr d)) /\ is_key (m_view_public_key (dst_addr d)).

Section outputs.

Context `{HF : !FastHash} (debug : bool) (keys : account_keys) (change_addr : option account_public_address).
Context (txkey_pub tx_key : bytes).

(** The derivation the sender uses for a destination. *)
Definition sender_derives (s : option bytes) (d : tx_destination_entry) : option (option bytes) :=
  if is_change change_addr d then generate_key_derivation debug txkey_pub (m_view_secret_key keys)
  else
    generate_key_derivation debug (m_view_public_key (dst_addr d))
      (match s with Some s => if dst_is_subaddress d then s else tx_key | None => tx_key end).

Definition additional_for (s : option bytes) (d : tx_destination_entry) (a : option bytes) : Prop :=
  match s with
  | None => a = None
  | Some s => exists p, a = Some p /\ is_key p /\ tx_public_key (dst_addr d) (dst_is_subaddress d) s = ret p
  end.

Definition output_for (i : Z) (s : option bytes) (d : tx_destination_entry) (o : built_output) (der : bytes) : Prop :=
  sender_derives s d = Some (Some der)
  /\ derive_public_key debug der i (m_spend_public_key (dst_addr d)) = Some (Some (out_key o))
  /\ derivation_to_scalar debug der i = Some (amount_key o)
  /\ additional_for s d (out_additional o) /\ is_key (out_key o).

Hypothesis txkey_ok : is_key txkey_pub.
Hypothesis tx_valid : valid tx_key.
Hypothesis view_valid : valid (m_view_secret_key keys).

Lemma sender_derives_ok s d :
  good_dest d -> (forall k, s = Some k -> valid k) -> exists der, sender_derives s d = Some (Some der).
Proof using txkey_ok tx_valid view_valid.
  intros (_ & _ & KV) Vs. unfold sender_derives. destruct (is_change change_addr d).
  - destruct (is_key_point _ txkey_ok) as (P & HP & ->). eexists. by apply derivation_ok.
  - destruct (is_key_point _ KV) as (P & HP & ->). eexists. apply derivation_ok; [exact HP|].
    destruct s as [s|]; [|exact tx_valid]. destruct (dst_is_subaddress d); [by apply Vs|exact tx_valid].
Qed.

Lemma additional_ok s d :
  good_dest d -> (forall k, s = Some k -> valid k) ->
  exists a, additional_for s d a
    /\ match s with
       | Some s =>
           let* p := (if dst_is_subaddress d then scalarmultKey (m_spend_public_key (dst_addr d)) s else scalarmultBase s) in
           ret (Some p)
       | None => ret None
       end = ret a.
Proof.
  intros (_ & KS & _) Vs. destruct s as [s|]; [|by exists None]. specialize (Vs s eq_refl).
  unfold additional_for, tx_public_key. destruct (dst_is_subaddress d).
  - destruct (is_key_point _ KS) as (P & HP & ->). rewrite scalarmultKey_ok by (done || by apply valid_small).
    eexists. split; [|by rgo]. eexists. split; [done|]. split; [apply encode_is_key, zmul_curve, HP|done].
  - rewrite scalarmultBase_ok by apply Vs. eexists. split; [|by rgo]. eexists. split; [done|].
    split; [apply encode_is_key, zmul_curve, B_curve|done].
Qed.

Lemma make_output_ok s i d :
  good_dest d -> (forall k, s = Some k -> valid k) -> 0 <= i < 2 ^ 64 ->
  exists o der, make_output debug keys change_addr txkey_pub tx_key s i d = ret (Some o) /\ output_for i s d o der.
Proof using txkey_ok tx_valid view_valid.
  intros G Vs Hi. destruct (additional_ok s d G Vs) as (a & Ha & Ea).
  destruct (sender_derives_ok s d G Vs) as (der & Ed). destruct G as (_ & KS & KV).
  destruct (is_key_point _ KS) as (P & HP & EP).
  assert (exists Q, on_curve Q
    /\ derive_public_key debug der i (m_spend_public_key (dst_addr d)) = Some (Some (encode Q))) as (Q & HQ & EQ).
  { rewrite EP, derive_public_key_ok by done. eexists. split; [|reflexivity].
    apply pt_add_curve; [exact HP|apply zmul_curve, B_curve]. }
  pose proof (derivation_to_scalar_ok debug der i Hi) as ES. eexists (Output (encode Q) _ a), der. split.
  - unfold make_output. rewrite Ea. rgo.
    match goal with |- rtry ?f ?e = _ => assert (e = ret (Some der)) as -> end.
    { unfold sender_derives in Ed. destruct (is_change change_addr d); by rewrite Ed. }
    tgo. rewrite ES. rgo. rewrite EQ. tgo. reflexivity.
  - split; [exact Ed|]. split; [exact EQ|]. split; [exact ES|]. split; [exact Ha|by apply encode_is_key].
Qed.

Lemma fill_outputs_ok ds : forall secs i money,
  Forall good_dest ds -> Forall (fun s => forall k, s = Some k -> valid k) secs -> length secs = length ds ->
  0 <= i -> i + Z.of_nat (length ds) < 2 ^ 64 ->
  exists outs, fill_outputs debug keys change_addr txkey_pub tx_key secs i ds money
      = ret (Some (outs, foldl (fun a x => u64 (a + x)) money (map dst_amount ds)))
    /\ length outs = length ds
    /\ forall j d s, ds !! j = Some d -> secs !! j = Some s ->
         exists o der, outs !! j = Some o /\ output_for (i + Z.of_nat j) s d o der.
Proof using txkey_ok tx_valid view_valid.
  induction ds as [|d ds IH]; intros [|s secs] i money F V L Hi Hb; try discriminate.
  - exists []. cbn. split_and!; [done|done|]. intros [|j]; done.
  - apply Forall_cons in F as [G F]. apply Forall_cons in V as [Vs V]. cbn [length] in Hb, L.
    destruct (make_output_ok s i d G Vs ltac:(lia)) as (o & der & Eo & Ho).
    destruct (IH secs (i + 1) (u64 (money + dst_amount d)) F V ltac:(lia) ltac:(lia) ltac:(lia)) as (outs & E & Lo & H).
    exists (o :: outs). cbn [fill_outputs]. rewrite Eo. tgo. rewrite E. tgo. split; [reflexivity|].
    split; [cbn; lia|]. intros [|j] d' s' Ed Es; cbn in Ed, Es.
    + injection Ed as <-. injection Es as <-. exists o, der. rewrite Z.add_0_r. done.
    + destruct (H j d' s' Ed Es) as (o' & der' & Eo' & Ho'). exists o', der'. split; [exact Eo'|].
      replace (i + Z.of_nat (S j)) with (i + 1 + Z.of_nat j) by lia. exact Ho'.
Qed.

End outputs.


(** ** The extra *)

Lemma is_key_length b : is_key b -> length b = 32%nat.
Proof. intros [[_ L] _]. exact L. Qed.

Lemma view_key_loop_ok change allow ds : forall addr count,
  Forall good_dest ds -> (forall c, change = Some c -> is_key (m_view_public_key c)) ->
  is_key (m_view_public_key addr) \/ m_view_public_key addr = TxExtra.null_pkey ->
  let k := view_key_loop change allow ds addr count in is_key k \/ k = TxExtra.null_pkey.
Proof.
  induction ds as [|d ds IH]; intros addr count F C A; cbn [view_key_loop].
  - destruct change as [c|]; [|exact A]. destruct (Nat.eqb count 0); [left; by apply C|exact A].
  - apply Forall_cons in F as [(_ & _ & KV) F].
    destruct ((dst_amount d =? 0) || is_change change d || bool_decide (dst_addr d = addr)); [by apply IH|].
    destruct (Nat.ltb 0 count); [destruct allow; [exact A|by right]|]. apply IH; [done|done|by left].
Qed.

Lemma destination_view_key_ok ds change allow :
  Forall good_dest ds -> (forall c, change = Some c -> is_key (m_view_public_key c)) ->
  let k := get_destination_view_key_pub ds change allow in is_key k \/ k = TxExtra.null_pkey.
Proof.
  intros F C. unfold get_destination_view_key_pub. destruct change as [c|].
  - destruct allow; [left; by apply C|]. apply view_key_loop_ok; [done|done|by right].
  - apply view_key_loop_ok; [done|done|by right].
Qed.

Section extra.

Context `{HF : !FastHash} (debug : bool).

Lemma encrypt_ok pid key r :
  TxExtra.ok_pid pid -> is_bytes (TxExtra.payment_id pid) -> is_key key -> valid r ->
  exists pid', encrypt_payment_id debug pid key r = ret (Some pid') /\ TxExtra.ok_pid pid'.
Proof.
  intros [Hz L] Hb K Hr. destruct (is_key_point _ K) as (P & HP & ->). unfold encrypt_payment_id.
  rewrite derivation_ok by done. rgo. destruct (pid_pad (encode (zmul 8 (zmul (num r) P)))) as (hash & -> & LK & BK). rgo.
  eexists. split; [reflexivity|]. pose proof (pid_bytes_length pid L) as LP.
  assert (is_bytes (xor_bytes (pid_bytes pid) (take 40 hash))) as BX.
  { apply xor_bytes_range; [|exact BK]. apply Forall_app. split; [|exact Hb].
    eapply Forall_impl; [apply (le_digits_range 256); lia|done]. }
  assert (length (xor_bytes (pid_bytes pid) (take 40 hash)) = 40%nat) as LX by (rewrite xor_bytes_length; lia).
  split; unfold pid_of; cbn [TxExtra.zero TxExtra.payment_id].
  - assert (length (take 8 (xor_bytes (pid_bytes pid) (take 40 hash))) = 8%nat) as L8 by (rewrite length_take; lia).
    pose proof (le_val_bound 256 ltac:(lia) (take 8 (xor_bytes (pid_bytes pid) (take 40 hash)))) as R.
    rewrite L8 in R. apply R, Forall_take, BX.
  - rewrite length_drop. lia.
Qed.

(** The fields of the extra. *)
Definition extra_ops (R : bytes) (additional : option (list bytes)) (pid : TxExtra.uniform_payment_id) : list TxExtra.extra_op :=
  [TxExtra.AddPubKey R] ++ match additional with Some l => [TxExtra.AddAdditional l] | None => [] end
  ++ [TxExtra.AddPaymentId pid].

Definition pid_visible (ds : list tx_destination_entry) (change : option account_public_address) (tx_key : bytes)
    (payment_id : option TxExtra.uniform_payment_id) : Prop :=
  forall p pid', choose_pid payment_id = Some p ->
    encrypt_payment_id debug p
      (get_destination_view_key_pub ds change (match payment_id with None => true | Some _ => false end)) tx_key
    = ret (Some pid') -> TxExtra.zero pid' <> 0.

Lemma make_extra_ok R additional tx_key ds change payment_id p :
  is_key R -> (forall l, additional = Some l -> Forall is_key l /\ Z.of_nat (length l) < 2 ^ 64) -> valid tx_key ->
  Forall good_dest ds -> (forall c, change = Some c -> is_key (m_view_public_key c)) ->
  choose_pid payment_id = Some p -> TxExtra.ok_pid p -> is_bytes (TxExtra.payment_id p) ->
  get_destination_view_key_pub ds change (match payment_id with None => true | Some _ => false end) <> TxExtra.null_pkey ->
  pid_visible ds change tx_key payment_id ->
  exists extra pid', make_extra debug R additional tx_key ds change payment_id = ret (Some extra)
    /\ encrypt_payment_id debug p
         (get_destination_view_key_pub ds change (match payment_id with None => true | Some _ => false end)) tx_key
       = ret (Some pid')
    /\ TxExtra.parse_tx_extra extra = (true, map TxExtra.op_field (extra_ops R additional pid')).
Proof.
  intros KR KA Vt F C Ep Op Bp N Vis. unfold make_extra. rewrite Ep. tgo.
  set (key := get_destination_view_key_pub _ _ _) in *.
  assert (is_key key) as KK.
  { destruct (destination_view_key_ok ds change (match payment_id with None => true | Some _ => false end) F C); done. }
  rewrite bool_decide_eq_false_2 by exact N. rewrite check_holds by done. tgo.
  destruct (encrypt_ok p key tx_key Op Bp KK Vt) as (pid' & Ee & Ok'). pose proof (Vis p pid' Ep Ee) as NZ. rewrite Ee. tgo.
  assert (Forall TxExtra.ok_op (extra_ops R additional pid')) as FO.
  { unfold extra_ops. apply Forall_app. split.
    { apply Forall_singleton. split; [exact (is_key_length R KR)|done]. }
    apply Forall_app. split.
    - destruct additional as [l|]; [|constructor]. destruct (KA l eq_refl) as [Kl Ll]. apply Forall_singleton. split; [|done].
      split; [|exact Ll]. eapply Forall_impl; [exact Kl|]. exact is_key_length.
    - apply Forall_singleton. exact (conj Ok' NZ). }
  pose proof (TxExtra.run_ops_put (extra_ops R additional pid') [] [] FO eq_refl) as EP.
  assert (TxExtra.add_payment_id_to_tx_extra
    (match additional with
     | Some l => snd (TxExtra.add_additional_tx_pub_keys_to_extra (snd (TxExtra.add_tx_pub_key_to_extra [] R)) l)
     | None => snd (TxExtra.add_tx_pub_key_to_extra [] R) end) pid'
    = (true, foldl TxExtra.run_op [] (extra_ops R additional pid'))) as ->.
  { unfold extra_ops. rewrite !foldl_app. cbn [foldl]. unfold TxExtra.run_op at 1.
    unfold TxExtra.add_payment_id_to_tx_extra. rewrite (proj2 (Z.eqb_neq _ _)) by exact NZ. cbn [snd].
    by destruct additional. }
  eexists _, pid'. split; [reflexivity|]. split; [reflexivity|].
  apply TxExtra.parse_fields; [by apply TxExtra.wf_ops|exact EP].
Qed.

Lemma extra_fields R additional pid extra :
  TxExtra.parse_tx_extra extra = (true, map TxExtra.op_field (extra_ops R additional pid)) ->
  TxExtra.get_tx_pub_key_from_extra extra 0 = R
  /\ TxExtra.get_additional_tx_pub_keys_from_extra extra = default [] additional
  /\ TxExtra.get_payment_id_from_tx_extra extra = Some pid.
Proof.
  intros E. unfold TxExtra.get_tx_pub_key_from_extra, TxExtra.get_additional_tx_pub_keys_from_extra,
    TxExtra.get_payment_id_from_tx_extra. rewrite E. cbn [snd]. by destruct additional.
Qed.

End extra.


(** ** Signing *)

Lemma map_zip_with_l {A B C D} (f : C -> D) (g : A -> B -> C) (h : A -> D) l k :
  length l = length k -> (forall x y, f (g x y) = h x) -> map f (zip_with g l k) = map h l.
Proof.
  intros L E. revert k L. induction l as [|x l IH]; intros [|y k] L; try discriminate; [done|].
  cbn in *. by rewrite E, IH by lia.
Qed.

Lemma map_zip_with_r {A B C D} (f : C -> D) (g : A -> B -> C) (h : B -> D) l k :
  length l = length k -> (forall x y, f (g x y) = h y) -> map f (zip_with g l k) = map h k.
Proof.
  intros L E. revert k L. induction l as [|x l IH]; intros [|y k] L; try discriminate; [done|].
  cbn in *. by rewrite E, IH by lia.
Qed.

(** The scalars drawn to sign with the rings of the sources. *)
Definition ring_draws (sources : list tx_source_entry) : nat :=
  list_sum (map (fun src => (length (outputs src) * 2)%nat) sources).

Definition all_draws (sources : list tx_source_entry) (ds : list tx_destination_entry) : nat :=
  (length ds * 192 + (length sources - 1 + ring_draws sources))%nat.

Section signing.

Context `{HF : !FastHash} (debug : bool).
Context (PROVE : list Z -> list bytes -> randomness -> result (proof * randomness)).
Context (VERIFY : list proof -> result bool).

(** The signature verifies, whichever its kind. *)
Definition rct_accepted (rv : rctSig) : Prop :=
  (r_type rv = Transaction.RCTTypeSimple
   /\ verRctSemanticsSimple VERIFY [rv] = Some true /\ verRctNonSemanticsSimple rv = Some true)
  \/ (r_type rv = Transaction.RCTTypeFull /\ verRct rv true = Some true /\ verRct rv false = Some true).

(** The decoding function of the kind of the signature. *)
Definition decode_amount (rv : rctSig) (key : bytes) (j : nat) : result (Z * option bytes) :=
  if r_type rv =? Transaction.RCTTypeFull then decodeRct rv key j else decodeRctSimple rv key j.

Definition amounts_decoded (rv : rctSig) (outs : list built_output) (ds : list tx_destination_entry) : Prop :=
  forall j o d, outs !! j = Some o -> ds !! j = Some d ->
    exists m, decode_amount rv (amount_key o) j = ret (dst_amount d, Some m).

Definition rct_output (o : built_output) (d : tx_destination_entry) : output :=
  Out (out_key o) (dst_amount d) (amount_key o).

Context (ins : list built_input) (sources : list tx_source_entry) (outs : list built_output).
Context (ds : list tx_destination_entry) (prefix : Transaction.transaction_prefix).

Hypothesis ins_ok : Forall2 (input_for debug) sources ins.
Hypothesis outs_length : length outs = length ds.
Hypothesis vout_length : length (Transaction.vout prefix) = length outs.
Hypothesis amounts_ok : Forall amount_ok (map dst_amount ds).
Hypothesis balance : zsum (map dst_amount ds) <= zsum (map src_amount sources) < 2 ^ 64.

Let fee : Z := zsum (map src_amount sources) - zsum (map dst_amount ds).

Lemma zsum_pos l : Forall amount_ok l -> 0 <= zsum l.
Proof. induction 1 as [|x l H _ IH]; cbn [zsum]; unfold amount_ok in *; lia. Qed.

Lemma source_amounts : Forall amount_ok (map src_amount sources).
Proof using All.
  apply Forall_fmap. generalize ins_ok. clear. induction 1 as [|src i sources' ins' (_ & _ & S & _) F IH];
    [apply Forall_nil_2|apply Forall_cons_2; [exact (proj1 S)|exact IH]].
Qed.

Lemma fee_ok : amount_ok fee.
Proof using All. pose proof (zsum_pos _ amounts_ok). unfold amount_ok, fee. lia. Qed.

Lemma sums_ok :
  sum64 (map src_amount sources) = zsum (map src_amount sources)
  /\ sum64 (map dst_amount ds) = zsum (map dst_amount ds)
  /\ u64 (zsum (map src_amount sources) - zsum (map dst_amount ds)) = fee.
Proof using All.
  split; [apply sum64_ok; [apply source_amounts|lia]|]. split; [apply sum64_ok; [exact amounts_ok|lia]|].
  apply wrap_small. exact fee_ok.
Qed.

Lemma rct_inputs_spendable : Forall spendable (zip_with rct_input sources ins).
Proof using All.
  generalize ins_ok. clear. induction 1 as [|src i sources' ins' (_ & _ & S & _) F IH];
    [apply Forall_nil_2|apply Forall_cons_2; [exact S|exact IH]].
Qed.

Lemma rct_secrets :
  zip_with (fun i src => Ct (sec (in_ephemeral i)) (src_mask src)) ins sources = map i_sk (zip_with rct_input sources ins).
Proof using All. generalize ins_ok. clear. induction 1 as [|src i sources' ins' _ F IH]; cbn; [done|by rewrite IH]. Qed.

Lemma rct_draws : signing_draws (zip_with rct_input sources ins) = ring_draws sources.
Proof using All.
  unfold signing_draws, ring_draws. generalize ins_ok. clear.
  induction 1 as [|src i sources' ins' _ F IH]; cbn [map zip_with list_sum foldr]; [done|].
  cbn [rct_input i_ring]. rewrite length_map. unfold list_sum in IH. lia.
Qed.

Lemma rct_outputs_ok : Forall (fun o => amount_ok (o_amount o)) (zip_with rct_output outs ds).
Proof using All.
  assert (Forall amount_ok (map o_amount (zip_with rct_output outs ds))) as F
    by (rewrite (map_zip_with_r o_amount rct_output dst_amount) by done; exact amounts_ok).
  exact (proj1 (Forall_fmap o_amount amount_ok (zip_with rct_output outs ds)) F).
Qed.

Lemma sign_simple_ok rng rng' :
  (2 <= length sources)%nat -> Forall scalar rng -> draw (all_draws sources ds) rng = Some rng' ->
  exists rv c, sign_tx debug PROVE VERIFY prefix ins sources outs ds false false rng = ret (Some (rv, c, rng'))
    /\ rct_accepted rv /\ amounts_decoded rv outs ds.
Proof using All.
  intros L2 Hr D. pose proof (Forall2_length _ _ _ ins_ok) as LI. destruct sums_ok as (S1 & S2 & S3).
  set (xs := zip_with rct_input sources ins). set (ys := zip_with rct_output outs ds).
  assert (length xs = length sources) as Lx by (unfold xs; rewrite length_zip_with; lia).
  assert (length ys = length ds) as Ly by (unfold ys; rewrite length_zip_with; lia).
  assert (map i_amount xs = map src_amount sources) as EA by (by apply map_zip_with_l).
  assert (map o_amount ys = map dst_amount ds) as EO by (by apply map_zip_with_r).
  unfold all_draws in D. rewrite <- rct_draws, <- Ly, <- Lx in D. fold xs in D.
  destruct (simple_signed debug PROVE VERIFY (TxHash.get_transaction_prefix_hash prefix) xs ys fee rng rng')
    as (rv & masks & cs & EG & V1 & V2 & DE); try assumption.
  { intros E. rewrite E in Lx. cbn in Lx. lia. }
  { apply rct_inputs_spendable. }
  { apply rct_outputs_ok. }
  { apply fee_ok. }
  { unfold balanced. rewrite EA, EO. unfold fee. lia. }
  rewrite EA, EO in EG. unfold xs, ys in EG. rewrite <- rct_secrets in EG.
  rewrite (map_zip_with_l i_ring rct_input (fun src => map snd (outputs src))) in EG by done.
  rewrite (map_zip_with_l i_index rct_input real_output) in EG by done.
  rewrite (map_zip_with_l o_dest rct_output out_key) in EG by done.
  rewrite (map_zip_with_l o_key rct_output amount_key) in EG by done.
  destruct (genRctSimple_shape _ _ _ _ _ _ _ _ _ _ _ _ _ _ _ _ _ EG) as (T & _ & _ & _ & LM & _).
  exists rv, cs. split.
  - unfold sign_tx. destruct sources as [|src0 srcs]; [cbn in L2; lia|]. cbn [head]. rgo.
    rewrite (proj2 (Nat.ltb_lt 1 _)) by lia. cbn [orb]. rewrite !check_holds by done. do 2 tgo.
    rewrite S1, S2, S3, EG. rgo. rewrite vout_length, LM, length_map, Nat.eqb_refl. rewrite check_holds by done. by tgo.
  - split; [by left|]. intros j o d Ho Hd. destruct (DE j (rct_output o d)) as (m & _ & Em).
    { unfold ys. rewrite lookup_zip_with, Ho, Hd. done. }
    exists m. unfold decode_amount. rewrite T. exact Em.
Qed.

Lemma full_ring_single src : full_ring (length (outputs src)) [src] = Some (map (fun o => [o.2]) (outputs src)).
Proof.
  unfold full_ring. apply mapM_Some. cbn [mapM]. generalize (outputs src). intros l.
  apply Forall2_same_length_lookup. split; [by rewrite length_seq, length_map|]. intros i j y Hj Hy.
  apply lookup_seq in Hj as [-> _]. rewrite list_lookup_fmap in Hy. apply fmap_Some in Hy as (o & Ho & ->).
  cbn [Nat.add]. rewrite Ho. done.
Qed.

Lemma sign_full_ok rng rng' :
  length sources = 1%nat -> Forall scalar rng -> draw (all_draws sources ds) rng = Some rng' ->
  exists rv c, sign_tx debug PROVE VERIFY prefix ins sources outs ds false false rng = ret (Some (rv, c, rng'))
    /\ rct_accepted rv /\ amounts_decoded rv outs ds.
Proof using All.
  intros L1 Hr D. destruct sums_ok as (S1 & S2 & S3). pose proof rct_outputs_ok as RO. pose proof fee_ok as FO.
  destruct sources as [|src [|]] eqn:ES; try discriminate.
  apply Forall2_cons_inv_l in ins_ok as (i & ins' & (_ & _ & Sp & _) & F & EI). apply Forall2_nil_inv_l in F. subst ins'.
  set (ys := zip_with rct_output outs ds).
  assert (length ys = length ds) as Ly by (unfold ys; rewrite length_zip_with; lia).
  assert (map o_amount ys = map dst_amount ds) as EO by (by apply map_zip_with_r).
  destruct Sp as (Ha & L2 & K & pk & Hi & SO). cbn [rct_input i_amount i_ring i_index i_sk] in *. rewrite length_map in L2.
  rewrite list_lookup_fmap in Hi. apply fmap_Some in Hi as (o & Ho & ->).
  set (rings := map (fun o => [o.2]) (outputs src)).
  set (sk := Ct (sec (in_ephemeral i)) (src_mask src)) in *.
  set (amounts := if zsum (map dst_amount ds) <? zsum [src_amount src] then map dst_amount ds ++ [fee] else map dst_amount ds).
  destruct (full_signature debug (TxHash.get_transaction_prefix_hash prefix) rings [(src_amount src, sk)] [o.2] ys fee amounts
    (real_output src) rng rng') as (rv & masks & c & EG & V1 & V2 & DE).
  - unfold rings. rewrite length_map. exact L2.
  - done.
  - unfold rings. apply Forall_fmap. rewrite Forall_fmap in K. eapply Forall_impl; [exact K|].
    intros x Kx. split; [by apply Forall_singleton|done].
  - unfold rings. rewrite list_lookup_fmap, Ho. done.
  - apply Forall2_cons_2; [exact (conj Ha SO)|constructor].
  - exact RO.
  - exact FO.
  - rewrite EO. unfold fee. cbn [map zsum fst]. lia.
  - unfold amounts, with_fee. rewrite EO. destruct (Z.ltb_spec (zsum (map dst_amount ds)) (zsum [src_amount src])); [by left|].
    right. split; [|done]. unfold fee. cbn [map]. cbn [map] in balance. lia.
  - exact Hr.
  - unfold all_draws, ring_draws in D. cbn [length map list_sum foldr] in D. unfold rings. rewrite length_map, Ly. cbn [length].
    rewrite Nat.add_0_r in D. exact D.
  - cbn [map snd fst] in EG. unfold ys in EG. rewrite (map_zip_with_l o_dest rct_output out_key) in EG by done.
    rewrite (map_zip_with_l o_key rct_output amount_key) in EG by done.
    destruct (genRct_shape _ _ _ _ _ _ _ _ _ _ _ _ _ EG) as (T & _ & _ & LM & _).
    exists rv, [c]. split.
    + unfold sign_tx. cbn [head]. rgo. cbn [length Nat.ltb Nat.leb orb forallb drop]. rewrite Nat.eqb_refl. cbn [andb].
      rewrite !check_holds by done. do 2 tgo. rewrite S1, S2, S3. rewrite full_ring_single. rgo. rewrite EI. cbn [map zip_with].
      fold sk rings. change (zsum (map src_amount [src])) with (zsum [src_amount src]). fold amounts. rewrite EG. rgo. rgo.
      rewrite vout_length, LM, length_map, Nat.eqb_refl, check_holds by done. by tgo.
    + split; [by right|]. intros j o' d Ho' Hd. destruct (DE j (rct_output o' d)) as (m & _ & Em).
      { unfold ys. rewrite lookup_zip_with, Ho', Hd. done. }
      exists m. unfold decode_amount. rewrite T. exact Em.
Qed.

(** One or more sources. *)
Lemma sign_tx_ok rng rng' :
  (1 <= length sources)%nat -> Forall scalar rng -> draw (all_draws sources ds) rng = Some rng' ->
  exists rv c, sign_tx debug PROVE VERIFY prefix ins sources outs ds false false rng = ret (Some (rv, c, rng'))
    /\ rct_accepted rv /\ amounts_decoded rv outs ds.
Proof using All.
  intros L. destruct (decide (length sources = 1%nat)); [by apply sign_full_ok|apply sign_simple_ok; lia].
Qed.

End signing.


(** ** The kinds of the destinations *)

(** An address is marked as a subaddress everywhere or nowhere. *)
Definition flags_agree (ds : list tx_destination_entry) : Prop :=
  forall d d', d ∈ ds -> d' ∈ ds -> dst_addr d = dst_addr d' -> dst_is_subaddress d = dst_is_subaddress d'.

Section classify.

Context (change : option account_public_address).

Lemma classify_loop_ok ds : forall seen ns nb single,
  flags_agree ds ->
  let r := classify_loop change ds seen ns nb single in
  (ns <= r.1.1)%nat /\ (nb <= r.1.2)%nat
  /\ (r.1.2 = nb -> forall d, d ∈ ds -> is_change change d = false -> dst_addr d ∉ seen -> dst_is_subaddress d = false)
  /\ (r.1.1 = ns -> r.1.2 = nb -> r.2 = single
        /\ forall d, d ∈ ds -> is_change change d = false -> dst_addr d ∈ seen)
  /\ (r.1.1 = ns -> r.1.2 = S nb -> exists d0, d0 ∈ ds /\ r.2 = Some (dst_addr d0)
        /\ forall d, d ∈ ds -> is_change change d = false -> dst_addr d ∉ seen ->
             dst_addr d = dst_addr d0 /\ dst_is_subaddress d = true).
Proof.
  induction ds as [|d ds IH]; intros seen ns nb single A; cbn [classify_loop].
  { cbn [fst snd]. split; [lia|]. split; [lia|]. split; [intros _ d E; by apply not_elem_of_nil in E|].
    split; [|intros; lia]. intros _ _. split; [done|]. intros d E. by apply not_elem_of_nil in E. }
  assert (flags_agree ds) as A' by (intros x y Hx Hy; apply A; by right).
  destruct (is_change change d || bool_decide (dst_addr d ∈ seen)) eqn:Sk.
  - destruct (IH seen ns nb single A') as (L1 & L2 & P1 & P2 & P3).
    assert (is_change change d = false -> dst_addr d ∈ seen) as Sd.
    { intros C. rewrite C in Sk. by apply bool_decide_eq_true_1 in Sk. }
    split_and!; [done|done| | |].
    + intros E x [->|Hx]%elem_of_cons C N; [by destruct N; apply Sd|by apply P1].
    + intros E1 E2. destruct (P2 E1 E2) as [Q1 Q2]. split; [done|].
      intros x [->|Hx]%elem_of_cons C; [by apply Sd|by apply Q2].
    + intros E1 E2. destruct (P3 E1 E2) as (d0 & H0 & Q1 & Q2). exists d0. split; [by right|]. split; [done|].
      intros x [->|Hx]%elem_of_cons C N; [by destruct N; apply Sd|by apply Q2].
  - apply orb_false_iff in Sk as [C Ns]. apply bool_decide_eq_false_1 in Ns.
    destruct (dst_is_subaddress d) eqn:Sd.
    + destruct (IH (dst_addr d :: seen) ns (nb + 1)%nat (Some (dst_addr d)) A') as (L1 & L2 & P1 & P2 & P3).
      split_and!; [done|lia|intros; lia|intros; lia|]. intros E1 E2.
      destruct (P2 E1 ltac:(lia)) as [Q1 Q2]. exists d. split; [by left|]. split; [done|].
      intros x [->|Hx]%elem_of_cons C' N; [done|]. specialize (Q2 x Hx C').
      apply elem_of_cons in Q2 as [Ea|]; [|done]. split; [done|]. rewrite <- Sd. apply A; [by right|by left|done].
    + destruct (IH (dst_addr d :: seen) (ns + 1)%nat nb single A') as (L1 & L2 & P1 & P2 & P3).
      split_and!; [lia|done| |intros; lia|intros; lia]. intros E x [->|Hx]%elem_of_cons C' N; [done|].
      destruct (decide (dst_addr x = dst_addr d)) as [Ea|Na].
      * rewrite <- Sd. apply A; [by right|by left|done].
      * apply (P1 E x Hx C'). by rewrite not_elem_of_cons.
Qed.

(** The three ways to choose the key of the transaction. *)
Lemma classify_cases ds :
  flags_agree ds ->
  let '(ns, nb, single) := classify_addresses ds change in
  (need_additional ns nb = true /\ Nat.eqb ns 0 && Nat.eqb nb 1 = false)
  \/ (need_additional ns nb = false /\ Nat.eqb ns 0 && Nat.eqb nb 1 = true
      /\ exists d0, d0 ∈ ds /\ single = Some (dst_addr d0)
         /\ forall d, d ∈ ds -> is_change change d = false -> dst_addr d = dst_addr d0 /\ dst_is_subaddress d = true)
  \/ (need_additional ns nb = false /\ Nat.eqb ns 0 && Nat.eqb nb 1 = false
      /\ forall d, d ∈ ds -> is_change change d = false -> dst_is_subaddress d = false).
Proof.
  intros A. unfold classify_addresses.
  destruct (classify_loop_ok ds [] 0 0 None A) as (_ & _ & P1 & _ & P3).
  destruct (classify_loop change ds [] 0 0 None) as [[ns nb] single]. cbn [fst snd] in P1, P3.
  unfold need_additional. destruct nb as [|[|nb]].
  - right. right. rewrite andb_false_r. split; [done|]. split; [done|]. intros d Hd C. apply P1; [done|done|done|]. by apply not_elem_of_nil.
  - destruct ns as [|ns].
    + right. left. split; [done|]. split; [done|]. destruct (P3 eq_refl eq_refl) as (d0 & H0 & E & H). exists d0.
      split; [done|]. split; [done|]. intros d Hd C. apply H; [done|done|]. by apply not_elem_of_nil.
    + left. done.
  - left. rewrite andb_false_r. by rewrite orb_true_r.
Qed.

End classify.

(** ** What the owner of an output finds *)

Section receiving.

Context `{HF : !FastHash} (debug : bool).

(** The output [j] of the transaction, its amount and its secret key, as the
    owner of subaddress [index] of account [k] finds them. *)
Definition received (tx : built) (k : account_keys) (subs : subaddress_map) (index : subaddress_index) (j : nat) (amount : Z)
    : Prop :=
  let extra := Transaction.extra (b_prefix tx) in
  let R := TxExtra.get_tx_pub_key_from_extra extra 0 in
  let additional := TxExtra.get_additional_tx_pub_keys_from_extra extra in
  exists key d0 ders der ak m p ki,
    Transaction.vout (b_prefix tx) !! j
      = Some {| Transaction.amount := 0; Transaction.target := Transaction.txout_to_key key |}
    /\ generate_key_derivation debug R (m_view_secret_key k) = Some (Some d0)
    /\ all_derivations debug (m_view_secret_key k) additional = ret (Some ders)
    /\ is_out_to_acc_precomp debug subs key d0 ders (Z.of_nat j) = ret (Some (index, der))
    /\ derivation_to_scalar debug der (Z.of_nat j) = Some ak
    /\ decode_amount (b_rct tx) ak j = ret (amount, Some m)
    /\ generate_key_image_helper debug k subs key R additional (Z.of_nat j) = ret (Some (p, ki))
    /\ spends debug key p ki.

(** The main key of the transaction finds the output by accident. *)
Definition mistaken (tx : built) (k : account_keys) (subs : subaddress_map) (j : nat) : Prop :=
  exists key d0 info,
    Transaction.vout (b_prefix tx) !! j
      = Some {| Transaction.amount := 0; Transaction.target := Transaction.txout_to_key key |}
    /\ TxExtra.get_additional_tx_pub_keys_from_extra (Transaction.extra (b_prefix tx)) <> []
    /\ generate_key_derivation debug (TxExtra.get_tx_pub_key_from_extra (Transaction.extra (b_prefix tx)) 0)
         (m_view_secret_key k) = Some (Some d0)
    /\ find_subaddress debug subs key d0 (Z.of_nat j) = ret (Some info).

(** The owner of a destination. *)
Definition owner (change : option account_public_address) (keys k : account_keys) (subs : subaddress_map)
    (index : subaddress_index) (d : tx_destination_entry) : Prop :=
  consistent k /\ m_multisig_keys k = [] /\ m_spend_secret_key k <> null_skey
  /\ get_subaddress k index = ret (dst_addr d) /\ dst_is_subaddress d = negb (is_zero index)
  /\ subs !! m_spend_public_key (dst_addr d) = Some index
  /\ (is_change change d = true -> m_view_secret_key k = m_view_secret_key keys).

Lemma all_derivations_ok a l :
  valid a -> Forall is_key l -> exists ds, all_derivations debug a l = ret (Some ds) /\ length ds = length l.
Proof.
  intros Ha. induction 1 as [|key l K F (ds & E & L)]; [by exists []|].
  destruct (is_key_point _ K) as (P & HP & ->). cbn [all_derivations]. rewrite derivation_ok by done. rgo. rewrite E. rgo.
  eexists. split; [reflexivity|]. cbn. by rewrite L.
Qed.

(** Finding an output from its derivation, by the main key or by the additional
    key of the output. *)
Lemma found_by k index subs key der j R additional d0 ders :
  consistent k -> m_multisig_keys k = [] -> m_spend_secret_key k <> null_skey -> Z.of_nat j < 2 ^ 64 ->
  subs !! encode (spend_point_of k index) = Some index ->
  key = encode (output_point k index der (Z.of_nat j)) ->
  generate_key_derivation debug R (m_view_secret_key k) = Some (Some d0) ->
  all_derivations debug (m_view_secret_key k) additional = ret (Some ders) ->
  d0 = der \/ (ders !! j = Some der /\ find_subaddress debug subs key d0 (Z.of_nat j) = ret None) ->
  exists p ki, is_out_to_acc_precomp debug subs key d0 ders (Z.of_nat j) = ret (Some (index, der))
    /\ generate_key_image_helper debug k subs key R additional (Z.of_nat j) = ret (Some (p, ki)) /\ spends debug key p ki.
Proof.
  intros C M N Hj L -> E0 Ed Lead.
  destruct (helper_precomp_ok debug k index der (Z.of_nat j) C M N ltac:(lia)) as (ki & EH & EI).
  pose proof (find_subaddress_ok debug k index subs der (Z.of_nat j) ltac:(lia) L) as EF.
  assert (is_out_to_acc_precomp debug subs (encode (output_point k index der (Z.of_nat j))) d0 ders (Z.of_nat j)
    = ret (Some (index, der))) as EP.
  { unfold is_out_to_acc_precomp. destruct Lead as [->|[Lj F0]].
    - rewrite EF. by rgo.
    - rewrite F0. rgo. destruct ders as [|d1 ders]; [done|]. rewrite Nat2Z.id, Lj. exact EF. }
  exists (Pair (encode (output_point k index der (Z.of_nat j))) (output_secret k index der (Z.of_nat j))), ki. split; [exact EP|].
  split; [|exact (conj eq_refl (conj (residue_valid _) (conj (output_secret_ok k index der _) EI)))].
  unfold generate_key_image_helper. rewrite E0. rgo. rewrite Ed. rgo. rewrite EP. rgo. exact EH.
Qed.

Lemma find_subaddress_total subs P d i :
  on_curve P -> 0 <= i < 2 ^ 64 -> exists r, find_subaddress debug subs (encode P) d i = ret r.
Proof.
  intros HP Hi. unfold find_subaddress. rewrite derive_subaddress_ok by done. rgo. rgo.
  destruct (subs !! _); by eexists.
Qed.

(** The key of the transaction suits a destination that is no change. *)
Definition suits (R tx_key : bytes) (d : tx_destination_entry) : Prop :=
  tx_public_key (dst_addr d) (dst_is_subaddress d) tx_key = ret R.

Lemma output_found change keys tx_key R s d o der k index subs j additional ders :
  owner change keys k subs index d -> valid tx_key -> (forall x, s = Some x -> valid x) -> is_key R -> Z.of_nat j < 2 ^ 64 ->
  output_for debug keys change R tx_key (Z.of_nat j) s d o der ->
  all_derivations debug (m_view_secret_key k) additional = ret (Some ders) ->
  (is_change change d = false -> s = None \/ dst_is_subaddress d = false -> suits R tx_key d) ->
  (forall a, out_additional o = Some a -> additional !! j = Some a) ->
  exists d0, generate_key_derivation debug R (m_view_secret_key k) = Some (Some d0)
    /\ ((exists p ki, is_out_to_acc_precomp debug subs (out_key o) d0 ders (Z.of_nat j) = ret (Some (index, der))
          /\ generate_key_image_helper debug k subs (out_key o) R additional (Z.of_nat j) = ret (Some (p, ki))
          /\ spends debug (out_key o) p ki)
        \/ exists info, s <> None /\ find_subaddress debug subs (out_key o) d0 (Z.of_nat j) = ret (Some info)).
Proof.
  intros (C & M & N & EA & Fl & L & Ch) Vt Vs KR Hj (Ed & Eo & _ & Ad & _) EL Su Ho.
  rewrite (get_subaddress_ok k index C) in EA. apply ret_inj in EA. rewrite <- EA in *. cbn [m_spend_public_key m_view_public_key] in *.
  rewrite (sender_output debug k index der (Z.of_nat j) ltac:(lia)) in Eo. injection Eo as Eo. symmetry in Eo.
  destruct (is_key_point _ KR) as (P & HP & EP).
  assert (exists d0, generate_key_derivation debug R (m_view_secret_key k) = Some (Some d0)) as [d0 E0].
  { rewrite EP, derivation_ok by (exact HP || apply C). by eexists. }
  exists d0. split; [exact E0|].
  pose proof (found_by k index subs (out_key o) der j R additional d0 ders C M N Hj L Eo E0 EL) as FB.
  unfold sender_derives in Ed. rewrite <- EA in Ed. cbn [m_view_public_key] in Ed. destruct (is_change change d) eqn:CE.
  - left. apply FB. left. rewrite <- (Ch eq_refl), E0 in Ed. congruence.
  - specialize (Su eq_refl). unfold suits in Su. rewrite <- EA, Fl in Su.
    assert (forall r, valid r -> tx_public_key (Addr (encode (spend_point_of k index)) (encode (view_point_of k index)))
        (negb (is_zero index)) r = ret R -> d0 = encode (shared_point k index r)) as Main.
    { intros r Hr E. rewrite tx_public_key_ok in E by exact Hr. apply ret_inj in E. rewrite <- E in E0.
      rewrite receiver_derivation in E0 by apply C. congruence. }
    destruct s as [s|].
    + rewrite Fl in Ed. destruct (is_zero index) eqn:Z; cbn [negb] in *.
      * left. apply FB. left. rewrite sender_derivation in Ed by exact Vt. rewrite (Main tx_key Vt (Su ltac:(by right))). congruence.
      * rewrite sender_derivation in Ed by by apply Vs. assert (der = encode (shared_point k index s)) as -> by congruence.
        destruct Ad as (a & Ea & _ & Ra). rewrite Fl, <- EA in Ra. cbn [negb] in Ra.
        pose proof (tx_public_key_ok k index s (Vs s eq_refl)) as Ek. rewrite Z in Ek. cbn [negb] in Ek. rewrite Ek in Ra.
        apply ret_inj in Ra. subst a.
        destruct (all_derivations_lookup debug _ _ _ _ _ EL (Ho _ Ea)) as (d1 & E1 & L1).
        rewrite receiver_derivation in E1 by apply C. injection E1 as <-.
        destruct (find_subaddress_total subs (output_point k index (encode (shared_point k index s)) (Z.of_nat j)) d0
          (Z.of_nat j)) as [[info|] EF]; [apply output_point_curve|lia|..]; rewrite <- Eo in EF; [right; by exists info|].
        left. apply FB. by right.
    + left. apply FB. left. rewrite sender_derivation in Ed by exact Vt. rewrite (Main tx_key Vt (Su ltac:(by left))). congruence.
Qed.

End receiving.


(** ** Transactions that can be built *)

Lemma zsum_permutation l k : l ≡ₚ k -> zsum l = zsum k.
Proof. induction 1; cbn [zsum]; lia. Qed.

Lemma draws_permutation l k : l ≡ₚ k -> ring_draws l = ring_draws k.
Proof. unfold ring_draws. induction 1; cbn [map list_sum foldr] in *; unfold list_sum in *; lia. Qed.

Section building.

Context `{HF : !FastHash} (debug : bool).
Context (PROVE : list Z -> list bytes -> randomness -> result (proof * randomness)).
Context (VERIFY : list proof -> result bool).

(** What construct_tx_with_tx_key is given. *)
Record request := Req {
  q_keys : account_keys; q_subs : subaddress_map; q_sources : list tx_source_entry;
  q_destinations : list tx_destination_entry; q_change : option account_public_address;
  q_pid : option TxExtra.uniform_payment_id; q_unlock : Z; q_tx_key : bytes; q_additional : list bytes
}.

(** The call with [bulletproof = false], so with a Borromean proof for each
    output, and [msout = nullptr], so without a multisig account. *)
Definition construct (q : request) (rng : randomness) :=
  construct_tx_with_tx_key debug PROVE VERIFY (q_keys q) (q_subs q) (q_sources q) (q_destinations q) (q_change q) (q_pid q)
    (q_unlock q) (q_tx_key q) (q_additional q) false false rng.

Definition view_key_pub (q : request) : bytes :=
  get_destination_view_key_pub (q_destinations q) (q_change q) (match q_pid q with None => true | Some _ => false end).

(** As many additional keys as the kinds of the destinations ask for. *)
Definition additional_keys_ok (q : request) : Prop :=
  let '(ns, nb, _) := classify_addresses (q_destinations q) (q_change q) in
  if need_additional ns nb then Forall valid (q_additional q) /\ length (q_additional q) = length (q_destinations q)
  else q_additional q = [].

Record ready (q : request) : Prop := {
  ready_some : (1 <= length (q_sources q))%nat;
  ready_sources : Forall (own_source debug (q_keys q) (q_subs q)) (q_sources q);
  ready_dests : Forall good_dest (q_destinations q);
  ready_length : Z.of_nat (length (q_destinations q)) < 2 ^ 64;
  ready_flags : flags_agree (q_destinations q);
  ready_change : forall c, q_change q = Some c -> is_key (m_view_public_key c);
  ready_unlock : q_unlock q <= CRYPTONOTE_MAX_BLOCK_NUMBER;
  ready_tx_key : valid (q_tx_key q);
  ready_view : valid (m_view_secret_key (q_keys q));
  ready_additional : additional_keys_ok q;
  ready_pid : exists p, choose_pid (q_pid q) = Some p /\ TxExtra.ok_pid p /\ is_bytes (TxExtra.payment_id p);
  ready_view_key : view_key_pub q <> TxExtra.null_pkey;
  ready_visible : pid_visible debug (q_destinations q) (q_change q) (q_tx_key q) (q_pid q);
  ready_balance : zsum (map dst_amount (q_destinations q)) <= zsum (map src_amount (q_sources q)) < 2 ^ 64
}.

(** The keys of the transaction: its public key suits every destination that is
    no change and needs no additional key. *)
Lemma tx_keys_ok q :
  ready q ->
  exists R need, 
    (let '(ns, nb, single) := classify_addresses (q_destinations q) (q_change q) in
     need = need_additional ns nb
     /\ (if Nat.eqb ns 0 && Nat.eqb nb 1 then
           let* single := lift single in scalarmultKey (m_spend_public_key single) (q_tx_key q)
         else scalarmultBase (q_tx_key q)) = ret R)
    /\ is_key R
    /\ (if need : bool then Forall valid (q_additional q) /\ length (q_additional q) = length (q_destinations q)
        else q_additional q = [])
    /\ forall d, d ∈ q_destinations q -> is_change (q_change q) d = false -> need = false \/ dst_is_subaddress d = false ->
         suits R (q_tx_key q) d.
Proof.
  intros Q. pose proof (classify_cases (q_change q) _ (ready_flags q Q)) as CC. pose proof (ready_additional q Q) as RA.
  unfold additional_keys_ok in RA. destruct (classify_addresses (q_destinations q) (q_change q)) as [[ns nb] single].
  pose proof (scalarmultBase_ok (q_tx_key q) (proj1 (ready_tx_key q Q))) as EB.
  destruct CC as [(Nd & Sg)|[(Nd & Sg & d0 & H0 & -> & Hd)|(Nd & Sg & Hd)]]; rewrite Nd in RA; rewrite Sg.
  - eexists _, true. split; [split; [by rewrite Nd|exact EB]|]. split; [apply encode_is_key, zmul_curve, B_curve|].
    split; [exact RA|]. intros d _ _ [|Fd]; [done|]. unfold suits, tx_public_key. by rewrite Fd.
  - destruct (proj1 (Forall_forall _ _) (ready_dests q Q) d0 H0) as (_ & KS & _).
    destruct (is_key_point _ KS) as (P & HP & EP).
    pose proof (scalarmultKey_ok P (q_tx_key q) HP (valid_small _ (ready_tx_key q Q))) as EK. rewrite <- EP in EK.
    eexists _, false. split; [split; [by rewrite Nd|rgo; exact EK]|]. split; [apply encode_is_key, zmul_curve, HP|].
    split; [exact RA|]. intros d Hi C _. destruct (Hd d Hi C) as [Ea Fd]. unfold suits, tx_public_key. by rewrite Fd, Ea.
  - eexists _, false. split; [split; [by rewrite Nd|exact EB]|]. split; [apply encode_is_key, zmul_curve, B_curve|].
    split; [exact RA|]. intros d Hi C _. unfold suits, tx_public_key. by rewrite (Hd d Hi C).
Qed.

(** The additional keys of the outputs. *)
Lemma additional_lookup (need : bool) keys change R tx_key adds ds (outs : list built_output) :
  length outs = length ds -> (if need then length adds = length ds else adds = []) ->
  (forall j d s, ds !! j = Some d -> (if need then map Some adds else map (fun _ => None) ds) !! j = Some s ->
     exists o der, outs !! j = Some o /\ output_for debug keys change R tx_key (0 + Z.of_nat j) s d o der) ->
  length (omap out_additional outs) = length adds
  /\ Forall is_key (omap out_additional outs)
  /\ forall j o a, outs !! j = Some o -> out_additional o = Some a -> omap out_additional outs !! j = Some a.
Proof.
  intros L LA H.
  assert (forall j o, outs !! j = Some o -> if need then exists a, out_additional o = Some a /\ is_key a else out_additional o = None) as HA.
  { intros j o Ho. destruct (lookup_lt_is_Some_2 ds j) as [d Hd]; [rewrite <- L; by apply lookup_lt_Some in Ho|].
    pose proof (lookup_lt_Some _ _ _ Hd) as Hj. destruct need.
    - destruct (lookup_lt_is_Some_2 adds j ltac:(lia)) as [s Hs].
      destruct (H j d (Some s) Hd) as (o' & der & Ho' & _ & _ & _ & (a & Ea & Ka & _) & _); [by rewrite list_lookup_fmap, Hs|].
      rewrite Ho in Ho'. injection Ho' as <-. by exists a.
    - destruct (H j d None Hd) as (o' & der & Ho' & _ & _ & _ & Ea & _); [by rewrite list_lookup_fmap, Hd|].
      rewrite Ho in Ho'. by injection Ho' as <-. }
  clear H. destruct need.
  - rewrite LA, <- L. clear -HA. induction outs as [|o outs IH]; [done|].
    destruct (HA 0%nat o eq_refl) as (a & Ea & Ka).
    destruct IH as (I1 & I2 & I3); [intros j o' Ho'; exact (HA (S j) o' Ho')|].
    cbn [omap list_omap]. rewrite Ea. split; [cbn; by rewrite I1|]. split; [by constructor|].
    intros [|j] o' a' Ho' Ea'; cbn in Ho'; [injection Ho' as <-; cbn; congruence|]. exact (I3 j o' a' Ho' Ea').
  - assert (omap out_additional outs = []) as ->.
    { clear -HA. induction outs as [|o outs IH]; [done|]. cbn [omap list_omap]. rewrite (HA 0%nat o eq_refl). apply IH.
      intros j o' Ho'. exact (HA (S j) o' Ho'). }
    subst adds. split; [done|]. split; [constructor|]. intros j o a Ho Ea. by rewrite (HA j o Ho) in Ea.
Qed.

(** The prefix of the transaction. *)
Definition prefix_of (q : request) sources ins (outs : list built_output) (extra : bytes) : Transaction.transaction_prefix :=
  {| Transaction.version := CURRENT_TRANSACTION_VERSION; Transaction.unlock_time := q_unlock q;
     Transaction.vin := zip_with txin_of sources ins;
     Transaction.vout := map (fun o => {| Transaction.amount := 0; Transaction.target := Transaction.txout_to_key (out_key o) |}) outs;
     Transaction.extra := extra |}.

(** The outputs are made with an additional key each, or with none. *)
Definition secs_of (need : bool) (q : request) : list (option bytes) :=
  if need then map Some (q_additional q) else map (fun _ => None) (q_destinations q).

(** What the function returns, from what its parts return. *)
Lemma construct_eq q rng ins0 ins sources' R (need : bool) outs extra rv c rng' :
  ready q ->
  fill_inputs debug (q_keys q) (q_subs q) false (q_sources q) 0 = ret (Some (ins0, sum64 (map src_amount (q_sources q)))) ->
  sort_inputs ins0 (q_sources q) = ret (ins, sources') ->
  (let '(ns, nb, single) := classify_addresses (q_destinations q) (q_change q) in
     need = need_additional ns nb
     /\ (if Nat.eqb ns 0 && Nat.eqb nb 1 then
           let* single := lift single in scalarmultKey (m_spend_public_key single) (q_tx_key q)
         else scalarmultBase (q_tx_key q)) = ret R) ->
  (if need then length (q_additional q) = length (q_destinations q) else True) ->
  fill_outputs debug (q_keys q) (q_change q) R (q_tx_key q) (secs_of need q) 0 (q_destinations q) 0
    = ret (Some (outs, sum64 (map dst_amount (q_destinations q)))) ->
  length (omap out_additional outs) = length (q_additional q) ->
  make_extra debug R (if need then Some (omap out_additional outs) else None) (q_tx_key q) (q_destinations q) (q_change q) (q_pid q)
    = ret (Some extra) ->
  sum64 (map src_amount (q_sources q)) = zsum (map src_amount (q_sources q)) ->
  sum64 (map dst_amount (q_destinations q)) = zsum (map dst_amount (q_destinations q)) ->
  sign_tx debug PROVE VERIFY (prefix_of q sources' ins outs extra) ins sources' outs (q_destinations q) false false rng
    = ret (Some (rv, c, rng')) ->
  construct q rng = ret (Some (Built (prefix_of q sources' ins outs extra) rv, sources', c, rng')).
Proof.
  intros Q EI ES HC HL EO LA EE S1 S2 EG. unfold construct, construct_tx_with_tx_key.
  rewrite (proj2 (Nat.eqb_neq (length (q_sources q)) 0)) by (pose proof (ready_some q Q); lia).
  cbn [negb andb]. rewrite check_holds by done. tgo. rewrite (check_holds _ (proj2 (Z.leb_le _ _) (ready_unlock q Q))). tgo.
  tgo. rewrite EI. tgo. rewrite ES. rgo.
  destruct (classify_addresses (q_destinations q) (q_change q)) as [[ns nb] single]. destruct HC as [-> ER]. rewrite ER. rgo.
  cbv zeta. rewrite check_holds by (destruct (need_additional ns nb); [by rewrite HL, Nat.eqb_refl|done]). tgo.
  change (if need_additional ns nb then map Some (q_additional q) else _) with (secs_of (need_additional ns nb) q).
  rewrite EO. tgo. rewrite LA, (check_holds _ (Nat.eqb_refl _)). tgo. rewrite EE. tgo.
  rewrite S1, S2, (check_holds _ (proj2 (Z.leb_le _ _) (proj1 (ready_balance q Q)))). tgo. unfold prefix_of in EG. rewrite EG. by tgo.
Qed.

Lemma secs_ok (need : bool) q :
  (if need then Forall valid (q_additional q) /\ length (q_additional q) = length (q_destinations q) else q_additional q = []) ->
  length (secs_of need q) = length (q_destinations q) /\ Forall (fun s => forall k, s = Some k -> valid k) (secs_of need q).
Proof.
  intros HA. unfold secs_of. destruct need; rewrite length_map; (split; [try apply HA; done|]); apply Forall_fmap.
  - eapply Forall_impl; [apply HA|]. intros x Vx k [= <-]. exact Vx.
  - apply Forall_true. by intros x k.
Qed.

(** The sums do not wrap. *)
Lemma ready_amounts q :
  ready q -> Forall amount_ok (map dst_amount (q_destinations q))
  /\ sum64 (map src_amount (q_sources q)) = zsum (map src_amount (q_sources q))
  /\ sum64 (map dst_amount (q_destinations q)) = zsum (map dst_amount (q_destinations q)).
Proof.
  intros Q. pose proof (ready_balance q Q) as Bal.
  assert (Forall amount_ok (map src_amount (q_sources q))) as SA.
  { apply Forall_fmap. eapply Forall_impl; [apply Q|]. intros x Hx. exact (proj1 Hx). }
  assert (Forall amount_ok (map dst_amount (q_destinations q))) as DA.
  { apply Forall_fmap. eapply Forall_impl; [apply Q|]. intros x Hx. exact (proj1 Hx). }
  split; [done|]. split; apply sum64_ok; (done || lia).
Qed.

(** The function succeeds; the parts of what it returns. *)
Lemma construct_ok q rng rng' :
  ready q -> Forall scalar rng -> draw (all_draws (q_sources q) (q_destinations q)) rng = Some rng' ->
  exists tx sources' c ins outs R (need : bool) extra pid',
    construct q rng = ret (Some (tx, sources', c, rng'))
    /\ sources' ≡ₚ q_sources q /\ Forall2 (input_for debug) sources' ins /\ images_sorted ins
    /\ b_prefix tx = prefix_of q sources' ins outs extra
    /\ sign_tx debug PROVE VERIFY (b_prefix tx) ins sources' outs (q_destinations q) false false rng = ret (Some (b_rct tx, c, rng'))
    /\ rct_accepted VERIFY (b_rct tx) /\ amounts_decoded (b_rct tx) outs (q_destinations q)
    /\ length outs = length (q_destinations q)
    /\ TxExtra.parse_tx_extra extra
       = (true, map TxExtra.op_field (extra_ops R (if need then Some (omap out_additional outs) else None) pid'))
    /\ is_key R /\ Forall is_key (omap out_additional outs)
    /\ (forall j o a, outs !! j = Some o -> out_additional o = Some a -> omap out_additional outs !! j = Some a)
    /\ length (omap out_additional outs) = length (q_additional q) /\ (need = false -> omap out_additional outs = [])
    /\ (need = true -> length (omap out_additional outs) = length outs)
    /\ (forall d, d ∈ q_destinations q -> is_change (q_change q) d = false -> need = false \/ dst_is_subaddress d = false ->
          suits R (q_tx_key q) d)
    /\ forall j d, q_destinations q !! j = Some d -> exists s o der, outs !! j = Some o
         /\ (forall k, s = Some k -> valid k) /\ (s = None <-> need = false)
         /\ output_for debug (q_keys q) (q_change q) R (q_tx_key q) (Z.of_nat j) s d o der.
Proof.
  intros Q Hr D. destruct (tx_keys_ok q Q) as (R & need & HC & KR & HA & HS).
  destruct (fill_inputs_ok debug (q_keys q) (q_subs q) (q_sources q) 0 (ready_sources q Q)) as (ins0 & EI & FI).
  destruct (sort_inputs_ok ins0 (q_sources q)) as (p & Pp & ES & Hsort); [symmetry; exact (Forall2_length _ _ _ FI)|].
  set (secs := secs_of need q).
  destruct (secs_ok need q HA) as [LS VS]. fold secs in LS, VS.
  destruct (fill_outputs_ok debug (q_keys q) (q_change q) R (q_tx_key q) KR (ready_tx_key q Q) (ready_view q Q)
    (q_destinations q) secs 0 0 (ready_dests q Q) VS LS ltac:(lia) (ready_length q Q)) as (outs & EO & LO & HO).
  destruct (additional_lookup need (q_keys q) (q_change q) R (q_tx_key q) (q_additional q) (q_destinations q) outs LO) as (LA & KA & HAd);
    [by destruct need; [apply HA|]|exact HO|].
  destruct (ready_pid q Q) as (pid & Ep & Op & Bp).
  destruct (make_extra_ok debug R (if need then Some (omap out_additional outs) else None) (q_tx_key q) (q_destinations q) (q_change q)
    (q_pid q) pid KR) as (extra & pid' & EE & _ & EP); try done; try apply Q.
  { intros l. destruct need; [|done]. intros [= <-]. split; [exact KA|]. rewrite LA, (proj2 HA). apply Q. }
  destruct (ready_amounts q Q) as (DA & S1 & S2). pose proof (ready_balance q Q) as Bal.
  set (sources' := reorder p (q_sources q)) in *. set (ins := reorder p ins0) in *.
  assert (sources' ≡ₚ q_sources q) as PS.
  { apply reorder_permutation. by rewrite (Forall2_length _ _ _ FI). }
  pose proof (reorder_Forall2 _ p _ _ FI) as FI'. fold sources' ins in FI'.
  set (prefix := prefix_of q sources' ins outs extra).
  assert (draw (all_draws sources' (q_destinations q)) rng = Some rng') as D'.
  { unfold all_draws in *. by rewrite (draws_permutation _ _ PS), PS. }
  destruct (sign_tx_ok debug PROVE VERIFY ins sources' outs (q_destinations q) prefix FI' LO ltac:(apply length_map) DA
    ltac:(rewrite (zsum_permutation _ _ (Permutation_map src_amount PS)); exact Bal) rng rng'
    ltac:(rewrite PS; apply Q) Hr D') as (rv & c & EG & Ac & De).
  exists (Built prefix rv), sources', c, ins, outs, R, need, extra, pid'. split.
  - eapply construct_eq; [exact Q|exact EI|exact ES|exact HC| |exact EO|exact LA|exact EE|exact S1|exact S2|exact EG].
    destruct need; [apply HA|done].
  - cbn [b_prefix b_rct]. split_and!; try done.
    + intros ->. apply length_zero_iff_nil. by rewrite LA, HA.
    + intros ->. by rewrite LA, LO, (proj2 HA).
    + intros j d Hd. destruct (lookup_lt_is_Some_2 secs j) as [s Hs]; [rewrite LS; by apply lookup_lt_Some in Hd|].
      destruct (HO j d s Hd Hs) as (o & der & Ho & Hof). exists s, o, der. split; [done|].
      split; [exact (Forall_lookup_1 _ _ _ _ VS Hs)|]. split; [|exact Hof].
      unfold secs, secs_of in Hs. destruct need; rewrite list_lookup_fmap in Hs; apply fmap_Some in Hs as (x & _ & ->); done.
Qed.

(** C8. construct_tx_with_tx_key, called with [bulletproof = false] and
    [msout = nullptr], builds a transaction with Borromean range proofs that is
    accepted and that its recipients can use.  (With [bulletproof = true] the
    result depends on the prover, which is a parameter here; multisig accounts
    are not covered.)  Given sources the account can spend, destinations
    with proper keys whose amounts the sources cover, the additional keys the
    kinds of the destinations ask for and enough randomness, the function
    returns a transaction: its inputs are the sources in the order of their key
    images, its ring signature passes the verification functions of its type, and
    the owner of each destination's address finds the output of that destination,
    decodes its amount and computes a secret key and a key image for it, or, only
    where additional keys are used, the main key of the transaction matches the
    output by accident ([mistaken]), and the owner takes it for another. *)
Theorem construct_tx_ok q rng rng' :
  ready q -> Forall scalar rng -> draw (all_draws (q_sources q) (q_destinations q)) rng = Some rng' ->
  exists tx sources' c ins,
    construct q rng = ret (Some (tx, sources', c, rng'))
    /\ sources' ≡ₚ q_sources q /\ Transaction.vin (b_prefix tx) = zip_with txin_of sources' ins /\ images_sorted ins
    /\ Forall2 (input_for debug) sources' ins
    /\ length (Transaction.vout (b_prefix tx)) = length (q_destinations q)
    /\ rct_accepted VERIFY (b_rct tx)
    /\ forall j d k subs index,
         q_destinations q !! j = Some d -> owner (q_change q) (q_keys q) k subs index d ->
         received debug tx k subs index j (dst_amount d) \/ (q_additional q <> [] /\ mistaken debug tx k subs j).
Proof.
  intros Q Hr D.
  destruct (construct_ok q rng rng' Q Hr D) as (tx & sources' & c & ins & outs & R & need & extra & pid' & E & PS & FI & SI & EX
    & _ & Ac & De & LO & EP & KR & KA & HAd & LA & HN & _ & HS & HO).
  exists tx, sources', c, ins. rewrite EX. unfold prefix_of at 1 2. cbn [Transaction.vin Transaction.vout].
  split_and!; [done|done|done|done|done|by rewrite length_map|done|].
  intros j d k subs index Hd Ow. destruct (HO j d Hd) as (s & o & der & Ho & Vs & Sn & Of).
  assert (default [] (if need then Some (omap out_additional outs) else None) = omap out_additional outs) as DE.
  { destruct need; [done|]. by rewrite (HN eq_refl). }
  destruct (extra_fields _ _ _ _ EP) as (X1 & X2 & _). rewrite DE in X2.
  destruct (all_derivations_ok debug (m_view_secret_key k) _ (proj1 (proj2 (proj1 Ow))) KA) as (ders & EL & _).
  assert (Z.of_nat j < 2 ^ 64) as Hj.
  { pose proof (lookup_lt_Some _ _ _ Hd). pose proof (ready_length q Q). lia. }
  assert (Transaction.vout (b_prefix tx) !! j
    = Some {| Transaction.amount := 0; Transaction.target := Transaction.txout_to_key (out_key o) |}) as EV.
  { rewrite EX. cbn [prefix_of Transaction.vout]. by rewrite list_lookup_fmap, Ho. }
  destruct (output_found debug (q_change q) (q_keys q) (q_tx_key q) R s d o der k index subs j _ ders Ow (ready_tx_key q Q)
    Vs KR Hj Of EL) as (d0 & E0 & [(p & ki & E1 & E2 & Sp)|(info & Ns & EF)]).
  - intros C H. apply HS; [by eapply list_elem_of_lookup_2|done|]. destruct H as [H|H]; [left; by apply Sn|by right].
  - intros a. by apply HAd.
  - left. unfold received. rewrite EX. cbn [prefix_of Transaction.extra]. rewrite X1, X2.
    destruct (De j o d Ho Hd) as (m & Em). rewrite EX in EV.
    exists (out_key o), d0, ders, der, (amount_key o), m, p, ki. destruct Of as (_ & _ & EA & _). by split_and!.
  - right. destruct Of as (_ & _ & _ & Ad & _). destruct s as [s|]; [|done]. destruct Ad as (a & Ea & _).
    pose proof (HAd j o a Ho Ea) as Ha. assert (omap out_additional outs <> []) as NE by (intros Z; by rewrite Z in Ha).
    split.
    + intros Z. apply NE, length_zero_iff_nil. by rewrite LA, Z.
    + unfold mistaken. rewrite EX. cbn [prefix_of Transaction.extra]. rewrite X1, X2. rewrite EX in EV.
      by exists (out_key o), d0, info.
Qed.

End building.



(** ** Example *)

(** The eighth of the scalar 1 as the key of the transactions: the derivation an
    account with view key 1 shares with them is the base point, and the spend key
    is such that the output 0 is the base point too. *)
Definition eighth : bytes := residue ((3 * ell + 1) / 8).
Definition my_spend : bytes := residue (1 - @output_scalar example_hash G 0).
Definition my_keys : account_keys :=
  Keys (Addr (encode (zmul (num my_spend) B)) G) my_spend Identity [] [].
Definition my_subs : subaddress_map := {[ encode (zmul (num my_spend) B) := Sub 0 0 ]}.

Lemma one_valid : valid Identity.
Proof. by_eval. Qed.

Lemma my_spend_some : my_spend <> null_skey.
Proof. by_eval. Qed.

Lemma eighth_valid : valid eighth.
Proof. apply residue_valid. Qed.

Lemma my_consistent : consistent my_keys.
Proof.
  split; [apply residue_valid|]. split; [exact one_valid|]. split; [exact (public_key_ok my_spend (residue_valid _))|exact G_key].
Qed.

Lemma my_address : @get_subaddress example_hash my_keys (Sub 0 0) = ret (m_account_address my_keys).
Proof. reflexivity. Qed.

Lemma my_spend_point : @spend_point_of example_hash my_keys (Sub 0 0) = zmul (num my_spend) B.
Proof. apply spend_key_zero. reflexivity. Qed.

Lemma my_shared : encode (@shared_point example_hash my_keys (Sub 0 0) eighth) = G.
Proof.
  rewrite G_encoded. apply encode_proper. unfold shared_point, view_point_of.
  change (@base_of example_hash my_keys (Sub 0 0)) with B. change (m_view_secret_key my_keys) with Identity.
  rewrite <- (zmul_mul (num eighth)), <- (zmul_mul 8) by exact B_curve. rewrite <- (zmul_1 B B_curve) at 2. apply zmul_B_mod. vm_compute. reflexivity.
Qed.

Lemma my_output : encode (@output_point example_hash my_keys (Sub 0 0) G 0) = G.
Proof.
  rewrite G_encoded at 2. apply encode_proper. unfold output_point. rewrite my_spend_point, <- zmul_add by exact B_curve.
  rewrite <- (zmul_1 B B_curve) at 2. apply zmul_B_mod. vm_compute. reflexivity.
Qed.

(** A source of five coins in a ring of [n] equal members. *)
Definition my_source (n : nat) : tx_source_entry :=
  Source (map (fun i => (Z.of_nat i, sample_member)) (seq 0 n)) 1 (encode (zmul (num eighth) B)) [] 0 5 true Identity
    (Multisig null_skey null_skey null_skey null_skey).

Definition my_request (sources : list tx_source_entry) : request :=
  Req my_keys my_subs sources [Dest 3 (m_account_address my_keys) false] None None 0 eighth [].

Lemma my_source_own n : (2 <= n)%nat -> @own_source example_hash true my_keys my_subs (my_source n).
Proof.
  intros Hn. split; [change (amount_ok 5); by_eval|]. split; [exact one_valid|].
  split; [cbn [my_source outputs]; by rewrite length_map, length_seq|].
  split; [apply Forall_fmap, Forall_true; intros i; exact sample_ring_key|].
  destruct (@helper_ok example_hash true my_keys (Sub 0 0) my_subs eighth (encode (zmul (num eighth) B)) [] 0 my_consistent eq_refl)
    as (p & ki & E & S); [exact my_spend_some|exact eighth_valid|lia|rewrite my_spend_point; apply lookup_singleton_eq| |].
  - split; [by eexists|by left].
  - rewrite my_shared, my_output in E, S. exists (1, sample_member), p, ki.
    split; [cbn [my_source outputs real_output]; rewrite list_lookup_fmap, lookup_seq_lt by lia; reflexivity|].
    split; [exact E|]. split; [exact S|]. exact (proj2 (proj2 (proj2 sample_secret_of))).
Qed.

Lemma my_dest : good_dest (Dest 3 (m_account_address my_keys) false).
Proof.
  split; [change (amount_ok 3); by_eval|]. split; [apply encode_is_key, zmul_curve, B_curve|exact G_checked].
Qed.

(** The derivation is the base point, so the encrypted payment id is known. *)
Lemma my_derivation : generate_key_derivation true G eighth = Some (Some G).
Proof.
  pose proof (sender_derivation (HF := example_hash) true my_keys (Sub 0 0) eighth eighth_valid) as E.
  pose proof (get_subaddress_ok (HF := example_hash) my_keys (Sub 0 0) my_consistent) as A. rewrite my_address in A.
  apply ret_inj, (f_equal m_view_public_key) in A.
  change (G = encode (@view_point_of example_hash my_keys (Sub 0 0))) in A. rewrite <- A, my_shared in E. exact E.
Qed.

Lemma single_view_key d allow :
  dst_amount d <> 0 -> m_view_public_key (dst_addr d) <> TxExtra.null_pkey ->
  get_destination_view_key_pub [d] None allow = m_view_public_key (dst_addr d).
Proof.
  intros Ha Hk. cbn [get_destination_view_key_pub view_key_loop is_change]. apply Z.eqb_neq in Ha. rewrite Ha.
  rewrite bool_decide_false; [done|]. intros E. by rewrite E in Hk.
Qed.

Lemma my_view_key : get_destination_view_key_pub [Dest 3 (m_account_address my_keys) false] None true = G.
Proof. rewrite single_view_key; [reflexivity|discriminate|]. change (G <> TxExtra.null_pkey). by_eval. Qed.

Lemma my_pid_visible : pid_visible true [Dest 3 (m_account_address my_keys) false] None eighth None.
Proof.
  intros q pid' [= <-]. rewrite my_view_key. unfold encrypt_payment_id. rewrite my_derivation. rgo.
  assert ((if keccak (G ++ [UNI_PAYMENT_ID_TAIL]) 200 is Some h
           then negb (TxExtra.zero (pid_of (xor_bytes (pid_bytes dummy_pid) (take 40 h))) =? 0) else true) = true) as C
    by (vm_compute; reflexivity).
  destruct (keccak (G ++ [UNI_PAYMENT_ID_TAIL]) 200) as [h|]; [|discriminate].
  rgo. intros E%ret_inj. injection E as <-. by apply negb_true_iff, Z.eqb_neq in C.
Qed.

Lemma my_request_ready sources :
  (1 <= length sources)%nat -> Forall (fun src => exists n, (2 <= n)%nat /\ src = my_source n) sources ->
  3 <= zsum (map src_amount sources) < 2 ^ 64 -> @ready example_hash true (my_request sources).
Proof.
  intros L F S. split.
  - exact L.
  - eapply Forall_impl; [exact F|]. intros src (n & Hn & ->). by apply my_source_own.
  - apply Forall_singleton, my_dest.
  - change (1 < 2 ^ 64). lia.
  - intros d d' H%list_elem_of_singleton H'%list_elem_of_singleton. by subst.
  - discriminate.
  - change (0 <= CRYPTONOTE_MAX_BLOCK_NUMBER). by_eval.
  - exact eighth_valid.
  - exact one_valid.
  - reflexivity.
  - exists dummy_pid. split; [reflexivity|]. split; [split; by_eval|by_eval].
  - unfold view_key_pub. change (q_destinations (my_request sources)) with [Dest 3 (m_account_address my_keys) false].
    change (q_change (my_request sources)) with (@None account_public_address). cbn [q_pid my_request]. rewrite my_view_key. by_eval.
  - exact my_pid_visible.
  - exact S.
Qed.

(** Two sources of five coins, three coins to the account itself. *)
Lemma construct_tx_ok_witness : exists tx sources' c,
  @construct example_hash true no_prove no_verify (my_request [my_source 2; my_source 2]) (replicate 201 key_7) = ret (Some (tx, sources', c, []))
  /\ @rct_accepted example_hash no_verify (b_rct tx)
  /\ @received example_hash true tx my_keys my_subs (Sub 0 0) 0 3.
Proof.
  destruct (@construct_tx_ok example_hash true no_prove no_verify (my_request [my_source 2; my_source 2]) (replicate 201 key_7) []
    (my_request_ready [my_source 2; my_source 2] ltac:(cbn; lia)
      ltac:(do 2 (constructor; [by exists 2%nat; split; [lia|]|]); constructor) ltac:(change (3 <= 10 < 2 ^ 64); lia))
    (sevens 201) (draw_sevens 201)) as (tx & sources' & c & ins & E & _ & _ & _ & _ & _ & A & H).
  exists tx, sources', c. split; [exact E|]. split; [exact A|].
  destruct (H 0%nat (Dest 3 (m_account_address my_keys) false) my_keys my_subs (Sub 0 0) eq_refl) as [R|[N _]]; [|exact R|by destruct N].
  split; [exact my_consistent|]. split; [reflexivity|]. split; [exact my_spend_some|]. split; [exact my_address|]. split; [reflexivity|].
  split; [apply lookup_singleton_eq|reflexivity].
Defined.
End TxBuild.
