(* ===== verification/TxCheck.v ===== *)
(** * Checks of transactions without a chain

    The checks of src/cryptonote_basic/cryptonote_format_utils.cpp on the inputs
    and outputs of a transaction, is_coinbase of cryptonote_basic_impl.cpp, and
    core::check_tx_semantic of src/cryptonote_core/cryptonote_core.cpp with its
    checks of the key images and of the rings.  The theorems give the meaning of
    the overflow checks and what an accepted transaction satisfies. *)

From stdpp Require Import sorting.
From S2P Require Import Prelude Config Keccak Permute Transaction TxExtra TxHash Limbs Primality Scalar Fe Ge Curve Points BaseData ScalarMult Order Multiples Crypto RingSig RctOps RangeProof Mlsag RctSigs Account TxBuild Result.
Import Config Keccak Limbs Scalar Fe Ge Curve Points BaseData ScalarMult Order Multiples Crypto RingSig RctOps RangeProof Mlsag RctSigs Account Permute TxBuild Result.

Module TxCheck.

(** ** Inputs and outputs *)

Definition is_coinbase (tx : Transaction.transaction_prefix) : bool :=
  match Transaction.vin tx with [Transaction.txin_gen _] => true | _ => false end.

Definition is_to_key (i : Transaction.txin_v) : bool :=
  match i with Transaction.txin_to_key _ _ _ => true | _ => false end.

Definition check_inputs_types_supported (tx : Transaction.transaction_prefix) : bool := forallb is_to_key (Transaction.vin tx).

Fixpoint outs_valid (outs : list Transaction.tx_out) : result bool :=
  match outs with
  | [] => ret true
  | o :: outs =>
      match Transaction.target o with
      | Transaction.txout_to_key key =>
          let* ok := lift (check_key key) in
          match ok with true => outs_valid outs | false => ret false end
      | _ => ret false
      end
  end.

Definition check_outs_valid (tx : Transaction.transaction_prefix) : result bool := outs_valid (Transaction.vout tx).

(** The loops of the overflow checks, from the money counted so far. *)
Fixpoint inputs_overflow (ins : list Transaction.txin_v) (money : Z) : bool :=
  match ins with
  | [] => true
  | Transaction.txin_to_key amount _ _ :: ins =>
      if u64 (amount + money) <? money then false else inputs_overflow ins (u64 (money + amount))
  | _ => false
  end.

Definition check_inputs_overflow (tx : Transaction.transaction_prefix) : bool := inputs_overflow (Transaction.vin tx) 0.

Fixpoint outs_overflow (outs : list Transaction.tx_out) (money : Z) : bool :=
  match outs with
  | [] => true
  | o :: outs =>
      if u64 (Transaction.amount o + money) <? money then false
      else outs_overflow outs (u64 (money + Transaction.amount o))
  end.

Definition check_outs_overflow (tx : Transaction.transaction_prefix) : bool := outs_overflow (Transaction.vout tx) 0.

Definition check_money_overflow (tx : Transaction.transaction_prefix) : bool := check_inputs_overflow tx && check_outs_overflow tx.

Definition get_outs_money_amount (tx : Transaction.transaction_prefix) : Z := sum64 (map Transaction.amount (Transaction.vout tx)).

(** [None] is false, with a part of the sum in [money]. *)
Definition get_inputs_money_amount (tx : Transaction.transaction_prefix) : option Z :=
  l ← mapM (fun i => match i with Transaction.txin_to_key amount _ _ => Some amount | _ => None end) (Transaction.vin tx);
  Some (sum64 l).

(** Zero when the miner transaction is malformed. *)
Definition get_block_height (b : Transaction.block) : Z :=
  match Transaction.vin (Transaction.prefix (Transaction.miner_tx b)) with [Transaction.txin_gen height] => height | _ => 0 end.

(** ** core *)

Fixpoint images_diff (ins : list Transaction.txin_v) (seen : list bytes) : bool :=
  match ins with
  | [] => true
  | Transaction.txin_to_key _ _ k :: ins => if bool_decide (k ∈ seen) then false else images_diff ins (k :: seen)
  | _ => false
  end.

Definition check_tx_inputs_keyimages_diff (tx : Transaction.transaction_prefix) : bool := images_diff (Transaction.vin tx) [].

Definition check_tx_inputs_ring_members_diff (tx : Transaction.transaction_prefix) : bool :=
  forallb (fun i =>
    match i with
    | Transaction.txin_to_key _ offsets _ => forallb (fun o => negb (o =? 0)) (drop 1 offsets)
    | _ => false
    end) (Transaction.vin tx).

(** scalarmultKey throws for an image that is no point. *)
Fixpoint images_domain (ins : list Transaction.txin_v) : result bool :=
  match ins with
  | [] => ret true
  | Transaction.txin_to_key _ _ k :: ins =>
      let* r := scalarmultKey k CurveOrder in
      if bool_decide (r = Identity) then images_domain ins else ret false
  | _ => ret false
  end.

Definition check_tx_inputs_keyimages_domain (tx : Transaction.transaction_prefix) : result bool := images_domain (Transaction.vin tx).

Definition CRYPTONOTE_COINBASE_BLOB_RESERVED_SIZE : Z := 600.

(** Returning false unless the call returns true. *)
Definition demand (m : result bool) (k : result bool) : result bool := let* b := m in match b with true => k | false => ret false end.

Section functions.

Context `{HF : !FastHash}.
Context (bulletproof_VERIFY : list proof -> result bool).

(** [blob_size] is the size of the serialized transaction, [limit] that of
    get_current_cumulative_blocksize_limit. *)
Definition check_tx_semantic (tx : built) (keeped_by_block : bool) (blob_size limit : Z) : result bool :=
  let p := b_prefix tx in
  let rv := b_rct tx in
  demand (ret (negb (Nat.eqb (length (Transaction.vin p)) 0))) (
  demand (ret (check_inputs_types_supported p)) (
  demand (check_outs_valid p) (
  demand (ret (Nat.eqb (length (r_outPk rv)) (length (Transaction.vout p)))) (
  demand (ret (check_money_overflow p)) (
  demand (ret (negb (negb keeped_by_block && (u64 (limit - CRYPTONOTE_COINBASE_BLOB_RESERVED_SIZE) <=? blob_size)))) (
  demand (ret (check_tx_inputs_keyimages_diff p)) (
  demand (ret (check_tx_inputs_ring_members_diff p)) (
  demand (check_tx_inputs_keyimages_domain p) (
  if (r_type rv =? Transaction.RCTTypeSimple) || (r_type rv =? Transaction.RCTTypeBulletproof)
  then lift (verRctSemanticsSimple bulletproof_VERIFY [rv])
  else if r_type rv =? Transaction.RCTTypeFull then lift (verRct rv true)
  else ret false))))))))).

End functions.



(** ** What the checks mean *)

#[local] Opaque ge_frombytes_vartime ge_scalarmult ge_tobytes encode zmul check_key.

Definition input_amount (i : Transaction.txin_v) : Z :=
  match i with Transaction.txin_to_key amount _ _ => amount | _ => 0 end.

Definition input_image (i : Transaction.txin_v) : bytes :=
  match i with Transaction.txin_to_key _ _ k => k | _ => [] end.

Definition input_offsets (i : Transaction.txin_v) : list Z :=
  match i with Transaction.txin_to_key _ offsets _ => offsets | _ => [] end.

(** The check [money > amount + money] finds the wrap of the sum. *)
Lemma wrapped_sum amount money :
  0 <= amount < 2 ^ 64 -> 0 <= money < 2 ^ 64 ->
  if u64 (amount + money) <? money then 2 ^ 64 <= money + amount
  else u64 (money + amount) = money + amount /\ money + amount < 2 ^ 64.
Proof.
  intros Ha Hm. rewrite (Z.add_comm amount). unfold wrap. destruct (Z.lt_ge_cases (money + amount) (2 ^ 64)) as [H|H].
  - rewrite Z.mod_small by lia. destruct (Z.ltb_spec (money + amount) money); lia.
  - assert ((money + amount) mod 2 ^ 64 = money + amount - 2 ^ 64) as -> by (symmetry; apply (Z.mod_unique _ _ 1); lia).
    destruct (Z.ltb_spec (money + amount - 2 ^ 64) money); lia.
Qed.

Lemma zsum_nonneg l : Forall (fits 64) l -> 0 <= zsum l.
Proof. unfold fits. induction 1; cbn [zsum]; lia. Qed.

Lemma outs_overflow_ok outs : forall money,
  Forall (fits 64) (map Transaction.amount outs) -> 0 <= money < 2 ^ 64 ->
  outs_overflow outs money = true <-> money + zsum (map Transaction.amount outs) < 2 ^ 64.
Proof.
  induction outs as [|o outs IH]; intros money F Hm; cbn [map outs_overflow zsum]; [split; [lia|done]|].
  cbn [map] in F. apply Forall_cons in F as [Ho F]. pose proof (zsum_nonneg _ F) as Hz. generalize (wrapped_sum _ money Ho Hm).
  destruct (u64 (Transaction.amount o + money) <? money); [intros W; split; [done|intros ?; exfalso; lia]|intros [-> W]].
  rewrite IH by (unfold fits in Ho; done || lia). by rewrite Z.add_assoc.
Qed.

Lemma inputs_overflow_ok ins : forall money,
  Forall (fits 64) (map input_amount ins) -> 0 <= money < 2 ^ 64 -> Forall (fun i => is_to_key i = true) ins ->
  inputs_overflow ins money = true <-> money + zsum (map input_amount ins) < 2 ^ 64.
Proof.
  induction ins as [|i ins IH]; intros money F Hm T; cbn [map inputs_overflow zsum]; [split; [lia|done]|].
  cbn [map] in F. apply Forall_cons in F as [Ho F]. apply Forall_cons in T as [Ti T]. destruct i as [| | |amount offsets k]; try done.
  cbn [input_amount] in *. pose proof (zsum_nonneg _ F) as Hz. generalize (wrapped_sum _ money Ho Hm).
  destruct (u64 (amount + money) <? money); [intros W; split; [done|intros ?; exfalso; lia]|intros [-> W]].
  rewrite IH by (unfold fits in Ho; done || lia). by rewrite Z.add_assoc.
Qed.

Lemma images_diff_ok ins : forall seen,
  Forall (fun i => is_to_key i = true) ins ->
  images_diff ins seen = true <-> NoDup (map input_image ins) /\ Forall (fun k => k ∉ seen) (map input_image ins).
Proof.
  induction ins as [|i ins IH]; intros seen T; cbn [map images_diff]; [split; [split; constructor|done]|].
  apply Forall_cons in T as [Ti T]. destruct i as [| | |amount offsets k]; try done. cbn [input_image].
  rewrite NoDup_cons, Forall_cons. case_bool_decide as E; [split; [done|by intros [_ [N _]]]|]. rewrite IH, !Forall_forall by done.
  split.
  - intros [N F]. split; [split; [|done]|split; [done|]].
    + intros H. apply (F k H), list_elem_of_here.
    + intros x Hx Hs. by apply (F x Hx), list_elem_of_further.
  - intros [[N D] [_ F]]. split; [done|]. intros x Hx Hs. apply elem_of_cons in Hs as [->|Hs]; [done|]. by apply (F x Hx).
Qed.

(** A key image is in the domain when it is the encoding of a point of the
    subgroup of prime order. *)
Definition in_subgroup (k : bytes) : Prop := exists P, on_curve P /\ k = encode P /\ pt_eq (zmul ell P) pt_zero.

Lemma curve_order_small : small_scalar CurveOrder.
Proof. split; [by_eval|]. split; [reflexivity|]. exists 16. split; [reflexivity|lia]. Qed.

Lemma curve_order_num : num CurveOrder = ell.
Proof. by_eval. Qed.

Lemma domain_ok k : scalar k -> scalarmultKey k CurveOrder = ret Identity <-> in_subgroup k.
Proof.
  intros [Hb Hl]. split.
  - intros E. pose proof E as E0. unfold scalarmultKey, decode in E.
    destruct (ge_frombytes_vartime_ok k Hb Hl) as ([e|h] & EF & D); rewrite EF in E; [discriminate|].
    destruct D as (Q & RQ & HQ & EQ). exists Q. split; [done|]. split; [done|].
    rewrite <- EQ, (scalarmultKey_ok Q _ HQ curve_order_small), Identity_encoded, curve_order_num in E0. apply ret_inj in E0.
    apply encode_inj in E0; [done|apply zmul_curve, HQ|apply pt_zero_curve].
  - intros (P & HP & -> & O). rewrite (scalarmultKey_ok P _ HP curve_order_small), curve_order_num, Identity_encoded.
    by rewrite (encode_proper _ _ O).
Qed.

Lemma images_domain_ok ins :
  Forall (fun i => is_to_key i = true) ins -> Forall scalar (map input_image ins) ->
  images_domain ins = ret true <-> Forall in_subgroup (map input_image ins).
Proof.
  induction ins as [|i ins IH]; intros T S; cbn [map images_domain]; [split; [constructor|done]|].
  apply Forall_cons in T as [Ti T]. apply Forall_cons in S as [Si S]. destruct i as [| | |amount offsets k]; try done.
  cbn [input_image] in *. rewrite Forall_cons, <- (domain_ok k Si), <- IH by done. split.
  - intros E. rinv E r Er. case_bool_decide as B; [by subst r|discriminate].
  - intros [-> E]. rgo. by rewrite bool_decide_eq_true_2.
Qed.

Lemma outs_valid_ok outs :
  outs_valid outs = ret true
  <-> Forall (fun o => exists key, Transaction.target o = Transaction.txout_to_key key /\ check_key key = Some true) outs.
Proof.
  induction outs as [|o outs IH]; cbn [outs_valid]; [split; [constructor|done]|]. rewrite Forall_cons. split.
  - destruct (Transaction.target o) as [| |key] eqn:T; try discriminate. intros E. rinv E b Eb. apply lift_inv in Eb.
    destruct b; [|discriminate]. split; [by exists key|by apply IH].
  - intros [(key & -> & K) F]. rewrite K. rgo. by apply IH.
Qed.

Lemma demand_ok m k : demand m k = ret true <-> m = ret true /\ k = ret true.
Proof.
  split; [|by intros [-> ->]]. unfold demand. intros E. rinv E b Eb. destruct b; [done|discriminate].
Qed.

Lemma ret_true b : ret b = ret true <-> b = true.
Proof. split; [by intros ->%ret_inj|by intros ->]. Qed.


Section semantic.

Context `{HF : !FastHash} (VERIFY : list proof -> result bool).

(** The values the C++ types can hold. *)
Definition typed (p : Transaction.transaction_prefix) : Prop :=
  Forall (fits 64) (map input_amount (Transaction.vin p)) /\ Forall scalar (map input_image (Transaction.vin p))
  /\ Forall (fits 64) (map Transaction.amount (Transaction.vout p)).

(** The semantic part of the verification of a signature. *)
Definition semantics_verified (rv : rctSig) : Prop :=
  ((r_type rv = Transaction.RCTTypeSimple \/ r_type rv = Transaction.RCTTypeBulletproof)
   /\ verRctSemanticsSimple VERIFY [rv] = Some true)
  \/ (r_type rv = Transaction.RCTTypeFull /\ verRct rv true = Some true).

Record semantic_ok (tx : built) (keeped_by_block : bool) (blob_size limit : Z) : Prop := {
  sem_inputs : Transaction.vin (b_prefix tx) <> [] /\ Forall (fun i => is_to_key i = true) (Transaction.vin (b_prefix tx));
  sem_outputs : Forall (fun o => exists key, Transaction.target o = Transaction.txout_to_key key /\ check_key key = Some true)
    (Transaction.vout (b_prefix tx));
  sem_commitments : length (r_outPk (b_rct tx)) = length (Transaction.vout (b_prefix tx));
  sem_money : zsum (map input_amount (Transaction.vin (b_prefix tx))) < 2 ^ 64
    /\ zsum (map Transaction.amount (Transaction.vout (b_prefix tx))) < 2 ^ 64;
  sem_size : keeped_by_block = true \/ blob_size < u64 (limit - CRYPTONOTE_COINBASE_BLOB_RESERVED_SIZE);
  sem_images : NoDup (map input_image (Transaction.vin (b_prefix tx)))
    /\ Forall in_subgroup (map input_image (Transaction.vin (b_prefix tx)));
  (* the offsets after the first are not zero; see [members_distinct] *)
  sem_rings : Forall (fun i => Forall (fun o => o <> 0) (drop 1 (input_offsets i))) (Transaction.vin (b_prefix tx));
  sem_rct : semantics_verified (b_rct tx)
}.

Lemma rings_ok ins :
  Forall (fun i => is_to_key i = true) ins ->
  forallb (fun i => match i with
    | Transaction.txin_to_key _ offsets _ => forallb (fun o => negb (o =? 0)) (drop 1 offsets)
    | _ => false
    end) ins = true <-> Forall (fun i => Forall (fun o => o <> 0) (drop 1 (input_offsets i))) ins.
Proof.
  induction 1 as [|i ins T F IH]; cbn [forallb]; [split; [constructor|done]|]. rewrite andb_true_iff, Forall_cons, IH.
  destruct i as [| | |amount offsets k]; try done. cbn [input_offsets].
  assert (forallb (fun o => negb (o =? 0)) (drop 1 offsets) = true <-> Forall (fun o => o <> 0) (drop 1 offsets)) as ->; [|done].
  rewrite forallb_forall, Forall_forall. setoid_rewrite negb_true_iff. setoid_rewrite Z.eqb_neq.
  by setoid_rewrite <- list_elem_of_In.
Qed.

Lemma types_ok p : check_inputs_types_supported p = true <-> Forall (fun i => is_to_key i = true) (Transaction.vin p).
Proof. unfold check_inputs_types_supported. rewrite forallb_forall, Forall_forall. by setoid_rewrite <- list_elem_of_In. Qed.

Lemma rct_ok rv :
  (if (r_type rv =? Transaction.RCTTypeSimple) || (r_type rv =? Transaction.RCTTypeBulletproof)
   then lift (verRctSemanticsSimple VERIFY [rv])
   else if r_type rv =? Transaction.RCTTypeFull then lift (verRct rv true) else ret false) = ret true
  <-> semantics_verified rv.
Proof.
  unfold semantics_verified. assert (forall m : option bool, lift m = ret true <-> m = Some true) as L.
  { intros m. split; [apply lift_inv|by intros ->]. }
  destruct (Z.eqb_spec (r_type rv) Transaction.RCTTypeSimple) as [->|N1]; cbn [orb].
  { rewrite L. split; [by left; split; [left|]|intros [[_ H]|[H _]]; [done|discriminate]]. }
  destruct (Z.eqb_spec (r_type rv) Transaction.RCTTypeBulletproof) as [->|N2].
  { rewrite L. split; [by left; split; [right|]|intros [[_ H]|[H _]]; [done|discriminate]]. }
  destruct (Z.eqb_spec (r_type rv) Transaction.RCTTypeFull) as [->|N3].
  { rewrite L. split; [by right|intros [[[H|H] _]|[_ H]]; [discriminate|discriminate|done]]. }
  split; [discriminate|]. by intros [[[H|H] _]|[H _]].
Qed.

Lemma size_ok (keeped : bool) size limit :
  negb (negb keeped && (limit <=? size)) = true <-> keeped = true \/ size < limit.
Proof. destruct keeped; cbn [negb andb]; [by split; [left|]|]. rewrite negb_true_iff, Z.leb_gt. split; [by right|by intros []]. Qed.

Lemma semantic_iff tx keeped_by_block blob_size limit :
  typed (b_prefix tx) ->
  check_tx_semantic VERIFY tx keeped_by_block blob_size limit = ret true <-> semantic_ok tx keeped_by_block blob_size limit.
Proof.
  intros (FI & FS & FO). unfold check_tx_semantic, check_outs_valid. cbv zeta. rewrite !demand_ok, !ret_true, types_ok, outs_valid_ok, size_ok, rct_ok.
  rewrite negb_true_iff, Nat.eqb_neq, Nat.eqb_eq. unfold check_money_overflow. rewrite andb_true_iff.
  unfold check_outs_overflow. rewrite (outs_overflow_ok _ 0 FO) by lia. rewrite Z.add_0_l.
  unfold check_tx_inputs_keyimages_domain, check_tx_inputs_keyimages_diff, check_inputs_overflow, check_tx_inputs_ring_members_diff.
  assert (length (Transaction.vin (b_prefix tx)) <> 0%nat <-> Transaction.vin (b_prefix tx) <> []) as ->.
  { by rewrite length_zero_iff_nil. }
  split.
  - intros (N & T & O & L & [MI MO] & S & D & R & G & V). apply (inputs_overflow_ok _ 0 FI ltac:(lia) T) in MI. rewrite Z.add_0_l in MI.
    apply (images_diff_ok _ _ T) in D as [D _]. apply (rings_ok _ T) in R. apply (images_domain_ok _ T FS) in G. by constructor.
  - intros [[N T] O L [MI MO] S [D G] R V]. split_and!; try done.
    + by apply inputs_overflow_ok; [done|lia|done|].
    + apply images_diff_ok; [done|]. split; [done|]. apply Forall_true. intros x Hx. by apply not_elem_of_nil in Hx.
    + by apply rings_ok.
    + by apply images_domain_ok.
Qed.

(** Non-zero steps that do not wrap around make the positions ascend. *)
Lemma offsets_ascend x l :
  0 <= x -> Forall (fits 64) l -> Forall (fun o => o <> 0) l -> x + zsum l < 2 ^ 64 -> Sorted Z.lt (x :: add_previous x l).
Proof.
  intros Hx F N. revert x Hx. induction F as [|o l Ho F IH]; intros x Hx S; cbn [add_previous]; [by repeat constructor|].
  apply Forall_cons in N as [No N]. cbn [zsum] in S. pose proof (zsum_nonneg _ F). unfold fits in Ho.
  rewrite wrap_small by (unfold fits; lia). constructor; [apply IH; [done|lia|lia]|]. constructor. lia.
Qed.

(** The members of the rings are distinct as long as their positions, the sums of
    the offsets, fit 64 bits. *)
Lemma members_distinct ins :
  Forall (fun i => Forall (fun o => o <> 0) (drop 1 (input_offsets i))) ins ->
  Forall (fun i => Forall (fits 64) (input_offsets i) -> zsum (input_offsets i) < 2 ^ 64 ->
                   NoDup (relative_output_offsets_to_absolute (input_offsets i))) ins.
Proof.
  intros H. eapply Forall_impl; [exact H|]. cbn beta. intros i N F S. destruct (input_offsets i) as [|x l]; [constructor|]. cbn [drop zsum] in *.
  apply Forall_cons in F as [Hx F]. unfold fits in Hx. pose proof (offsets_ascend x l ltac:(lia) F N ltac:(lia)) as A.
  cbn [relative_output_offsets_to_absolute]. apply Sorted_StronglySorted in A; [|intros ?; lia]. clear -A.
  induction A as [|y k A IH L]; constructor; [|done]. intros H. rewrite Forall_forall in L. specialize (L _ H). lia.
Qed.

(** C7. check_tx_semantic accepts exactly the transactions with inputs, all of
    them spending keys, with outputs to keys on the curve, one commitment for each
    output, sums of amounts that do not wrap, a size below the limit unless the
    transaction came in a block, key images that are distinct points of the
    subgroup of prime order, ring offsets that after the first are not zero, and
    a signature whose semantic verification succeeds.  The members of a ring are
    then distinct if its offsets add up to less than 2^64; the check does not
    find a member that is repeated after the sum wraps around ([wrapped_ring]
    below). *)
Theorem check_tx_semantic_spec tx keeped_by_block blob_size limit :
  typed (b_prefix tx) ->
  (check_tx_semantic VERIFY tx keeped_by_block blob_size limit = ret true <-> semantic_ok tx keeped_by_block blob_size limit)
  /\ (check_tx_semantic VERIFY tx keeped_by_block blob_size limit = ret true ->
      Forall (fun i => Forall (fits 64) (input_offsets i) -> zsum (input_offsets i) < 2 ^ 64 ->
                       NoDup (relative_output_offsets_to_absolute (input_offsets i))) (Transaction.vin (b_prefix tx))).
Proof.
  intros T. rewrite (semantic_iff _ _ _ _ T). split; [done|]. intros S. apply members_distinct, S.
Qed.

End semantic.


(** A transaction that spends the same key image twice is refused. *)
Definition double_spend : built :=
  Built {| Transaction.version := 3; Transaction.unlock_time := 0;
           Transaction.vin := replicate 2 (Transaction.txin_to_key 0 [3; 5] G);
           Transaction.vout := [{| Transaction.amount := 0; Transaction.target := Transaction.txout_to_key G |}];
           Transaction.extra := [] |}
    (Rct Transaction.RCTTypeSimple G [] [] [] [Ct G G] 0 [] [] [] []).

Lemma check_tx_semantic_spec_witness :
  @check_tx_semantic example_hash no_verify double_spend true 1000 300000 <> ret true.
Proof.
  intros E. destruct (@check_tx_semantic_spec example_hash no_verify double_spend true 1000 300000) as [S _].
  - split; [by_eval|]. split; by_eval.
  - apply S in E. destruct (sem_images _ _ _ _ _ E) as [N _]. revert N. by_eval.
Defined.

(** The offsets 5, 1 and 2^64 - 1 pass the check of the rings, although they
    stand for the members 5, 6 and 5. *)
Definition wrapped_ring : Transaction.transaction_prefix :=
  {| Transaction.version := 3; Transaction.unlock_time := 0; Transaction.vin := [Transaction.txin_to_key 0 [5; 1; 2 ^ 64 - 1] G];
     Transaction.vout := []; Transaction.extra := [] |}.

Example wrapped_ring_passes :
  check_tx_inputs_ring_members_diff wrapped_ring = true
  /\ map (fun i => relative_output_offsets_to_absolute (input_offsets i)) (Transaction.vin wrapped_ring) = [[5; 6; 5]].
Proof. by_eval. Qed.

End TxCheck.
