(* ===== verification/TxAccept.v ===== *)
(** * Accepting transactions over a chain

    expand_transaction_1 of src/cryptonote_basic/cryptonote_format_utils.cpp, and
    of src/cryptonote_core/blockchain.cpp the functions that accept a transaction
    over the state of the chain: check_tx_outputs, scan_outputkeys_for_indexes,
    check_tx_input, expand_transaction_2 and check_tx_inputs.  The database is the
    list of the RingCT outputs, the set of spent key images, the height and the
    version of the fork.  The theorem composes them with the construction of
    transactions: what construct_tx_with_tx_key builds is accepted. *)

From stdpp Require Import sorting.
From S2P Require Import Prelude Config Keccak Permute Serialization Transaction TxExtra TxHash Limbs Primality Scalar Fe Ge Curve Points BaseData ScalarMult Order Multiples Crypto RingSig RctOps RangeProof Mlsag RctSigs Account TxBuild TxCheck Result.
Import Config Keccak Limbs Scalar Fe Ge Curve Points BaseData ScalarMult Order Multiples Crypto RingSig RctOps RangeProof Mlsag RctSigs Account Permute TxBuild TxCheck Result.

Module TxAccept.

(** ** The chain *)

Record output_data_t := Output_data { pubkey : bytes; od_unlock_time : Z; od_height : Z; commitment : bytes }.

(** The outputs with amount zero by their global index; [scan_table] are the
    outputs prefetched for a transaction and a key image. *)
Record chain := Chain {
  m_nettype : network_type;
  current_version : Z;
  db_height : Z;
  db_outputs : list output_data_t;
  db_spent : list bytes;
  scan_table : bytes -> bytes -> option (list output_data_t)
}.

Definition check_hard_fork_feature (c : chain) (f : hard_fork_feature) : bool :=
  if get_fork_v (m_nettype c) f =? FORK_ID_DISABLED then false else get_fork_v (m_nettype c) f <=? current_version c.

Definition have_tx_keyimg_as_spent (c : chain) (k : bytes) : bool := bool_decide (k ∈ db_spent c).

(** BlockchainLMDB::get_output_key with the amount zero: one output, and a list
    of outputs that ends at the first missing one. *)
Definition get_output_key (c : chain) (index : Z) : option output_data_t :=
  if index <? 0 then None else db_outputs c !! Z.to_nat index.

Fixpoint get_output_keys (c : chain) (offsets : list Z) : list output_data_t :=
  match offsets with
  | [] => []
  | index :: offsets =>
      match get_output_key c index with Some data => data :: get_output_keys c offsets | None => [] end
  end.

(** ** Failures

    The flag of tx_verification_context a function sets before it returns false,
    if it sets one. *)
Inductive tx_failure := rejected | verifivation_failed | low_mixin | double_spend | invalid_output.

Definition verdict (A : Type) : Type := result (tx_failure + A).

Definition accept {A} (a : A) : verdict A := ret (inr a).
Definition refuse {A} (f : tx_failure) : verdict A := ret (inl f).

Definition vbind {A B} (k : A -> verdict B) (m : verdict A) : verdict B :=
  rbind (fun r => match r with inl f => ret (inl f) | inr a => k a end) m.

(** Refusing unless the condition holds. *)
Definition require (b : bool) (f : tx_failure) : verdict Datatypes.unit := ret (if b then inr tt else inl f).

(** A value of an option, or a refusal. *)
Definition obtain {A} (m : option A) (f : tx_failure) : verdict A := ret (match m with Some a => inr a | None => inl f end).

(** A boolean of the signature library, or a refusal. *)
Definition verify (m : option bool) : verdict Datatypes.unit := let* b := lift m in require b rejected.

Notation "'let!' x := e 'in' k" := (vbind (fun x => k) e)
  (at level 10, x pattern, e at level 100, k at level 200) : result_scope.

(** ** The outputs *)

Fixpoint output_keys_ok (outs : list Transaction.tx_out) : verdict Datatypes.unit :=
  match outs with
  | [] => accept tt
  | o :: outs =>
      match Transaction.target o with
      | Transaction.txout_to_key key =>
          let* ok := lift (check_key key) in
          let! _ := require ok invalid_output in
          output_keys_ok outs
      | _ => output_keys_ok outs
      end
  end.

Definition check_tx_outputs (c : chain) (tx : built) : verdict Datatypes.unit :=
  let outs := Transaction.vout (b_prefix tx) in
  let rv := b_rct tx in
  let! _ := require (forallb (fun o => Transaction.amount o =? 0) outs) invalid_output in
  let! _ := output_keys_ok outs in
  let has_bulletproofs := r_type rv =? Transaction.RCTTypeBulletproof in
  let none := Nat.eqb (length (r_bulletproofs rv)) 0 in
  let! _ := require (negb ((has_bulletproofs && none) || (negb has_bulletproofs && negb none))) invalid_output in
  let! _ := require (negb (has_bulletproofs && negb (check_hard_fork_feature c FORK_BULLETPROOFS))) invalid_output in
  require (negb (negb has_bulletproofs && check_hard_fork_feature c FORK_BULLETPROOFS_REQ)) invalid_output.

(** ** The members a node computes *)

(** The keys of the outputs; boost::get throws on another kind of output. *)
Definition output_key (o : Transaction.tx_out) : result bytes :=
  match Transaction.target o with Transaction.txout_to_key key => ret key | _ => throw end.

Definition set_outPk (rv : rctSig) (outPk : list ctkey) : rctSig :=
  Rct (r_type rv) (r_message rv) (r_mixRing rv) (r_pseudoOuts rv) (r_ecdhInfo rv) outPk (r_txnFee rv)
    (r_rangeSigs rv) (r_bulletproofs rv) (r_MGs rv) (r_p_pseudoOuts rv).

Definition set_bulletproofs (rv : rctSig) (ps : list proof) : rctSig :=
  Rct (r_type rv) (r_message rv) (r_mixRing rv) (r_pseudoOuts rv) (r_ecdhInfo rv) (r_outPk rv) (r_txnFee rv)
    (r_rangeSigs rv) ps (r_MGs rv) (r_p_pseudoOuts rv).

(** The commitments of the one bulletproof; [None] is false.  The shift of an
    int by more than 30 places has no value. *)
Definition expand_bulletproof (outputs : nat) (rv : rctSig) : result (option rctSig) :=
  match r_bulletproofs rv with
  | [p] =>
      let L := length (Transaction.bp_L (bp_body p)) in
      let? _ := check (negb (Nat.ltb L 6)) in
      let* max_outputs := lift (if Nat.ltb 30 (L - 6) then None else Some (2 ^ Z.of_nat (L - 6))) in
      let? _ := check (Z.of_nat outputs <=? max_outputs) in
      let* V := each (fun k => scalarmultKey (mask k) INV_EIGHT) (r_outPk rv) in
      ret (Some (set_bulletproofs rv [Bp V (bp_body p)]))
  | _ => ret None
  end.

Definition expand_transaction_1 (tx : built) (base_only : bool) : result (option built) :=
  let rv := b_rct tx in
  let outs := Transaction.vout (b_prefix tx) in
  if is_coinbase (b_prefix tx) then ret (Some tx) else
  let? _ := check (Nat.eqb (length (r_outPk rv)) (length outs)) in
  let* keys := each output_key outs in
  let rv := set_outPk rv (zip_with (fun k key => Ct key (mask k)) (r_outPk rv) keys) in
  let? rv := (if negb base_only && (r_type rv =? Transaction.RCTTypeBulletproof) then expand_bulletproof (length outs) rv
              else ret (Some rv)) in
  ret (Some (Built (b_prefix tx) rv)).


(** ** The members of the rings *)

Definition CRYPTONOTE_LOCKED_TX_ALLOWED_DELTA_BLOCKS : Z := 1.

Definition is_tx_spendtime_unlocked (c : chain) (unlock_time : Z) : bool :=
  unlock_time <=? u64 (u64 (db_height c - 1) + CRYPTONOTE_LOCKED_TX_ALLOWED_DELTA_BLOCKS).

(** The loop over the absolute offsets: an output that was not fetched is looked
    up, and outputs_visitor::handle_output collects its keys.  The height of the
    last output goes to [pmax], if there is one.  [None] is false. *)
Fixpoint scan_loop (c : chain) (outputs : list output_data_t) (count : nat) (offsets : list Z) (pmax : option Z)
    : option (list ctkey * option Z) :=
  match offsets with
  | [] => Some ([], pmax)
  | i :: offsets =>
      data ← (match outputs !! count with Some data => Some data | None => get_output_key c i end);
      if is_tx_spendtime_unlocked c (od_unlock_time data) then
        let pmax := match offsets with
                    | [] => (fun m => if m <? od_height data then od_height data else m) <$> pmax
                    | _ => pmax
                    end in
        '(keys, pmax) ← scan_loop c outputs (S count) offsets pmax;
        Some (Ct (pubkey data) (commitment data) :: keys, pmax)
      else None
  end.

Definition scan_outputkeys_for_indexes (c : chain) (tx_prefix_hash : bytes) (key_offsets : list Z) (k_image : bytes)
    (pmax : option Z) : option (list ctkey * option Z) :=
  match key_offsets with
  | [] => None
  | _ =>
      let absolute_offsets := relative_output_offsets_to_absolute key_offsets in
      outputs ←
        (match scan_table c tx_prefix_hash k_image with
         | None =>
             let outputs := get_output_keys c absolute_offsets in
             if Nat.eqb (length absolute_offsets) (length outputs) then Some outputs else None
         | Some outputs =>
             if Nat.ltb (length outputs) (length absolute_offsets) && Nat.ltb 0 (length outputs) then
               let add_offsets := drop (length outputs) absolute_offsets in
               let add_outputs := get_output_keys c add_offsets in
               if Nat.eqb (length add_offsets) (length add_outputs) then Some (outputs ++ add_outputs) else None
             else Some outputs
         end);
      scan_loop c outputs 0 absolute_offsets pmax
  end.

(** The signatures of version 1 are given as an empty list. *)
Definition check_tx_input (c : chain) (tx_version : Z) (key_offsets : list Z) (k_image tx_prefix_hash : bytes) (pmax : option Z)
    : option (list ctkey * option Z) :=
  '(output_keys, pmax) ← scan_outputkeys_for_indexes c tx_prefix_hash key_offsets k_image pmax;
  if Nat.eqb (length key_offsets) (length output_keys) then
    if (tx_version =? 1) && negb (Nat.eqb 0 (length output_keys)) then None else Some (output_keys, pmax)
  else None.

(** ** Expanding the signature *)

Definition image_in (i : Transaction.txin_v) : result bytes :=
  match i with Transaction.txin_to_key _ _ k => ret k | _ => throw end.

Definition set_message_ring (rv : rctSig) (message : bytes) (mixRing : list (list ctkey)) (MGs : list mgSig) : rctSig :=
  Rct (r_type rv) message mixRing (r_pseudoOuts rv) (r_ecdhInfo rv) (r_outPk rv) (r_txnFee rv)
    (r_rangeSigs rv) (r_bulletproofs rv) MGs (r_p_pseudoOuts rv).

(** The rings of a full signature by column: column [m] has the member [m] of
    each ring that is long enough. *)
Definition transpose (n : nat) (pubkeys : list (list ctkey)) : list (list ctkey) :=
  map (fun m => omap (fun ring => ring !! m) pubkeys) (seq 0 n).

(** A MG that resize adds. *)
Definition mg_zero : mgSig := Mg [] (replicate 32 0) [].

Definition set_II (mg : mgSig) (images : list bytes) : mgSig := Mg (ss mg) (cc mg) images.

Definition expand_transaction_2 (tx : built) (tx_prefix_hash : bytes) (pubkeys : list (list ctkey)) : result (option rctSig) :=
  let p := b_prefix tx in
  let rv := b_rct tx in
  let? _ := check ((Transaction.version p =? 2) || (Transaction.version p =? 3)) in
  let full := r_type rv =? Transaction.RCTTypeFull in
  let simple := (r_type rv =? Transaction.RCTTypeSimple) || (r_type rv =? Transaction.RCTTypeBulletproof) in
  let? _ := check (full || simple) in
  let? first := ret (match pubkeys with [] :: _ | [] => None | first :: _ => Some first end) in
  let? mixRing :=
    (if full then
       let? _ := check (forallb (fun ring => Nat.leb (length ring) (length first)) pubkeys) in
       ret (Some (transpose (length first) pubkeys))
     else ret (Some pubkeys)) in
  let? MGs :=
    (if full then
       let* images := each image_in (Transaction.vin p) in
       ret (Some [set_II (default mg_zero (head (r_MGs rv))) images])
     else
       let? _ := check (Nat.eqb (length (r_MGs rv)) (length (Transaction.vin p))) in
       let* images := each image_in (Transaction.vin p) in
       ret (Some (zip_with (fun mg k => set_II mg [k]) (r_MGs rv) images))) in
  ret (Some (set_message_ring rv tx_prefix_hash mixRing MGs)).


(** ** check_tx_inputs *)

Definition MIN_MIXIN_V1 : Z := 12.
Definition MIN_MIXIN_V2 : Z := 24.
Definition MAX_MIXIN : Z := 240.
Definition MIN_TRANSACTION_VERSION : Z := 2.

(** The least and the greatest number of decoys. *)
Fixpoint mixin_loop (ins : list Transaction.txin_v) (lowest highest : Z) : verdict (Z * Z) :=
  match ins with
  | [] => accept (lowest, highest)
  | Transaction.txin_to_key _ key_offsets _ :: ins =>
      let vin_mixin := u64 (Z.of_nat (length key_offsets) - 1) in
      let lowest := if vin_mixin <? lowest then vin_mixin else lowest in
      let highest := if highest <? vin_mixin then vin_mixin else highest in
      let! _ := require (vin_mixin <=? MAX_MIXIN) verifivation_failed in
      mixin_loop ins lowest highest
  | _ :: ins => mixin_loop ins lowest highest
  end.

(** The fields of the extra: has_pubkey, has_extrapubkeys, has_uniform_pid. *)
Fixpoint extra_loop (outputs : nat) (uids_required : bool) (fields : list TxExtra.tx_extra_field) (pub extrapub uid : bool)
    : verdict (bool * bool * bool) :=
  match fields with
  | [] => accept (pub, extrapub, uid)
  | TxExtra.tx_extra_pub_key _ :: fields =>
      let! _ := require (negb pub) verifivation_failed in
      extra_loop outputs uids_required fields true extrapub uid
  | TxExtra.tx_extra_additional_pub_keys data :: fields =>
      let! _ := require (negb extrapub) verifivation_failed in
      let! _ := require (Nat.eqb (length data) outputs) verifivation_failed in
      extra_loop outputs uids_required fields pub true uid
  | TxExtra.tx_extra_uniform_payment_id _ :: fields =>
      if uids_required then
        let! _ := require (negb uid) verifivation_failed in
        extra_loop outputs uids_required fields pub extrapub true
      else extra_loop outputs uids_required fields pub extrapub uid
  | _ :: fields => extra_loop outputs uids_required fields pub extrapub uid
  end.

(** The key images get smaller: memcmp with the last one is negative. *)
Fixpoint sorted_loop (ins : list Transaction.txin_v) (last : option bytes) : verdict Datatypes.unit :=
  match ins with
  | [] => accept tt
  | Transaction.txin_to_key _ _ k :: ins =>
      let! _ := require (match last with Some l => memcmp_gt l k | None => true end) verifivation_failed in
      sorted_loop ins (Some k)
  | _ :: ins => sorted_loop ins last
  end.

Definition check_strict (c : chain) (p : Transaction.transaction_prefix) : verdict Datatypes.unit :=
  let uids_required := check_hard_fork_feature c FORK_UNIFORM_IDS_REQ in
  let! (has_pubkey, _, has_uniform_pid) :=
    extra_loop (length (Transaction.vout p)) uids_required (snd (TxExtra.parse_tx_extra (Transaction.extra p))) false false false in
  let! _ := require (negb (uids_required && negb has_uniform_pid)) verifivation_failed in
  let! _ := require has_pubkey verifivation_failed in
  sorted_loop (Transaction.vin p) None.

(** The rings of the inputs and the greatest height of an output in them. *)
Fixpoint rings_loop (c : chain) (tx_version : Z) (tx_prefix_hash : bytes) (ins : list Transaction.txin_v) (pmax : option Z)
    : verdict (list (list ctkey) * option Z) :=
  match ins with
  | [] => accept ([], pmax)
  | Transaction.txin_to_key _ key_offsets k_image :: ins =>
      let! _ := require (negb (Nat.eqb (length key_offsets) 0)) rejected in
      let! _ := require (negb (have_tx_keyimg_as_spent c k_image)) double_spend in
      let! (keys, pmax) := obtain (check_tx_input c tx_version key_offsets k_image tx_prefix_hash pmax) rejected in
      let! (pubkeys, pmax) := rings_loop c tx_version tx_prefix_hash ins pmax in
      accept (keys :: pubkeys, pmax)
  | _ :: _ => refuse rejected
  end.

#[global] Instance ctkey_eq_dec : EqDecision ctkey.
Proof. solve_decision. Defined.

(** The member of a matrix. *)
Definition member (mixRing : list (list ctkey)) (i j : nat) : option ctkey := row ← mixRing !! i; row !! j.

(** The comparisons of the rings with the expanded signature. *)
Definition same_rings (pubkeys mixRing : list (list ctkey)) : bool :=
  Nat.eqb (length pubkeys) (length mixRing)
  && forallb (fun '(a, b) => Nat.eqb (length a) (length b)) (zip pubkeys mixRing)
  && forallb (fun n => forallb (fun m => bool_decide (member pubkeys n m = member mixRing n m))
                         (seq 0 (length (default [] (pubkeys !! n))))) (seq 0 (length pubkeys)).

Definition same_columns (pubkeys mixRing : list (list ctkey)) : bool :=
  forallb (fun ring => Nat.eqb (length ring) (length mixRing)) pubkeys
  && forallb (fun column => Nat.eqb (length pubkeys) (length column)) mixRing
  && forallb (fun n => forallb (fun m => bool_decide (member pubkeys n m = member mixRing m n))
                         (seq 0 (length (default [] (pubkeys !! n))))) (seq 0 (length pubkeys)).

Section functions.

Context `{HF : !FastHash}.

Definition check_rct (vin : list Transaction.txin_v) (pubkeys : list (list ctkey)) (rv : rctSig) : verdict Datatypes.unit :=
  if (r_type rv =? Transaction.RCTTypeSimple) || (r_type rv =? Transaction.RCTTypeBulletproof) then
    let! _ := require (same_rings pubkeys (r_mixRing rv)) rejected in
    let! _ := require (Nat.eqb (length (r_MGs rv)) (length vin)) rejected in
    let* images := each image_in vin in
    let! _ := require (forallb (fun '(mg, k) => bool_decide (head (II mg) = Some k)) (zip (r_MGs rv) images)) rejected in
    verify (verRctNonSemanticsSimple rv)
  else if r_type rv =? Transaction.RCTTypeFull then
    let! _ := require (same_columns pubkeys (r_mixRing rv)) rejected in
    let! mg := obtain (match r_MGs rv with [mg] => Some mg | _ => None end) rejected in
    let! _ := require (Nat.eqb (length (II mg)) (length vin)) rejected in
    let* images := each image_in vin in
    let! _ := require (forallb (fun '(a, b) => bool_decide (a = b)) (zip (II mg) images)) rejected in
    verify (verRct rv false)
  else refuse rejected.

(** The checks before the rings are read. *)
Definition check_tx_form (c : chain) (p : Transaction.transaction_prefix) : verdict Datatypes.unit :=
  let! (lowest_mixin, highest_mixin) := mixin_loop (Transaction.vin p) (2 ^ 64 - 1) 0 in
  let min_mixin := if check_hard_fork_feature c FORK_RINGSIZE_INC_REQ then MIN_MIXIN_V2 else MIN_MIXIN_V1 in
  let! _ := require (min_mixin <=? lowest_mixin) low_mixin in
  let strict_tx_semantics := check_hard_fork_feature c FORK_STRICT_TX_SEMANTICS in
  let! _ := require (negb (strict_tx_semantics && negb (highest_mixin =? lowest_mixin))) verifivation_failed in
  let! _ := (if strict_tx_semantics then check_strict c p else accept tt) in
  let! _ := require (Transaction.version p <=? Transaction.MAX_TRANSACTION_VERSION) verifivation_failed in
  let min_tx_version := if check_hard_fork_feature c FORK_NEED_V3_TXES then 3 else MIN_TRANSACTION_VERSION in
  require (min_tx_version <=? Transaction.version p) verifivation_failed.

(** The expanded signature and the greatest height of a ring member. *)
Definition check_tx_inputs (c : chain) (tx : built) (pmax : bool) : verdict (rctSig * option Z) :=
  let p := b_prefix tx in
  let tx_prefix_hash := TxHash.get_transaction_prefix_hash p in
  let! _ := check_tx_form c p in
  let! (pubkeys, pmax) := rings_loop c (Transaction.version p) tx_prefix_hash (Transaction.vin p) (if pmax then Some 0 else None) in
  let* r := expand_transaction_2 tx tx_prefix_hash pubkeys in
  let! rv := obtain r rejected in
  let! _ := check_rct (Transaction.vin p) pubkeys rv in
  accept (rv, pmax).

End functions.


(** ** Signatures on the wire

    The message, the rings, the key images and the keys of the outputs are not
    serialized: a node finds them empty. *)

Definition null_key : bytes := replicate 32 0.

(** What expand_transaction_1 leaves to do. *)
Definition unexpanded (rv : rctSig) : rctSig := set_message_ring rv null_key [] (map (fun mg => set_II mg []) (r_MGs rv)).

(** What a node reads. *)
Definition received_rct (rv : rctSig) : rctSig :=
  set_outPk (unexpanded rv) (map (fun k => Ct null_key (mask k)) (r_outPk rv)).

Section wire.

Context `{HF : !FastHash} (VERIFY : list proof -> result bool).

(** The semantic verifications do not use what is missing. *)
Lemma semantics_unexpanded rv :
  verRctSemanticsSimple VERIFY [unexpanded rv] = verRctSemanticsSimple VERIFY [rv] /\ verRct (unexpanded rv) true = verRct rv true.
Proof.
  split.
  - assert (sizes_ok (unexpanded rv) = sizes_ok rv) as E.
    { unfold sizes_ok, is_bulletproof, unexpanded, set_message_ring. cbn. by rewrite length_map. }
    unfold verRctSemanticsSimple. cbn [forallb]. rewrite E. reflexivity.
  - unfold verRct, unexpanded, set_message_ring. cbn [r_type r_outPk r_rangeSigs r_ecdhInfo r_MGs]. by rewrite length_map.
Qed.

End wire.

(** ** What signing leaves in a signature *)

#[local] Opaque generate_key_image hashToPoint scalarmultKey encode zmul check_key genRctSimple genRct
  verRctSemanticsSimple verRctNonSemanticsSimple verRct TxHash.get_transaction_prefix_hash.

Section shape.

Context `{HF : !FastHash} (debug : bool).
Context (PROVE : list Z -> list bytes -> randomness -> result (proof * randomness)).
Context (VERIFY : list proof -> result bool).

(** The image in a signature is the image of the input. *)
Lemma same_image pk sk ki k :
  valid sk -> image_of pk sk ki -> generate_key_image debug pk sk = Some k -> ki = k.
Proof.
  intros V (Hi & E1 & E2) E. destruct (hash_to_ec_ok pk) as (Q & HQ). rewrite (hashToPoint_ok pk Q HQ) in E1. apply ret_inj in E1.
  rewrite <- E1, (scalarmultKey_ok Q sk (proj1 HQ) (valid_small _ V)) in E2. apply ret_inj in E2.
  rewrite (generate_key_image_ok debug pk sk Q V HQ) in E. congruence.
Qed.

Definition ring_of (src : tx_source_entry) : list ctkey := map snd (outputs src).

Record signature_shape (prefix : Transaction.transaction_prefix) (sources : list tx_source_entry) (ins : list built_input)
    (outs : list built_output) (rv : rctSig) : Prop := {
  shape_message : r_message rv = TxHash.get_transaction_prefix_hash prefix;
  shape_dests : map dest (r_outPk rv) = map out_key outs;
  shape_bulletproofs : r_bulletproofs rv = [];
  shape_rings :
    (r_type rv = Transaction.RCTTypeSimple /\ r_mixRing rv = map ring_of sources
     /\ Forall2 (fun mg i => II mg = [in_image i]) (r_MGs rv) ins)
    \/ (r_type rv = Transaction.RCTTypeFull /\ exists src i mg, sources = [src] /\ ins = [i]
        /\ r_mixRing rv = map (fun k => [k]) (ring_of src) /\ r_MGs rv = [mg] /\ II mg = [in_image i])
}.

Lemma sign_tx_shape prefix ins sources outs ds rng rv c rng' :
  Forall2 (input_for debug) sources ins ->
  sign_tx debug PROVE VERIFY prefix ins sources outs ds false false rng = ret (Some (rv, c, rng')) ->
  signature_shape prefix sources ins outs rv.
Proof.
  intros F E. unfold sign_tx in E. apply rbind_inv in E as (first & E0 & E). apply lift_inv in E0.
  apply rtry_inv in E as (u1 & E1 & E). apply rtry_inv in E as (u2 & E2 & E). clear E2.
  apply rbind_inv in E as ([[[rv' outSk] c'] rng1] & EG & E). apply rtry_inv in E as (u3 & _ & E). apply ret_inj in E.
  injection E as -> -> ->. rewrite orb_false_r in EG. destruct (Nat.ltb_spec 1 (length sources)) as [L|L].
  - destruct (genRctSimple_shape _ _ _ _ _ _ _ _ _ _ _ _ _ _ _ _ _ EG) as (T & M & R & _ & _ & D & B & LM & HI).
    split; [done|done|done|]. left. split; [done|]. split; [done|]. rewrite length_map in LM.
    apply Forall2_same_length_lookup. split; [by rewrite LM, (Forall2_length _ _ _ F)|]. intros n mg i Hm Hi.
    destruct (Forall2_lookup_r _ _ _ _ _ F Hi) as (src & Hs & (_ & _ & _ & o & Ho & Sp)).
    destruct (HI n (ring_of src) (Ct (sec (in_ephemeral i)) (src_mask src)) (real_output src) o.2) as (mg' & ki & Hm' & EI & IO).
    { by rewrite list_lookup_fmap, Hs. }
    { by rewrite lookup_zip_with, Hi, Hs. }
    { by rewrite list_lookup_fmap, Hs. }
    { unfold ring_of. by rewrite list_lookup_fmap, Ho. }
    rewrite Hm in Hm'. injection Hm' as <-. rewrite EI. f_equal. destruct Sp as (_ & V & _ & EK). by apply (same_image (dest o.2) (sec (in_ephemeral i))).
  - destruct sources as [|src [|]]; [done| |cbn in L; lia]. injection E0 as <-.
    apply Forall2_cons_inv_l in F as (i & ins' & (_ & _ & _ & o & Ho & Sp) & F & EI). apply Forall2_nil_inv_l in F. subst ins' ins.
    apply rbind_inv in EG as (mixRing & ER & EG). apply lift_inv in ER. rewrite full_ring_single in ER. injection ER as <-.
    apply rbind_inv in EG as ([[[rv1 masks] c1] rng2] & EG & E). apply ret_inj in E. injection E as -> -> <- ->.
    destruct (genRct_shape _ _ _ _ _ _ _ _ _ _ _ _ _ EG) as (T & M & R & _ & D & B & mg & EM & LI & HI).
    split; [done|done|done|]. right. split; [done|]. exists src, i, mg. split; [done|]. split; [done|].
    split; [rewrite R; unfold ring_of; by rewrite map_map|]. split; [done|].
    cbn [zip_with length] in LI. destruct (II mg) as [|ki [|]] eqn:EI; try discriminate.
    destruct (HI [o.2] 0%nat o.2 (Ct (sec (in_ephemeral i)) (src_mask src))) as (ki' & Hk & IO); [|done|done|].
    { by rewrite list_lookup_fmap, Ho. }
    injection Hk as <-. f_equal. destruct Sp as (_ & V & _ & EK). by apply (same_image (dest o.2) (sec (in_ephemeral i))).
Qed.

End shape.


(** ** The rings are read back from the chain *)

Section rings.

Context (c : chain).

(** A ring whose members are spendable outputs of the chain at increasing
    positions. *)
Definition ring_in_chain (src : tx_source_entry) : Prop :=
  Forall (fits 64) (map fst (outputs src)) /\ Sorted Z.lt (map fst (outputs src))
  /\ Forall (fun '(i, k) => exists o, get_output_key c i = Some o /\ pubkey o = dest k /\ commitment o = mask k
       /\ is_tx_spendtime_unlocked c (od_unlock_time o) = true) (outputs src).

Lemma sorted_le l : Sorted Z.lt l -> Sorted Z.le l.
Proof. induction 1 as [|x l S IH H]; constructor; [done|]. destruct H; constructor. lia. Qed.

Lemma merge_sort_id l : Sorted Z.lt l -> merge_sort Z.le l = l.
Proof.
  intros S. apply (Sorted_unique Z.le); [apply (Sorted_merge_sort Z.le)|by apply sorted_le|apply merge_sort_Permutation].
Qed.

Lemma relative_back l :
  Forall (fits 64) l -> Sorted Z.lt l -> relative_output_offsets_to_absolute (absolute_output_offsets_to_relative l) = l.
Proof.
  intros F S. unfold absolute_output_offsets_to_relative. rewrite merge_sort_id by done. destruct l as [|x l]; [done|].
  apply Forall_cons in F as [Hx F]. cbn [relative_output_offsets_to_absolute]. by rewrite offsets_back.
Qed.

Lemma relative_length l : length (absolute_output_offsets_to_relative l) = length l.
Proof.
  unfold absolute_output_offsets_to_relative. rewrite <- (Permutation_length (merge_sort_Permutation Z.le l)).
  destruct (merge_sort Z.le l) as [|x k]; [done|]. cbn [length]. f_equal. clear. revert x.
  induction k as [|y k IH]; intros x; cbn; [done|]. by rewrite IH.
Qed.

Lemma sub_previous_nonzero x l :
  Forall (fits 64) (x :: l) -> Sorted Z.lt (x :: l) -> Forall (fun o => o <> 0) (sub_previous x l).
Proof.
  revert x. induction l as [|y l IH]; intros x F S; cbn [sub_previous]; [constructor|].
  apply Forall_cons in F as [Hx F]. pose proof F as [Hy _]%Forall_cons. apply Sorted_inv in S as [S H]. inversion H; subst.
  constructor; [|by apply IH]. unfold fits in *. unfold wrap. rewrite Z.mod_small; lia.
Qed.

Lemma relative_nonzero l :
  Forall (fits 64) l -> Sorted Z.lt l -> Forall (fun o => o <> 0) (drop 1 (absolute_output_offsets_to_relative l)).
Proof.
  intros F S. unfold absolute_output_offsets_to_relative. rewrite merge_sort_id by done. destruct l as [|x l]; [constructor|].
  cbn [drop]. by apply sub_previous_nonzero.
Qed.

(** The outputs of the chain at the positions of a ring. *)
Lemma ring_outputs src :
  ring_in_chain src ->
  exists os, Forall2 (fun i o => get_output_key c i = Some o) (map fst (outputs src)) os
    /\ map (fun o => Ct (pubkey o) (commitment o)) os = ring_of src
    /\ Forall (fun o => is_tx_spendtime_unlocked c (od_unlock_time o) = true) os.
Proof.
  intros (_ & _ & F). unfold ring_of. induction F as [|[i k] l (o & Eo & Ep & Em & U) F (os & F2 & E & FU)].
  - exists []. split; [constructor|]. split; [done|constructor].
  - exists (o :: os). cbn [map fst snd]. split; [by constructor|]. split; [|by constructor].
    rewrite E, Ep, Em. by destruct k.
Qed.

Lemma get_output_keys_ok offsets os :
  Forall2 (fun i o => get_output_key c i = Some o) offsets os -> get_output_keys c offsets = os.
Proof. induction 1 as [|i o offsets os E F IH]; [done|]. cbn [get_output_keys]. by rewrite E, IH. Qed.

(** Fetched outputs that agree with the chain, as far as they go. *)
Lemma scan_loop_ok outs offsets os :
  Forall2 (fun i o => get_output_key c i = Some o) offsets os ->
  Forall (fun o => is_tx_spendtime_unlocked c (od_unlock_time o) = true) os ->
  forall count pmax, (forall j o, outs !! (count + j)%nat = Some o -> os !! j = Some o \/ os !! j = None) ->
  exists pmax', scan_loop c outs count offsets pmax = Some (map (fun o => Ct (pubkey o) (commitment o)) os, pmax').
Proof.
  induction 1 as [|i o offsets os E F IH]; intros U count pmax A; cbn [scan_loop map]; [by eexists|].
  apply Forall_cons in U as [Uo U].
  assert ((match outs !! count with Some data => Some data | None => get_output_key c i end) = Some o) as ->.
  { destruct (outs !! count) as [d|] eqn:Ed; [|done]. destruct (A 0%nat d) as [[= ->]|[=]]; [|done]. by rewrite Nat.add_0_r. }
  cbn [mbind option_bind]. rewrite Uo.
  edestruct (IH U (S count)) as (pmax' & ->); [|cbn; by eexists].
  intros j d Hd. apply (A (S j) d). by rewrite Nat.add_succ_r.
Qed.

(** The prefetched outputs of an input are those of the chain, or a part of
    them. *)
Definition scan_agrees (hash : bytes) (i : Transaction.txin_v) : Prop :=
  scan_table c hash (input_image i) = None
  \/ exists n, scan_table c hash (input_image i)
       = Some (take n (get_output_keys c (relative_output_offsets_to_absolute (input_offsets i)))).

Lemma fetched_cases (os : list output_data_t) offsets n :
  get_output_keys c offsets = os -> length offsets = length os ->
  (forall k, get_output_keys c (drop k offsets) = drop k os) ->
  exists outs,
    (if Nat.ltb (length (take n os)) (length offsets) && Nat.ltb 0 (length (take n os)) then
       let add_offsets := drop (length (take n os)) offsets in
       let add_outputs := get_output_keys c add_offsets in
       if Nat.eqb (length add_offsets) (length add_outputs) then Some (take n os ++ add_outputs) else None
     else Some (take n os)) = Some outs
    /\ (outs = os \/ outs = []).
Proof.
  intros E L D. rewrite length_take, L. destruct (Nat.ltb_spec (n `min` length os) (length os)) as [H|H]; cbn [andb].
  - destruct (Nat.ltb_spec 0 (n `min` length os)) as [H0|H0].
    + replace (n `min` length os)%nat with n by lia. cbv zeta. rewrite D, !length_drop, L, Nat.eqb_refl.
      exists os. rewrite take_drop. by split; [|left].
    + replace n with 0%nat by lia. exists []. by split; [|right].
  - rewrite take_ge by lia. exists os. by split; [|left].
Qed.

Lemma scan_ok hash amount src image pmax :
  ring_in_chain src -> outputs src <> [] ->
  let offsets := absolute_output_offsets_to_relative (map fst (outputs src)) in
  scan_agrees hash (Transaction.txin_to_key amount offsets image) ->
  exists pmax', scan_outputkeys_for_indexes c hash offsets image pmax = Some (ring_of src, pmax').
Proof.
  intros R N offsets A. pose proof R as (F & S & _). destruct (ring_outputs src R) as (os & F2 & EK & U).
  pose proof (relative_back _ F S) as EB. fold offsets in EB. pose proof (get_output_keys_ok _ _ F2) as EG.
  assert (offsets <> []) as NO.
  { intros Z. apply N. apply (f_equal length) in Z. unfold offsets in Z. rewrite relative_length, length_map in Z.
    by apply length_zero_iff_nil in Z. }
  unfold scan_outputkeys_for_indexes. destruct offsets as [|o0 offsets'] eqn:EO; [done|]. rewrite <- EO in *.
  rewrite EB. unfold scan_agrees in A. cbn [input_image input_offsets] in A. rewrite EB, EG in A.
  pose proof (Forall2_length _ _ _ F2) as L.
  assert (exists outs, (match scan_table c hash image with
     | None =>
         let outputs := get_output_keys c (map fst (outputs src)) in
         if Nat.eqb (length (map fst (TxBuild.outputs src))) (length outputs) then Some outputs else None
     | Some outputs =>
         if Nat.ltb (length outputs) (length (map fst (TxBuild.outputs src))) && Nat.ltb 0 (length outputs) then
           let add_offsets := drop (length outputs) (map fst (TxBuild.outputs src)) in
           let add_outputs := get_output_keys c add_offsets in
           if Nat.eqb (length add_offsets) (length add_outputs) then Some (outputs ++ add_outputs) else None
         else Some outputs
     end) = Some outs /\ (outs = os \/ outs = [])) as (outs & EX & HO).
  { destruct A as [->|(n & ->)].
    - cbv zeta. rewrite EG, L, Nat.eqb_refl. exists os. by split; [|left].
    - apply fetched_cases; [done|done|]. intros k. by apply get_output_keys_ok, Forall2_drop. }
  cbv zeta in EX |- *. rewrite EX. cbn [mbind option_bind].
  destruct (scan_loop_ok outs _ _ F2 U 0 pmax) as (pmax' & ->); [|rewrite EK; by eexists].
  intros j o Ho. destruct HO as [-> | ->]; [by left|done].
Qed.

End rings.


(** ** The loops over the inputs *)

Lemma vbind_accept {A B} (k : A -> verdict B) a : vbind k (accept a) = k a.
Proof. done. Qed.

Lemma require_holds b f : b = true -> require b f = accept tt.
Proof. by intros ->. Qed.

(** One step of a computation whose first part accepts. *)
Ltac vgo := rewrite vbind_accept; cbv beta iota.
Ltac vgo_by H := rewrite (require_holds _ _ H); vgo.

Lemma mixin_loop_ok n ins : forall lo hi,
  Forall (fun i => is_to_key i = true /\ length (input_offsets i) = n) ins ->
  1 <= Z.of_nat n <= MAX_MIXIN + 1 -> Z.of_nat n - 1 <= lo -> hi <= Z.of_nat n - 1 ->
  mixin_loop ins lo hi
  = accept (match ins with [] => (lo, hi) | _ => (Z.of_nat n - 1, Z.of_nat n - 1) end).
Proof.
  induction ins as [|i ins IH]; intros lo hi F Hn Hl Hh; [done|]. apply Forall_cons in F as [[T L] F].
  destruct i as [| | |amount offsets k]; try done. cbn [mixin_loop input_offsets] in *. rewrite L.
  unfold MAX_MIXIN in *. rewrite (wrap_small 64) by (unfold fits; lia). cbv zeta.
  rewrite (require_holds (Z.of_nat n - 1 <=? 240)) by (apply Z.leb_le; lia). vgo. rewrite IH; [|done|unfold MAX_MIXIN; lia|..].
  - destruct ins; [|done]. destruct (Z.ltb_spec (Z.of_nat n - 1) lo), (Z.ltb_spec hi (Z.of_nat n - 1)); do 2 f_equal; lia.
  - destruct (Z.ltb_spec (Z.of_nat n - 1) lo); lia.
  - destruct (Z.ltb_spec hi (Z.of_nat n - 1)); lia.
Qed.

(** Sorted and distinct images get smaller. *)
Lemma sorted_loop_ok ins : forall last,
  Forall (fun i => is_to_key i = true /\ length (input_image i) = 32%nat) ins ->
  NoDup (option_list last ++ map input_image ins) -> (forall l, last = Some l -> length l = 32%nat) ->
  Sorted (fun a b => memcmp_gt b a = false) (option_list last ++ map input_image ins) ->
  sorted_loop ins last = accept tt.
Proof.
  induction ins as [|i ins IH]; intros last F N LL S; [done|]. apply Forall_cons in F as [[T L] F].
  destruct i as [| | |amount offsets k]; try done. cbn [sorted_loop map input_image] in *.
  rewrite require_holds.
  - vgo. apply IH; [done| |by intros l [= <-]|]; destruct last as [l|]; cbn [option_list app] in *; try done.
    + by apply NoDup_cons in N as [_ N].
    + by apply Sorted_inv in S as [S _].
  - destruct last as [l|]; [|done]. cbn [option_list app] in *. apply Sorted_inv in S as [_ S]. apply HdRel_inv in S.
    destruct (memcmp_gt l k) eqn:G; [done|]. exfalso. apply NoDup_cons in N as [N _]. apply N.
    rewrite (memcmp_gt_total l k) by (rewrite ?L; auto). apply list_elem_of_here.
Qed.

Section loops.

Context (c : chain) (tx_prefix_hash : bytes).

(** An input and the source it was made from. *)
Definition reads (src : tx_source_entry) (i : Transaction.txin_v) : Prop :=
  is_to_key i = true /\ input_offsets i = absolute_output_offsets_to_relative (map fst (outputs src))
  /\ ring_in_chain c src /\ outputs src <> [] /\ (input_image i ∉ db_spent c) /\ scan_agrees c tx_prefix_hash i.

Lemma rings_loop_ok version sources ins : forall pmax,
  version <> 1 -> Forall2 reads sources ins ->
  exists pmax', rings_loop c version tx_prefix_hash ins pmax = accept (map ring_of sources, pmax').
Proof.
  intros pmax V F. revert pmax. induction F as [|src i sources ins (T & EO & R & N & U & A) F IH]; intros pmax; [by eexists|].
  destruct i as [| | |amount offsets k]; try done. cbn [rings_loop input_offsets input_image map] in *.
  assert (length offsets <> 0%nat) as NL.
  { rewrite EO, relative_length, length_map. by rewrite length_zero_iff_nil. }
  rewrite (require_holds (negb (Nat.eqb (length offsets) 0))) by (by apply negb_true_iff, Nat.eqb_neq). vgo.
  rewrite require_holds by (unfold have_tx_keyimg_as_spent; by rewrite bool_decide_eq_false_2). vgo.
  rewrite EO in A. destruct (scan_ok c tx_prefix_hash amount src k pmax R N A) as (pmax1 & ES).
  assert (check_tx_input c version offsets k tx_prefix_hash pmax = Some (ring_of src, pmax1)) as ->.
  { unfold check_tx_input. rewrite EO, ES. cbn [mbind option_bind]. unfold ring_of.
    rewrite relative_length, !length_map, Nat.eqb_refl. by rewrite (proj2 (Z.eqb_neq version 1) V). }
  change (obtain (Some (ring_of src, pmax1)) rejected) with (accept (ring_of src, pmax1)). vgo.
  destruct (IH pmax1) as (pmax2 & ->). vgo. by eexists.
Qed.

End loops.

(** ** The extra *)

Lemma extra_loop_ok outputs (uids : bool) R (additional : option (list bytes)) pid :
  (forall l, additional = Some l -> length l = outputs) ->
  exists b, extra_loop outputs uids (map TxExtra.op_field (extra_ops R additional pid)) false false false = accept (true, b, uids).
Proof.
  intros L. destruct additional as [l|]; cbn [extra_ops app map TxExtra.op_field extra_loop];
    rewrite ?(require_holds (negb false)) by done; vgo.
  - vgo. rewrite (require_holds (Nat.eqb _ _)) by (by apply Nat.eqb_eq, L). vgo. destruct uids; [vgo|]; by eexists.
  - destruct uids; [vgo|]; by eexists.
Qed.


(** ** Expanding what was received *)

Section expansion.

Context `{HF : !FastHash} (VERIFY : list proof -> result bool).
Context (p : Transaction.transaction_prefix) (sources : list tx_source_entry) (ins : list built_input) (outs : list built_output).
Context (rv : rctSig).

Hypothesis shape : signature_shape p sources ins outs rv.
Hypothesis vin_of : Transaction.vin p = zip_with txin_of sources ins.
Hypothesis vout_of : Transaction.vout p
  = map (fun o => {| Transaction.amount := 0; Transaction.target := Transaction.txout_to_key (out_key o) |}) outs.
Hypothesis same_length : length sources = length ins.

Lemma type_cases : r_type rv = Transaction.RCTTypeSimple \/ r_type rv = Transaction.RCTTypeFull.
Proof using shape. destruct (shape_rings _ _ _ _ _ shape) as [(T & _)|(T & _)]; [by left|by right]. Qed.

Lemma vin_length : length (Transaction.vin p) = length ins.
Proof using vin_of same_length. rewrite vin_of, length_zip_with. lia. Qed.

Lemma not_coinbase : is_coinbase p = false.
Proof using vin_of same_length.
  unfold is_coinbase. rewrite vin_of. generalize same_length. clear. destruct sources as [|src [|]], ins as [|i [|]]; done.
Qed.

Lemma outs_lengths : length (r_outPk rv) = length outs.
Proof using shape. pose proof (f_equal length (shape_dests _ _ _ _ _ shape)) as E. by rewrite !length_map in E. Qed.

Lemma each_output_keys l :
  each output_key (map (fun o => {| Transaction.amount := 0; Transaction.target := Transaction.txout_to_key (out_key o) |}) l)
  = ret (map out_key l).
Proof. induction l as [|o l IH]; [done|]. cbn [map each]. cbn [output_key Transaction.target]. rgo. rewrite IH. by rgo. Qed.

Lemma each_images : each image_in (Transaction.vin p) = ret (map in_image ins).
Proof using vin_of same_length.
  rewrite vin_of. generalize same_length. clear. revert ins. induction sources as [|src l IH]; intros [|i ins] L; try discriminate; [done|].
  cbn [zip_with map each]. cbn [txin_of image_in]. rgo. rewrite IH by (cbn in L; lia). by rgo.
Qed.

Lemma restored_keys : zip_with (fun k key => Ct key (mask k)) (map (fun k => Ct null_key (mask k)) (r_outPk rv)) (map out_key outs)
  = r_outPk rv.
Proof using shape.
  rewrite <- (shape_dests _ _ _ _ _ shape). induction (r_outPk rv) as [|k l IH]; [done|]. cbn [map zip_with dest mask]. f_equal; [by destruct k|exact IH].
Qed.

Lemma expand_1_ok : expand_transaction_1 (Built p (received_rct rv)) false = ret (Some (Built p (unexpanded rv))).
Proof using shape vin_of vout_of same_length.
  unfold expand_transaction_1. cbn [b_prefix b_rct]. rewrite not_coinbase. cbn [received_rct set_outPk r_outPk].
  rewrite length_map, outs_lengths, vout_of, length_map, check_holds by apply Nat.eqb_refl. tgo. rewrite each_output_keys. rgo.
  cbv zeta. rewrite restored_keys.
  assert ((r_type rv =? Transaction.RCTTypeBulletproof) = false) as TB by (destruct type_cases as [-> | ->]; done).
  cbn [set_outPk received_rct unexpanded set_message_ring r_type]. rewrite TB. cbn [negb andb]. by tgo.
Qed.

Lemma restored_images mgs l :
  Forall2 (fun mg i => II mg = [in_image i]) mgs l ->
  zip_with (fun mg k => set_II mg [k]) (map (fun mg => set_II mg []) mgs) (map in_image l) = mgs.
Proof. induction 1 as [|mg i mgs l E F IH]; [done|]. cbn. rewrite IH. f_equal. destruct mg. cbn in *. by subst. Qed.

Lemma transpose_single l : transpose (length l) [l] = map (fun k => [k]) l.
Proof.
  unfold transpose. apply list_eq. intros j. rewrite !list_lookup_fmap. destruct (decide (j < length l)%nat) as [H|H].
  - rewrite lookup_seq_lt by done. destruct (lookup_lt_is_Some_2 l j H) as [k Hk]. cbn. by rewrite Hk.
  - rewrite lookup_seq_ge, lookup_ge_None_2 by lia. done.
Qed.

Lemma restored_signature : set_message_ring (unexpanded rv) (r_message rv) (r_mixRing rv) (r_MGs rv) = rv.
Proof. by destruct rv. Qed.

Lemma first_ring l :
  l <> [] -> Forall (fun src => ring_of src <> []) l ->
  exists r, (match map ring_of l with [] :: _ | [] => None | first :: _ => Some first end) = Some r
    /\ forall src, l = [src] -> r = ring_of src.
Proof.
  intros N R. destruct l as [|src0 srcs]; [done|]. apply Forall_cons in R as [R0 _]. exists (ring_of src0).
  split; [cbn [map]; by destruct (ring_of src0)|by intros src [= ->]].
Qed.

Lemma expand_2_ok :
  Transaction.version p = 3 -> sources <> [] -> Forall (fun src => ring_of src <> []) sources ->
  expand_transaction_2 (Built p (unexpanded rv)) (TxHash.get_transaction_prefix_hash p) (map ring_of sources) = ret (Some rv).
Proof using shape vin_of same_length.
  intros V N R. unfold expand_transaction_2. cbv zeta. cbn [b_prefix b_rct].
  rewrite V, (check_holds ((3 =? 2) || (3 =? 3)) eq_refl). tgo. cbn [unexpanded set_message_ring r_type r_MGs].
  rewrite (check_holds ((r_type rv =? Transaction.RCTTypeFull) || _)) by (destruct type_cases as [-> | ->]; done). tgo.
  destruct (first_ring sources N R) as (r0 & -> & H0).
  tgo. rewrite <- (shape_message _ _ _ _ _ shape).
  destruct (shape_rings _ _ _ _ _ shape) as [(T & M & F)|(T & src & i & mg & E1 & E2 & M & EM & EI)]; rewrite T.
  - change (Transaction.RCTTypeSimple =? Transaction.RCTTypeFull) with false. cbv iota. tgo.
    rewrite length_map, vin_length, (Forall2_length _ _ _ F), check_holds by apply Nat.eqb_refl. tgo. rewrite each_images. rgo. tgo.
    rewrite restored_images by exact F. rewrite <- M, <- restored_signature at 1. by destruct rv.
  - change (Transaction.RCTTypeFull =? Transaction.RCTTypeFull) with true. cbv iota. rewrite (H0 src E1), E1.
    cbn [map forallb]. rewrite Nat.leb_refl, check_holds by done. tgo. tgo. rewrite each_images. rgo. tgo.
    rewrite transpose_single, <- M, EM, E2. cbn [map head default]. unfold id.
    assert ([set_II (set_II mg []) [in_image i]] = r_MGs rv) as -> by (rewrite EM, <- EI; by destruct mg).
    by rewrite <- restored_signature at 1; destruct rv.
Qed.

End expansion.


(** ** Accepting what was received *)

Lemma zip_diag {A} (P : A * A -> bool) l : (forall x, P (x, x) = true) -> forallb P (zip l l) = true.
Proof. intros H. induction l as [|x l IH]; [done|]. cbn. by rewrite H. Qed.

Lemma forallb_seq_all P n : (forall i, (i < n)%nat -> P i = true) -> forallb P (seq 0 n) = true.
Proof. intros H. apply forallb_forall. intros i Hi. apply in_seq in Hi. apply H. lia. Qed.

Lemma same_rings_refl l : same_rings l l = true.
Proof.
  unfold same_rings. rewrite Nat.eqb_refl. rewrite zip_diag by (intros x; apply Nat.eqb_refl).
  apply forallb_seq_all. intros i _. apply forallb_seq_all. intros j _. by apply bool_decide_eq_true_2.
Qed.

Lemma same_columns_single l : same_columns [l] (map (fun k => [k]) l) = true.
Proof.
  unfold same_columns. cbn [forallb length]. rewrite length_map, Nat.eqb_refl. cbn [andb].
  assert (forallb (fun column : list ctkey => Nat.eqb 1 (length column)) (map (fun k => [k]) l) = true) as ->.
  { apply forallb_forall. intros x (k & <- & _)%in_map_iff. done. }
  cbn [andb seq forallb lookup list_lookup default]. unfold id. rewrite andb_true_r. apply forallb_seq_all. intros j Hj.
  apply bool_decide_eq_true_2. unfold member. rewrite list_lookup_fmap. cbn. destruct (l !! j) as [k|]; done.
Qed.

Section accepting.

Context `{HF : !FastHash} (VERIFY : list proof -> result bool).
Context (p : Transaction.transaction_prefix) (sources : list tx_source_entry) (ins : list built_input) (outs : list built_output).
Context (rv : rctSig).

Hypothesis shape : signature_shape p sources ins outs rv.
Hypothesis vin_of : Transaction.vin p = zip_with txin_of sources ins.
Hypothesis vout_of : Transaction.vout p
  = map (fun o => {| Transaction.amount := 0; Transaction.target := Transaction.txout_to_key (out_key o) |}) outs.
Hypothesis same_length : length sources = length ins.
Hypothesis out_keys : Forall (fun o => is_key (out_key o)) outs.
Hypothesis accepted : rct_accepted VERIFY rv.

Lemma check_rct_ok : check_rct (Transaction.vin p) (map ring_of sources) rv = accept tt.
Proof using shape vin_of same_length accepted.
  pose proof (each_images p sources ins vin_of same_length) as EI. pose proof (vin_length p sources ins vin_of same_length) as LV.
  unfold check_rct. destruct (shape_rings _ _ _ _ _ shape) as [(T & M & F)|(T & src & i & mg & E1 & E2 & M & EM & II1)].
  - destruct accepted as [(_ & _ & V)|(T' & _)]; [|rewrite T in T'; discriminate]. rewrite T, M.
    change ((Transaction.RCTTypeSimple =? Transaction.RCTTypeSimple) || _) with true. cbv iota.
    rewrite (require_holds _ _ (same_rings_refl _)). vgo.
    rewrite LV, (Forall2_length _ _ _ F), (require_holds _ _ (Nat.eqb_refl _)). vgo. rewrite EI. rgo.
    rewrite require_holds; [vgo; by rewrite V|].
    clear -F. induction F as [|mg i mgs l E F IH]; [done|]. cbn [map zip zip_with forallb]. rewrite E. cbn [head].
    rewrite bool_decide_eq_true_2 by done. exact IH.
  - destruct accepted as [(T' & _)|(_ & _ & V)]; [rewrite T in T'; discriminate|]. rewrite T, M, E1. cbn [map].
    change ((Transaction.RCTTypeFull =? Transaction.RCTTypeSimple) || _) with false. cbv iota.
    change (Transaction.RCTTypeFull =? Transaction.RCTTypeFull) with true. cbv iota.
    rewrite (require_holds _ _ (same_columns_single _)). vgo. rewrite EM.
    change (obtain (Some mg) rejected) with (accept mg). vgo. rewrite LV, II1, E2, require_holds by done. vgo.
    rewrite EI, E2. rgo. rewrite require_holds; [vgo; by rewrite V|]. cbn. by rewrite bool_decide_eq_true_2.
Qed.

Lemma output_keys_accepted l : Forall (fun o => is_key (out_key o)) l ->
  output_keys_ok (map (fun o => {| Transaction.amount := 0; Transaction.target := Transaction.txout_to_key (out_key o) |}) l)
  = accept tt.
Proof.
  induction 1 as [|o l K F IH]; [done|]. cbn [map output_keys_ok]. cbn [Transaction.target]. rewrite (proj2 K). rgo.
  rewrite require_holds by done. vgo. exact IH.
Qed.

Lemma check_tx_outputs_ok c :
  check_hard_fork_feature c FORK_BULLETPROOFS_REQ = false -> check_tx_outputs c (Built p (unexpanded rv)) = accept tt.
Proof using shape vout_of out_keys.
  intros H. unfold check_tx_outputs. cbn [b_prefix b_rct]. rewrite vout_of.
  rewrite (require_holds (forallb _ _)).
  - vgo. rewrite (output_keys_accepted outs out_keys). vgo. cbv zeta. cbn [unexpanded set_message_ring r_type r_bulletproofs].
    rewrite (shape_bulletproofs _ _ _ _ _ shape), H.
    assert ((r_type rv =? Transaction.RCTTypeBulletproof) = false) as ->.
    { destruct (type_cases _ _ _ _ _ shape) as [-> | ->]; done. }
    cbn [negb andb orb length Nat.eqb]. by rewrite require_holds.
  - apply forallb_forall. intros x (o & <- & _)%in_map_iff. done.
Qed.

Lemma semantics_verified_ok : semantics_verified VERIFY (unexpanded rv).
Proof using accepted.
  destruct (semantics_unexpanded VERIFY rv) as [E1 E2]. unfold semantics_verified.
  destruct accepted as [(T & V & _)|(T & V & _)]; [left|right]; (split; [|congruence]); cbn [unexpanded set_message_ring r_type]; auto.
Qed.

End accepting.


(** ** Transactions that were built are accepted *)

Section built_inputs.

Context `{HF : !FastHash} (debug : bool) (c : chain).

Lemma spent_image pk p k : spends debug pk p k -> scalar k /\ in_subgroup k.
Proof.
  intros (_ & V & _ & E). destruct (hash_to_ec_ok pk) as (Q & HQ). rewrite (generate_key_image_ok debug pk (sec p) Q V HQ) in E.
  injection E as <-. destruct HQ as (CQ & OQ & _). split; [apply encode_scalar|]. exists (zmul (num (sec p)) Q).
  split; [by apply zmul_curve|]. split; [done|].
  rewrite <- zmul_mul, Z.mul_comm, zmul_mul, OQ by done. apply zmul_zero.
Qed.

(** What the checks see of an input. *)
Definition good_input (src : tx_source_entry) (i : Transaction.txin_v) : Prop :=
  is_to_key i = true /\ input_offsets i = absolute_output_offsets_to_relative (map fst (outputs src))
  /\ 0 <= input_amount i <= src_amount src /\ src_amount src < 2 ^ 64 /\ scalar (input_image i) /\ in_subgroup (input_image i)
  /\ (2 <= length (outputs src))%nat.

Lemma good_inputs sources ins :
  Forall2 (input_for debug) sources ins ->
  Forall2 good_input sources (zip_with txin_of sources ins)
  /\ map input_image (zip_with txin_of sources ins) = map in_image ins.
Proof.
  induction 1 as [|src i sources ins (EA & EO & Sp & o & Ho & SI) F [IH1 IH2]]; [done|]. cbn [zip_with map]. split; [|by f_equal].
  constructor; [|done]. destruct (spent_image _ _ _ SI) as [S1 S2]. destruct Sp as (A & L & _).
  cbn [rct_input i_amount i_ring] in *. rewrite length_map in L. unfold amount_ok in A.
  split_and!; try done; cbn [txin_of input_amount]; rewrite ?EA; destruct (src_rct src); lia.
Qed.

Lemma good_sums sources vin :
  Forall2 good_input sources vin ->
  Forall (fits 64) (map input_amount vin) /\ 0 <= zsum (map input_amount vin) <= zsum (map src_amount sources).
Proof.
  induction 1 as [|src i sources vin (_ & _ & A & A2 & _) F [IH1 IH2]]; [cbn; split; [constructor|lia]|]. cbn [map zsum].
  split; [constructor; [unfold fits; lia|done]|lia].
Qed.

Lemma good_Forall (P : Transaction.txin_v -> Prop) (R : tx_source_entry -> Prop) sources vin :
  Forall2 good_input sources vin -> Forall R sources -> (forall src i, R src -> good_input src i -> P i) -> Forall P vin.
Proof. intros F FR H. induction F as [|src i sources vin G F IH]; [constructor|]. apply Forall_cons in FR as [? ?]. constructor; eauto. Qed.

Lemma good_reads hash sources vin :
  Forall2 good_input sources vin -> Forall (ring_in_chain c) sources ->
  Forall (fun i => input_image i ∉ db_spent c) vin -> Forall (scan_agrees c hash) vin -> Forall2 (reads c hash) sources vin.
Proof.
  intros F R U A. induction F as [|src i sources vin (T & EO & _ & _ & _ & _ & L) F IH]; [constructor|].
  apply Forall_cons in R as [? ?]. apply Forall_cons in U as [? ?]. apply Forall_cons in A as [? ?].
  constructor; [|by apply IH]. split_and!; try done. intros E. rewrite E in L. cbn in L. lia.
Qed.

Lemma sorted_images ins : images_sorted ins -> Sorted (fun a b => memcmp_gt b a = false) (map in_image ins).
Proof. unfold images_sorted. induction 1 as [|i l S IH H]; constructor; [done|]. destruct H; by constructor. Qed.

End built_inputs.


Section accepted_transactions.

Context `{HF : !FastHash} (debug : bool).
Context (PROVE : list Z -> list bytes -> randomness -> result (proof * randomness)).
Context (VERIFY : list proof -> result bool).

(** A chain that has the rings of the request, in the size its rules ask for,
    and does not ask for bulletproofs. *)
Record chain_ready (c : chain) (n : nat) (q : request) : Prop := {
  ready_rings : Forall (ring_in_chain c) (q_sources q);
  ready_ring_size : Forall (fun src => length (outputs src) = n) (q_sources q);
  ready_mixin :
    (if check_hard_fork_feature c FORK_RINGSIZE_INC_REQ then MIN_MIXIN_V2 else MIN_MIXIN_V1) < Z.of_nat n <= MAX_MIXIN + 1;
  ready_borromean : check_hard_fork_feature c FORK_BULLETPROOFS_REQ = false
}.

(** check_tx_inputs, from what its parts see. *)
Lemma check_tx_inputs_ok c n p sources ins outs rv R additional pid :
  signature_shape p sources ins outs rv -> rct_accepted VERIFY rv ->
  Forall2 (input_for debug) sources ins -> sources <> [] ->
  Transaction.vin p = zip_with txin_of sources ins -> Transaction.version p = 3 ->
  TxExtra.parse_tx_extra (Transaction.extra p) = (true, map TxExtra.op_field (extra_ops R additional pid)) ->
  (forall l, additional = Some l -> length l = length (Transaction.vout p)) ->
  images_sorted ins -> NoDup (map in_image ins) ->
  Forall (ring_in_chain c) sources -> Forall (fun src => length (outputs src) = n) sources ->
  (if check_hard_fork_feature c FORK_RINGSIZE_INC_REQ then MIN_MIXIN_V2 else MIN_MIXIN_V1) < Z.of_nat n <= MAX_MIXIN + 1 ->
  Forall (fun i => input_image i ∉ db_spent c) (Transaction.vin p) ->
  Forall (scan_agrees c (TxHash.get_transaction_prefix_hash p)) (Transaction.vin p) ->
  exists pmax, check_tx_inputs c (Built p (unexpanded rv)) true = accept (rv, pmax).
Proof.
  intros Sh Ac F N EV V EX LX SI ND FR FL Hn FU FA. destruct (good_inputs debug _ _ F) as [G EI]. rewrite <- EV in G, EI.
  assert (1 < Z.of_nat n) as Hn1.
  { unfold MIN_MIXIN_V1, MIN_MIXIN_V2 in Hn. destruct (check_hard_fork_feature c FORK_RINGSIZE_INC_REQ); lia. }
  destruct (rings_loop_ok c (TxHash.get_transaction_prefix_hash p) 3 _ _ (Some 0) ltac:(lia) (good_reads c _ _ _ G FR FU FA)) as (pmax & ER).
  exists pmax. unfold check_tx_inputs, check_tx_form. cbn [b_prefix b_rct]. cbv zeta.
  rewrite (mixin_loop_ok n); [|by apply (good_Forall _ _ _ _ G FL); intros src i L (T & -> & _); rewrite relative_length, length_map
    |lia|unfold MAX_MIXIN in Hn; lia|lia].
  vgo. assert (exists i l, Transaction.vin p = i :: l) as (i0 & l0 & EL).
  { destruct (Transaction.vin p) as [|i l]; [|by eexists _, _]. apply Forall2_nil_inv_r in G. done. }
  rewrite EL at 1. cbv iota. rewrite (require_holds (_ <=? Z.of_nat n - 1)) by (apply Z.leb_le; lia). vgo.
  rewrite Z.eqb_refl, andb_false_r, (require_holds (negb false)) by done. vgo.
  assert ((if check_hard_fork_feature c FORK_STRICT_TX_SEMANTICS then check_strict c p else accept tt) = accept tt) as ->.
  { destruct (check_hard_fork_feature c FORK_STRICT_TX_SEMANTICS); [|done]. unfold check_strict. rewrite EX. cbn [snd].
    destruct (extra_loop_ok (length (Transaction.vout p)) (check_hard_fork_feature c FORK_UNIFORM_IDS_REQ) R additional pid LX)
      as (b & ->). vgo. rewrite andb_negb_r, (require_holds (negb false)) by done. vgo. rewrite (require_holds true) by done. vgo.
    apply sorted_loop_ok; cbn [option_list app]; try done; rewrite ?EI; try done; [|by apply sorted_images].
    apply (good_Forall _ _ _ _ G FL). intros src i _ (T & _ & _ & _ & [_ L] & _). done. }
  vgo. rewrite V, (require_holds (3 <=? Transaction.MAX_TRANSACTION_VERSION)) by done. vgo.
  rewrite (require_holds (_ <=? 3)) by (destruct (check_hard_fork_feature c FORK_NEED_V3_TXES); done). vgo.
  rewrite ER. vgo.
  rewrite (expand_2_ok p sources ins outs rv Sh EV (Forall2_length _ _ _ F) V N).
  - rgo. change (obtain (Some rv) rejected) with (accept rv). vgo.
    rewrite (check_rct_ok VERIFY p sources ins outs rv Sh EV (Forall2_length _ _ _ F) Ac). by vgo.
  - eapply Forall_impl; [exact FL|]. intros src L E. apply (f_equal length) in E. unfold ring_of in E. rewrite length_map, L in E.
    cbn in E. lia.
Qed.

Lemma built_semantic p sources ins outs rv blob_size limit :
  signature_shape p sources ins outs rv -> rct_accepted VERIFY rv ->
  Forall2 (input_for debug) sources ins -> sources <> [] -> Transaction.vin p = zip_with txin_of sources ins ->
  Transaction.vout p
    = map (fun o => {| Transaction.amount := 0; Transaction.target := Transaction.txout_to_key (out_key o) |}) outs ->
  Forall (fun o => is_key (out_key o)) outs -> Forall (fun src => Forall (fits 64) (map fst (outputs src))
    /\ Sorted Z.lt (map fst (outputs src))) sources ->
  zsum (map src_amount sources) < 2 ^ 64 -> NoDup (map input_image (Transaction.vin p)) ->
  blob_size < u64 (limit - CRYPTONOTE_COINBASE_BLOB_RESERVED_SIZE) ->
  check_tx_semantic VERIFY (Built p (unexpanded rv)) false blob_size limit = ret true.
Proof.
  intros Sh Ac F N EV EO FK FR Sm ND Sz. destruct (good_inputs debug _ _ F) as [G _]. rewrite <- EV in G.
  destruct (good_sums _ _ G) as [FI SI].
  assert (map Transaction.amount (Transaction.vout p) = map (fun _ => 0) outs) as EA by (rewrite EO; apply map_map).
  assert (zsum (map (fun _ : built_output => 0) outs) = 0) as Z0 by (clear; induction outs; cbn [map zsum]; lia).
  apply semantic_iff; cbn [b_prefix b_rct].
  - split; [done|]. split.
    + apply Forall_fmap. apply (good_Forall _ _ _ _ G FR). by intros src i _ (_ & _ & _ & _ & S & _).
    + rewrite EA. apply Forall_fmap, Forall_true. intros x. unfold compose, fits. lia.
  - constructor; cbn [b_prefix b_rct].
    + split; [intros Z; rewrite Z in G; by apply Forall2_nil_inv_r in G|].
      apply (good_Forall _ _ _ _ G FR). by intros src i _ (T & _).
    + rewrite EO. apply Forall_fmap. eapply Forall_impl; [exact FK|]. intros o K. exists (out_key o). split; [done|apply K].
    + rewrite EO, length_map. exact (outs_lengths p sources ins outs rv Sh).
    + split; [lia|]. rewrite EA, Z0. lia.
    + by right.
    + split; [done|]. apply Forall_fmap. apply (good_Forall _ _ _ _ G FR). by intros src i _ (_ & _ & _ & _ & _ & S & _).
    + apply (good_Forall _ _ _ _ G FR). intros src i [R1 R2] (_ & -> & _). by apply relative_nonzero.
    + by apply semantics_verified_ok.
Qed.

Lemma built_accepted q c n rng rng' :
  ready debug q -> chain_ready c n q -> Forall scalar rng ->
  draw (all_draws (q_sources q) (q_destinations q)) rng = Some rng' ->
  exists tx sources' ch, construct debug PROVE VERIFY q rng = ret (Some (tx, sources', ch, rng'))
    /\ length (Transaction.vin (b_prefix tx)) = length (q_sources q)
    /\ Forall (fun i => length (input_offsets i) = n) (Transaction.vin (b_prefix tx))
    /\ forall blob_size limit,
         let p := b_prefix tx in
         NoDup (map input_image (Transaction.vin p)) -> Forall (fun i => input_image i ∉ db_spent c) (Transaction.vin p) ->
         Forall (scan_agrees c (TxHash.get_transaction_prefix_hash p)) (Transaction.vin p) ->
         blob_size < u64 (limit - CRYPTONOTE_COINBASE_BLOB_RESERVED_SIZE) ->
         exists rx pmax,
           expand_transaction_1 (Built p (received_rct (b_rct tx))) false = ret (Some rx)
           /\ check_tx_semantic VERIFY rx false blob_size limit = ret true
           /\ check_tx_outputs c rx = accept tt
           /\ check_tx_inputs c rx true = accept (b_rct tx, pmax).
Proof.
  intros Q C Hr D.
  destruct (construct_ok debug PROVE VERIFY q rng rng' Q Hr D) as (tx & sources' & ch & ins & outs & R & need & extra & pid' & E & PS
    & FI & SI & EX & EG & Ac & _ & LO & EP & _ & _ & _ & _ & HN & HL & _ & HO).
  exists tx, sources', ch. split; [exact E|].
  split; [rewrite EX; cbn [prefix_of Transaction.vin]; rewrite length_zip_with, <- (Forall2_length _ _ _ FI), PS; lia|].
  destruct (good_inputs debug _ _ FI) as [GI EI].
  split.
  { rewrite EX. cbn [prefix_of Transaction.vin]. apply (good_Forall _ (fun src => length (outputs src) = n) _ _ GI).
    - rewrite PS. apply C.
    - intros src i L (_ & -> & _). by rewrite relative_length, length_map. }
  intros blob_size limit p ND FU FA Sz. subst p.
  pose proof (sign_tx_shape debug PROVE VERIFY _ _ _ _ _ _ _ _ _ FI EG) as Sh.
  assert (sources' <> []) as N.
  { intros Z. rewrite Z in PS. apply Permutation_nil_l in PS. pose proof (ready_some _ _ Q) as L. rewrite <- PS in L. cbn in L. lia. }
  assert (Transaction.vin (b_prefix tx) = zip_with txin_of sources' ins) as EV by (by rewrite EX).
  assert (Transaction.vout (b_prefix tx)
    = map (fun o => {| Transaction.amount := 0; Transaction.target := Transaction.txout_to_key (out_key o) |}) outs) as EO by (by rewrite EX).
  pose proof (Forall2_length _ _ _ FI) as LI.
  assert (Forall (fun o => is_key (out_key o)) outs) as FK.
  { apply Forall_lookup. intros j o Ho. destruct (lookup_lt_is_Some_2 (q_destinations q) j) as [d Hd].
    { rewrite <- LO. by apply lookup_lt_Some in Ho. }
    destruct (HO j d Hd) as (s & o' & der & Ho' & _ & _ & Of). rewrite Ho in Ho'. injection Ho' as <-. apply Of. }
  destruct C as [CR CS CM CB]. rewrite <- PS in CR, CS.
  destruct (check_tx_inputs_ok c n (b_prefix tx) sources' ins outs (b_rct tx) R (if need then Some (omap out_additional outs) else None) pid')
    as (pmax & EC); try done.
  { by rewrite EX. }
  { by rewrite EX. }
  { intros l. rewrite EO, length_map. destruct need; [|done]. intros [= <-]. by apply HL. }
  { by rewrite <- EI, <- EV. }
  exists (Built (b_prefix tx) (unexpanded (b_rct tx))), pmax.
  split; [by apply (expand_1_ok _ sources' ins outs)|]. split.
  - apply (built_semantic _ sources' ins outs); try done.
    + eapply Forall_impl; [exact CR|]. by intros src (H1 & H2 & _).
    + rewrite (zsum_permutation _ _ (Permutation_map src_amount PS)). apply (ready_balance _ _ Q).
  - split; [by apply (check_tx_outputs_ok _ sources' ins outs)|exact EC].
Qed.

(** C1. A transaction that was built is accepted by the network.  For a request
    construct_tx_with_tx_key can serve and a chain that has the rings of its
    sources unlocked and unspent, in a size its rules allow and at a fork without
    mandatory bulletproofs: the transaction as another node reads it, without the
    members that are not serialized, passes expand_transaction_1,
    check_tx_semantic, check_tx_outputs and check_tx_inputs, which recovers the
    signature that was made, provided that its key images are distinct, not in the
    chain, and its blob is below the size limit. *)
Theorem construct_tx_accepted q c n rng rng' :
  ready debug q -> chain_ready c n q -> Forall scalar rng ->
  draw (all_draws (q_sources q) (q_destinations q)) rng = Some rng' ->
  exists tx sources' ch, construct debug PROVE VERIFY q rng = ret (Some (tx, sources', ch, rng'))
    /\ length (Transaction.vin (b_prefix tx)) = length (q_sources q)
    /\ Forall (fun i => length (input_offsets i) = n) (Transaction.vin (b_prefix tx))
    /\ forall blob_size limit,
         let p := b_prefix tx in
         NoDup (map input_image (Transaction.vin p)) -> Forall (fun i => input_image i ∉ db_spent c) (Transaction.vin p) ->
         Forall (scan_agrees c (TxHash.get_transaction_prefix_hash p)) (Transaction.vin p) ->
         blob_size < u64 (limit - CRYPTONOTE_COINBASE_BLOB_RESERVED_SIZE) ->
         exists rx pmax,
           expand_transaction_1 (Built p (received_rct (b_rct tx))) false = ret (Some rx)
           /\ check_tx_semantic VERIFY rx false blob_size limit = ret true
           /\ check_tx_outputs c rx = accept tt
           /\ check_tx_inputs c rx true = accept (b_rct tx, pmax).
Proof. apply built_accepted. Qed.

End accepted_transactions.

(** ** What an accepted transaction satisfies *)

Lemma accept_inj {A} (a b : A) : accept a = accept b -> a = b.
Proof. by intros [= ->]. Qed.

Lemma vbind_inv {A B} (k : A -> verdict B) m b : vbind k m = accept b -> exists a, m = accept a /\ k a = accept b.
Proof. unfold vbind. intros E. apply rbind_inv in E as ([f|a] & -> & E); [discriminate|]. by exists a. Qed.

Lemma require_inv b f u : require b f = accept u -> b = true.
Proof. by destruct b. Qed.

Lemma obtain_inv {A} (m : option A) f a : obtain m f = accept a -> m = Some a.
Proof. destruct m; [by intros ->%accept_inj|discriminate]. Qed.

Lemma verify_inv m u : verify m = accept u -> m = Some true.
Proof. unfold verify. intros E. rinv E b Eb. apply lift_inv in Eb. apply require_inv in E. by subst. Qed.

(** The first part of a computation that accepts does. *)
Ltac vinv H x E :=
  apply vbind_inv in H as (x & E & H);
  repeat match type of H with (let '(_, _) := ?y in _) = _ => destruct y end.

Section sound.

Context (c : chain).

(** The ring at some offsets: existing outputs, all of them unlocked. *)
Definition ring_at (offsets : list Z) (ring : list ctkey) : Prop :=
  exists os, Forall2 (fun i o => get_output_key c i = Some o) offsets os
    /\ Forall (fun o => is_tx_spendtime_unlocked c (od_unlock_time o) = true) os
    /\ ring = map (fun o => Ct (pubkey o) (commitment o)) os.

Lemma scan_loop_sound outs offsets : forall count pmax ring pmax',
  (forall j i o, offsets !! j = Some i -> outs !! (count + j)%nat = Some o -> get_output_key c i = Some o) ->
  scan_loop c outs count offsets pmax = Some (ring, pmax') -> ring_at offsets ring.
Proof.
  induction offsets as [|i offsets IH]; intros count pmax ring pmax' A E; cbn [scan_loop] in E.
  { injection E as <- _. exists []. split; [constructor|]. split; [constructor|done]. }
  assert (forall data, (match outs !! count with Some data => Some data | None => get_output_key c i end) = Some data ->
    get_output_key c i = Some data) as L.
  { intros data. destruct (outs !! count) as [d|] eqn:Ed; [|done]. intros [= <-]. apply (A 0%nat i d eq_refl). by rewrite Nat.add_0_r. }
  destruct (match outs !! count with Some data => Some data | None => get_output_key c i end) as [data|]; [|discriminate].
  cbn [mbind option_bind] in E. destruct (is_tx_spendtime_unlocked c (od_unlock_time data)) eqn:U; [|discriminate].
  apply bind_Some in E as ([ring1 pmax1] & E1 & E). injection E as <- <-. destruct (IH (S count) _ _ _ ltac:(intros j i' o Hj Ho; apply (A (S j) i' o Hj); by rewrite Nat.add_succ_r) E1)
    as (os & F & FU & ->).
  exists (data :: os). split; [constructor; [by apply L|done]|]. split; [by constructor|done].
Qed.

Lemma get_output_keys_sound offsets : forall j i o,
  offsets !! j = Some i -> get_output_keys c offsets !! j = Some o -> get_output_key c i = Some o.
Proof.
  induction offsets as [|i0 offsets IH]; intros j i o Hj Ho; [done|]. cbn [get_output_keys] in Ho.
  destruct (get_output_key c i0) as [d|] eqn:E; [|done].
  destruct j as [|j]; cbn in Hj, Ho; [congruence|by apply (IH j)].
Qed.

Lemma scan_sound hash i pmax ring pmax' :
  scan_agrees c hash i -> scan_outputkeys_for_indexes c hash (input_offsets i) (input_image i) pmax = Some (ring, pmax') ->
  ring_at (relative_output_offsets_to_absolute (input_offsets i)) ring.
Proof.
  intros A E. unfold scan_outputkeys_for_indexes in E. unfold scan_agrees in A. destruct (input_offsets i) as [|o0 l] eqn:EO; [discriminate|].
  rewrite <- EO in *. set (abs := relative_output_offsets_to_absolute (input_offsets i)) in *.
  cbv zeta in E. apply bind_Some in E as (outs & EX & E).
  eapply scan_loop_sound; [|exact E]. intros j k o Hj Ho. cbn [Nat.add] in Ho.
  destruct A as [A|(n & A)]; rewrite A in EX.
  - destruct (Nat.eqb _ _); [|discriminate]. injection EX as <-. by apply (get_output_keys_sound abs j).
  - destruct (Nat.ltb _ _ && Nat.ltb _ _).
    + destruct (Nat.eqb _ _); [|discriminate]. injection EX as <-.
      apply lookup_app_Some in Ho as [Ho|[Lj Ho]].
      * apply lookup_take_Some in Ho as [Ho _]. by apply (get_output_keys_sound abs j).
      * eapply get_output_keys_sound; [|exact Ho]. rewrite lookup_drop. by replace (_ + _)%nat with j by lia.
    + injection EX as <-. apply lookup_take_Some in Ho as [Ho _]. by apply (get_output_keys_sound abs j).
Qed.

(** An input whose image is unspent and whose ring is in the chain. *)
Definition spends_ring (i : Transaction.txin_v) (ring : list ctkey) : Prop :=
  is_to_key i = true /\ (input_image i ∉ db_spent c) /\ ring_at (relative_output_offsets_to_absolute (input_offsets i)) ring.

Lemma rings_loop_sound version hash ins : forall pmax rings pmax',
  Forall (scan_agrees c hash) ins -> rings_loop c version hash ins pmax = accept (rings, pmax') -> Forall2 spends_ring ins rings.
Proof.
  induction ins as [|i ins IH]; intros pmax rings pmax' A E; cbn [rings_loop] in E.
  { apply accept_inj in E. injection E as <- _. constructor. }
  apply Forall_cons in A as [Ai A]. destruct i as [| | |amount offsets k]; [discriminate E..|].
  vinv E u1 E1. vinv E u2 E2. vinv E r3 E3. vinv E r4 E4. apply accept_inj in E. injection E as <- <-.
  apply require_inv, negb_true_iff, bool_decide_eq_false in E2. apply obtain_inv in E3.
  constructor; [|by apply (IH _ _ _ A E4)]. split; [done|]. split; [done|].
  unfold check_tx_input in E3. destruct (scan_outputkeys_for_indexes c hash offsets k pmax) as [[ring pm]|] eqn:ES; [|discriminate].
  cbn [mbind option_bind] in E3. destruct (Nat.eqb (length offsets) (length ring)); [|discriminate E3].
  destruct ((version =? 1) && _); [discriminate E3|]. injection E3 as <- _. by apply (scan_sound hash (Transaction.txin_to_key amount offsets k) pmax _ pm).
Qed.

End sound.

Definition vector_sized (i : Transaction.txin_v) : Prop := Z.of_nat (length (input_offsets i)) < 2 ^ 64.

Lemma mixin_loop_sound ins : forall lo hi lo' hi',
  Forall vector_sized ins -> mixin_loop ins lo hi = accept (lo', hi') ->
  lo' <= lo /\ Forall (fun i => is_to_key i = true -> lo' < Z.of_nat (length (input_offsets i)) <= MAX_MIXIN + 1) ins.
Proof.
  induction ins as [|i ins IH]; intros lo hi lo' hi' V E; cbn [mixin_loop] in E.
  { apply accept_inj in E. injection E as <- <-. split; [lia|constructor]. }
  apply Forall_cons in V as [Vi V].
  destruct i as [| | |amount offsets k]; try (destruct (IH _ _ _ _ V E) as [L F]; split; [done|constructor; [discriminate|done]]).
  vinv E u E1. apply require_inv, Z.leb_le in E1. destruct (IH _ _ _ _ V E) as [L F]. unfold vector_sized in Vi.
  cbn [input_offsets] in *. unfold MAX_MIXIN in *.
  assert (u64 (Z.of_nat (length offsets) - 1) = Z.of_nat (length offsets) - 1) as W.
  { destruct (length offsets) as [|len]; [exfalso; revert E1; by_eval|]. apply wrap_small. unfold fits. lia. }
  rewrite W in *. destruct (Z.ltb_spec (Z.of_nat (length offsets) - 1) lo); (split; [lia|constructor; [intros _; cbn [input_offsets]; lia|done]]).
Qed.

Lemma sorted_loop_sound ins : forall last u,
  Forall (fun i => is_to_key i = true) ins -> sorted_loop ins last = accept u ->
  Sorted (fun a b => memcmp_gt a b = true) (option_list last ++ map input_image ins).
Proof.
  induction ins as [|i ins IH]; intros last u T E; cbn [sorted_loop map] in *; [destruct last; repeat constructor|].
  apply Forall_cons in T as [Ti T]. destruct i as [| | |amount offsets k]; try done.
  vinv E v E1. apply require_inv in E1. pose proof (IH _ _ T E) as S. cbn [option_list app input_image] in *.
  destruct last as [l|]; [|done]. constructor; [done|]. by constructor.
Qed.

Lemma sorted_distinct l : Sorted (fun a b => memcmp_gt a b = true) l -> NoDup l.
Proof.
  intros S. apply Sorted_StronglySorted in S; [|intros x y z; apply memcmp_gt_trans].
  induction S as [|x l S IH H]; constructor; [|done]. intros Hx. rewrite Forall_forall in H. specialize (H x Hx).
  by rewrite memcmp_gt_irrefl in H.
Qed.

Lemma each_image_in ins : Forall (fun i => is_to_key i = true) ins -> each image_in ins = ret (map input_image ins).
Proof.
  induction 1 as [|i ins T F IH]; [done|]. destruct i; try done. cbn [each image_in map input_image]. rgo. rewrite IH. by rgo.
Qed.

(** The members that expand_transaction_2 fills. *)
Lemma expand_2_inv tx hash pubkeys rv :
  Forall (fun i => is_to_key i = true) (Transaction.vin (b_prefix tx)) -> expand_transaction_2 tx hash pubkeys = ret (Some rv) ->
  r_message rv = hash
  /\ ((r_type rv <> Transaction.RCTTypeFull /\ r_mixRing rv = pubkeys
       /\ map II (r_MGs rv) = map (fun i => [input_image i]) (Transaction.vin (b_prefix tx)))
      \/ (r_type rv = Transaction.RCTTypeFull /\ (exists n, r_mixRing rv = transpose n pubkeys)
          /\ map II (r_MGs rv) = [map input_image (Transaction.vin (b_prefix tx))])).
Proof.
  intros T E. unfold expand_transaction_2 in E. cbv zeta in E. rewrite (each_image_in _ T) in E.
  apply rtry_inv in E as (u1 & _ & E). apply rtry_inv in E as (u2 & _ & E). apply rtry_inv in E as (first & _ & E).
  destruct (Z.eqb_spec (r_type (b_rct tx)) Transaction.RCTTypeFull) as [Ty|Ty].
  - apply rtry_inv in E as (mixRing & EM & E). apply rtry_inv in EM as (u3 & _ & EM). apply ret_inj in EM. injection EM as <-.
    apply rtry_inv in E as (MGs & EI & E). apply ret_inj in EI. injection EI as <-. apply ret_inj in E. injection E as <-.
    split; [done|]. right. split; [done|]. split; [by eexists|done].
  - apply rtry_inv in E as (mixRing & EM & E). apply ret_inj in EM. injection EM as <-.
    apply rtry_inv in E as (MGs & EI & E). apply rtry_inv in EI as (u4 & EL & EI). apply check_inv, Nat.eqb_eq in EL.
    apply ret_inj in EI. injection EI as <-. apply ret_inj in E. injection E as <-. split; [done|]. left. split; [done|]. split; [done|].
    cbn [set_message_ring r_MGs]. revert EL. generalize (r_MGs (b_rct tx)). clear.
    induction (Transaction.vin (b_prefix tx)) as [|i ins IH]; intros [|mg mgs] L; try discriminate; [done|].
    cbn [map zip_with]. f_equal. apply IH. by injection L.
Qed.

Section sound_inputs.

Context `{HF : !FastHash}.

(** The verification of the ring signatures. *)
Definition rings_verified (rv : rctSig) (images : list bytes) (rings : list (list ctkey)) : Prop :=
  ((r_type rv = Transaction.RCTTypeSimple \/ r_type rv = Transaction.RCTTypeBulletproof)
   /\ r_mixRing rv = rings /\ map II (r_MGs rv) = map (fun k => [k]) images /\ verRctNonSemanticsSimple rv = Some true)
  \/ (r_type rv = Transaction.RCTTypeFull /\ (exists n, r_mixRing rv = transpose n rings)
      /\ map II (r_MGs rv) = [images] /\ verRct rv false = Some true).

Lemma check_rct_inv vin pubkeys rv u :
  check_rct vin pubkeys rv = accept u ->
  ((r_type rv = Transaction.RCTTypeSimple \/ r_type rv = Transaction.RCTTypeBulletproof) /\ verRctNonSemanticsSimple rv = Some true)
  \/ (r_type rv = Transaction.RCTTypeFull /\ verRct rv false = Some true).
Proof.
  unfold check_rct. intros E.
  destruct ((r_type rv =? Transaction.RCTTypeSimple) || (r_type rv =? Transaction.RCTTypeBulletproof)) eqn:T.
  - left. rewrite orb_true_iff, !Z.eqb_eq in T. split; [done|]. vinv E u1 E1. vinv E u2 E2. rinv E im E3. vinv E u4 E4. by apply verify_inv in E.
  - destruct (Z.eqb_spec (r_type rv) Transaction.RCTTypeFull) as [Tf|Tf]; [|discriminate]. right. split; [done|].
    vinv E u1 E1. vinv E mg E2. vinv E u3 E3. rinv E im E4. vinv E u5 E5. by apply verify_inv in E.
Qed.

(** C6. What check_tx_inputs accepts is safe.  Every input spends a key with a
    key image that is not spent in the chain, its ring consists of existing
    unlocked outputs and has a size the rules of the fork allow; under the strict
    rules the key images are strictly decreasing, so no two are equal; and the
    ring signatures of the expanded signature, with the hash of the prefix as
    message, these rings and these images, are verified.  Other transactions are
    refused. *)
Theorem check_tx_inputs_sound c tx pm rv pmax :
  let vin := Transaction.vin (b_prefix tx) in
  let hash := TxHash.get_transaction_prefix_hash (b_prefix tx) in
  Forall vector_sized vin -> Forall (scan_agrees c hash) vin -> check_tx_inputs c tx pm = accept (rv, pmax) ->
  exists rings,
    Forall2 (spends_ring c) vin rings
    /\ Forall (fun i => (if check_hard_fork_feature c FORK_RINGSIZE_INC_REQ then MIN_MIXIN_V2 else MIN_MIXIN_V1)
         < Z.of_nat (length (input_offsets i)) <= MAX_MIXIN + 1) vin
    /\ (check_hard_fork_feature c FORK_STRICT_TX_SEMANTICS = true ->
        Sorted (fun a b => memcmp_gt a b = true) (map input_image vin) /\ NoDup (map input_image vin))
    /\ r_message rv = hash /\ rings_verified rv (map input_image vin) rings.
Proof.
  intros vin hash V A E. unfold check_tx_inputs in E. cbv zeta in E. vinv E u0 E0. unfold check_tx_form in E0. cbv zeta in E0.
  vinv E0 x1 E1. vinv E0 u2 E2. vinv E0 u3 E3. vinv E0 u4 E4. vinv E x7 E7. rinv E x8 E8. vinv E rv1 E9. vinv E u10 E10. apply accept_inj in E. injection E as -> ->.
  apply obtain_inv in E9. subst x8. pose proof (rings_loop_sound c _ _ _ _ _ _ A E7) as F. eexists. split; [exact F|].
  assert (Forall (fun i => is_to_key i = true) vin) as T.
  { clear -F. fold vin in F. induction F as [|i r ins rs (Ti & _) F IH]; by constructor. }
  destruct (mixin_loop_sound _ _ _ _ _ V E1) as [_ FM]. apply require_inv, Z.leb_le in E2. split; [|split].
  - apply Forall_forall. intros i Hi. rewrite Forall_forall in FM, T. specialize (FM i Hi (T i Hi)). lia.
  - intros S. rewrite S in E4. unfold check_strict in E4. vinv E4 w1 G1. vinv E4 w2 G2. vinv E4 w3 G3.
    pose proof (sorted_loop_sound _ None _ T E4) as So. split; [exact So|by apply sorted_distinct].
  - destruct (expand_2_inv _ _ _ _ T E8) as [EM H]. split; [exact EM|]. unfold rings_verified. rewrite map_map.
    destruct (check_rct_inv _ _ _ _ E10) as [[Ty Ve]|[Ty Ve]].
    + left. destruct H as [(_ & R & I)|(Tf & _)]; [done|]. rewrite Tf in Ty. destruct Ty; discriminate.
    + right. destruct H as [(Tf & _)|(_ & R & I)]; done.
Qed.

End sound_inputs.

(** ** Example *)

(** The sixth fork of the main network, with thirteen equal outputs. *)
Definition my_chain : chain :=
  Chain MAINNET 6 100 (replicate 13 (Output_data G 0 0 (encode (pedersen 1 5)))) [] (fun _ _ => None).

Lemma my_ring : ring_in_chain my_chain (my_source 13).
Proof.
  unfold ring_in_chain. cbn [my_source outputs]. rewrite map_map. cbn [fst]. split; [by_eval|].
  split; [repeat constructor|]. apply Forall_fmap, Forall_forall. intros i Hi%elem_of_seq. cbn.
  exists (Output_data G 0 0 (encode (pedersen 1 5))). split; [|done].
  unfold get_output_key. rewrite (proj2 (Z.ltb_ge (Z.of_nat i) 0)) by lia. rewrite Nat2Z.id.
  cbn [my_chain db_outputs]. apply lookup_replicate_2. lia.
Qed.

Lemma single_nodup {A B} (f : A -> B) l : length l = 1%nat -> NoDup (map f l).
Proof. destruct l as [|x [|]]; try discriminate. intros _. apply NoDup_singleton. Qed.

Lemma my_ready : @ready example_hash true (my_request [my_source 13]).
Proof.
  apply my_request_ready; [cbn; lia|constructor; [by exists 13%nat; split; [lia|]|constructor]|change (3 <= 5 < 2 ^ 64); lia].
Qed.

Lemma my_chain_ready : chain_ready my_chain 13 (my_request [my_source 13]).
Proof.
  split.
  - apply Forall_singleton, my_ring.
  - apply Forall_singleton. cbn [my_source outputs]. by rewrite length_map.
  - change (12 < 13 <= 241). lia.
  - reflexivity.
Qed.

Lemma expand_1_prefix tx base_only rx : expand_transaction_1 tx base_only = ret (Some rx) -> b_prefix rx = b_prefix tx.
Proof.
  unfold expand_transaction_1. cbv zeta. destruct (is_coinbase (b_prefix tx)); [intros E; apply ret_inj in E; by injection E as <-|].
  intros E. apply rtry_inv in E as (u & _ & E). rinv E keys E1. apply rtry_inv in E as (rv & _ & E). apply ret_inj in E. by injection E as <-.
Qed.

(** The request is served and accepted, with one input. *)
Lemma my_accepted : exists tx sources' ch rx pmax,
  @construct example_hash true no_prove no_verify (my_request [my_source 13]) (replicate 218 key_7) = ret (Some (tx, sources', ch, []))
  /\ length (Transaction.vin (b_prefix tx)) = 1%nat
  /\ Forall (fun i => length (input_offsets i) = 13%nat) (Transaction.vin (b_prefix tx)) /\ b_prefix rx = b_prefix tx
  /\ @check_tx_inputs example_hash my_chain rx true = accept (b_rct tx, pmax).
Proof.
  destruct (@built_accepted example_hash true no_prove no_verify (my_request [my_source 13]) my_chain 13 (replicate 218 key_7) []
    my_ready my_chain_ready (sevens 218) (draw_sevens 218)) as (tx & sources' & ch & E & L & LO & H).
  destruct (H 20000 300000 (single_nodup input_image _ L) (Forall_true _ _ (fun i => not_elem_of_nil _))
    (Forall_true _ _ (fun i => or_introl eq_refl)) ltac:(by_eval)) as (rx & pmax & H1 & _ & _ & H4).
  exists tx, sources', ch, rx, pmax. split; [exact E|]. split; [exact L|]. split; [exact LO|]. split; [|exact H4]. exact (expand_1_prefix _ _ _ H1).
Qed.

Lemma construct_tx_accepted_witness : exists tx sources' ch rx pmax,
  @construct example_hash true no_prove no_verify (my_request [my_source 13]) (replicate 218 key_7) = ret (Some (tx, sources', ch, []))
  /\ expand_transaction_1 (Built (b_prefix tx) (received_rct (b_rct tx))) false = ret (Some rx)
  /\ @check_tx_semantic example_hash no_verify rx false 20000 300000 = ret true
  /\ check_tx_outputs my_chain rx = accept tt
  /\ @check_tx_inputs example_hash my_chain rx true = accept (b_rct tx, pmax).
Proof.
  destruct (@construct_tx_accepted example_hash true no_prove no_verify (my_request [my_source 13]) my_chain 13 (replicate 218 key_7) []
    my_ready my_chain_ready (sevens 218) (draw_sevens 218)) as (tx & sources' & ch & E & L & LO & H).
  destruct (H 20000 300000) as (rx & pmax & H1 & H2 & H3 & H4).
  - exact (single_nodup input_image _ L).
  - apply Forall_true. intros i. apply not_elem_of_nil.
  - apply Forall_true. intros i. by left.
  - by_eval.
  - exists tx, sources', ch, rx, pmax. exact (conj E (conj H1 (conj H2 (conj H3 H4)))).
Defined.

Lemma check_tx_inputs_sound_witness : exists tx rv rings,
  length (Transaction.vin (b_prefix tx)) = 1%nat /\ Forall2 (spends_ring my_chain) (Transaction.vin (b_prefix tx)) rings
  /\ @rings_verified example_hash rv (map input_image (Transaction.vin (b_prefix tx))) rings.
Proof.
  destruct my_accepted as (tx & sources' & ch & rx & pmax & _ & L & LO & EP & E).
  destruct (@check_tx_inputs_sound example_hash my_chain rx true (b_rct tx) pmax) as (rings & F & _ & _ & _ & RV).
  - rewrite EP. eapply Forall_impl; [exact LO|]. intros i Li. unfold vector_sized. rewrite Li. by_eval.
  - apply Forall_true. intros i. by left.
  - exact E.
  - exists rx, (b_rct tx), rings. rewrite EP in *. exact (conj L (conj F RV)).
Defined.


End TxAccept.
