(* ===== verification/Address.v ===== *)
(** * Address strings

    src/cryptonote_basic/cryptonote_basic_impl.cpp and its header: the text of
    an address, of a subaddress and of an integrated address on each network, and
    the parser of all of them; account_base::get_public_address_str and
    get_public_integrated_address_str of account.cpp.  The theorems show that the
    parser inverts the printers and say exactly which texts it accepts. *)

From S2P Require Import Prelude Config Keccak Base58 Serialization Transaction Limbs Scalar Fe Ge Curve Points Crypto RctOps Mlsag Account Result.
Import Config Keccak Serialization Account Result.

Module Address.

(** ** Data *)

(** [payment_id] has a value when the flag is set. *)
Record address_parse_info := Info {
  info_address : account_public_address;
  is_subaddress : bool;
  has_payment_id : bool;
  is_kurz : bool;
  info_payment_id : option bytes
}.

(** The serialized objects: two keys, two keys and an id, one key. *)
Definition put_address (a : account_public_address) : option bytes :=
  s ← put_blob (m_spend_public_key a); v ← put_blob (m_view_public_key a); Some (s ++ v).

Definition get_address : reader account_public_address := fun inp =>
  '(s, inp) ← get_blob 32 inp; '(v, inp) ← get_blob 32 inp; Some (Addr s v, inp).

Definition put_integrated (a : account_public_address) (payment_id : bytes) : option bytes :=
  a ← put_address a; p ← put_blob payment_id; Some (a ++ p).

Definition get_integrated : reader (account_public_address * bytes) := fun inp =>
  '(a, inp) ← get_address inp; '(p, inp) ← get_blob 8 inp; Some ((a, p), inp).

Section functions.

Context `{HF : !FastHash}.

(** ** Printing *)

(** [None] where encode_addr has no value; the functions below return a text for
    every address. *)
Definition get_public_address_as_str_for (c : config) (subaddress : bool) (adr : account_public_address) : option bytes :=
  if bool_decide (m_spend_public_key adr = m_view_public_key adr) then
    let address_prefix := if subaddress then RYO_KURZ_SUBADDRESS_BASE58_PREFIX c else RYO_KURZ_ADDRESS_BASE58_PREFIX c in
    data ← put_blob (m_spend_public_key adr); Base58.encode_addr address_prefix data
  else
    let address_prefix := if subaddress then RYO_LONG_SUBADDRESS_BASE58_PREFIX c else RYO_LONG_ADDRESS_BASE58_PREFIX c in
    data ← put_address adr; Base58.encode_addr address_prefix data.

Definition get_public_address_as_str (nettype : network_type) (subaddress : bool) (adr : account_public_address) : option bytes :=
  match net_config nettype with Some c => get_public_address_as_str_for c subaddress adr | None => Some [] end.

Definition get_account_integrated_address_as_str_for (c : config) (adr : account_public_address) (payment_id : bytes)
    : option bytes :=
  data ← put_integrated adr payment_id; Base58.encode_addr (RYO_LONG_INTEGRATED_ADDRESS_BASE58_PREFIX c) data.

Definition get_account_integrated_address_as_str (nettype : network_type) (adr : account_public_address) (payment_id : bytes)
    : option bytes :=
  match net_config nettype with Some c => get_account_integrated_address_as_str_for c adr payment_id | None => Some [] end.

(** The members of account_base, which throw on another network. *)
Definition get_public_address_str (a : account_base) (nettype : network_type) : result bytes :=
  match net_config nettype with
  | Some c => lift (get_public_address_as_str_for c false (m_account_address (m_keys a)))
  | None => throw
  end.

Definition get_public_integrated_address_str (a : account_base) (payment_id : bytes) (nettype : network_type) : result bytes :=
  match net_config nettype with
  | Some c => lift (get_account_integrated_address_as_str_for c (m_account_address (m_keys a)) payment_id)
  | None => throw
  end.

(** ** Parsing *)

(** The flags a prefix sets: subaddress, payment id, kurz. *)
Definition classify_prefix (c : config) (prefix : Z) : option (bool * bool * bool) :=
  if (prefix =? RYO_LONG_ADDRESS_BASE58_PREFIX c) || (prefix =? LEGACY_LONG_ADDRESS_BASE58_PREFIX c)
  then Some (false, false, false)
  else if (prefix =? RYO_LONG_INTEGRATED_ADDRESS_BASE58_PREFIX c) || (prefix =? LEGACY_LONG_INTEGRATED_ADDRESS_BASE58_PREFIX c)
  then Some (false, true, false)
  else if (prefix =? RYO_LONG_SUBADDRESS_BASE58_PREFIX c) || (prefix =? LEGACY_LONG_SUBADDRESS_BASE58_PREFIX c)
  then Some (true, false, false)
  else if prefix =? RYO_KURZ_ADDRESS_BASE58_PREFIX c then Some (false, false, true)
  else None.

Definition parse_address_data (sub pid kurz : bool) (data : bytes) : option address_parse_info :=
  if pid then
    '(adr, payment_id) ← parse_binary get_integrated data;
    Some (Info adr sub pid kurz (Some payment_id))
  else if kurz then
    k ← parse_binary (get_blob 32) data; Some (Info (Addr k k) sub pid kurz None)
  else
    adr ← parse_binary get_address data; Some (Info adr sub pid kurz None).

(** [None] is false. *)
Definition get_account_address_from_str_for (c : config) (str : bytes) : result (option address_parse_info) :=
  let? (prefix, data) := ret (Base58.decode_addr str) in
  let? (sub, pid, kurz) := ret (classify_prefix c prefix) in
  let? info := ret (parse_address_data sub pid kurz data) in
  let* s := lift (Crypto.check_key (m_spend_public_key (info_address info))) in
  let? _ := check s in
  let* v := lift (Crypto.check_key (m_view_public_key (info_address info))) in
  let? _ := check v in
  ret (Some info).

Definition get_account_address_from_str (nettype : network_type) (str : bytes) : result (option address_parse_info) :=
  match net_config nettype with Some c => get_account_address_from_str_for c str | None => ret None end.

End functions.



(** ** Codecs *)

Definition ok_address (a : account_public_address) : Prop :=
  length (m_spend_public_key a) = 32%nat /\ length (m_view_public_key a) = 32%nat.

Lemma get_address_ok a rest :
  ok_address a -> get_address ((m_spend_public_key a ++ m_view_public_key a) ++ rest) = Some (a, rest).
Proof.
  intros [L1 L2]. destruct a as [s v]. cbn [m_spend_public_key m_view_public_key] in *. unfold get_address. rewrite <- app_assoc.
  destruct (blob_codec 32 s L1) as (b & [= <-] & E). rewrite E. cbn [mbind option_bind].
  destruct (blob_codec 32 v L2) as (b & [= <-] & E'). by rewrite E'.
Qed.

Lemma parse_address a : ok_address a -> parse_binary get_address (m_spend_public_key a ++ m_view_public_key a) = Some a.
Proof. intros H. unfold parse_binary. rewrite <- (app_nil_r (_ ++ _)), get_address_ok by done. reflexivity. Qed.

Lemma parse_integrated a pid :
  ok_address a -> length pid = 8%nat ->
  parse_binary get_integrated ((m_spend_public_key a ++ m_view_public_key a) ++ pid) = Some (a, pid).
Proof.
  intros H L. unfold parse_binary, get_integrated. rewrite get_address_ok by done. cbn [mbind option_bind].
  destruct (blob_codec 8 pid L) as (b & [= <-] & E). specialize (E []). rewrite app_nil_r in E. by rewrite E.
Qed.

Lemma parse_kurz k : length k = 32%nat -> parse_binary (get_blob 32) k = Some k.
Proof. intros L. unfold parse_binary. destruct (blob_codec 32 k L) as (b & [= <-] & E). specialize (E []). rewrite app_nil_r in E. by rewrite E. Qed.

(** ** The prefixes of a network *)

Definition prefixes (c : config) : list Z :=
  [RYO_LONG_ADDRESS_BASE58_PREFIX c; RYO_LONG_INTEGRATED_ADDRESS_BASE58_PREFIX c; RYO_LONG_SUBADDRESS_BASE58_PREFIX c;
   RYO_KURZ_ADDRESS_BASE58_PREFIX c; RYO_KURZ_SUBADDRESS_BASE58_PREFIX c].

(** Each prefix that is printed is read as what it was printed for, and that of
    a kurz subaddress as none. *)
Lemma classify_printed nettype c :
  net_config nettype = Some c ->
  map (classify_prefix c) (prefixes c)
    = [Some (false, false, false); Some (false, true, false); Some (true, false, false); Some (false, false, true); None]
  /\ Forall (fits 64) (prefixes c).
Proof. destruct nettype; intros [= <-]; split; by_eval. Qed.

Section addresses.

Context `{HF : !FastHash}.

Definition is_point (k : bytes) : Prop := Scalar.scalar k /\ Crypto.check_key k = Some true.

Lemma accepted_address c str prefix data sub pid kurz info :
  Base58.decode_addr str = Some (prefix, data) -> classify_prefix c prefix = Some (sub, pid, kurz) ->
  parse_address_data sub pid kurz data = Some info ->
  is_point (m_spend_public_key (info_address info)) -> is_point (m_view_public_key (info_address info)) ->
  get_account_address_from_str_for c str = ret (Some info).
Proof.
  intros E1 E2 E3 [_ K1] [_ K2]. unfold get_account_address_from_str_for. rewrite E1. tgo. rewrite E2. tgo. rewrite E3. tgo.
  rewrite K1. rgo. rewrite check_holds by done. tgo. rewrite K2. rgo. by rewrite check_holds.
Qed.

(** A text made with a prefix and the data is read back by that prefix. *)
Lemma printed_address c prefix data sub pid kurz info :
  fits 64 prefix -> is_bytes data -> classify_prefix c prefix = Some (sub, pid, kurz) ->
  parse_address_data sub pid kurz data = Some info ->
  is_point (m_spend_public_key (info_address info)) -> is_point (m_view_public_key (info_address info)) ->
  exists str, Base58.encode_addr prefix data = Some str /\ get_account_address_from_str_for c str = ret (Some info).
Proof.
  intros F B C E K1 K2. destruct (Base58.addr_encodes prefix data F B) as (str & E1 & _ & E2). exists str. split; [done|].
  by eapply accepted_address.
Qed.

Lemma point_bytes adr : is_point (m_spend_public_key adr) -> is_point (m_view_public_key adr) ->
  ok_address adr /\ is_bytes (m_spend_public_key adr ++ m_view_public_key adr).
Proof. intros [[B1 L1] _] [[B2 L2] _]. split; [done|]. by apply Forall_app. Qed.

(** C26. Addresses survive being printed and parsed.  On each of the three
    networks, for two points of the curve: the text of an address or subaddress
    parses to the same keys and the same kind, marked kurz when the two keys are
    equal; the text of an integrated address to the keys and the payment id; and
    the text of a subaddress with equal keys is refused, as the parser's comment
    says. *)
Theorem address_roundtrip nettype c adr payment_id :
  net_config nettype = Some c -> is_point (m_spend_public_key adr) -> is_point (m_view_public_key adr) ->
  length payment_id = 8%nat -> is_bytes payment_id ->
  (forall subaddress, exists str, get_public_address_as_str nettype subaddress adr = Some str
     /\ get_account_address_from_str nettype str
        = ret (if subaddress && bool_decide (m_spend_public_key adr = m_view_public_key adr) then None
               else Some (Info adr subaddress false (bool_decide (m_spend_public_key adr = m_view_public_key adr)) None)))
  /\ exists str, get_account_integrated_address_as_str nettype adr payment_id = Some str
     /\ get_account_address_from_str nettype str = ret (Some (Info adr false true false (Some payment_id))).
Proof.
  intros N K1 K2 L B. destruct (classify_printed nettype c N) as [C F]. injection C as C1 C2 C3 C4 C5.
  repeat apply Forall_cons in F as [? F]. destruct (point_bytes adr K1 K2) as [O BA].
  unfold get_public_address_as_str, get_account_integrated_address_as_str, get_account_address_from_str. rewrite N. split.
  - intros subaddress. unfold get_public_address_as_str_for. case_bool_decide as E.
    + cbn [put_blob mbind option_bind]. destruct subaddress; cbn [andb].
      * destruct (Base58.addr_encodes _ (m_spend_public_key adr) ltac:(eassumption) (proj1 (proj1 K1))) as (str & E1 & _ & E2).
        exists str. split; [exact E1|]. unfold get_account_address_from_str_for. rewrite E2. tgo. by rewrite C5.
      * eapply printed_address; [eassumption|apply K1|exact C4| |done|done].
        cbn [parse_address_data]. rewrite parse_kurz by apply K1. cbn. destruct adr as [s v]. cbn in E. by subst v.
    + rewrite andb_false_r. cbn [put_address put_blob mbind option_bind].
      destruct subaddress; (eapply printed_address; [eassumption|exact BA|eassumption| |done|done]);
        cbn [parse_address_data]; by rewrite parse_address.
  - unfold get_account_integrated_address_as_str_for. cbn [put_integrated put_address put_blob mbind option_bind].
    eapply printed_address; [eassumption|by apply Forall_app|exact C2| |done|done].
    cbn [parse_address_data]. by rewrite parse_integrated.
Qed.

End addresses.

(** ** What the parser accepts *)

Lemma get_blob_inv n inp b rest : get_blob n inp = Some (b, rest) -> inp = b ++ rest /\ length b = n.
Proof.
  unfold get_blob. destruct (Nat.leb_spec n (length inp)); [|discriminate]. intros [= <- <-]. split; [by rewrite take_drop|].
  rewrite length_take. lia.
Qed.

Lemma parse_inv {A} (get : reader A) data a : parse_binary get data = Some a -> get data = Some (a, []).
Proof. unfold parse_binary. intros E. apply bind_Some in E as ([v [|]] & Eg & E); [by injection E as <-|discriminate]. Qed.

Lemma get_address_inv inp a rest :
  get_address inp = Some (a, rest) -> inp = (m_spend_public_key a ++ m_view_public_key a) ++ rest /\ ok_address a.
Proof.
  unfold get_address. intros E. apply bind_Some in E as ([s i1] & E1 & E). apply bind_Some in E as ([v i2] & E2 & E).
  injection E as <- <-. apply get_blob_inv in E1 as [-> L1]. apply get_blob_inv in E2 as [-> L2].
  split; [by rewrite <- app_assoc|done].
Qed.

(** The data behind what was parsed. *)
Definition data_of (info : address_parse_info) : bytes :=
  if is_kurz info then m_spend_public_key (info_address info)
  else (m_spend_public_key (info_address info) ++ m_view_public_key (info_address info)) ++ default [] (info_payment_id info).

Lemma parse_data_inv sub pid kurz data info :
  pid && kurz = false -> parse_address_data sub pid kurz data = Some info ->
  data = data_of info /\ ok_address (info_address info) /\ is_subaddress info = sub /\ has_payment_id info = pid /\ is_kurz info = kurz
  /\ (kurz = true -> m_spend_public_key (info_address info) = m_view_public_key (info_address info))
  /\ if pid then exists id, info_payment_id info = Some id /\ length id = 8%nat else info_payment_id info = None.
Proof.
  intros PK E. unfold parse_address_data in E. destruct pid.
  - destruct kurz; [discriminate|]. apply bind_Some in E as ([a id] & E1 & E). injection E as <-. apply parse_inv in E1.
    unfold get_integrated in E1. apply bind_Some in E1 as ([a1 i1] & E1 & E2). apply bind_Some in E2 as ([p i2] & E2 & E3).
    injection E3 as <- <- ->. apply get_address_inv in E1 as [-> O]. apply get_blob_inv in E2 as [-> L]. rewrite app_nil_r.
    split_and!; try done. by exists p.
  - destruct kurz.
    + apply bind_Some in E as (k & E1 & E). injection E as <-. apply parse_inv, get_blob_inv in E1 as [-> L]. rewrite app_nil_r.
      by split_and!.
    + apply bind_Some in E as (a & E1 & E). injection E as <-. apply parse_inv, get_address_inv in E1 as [-> O].
      by split_and!.
Qed.

Lemma classify_exclusive c prefix sub pid kurz :
  classify_prefix c prefix = Some (sub, pid, kurz) -> pid && kurz = false /\ sub && pid = false /\ sub && kurz = false.
Proof.
  unfold classify_prefix. destruct (_ || _); [by intros [= <- <- <-]|]. destruct (_ || _); [by intros [= <- <- <-]|].
  destruct (_ || _); [by intros [= <- <- <-]|]. destruct (_ =? _); [by intros [= <- <- <-]|discriminate].
Qed.

Section soundness.

Context `{HF : !FastHash}.

Lemma decode_addr_bytes str prefix data : is_bytes str -> Base58.decode_addr str = Some (prefix, data) -> is_bytes data.
Proof.
  intros B E. unfold Base58.decode_addr in E. apply bind_Some in E as (d & Ed & E). apply Base58.decode_sound in Ed as [Bd _]; [|done].
  repeat case_match; try discriminate. simplify_eq. by apply Forall_drop, Forall_take.
Qed.

Lemma address_inv nettype str info :
  is_bytes str -> get_account_address_from_str nettype str = ret (Some info) ->
  is_point (m_spend_public_key (info_address info)) /\ is_point (m_view_public_key (info_address info))
  /\ (exists c prefix, net_config nettype = Some c /\ Base58.decode_addr str = Some (prefix, data_of info)
        /\ classify_prefix c prefix = Some (is_subaddress info, has_payment_id info, is_kurz info))
  /\ has_payment_id info && is_kurz info = false /\ is_subaddress info && (has_payment_id info || is_kurz info) = false
  /\ (is_kurz info = true -> m_spend_public_key (info_address info) = m_view_public_key (info_address info))
  /\ (if has_payment_id info then exists id, info_payment_id info = Some id /\ length id = 8%nat else info_payment_id info = None).
Proof.
  intros B E. unfold get_account_address_from_str in E. destruct (net_config nettype) as [c|]; [|discriminate].
  unfold get_account_address_from_str_for in E.
  apply rtry_inv in E as ([prefix data] & E1 & E). apply ret_inj in E1. apply rtry_inv in E as ([[sub pid] kurz] & E2 & E).
  apply ret_inj in E2. apply rtry_inv in E as (info' & E3 & E). apply ret_inj in E3.
  rinv E s E4. apply rtry_inv in E as (u1 & E5 & E). rinv E v E6. apply rtry_inv in E as (u2 & E7 & E).
  apply check_inv in E5, E7. subst s v. apply lift_inv in E4, E6. apply ret_inj in E. injection E as ->.
  destruct (classify_exclusive _ _ _ _ _ E2) as (X1 & X2 & X3). pose proof (decode_addr_bytes _ _ _ B E1) as Bd.
  destruct (parse_data_inv _ _ _ _ _ X1 E3) as (-> & [L1 L2] & <- & <- & <- & K & P).
  assert (is_bytes (m_spend_public_key (info_address info)) /\ is_bytes (m_view_public_key (info_address info))) as [B1 B2].
  { unfold data_of in Bd. destruct (is_kurz info); [by rewrite <- (K eq_refl)|]. apply Forall_app in Bd as [Bd _]. by apply Forall_app. }
  split; [done|]. split; [done|]. split; [by exists c, prefix|]. split; [done|].
  split; [by rewrite andb_orb_distrib_r, X2, X3|]. done.
Qed.

(** What the parser returns: two points, equal ones for a kurz address, and a
    payment id of 8 bytes if and only if the kind has one. *)
Record parsed_ok (info : address_parse_info) : Prop := {
  parsed_spend : is_point (m_spend_public_key (info_address info));
  parsed_view : is_point (m_view_public_key (info_address info));
  parsed_kurz : is_kurz info = true -> m_spend_public_key (info_address info) = m_view_public_key (info_address info);
  parsed_id : if has_payment_id info then exists id, info_payment_id info = Some id /\ length id = 8%nat /\ is_bytes id
              else info_payment_id info = None
}.

Lemma classify_fits nettype c prefix f : net_config nettype = Some c -> classify_prefix c prefix = Some f -> fits 64 prefix.
Proof.
  intros N E. unfold classify_prefix in E.
  repeat match type of E with
  | (if ?b then _ else _) = _ => destruct b eqn:C; [rewrite ?orb_true_iff, ?Z.eqb_eq in C; clear E|clear C]
  end; try discriminate; destruct nettype; try discriminate N; injection N as <-; repeat destruct C as [C|C]; subst prefix; by_eval.
Qed.

Lemma parse_data_of info :
  parsed_ok info -> has_payment_id info && is_kurz info = false ->
  parse_address_data (is_subaddress info) (has_payment_id info) (is_kurz info) (data_of info) = Some info
  /\ is_bytes (data_of info) /\ data_of info <> [].
Proof.
  intros [[[B1 L1] _] [[B2 L2] _] K P] X. destruct info as [[s v] sub pid kurz pay]. unfold data_of.
  cbn [info_address m_spend_public_key m_view_public_key is_subaddress has_payment_id is_kurz info_payment_id] in *.
  destruct pid; cbn [andb] in X; subst.
  - destruct P as (i & -> & Li & Bi). cbn [default from_option id]. pose proof (parse_integrated (Addr s v) i ltac:(done) Li) as EI.
    cbn [m_spend_public_key m_view_public_key] in EI. unfold parse_address_data. rewrite EI.
    split; [done|]. split; [by repeat (apply Forall_app; split)|]. destruct s; [discriminate L1|done].
  - destruct kurz.
    + rewrite <- (K eq_refl). unfold parse_address_data. rewrite parse_kurz by done. split; [done|]. split; [done|]. by destruct s.
    + cbn [default from_option id]. pose proof (parse_address (Addr s v) ltac:(done)) as EI.
      cbn [m_spend_public_key m_view_public_key] in EI. unfold parse_address_data. rewrite app_nil_r, EI.
      split; [done|]. split; [by apply Forall_app|]. destruct s; [discriminate L1|done].
Qed.

(** C37. What get_account_address_from_str accepts, and nothing else: the text is
    the base58 text, with the checksum, of a prefix of the network and of the keys
    and the payment id that are returned; the prefix, a current one or a legacy one,
    determines the kind; both keys are points of the curve; a kurz address has one
    key; and exactly an integrated address has a payment id, of 8 bytes.  (So the
    text is the only one for its prefix and data.  The printer chooses one prefix:
    for equal keys the kurz one, while the parser also accepts their long text.) *)
Theorem address_parser_spec nettype str info :
  is_bytes str ->
  get_account_address_from_str nettype str = ret (Some info) <->
  parsed_ok info /\ exists c prefix,
    net_config nettype = Some c /\ classify_prefix c prefix = Some (is_subaddress info, has_payment_id info, is_kurz info)
    /\ Base58.encode_addr prefix (data_of info) = Some str.
Proof.
  intros B. split.
  - intros E. destruct (address_inv nettype str info B E) as (P1 & P2 & (c & prefix & N & ED & C) & X & _ & K & P).
    assert (parsed_ok info) as O.
    { split; [done..|]. destruct (has_payment_id info); [|done]. destruct P as (id & EI & L). exists id. split; [done|]. split; [done|].
      apply decode_addr_bytes in ED; [|done]. unfold data_of in ED. destruct (is_kurz info); [discriminate X|].
      rewrite EI in ED. by apply Forall_app in ED as [_ ED]. }
    split; [done|]. exists c, prefix. split; [done|]. split; [done|]. apply Base58.addr_decodes; [done|done|].
    by apply parse_data_of.
  - intros (O & c & prefix & N & C & EE). destruct (classify_exclusive _ _ _ _ _ C) as (X & _).
    destruct (parse_data_of info O X) as (EP & Bd & _).
    destruct (Base58.addr_encodes prefix (data_of info) (classify_fits _ _ _ _ N C) Bd) as (a & EA & _ & ED).
    assert (a = str) as -> by congruence. unfold get_account_address_from_str. rewrite N.
    eapply accepted_address; [done|done|done|apply O|apply O].
Qed.

End soundness.

(** The kurz address of the base point, and an integrated address. *)
Lemma address_roundtrip_witness :
  (exists str, @get_public_address_as_str example_hash MAINNET false (Addr RctOps.G RctOps.G) = Some str
     /\ @get_account_address_from_str example_hash MAINNET str = ret (Some (Info (Addr RctOps.G RctOps.G) false false true None)))
  /\ exists str,
     @get_account_integrated_address_as_str example_hash MAINNET (Addr RctOps.G RctOps.G) (replicate 8 1) = Some str
     /\ @get_account_address_from_str example_hash MAINNET str
        = ret (Some (Info (Addr RctOps.G RctOps.G) false true false (Some (replicate 8 1)))).
Proof.
  destruct (@address_roundtrip example_hash MAINNET config_MAINNET (Addr RctOps.G RctOps.G) (replicate 8 1) eq_refl
    Mlsag.G_checked Mlsag.G_checked eq_refl ltac:(by_eval)) as [H1 H2].
  split; [exact (H1 false)|exact H2].
Defined.
(** The text of the kurz address of the base point, parsed. *)
Lemma address_parser_spec_witness : exists str,
  @Base58.encode_addr example_hash 0x2c6192 RctOps.G = Some str
  /\ @get_account_address_from_str example_hash MAINNET str = ret (Some (Info (Addr RctOps.G RctOps.G) false false true None)).
Proof.
  destruct (@Base58.addr_encodes example_hash 0x2c6192 RctOps.G ltac:(by_eval) ltac:(by_eval)) as (str & E & B & _).
  exists str. split; [exact E|]. apply (@address_parser_spec example_hash MAINNET str _ B).
  split; [split; [exact Mlsag.G_checked|exact Mlsag.G_checked|done|done]|].
  exists config_MAINNET, 0x2c6192. split; [reflexivity|]. split; [reflexivity|exact E].
Defined.

End Address.
