(* ===== verification/MinerTx.v ===== *)
(** * Miner transactions

    construct_miner_tx of src/cryptonote_core/cryptonote_tx_utils.cpp, and of
    src/cryptonote_core/blockchain.cpp prevalidate_miner_transaction, the two
    versions of validate_miner_transaction and the keys of the development fund
    that Blockchain::init sets.  The theorems show that what is accepted creates
    no more money than the reward, the fees and the payment to the fund, which is
    exactly the amount due, and that what construct_miner_tx builds is accepted
    unless it is mined to the fund. *)

From S2P Require Import Prelude Config Keccak Base58 Difficulty BlockReward Serialization Transaction TxExtra Limbs Primality Scalar Fe Ge Curve Points BaseData ScalarMult BaseTable Order Multiples Crypto RingSig RctOps RangeProof Mlsag RctSigs Account TxBuild TxCheck Address Result.
Import Config Keccak BlockReward Limbs Scalar Fe Ge Curve Points BaseData ScalarMult BaseTable Order Multiples Crypto RingSig RctOps RangeProof Mlsag RctSigs Account TxBuild TxCheck Address Result.

Module MinerTx.

Definition CRYPTONOTE_MINED_MONEY_UNLOCK_WINDOW : Z := 60.

Definition DEV_FUND_ADDRESS : bytes :=
  bytes_of_string "RYoLshTYzNEaizPi9jWtRtNPtan5fAqc3TVbyzZDWghLY99eXivKD1XQMseVyJQ1kD5FXDvk4nHqpUXBTMCm5aqmQU8tHaN51Wc"%string.

Definition DEV_FUND_VIEWKEY : bytes :=
  [0x34; 0xd6; 0xb7; 0x15; 0x5d; 0x99; 0xda; 0x44; 0xc3; 0xa7; 0x34; 0x24; 0xc6; 0x0e; 0xcb; 0x0d;
   0xa5; 0x3d; 0x22; 0x8e; 0xd8; 0xda; 0x02; 0x6d; 0xf0; 0x0e; 0xd2; 0x75; 0xea; 0x54; 0xe8; 0x03].

(** get_block_reward, with false for a block that is too big. *)
Definition block_reward (nettype : network_type) (median_size current_block_size already_generated_coins height : Z)
    : result (option Z) :=
  let* r := lift (get_block_reward nettype median_size current_block_size already_generated_coins height) in
  ret (match r with Too_big => None | Reward reward => Some reward end).

Section functions.

Context `{HF : !FastHash} (debug : bool).

(** ** Building *)

(** An output to an address at a position; [None] is false. *)
Definition miner_output (address : account_public_address) (sec : bytes) (i amount : Z) : result (option Transaction.tx_out) :=
  let? derivation := lift (generate_key_derivation debug (m_view_public_key address) sec) in
  let? key := lift (derive_public_key debug derivation i (m_spend_public_key address)) in
  ret (Some {| Transaction.amount := amount; Transaction.target := Transaction.txout_to_key key |}).

Definition construct_miner_tx (nettype : network_type) (height median_size already_generated_coins current_block_size fee : Z)
    (miner_address : account_public_address) (extra_nonce : bytes) (rng : randomness)
    : result (option (Transaction.transaction_prefix * randomness)) :=
  let* (pub, sec, _, rng) := lift (generate_legacy_keys [] false rng) in
  let extra := snd (TxExtra.add_tx_pub_key_to_extra [] pub) in
  let? extra :=
    ret (match extra_nonce with
         | [] => Some extra
         | _ => let '(ok, extra) := TxExtra.add_extra_nonce_to_tx_extra extra extra_nonce in if ok : bool then Some extra else None
         end) in
  let? reward := block_reward nettype median_size current_block_size already_generated_coins height in
  let? out := miner_output miner_address sec 0 (u64 (reward + fee)) in
  let? outs :=
    (match get_dev_fund_amount nettype height with
     | None => ret (Some [out])
     | Some dev_fund_amount =>
         let? dev_addr := get_account_address_from_str MAINNET DEV_FUND_ADDRESS in
         let? dev := miner_output (info_address dev_addr) sec 1 dev_fund_amount in
         ret (Some [out; dev])
     end) in
  ret (Some ({| Transaction.version := 3; Transaction.unlock_time := u64 (height + CRYPTONOTE_MINED_MONEY_UNLOCK_WINDOW);
                Transaction.vin := [Transaction.txin_gen height]; Transaction.vout := outs; Transaction.extra := extra |}, rng)).

(** ** Accepting *)

(** The start of Blockchain::init: m_dev_view_key and m_dev_spend_key, or false. *)
Definition init_dev_keys : result (option (bytes * bytes)) :=
  let? dev_addr := get_account_address_from_str MAINNET DEV_FUND_ADDRESS in
  let? vk := lift (secret_key_to_public_key DEV_FUND_VIEWKEY) in
  let? _ := check (bool_decide (vk = m_view_public_key (info_address dev_addr))) in
  ret (Some (DEV_FUND_VIEWKEY, m_spend_public_key (info_address dev_addr))).

Definition prevalidate_miner_transaction (tx : Transaction.transaction_prefix) (rct_type height : Z) : bool :=
  match Transaction.vin tx with
  | [Transaction.txin_gen h] =>
      (rct_type =? Transaction.RCTTypeNull) && (h =? height)
      && (Transaction.unlock_time tx =? u64 (height + CRYPTONOTE_MINED_MONEY_UNLOCK_WINDOW)) && check_outs_overflow tx
  | _ => false
  end.

(** The money of the miner and of the fund, by the position of the output. *)
Fixpoint money_loop (deriv dev_spend_key : bytes) (outs : list Transaction.tx_out) (i miner_money dev_money : Z)
    : result (option (Z * Z)) :=
  match outs with
  | [] => ret (Some (miner_money, dev_money))
  | o :: outs =>
      let? pk := lift (derive_public_key debug deriv i dev_spend_key) in
      match Transaction.target o with
      | Transaction.txout_to_key key =>
          let? _ := check (negb (Transaction.amount o =? 0)) in
          if bool_decide (key = pk)
          then money_loop deriv dev_spend_key outs (i + 1) miner_money (u64 (dev_money + Transaction.amount o))
          else money_loop deriv dev_spend_key outs (i + 1) (u64 (miner_money + Transaction.amount o)) dev_money
      | _ => ret None
      end
  end.

(** The common end of the two versions: the new base reward and whether the
    miner claimed less than the whole. *)
Definition claim_reward (base_reward fee money : Z) : option (Z * bool) :=
  if u64 (money - fee) <=? base_reward
  then Some (u64 (money - fee), negb (u64 (base_reward + fee) =? money)) else None.

(** [sizes] are those of the last blocks, [db_height] the height of the chain. *)
Definition validate_miner_transaction_v2 (nettype : network_type) (dev_view_key dev_spend_key : bytes) (sizes : list Z)
    (db_height : Z) (tx : Transaction.transaction_prefix) (height cumulative_block_size fee already_generated_coins : Z)
    : result (option (Z * bool)) :=
  let tx_pub := TxExtra.get_tx_pub_key_from_extra (Transaction.extra tx) 0 in
  let? _ := check (negb (bool_decide (tx_pub = TxExtra.null_pkey))) in
  let? deriv := lift (generate_key_derivation debug tx_pub dev_view_key) in
  let? (miner_money, dev_money) := money_loop deriv dev_spend_key (Transaction.vout tx) 0 0 0 in
  let* median := lift (Difficulty.median sizes) in
  let? base_reward := block_reward nettype median cumulative_block_size already_generated_coins db_height in
  let? _ := check (miner_money <=? u64 (base_reward + fee)) in
  let? _ := check (default 0 (get_dev_fund_amount nettype height) =? dev_money) in
  ret (claim_reward base_reward fee miner_money).

Definition validate_miner_transaction_v1 (nettype : network_type) (sizes : list Z) (db_height : Z)
    (tx : Transaction.transaction_prefix) (cumulative_block_size fee already_generated_coins : Z) : result (option (Z * bool)) :=
  let money_in_use := get_outs_money_amount tx in
  let* median := lift (Difficulty.median sizes) in
  let? base_reward := block_reward nettype median cumulative_block_size already_generated_coins db_height in
  let? _ := check (money_in_use <=? u64 (base_reward + fee)) in
  ret (claim_reward base_reward fee money_in_use).

End functions.



(** ** What is accepted *)

(** A derivation is made with a public key that is a point. *)
Lemma derivation_point debug k v d :
  scalar k -> valid v -> generate_key_derivation debug k v = Some (Some d) ->
  exists R, on_curve R /\ k = encode R /\ d = encode (zmul 8 (zmul (num v) R)).
Proof.
  intros [Hb Hl] V E. destruct (ge_frombytes_vartime_ok k Hb Hl) as ([e|h] & EF & Dk).
  - unfold generate_key_derivation in E. rewrite EF in E. apply bind_Some in E as (? & _ & E). by apply bind_Some in E as (? & _ & E).
  - destruct Dk as (R & _ & HR & ER). exists R. split; [done|]. split; [done|].
    rewrite <- ER, (derivation_ok debug R v HR V) in E. congruence.
Qed.

#[local] Opaque generate_key_derivation derive_public_key encode zmul check_key secret_key_to_public_key get_block_reward
  Base58.decode_addr.

(** ** The money of the fund

    What the owner of the fund finds with the secret view key: the output at
    position [i] of a transaction with public key [R] has the key
    [Hs(8 v R || i) G + D], where [v] is the view key and [D] the spend key. *)

Definition fund_key `{HF : !FastHash} (v : bytes) (R D : point) (i : Z) : bytes :=
  encode (pt_add D (zmul (output_scalar (encode (zmul 8 (zmul (num v) R))) i) B)).

(** The sum of the outputs from position [i] on whose key is the one at that position. *)
Fixpoint paid_to (key_at : Z -> bytes) (outs : list Transaction.tx_out) (i : Z) : Z :=
  match outs with
  | [] => 0
  | o :: outs =>
      match Transaction.target o with
      | Transaction.txout_to_key key => if bool_decide (key = key_at i) then Transaction.amount o else 0
      | _ => 0
      end + paid_to key_at outs (i + 1)
  end.

Lemma paid_to_range key_at outs : forall i,
  Forall (fits 64) (map Transaction.amount outs) -> 0 <= paid_to key_at outs i <= zsum (map Transaction.amount outs).
Proof.
  induction outs as [|o outs IH]; intros i F; cbn [paid_to map zsum] in *; [lia|]. apply Forall_cons in F as [Ho F].
  specialize (IH (i + 1) F). unfold fits in Ho. destruct (Transaction.target o); try lia. case_bool_decide; lia.
Qed.

(** An output to a key with a visible amount. *)
Definition plain_output (o : Transaction.tx_out) : Prop :=
  (exists key, Transaction.target o = Transaction.txout_to_key key) /\ Transaction.amount o <> 0.

Lemma money_loop_sound `{HF : !FastHash} debug v R D outs : forall i miner dev miner' dev',
  on_curve D -> Forall (fits 64) (map Transaction.amount outs) -> 0 <= miner -> 0 <= dev -> 0 <= i <= miner + dev ->
  miner + dev + zsum (map Transaction.amount outs) < 2 ^ 64 ->
  money_loop debug (encode (zmul 8 (zmul (num v) R))) (encode D) outs i miner dev = ret (Some (miner', dev')) ->
  let fund := paid_to (fund_key v R D) outs i in
  dev' = dev + fund /\ miner' = miner + (zsum (map Transaction.amount outs) - fund) /\ Forall plain_output outs.
Proof.
  intros i miner dev miner' dev' HD. revert i miner dev.
  induction outs as [|o outs IH]; intros i miner dev F Hm Hd Hi L E; cbn [money_loop map zsum paid_to] in *.
  { apply ret_inj in E. injection E as <- <-. split; [lia|]. split; [lia|constructor]. }
  apply Forall_cons in F as [Ho F]. pose proof (zsum_nonneg _ F) as Hz. unfold fits in Ho.
  rewrite (derive_public_key_ok debug _ i D ltac:(lia) HD), lift_some in E. fold (fund_key v R D i) in E. rewrite rtry_ret in E. cbv beta iota in E.
  destruct (Transaction.target o) as [| |k] eqn:ET; [discriminate..|].
  apply rtry_inv in E as (u & C & E). apply check_inv, negb_true_iff, Z.eqb_neq in C.
  assert (plain_output o) as PO by (split; [by exists k|done]). cbv zeta. case_bool_decide.
  - rewrite (wrap_small 64 (dev + Transaction.amount o)) in E by (unfold fits; lia).
    destruct (IH (i + 1) miner (dev + Transaction.amount o) F Hm ltac:(lia) ltac:(lia) ltac:(lia) E) as (A1 & A2 & A3).
    split; [lia|]. split; [lia|by constructor].
  - rewrite (wrap_small 64 (miner + Transaction.amount o)) in E by (unfold fits; lia).
    destruct (IH (i + 1) (miner + Transaction.amount o) dev F ltac:(lia) Hd ltac:(lia) ltac:(lia) E) as (A1 & A2 & A3).
    split; [lia|]. split; [lia|by constructor].
Qed.

(** The public key in an extra is a string of 32 bytes. *)
Definition key_field (f : TxExtra.tx_extra_field) : Prop :=
  match f with TxExtra.tx_extra_pub_key k => scalar k | _ => True end.

Lemma get_field_key inp f rest : is_bytes inp -> TxExtra.get_field inp = Some (f, rest) -> key_field f.
Proof.
  intros Hin H. unfold TxExtra.get_field in H. apply bind_Some in H as ([t r] & Et & H).
  apply Serialization.get_ok in Et as [_ Hr]; [|done].
  unfold TxExtra.get_payload in H.
  repeat match type of H with (if ?c then _ else _) = _ => destruct c end; try done;
    apply bind_Some in H as ([x r'] & Ex & H); try destruct x as [d root]; injection H as <- <-; try done.
  unfold Serialization.get_blob in Ex. destruct (Nat.leb_spec 32 (length r)); [|discriminate]. injection Ex as <- <-.
  split; [by apply Forall_take|rewrite length_take; lia].
Qed.

Lemma parse_loop_keys fuel : forall inp acc,
  is_bytes inp -> Forall key_field acc -> Forall key_field (snd (TxExtra.parse_loop fuel inp acc)).
Proof.
  induction fuel as [|fuel IH]; intros inp acc Hin F; cbn [TxExtra.parse_loop]; [done|].
  destruct (TxExtra.get_field inp) as [[f rest]|] eqn:E; [|done]. pose proof (get_field_key _ _ _ Hin E) as K.
  assert (Forall key_field (acc ++ [f])) as F' by (apply Forall_app; split; [done|by constructor]).
  destruct rest as [|x rest]; [done|]. apply IH; [|done]. by apply TxExtra.get_field_ok in E as (_ & Hr & _).
Qed.

Lemma pub_key_scalar extra i : is_bytes extra -> scalar (TxExtra.get_tx_pub_key_from_extra extra i).
Proof.
  intros Hb. unfold TxExtra.get_tx_pub_key_from_extra, TxExtra.find_tx_extra_field_by_type.
  assert (Forall key_field (snd (TxExtra.parse_tx_extra extra))) as F.
  { unfold TxExtra.parse_tx_extra. destruct extra; [constructor|]. apply parse_loop_keys; [done|constructor]. }
  assert (scalar TxExtra.null_pkey) as N by by_eval.
  destruct (filter _ _ !! i) as [f|] eqn:E; [|done]. apply list_elem_of_lookup_2, list_elem_of_filter in E as [_ E].
  rewrite Forall_forall in F. specialize (F _ E). by destruct f.
Qed.

(** The two comparisons with the base reward, at the width of the counters. *)
Lemma claim_reward_sound base fee money base' partial :
  fits 64 base -> fits 64 fee -> fits 64 money -> money <= u64 (base + fee) -> claim_reward base fee money = Some (base', partial) ->
  money <= base + fee /\ fits 64 base' /\ base' <= base /\ u64 (base' + fee) = money
  /\ (base + fee < 2 ^ 64 -> fee <= money /\ base' = money - fee /\ partial = negb (base + fee =? money)).
Proof.
  unfold claim_reward, fits. intros Hb Hf Hm M E. destruct (Z.leb_spec (u64 (money - fee)) base) as [C|]; [|discriminate].
  injection E as <- <-. unfold wrap in *.
  assert (0 <= (money - fee) mod 2 ^ 64 < 2 ^ 64) as R by (apply Z.mod_pos_bound; lia).
  assert ((base + fee) mod 2 ^ 64 <= base + fee) as LE by (apply Z.mod_le; lia).
  split; [lia|]. split; [done|]. split; [done|]. split.
  { rewrite Z.add_mod_idemp_l by lia. replace (money - fee + fee) with money by lia. apply Z.mod_small. lia. }
  intros S. rewrite (Z.mod_small (base + fee)) in * by lia.
  assert (fee <= money) as FM.
  { destruct (Z.lt_ge_cases money fee) as [H|H]; [|lia]. exfalso.
    assert ((money - fee) mod 2 ^ 64 = money - fee + 2 ^ 64) as W by (symmetry; apply (Z.mod_unique _ _ (-1)); lia). lia. }
  rewrite (Z.mod_small (money - fee)) by lia. done.
Qed.

(** C9. An accepted miner transaction creates no money out of nothing and pays the
    fund.  When prevalidate_miner_transaction and validate_miner_transaction_v2
    accept it, its public key is a point, all its outputs go to keys with a visible
    amount, the outputs the owner of the development fund finds with the view key
    (those with the key derived for their position) add up to exactly the payment
    that is due at this height, all others together are at most the block reward
    and the fees, and the base reward that is recorded is that amount less the
    fees; without an overflow of reward and fees the miner cannot claim less than
    the fees. *)
Theorem miner_reward_safe `{HF : !FastHash} debug nettype c dvk dsk D sizes db_height tx rct_type height size fee coins base' partial :
  net_config nettype = Some c -> valid dvk -> on_curve D -> dsk = encode D -> fits 64 db_height ->
  is_bytes (Transaction.extra tx) -> Forall (fits 64) (map Transaction.amount (Transaction.vout tx)) -> fits 64 fee ->
  prevalidate_miner_transaction tx rct_type height = true ->
  validate_miner_transaction_v2 debug nettype dvk dsk sizes db_height tx height size fee coins = ret (Some (base', partial)) ->
  Transaction.vin tx = [Transaction.txin_gen height] /\ Forall plain_output (Transaction.vout tx)
  /\ exists R m r,
       let fund := paid_to (fund_key dvk R D) (Transaction.vout tx) 0 in
       let miner := zsum (map Transaction.amount (Transaction.vout tx)) - fund in
       on_curve R /\ TxExtra.get_tx_pub_key_from_extra (Transaction.extra tx) 0 = encode R
       /\ Difficulty.median sizes = Some m /\ get_block_reward nettype m size coins db_height = Some (Reward r)
       /\ fund = default 0 (get_dev_fund_amount nettype height)
       /\ 0 <= miner <= r + fee /\ 0 <= base' <= r /\ u64 (base' + fee) = miner
       /\ (r + fee < 2 ^ 64 -> fee <= miner /\ base' = miner - fee /\ partial = negb (r + fee =? miner)).
Proof.
  intros N Vd HD -> Hh Hx F Hf P E. unfold prevalidate_miner_transaction in P.
  destruct (Transaction.vin tx) as [|[h| | |] [|]] eqn:EV; try discriminate.
  apply andb_true_iff in P as [P O]. apply andb_true_iff in P as [P _]. apply andb_true_iff in P as [_ P]. apply Z.eqb_eq in P. subst h.
  split; [done|]. apply (outs_overflow_ok _ 0 F ltac:(lia)) in O. rewrite Z.add_0_l in O.
  unfold validate_miner_transaction_v2 in E. apply rtry_inv in E as (u1 & _ & E). apply rtry_inv in E as (deriv & ED & E).
  apply lift_inv in ED. destruct (derivation_point debug _ dvk deriv (pub_key_scalar _ 0 Hx) Vd ED) as (R & HR & EK & ->).
  apply rtry_inv in E as ([miner dev] & EM & E). rinv E m Em. apply lift_inv in Em.
  apply rtry_inv in E as (r & ER & E). unfold block_reward in ER. rinv ER rr Er. apply lift_inv in Er. apply ret_inj in ER.
  destruct rr as [|r']; [discriminate|]. injection ER as ->.
  apply rtry_inv in E as (u2 & C1 & E). apply check_inv, Z.leb_le in C1. apply rtry_inv in E as (u3 & C2 & E). apply check_inv, Z.eqb_eq in C2.
  apply ret_inj in E. pose proof (paid_to_range (fund_key dvk R D) (Transaction.vout tx) 0 F) as PR.
  destruct (money_loop_sound debug dvk R D _ 0 0 0 miner dev HD F ltac:(lia) ltac:(lia) ltac:(lia) ltac:(lia) EM) as (M1 & M2 & M3).
  rewrite Z.add_0_l in M1, M2. split; [done|].
  destruct (claim_reward_sound r fee miner base' partial (block_reward_fits _ _ _ _ _ _ _ N Hh Er) Hf ltac:(unfold fits; lia) C1 E) as (A1 & A2 & A3 & A4 & A5).
  exists R, m, r. cbv zeta. rewrite <- M2, <- M1. unfold fits in A2. split_and!; try done; lia.
Qed.


(** ** What is built is accepted *)

(** The public key of an extra that starts with one. *)
Lemma parse_loop_prefix fuel : forall inp fields, exists l, snd (TxExtra.parse_loop fuel inp fields) = fields ++ l.
Proof.
  induction fuel as [|fuel IH]; intros inp fields; cbn [TxExtra.parse_loop]; [exists []; by rewrite app_nil_r|].
  destruct (TxExtra.get_field inp) as [[f [|x rest]]|]; [by exists [f]| |exists []; by rewrite app_nil_r].
  destruct (IH (x :: rest) (fields ++ [f])) as (l & ->). exists (f :: l). by rewrite <- app_assoc.
Qed.

Lemma pub_key_first key rest :
  length key = 32%nat -> TxExtra.get_tx_pub_key_from_extra ([TxExtra.TX_EXTRA_TAG_PUBKEY] ++ key ++ rest) 0 = key.
Proof.
  intros L. unfold TxExtra.get_tx_pub_key_from_extra, TxExtra.parse_tx_extra. cbn [app length].
  assert (TxExtra.get_field (TxExtra.TX_EXTRA_TAG_PUBKEY :: key ++ rest) = Some (TxExtra.tx_extra_pub_key key, rest)) as EF.
  { destruct (Serialization.blob_codec 32 key L) as (b & [= <-] & E). unfold TxExtra.get_field. cbn [mbind option_bind].
    change (Serialization.get_uint 1 (TxExtra.TX_EXTRA_TAG_PUBKEY :: key ++ rest)) with (Some (TxExtra.TX_EXTRA_TAG_PUBKEY, key ++ rest)).
    cbn [mbind option_bind]. unfold TxExtra.get_payload. cbn [TxExtra.TX_EXTRA_TAG_PUBKEY TxExtra.TX_EXTRA_TAG_PADDING Z.eqb].
    by rewrite E. }
  cbn [TxExtra.parse_loop]. rewrite EF. destruct rest as [|x rest]; [done|].
  destruct (parse_loop_prefix (length (key ++ x :: rest)) (x :: rest) [TxExtra.tx_extra_pub_key key]) as (l & E).
  cbn [app] in *. rewrite E. done.
Qed.

Lemma dev_amount_for c height amount :
  fits 64 (DEV_FUND_AMOUNT c / DEV_FUND_LENGTH c) -> 0 < DEV_FUND_AMOUNT c / DEV_FUND_LENGTH c ->
  0 < u64 (DEV_FUND_AMOUNT c / DEV_FUND_LENGTH c + DEV_FUND_V2_INCREASE c) ->
  get_dev_fund_amount_for c height = Some amount -> 0 < amount < 2 ^ 64.
Proof.
  intros F1 P1 P2 E. unfold get_dev_fund_amount_for in E. cbv zeta in E. unfold fits in F1.
  pose proof (wrap_range 64 (DEV_FUND_AMOUNT c / DEV_FUND_LENGTH c + DEV_FUND_V2_INCREASE c) ltac:(lia)) as W. unfold fits in W.
  repeat case_match; try discriminate; injection E as <-; lia.
Qed.

Lemma dev_amount_range nettype height amount : get_dev_fund_amount nettype height = Some amount -> 0 < amount < 2 ^ 64.
Proof. destruct nettype; try discriminate; apply dev_amount_for; by_eval. Qed.

Section mining.

Context `{HF : !FastHash} (debug : bool).

Lemma miner_output_ok address sec i amount P :
  is_key (m_spend_public_key address) -> on_curve P -> m_view_public_key address = encode P -> valid sec -> 0 <= i < 2 ^ 64 ->
  exists key, miner_output debug address sec i amount
      = ret (Some {| Transaction.amount := amount; Transaction.target := Transaction.txout_to_key key |})
    /\ derive_public_key debug (encode (zmul 8 (zmul (num sec) P))) i (m_spend_public_key address) = Some (Some key).
Proof.
  intros KS HP EV Vs Hi. destruct (is_key_point _ KS) as (S & HS & ES). unfold miner_output.
  rewrite EV, derivation_ok by done. rewrite lift_some. tgo. rewrite ES, (derive_public_key_ok debug _ i S Hi HS).
  rewrite lift_some. tgo. by eexists.
Qed.

(** The keys of the fund. *)
Lemma dev_keys_ok dvk dsk :
  init_dev_keys = ret (Some (dvk, dsk)) ->
  exists info, get_account_address_from_str MAINNET DEV_FUND_ADDRESS = ret (Some info) /\ valid dvk /\ is_key dsk
    /\ m_view_public_key (info_address info) = encode (zmul (num dvk) B) /\ m_spend_public_key (info_address info) = dsk.
Proof.
  intros E. unfold init_dev_keys in E. apply rtry_inv in E as (info & EA & E). apply rtry_inv in E as (vk & EV & E).
  apply rtry_inv in E as (u & C & E). apply check_inv, bool_decide_eq_true in C. apply ret_inj in E. injection E as <- <-.
  assert (valid DEV_FUND_VIEWKEY) as V by by_eval. exists info. split; [done|]. split; [done|].
  rewrite (public_key_ok _ V), lift_some in EV. apply ret_inj in EV. injection EV as <-.
  destruct (address_inv MAINNET DEV_FUND_ADDRESS info ltac:(by_eval) EA) as (K & _). split; [exact K|]. split; [by rewrite <- C|done].
Qed.

(** What money_loop finds in the transaction that was built: the first output is
    the miner's unless its key is that of the fund. *)
Lemma money_of_built deriv dsk key pk amount dev rest :
  derive_public_key debug deriv 0 dsk = Some (Some pk) -> fits 64 amount -> amount <> 0 ->
  (rest = [] /\ dev = 0
   \/ exists dkey, rest = [{| Transaction.amount := dev; Transaction.target := Transaction.txout_to_key dkey |}]
        /\ dev <> 0 /\ derive_public_key debug deriv 1 dsk = Some (Some dkey)) ->
  fits 64 dev -> amount + dev < 2 ^ 64 ->
  money_loop debug deriv dsk ({| Transaction.amount := amount; Transaction.target := Transaction.txout_to_key key |} :: rest) 0 0 0
  = ret (Some (if bool_decide (key = pk) then (0, amount + dev) else (amount, dev))).
Proof.
  intros E0 Fa Na R Fd L. unfold fits in *. cbn [money_loop Transaction.target Transaction.amount]. rewrite E0, lift_some. tgo.
  rewrite (proj2 (Z.eqb_neq amount 0) Na). cbn [negb]. rewrite check_holds by done. tgo. rewrite !Z.add_0_l.
  rewrite (wrap_small 64 amount) by (unfold fits; lia).
  destruct R as [[-> ->]|(dkey & -> & Nd & E1)]; cbn [money_loop Transaction.target Transaction.amount].
  - rewrite Z.add_0_r. by case_bool_decide.
  - change (0 + 1) with 1. rewrite E1, !lift_some. 
    case_bool_decide; tgo; rewrite (proj2 (Z.eqb_neq dev 0) Nd); cbn [negb]; rewrite check_holds by done; tgo;
      rewrite bool_decide_eq_true_2 by done; rewrite ?Z.add_0_l, wrap_small by (unfold fits; lia); reflexivity.
Qed.

Lemma shared_with_fund dvk sec :
  encode (zmul 8 (zmul (num sec) (zmul (num dvk) B))) = encode (zmul 8 (zmul (num dvk) (zmul (num sec) B))).
Proof.
  apply encode_proper. rewrite <- (zmul_mul (num sec)), <- (zmul_mul (num dvk)) by exact B_curve. by rewrite Z.mul_comm.
Qed.

(** The output to the fund, if one is due. *)
Lemma fund_output nettype height sec dvk dsk out :
  valid sec -> init_dev_keys = ret (Some (dvk, dsk)) ->
  exists rest,
    (match get_dev_fund_amount nettype height with
     | None => ret (Some [out])
     | Some dev_fund_amount =>
         let? dev_addr := get_account_address_from_str MAINNET DEV_FUND_ADDRESS in
         let? dev := miner_output debug (info_address dev_addr) sec 1 dev_fund_amount in
         ret (Some [out; dev])
     end) = ret (Some (out :: rest))
    /\ let dev := default 0 (get_dev_fund_amount nettype height) in
       (rest = [] /\ dev = 0
        \/ exists dkey, rest = [{| Transaction.amount := dev; Transaction.target := Transaction.txout_to_key dkey |}]
             /\ dev <> 0
             /\ derive_public_key debug (encode (zmul 8 (zmul (num dvk) (zmul (num sec) B)))) 1 dsk = Some (Some dkey)).
Proof.
  intros Vs ED. destruct (dev_keys_ok dvk dsk ED) as (info & EA & Vd & Kd & EV & ES).
  destruct (get_dev_fund_amount nettype height) as [amount|] eqn:EF;
    [|exists []; split; [reflexivity|left; split; reflexivity]].
  destruct (miner_output_ok (info_address info) sec 1 amount (zmul (num dvk) B)) as (dkey & EM & EK);
    [by rewrite ES|apply zmul_curve, B_curve|done|done|lia|].
  rewrite EA. tgo. rewrite EM. tgo. eexists. split; [reflexivity|]. right. exists dkey. split; [done|].
  split; [pose proof (dev_amount_range _ _ _ EF); cbn; lia|]. by rewrite ES, shared_with_fund in EK.
Qed.

(** The extra starts with the public key. *)
Lemma miner_extra pub nonce :
  length pub = 32%nat -> Z.of_nat (length nonce) <= TxExtra.TX_EXTRA_NONCE_MAX_COUNT ->
  exists extra,
    (match nonce with
     | [] => Some (snd (TxExtra.add_tx_pub_key_to_extra [] pub))
     | _ => let '(ok, extra) := TxExtra.add_extra_nonce_to_tx_extra (snd (TxExtra.add_tx_pub_key_to_extra [] pub)) nonce in
            if ok : bool then Some extra else None
     end) = Some extra
    /\ TxExtra.get_tx_pub_key_from_extra extra 0 = pub.
Proof.
  intros L N. cbn [TxExtra.add_tx_pub_key_to_extra snd]. rewrite app_nil_l. destruct nonce as [|x nonce].
  - eexists. split; [reflexivity|]. rewrite <- (app_nil_r pub) at 1. by apply pub_key_first.
  - unfold TxExtra.add_extra_nonce_to_tx_extra. rewrite (proj2 (Z.leb_le _ _) N). eexists. split; [reflexivity|].
    rewrite <- app_assoc. by apply pub_key_first.
Qed.

Lemma key_pair rng pub sec k rng' :
  Forall scalar rng -> generate_legacy_keys [] false rng = Some (pub, sec, k, rng') ->
  valid sec /\ pub = encode (zmul (num sec) B).
Proof.
  intros F E. unfold generate_legacy_keys in E. cbv iota in E. apply bind_Some in E as ([r rng1] & E1 & E).
  destruct (random_scalar_valid _ _ _ F E1) as [[Sr _] _]. destruct (keys_of_number r Sr) as (p & E2 & E3 & E4).
  rewrite E2 in E. rewrite !some_bind in E. rewrite E3 in E. rewrite !some_bind in E. injection E as <- <- <- <-.
  split; [apply residue_valid|]. rewrite (public_key_ok _ (residue_valid _)) in E4. congruence.
Qed.

(** C27. A miner transaction that was built is accepted.  For a miner address with
    proper keys, a nonce that fits, a block that is not too big and amounts that
    do not wrap, construct_miner_tx returns a transaction that
    prevalidate_miner_transaction accepts, and validate_miner_transaction_v2
    accepts it with the whole base reward, unless the key of the miner's output is
    that of the development fund: such an output counts as the fund's money and
    the transaction is refused, which is what happens to a miner who mines to the
    address of the fund. *)
Theorem miner_tx_accepted nettype height median sizes coins size fee addr nonce rng pub sec k rng' r dvk dsk :
  fits 64 height -> Forall scalar rng -> generate_legacy_keys [] false rng = Some (pub, sec, k, rng') -> pub <> TxExtra.null_pkey ->
  is_key (m_spend_public_key addr) -> is_key (m_view_public_key addr) ->
  Z.of_nat (length nonce) <= TxExtra.TX_EXTRA_NONCE_MAX_COUNT ->
  init_dev_keys = ret (Some (dvk, dsk)) ->
  Difficulty.median sizes = Some median -> get_block_reward nettype median size coins height = Some (Reward r) ->
  0 <= r -> 0 <= fee -> 0 < r + fee -> r + fee + default 0 (get_dev_fund_amount nettype height) < 2 ^ 64 ->
  exists tx key pk d,
    construct_miner_tx debug nettype height median coins size fee addr nonce rng = ret (Some (tx, rng'))
    /\ prevalidate_miner_transaction tx Transaction.RCTTypeNull height = true
    /\ Transaction.target <$> head (Transaction.vout tx) = Some (Transaction.txout_to_key key)
    /\ generate_key_derivation debug pub dvk = Some (Some d) /\ derive_public_key debug d 0 dsk = Some (Some pk)
    /\ validate_miner_transaction_v2 debug nettype dvk dsk sizes height tx height size fee coins
       = ret (if bool_decide (key = pk) then None else Some (r, false))
    /\ (m_spend_public_key addr = dsk -> secret_key_to_public_key dvk = Some (Some (m_view_public_key addr)) -> key = pk).
Proof.
  intros Hh Fr EK NP KS KV LN ED EM ER R0 F0 RF L. destruct (key_pair _ _ _ _ _ Fr EK) as [Vs EP].
  destruct (dev_keys_ok dvk dsk ED) as (info & _ & Vd & Kd & _). destruct (is_key_point _ KV) as (V & HV & EV).
  destruct (is_key_point _ Kd) as (D & HD & EDk).
  set (dev := default 0 (get_dev_fund_amount nettype height)) in *.
  assert (fits 64 dev) as Fd.
  { unfold dev, fits. destruct (get_dev_fund_amount nettype height) eqn:E; [apply dev_amount_range in E|]; cbn; lia. }
  unfold fits in Hh, Fd. destruct (miner_output_ok addr sec 0 (r + fee) V KS HV EV Vs ltac:(lia)) as (key & EO & EDr).
  destruct (fund_output nettype height sec dvk dsk
    {| Transaction.amount := r + fee; Transaction.target := Transaction.txout_to_key key |} Vs ED) as (rest & EF & HR). fold dev in HR.
  destruct (miner_extra pub nonce) as (extra & EX & EPK); [rewrite EP; apply encode_scalar|done|].
  set (d := encode (zmul 8 (zmul (num dvk) (zmul (num sec) B)))) in *.
  assert (generate_key_derivation debug pub dvk = Some (Some d)) as EDv by (rewrite EP; by apply derivation_ok; [apply zmul_curve, B_curve|]).
  destruct (derive_public_key debug d 0 dsk) as [[pk|]|] eqn:Epk;
    [|by rewrite EDk, (derive_public_key_ok debug d 0 D ltac:(lia) HD) in Epk..].
  eexists _, key, pk, d. split; [|split; [|split; [|split; [exact EDv|split; [done|split]]]]].
  - unfold construct_miner_tx. rewrite EK, lift_some. rgo. cbv zeta. rewrite EX. tgo. unfold block_reward. rewrite ER, lift_some. rgo. tgo.
    rewrite (wrap_small 64 (r + fee)) by (unfold fits; lia). rewrite EO. tgo. rewrite EF. tgo. reflexivity.
  - unfold prevalidate_miner_transaction. cbn [Transaction.vin Transaction.unlock_time]. rewrite !Z.eqb_refl. cbn [andb].
    change (Transaction.RCTTypeNull =? Transaction.RCTTypeNull) with true. cbn [andb].
    apply outs_overflow_ok; cbn [Transaction.vout map Transaction.amount]; [|lia|].
    + constructor; [unfold fits; lia|]. destruct HR as [[-> _]|(dk & -> & _)]; repeat constructor; cbn; lia.
    + cbn [zsum]. destruct HR as [[-> _]|(dk & -> & _)]; cbn [map zsum Transaction.amount]; lia.
  - done.
  - unfold validate_miner_transaction_v2. cbn [Transaction.extra Transaction.vout]. rewrite EPK. cbv zeta.
    rewrite (bool_decide_eq_false_2 (pub = TxExtra.null_pkey)) by done. cbn [negb]. rewrite check_holds by done. tgo.
    rewrite EDv, lift_some. tgo.
    rewrite (money_of_built d dsk key pk (r + fee) dev rest Epk ltac:(unfold fits; lia) ltac:(lia) HR Fd ltac:(lia)).
    fold dev. case_bool_decide as EKP; tgo; rewrite EM, lift_some; rgo; unfold block_reward; rewrite ER, lift_some; rgo; tgo;
      rewrite (wrap_small 64 (r + fee)) by (unfold fits; lia).
    + rewrite (check_holds (0 <=? r + fee)) by (apply Z.leb_le; lia). tgo.
      rewrite (proj2 (Z.eqb_neq dev (r + fee + dev))) by lia. reflexivity.
    + rewrite (check_holds (r + fee <=? r + fee)) by apply Z.leb_refl. tgo. rewrite Z.eqb_refl, check_holds by done. tgo.
      unfold claim_reward. replace (r + fee - fee) with r by lia. rewrite (wrap_small 64 r), (wrap_small 64 (r + fee)) by (unfold fits; lia).
      by rewrite Z.leb_refl, Z.eqb_refl.
  - intros ES EVk. rewrite (public_key_ok dvk Vd), EV in EVk.
    assert (encode (zmul (num dvk) B) = encode V) as EVd by congruence.
    apply encode_inj in EVd; [|apply zmul_curve, B_curve|done].
    rewrite ES, <- EVd, shared_with_fund in EDr. fold d in EDr. congruence.
Qed.

End mining.
(** ** The fund of the configuration *)

Definition fund_spend_key : bytes :=
  [184; 44; 101; 75; 201; 159; 83; 91; 37; 235; 90; 55; 127; 233; 4; 28;
   194; 39; 135; 184; 158; 100; 105; 233; 115; 84; 99; 39; 186; 45; 72; 238].

Lemma fund_keys : @init_dev_keys keccak_fast_hash = ret (Some (DEV_FUND_VIEWKEY, fund_spend_key)).
Proof. vm_cast_no_check (@eq_refl (result (option (bytes * bytes))) (ret (Some (DEV_FUND_VIEWKEY, fund_spend_key)))). Qed.

(** ** Examples *)

(** A miner transaction that pays the fund in its second output; the first goes
    to a key that is no point. *)
Definition no_point : bytes := replicate 32 255.

Lemma no_point_encoded P : on_curve P -> no_point <> encode P.
Proof.
  intros HP E. destruct (decode_encode P HP) as (h & EF & _). rewrite <- E in EF.
  assert (match ge_frombytes_vartime no_point with Some (inl _) => true | _ => false end = true) as N by (vm_compute; reflexivity).
  by rewrite EF in N.
Qed.

Definition fund_claim : Transaction.transaction_prefix :=
  {| Transaction.version := 3; Transaction.unlock_time := 161560; Transaction.vin := [Transaction.txin_gen 161500];
     Transaction.vout :=
       [{| Transaction.amount := 41970000007; Transaction.target := Transaction.txout_to_key no_point |};
        {| Transaction.amount := 25641025641025; Transaction.target := Transaction.txout_to_key (@fund_key example_hash Identity B B 1) |}];
     Transaction.extra := [TxExtra.TX_EXTRA_TAG_PUBKEY] ++ G ++ [] |}.

Lemma claim_accepted `{HF : !FastHash} debug nettype v P D tx key amount dev height size fee coins r :
  Transaction.vout tx = [{| Transaction.amount := amount; Transaction.target := Transaction.txout_to_key key |};
    {| Transaction.amount := dev; Transaction.target := Transaction.txout_to_key (fund_key v P D 1) |}] ->
  Transaction.extra tx = [TxExtra.TX_EXTRA_TAG_PUBKEY] ++ encode P ++ [] -> encode P <> TxExtra.null_pkey ->
  on_curve P -> on_curve D -> valid v -> key <> fund_key v P D 0 -> get_dev_fund_amount nettype height = Some dev ->
  get_block_reward nettype 0 size coins height = Some (Reward r) ->
  fits 64 r -> fits 64 fee -> amount = r + fee -> 0 < amount -> 0 < dev -> amount + dev < 2 ^ 64 ->
  validate_miner_transaction_v2 debug nettype v (encode D) [] height tx height size fee coins = ret (Some (r, false)).
Proof.
  intros EO EX N HP HD V NK ED ER Hr Hf EA Ha Hd L. unfold fits in Hr, Hf. unfold validate_miner_transaction_v2. cbv zeta.
  rewrite EO, EX, pub_key_first by apply encode_scalar.
  rewrite (bool_decide_eq_false_2 (encode P = TxExtra.null_pkey)) by done. cbn [negb]. rewrite check_holds by done. tgo.
  rewrite (derivation_ok debug P v HP V), lift_some. tgo.
  rewrite (money_of_built debug _ (encode D) key (fund_key v P D 0) amount dev);
    [|exact (derive_public_key_ok debug _ 0 D ltac:(lia) HD)|unfold fits; lia|lia| |unfold fits; lia|done].
  2: { right. exists (fund_key v P D 1). split; [done|]. split; [lia|]. exact (derive_public_key_ok debug _ 1 D ltac:(lia) HD). }
  rewrite (bool_decide_eq_false_2 (key = _)) by done. tgo. cbn [Difficulty.median]. rewrite lift_some. rgo.
  unfold block_reward. rewrite ER, lift_some. rgo. tgo. rewrite ED. cbn [default from_option id].
  rewrite (wrap_small 64 (r + fee)) by (unfold fits; lia). rewrite (check_holds (amount <=? _)) by (apply Z.leb_le; lia). tgo.
  rewrite check_holds by apply Z.eqb_refl. tgo. unfold claim_reward. replace (amount - fee) with r by lia.
  rewrite (wrap_small 64 r), (wrap_small 64 (r + fee)) by (unfold fits; lia). rewrite Z.leb_refl, EA. by rewrite Z.eqb_refl.
Qed.

Lemma fund_claim_accepted :
  @validate_miner_transaction_v2 example_hash true MAINNET Identity G [] 161500 fund_claim 161500 1000 7 0 = ret (Some (41970000000, false)).
Proof.
  rewrite G_encoded. apply (@claim_accepted example_hash true MAINNET Identity B B fund_claim no_point 41970000007 25641025641025);
    [reflexivity| | |exact B_curve|exact B_curve|by_eval| |vm_compute; reflexivity|vm_compute; reflexivity|by_eval|by_eval|lia|lia|lia|lia].
  - rewrite <- G_encoded. reflexivity.
  - rewrite <- G_encoded. by_eval.
  - apply no_point_encoded, pt_add_curve; [exact B_curve|apply zmul_curve, B_curve].
Qed.

Lemma miner_reward_safe_witness : exists R r,
  on_curve R /\ get_block_reward MAINNET 0 1000 0 161500 = Some (Reward r)
  /\ paid_to (@fund_key example_hash Identity R B) (Transaction.vout fund_claim) 0 = 25641025641025
  /\ zsum (map Transaction.amount (Transaction.vout fund_claim)) - 25641025641025 <= r + 7.
Proof.
  destruct (@miner_reward_safe example_hash true MAINNET config_MAINNET Identity G B [] 161500 fund_claim Transaction.RCTTypeNull 161500
    1000 7 0 41970000000 false eq_refl ltac:(by_eval) B_curve G_encoded ltac:(by_eval) ltac:(cbn [fund_claim Transaction.extra]; by_eval)
    ltac:(cbn [fund_claim Transaction.vout map Transaction.amount]; by_eval) ltac:(by_eval)
    ltac:(reflexivity) fund_claim_accepted) as (_ & _ & R & m & r & HR & _ & Em & Er & Ef & Hm & _).
  exists R, r. injection Em as <-. change (default 0 (get_dev_fund_amount MAINNET 161500)) with 25641025641025 in Ef.
  rewrite Ef in Hm. split; [exact HR|]. split; [exact Er|]. split; [exact Ef|exact (proj2 Hm)].
Defined.

Lemma unit_keys : generate_legacy_keys [] false [Identity] = Some (G, Identity, Identity, []).
Proof.
  destruct (keys_of_number Identity ltac:(by_eval)) as (pub & E1 & E2 & E3).
  assert (residue (num Identity) = Identity) as EI by by_eval. rewrite EI in *. rewrite G_key in E3. injection E3 as <-.
  unfold generate_legacy_keys. change (random_scalar [Identity]) with (v ← sc_reduce32 Identity; Some (v, @nil bytes)).
  rewrite E1, !some_bind, E1, !some_bind, E2. reflexivity.
Qed.

(** The first block that pays the fund. *)
Lemma miner_tx_accepted_witness : exists tx (key pk : bytes),
  @construct_miner_tx keccak_fast_hash true MAINNET 161500 0 0 1000 7 (Addr G G) [] [Identity] = ret (Some (tx, []))
  /\ prevalidate_miner_transaction tx Transaction.RCTTypeNull 161500 = true
  /\ @validate_miner_transaction_v2 keccak_fast_hash true MAINNET DEV_FUND_VIEWKEY fund_spend_key [] 161500 tx 161500 1000 7 0
     = ret (if bool_decide (key = pk) then None else Some (41970000000, false)).
Proof.
  destruct (@miner_tx_accepted keccak_fast_hash true MAINNET 161500 0 [] 0 1000 7 (Addr G G) [] [Identity] G Identity Identity []
    41970000000 DEV_FUND_VIEWKEY fund_spend_key) as (tx & key & pk & d & E1 & E2 & _ & _ & _ & E3 & _);
    [by_eval|by_eval|exact unit_keys|by_eval|exact G_checked|exact G_checked|by_eval|exact fund_keys|reflexivity|vm_compute; reflexivity|lia|lia|lia|by_eval|].
  exists tx, key, pk. exact (conj E1 (conj E2 E3)).
Defined.

End MinerTx.
