(* ===== verification/Database.v ===== *)
(** * The block chain database

    BlockchainDB of src/blockchain_db/blockchain_db.cpp over the tables of
    src/blockchain_db/lmdb/db_lmdb.cpp: blocks, transactions, outputs and spent
    key images, with the exceptions they throw and what has been written when they
    throw.  A transaction is kept itself, not its blob: that a blob is read back
    is the round trip of Transaction.v.  A table that shrinks does so from its end
    here; a removal from the middle, which would leave a hole, has no result, and
    popping a block never asks for one. *)

From stdpp Require Import gmap.
From S2P Require Import Prelude Config Keccak HardFork Serialization Transaction TxHash RctOps RctSigs TxBuild TxAccept Result.
Import RctOps RctSigs TxBuild TxAccept Result.

Module Database.

(** ** Tables *)

(** A block with its mdb_block_info. *)
Record db_block := Dbblock { b_block : Transaction.block; bi_size : Z; bi_diff : Z; bi_coins : Z; bi_hash : bytes }.

(** A transaction; the signature of a miner transaction, which has the type null
    and no members, is [None]. *)
Record db_tx := Dbtx { t_prefix : Transaction.transaction_prefix; t_rct : option rctSig }.

Record txindex := Txindex { ti_hash : bytes; ti_id : nat; ti_unlock_time : Z; ti_block_id : Z }.

(** The tables; [d_outputs] are the outputs with amount zero. *)
Record database := Db {
  d_blocks : list db_block;
  d_tx_indices : list txindex;
  d_txs : list db_tx;
  d_tx_outputs : gmap nat (list Z);
  d_outputs : list output_data_t;
  d_output_txs : list (bytes * Z);
  d_spent : list bytes;
  bad_outpks : list bytes
}.

Definition height (db : database) : Z := Z.of_nat (length (d_blocks db)).

Definition with_blocks (db : database) (l : list db_block) : database :=
  Db l (d_tx_indices db) (d_txs db) (d_tx_outputs db) (d_outputs db) (d_output_txs db) (d_spent db) (bad_outpks db).
Definition with_indices (db : database) (l : list txindex) : database :=
  Db (d_blocks db) l (d_txs db) (d_tx_outputs db) (d_outputs db) (d_output_txs db) (d_spent db) (bad_outpks db).
Definition with_txs (db : database) (l : list db_tx) : database :=
  Db (d_blocks db) (d_tx_indices db) l (d_tx_outputs db) (d_outputs db) (d_output_txs db) (d_spent db) (bad_outpks db).
Definition with_tx_outputs (db : database) (m : gmap nat (list Z)) : database :=
  Db (d_blocks db) (d_tx_indices db) (d_txs db) m (d_outputs db) (d_output_txs db) (d_spent db) (bad_outpks db).
Definition with_outputs (db : database) (l : list output_data_t) (m : list (bytes * Z)) : database :=
  Db (d_blocks db) (d_tx_indices db) (d_txs db) (d_tx_outputs db) l m (d_spent db) (bad_outpks db).
Definition with_spent (db : database) (l : list bytes) : database :=
  Db (d_blocks db) (d_tx_indices db) (d_txs db) (d_tx_outputs db) (d_outputs db) (d_output_txs db) l (bad_outpks db).
Definition with_bad (db : database) (l : list bytes) : database :=
  Db (d_blocks db) (d_tx_indices db) (d_txs db) (d_tx_outputs db) (d_outputs db) (d_output_txs db) (d_spent db) l.

(** rct_signatures.outPk. *)
Definition outPk_of (tx : db_tx) : list ctkey := match t_rct tx with Some rv => r_outPk rv | None => [] end.

(** ** Exceptions

    A function changes the database and may throw; what it wrote before stays
    written until the transaction of the database is aborted.  [None] is undefined
    behaviour. *)
Inductive db_exception :=
  KEY_IMAGE_EXISTS | TX_EXISTS | TX_DNE | BLOCK_EXISTS | BLOCK_PARENT_DNE | BLOCK_DNE | OUTPUT_DNE | DB_ERROR | other_exception.

Definition dbm (A : Type) : Type := database -> option ((db_exception + A) * database).

Definition dret {A} (a : A) : dbm A := fun db => Some (inr a, db).
Definition raise {A} (e : db_exception) : dbm A := fun db => Some (inl e, db).
Definition dbind {A B} (m : dbm A) (k : A -> dbm B) : dbm B := fun db =>
  match m db with
  | Some (inr a, db) => k a db
  | Some (inl e, db) => Some (inl e, db)
  | None => None
  end.
Definition dget {A} (f : database -> A) : dbm A := fun db => Some (inr (f db), db).
Definition dset (f : database -> database) : dbm Datatypes.unit := fun db => Some (inr tt, f db).
Definition dlift {A} (m : result A) : dbm A := fun db =>
  match m with
  | Some (inr a) => Some (inr a, db)
  | Some (inl _) => Some (inl other_exception, db)
  | None => None
  end.

Declare Scope db_scope.
Notation "'let+' x := e 'in' k" := (dbind e (fun x => k))
  (at level 10, x pattern, e at level 100, k at level 200) : db_scope.
Open Scope db_scope.

(** ** Fixed tables *)

Definition hex_digit (c : Ascii.ascii) : Z :=
  let n := Z.of_nat (Ascii.nat_of_ascii c) in if n <? 58 then n - 48 else n - 87.

(** epee::string_tools::hex_to_pod on lower case digits. *)
Fixpoint hex_to_pod (s : string) : bytes :=
  match s with
  | String a (String b s) => (16 * hex_digit a + hex_digit b) :: hex_to_pod s
  | _ => []
  end.

Definition bad_outs : list string := [
  "cbf2af2d517fce9d4d4a34907541c21ce70ea5cfea5bad887022f790c39c93f1";
  "0a01eaba1c3e73dfe5fc0f70ed9241d06852aadeb5c7905c3fe08731774f5f56";
  "ba37354aaab679aaf670f76cc225605751a44dab88830016464eb530b4d3be7d";
  "be7f7851bac9212b655eef88cd791fb6115165ea4b85f9300b2c32a6a428f86b";
  "d0fe21f7e295bc7ee19edc89fd62d56b280f29b0829be23c57e8f15b9587581f";
  "5f2d93718ae1d9993e4ab1d889eba20fe7ab4b14cf958f32d5245ac4204721a0";
  "332bca16211fd4461c4af01b5013174af57ddcf2a1fbe39fbfbf79f9b3802e39";
  "86824ee174575df356ff698f42bb140b07474abb752b7b327403436e0e172836";
  "486cb4f14d10523ed611e10a627a8a8d2197d07a35d21c915121405b76accdac";
  "debd70f178993b4944a235825805b088e3bd1de9bb37e2f0b01266fb66afcc9c";
  "04ebbfbc0d6b148e2967ba9cb0a03c550a385a9a91bff851174ae81a4dd0f56a";
  "7d442156e1f969efdf1047e9be6d4d010120143423e290b2be78cb7a4e4ef764";
  "10d8db43c785c6d42487d34ea2d80669bda52f8641dca04fbd16a89b76cbe200";
  "43954b27e53ae99c8d95c791191222a56b4198fb8869c14d0d4771d8ec84cd09";
  "56865019a362fac052e577bdf7aa6ef30ee24f818e7df87795a35ecd9bd4a61f";
  "5a4a755e42f2ce62b386f01c271c898cb101b5a0695c6aaba348f353e992609a";
  "25ff98493e4c6727c8cc493e3e51038c86b3e8958980b3f78812b8beb89d1786";
  "c69fc6cfe4f47045f118ba6155483252ad9bde2479f06067098d599f6174a183";
  "84cead1b24a45c883273129c5f9bcc5a76356f43ac810e5f4865519041083709";
  "d4d44e4c26f48571b58ec88504dcd7085ad229b3e398113a87b10002b6dfb958";
  "4dd12c5f366b89793241ee60650eaae27696a78a9db9f3b035ad3ca1f3b6aff3";
  "9ef2853efde2a2ccea3008022942a038485aa0f73c02796d733400bec6f8f5b8";
  "e1fddbb7719350109d7a4bc12d69aad4eba0aaf76c60ffabaef09aa6aed812dd";
  "085362d5dee8d582dbff35ed112d44bedcfe593ac077a50418fe976d47f804c9";
  "be5d563670f1abcb34725cb785cb74c8ce5bb731a42ba6a463d12dc60ec0e857";
  "acbf8571f64ac0a2ebfdeee143380178a47a65ca53da4e9cbdcc15ee669e3626";
  "4d341a37b72e8fdcf858b396e72922d3008cc6928bfcbb6ad46e58f21e5dbc45";
  "07ad7890342a4606ed173d77fa325601588f3e2a162186ce0863d79476775d10";
  "f6559054cffd7bf41e2c877bec2c291e1f506930664918b17d9031fbb0630b3a";
  "d591a395a3e064c061f3274cd13f1be69e4326cf8e981afc33a22da3926e47aa";
  "0c172a87e222101653b98791e144ed3e7743a449d41c7b806fbd2599df2be542";
  "d07c8564d4f20ac3cd84fb0d491b3be7600bd8a6b16e114d0fd32229bc3b134c";
  "7f60e247722794a2ee6b81fe74dcadd181f261271d83c7b6450b857d30628d93";
  "e908cb2b95b1d5b5c1c8806e5d367505e0edd08af9e46a3acd27e65de7ec1791";
  "f805eed90bbac948ebfed07936dd1adcd9aad2a89219190e0c581f1d2a17ac8b";
  "1bb0f4fc322f73195715fd3eb76c2ccec89b4552205b9d3073c75aaa9585a910";
  "2c71bc8265ccddf7052eca3d9c7285b645335268f79f0ece024252af79b6c370";
  "b0274f72ae29152cf14d6399db9ab5fb44804299faf864ca41de5c64adc6ba97";
  "7e5fe82fde054ccfa20e8b55e52257dbd1037f6e88003161b4a06641e0172ccd";
  "b07e101bda7498e182c077b59c6729744b9e5c786f3913e0d8822dac0067b823";
  "a06905dc4f8077170e92a40cdbf86aba151fc1dde13bddc06a0c05238df83875";
  "d1d8932a5424456ce46bd955e96dfa974943a82a9b942c573f92e1244bf7e0e2";
  "f5dd07996f178649de9a66a41b4100e1bd980aecf57fb5d5be6d6e5b206490e0";
  "dc3da93e180e7782cd173dfaf43f238853c71aa18947803016f7ba807a78fcd2";
  "c8c020fdc86bb67c9cc5a0f6ecd71b4ade82b8d447054531cb3b9aa779dce80f";
  "349cf03b67fbf7c0a85983e63be84d2fe522eff37b17d5af1efbdea2d1eb49e2";
  "2b434653c5de9272df701ef9d31753b24d38ffeee90ed4e6e367ba155b64bc2e";
  "3523991dceab0fba97944ecba677df7ee79296ae6313cb91172892a0e069046c";
  "034949e1add41d960b157b869680f21fb95fff185e52bf1d51c18ee99c4079d9";
  "8a3302b807c5e795326c6ebf66207bc6611239deab623ea77f31a43204530067";
  "4daf2699a1fe3cab54be13f9433d91535545b673c0a65e5553f12b7d59362b23";
  "5c660d08f0c99abce7b5527c06cc952da5c656528ffe228eccbb37496618af4f";
  "b0252f83be099a6ca01ae8c9ad44a311809607ef2f0409b7f9eee53b79dde1e1";
  "b768109a884de5b3f77a612294890b9a7829512fc9ee03f8588467a0b5758799";
  "100b4af79642718f3e9616b7750b0aa75ddb8ee1364738247fca6269515c049b";
  "98f6ef660bba7219ec0ace316cf5160d82367f19a79d5268aee1593d47916ecd";
  "21066d11dea909852386a35406f22723aa1278a6c6b92d23a7f91ec1dee8e6cf";
  "d6ec7585d01481632282f0e760b4fe70ddcf404eff014f7c0291858adb2c27b2";
  "60e88705bc3e321ac23bf43e075a959bc901d3c5f1d7eb670324e99a016859e2";
  "64c171d999b5ff54f38147c7a2d89ee766f3846d7d1fcec80448e3c26b19e600";
  "5dc39951f578a5abf5e2426c1702a688c4fdebea778d2d50c5f0a289284bf8d7";
  "6a9c6f90f638bd7b8ebf03f132a066e0a13f00aba00ac816eb74495f35b429e9";
  "a93f4b5d953e41c734792e1bcd07fec23ecb7aa811ca3f1cbd929361129bd2ab";
  "1d3ba142f5d0473c245e2a38b925f1bbfbc727d2092987489d1ecc305a0ec8d2";
  "f6bcf52f4c8343f233ab60f4ab052f5ca3d02ae3dfc42280c658f8bf88948f7b";
  "e6c15a9cdede6c834cb2beb749ec73ba4a70f1d7c80ff76b123302b2995aa0a5";
  "709ca76c5ca373c6d26c2439a8b455e9760d45a20ae8d28885af56208eef4dfe";
  "767131138ecf4a21c4559d47dc12dd8436654a623bce04441cbc86ef482e9006";
  "2403e8412ac0aa5ac373f1eeea3e91d6786570dfee50ff575e25a0d2361094b1";
  "f538740bbc0f9f747ccbb98f7a33c01def8d575c31dcd21ac989a69c30320a81";
  "c00a283b0f8a39fb4f13c1813e6a23f57c813c966c2506c2666e51e18f6c1c80";
  "9bb310e9851a1d5812f61bacc1f950543a6b0f315014b92af62b4bdaf88d2f02";
  "5c547633ffde4aac9f01e2f5755ea5c1825389e05bfe0f04e9c623dd868d0b15";
  "9f413087b24254113c15bfe42c11e54bec9b99dd005daef38bd94945ca090fe2";
  "a4f8b2b98d64b8260b34235827dc062eb7c3b12470b035a543b22474d512fa44";
  "5c4dce7971f2c870634dcf2a33737e9170ecccebc86fd8b606e47510dd331dff";
  "56f0b9070c57597aac761b731e3be1b11cca436a28d82720c5ad0e2fb31d10be";
  "5fdbe5b41bbb16d3c389e2623d6a059af309d2cb459675b545539fcdc1d9ad4f";
  "188095c0f40109d7c5be8fe26a334e8e9a2eb705632e9c80e7a236305123d1c1";
  "f4fec3f638538ab804cbe804b772e2488812f45dc1297d590b3c74df89b90df2";
  "a1ca4d514060ddd2eb653f4d713989779830bbdaa2c09bfcfd64f6db7f313838";
  "c192f61aa58d4afec1d3df3333400d013172a0fb5e7fcc5b24a72c2dec6a17c2";
  "61dadd48f85f3f257a73e265a5f4254fcfbcc381e0dd116a59fa4008f233e89f";
  "1ca1fc6e1b7d4bcd6491144f92d2e26b1e1c8e261bd2083e87097601042249fb";
  "09febbf13dc54262238390e78cd7bee7b87f3c5618b226e31f5bd1fc11582604";
  "ab79483ec89bb9510e47cff0ec06a86a0dd644eca17e677216d342f87d6d273e";
  "92184d7066234393f9e9b399d8f862502ac566aa0492e69236d6229939e6caa1";
  "7d1b294447301f680d5ec098367f6a00f621cb92b0e43d164ddd61acc945ded0";
  "348d133e930d7437db29cc1405ed4bc405b000dd3be04e2f272bbca687149939";
  "0004f6862cbc378cac77d545119fbbc7dd01c2262fb2d910fb121f0a8bfa7ade";
  "8adfea203a6a6dc156fbeec3ea2bf318d12d13f8a828b22e5c108415c19ed816";
  "f5dca52e48f99ef579dc2bd26e1251c444460c9d1ee0307a6d8979de7aefe787";
  "0e677ed6e6f50c9df26079815d64618a10780386ffd810f8c130673f84a9ac84";
  "ded76dd770425208e9de1d53bc7f5dd5c81e03c17da976344081ad4a28eae35e";
  "6b9c14ae5579dd42da258b0dd91b9e35c9d77e9705e489466c7b5b02756ea39a";
  "754a7934bdc59b58230caf725439075cc35f4347978b5ff7700e53533dcbdc65";
  "09091bd0e2400c771ab0531face28092707eb963e8a4b59c3a7cfbe15a885b46";
  "6497d71db7fd3d6a584501fefdae57f062f61217b955b44b417a1821c4bb9d83";
  "22e3f1d73312e97082d78f84d00192df3ab757f46a6e3010f9d95a44af5cd05b";
  "aa479a5b23d2957af65ec90de2fd68aa5cfd6ed926fd80c5e5b8f7779ccbd81b";
  "94f2888b7a6e58fe9afd0790fcf9ae5538441ef6c8701a8950bbd32184005d4f";
  "ca53d473691d485539144d6ac188ca7c8e0ff8ae41ad953426d21afd4bf50cbf";
  "af83c3b56b9ddb8b7001d935f706b31a823a8f41b32e1cbc4a461d7b7d705ccb";
  "7b29623c86a507eaec6be2aab037079216b0621e2f02c9f6292c2724e12be204";
  "f6d689bd9b415f9cf0e9d3297dc7d1c5bf9c583a642b0a1fcaad41c28b0480ba";
  "d4f6894e514b1900fd677aa9c769e47d878107d1876877c13ce0fe0bbaa3bc1c";
  "e1fdb26fa136364631c957d7df86cb66dbbbfd4066ebff7ae2a64b247290d74d";
  "fdb21d778cf92ac19a0bf20134777d521ad5f9acf0273f7451f917005d63ec33";
  "e7b9f891b6331fb2f7c9b9337978fc34fd22099a440dd5d38bb1be7a5d6159d1";
  "0da0a1c08cdee5086e28544f520e78a2361de00b6de241ebc4cb30dfa13fa36a";
  "6fb42d7bc2b81bd86e7b46575f1acf9233c613748404f14f627f60fe104641b8";
  "d8caeaedd9ea28fec32199439b8141a8b5739074c08f3c386e72ddced31e0f46";
  "4c6d6443209f95d05823375799010c7c483ecb128424740214571aeb78251fc7";
  "56c9ff6d0cdfe7dd351d4692ab5ea44c223cba08ecf81dcd1f437398d82f8a09";
  "99c2e9b06e5e6dfb31d4235ba4b6a9bc0c48d8c14119b64265c1bfa67877acce"
]%string.

Definition premine_key_images : list string := [
  "a42fa875b187e7f9e8d25ad158187458cdcce0db9582b5ccd02e9a5d99a79239";
  "89018dae2d6283edecf4df800bfdc56f1768fef450034dc9868388ac83cd045b";
  "7caa8fe70872c26069bf1375c24c610702607568f5bc767d58ce027a8aa5ce93";
  "d06f99b903d2633a44bd660fb3482172d4c699dba4b152f2232f25cc4b89fc40";
  "2b241e39ee08d1f4292083fd7cfb0021f285a511933a1eaae3172dbf43fcf60d";
  "5f14a472fe32f1c9da214133f58da9df2926b815945effdbf6fadd00d171a51a"
]%string.

Section operations.
Context `{HF : !FastHash}.

(** ** Key images *)

Definition has_key_image (db : database) (k : bytes) : bool := bool_decide (k ∈ d_spent db).

Definition add_spent_key (k : bytes) : dbm Datatypes.unit :=
  let+ found := dget (fun db => has_key_image db k) in
  if found then raise KEY_IMAGE_EXISTS else dset (fun db => with_spent db (d_spent db ++ [k])).

Definition remove_spent_key (k : bytes) : dbm Datatypes.unit :=
  dset (fun db => with_spent db (filter (fun x => x <> k) (d_spent db))).

Fixpoint remove_images (ins : list Transaction.txin_v) : dbm Datatypes.unit :=
  match ins with
  | [] => dret tt
  | Transaction.txin_to_key _ _ k :: ins => let+ _ := remove_spent_key k in remove_images ins
  | _ :: ins => remove_images ins
  end.

Fixpoint fixup_images (l : list bytes) : dbm Datatypes.unit :=
  match l with
  | [] => dret tt
  | k :: l =>
      let+ found := dget (fun db => has_key_image db k) in
      let+ _ := (if found then dret tt else add_spent_key k) in
      fixup_images l
  end.

Definition fixup (is_read_only : bool) : dbm Datatypes.unit :=
  let+ _ := dset (fun db => with_bad db (map hex_to_pod bad_outs)) in
  if is_read_only then dret tt else fixup_images (map hex_to_pod premine_key_images).

(** ** Outputs *)

Definition is_vout_bad (db : database) (vout : Transaction.tx_out) : bool :=
  match Transaction.target vout with
  | Transaction.txout_to_key key => bool_decide (key ∈ bad_outpks db)
  | _ => false
  end.

(** The index of the output among those with amount zero. *)
Definition add_output (tx_hash : bytes) (tx_output : Transaction.tx_out) (local_index unlock_time : Z) (commitment : bytes)
    : dbm Z :=
  if negb (Transaction.amount tx_output =? 0) then raise DB_ERROR
  else match Transaction.target tx_output with
       | Transaction.txout_to_key key =>
           let+ n := dget (fun db => Z.of_nat (length (d_outputs db))) in
           let+ m_height := dget height in
           let+ _ := dset (fun db => with_outputs db
                             (d_outputs db ++ [Output_data key unlock_time m_height commitment])
                             (d_output_txs db ++ [(tx_hash, local_index)])) in
           dret n
       | _ => raise DB_ERROR
       end.

(** The end of the two tables; [None] for an index that is not the last. *)
Definition remove_output (amount out_index : Z) : dbm Datatypes.unit :=
  if negb (amount =? 0) then raise OUTPUT_DNE
  else fun db =>
    let n := Z.of_nat (length (d_outputs db)) in
    if n <=? out_index then Some (inl OUTPUT_DNE, db)
    else if out_index =? n - 1
    then Some (inr tt, with_outputs db (take (length (d_outputs db) - 1) (d_outputs db))
                                       (take (length (d_output_txs db) - 1) (d_output_txs db)))
    else None.

(** ** Transactions *)

Definition find_tx (db : database) (h : bytes) : option txindex :=
  snd <$> list_find (fun t => ti_hash t = h) (d_tx_indices db).

Definition tx_exists (db : database) (h : bytes) : bool := match find_tx db h with Some _ => true | None => false end.

(** The number of the transaction. *)
Definition add_transaction_data (tx : db_tx) (tx_hash : bytes) : dbm nat :=
  let+ m_height := dget height in
  let+ tx_id := dget (fun db => length (d_txs db)) in
  let+ found := dget (fun db => tx_exists db tx_hash) in
  if found then raise TX_EXISTS
  else
    let+ _ := dset (fun db => with_indices db
                      (d_tx_indices db ++ [Txindex tx_hash tx_id (Transaction.unlock_time (t_prefix tx)) m_height])) in
    let+ _ := dset (fun db => with_txs db (d_txs db ++ [tx])) in
    dret tx_id.

Definition add_tx_amount_output_indices (tx_id : nat) (indices : list Z) : dbm Datatypes.unit :=
  dset (fun db => with_tx_outputs db (<[tx_id := indices]> (d_tx_outputs db))).

(** Whether the transaction is one of a miner; [None] for an input of another kind. *)
Fixpoint add_inputs (ins : list Transaction.txin_v) (miner_tx : bool) : dbm (option bool) :=
  match ins with
  | [] => dret (Some miner_tx)
  | Transaction.txin_to_key _ _ k :: ins => let+ _ := add_spent_key k in add_inputs ins miner_tx
  | Transaction.txin_gen _ :: ins => add_inputs ins true
  | _ :: _ => dret None
  end.

(** The indices of the outputs from number [i] on; [None] for an amount in the clear. *)
Fixpoint add_outputs (tx_hash : bytes) (tx : db_tx) (miner_tx : bool) (i : Z) (outs : list Transaction.tx_out)
    : dbm (option (list Z)) :=
  match outs with
  | [] => dret (Some [])
  | vout :: outs =>
      if miner_tx then
        let+ commitment := dlift (zeroCommit (Transaction.amount vout)) in
        let+ bad := dget (fun db => is_vout_bad db vout) in
        if bad then add_outputs tx_hash tx miner_tx (i + 1) outs
        else
          let+ n := add_output tx_hash {| Transaction.amount := 0; Transaction.target := Transaction.target vout |} i
                      (Transaction.unlock_time (t_prefix tx)) commitment in
          let+ l := add_outputs tx_hash tx miner_tx (i + 1) outs in
          dret (cons n <$> l)
      else if negb (Transaction.amount vout =? 0) then dret None
      else
        let+ pk := dlift (lift (outPk_of tx !! Z.to_nat i)) in
        let+ n := add_output tx_hash vout i (Transaction.unlock_time (t_prefix tx)) (mask pk) in
        let+ l := add_outputs tx_hash tx miner_tx (i + 1) outs in
        dret (cons n <$> l)
  end.

Definition add_transaction (tx : db_tx) (tx_hash : bytes) : dbm Datatypes.unit :=
  let+ r := add_inputs (Transaction.vin (t_prefix tx)) false in
  match r with
  | None => remove_images (Transaction.vin (t_prefix tx))
  | Some miner_tx =>
      let+ tx_id := add_transaction_data tx tx_hash in
      let+ l := add_outputs tx_hash tx miner_tx 0 (Transaction.vout (t_prefix tx)) in
      match l with
      | None => remove_images (Transaction.vin (t_prefix tx))
      | Some indices => add_tx_amount_output_indices tx_id indices
      end
  end.

(** [indices] are those of the outputs left to remove, the last first. *)
Fixpoint remove_outputs (amounts indices : list Z) : dbm Datatypes.unit :=
  match amounts with
  | [] => dret tt
  | amount :: amounts =>
      match indices with
      | out_index :: indices => let+ _ := remove_output amount out_index in remove_outputs amounts indices
      | [] => fun _ => None
      end
  end.

Definition is_pseudo_rct (p : Transaction.transaction_prefix) : bool :=
  (2 <=? Transaction.version p) && match Transaction.vin p with [Transaction.txin_gen _] => true | _ => false end.

(** amount_output_indices[i] for i from the last output down: reading past the
    end is undefined, and so is reading the entry of a transaction without one. *)
Definition remove_tx_outputs (tx_id : nat) (p : Transaction.transaction_prefix) : dbm Datatypes.unit :=
  let+ indices := (fun db => match d_tx_outputs db !! tx_id with Some l => Some (inr l, db) | None => None end) in
  match indices, Transaction.vout p with
  | [], _ :: _ => raise DB_ERROR
  | _, outs =>
      if (length indices <? length outs)%nat then fun _ => None
      else
        let amounts := map (fun o => if is_pseudo_rct p then 0 else Transaction.amount o) outs in
        remove_outputs (rev amounts) (rev (take (length outs) indices))
  end.

(** The entry of the table of transactions is the last one. *)
Definition remove_transaction_data (tx_hash : bytes) (tx : db_tx) : dbm Datatypes.unit :=
  let+ tip := dget (fun db => find_tx db tx_hash) in
  match tip with
  | None => raise TX_DNE
  | Some tip =>
      let+ _ := (fun db => if (ti_id tip =? length (d_txs db) - 1)%nat
                           then Some (inr tt, with_txs db (take (length (d_txs db) - 1) (d_txs db))) else None) in
      let+ _ := remove_tx_outputs (ti_id tip) (t_prefix tx) in
      let+ _ := dset (fun db => with_tx_outputs db (delete (ti_id tip) (d_tx_outputs db))) in
      dset (fun db => with_indices db (filter (fun t => ti_hash t <> tx_hash) (d_tx_indices db)))
  end.

Definition get_tx (h : bytes) : dbm db_tx :=
  let+ t := dget (fun db => tip ← find_tx db h; d_txs db !! ti_id tip) in
  match t with Some tx => dret tx | None => raise TX_DNE end.

Definition remove_transaction (tx_hash : bytes) : dbm Datatypes.unit :=
  let+ tx := get_tx tx_hash in
  let+ _ := remove_images (Transaction.vin (t_prefix tx)) in
  remove_transaction_data tx_hash tx.

(** ** Blocks *)

Definition get_block_hash (b : Transaction.block) : bytes := default TxHash.null_hash (TxHash.calculate_block_hash b).
Definition get_transaction_hash (t : Transaction.transaction) : bytes :=
  default TxHash.null_hash (TxHash.calculate_transaction_hash t).

Definition block_height (db : database) (h : bytes) : option Z :=
  (fun r => Z.of_nat (fst r)) <$> list_find (fun b => bi_hash b = h) (d_blocks db).

Definition block_exists (db : database) (h : bytes) : bool := match block_height db h with Some _ => true | None => false end.

Definition top_block_hash (db : database) : bytes :=
  match last (d_blocks db) with Some b => bi_hash b | None => TxHash.null_hash end.

(** BlockchainLMDB::add_block with the hash of the block. *)
Definition add_block_info (blk : Transaction.block) (block_size cumulative_difficulty coins_generated : Z) (blk_hash : bytes)
    : dbm Datatypes.unit :=
  let+ m_height := dget height in
  let+ found := dget (fun db => block_exists db blk_hash) in
  if found then raise BLOCK_EXISTS
  else
    let+ parent := dget (fun db => block_height db (Transaction.prev_id (Transaction.header blk))) in
    let+ _ := (if 0 <? m_height then
                 match parent with
                 | None => raise DB_ERROR
                 | Some h => if h =? m_height - 1 then dret tt else raise BLOCK_PARENT_DNE
                 end
               else dret tt) in
    dset (fun db => with_blocks db
            (d_blocks db ++ [Dbblock blk block_size cumulative_difficulty coins_generated blk_hash])).

Fixpoint add_transactions (txs : list (bytes * built)) : dbm Datatypes.unit :=
  match txs with
  | [] => dret tt
  | (h, tx) :: txs => let+ _ := add_transaction (Dbtx (b_prefix tx) (Some (b_rct tx))) h in add_transactions txs
  end.

(** BlockchainDB::add_block up to the hard fork: the height before. *)
Definition write_block (blk : Transaction.block) (block_size cumulative_difficulty coins_generated : Z) (txs : list built) : dbm Z :=
  if negb (Nat.eqb (length (Transaction.tx_hashes blk)) (length txs)) then raise other_exception
  else
    let blk_hash := get_block_hash blk in
    let+ prev_height := dget height in
    let+ _ := add_transaction (Dbtx (Transaction.prefix (Transaction.miner_tx blk)) None)
                (get_transaction_hash (Transaction.miner_tx blk)) in
    let+ _ := add_transactions (zip (Transaction.tx_hashes blk) txs) in
    let+ _ := add_block_info blk block_size cumulative_difficulty coins_generated blk_hash in
    dret prev_height.

(** The fields of a block the hard fork sees, and the chain it sees them in. *)
Definition fork_block (b : Transaction.block) : HardFork.block :=
  {| HardFork.major_version := Transaction.major_version (Transaction.header b);
     HardFork.minor_version := Transaction.minor_version (Transaction.header b) |}.

Definition fork_db (db : database) (hf : HardFork.hard_fork) : HardFork.hard_fork :=
  HardFork.with_db hf {| HardFork.blocks := map (fun b => fork_block (b_block b)) (d_blocks db);
                         HardFork.hard_fork_versions := HardFork.hard_fork_versions (HardFork.db hf) |}.

(** What an exception leaves: block_txn_abort throws the written away, unless a
    batch is active. *)
Definition aborted (m_batch_active : bool) (before now : database) : database := if m_batch_active then now else before.

(** The new height. *)
Definition add_block (m_batch_active : bool) (blk : Transaction.block) (block_size cumulative_difficulty coins_generated : Z)
    (txs : list built) (db : database) (hf : HardFork.hard_fork)
    : option ((db_exception + Z) * database * HardFork.hard_fork) :=
  match write_block blk block_size cumulative_difficulty coins_generated txs db with
  | Some (inr prev_height, db') =>
      r ← HardFork.add (fork_db db' hf) (fork_block blk) prev_height;
      Some (inr (prev_height + 1), db', snd r)
  | Some (inl e, db') => Some (inl e, aborted m_batch_active db db', hf)
  | None => None
  end.

Definition remove_block : dbm Datatypes.unit :=
  let+ m_height := dget height in
  if m_height =? 0 then raise BLOCK_DNE
  else dset (fun db => with_blocks db (take (length (d_blocks db) - 1) (d_blocks db))).

Definition null_rct : rctSig := Rct Transaction.RCTTypeNull null_key [] [] [] [] 0 [] [] [] [].

Fixpoint remove_transactions (hashes : list bytes) : dbm (list built) :=
  match hashes with
  | [] => dret []
  | h :: hashes =>
      let+ tx := get_tx h in
      let+ _ := remove_transaction h in
      let+ txs := remove_transactions hashes in
      dret (Built (t_prefix tx) (default null_rct (t_rct tx)) :: txs)
  end.

(** The block and its transactions, the last first. *)
Definition erase_block : dbm (Transaction.block * list built) :=
  let+ top := dget (fun db => last (d_blocks db)) in
  let+ _ := remove_block in
  match top with
  | None => raise BLOCK_DNE
  | Some b =>
      let blk := b_block b in
      let+ txs := remove_transactions (rev (Transaction.tx_hashes blk)) in
      let+ _ := remove_transaction (get_transaction_hash (Transaction.miner_tx blk)) in
      dret (blk, txs)
  end.

Definition pop_block (m_batch_active : bool) (db : database) : option ((db_exception + (Transaction.block * list built)) * database) :=
  match erase_block db with
  | Some (inl e, db') => Some (inl e, aborted m_batch_active db db')
  | r => r
  end.

(** ** One computation *)

Lemma dbind_inv {A B} (m : dbm A) (k : A -> dbm B) db b db' :
  dbind m k db = Some (inr b, db') -> exists a db1, m db = Some (inr a, db1) /\ k a db1 = Some (inr b, db').
Proof. unfold dbind. destruct (m db) as [[[e|a] db1]|]; [discriminate| |discriminate]. intros E. by exists a, db1. Qed.


(** A computation that keeps a property of the database, also when it throws. *)
Definition keeps {A} (I : database -> Prop) (m : dbm A) : Prop :=
  forall db r db', I db -> m db = Some (r, db') -> I db'.

Lemma keeps_bind {A B} I (m : dbm A) (k : A -> dbm B) : keeps I m -> (forall a, keeps I (k a)) -> keeps I (dbind m k).
Proof.
  intros Hm Hk db r db' H. unfold dbind. destruct (m db) as [[[e|a] db1]|] eqn:E; [|intros E'|discriminate].
  - intros [= <- <-]. by eapply Hm.
  - eapply Hk; [|exact E']. by eapply Hm.
Qed.

Lemma keeps_ret {A} I (a : A) : keeps I (dret a).
Proof. by intros db r db' H [= <- <-]. Qed.
Lemma keeps_raise {A} I e : keeps I (raise (A := A) e).
Proof. by intros db r db' H [= <- <-]. Qed.
Lemma keeps_get {A} I (f : database -> A) : keeps I (dget f).
Proof. by intros db r db' H [= <- <-]. Qed.
Lemma keeps_lift {A} I (m : result A) : keeps I (dlift m).
Proof. intros db r db' H. unfold dlift. by destruct m as [[|]|]; intros [= <- <-]. Qed.
Lemma keeps_set I f : (forall db, I db -> I (f db)) -> keeps I (dset f).
Proof. intros Hf db r db' H [= <- <-]. by apply Hf. Qed.

Create HintDb keeps.
#[local] Hint Resolve keeps_bind keeps_ret keeps_raise keeps_get keeps_lift : keeps.

Lemma list_find_none {A} (P : A -> Prop) `{forall x, Decision (P x)} l x : list_find P l = None -> x ∈ l -> ~ P x.
Proof. intros E%list_find_None Hx. rewrite Forall_forall in E. by apply E. Qed.

(** ** The invariant *)

Record db_ok (db : database) : Prop := {
  ok_ids : forall i t, d_tx_indices db !! i = Some t -> ti_id t = i;
  ok_hashes : NoDup (map ti_hash (d_tx_indices db));
  ok_txs : length (d_txs db) = length (d_tx_indices db);
  ok_tx_outputs : forall i, (length (d_txs db) <= i)%nat -> d_tx_outputs db !! i = None;
  ok_outputs : length (d_output_txs db) = length (d_outputs db);
  ok_spent : NoDup (d_spent db);
  ok_blocks : NoDup (map bi_hash (d_blocks db));
  ok_block_hashes : Forall (fun b => bi_hash b = get_block_hash (b_block b)) (d_blocks db);
  ok_links : forall i b c, d_blocks db !! i = Some b -> d_blocks db !! S i = Some c ->
    Transaction.prev_id (Transaction.header (b_block c)) = bi_hash b
}.

Lemma add_spent_key_keeps k : keeps db_ok (add_spent_key k).
Proof.
  intros db r db' H. unfold add_spent_key, dbind, dget, has_key_image. case_bool_decide as N; cbn.
  - by intros [= <- <-].
  - intros [= <- <-]. destruct H. split; try done. cbn. apply NoDup_app. split; [done|]. split; [|apply NoDup_singleton].
    intros x Hx ->%list_elem_of_singleton. done.
Qed.

Lemma remove_spent_key_keeps k : keeps db_ok (remove_spent_key k).
Proof. apply keeps_set. intros db []. split; try done. by apply NoDup_filter. Qed.

Lemma remove_images_keeps ins : keeps db_ok (remove_images ins).
Proof. induction ins as [|[] ins IH]; cbn; eauto using remove_spent_key_keeps with keeps. Qed.

Lemma add_inputs_keeps ins b : keeps db_ok (add_inputs ins b).
Proof. revert b. induction ins as [|[] ins IH]; intros b; cbn; eauto using add_spent_key_keeps with keeps. Qed.

Lemma add_output_keeps h o i u c : keeps db_ok (add_output h o i u c).
Proof.
  unfold add_output. destruct (negb _); [apply keeps_raise|]. destruct (Transaction.target o); try apply keeps_raise.
  apply keeps_bind; [apply keeps_get|]. intros n. apply keeps_bind; [apply keeps_get|]. intros m.
  apply keeps_bind; [|auto with keeps]. apply keeps_set. intros db []. split; try done. cbn. rewrite !length_app. cbn. lia.
Qed.

Lemma add_outputs_keeps h tx miner i outs : keeps db_ok (add_outputs h tx miner i outs).
Proof.
  revert i. induction outs as [|o outs IH]; intros i; cbn [add_outputs]; [apply keeps_ret|]. destruct miner.
  - apply keeps_bind; [apply keeps_lift|]. intros c. apply keeps_bind; [apply keeps_get|]. intros []; [apply IH|].
    apply keeps_bind; [apply add_output_keeps|]. auto with keeps.
  - destruct (negb _); [apply keeps_ret|]. apply keeps_bind; [apply keeps_lift|]. intros pk.
    apply keeps_bind; [apply add_output_keeps|]. auto with keeps.
Qed.

Lemma find_tx_none db h : find_tx db h = None -> (h ∉ map ti_hash (d_tx_indices db)).
Proof.
  unfold find_tx. intros E%fmap_None. intros (t & -> & Ht)%list_elem_of_fmap. by eapply list_find_none in E.
Qed.

(** What a new transaction adds. *)
Definition new_tx (db : database) (tx : db_tx) (h : bytes) : database :=
  with_txs (with_indices db (d_tx_indices db ++
    [Txindex h (length (d_txs db)) (Transaction.unlock_time (t_prefix tx)) (height db)])) (d_txs db ++ [tx]).

Lemma add_transaction_data_inv tx h db r db' :
  add_transaction_data tx h db = Some (r, db') ->
  (r = inl TX_EXISTS /\ db' = db) \/ (find_tx db h = None /\ r = inr (length (d_txs db)) /\ db' = new_tx db tx h).
Proof.
  unfold add_transaction_data, dbind, dget, tx_exists. destruct (find_tx db h) eqn:E; cbn.
  - intros [= <- <-]. by left.
  - intros [= <- <-]. by right.
Qed.

Lemma new_tx_ok db tx h : db_ok db -> find_tx db h = None -> db_ok (new_tx db tx h).
Proof.
  intros [] N%find_tx_none. split; try done; cbn.
  - intros i t [[_ E]|[-> <-]]%lookup_snoc_Some; [auto|]. cbn. lia.
  - rewrite map_app. apply NoDup_app. split; [done|]. split; [|apply NoDup_singleton].
    intros x Hx ->%list_elem_of_singleton. done.
  - rewrite !length_app. cbn. lia.
  - intros i. rewrite length_app. cbn. intros Hi. apply ok_tx_outputs0. lia.
Qed.

Lemma add_transaction_data_keeps tx h : keeps db_ok (add_transaction_data tx h).
Proof.
  intros db r db' H E. apply add_transaction_data_inv in E as [[_ ->]|(N & _ & ->)]; [done|]. by apply new_tx_ok.
Qed.

(** An entry of tx_outputs belongs to a transaction of the table. *)
Lemma add_indices_ok db id l : db_ok db -> (id < length (d_txs db))%nat -> db_ok (with_tx_outputs db (<[id := l]> (d_tx_outputs db))).
Proof. intros [] Hi. split; try done. cbn. intros i Hl. rewrite lookup_insert_ne by lia. auto. Qed.

(** The number of transactions while their outputs are added. *)
Lemma add_outputs_txs h tx miner i outs n : keeps (fun db => length (d_txs db) = n) (add_outputs h tx miner i outs).
Proof.
  revert i. induction outs as [|o outs IH]; intros i; cbn [add_outputs]; [apply keeps_ret|].
  assert (forall o c, keeps (fun db => length (d_txs db) = n) (add_output h o i (Transaction.unlock_time (t_prefix tx)) c)) as K.
  { intros o' c. unfold add_output. destruct (negb _); [apply keeps_raise|]. destruct (Transaction.target o'); try apply keeps_raise.
    apply keeps_bind; [apply keeps_get|]. intros ?. apply keeps_bind; [apply keeps_get|]. intros ?.
    apply keeps_bind; [by apply keeps_set|auto with keeps]. }
  destruct miner.
  - apply keeps_bind; [apply keeps_lift|]. intros c. apply keeps_bind; [apply keeps_get|]. intros []; [apply IH|].
    apply keeps_bind; [apply K|]. auto with keeps.
  - destruct (negb _); [apply keeps_ret|]. apply keeps_bind; [apply keeps_lift|]. intros pk.
    apply keeps_bind; [apply K|]. auto with keeps.
Qed.

Lemma add_transaction_keeps tx h : keeps db_ok (add_transaction tx h).
Proof.
  unfold add_transaction. apply keeps_bind; [apply add_inputs_keeps|]. intros [miner|]; [|apply remove_images_keeps].
  intros db r db' H. unfold dbind at 1. destruct (add_transaction_data tx h db) as [[s db1]|] eqn:E; [|discriminate].
  pose proof (add_transaction_data_keeps _ _ _ _ _ H E) as H1.
  apply add_transaction_data_inv in E as [[-> ->]|(N & -> & ->)]; [by intros [= <- <-]|].
  unfold dbind. destruct (add_outputs _ _ _ _ _ _) as [[[e|l] db2]|] eqn:E; [| |discriminate].
  - intros [= <- <-]. by eapply add_outputs_keeps.
  - pose proof (add_outputs_keeps _ _ _ _ _ _ _ _ H1 E) as H2.
    assert (length (d_txs db2) = S (length (d_txs db))) as L.
    { eapply add_outputs_txs; [|exact E]. cbn. rewrite length_app. cbn. lia. }
    destruct l as [l|]; [|by apply remove_images_keeps]. intros [= <- <-]. apply add_indices_ok; [done|lia].
Qed.

Lemma add_transactions_keeps txs : keeps db_ok (add_transactions txs).
Proof. induction txs as [|[h tx] txs IH]; cbn; [apply keeps_ret|]. apply keeps_bind; [apply add_transaction_keeps|done]. Qed.

Lemma block_height_lookup db h n : block_height db h = Some n -> exists b, d_blocks db !! Z.to_nat n = Some b /\ bi_hash b = h /\ 0 <= n.
Proof.
  unfold block_height. intros ([i b] & (E & P & _)%list_find_Some & ->)%fmap_Some. exists b. cbn. rewrite Nat2Z.id.
  split; [done|]. split; [done|lia].
Qed.

Lemma add_block_info_inv blk s d c h db db' :
  add_block_info blk s d c h db = Some (inr tt, db') ->
  block_height db h = None /\ db' = with_blocks db (d_blocks db ++ [Dbblock blk s d c h])
  /\ forall b, last (d_blocks db) = Some b -> Transaction.prev_id (Transaction.header blk) = bi_hash b.
Proof.
  unfold add_block_info. intros E. apply dbind_inv in E as (m & db1 & [= <- <-] & E). apply dbind_inv in E as (f & db1 & [= <- <-] & E).
  unfold block_exists in E. destruct (block_height db h) eqn:N; [discriminate|].
  apply dbind_inv in E as (p & db1 & [= <- <-] & E). apply dbind_inv in E as (u & db1 & E1 & E).
  assert (db1 = db) as ->. { repeat (case_match; try done); by injection E1 as _ <-. }
  split; [done|]. split; [by injection E as <-|]. intros b Hb. rewrite last_lookup in Hb.
  destruct (Z.ltb_spec 0 (height db)) as [_|Hn].
  - destruct (block_height db (Transaction.prev_id _)) as [n|] eqn:P; [|discriminate].
    destruct (Z.eqb_spec n (height db - 1)) as [->|]; [|discriminate].
    apply block_height_lookup in P as (b' & Hb' & <- & _). f_equal.
    replace (Z.to_nat (height db - 1)) with (Nat.pred (length (d_blocks db))) in Hb' by (unfold height; lia). congruence.
  - unfold height in Hn. destruct (d_blocks db); [done|cbn in Hn; lia].
Qed.

Lemma add_block_info_keeps blk s d c : keeps db_ok (add_block_info blk s d c (get_block_hash blk)).
Proof.
  intros db r db' H E. destruct r as [e|[]].
  - enough (db' = db) by congruence. revert E. unfold add_block_info, dbind, dget, raise, dret, dset.
    repeat (case_match; try done); intros E; by simplify_eq.
  - apply add_block_info_inv in E as (N & -> & L). destruct H. split; try done; cbn.
    + rewrite map_app. apply NoDup_app. split; [done|]. split; [|apply NoDup_singleton].
      intros x (b & -> & Hb)%list_elem_of_fmap E%list_elem_of_singleton. unfold block_height in N. apply fmap_None in N.
      by eapply list_find_none in N.
    + rewrite Forall_app. split; [done|]. by constructor.
    + intros i b b' Hb [[_ Hb']|[Hi <-]]%lookup_snoc_Some.
      * eapply ok_links0; [|done]. rewrite lookup_app_l in Hb; [done|]. apply lookup_lt_Some in Hb'. lia.
      * cbn. apply L. rewrite last_lookup. replace (Nat.pred (length (d_blocks db))) with i by lia.
        rewrite lookup_app_l in Hb; [done|lia].
Qed.

Lemma write_block_keeps blk s d c txs : keeps db_ok (write_block blk s d c txs).
Proof.
  unfold write_block. destruct (negb _); [apply keeps_raise|]. cbv zeta.
  apply keeps_bind; [apply keeps_get|]. intros h. apply keeps_bind; [apply add_transaction_keeps|]. intros _.
  apply keeps_bind; [apply add_transactions_keeps|]. intros _. apply keeps_bind; [apply add_block_info_keeps|]. auto with keeps.
Qed.

(** ** Taking back what was added *)

Definition images (ins : list Transaction.txin_v) : list bytes :=
  omap (fun i => match i with Transaction.txin_to_key _ _ k => Some k | _ => None end) ins.

Definition is_gen (i : Transaction.txin_v) : bool := match i with Transaction.txin_gen _ => true | _ => false end.
Definition spends_keys (p : Transaction.transaction_prefix) : Prop :=
  Forall (fun i => match i with Transaction.txin_to_key _ _ _ => True | _ => False end) (Transaction.vin p).


Lemma filter_all {A} (P : A -> Prop) `{forall x, Decision (P x)} (l : list A) : (forall x, x ∈ l -> P x) -> filter P l = l.
Proof.
  induction l as [|x l IH]; intros F; [done|]. rewrite filter_cons_True by (apply F, list_elem_of_here). f_equal.
  apply IH. intros y Hy. by apply F, list_elem_of_further.
Qed.

Lemma with_spent_same db : with_spent db (d_spent db) = db.
Proof. by destruct db. Qed.

Lemma add_inputs_inv ins miner db r db' :
  add_inputs ins miner db = Some (inr (Some r), db') ->
  db' = with_spent db (d_spent db ++ images ins) /\ r = miner || existsb is_gen ins.
Proof.
  revert miner db. induction ins as [|[h|? ? ?|? ? ? ?|a offs k] ins IH]; intros miner db E; cbn in E.
  - injection E as <- <-. cbn. rewrite app_nil_r. split; [by destruct db|by destruct miner].
  - apply IH in E as [-> ->]. cbn. split; [done|]. by destruct miner.
  - discriminate.
  - discriminate.
  - apply dbind_inv in E as (u & db1 & E1 & E). apply IH in E as [-> ->]. cbn. split; [|done].
    unfold add_spent_key in E1. apply dbind_inv in E1 as (f & db2 & [= <- <-] & E1). destruct (has_key_image db k); [discriminate|].
    injection E1 as _ <-. cbn. by rewrite <- app_assoc.
Qed.







Lemma add_inputs_supported ins miner db r db' :
  Forall (fun i => match i with Transaction.txin_to_key _ _ _ | Transaction.txin_gen _ => True | _ => False end) ins ->
  add_inputs ins miner db = Some (inr r, db') -> exists b, r = Some b.
Proof.
  intros F. revert miner db. induction F as [|[] ins Hi F IH]; intros miner db E; try done; cbn in E.
  - injection E as <- _. eauto.
  - by apply IH in E.
  - apply dbind_inv in E as (u & db1 & _ & E). by apply IH in E.
Qed.

Lemma add_outputs_hidden h tx (miner : bool) i outs db r db' :
  miner = true \/ Forall (fun o => Transaction.amount o = 0) outs ->
  add_outputs h tx miner i outs db = Some (inr r, db') -> exists l, r = Some l.
Proof.
  intros A. revert i db r db'. induction outs as [|x outs IH]; intros i db r db' E; cbn [add_outputs] in E.
  - injection E as <- _. eauto.
  - assert (miner = true \/ Forall (fun o => Transaction.amount o = 0) outs) as A'
      by (destruct A as [|A]; [by left|right]; by apply Forall_cons in A as [_ A]).
    destruct miner.
    + apply dbind_inv in E as (c & db1 & _ & E). apply dbind_inv in E as ([] & db2 & _ & E); [by apply IH in E|].
      apply dbind_inv in E as (n & db3 & _ & E). apply dbind_inv in E as (l & db4 & E1 & E). apply IH in E1 as [l' ->]; [|done].
      injection E as <- _. eauto.
    + destruct A as [|A]; [done|]. apply Forall_cons in A as [A _]. rewrite A in E. cbn [negb Z.eqb] in E.
      apply dbind_inv in E as (c & db1 & _ & E).
      apply dbind_inv in E as (n & db3 & _ & E). apply dbind_inv in E as (l & db4 & E1 & E). apply IH in E1 as [l' ->]; [|done].
      injection E as <- _. eauto.
Qed.













(** Adding transactions does not touch the blocks. *)
Lemma add_output_blocks l h o i u c : keeps (fun db => d_blocks db = l) (add_output h o i u c).
Proof.
  unfold add_output. destruct (negb _); [apply keeps_raise|]. destruct (Transaction.target o); try apply keeps_raise.
  apply keeps_bind; [apply keeps_get|]. intros ?. apply keeps_bind; [apply keeps_get|]. intros ?.
  apply keeps_bind; [by apply keeps_set|auto with keeps].
Qed.

Lemma add_outputs_blocks l h tx miner i outs : keeps (fun db => d_blocks db = l) (add_outputs h tx miner i outs).
Proof.
  revert i. induction outs as [|o outs IH]; intros i; cbn [add_outputs]; [apply keeps_ret|]. destruct miner.
  - apply keeps_bind; [apply keeps_lift|]. intros c. apply keeps_bind; [apply keeps_get|]. intros []; [apply IH|].
    apply keeps_bind; [apply add_output_blocks|]. auto with keeps.
  - destruct (negb _); [apply keeps_ret|]. apply keeps_bind; [apply keeps_lift|]. intros pk.
    apply keeps_bind; [apply add_output_blocks|]. auto with keeps.
Qed.

Lemma remove_images_blocks l ins : keeps (fun db => d_blocks db = l) (remove_images ins).
Proof. induction ins as [|[] ins IH]; cbn; auto with keeps. apply keeps_bind; [by apply keeps_set|done]. Qed.

Lemma add_inputs_blocks l ins b : keeps (fun db => d_blocks db = l) (add_inputs ins b).
Proof.
  revert b. induction ins as [|[] ins IH]; intros b; cbn; auto with keeps. apply keeps_bind; [|auto].
  apply keeps_bind; [apply keeps_get|]. intros []; [apply keeps_raise|by apply keeps_set].
Qed.

Lemma add_transaction_blocks l tx h : keeps (fun db => d_blocks db = l) (add_transaction tx h).
Proof.
  unfold add_transaction. apply keeps_bind; [apply add_inputs_blocks|]. intros [miner|]; [|apply remove_images_blocks].
  apply keeps_bind.
  - intros db r db' H E. by apply add_transaction_data_inv in E as [[_ ->]|(_ & _ & ->)].
  - intros id. apply keeps_bind; [apply add_outputs_blocks|]. intros [x|]; [by apply keeps_set|apply remove_images_blocks].
Qed.

Lemma add_transactions_blocks l txs : keeps (fun db => d_blocks db = l) (add_transactions txs).
Proof. induction txs as [|[h tx] txs IH]; cbn; [apply keeps_ret|]. apply keeps_bind; [apply add_transaction_blocks|done]. Qed.

Lemma written_top blk s d c txs db h db' :
  write_block blk s d c txs db = Some (inr h, db') ->
  h = height db /\ d_blocks db' = d_blocks db ++ [Dbblock blk s d c (get_block_hash blk)]
  /\ forall b, last (d_blocks db) = Some b -> Transaction.prev_id (Transaction.header blk) = bi_hash b.
Proof.
  unfold write_block. destruct (negb _); [discriminate|]. cbv zeta. intros E. apply dbind_inv in E as (h0 & db0 & [= <- <-] & E).
  apply dbind_inv in E as ([] & db1 & E1 & E). apply dbind_inv in E as ([] & db2 & E2 & E). apply dbind_inv in E as ([] & db3 & E3 & E).
  injection E as <- <-. apply (add_transaction_blocks (d_blocks db)) in E1; [|done]. apply (add_transactions_blocks (d_blocks db)) in E2; [|done].
  apply add_block_info_inv in E3 as (_ & -> & P). cbn. rewrite E2 in *. done.
Qed.

(** An exception leaves the blocks. *)
Lemma write_block_blocks blk s d c txs db ex db' :
  write_block blk s d c txs db = Some (inl ex, db') -> d_blocks db' = d_blocks db.
Proof.
  unfold write_block. destruct (negb _); [by intros [= _ <-]|]. cbv zeta. unfold dbind at 1, dget at 1. unfold dbind at 1.
  destruct (add_transaction _ _ db) as [[[e|[]] db1]|] eqn:E1; [| |discriminate]; apply (add_transaction_blocks (d_blocks db)) in E1; try done.
  { by intros [= _ <-]. }
  unfold dbind at 1. destruct (add_transactions _ db1) as [[[e|[]] db2]|] eqn:E2; [| |discriminate];
    apply (add_transactions_blocks (d_blocks db)) in E2; try done.
  { by intros [= _ <-]. }
  unfold dbind at 1. destruct (add_block_info _ _ _ _ _ db2) as [[[e|[]] db3]|] eqn:E3; [|by intros [=]|discriminate].
  intros [= _ <-]. rewrite <- E2. clear E2. unfold add_block_info, dbind, dget, dset, raise, dret in E3.
  destruct (block_exists _ _); [by injection E3 as _ <-|]. destruct (0 <? _); [|discriminate].
  destruct (block_height _ _) as [h|]; [|by injection E3 as _ <-]. destruct (h =? _); [discriminate|by injection E3 as _ <-].
Qed.

(** *** Taking a block back leaves consistent tables *)

(** What the removal of outputs does not touch. *)
Definition framed (db0 db : database) : Prop :=
  db = with_outputs db0 (d_outputs db) (d_output_txs db) /\ length (d_output_txs db) = length (d_outputs db).

Lemma remove_outputs_framed db0 amounts indices : keeps (framed db0) (remove_outputs amounts indices).
Proof.
  revert indices. induction amounts as [|a amounts IH]; intros indices; cbn [remove_outputs]; [apply keeps_ret|].
  destruct indices as [|i indices]; [by intros db r db' H E|]. apply keeps_bind; [|intros _; apply IH]. unfold remove_output.
  destruct (negb _); [apply keeps_raise|]. intros db r db' [Hw Hl] E. destruct (_ <=? _); [by injection E as <- <-|].
  destruct (_ =? _); [|discriminate]. injection E as <- <-. split; [by rewrite Hw|]. cbn. rewrite !length_take. lia.
Qed.

Lemma remove_tx_outputs_framed db0 id p : keeps (framed db0) (remove_tx_outputs id p).
Proof.
  unfold remove_tx_outputs. apply keeps_bind.
  - intros db r db' H E. destruct (d_tx_outputs db !! id); [|discriminate]. by injection E as <- <-.
  - intros indices. destruct indices as [|x l], (Transaction.vout p) as [|o outs]; try apply keeps_raise;
      (destruct (_ <? _)%nat; [by intros db r db' H E|apply remove_outputs_framed]).
Qed.

Lemma find_tx_last db h t : db_ok db -> find_tx db h = Some t -> ti_id t = (length (d_txs db) - 1)%nat ->
  exists l, d_tx_indices db = l ++ [t] /\ filter (fun x => ti_hash x <> h) (d_tx_indices db) = l.
Proof.
  intros K E L. unfold find_tx in E. apply fmap_Some in E as ([i t'] & E & ->). cbn [snd] in *.
  apply list_find_Some in E as (E & Eh & _). pose proof (ok_ids _ K i t' E) as Ei. pose proof (ok_txs _ K) as Lt.
  apply lookup_lt_Some in E as Li. assert (i = length (d_tx_indices db) - 1)%nat as -> by lia. pose proof (ok_hashes _ K) as ND.
  destruct (exists_last (l := d_tx_indices db)) as (l & x & D); [by intros D; rewrite D in Li; cbn in Li; lia|].
  rewrite D in *. rewrite length_app, Nat.add_sub in E.
  rewrite list_lookup_middle in E by done. injection E as ->. exists l. split; [done|].
  rewrite filter_app, filter_cons_False by (by intros H). rewrite app_nil_r. apply filter_all. intros y Hy F.
  rewrite map_app in ND. apply NoDup_app in ND as (_ & ND & _). apply (ND (ti_hash y)); [by apply list_elem_of_fmap_2|].
  cbn. rewrite F, Eh. left.
Qed.

Lemma remove_transaction_ok h db db' :
  db_ok db -> remove_transaction h db = Some (inr tt, db') -> db_ok db' /\ d_blocks db' = d_blocks db.
Proof.
  intros K0 E. unfold remove_transaction in E. apply dbind_inv in E as (tx & db0 & E0 & E).
  assert (db0 = db) as ->.
  { unfold get_tx in E0. apply dbind_inv in E0 as ([x|] & d & [= _ <-] & E0); [|discriminate]. by injection E0. }
  apply dbind_inv in E as ([] & db1 & E1 & E). pose proof (remove_images_blocks (d_blocks db) _ _ _ _ eq_refl E1) as B1.
  apply (remove_images_keeps _ _ _ _ K0) in E1 as K. clear E0 E1 K0. unfold remove_transaction_data in E.
  apply dbind_inv in E as (tip & db2 & [= <- <-] & E). destruct (find_tx db1 h) as [t|] eqn:F; [|discriminate].
  apply dbind_inv in E as ([] & db3 & E3 & E). destruct (Nat.eqb_spec (ti_id t) (length (d_txs db1) - 1)) as [L|]; [|discriminate].
  injection E3 as <-. apply dbind_inv in E as ([] & db4 & E4 & E). apply dbind_inv in E as ([] & db5 & [= <-] & E). injection E as <-.
  destruct (find_tx_last db1 h t K F L) as (l & Dl & Fl).
  apply (remove_tx_outputs_framed (with_txs db1 (take (length (d_txs db1) - 1) (d_txs db1)))) in E4 as [Ew El].
  2:{ split; [by destruct db1|exact (ok_outputs _ K)]. }
  rewrite Ew. split; [|by rewrite <- B1]. destruct K as [K1 K2 K3 K4 K5 K6 K7 K8 K9]. rewrite Dl in *. cbn in *. rewrite length_app in K3. cbn in K3.
  split; cbn; rewrite ?Dl, ?Fl; try done.
  - intros i x Hx. apply K1. by apply lookup_app_l_Some.
  - rewrite map_app in K2. by apply NoDup_app in K2 as (K2 & _).
  - rewrite length_take. lia.
  - intros i Hi. rewrite length_take in Hi. destruct (decide (i = ti_id t)) as [->|N]; [apply lookup_delete_eq|].
    rewrite lookup_delete_ne by done. apply K4. lia.
Qed.

Lemma remove_transactions_ok hashes db txs db' :
  db_ok db -> remove_transactions hashes db = Some (inr txs, db') -> db_ok db' /\ d_blocks db' = d_blocks db.
Proof.
  revert db txs. induction hashes as [|h hashes IH]; intros db txs K E; cbn [remove_transactions] in E; [by injection E as _ <-|].
  apply dbind_inv in E as (tx & db0 & E0 & E). assert (db0 = db) as ->.
  { unfold get_tx in E0. apply dbind_inv in E0 as ([x|] & d & [= _ <-] & E0); [|discriminate]. by injection E0. }
  apply dbind_inv in E as ([] & db1 & E1 & E). apply remove_transaction_ok in E1 as [K1 B1]; [|done].
  apply dbind_inv in E as (l & db2 & E2 & E). injection E as _ <-. apply IH in E2 as [K2 B2]; [|done]. by rewrite B2.
Qed.

Lemma shorter_ok db n : db_ok db -> db_ok (with_blocks db (take n (d_blocks db))).
Proof.
  intros [K1 K2 K3 K4 K5 K6 K7 K8 K9]. split; try done; cbn.
  - rewrite <- firstn_map. eapply sublist_NoDup; [exact K7|]. apply sublist_take.
  - by apply Forall_take.
  - intros i b c Hb Hc. apply lookup_take_Some in Hb as [Hb _]. apply lookup_take_Some in Hc as [Hc _]. by eapply K9.
Qed.

(** Taking a block back leaves consistent tables, without the last block. *)
Lemma pop_block_ok batch db bl txs db' :
  db_ok db -> pop_block batch db = Some (inr (bl, txs), db') ->
  db_ok db' /\ d_blocks db' = take (length (d_blocks db) - 1) (d_blocks db).
Proof.
  intros K E. unfold pop_block in E. destruct (erase_block db) as [[[e|r] d]|] eqn:F; try discriminate. injection E as -> <-.
  unfold erase_block in F. apply dbind_inv in F as (top & db0 & [= <- <-] & F). apply dbind_inv in F as ([] & db1 & E1 & F).
  unfold remove_block in E1. apply dbind_inv in E1 as (h & db0 & [= <- <-] & E1). destruct (_ =? 0); [discriminate|]. injection E1 as <-.
  destruct (last (d_blocks db)) as [b|]; [|discriminate]. cbv zeta in F. apply dbind_inv in F as (l & db2 & E2 & F).
  apply dbind_inv in F as ([] & db3 & E3 & F). injection F as _ _ <-.
  apply remove_transactions_ok in E2 as [K2 B2]; [|by apply shorter_ok]. apply remove_transaction_ok in E3 as [K3 B3]; [|done].
  by rewrite B3, B2.
Qed.

(** *** The images of a block *)

Lemma add_outputs_spent h tx miner i outs s : keeps (fun db => d_spent db = s) (add_outputs h tx miner i outs).
Proof.
  revert i. induction outs as [|o outs IH]; intros i; cbn [add_outputs]; [apply keeps_ret|].
  assert (forall o c, keeps (fun db => d_spent db = s) (add_output h o i (Transaction.unlock_time (t_prefix tx)) c)) as K.
  { intros o' c. unfold add_output. destruct (negb _); [apply keeps_raise|]. destruct (Transaction.target o'); try apply keeps_raise.
    apply keeps_bind; [apply keeps_get|]. intros ?. apply keeps_bind; [apply keeps_get|]. intros ?.
    apply keeps_bind; [by apply keeps_set|auto with keeps]. }
  destruct miner.
  - apply keeps_bind; [apply keeps_lift|]. intros c. apply keeps_bind; [apply keeps_get|]. intros []; [apply IH|].
    apply keeps_bind; [apply K|]. auto with keeps.
  - destruct (negb _); [apply keeps_ret|]. apply keeps_bind; [apply keeps_lift|]. intros pk.
    apply keeps_bind; [apply K|]. auto with keeps.
Qed.

(** A transaction of a miner, or one that spends keys and hides its amounts. *)
Definition spends (p : Transaction.transaction_prefix) : Prop :=
  (exists h, Transaction.vin p = [Transaction.txin_gen h])
  \/ (spends_keys p /\ Forall (fun o => Transaction.amount o = 0) (Transaction.vout p)).

Lemma spends_supported p : spends p ->
  Forall (fun i => match i with Transaction.txin_to_key _ _ _ | Transaction.txin_gen _ => True | _ => False end) (Transaction.vin p).
Proof. intros [[x ->]|[O _]]; [by repeat constructor|]. eapply Forall_impl; [exact O|]. by intros []. Qed.

Lemma spends_outputs p : spends p ->
  existsb is_gen (Transaction.vin p) = true \/ Forall (fun o => Transaction.amount o = 0) (Transaction.vout p).
Proof. intros [[x ->]|[_ O]]; [by left|by right]. Qed.

Lemma add_transaction_spent tx h db db' :
  spends (t_prefix tx) -> add_transaction tx h db = Some (inr tt, db') ->
  d_spent db' = d_spent db ++ images (Transaction.vin (t_prefix tx)).
Proof.
  intros O E. unfold add_transaction in E. apply dbind_inv in E as (r & db1 & E1 & E).
  destruct (add_inputs_supported _ _ _ _ _ (spends_supported _ O) E1) as [b ->].
  apply add_inputs_inv in E1 as [-> ->]. cbn [orb] in E. apply dbind_inv in E as (id & db2 & E2 & E).
  apply add_transaction_data_inv in E2 as [[[=] _]|(N & [= ->] & ->)]. apply dbind_inv in E as (l & db3 & E3 & E).
  destruct (add_outputs_hidden _ _ _ _ _ _ _ _ (spends_outputs _ O) E3) as [l' ->].
  eapply add_outputs_spent in E3; [|reflexivity]. injection E as <-. exact E3.
Qed.

Lemma add_transactions_spent hashes txs db db' :
  length hashes = length txs -> Forall (fun tx => spends (b_prefix tx)) txs ->
  add_transactions (zip hashes txs) db = Some (inr tt, db') ->
  d_spent db' = d_spent db ++ concat (map (fun tx => images (Transaction.vin (b_prefix tx))) txs).
Proof.
  revert txs db. induction hashes as [|h hashes IH]; intros [|tx txs] db L F E; try discriminate.
  - injection E as <-. cbn. by rewrite app_nil_r.
  - cbn [zip zip_with add_transactions] in E. apply dbind_inv in E as ([] & db1 & E1 & E). apply Forall_cons in F as [O F].
    apply add_transaction_spent in E1; [|done]. rewrite (IH txs db1 ltac:(cbn in L; lia) F E), E1. cbn. by rewrite <- app_assoc.
Qed.

(** A block that is written adds the images of its transactions. *)
Lemma write_block_spent blk s d c txs db h db' :
  (exists x, Transaction.vin (Transaction.prefix (Transaction.miner_tx blk)) = [Transaction.txin_gen x]) ->
  Forall (fun tx => spends (b_prefix tx)) txs -> write_block blk s d c txs db = Some (inr h, db') ->
  length (Transaction.tx_hashes blk) = length txs
  /\ d_spent db' = d_spent db ++ concat (map (fun tx => images (Transaction.vin (b_prefix tx))) txs).
Proof.
  intros G F E. unfold write_block in E. destruct (Nat.eqb_spec (length (Transaction.tx_hashes blk)) (length txs)) as [L|]; [|discriminate].
  split; [done|]. cbn [negb] in E. cbv zeta in E. apply dbind_inv in E as (h0 & db0 & [= <- <-] & E). apply dbind_inv in E as ([] & db1 & E1 & E).
  apply dbind_inv in E as ([] & db2 & E2 & E). apply dbind_inv in E as ([] & db3 & E3 & E). injection E as <- <-.
  apply add_transaction_spent in E1; [|by left]. apply add_transactions_spent in E2; [|done..]. apply add_block_info_inv in E3 as (_ & -> & _).
  destruct G as [x Gx]. cbn [t_prefix] in E1. rewrite Gx in E1. cbn in E1. rewrite app_nil_r in E1.
  cbn. by rewrite E2, E1.
Qed.

(** C13. The database stays consistent: from consistent tables (transactions
    numbered by position and with distinct identifiers, outputs listed twice,
    distinct spent key images, blocks with distinct hashes each naming the one
    before it), add_block leaves consistent tables whatever block it is given and
    however it ends, in a batch or not.  Outside of a batch an exception leaves the
    tables and the hard fork as they were.  Without an exception the block is the
    new top, it names the old top as its parent, and the result is the new height. *)
Theorem add_block_invariant batch blk s d c txs db hf r db' hf' :
  db_ok db -> add_block batch blk s d c txs db hf = Some (r, db', hf') ->
  db_ok db'
  /\ (forall e, r = inl e -> hf' = hf /\ (batch = false -> db' = db))
  /\ (forall h, r = inr h -> h = height db + 1 /\ h = height db'
        /\ d_blocks db' = d_blocks db ++ [Dbblock blk s d c (get_block_hash blk)]
        /\ forall b, last (d_blocks db) = Some b -> Transaction.prev_id (Transaction.header blk) = bi_hash b).
Proof.
  intros K E. unfold add_block in E. destruct (write_block blk s d c txs db) as [[[e|h] db1]|] eqn:W; [| |discriminate].
  - injection E as <- <- <-. split; [|split; [|by intros]].
    + unfold aborted. destruct batch; [by eapply write_block_keeps|done].
    + intros e' _. split; [done|]. by intros ->.
  - apply bind_Some in E as ([b hf1] & _ & [= <- <- <-]). split; [by eapply write_block_keeps|]. split; [by intros|].
    intros h' [= <-]. apply written_top in W as (-> & B & P). split; [done|]. split; [|done].
    unfold height. rewrite B, length_app. cbn. lia.
Qed.


End operations.

(** ** Examples *)

Definition gen_tx (h : Z) : Transaction.transaction :=
  {| Transaction.prefix := {| Transaction.version := 3; Transaction.unlock_time := h + 60; Transaction.vin := [Transaction.txin_gen h];
                              Transaction.vout := []; Transaction.extra := [] |};
     Transaction.signatures := []; Transaction.rct_signatures := Transaction.rct_null |}.

Definition spend_tx (k : bytes) (extra : bytes) : built :=
  Built {| Transaction.version := 3; Transaction.unlock_time := 0; Transaction.vin := [Transaction.txin_to_key 0 [7] k];
           Transaction.vout := []; Transaction.extra := extra |} null_rct.

Definition block_of (tx_hashes : list bytes) : Transaction.block :=
  {| Transaction.header := {| Transaction.major_version := 1; Transaction.minor_version := 1; Transaction.timestamp := 0;
                              Transaction.prev_id := TxHash.null_hash; Transaction.nonce := 0 |};
     Transaction.miner_tx := gen_tx 0; Transaction.tx_hashes := tx_hashes |}.

Definition empty_db : database := Db [] [] [] ∅ [] [] [] [].

Lemma empty_db_ok : db_ok (HF := example_hash) empty_db.
Proof. split; try done; try apply NoDup_nil; try constructor. Qed.

Definition image_a : bytes := replicate 32 5.
Definition hash_a : bytes := replicate 32 1.
Definition hash_b : bytes := replicate 32 2.

Lemma add_block_invariant_witness :
  exists r db' hf', add_block (HF := example_hash) true (block_of [hash_a; hash_b]) 0 0 0 [spend_tx image_a [1]; spend_tx image_a [2]] empty_db HardFork.example_state
    = Some (r, db', hf') /\ db_ok (HF := example_hash) db'.
Proof.
  eexists _, _, _. split; [vm_compute; reflexivity|].
  refine (proj1 (add_block_invariant (HF := example_hash) true (block_of [hash_a; hash_b]) 0 0 0
    [spend_tx image_a [1]; spend_tx image_a [2]] empty_db HardFork.example_state _ _ _ empty_db_ok _)). vm_compute. reflexivity.
Defined.


(** In a batch a refused block leaves traces: a block whose two transactions
    spend the same key image is refused with KEY_IMAGE_EXISTS when its second
    transaction is added, but block_txn_abort does nothing while a batch is active.
    The tables keep the miner transaction and the first transaction of the refused
    block, and its key image stays spent, although the block is not in the chain. *)
Theorem refused_block_leaves_traces :
  exists db', add_block (HF := example_hash) true (block_of [hash_a; hash_b]) 0 0 0 [spend_tx image_a [1]; spend_tx image_a [2]]
      empty_db HardFork.example_state = Some (inl KEY_IMAGE_EXISTS, db', HardFork.example_state)
    /\ d_blocks db' = [] /\ d_spent db' = [image_a]
    /\ map ti_hash (d_tx_indices db') = [get_transaction_hash (HF := example_hash) (gen_tx 0); hash_a].
Proof. eexists. split; [vm_compute; reflexivity|]. vm_compute. done. Qed.

End Database.
