(* ===== verification/TxPool.v ===== *)
(** * The transaction pool

    tx_memory_pool of src/cryptonote_core/tx_pool.cpp: the transactions that wait
    for a block, the sets of transactions that use a key image, and the order by
    fee and age; with check_fee, get_dynamic_per_kb_fee and the overload of
    check_tx_inputs of src/cryptonote_core/blockchain.cpp that the pool calls.
    A transaction is kept itself, not its blob.  The clock is an argument.  The
    flags of tx_verification_context are the constructors of [pool_failure] and
    [Added]. *)

From stdpp Require Import gmap sorting.
From S2P Require Import Prelude Config Keccak IntUtil BlockReward Serialization Transaction TxHash RctOps RangeProof Mlsag RctSigs TxBuild TxCheck TxAccept Database Result.
Import Config BlockReward RctOps RctSigs TxBuild TxCheck TxAccept Result.

Module TxPool.

(** ** The blob of a transaction *)

Definition range_blob (r : RangeProof.rangeSig) : Transaction.rangeSig :=
  {| Transaction.asig := concat (RangeProof.s0 (RangeProof.asig r)) ++ concat (RangeProof.s1 (RangeProof.asig r)) ++ RangeProof.ee (RangeProof.asig r);
     Transaction.Ci := concat (RangeProof.Ci r) |}.

(** The members of a transaction that are serialized. *)
Definition as_transaction (tx : built) : Transaction.transaction :=
  let rv := b_rct tx in
  {| Transaction.prefix := b_prefix tx; Transaction.signatures := [];
     Transaction.rct_signatures :=
       {| Transaction.type := r_type rv; Transaction.txnFee := r_txnFee rv; Transaction.pseudoOuts := r_pseudoOuts rv;
          Transaction.ecdhInfo := map (fun '(m, a) => {| Transaction.ecdh_mask := m; Transaction.ecdh_amount := a |}) (r_ecdhInfo rv);
          Transaction.outPk := map mask (r_outPk rv);
          Transaction.rangeSigs := map range_blob (r_rangeSigs rv);
          Transaction.bulletproofs := map bp_body (r_bulletproofs rv);
          Transaction.MGs := map (fun mg => {| Transaction.ss := Mlsag.ss mg; Transaction.cc := Mlsag.cc mg |}) (r_MGs rv);
          Transaction.p_pseudoOuts := r_p_pseudoOuts rv |} |}.

(** ** Floating point numbers

    An unsigned integer as a float of [p] bits of precision, rounded to nearest,
    ties to even; the numbers of this file are far from the limits of the exponent. *)
Definition round_to (p n : Z) : Z :=
  if n <? 2 ^ p then n
  else
    let s := Z.log2 n - (p - 1) in
    let q := n / 2 ^ s in
    let r := n mod 2 ^ s in
    let up := (2 ^ (s - 1) <? r) || ((r =? 2 ^ (s - 1)) && Z.odd q) in
    (if up then q + 1 else q) * 2 ^ s.

(** The double a / (double)b, scaled by 2^201: the quotient has at least 100 bits
    before it is rounded, and a last bit that says whether there was a remainder. *)
Definition double_div (a b : Z) : Z :=
  let a := round_to 53 a * 2 ^ 200 in
  let b := round_to 53 b in
  round_to 53 (2 * (a / b) + (if a mod b =? 0 then 0 else 1)).

(** ** Fees *)

Definition FEE_PER_KB : Z := 500000.
Definition FEE_PER_RING_MEMBER : Z := 500000.
Definition DYNAMIC_FEE_PER_KB_BASE_FEE : Z := 500000.
Definition DYNAMIC_FEE_PER_KB_BASE_BLOCK_REWARD : Z := 64000000000.

(** What the pool asks the chain: besides the state that transactions are checked
    against, the limit of block sizes, the coins and the identifier of every block,
    and whether a transaction is in a block. *)
Record view := View { v_chain : chain; v_limit : Z; v_coins : list Z; v_ids : list bytes; v_have_tx : bytes -> bool }.

(** [None] when the assert that the quotient fits fails. *)
Definition get_dynamic_per_kb_fee (block_reward median_block_size : Z) : option Z :=
  let median_block_size := if median_block_size <? BLOCK_SIZE_GROWTH_FAVORED_ZONE then BLOCK_SIZE_GROWTH_FAVORED_ZONE else median_block_size in
  let block_reward := if block_reward <? DYNAMIC_FEE_PER_KB_BASE_BLOCK_REWARD then DYNAMIC_FEE_PER_KB_BASE_BLOCK_REWARD else block_reward in
  let unscaled_fee_per_kb := u64 (DYNAMIC_FEE_PER_KB_BASE_FEE * BLOCK_SIZE_GROWTH_FAVORED_ZONE) / median_block_size in
  let '(lo, hi) := IntUtil.mul128 unscaled_fee_per_kb block_reward in
  let '(hi, lo, _) := IntUtil.div128_32 hi lo (DYNAMIC_FEE_PER_KB_BASE_BLOCK_REWARD / 1000000) in
  let '(hi, lo, _) := IntUtil.div128_32 hi lo 1000000 in
  _ ← asserted (hi =? 0);
  Some lo.

(** (uint64_t)(kB * fee_per_kb) with float kB; a product that does not fit has no
    value.  The division by 1024 is exact and is done last. *)
Definition float_fee (blob_size fee_per_kb : Z) : option Z :=
  let kB := round_to 24 (u64 (blob_size - CRYPTONOTE_COINBASE_BLOB_RESERVED_SIZE)) in
  let fee := round_to 24 (kB * round_to 24 fee_per_kb) / 1024 in
  if fee <? 2 ^ 64 then Some fee else None.

Definition ring_size (tx : Transaction.transaction_prefix) : Z :=
  match Transaction.vin tx with
  | Transaction.txin_to_key _ key_offsets _ :: _ => Z.of_nat (length key_offsets)
  | _ => 0
  end.

Definition needed_fee (v : view) (tx : Transaction.transaction_prefix) (blob_size : Z) : result (option Z) :=
  let c := v_chain v in
  if check_hard_fork_feature c FORK_FEE_V2 then
    ret (Some (u64 (u64 (ring_size tx * FEE_PER_RING_MEMBER) + u64 (blob_size * FEE_PER_KB) / 1024)))
  else if check_hard_fork_feature c FORK_FIXED_FEE then ret (Some (u64 (blob_size * FEE_PER_KB) / 1024))
  else
    let median := v_limit v / 2 in
    let height := db_height c in
    let cal_height := height - height mod COIN_EMISSION_HEIGHT_INTERVAL in
    let* cal_generated_coins :=
      (if cal_height =? 0 then ret 0 else match v_coins v !! Z.to_nat (cal_height - 1) with Some coins => ret coins | None => throw end) in
    let* base_reward := lift (get_block_reward (m_nettype c) median 1 cal_generated_coins height) in
    match base_reward with
    | Too_big => ret None
    | Reward base_reward =>
        let* fee_per_kb := lift (get_dynamic_per_kb_fee base_reward median) in
        let* fee := lift (float_fee blob_size fee_per_kb) in
        ret (Some (fee / 100 * 100))
    end.

Definition check_fee (v : view) (tx : Transaction.transaction_prefix) (blob_size fee : Z) : result bool :=
  let* needed := needed_fee v tx blob_size in
  ret (match needed with Some needed => needed <=? fee | None => false end).

(** ** The pool *)

Record txpool_tx_meta_t := Meta {
  max_used_block_id : bytes; last_failed_id : bytes;
  blob_size : Z; fee : Z; max_used_block_height : Z; last_failed_height : Z; receive_time : Z; last_relayed_time : Z;
  kept_by_block : bool; relayed : bool; do_not_relay : bool; double_spend_seen : bool
}.

(** The tables txpool_meta and txpool_blob, which have the same keys; the other
    members are m_spent_key_images, m_txs_by_fee_and_receive_time, whose entries
    are a fee per byte, a time and an identifier, m_txpool_size, m_txpool_max_size
    and m_timed_out_transactions. *)
Record pool := Pool {
  p_txs : gmap bytes (built * txpool_tx_meta_t);
  p_spent : gmap bytes (gset bytes);
  p_sorted : list (Z * Z * bytes);
  p_size : Z;
  p_max_size : Z;
  p_timed_out : gset bytes
}.

Definition with_pool_txs (p : pool) (txs : gmap bytes (built * txpool_tx_meta_t)) : pool :=
  Pool txs (p_spent p) (p_sorted p) (p_size p) (p_max_size p) (p_timed_out p).
Definition with_pool_spent (p : pool) (m : gmap bytes (gset bytes)) : pool :=
  Pool (p_txs p) m (p_sorted p) (p_size p) (p_max_size p) (p_timed_out p).
Definition with_sorted (p : pool) (l : list (Z * Z * bytes)) : pool :=
  Pool (p_txs p) (p_spent p) l (p_size p) (p_max_size p) (p_timed_out p).
Definition with_size (p : pool) (n : Z) : pool :=
  Pool (p_txs p) (p_spent p) (p_sorted p) n (p_max_size p) (p_timed_out p).
Definition with_timed_out (p : pool) (s : gset bytes) : pool :=
  Pool (p_txs p) (p_spent p) (p_sorted p) (p_size p) (p_max_size p) s.

Definition seen (m : txpool_tx_meta_t) : txpool_tx_meta_t :=
  Meta (max_used_block_id m) (last_failed_id m) (blob_size m) (fee m) (max_used_block_height m) (last_failed_height m)
    (receive_time m) (last_relayed_time m) (kept_by_block m) (relayed m) (do_not_relay m) true.

(** *** The order of the transactions *)

Definition txCompare (a b : Z * Z * bytes) : bool :=
  let '(ra, ta, ia) := a in
  let '(rb, tb, ib) := b in
  if rb <? ra then true
  else if ra <? rb then false
  else if ta <? tb then true
  else if tb <? ta then false
  else negb (bool_decide (ia = ib)).

(** std::set::emplace: the place before the first entry that the new one precedes,
    unless the entry [prev] before that place does not precede the new one. *)
Fixpoint emplace (prev : option (Z * Z * bytes)) (e : Z * Z * bytes) (l : list (Z * Z * bytes)) : list (Z * Z * bytes) :=
  let here := match prev with Some x => if txCompare x e then e :: l else l | None => e :: l end in
  match l with
  | [] => here
  | x :: l' => if txCompare e x then here else x :: emplace (Some x) e l'
  end.

Definition find_tx_in_sorted_container (id : bytes) (l : list (Z * Z * bytes)) : option (nat * (Z * Z * bytes)) :=
  list_find (fun e => e.2 = id) l.

(** Erasing at the iterator that was found. *)
Definition erase_sorted (id : bytes) (l : list (Z * Z * bytes)) : list (Z * Z * bytes) :=
  match find_tx_in_sorted_container id l with Some (i, _) => delete i l | None => l end.

Definition compare_hash32 (a b : bytes) : Prop := le_val 256 a <= le_val 256 b.

#[global] Instance compare_hash32_dec a b : Decision (compare_hash32 a b).
Proof. unfold compare_hash32. apply _. Defined.

(** A key with the transaction and its data. *)
Definition pool_entry : Type := bytes * (built * txpool_tx_meta_t).

(** The transactions in the order of their keys. *)
Definition for_all_txpool_txes (txs : gmap bytes (built * txpool_tx_meta_t)) : list pool_entry :=
  merge_sort (fun a b => compare_hash32 a.1 b.1) (map_to_list txs).

Section functions.

Context `{HF : !FastHash}.

(** get_transaction_hash and the size of tx_to_blob. *)
Definition tx_id (tx : built) : bytes := default TxHash.null_hash (TxHash.calculate_transaction_hash (as_transaction tx)).
Definition tx_size (tx : built) : Z := default 0 (TxHash.get_object_blobsize Transaction.put_transaction (as_transaction tx)).

(** *** Key images *)

Definition have_tx_keyimg_as_spent (p : pool) (k : bytes) : bool := bool_decide (is_Some (p_spent p !! k)).

Fixpoint any_spent (spent : bytes -> bool) (ins : list Transaction.txin_v) : bool :=
  match ins with
  | [] => false
  | Transaction.txin_to_key _ _ k :: ins => if spent k then true else any_spent spent ins
  | _ => true
  end.

Definition have_tx_keyimges_as_spent (p : pool) (tx : built) : bool :=
  any_spent (have_tx_keyimg_as_spent p) (Transaction.vin (b_prefix tx)).

Fixpoint insert_loop (id : bytes) (kept : bool) (ins : list Transaction.txin_v) (m : gmap bytes (gset bytes))
    : bool * gmap bytes (gset bytes) :=
  match ins with
  | [] => (true, m)
  | Transaction.txin_to_key _ _ k :: ins =>
      let s := default ∅ (m !! k) in
      let m := <[k := s]> m in
      if negb (kept || bool_decide (s = ∅)) then (false, m)
      else if bool_decide (id ∈ s) then (false, m)
      else insert_loop id kept ins (<[k := {[id]} ∪ s]> m)
  | _ => (false, m)
  end.

Definition insert_key_images (tx : built) (kept : bool) (p : pool) : bool * pool :=
  let '(ok, m) := insert_loop (tx_id tx) kept (Transaction.vin (b_prefix tx)) (p_spent p) in
  (ok, with_pool_spent p m).

Fixpoint remove_loop (id : bytes) (ins : list Transaction.txin_v) (m : gmap bytes (gset bytes)) : bool * gmap bytes (gset bytes) :=
  match ins with
  | [] => (true, m)
  | Transaction.txin_to_key _ _ k :: ins =>
      match m !! k with
      | None => (false, m)
      | Some s =>
          if bool_decide (s = ∅) then (false, m)
          else if bool_decide (id ∈ s) then
            let s := s ∖ {[id]} in
            remove_loop id ins (if bool_decide (s = ∅) then delete k m else <[k := s]> m)
          else (false, m)
      end
  | _ => (false, m)
  end.

Definition remove_transaction_keyimages (tx : built) (p : pool) : bool * pool :=
  let '(ok, m) := remove_loop (tx_id tx) (Transaction.vin (b_prefix tx)) (p_spent p) in
  (ok, with_pool_spent p m).

Definition mark (id : bytes) (txs : gmap bytes (built * txpool_tx_meta_t)) : gmap bytes (built * txpool_tx_meta_t) :=
  match txs !! id with
  | None => txs
  | Some (tx, meta) => if double_spend_seen meta then txs else <[id := (tx, seen meta)]> txs
  end.

Fixpoint mark_loop (m : gmap bytes (gset bytes)) (ins : list Transaction.txin_v) (txs : gmap bytes (built * txpool_tx_meta_t))
    : gmap bytes (built * txpool_tx_meta_t) :=
  match ins with
  | Transaction.txin_to_key _ _ k :: ins => mark_loop m ins (foldr mark txs (elements (default ∅ (m !! k))))
  | _ => txs
  end.

Definition mark_double_spend (tx : built) (p : pool) : pool :=
  with_pool_txs p (mark_loop (p_spent p) (Transaction.vin (b_prefix tx)) (p_txs p)).

(** *** Removing *)

(** Removing a transaction from the tables, then its key images; callers do not look
    at whether that succeeded. *)
Definition remove_txpool_tx (id : bytes) (tx : built) (size : Z) (p : pool) : pool :=
  let p := with_pool_txs p (delete id (p_txs p)) in
  let p := with_size p (u64 (p_size p - size)) in
  snd (remove_transaction_keyimages tx p).

(** What take_tx returns: the transaction, blob_size, fee, relayed, do_not_relay and
    double_spend_seen. *)
Definition take_tx (id : bytes) (p : pool) : option (built * Z * Z * bool * bool * bool) * pool :=
  match find_tx_in_sorted_container id (p_sorted p) with
  | None => (None, p)
  | Some (i, _) =>
      match p_txs p !! id with
      | None => (None, p)
      | Some (tx, meta) =>
          let p := remove_txpool_tx id tx (blob_size meta) p in
          (Some (tx, blob_size meta, fee meta, relayed meta, do_not_relay meta, double_spend_seen meta),
           with_sorted p (delete i (p_sorted p)))
      end
  end.

(** The loop of prune from the end of the order; [n] is the position of [it]. *)
Fixpoint prune_loop (limit : Z) (n : nat) (p : pool) : pool :=
  match n with
  | O => p
  | S n' =>
      if p_size p <=? limit then p
      else
        match p_sorted p !! n with
        | None => p
        | Some (_, id) =>
            match p_txs p !! id with
            | None => p
            | Some (tx, meta) =>
                if kept_by_block meta then prune_loop limit n' p
                else
                  let p := remove_txpool_tx id tx (tx_size tx) p in
                  prune_loop limit n' (with_sorted p (delete n (p_sorted p)))
            end
        end
  end.

(** The order is not empty when it is called. *)
Definition prune (limit : Z) (p : pool) : pool :=
  let limit := if limit =? 0 then p_max_size p else limit in
  prune_loop limit (pred (length (p_sorted p))) p.

(** *** Adding *)

(** The overload of check_tx_inputs with the block of the newest ring member; none
    when it returns false. *)
Definition check_inputs (v : view) (tx : built) : result (option (Z * bytes)) :=
  let* r := check_tx_inputs (v_chain v) tx true in
  match r with
  | inl _ => ret None
  | inr (_, pmax) =>
      let max_used_block_height := default 0 pmax in
      if max_used_block_height <? db_height (v_chain v) then
        match v_ids v !! Z.to_nat max_used_block_height with
        | Some id => ret (Some (max_used_block_height, id))
        | None => throw
        end
      else ret None
  end.

(** Why add_tx returns false, and what it reports when it returns true. *)
Inductive pool_failure :=
  version_zero | timed_out | unsupported_input | fee_too_low | too_big | pool_double_spend | bad_output | invalid_input | already_exists.

Inductive pool_added := Added (verifivation_impossible should_be_relayed : bool).

Definition fee_per_byte (fee blob_size : Z) : Z := double_div fee blob_size.

(** add_txpool_tx, which replaces an entry with the same key, the key images and
    the order; false when the key images are refused. *)
Definition insert_tx (tx : built) (id : bytes) (meta : txpool_tx_meta_t) (p : pool) : bool * pool :=
  let p := with_pool_txs p (<[tx_id tx := (tx, meta)]> (p_txs p)) in
  let '(ok, p) := insert_key_images tx (kept_by_block meta) p in
  if ok then (true, with_sorted p (emplace None (fee_per_byte (fee meta) (blob_size meta), receive_time meta, id) (p_sorted p)))
  else (false, p).

Definition add_tx (v : view) (time time' : Z) (tx : built) (id : bytes) (size : Z) (kept rel no_relay : bool) (p : pool)
    : result ((pool_failure + pool_added) * pool) :=
  let prefix := b_prefix tx in
  if Transaction.version prefix =? 0 then ret (inl version_zero, p)
  else if negb kept && bool_decide (id ∈ p_timed_out p) then ret (inl timed_out, p)
  else if negb (check_inputs_types_supported prefix) then ret (inl unsupported_input, p)
  else
    let tx_fee := r_txnFee (b_rct tx) in
    let* fee_ok := (if kept then ret true else check_fee v prefix size tx_fee) in
    if negb fee_ok then ret (inl fee_too_low, p)
    else if negb kept && (TRANSACTION_SIZE_LIMIT <? size) then ret (inl too_big, p)
    else if negb kept && have_tx_keyimges_as_spent p tx then ret (inl pool_double_spend, mark_double_spend tx p)
    else
      let* outputs_ok := check_tx_outputs (v_chain v) tx in
      match outputs_ok with
      | inl _ => ret (inl bad_output, p)
      | inr _ =>
          let* ch_inp_res := check_inputs v tx in
          let finish (ok : bool) (p : pool) (a : pool_added) :=
            if ok then ret (inr a, prune (p_max_size p) (with_size p (u64 (p_size p + size)))) else ret (inl already_exists, p) in
          match ch_inp_res with
          | None =>
              if kept then
                let meta := Meta TxHash.null_hash TxHash.null_hash size tx_fee 0 0 time time' kept rel no_relay
                              (have_tx_keyimges_as_spent p tx) in
                let '(ok, p) := insert_tx tx id meta p in
                finish ok p (Added true false)
              else ret (inl invalid_input, p)
          | Some (height, block_id) =>
              let meta := Meta block_id TxHash.null_hash size tx_fee height 0 time time' kept rel no_relay false in
              let p := with_pool_txs p (delete (tx_id tx) (p_txs p)) in
              let '(ok, p) := insert_tx tx id meta p in
              finish ok p (Added false ((0 <? tx_fee) && negb no_relay))
          end
      end.

(** *** Maintenance *)

Definition CRYPTONOTE_MEMPOOL_TX_LIVETIME : Z := 86400.
Definition CRYPTONOTE_MEMPOOL_TX_FROM_ALT_BLOCK_LIVETIME : Z := 604800.

Definition outdated (time : Z) (meta : txpool_tx_meta_t) : bool :=
  let tx_age := u64 (time - receive_time meta) in
  ((CRYPTONOTE_MEMPOOL_TX_LIVETIME <? tx_age) && negb (kept_by_block meta))
  || ((CRYPTONOTE_MEMPOOL_TX_FROM_ALT_BLOCK_LIVETIME <? tx_age) && kept_by_block meta).

Definition forget (id : bytes) (p : pool) : pool :=
  with_timed_out (with_sorted p (erase_sorted id (p_sorted p))) ({[id]} ∪ p_timed_out p).

Definition drop_tx (id : bytes) (p : pool) : pool :=
  match p_txs p !! id with Some (tx, _) => remove_txpool_tx id tx (tx_size tx) p | None => p end.

Definition remove_stuck_transactions (time : Z) (p : pool) : pool :=
  let remove := map fst (filter (fun e => outdated time e.2.2 = true) (for_all_txpool_txes (p_txs p))) in
  foldl (fun p id => drop_tx id p) (foldl (fun p id => forget id p) p remove) remove.

(** The sizes are added up again; a transaction that is too big or in a block is
    removed. *)
Definition validate (v : view) (p : pool) : nat * pool :=
  let txs := for_all_txpool_txes (p_txs p) in
  let p := with_size p (foldl (fun n e => u64 (n + blob_size e.2.2)) 0 txs) in
  let remove := map fst (filter (fun e => ((TRANSACTION_SIZE_LIMIT <? blob_size e.2.2) || v_have_tx v e.1) = true) txs) in
  (length remove, foldl (fun p id => let p := drop_tx id p in with_sorted p (erase_sorted id (p_sorted p))) p remove).

Definition set_relayed (time : Z) (ids : list bytes) (p : pool) : pool :=
  foldl (fun p id =>
    match p_txs p !! id with
    | Some (tx, m) =>
        with_pool_txs p (<[id := (tx, Meta (max_used_block_id m) (last_failed_id m) (blob_size m) (fee m) (max_used_block_height m)
          (last_failed_height m) (receive_time m) time (kept_by_block m) true (do_not_relay m) (double_spend_seen m))]> (p_txs p))
    | None => p
    end) p ids.

(** *** Starting *)

Definition DEFAULT_TXPOOL_MAX_SIZE : Z := 648000000.

Fixpoint init_pass (kept : bool) (txs : list pool_entry) (p : pool) : bool * pool :=
  match txs with
  | [] => (true, p)
  | (id, (tx, meta)) :: txs =>
      if negb (eqb kept (kept_by_block meta)) then init_pass kept txs p
      else
        let '(ok, p) := insert_key_images tx (kept_by_block meta) p in
        if ok then
          let p := with_sorted p (emplace None (fee_per_byte (fee meta) (blob_size meta), receive_time meta, id) (p_sorted p)) in
          init_pass kept txs (with_size p (u64 (p_size p + blob_size meta)))
        else (false, p)
  end.

(** The members are filled from the tables, which are on disk. *)
Definition init (max_txpool_size : Z) (p : pool) : bool * pool :=
  let txs := for_all_txpool_txes (p_txs p) in
  let p := Pool (p_txs p) ∅ [] 0 (if max_txpool_size =? 0 then DEFAULT_TXPOOL_MAX_SIZE else max_txpool_size) (p_timed_out p) in
  let '(ok, p) := init_pass false txs p in
  if ok then init_pass true txs p else (false, p).

(** *** Block templates *)

(** The value behind the pointer of check_tx_inputs when it returns: the greatest
    height of the rings read before it failed, if it did. *)
Fixpoint loop_height (c : chain) (tx_version : Z) (tx_prefix_hash : bytes) (ins : list Transaction.txin_v) (m : Z) : Z :=
  match ins with
  | Transaction.txin_to_key _ key_offsets k_image :: ins =>
      if Nat.eqb (length key_offsets) 0 || TxAccept.have_tx_keyimg_as_spent c k_image then m
      else match check_tx_input c tx_version key_offsets k_image tx_prefix_hash (Some m) with
           | Some (_, m') => loop_height c tx_version tx_prefix_hash ins (default m m')
           | None => m
           end
  | _ => m
  end.

Definition used_height (c : chain) (tx : built) : Z :=
  let prefix := b_prefix tx in
  match check_tx_form c prefix with
  | Some (inr (inr _)) => loop_height c (Transaction.version prefix) (TxHash.get_transaction_prefix_hash prefix) (Transaction.vin prefix) 0
  | _ => 0
  end.

Definition get_block_id_by_height (v : view) (height : Z) : bytes := default TxHash.null_hash (v_ids v !! Z.to_nat height).

Definition set_used (m : txpool_tx_meta_t) (height : Z) (id : bytes) : txpool_tx_meta_t :=
  Meta id (last_failed_id m) (blob_size m) (fee m) height (last_failed_height m)
    (receive_time m) (last_relayed_time m) (kept_by_block m) (relayed m) (do_not_relay m) (double_spend_seen m).

Definition set_failed (m : txpool_tx_meta_t) (height : Z) (id : bytes) : txpool_tx_meta_t :=
  Meta (max_used_block_id m) id (blob_size m) (fee m) (max_used_block_height m) height
    (receive_time m) (last_relayed_time m) (kept_by_block m) (relayed m) (do_not_relay m) (double_spend_seen m).

Definition is_transaction_ready_to_go (v : view) (meta : txpool_tx_meta_t) (tx : built) : result (bool * txpool_tx_meta_t) :=
  let height := db_height (v_chain v) in
  let failed_here := bool_decide (last_failed_id meta = get_block_id_by_height v (last_failed_height meta)) in
  let skip :=
    if bool_decide (max_used_block_id meta = TxHash.null_hash) then
      negb (bool_decide (last_failed_id meta = TxHash.null_hash)) && (last_failed_height meta <? height) && failed_here
    else (height <=? max_used_block_height meta) || failed_here in
  if skip then ret (false, meta)
  else
    let* r := check_inputs v tx in
    match r with
    | None =>
        let last := u64 (height - 1) in
        ret (false, set_failed (set_used meta (used_height (v_chain v) tx) (max_used_block_id meta)) last (get_block_id_by_height v last))
    | Some (used, id) =>
        let meta := set_used meta used id in
        if any_spent (TxAccept.have_tx_keyimg_as_spent (v_chain v)) (Transaction.vin (b_prefix tx)) then ret (false, seen meta)
        else ret (true, meta)
    end.

Fixpoint have_key_images (k_images : gset bytes) (ins : list Transaction.txin_v) : bool :=
  match ins with
  | Transaction.txin_to_key _ _ k :: ins => if bool_decide (k ∈ k_images) then true else have_key_images k_images ins
  | _ => false
  end.

Fixpoint append_key_images (k_images : gset bytes) (ins : list Transaction.txin_v) : gset bytes :=
  match ins with
  | Transaction.txin_to_key _ _ k :: ins =>
      if bool_decide (k ∈ k_images) then k_images else append_key_images ({[k]} ∪ k_images) ins
  | _ => k_images
  end.

(** amount * 1.0f as an integer; an amount that rounds to 2^64 has no value. *)
Definition template_accept_threshold (amount : Z) : option Z :=
  if round_to 24 amount <? 2 ^ 64 then Some (round_to 24 amount) else None.

Record template := Template { t_hashes : list bytes; t_size : Z; t_fee : Z; t_coinbase : Z; t_images : gset bytes }.

Section template.

Context (v : view) (median_size already_generated_coins height : Z).

Definition max_total_size : Z := u64 (u64 (200 * median_size) / 100 - CRYPTONOTE_COINBASE_BLOB_RESERVED_SIZE).

(** The coinbase of the template with one more transaction; none when it does not
    fit or pays less. *)
Definition template_coinbase (t : template) (meta : txpool_tx_meta_t) : result (option Z) :=
  if max_total_size <? u64 (t_size t + blob_size meta) then ret None
  else
    let* r := lift (get_block_reward (m_nettype (v_chain v)) median_size
                      (u64 (t_size t + blob_size meta + CRYPTONOTE_COINBASE_BLOB_RESERVED_SIZE)) already_generated_coins height) in
    match r with
    | Too_big => ret None
    | Reward block_reward =>
        let coinbase := u64 (block_reward + t_fee t + fee meta) in
        let* threshold := lift (template_accept_threshold (t_coinbase t)) in
        ret (if coinbase <? threshold then None else Some coinbase)
    end.

Definition template_step (id : bytes) (tp : template * pool) : result (template * pool) :=
  let '(t, p) := tp in
  match p_txs p !! id with
  | None => ret tp
  | Some (tx, meta) =>
      let* coinbase := template_coinbase t meta in
      match coinbase with
      | None => ret tp
      | Some coinbase =>
          let* (ready, meta) := is_transaction_ready_to_go v meta tx in
          let p := with_pool_txs p (<[id := (tx, meta)]> (p_txs p)) in
          if negb ready || have_key_images (t_images t) (Transaction.vin (b_prefix tx)) then ret (t, p)
          else ret (Template (t_hashes t ++ [id]) (u64 (t_size t + blob_size meta)) (u64 (t_fee t + fee meta)) coinbase
                      (append_key_images (t_images t) (Transaction.vin (b_prefix tx))), p)
      end
  end.

Fixpoint template_loop (ids : list bytes) (tp : template * pool) : result (template * pool) :=
  match ids with
  | [] => ret tp
  | id :: ids => let* tp := template_step id tp in template_loop ids tp
  end.

(** The hashes, the total size, the fees and the expected reward. *)
Definition fill_block_template (p : pool) : result (template * pool) :=
  let* r := lift (get_block_reward (m_nettype (v_chain v)) median_size 0 already_generated_coins height) in
  let best_coinbase := match r with Reward reward => reward | Too_big => 0 end in
  template_loop (map snd (p_sorted p)) (Template [] 0 0 best_coinbase ∅, p).

End template.

End functions.

(** ** Key images and the transactions that use them *)

Definition images (tx : built) : list bytes := map input_image (Transaction.vin (b_prefix tx)).

(** What check_tx_semantic has made sure of. *)
Record wf_tx (tx : built) : Prop := {
  wf_inputs : Forall (fun i => is_to_key i = true) (Transaction.vin (b_prefix tx));
  wf_some : images tx <> [];
  wf_distinct : NoDup (images tx)
}.

Definition users (m : gmap bytes (gset bytes)) (k : bytes) : gset bytes := default ∅ (m !! k).

(** An image without a transaction has no entry. *)
Definition no_empty (m : gmap bytes (gset bytes)) : Prop := forall k, m !! k <> Some ∅.

Lemma no_empty_insert m k s : no_empty m -> s <> ∅ -> no_empty (<[k := s]> m).
Proof. intros H N j. destruct (decide (j = k)) as [->|]; [rewrite lookup_insert_eq; congruence|by rewrite lookup_insert_ne]. Qed.

Lemma no_empty_delete m k : no_empty m -> no_empty (delete k m).
Proof. intros H j. destruct (decide (j = k)) as [->|]; [by rewrite lookup_delete_eq|by rewrite lookup_delete_ne]. Qed.

Lemma users_insert m k s j : users (<[k := s]> m) j = if decide (j = k) then s else users m j.
Proof. unfold users. destruct (decide (j = k)) as [->|]; [by rewrite lookup_insert_eq|by rewrite lookup_insert_ne]. Qed.

Lemma users_delete m k j : users (delete k m) j = if decide (j = k) then ∅ else users m j.
Proof. unfold users. destruct (decide (j = k)) as [->|]; [by rewrite lookup_delete_eq|by rewrite lookup_delete_ne]. Qed.

Lemma no_users m k : no_empty m -> users m k = ∅ -> m !! k = None.
Proof. unfold users. intros H E. destruct (m !! k) as [s|] eqn:F; [|done]. cbn in E. subst s. by destruct (H k). Qed.

(** A table of images is determined by the users. *)
Lemma users_ext m m' : no_empty m -> no_empty m' -> (forall k, users m k = users m' k) -> m = m'.
Proof.
  intros H H' E. apply map_eq. intros k. specialize (E k). unfold users in E.
  destruct (m !! k) as [s|] eqn:F, (m' !! k) as [s'|] eqn:F'; cbn in E; subst; try done; [by destruct (H k)|by destruct (H' k)].
Qed.

Lemma insert_loop_ok id kept ins m :
  Forall (fun i => is_to_key i = true) ins -> NoDup (map input_image ins) -> no_empty m ->
  (forall k, k ∈ map input_image ins -> (id ∉ users m k) /\ (kept = false -> users m k = ∅)) ->
  exists m', insert_loop id kept ins m = (true, m') /\ no_empty m'
    /\ forall k, users m' k = if decide (k ∈ map input_image ins) then {[id]} ∪ users m k else users m k.
Proof.
  revert m. induction ins as [|i ins IH]; intros m T ND NE H.
  { exists m. split; [done|]. split; [done|]. intros k. by rewrite decide_False by apply not_elem_of_nil. }
  apply Forall_cons in T as [Ti T]. destruct i as [| | |a o k]; try discriminate Ti. cbn [map input_image] in *.
  apply NoDup_cons in ND as [Hk ND]. destruct (H k (list_elem_of_here _ _)) as [Hid Hs].
  destruct (IH (<[k := {[id]} ∪ users m k]> m) T ND) as (m' & E & NE' & U).
  { apply no_empty_insert; [done|]. intros E. apply (not_elem_of_empty (C := gset bytes) id). rewrite <- E. by apply elem_of_union_l, elem_of_singleton. }
  { intros j Hj. rewrite users_insert, decide_False by (intros ->; done). apply H. by right. }
  exists m'. split; [|split; [done|]].
  - cbn [insert_loop]. fold (users m k). rewrite insert_insert_eq, (bool_decide_false _ Hid).
    destruct kept; [exact E|]. by rewrite Hs, bool_decide_true in * by done.
  - intros j. rewrite U, users_insert. destruct (decide (j = k)) as [->|N].
    + rewrite decide_False by done. by rewrite decide_True by left.
    + destruct (decide (j ∈ map input_image ins)) as [Hj|Hj].
      * by rewrite decide_True by (by right).
      * rewrite decide_False; [done|]. intros [->|?]%elem_of_cons; done.
Qed.

(** A transaction that is there already changes nothing. *)
Lemma insert_loop_again id kept ins m :
  Forall (fun i => is_to_key i = true) ins -> map input_image ins <> [] ->
  (forall k, k ∈ map input_image ins -> id ∈ users m k) -> insert_loop id kept ins m = (false, m).
Proof.
  intros T N H. destruct ins as [|i ins]; [done|]. apply Forall_cons in T as [Ti T].
  destruct i as [| | |a o k]; try discriminate Ti. specialize (H k (list_elem_of_here _ _)). cbn [insert_loop]. fold (users m k).
  assert (<[k := users m k]> m = m) as ->.
  { apply insert_id. unfold users in *. destruct (m !! k); [done|]. by apply not_elem_of_empty in H. }
  destruct (negb _); [done|]. by rewrite bool_decide_true.
Qed.

Lemma remove_loop_ok id ins m :
  Forall (fun i => is_to_key i = true) ins -> NoDup (map input_image ins) -> no_empty m ->
  (forall k, k ∈ map input_image ins -> id ∈ users m k) ->
  exists m', remove_loop id ins m = (true, m') /\ no_empty m'
    /\ forall k, users m' k = if decide (k ∈ map input_image ins) then users m k ∖ {[id]} else users m k.
Proof.
  revert m. induction ins as [|i ins IH]; intros m T ND NE H.
  { exists m. split; [done|]. split; [done|]. intros k. by rewrite decide_False by apply not_elem_of_nil. }
  apply Forall_cons in T as [Ti T]. destruct i as [| | |a o k]; try discriminate Ti. cbn [map input_image] in *.
  apply NoDup_cons in ND as [Hk ND]. pose proof (H k (list_elem_of_here _ _)) as Hid.
  set (s := users m k ∖ {[id]}). set (m1 := if bool_decide (s = ∅) then delete k m else <[k := s]> m).
  assert (no_empty m1) as NE1.
  { subst m1. case_bool_decide; [by apply no_empty_delete|by apply no_empty_insert]. }
  assert (forall j, users m1 j = if decide (j = k) then s else users m j) as U1.
  { intros j. subst m1. case_bool_decide as B; [rewrite users_delete, B|rewrite users_insert]; done. }
  destruct (IH m1 T ND NE1) as (m' & E & NE' & U).
  { intros j Hj. rewrite U1, decide_False by (intros ->; done). apply H. by right. }
  exists m'. split; [|split; [done|]].
  - cbn [remove_loop]. unfold users in Hid. subst s m1. unfold users in *. destruct (m !! k) as [s|] eqn:F; [|by apply not_elem_of_empty in Hid].
    change (default ∅ (Some s)) with s in *. rewrite bool_decide_false by (intros ->; by apply not_elem_of_empty in Hid).
    by rewrite bool_decide_true.
  - intros j. rewrite U, U1. destruct (decide (j = k)) as [->|N].
    + rewrite decide_False by done. by rewrite decide_True by left.
    + destruct (decide (j ∈ map input_image ins)) as [Hj|Hj].
      * by rewrite decide_True by (by right).
      * rewrite decide_False; [done|]. intros [->|?]%elem_of_cons; done.
Qed.

(** ** The order *)

Lemma txCompare_total a b : a.2 <> b.2 -> txCompare a b = false -> txCompare b a = true.
Proof.
  destruct a as [[ra ta] ia], b as [[rb tb] ib]. cbn. intros N.
  destruct (rb <? ra) eqn:A; [done|]. destruct (ra <? rb) eqn:B; [done|]. destruct (ta <? tb) eqn:C; [done|].
  destruct (tb <? ta) eqn:D; [done|]. by rewrite bool_decide_false.
Qed.

Lemma emplace_perm prev e l :
  (forall x, prev = Some x -> txCompare x e = true) -> (forall x, x ∈ l -> x.2 <> e.2) -> emplace prev e l ≡ₚ e :: l.
Proof.
  revert prev. induction l as [|x l IH]; intros prev Hp Hl; cbn [emplace].
  { destruct prev as [y|]; [by rewrite (Hp y)|done]. }
  destruct (txCompare e x) eqn:E.
  - destruct prev as [y|]; [by rewrite (Hp y)|done].
  - rewrite (IH (Some x)); [apply perm_swap| |intros; apply Hl; by right].
    intros y [= <-]. apply txCompare_total; [|done]. intros F. by apply (Hl x (list_elem_of_here _ _)).
Qed.

Lemma delete_ids (l : list (Z * Z * bytes)) n e : l !! n = Some e -> map snd l ≡ₚ e.2 :: map snd (delete n l).
Proof. intros E. by rewrite (delete_Permutation l n e E) at 1. Qed.

Lemma erase_sorted_ids id l ids : map snd l ≡ₚ id :: ids -> map snd (erase_sorted id l) ≡ₚ ids.
Proof.
  intros P. unfold erase_sorted, find_tx_in_sorted_container. destruct (list_find _ l) as [[n e]|] eqn:E.
  - apply list_find_Some in E as (E & <- & _). apply delete_ids in E. rewrite E in P. by apply Permutation_cons_inv in P.
  - apply list_find_None in E. assert (id ∈ map snd l) as H by (rewrite P; left).
    apply list_elem_of_fmap in H as (e & -> & H). rewrite Forall_forall in E. by destruct (E e H).
Qed.

(** ** The invariant *)

Section invariant.

Context `{HF : !FastHash}.

(** What the members hold for a list of transactions. *)
Definition spent_for (l : list pool_entry) (m : gmap bytes (gset bytes)) : Prop :=
  no_empty m /\ forall k id, id ∈ users m k <-> exists e, e ∈ l /\ e.1 = id /\ k ∈ images e.2.1.

Definition total (l : list pool_entry) : Z := foldr (fun e n => blob_size e.2.2 + n) 0 l.

(** check_tx_outputs refuses amounts in the clear. *)
Definition hidden (tx : built) : Prop := Forall (fun o => Transaction.amount o = 0) (Transaction.vout (b_prefix tx)).

(** A transaction under its identifier, with its size and its fee. *)
Definition entry_ok (e : pool_entry) : Prop :=
  e.1 = tx_id e.2.1 /\ wf_tx e.2.1 /\ blob_size e.2.2 = tx_size e.2.1 /\ fee e.2.2 = r_txnFee (b_rct e.2.1) /\ hidden e.2.1.

(** Of two transactions with a common image, one came with a block. *)
Definition apart (l : list pool_entry) : Prop :=
  forall a b k, a ∈ l -> b ∈ l -> k ∈ images a.2.1 -> k ∈ images b.2.1 ->
    kept_by_block a.2.2 = false -> kept_by_block b.2.2 = false -> a.1 = b.1.

(** What the tables, the images and the size have in common. *)
Record core_ok (p : pool) : Prop := {
  pool_entries : Forall entry_ok (map_to_list (p_txs p));
  pool_apart : apart (map_to_list (p_txs p));
  pool_spent : spent_for (map_to_list (p_txs p)) (p_spent p);
  pool_total : p_size p = u64 (total (map_to_list (p_txs p)))
}.

Definition sorted_ok (p : pool) : Prop := map snd (p_sorted p) ≡ₚ map fst (map_to_list (p_txs p)).

(** The invariant of the pool: every transaction is stored under its hash; the
    images are those of the transactions, each with the transactions that use it;
    the size is that of all transactions; no two transactions that were relayed
    use the same image; and the order has every transaction once. *)
Definition pool_ok (p : pool) : Prop := core_ok p /\ sorted_ok p.

Lemma spent_for_perm l l' m : l ≡ₚ l' -> spent_for l m -> spent_for l' m.
Proof. intros P [N U]. split; [done|]. intros k id. rewrite U. by setoid_rewrite P. Qed.

Lemma spent_for_nil : spent_for [] ∅.
Proof.
  split; [intros k; by rewrite lookup_empty|]. intros k id. unfold users. rewrite lookup_empty. cbn.
  split; [by intros ?%not_elem_of_empty|]. by intros (e & ?%not_elem_of_nil & _).
Qed.

Lemma spent_ext l m m' : spent_for l m -> spent_for l m' -> m = m'.
Proof. intros [N U] [N' U']. apply users_ext; [done..|]. intros k. apply set_eq. intros id. by rewrite U, U'. Qed.

Lemma total_perm l l' : l ≡ₚ l' -> total l = total l'.
Proof. unfold total. induction 1; cbn [foldr]; lia. Qed.

Lemma apart_perm l l' : l ≡ₚ l' -> apart l -> apart l'.
Proof. intros P A a b k Ha Hb. apply A; by rewrite P. Qed.

Lemma apart_sub l l' : (forall e, e ∈ l' -> e ∈ l) -> apart l -> apart l'.
Proof. intros S A a b k Ha Hb. apply A; auto. Qed.

(** Only the identifiers, the images and the sizes of entries matter. *)
Definition same_entry (a b : pool_entry) : Prop := a.1 = b.1 /\ images a.2.1 = images b.2.1 /\ blob_size a.2.2 = blob_size b.2.2.

Lemma same_entries_spent l l' k id :
  Forall2 same_entry l l' ->
  (exists e, e ∈ l /\ e.1 = id /\ k ∈ images e.2.1) -> exists e, e ∈ l' /\ e.1 = id /\ k ∈ images e.2.1.
Proof.
  intros F (e & He & <- & Hk). apply list_elem_of_lookup in He as (n & Hn).
  destruct (Forall2_lookup_l _ _ _ _ _ F Hn) as (e' & Hn' & Ei & Em & _). exists e'.
  split; [by eapply list_elem_of_lookup_2|]. by rewrite <- Ei, <- Em.
Qed.

Lemma spent_same l l' m : Forall2 same_entry l l' -> spent_for l m -> spent_for l' m.
Proof.
  intros F [N U]. split; [done|]. intros k id. rewrite U. split; apply same_entries_spent; [done|].
  apply Forall2_flip. eapply Forall2_impl; [exact F|]. intros a b (? & ? & ?). by split_and!.
Qed.

(** *** Adding and removing an entry *)

Lemma spent_unused l m id k : spent_for l m -> id ∉ map fst l -> id ∉ users m k.
Proof. intros [_ U] H Hu. apply U in Hu as (e & He & <- & _). apply H. apply list_elem_of_fmap. by exists e. Qed.

Lemma insert_images_ok l m id tx kept meta :
  spent_for l m -> wf_tx tx -> id ∉ map fst l ->
  (kept = false -> forall k, k ∈ images tx -> users m k = ∅) ->
  exists m', insert_loop id kept (Transaction.vin (b_prefix tx)) m = (true, m') /\ spent_for ((id, (tx, meta)) :: l) m'.
Proof.
  intros S W N U. destruct (insert_loop_ok id kept (Transaction.vin (b_prefix tx)) m) as (m' & E & NE & Us).
  - apply W.
  - apply W.
  - apply S.
  - intros k Hk. split; [by eapply spent_unused|]. intros Ek. by apply U.
  - exists m'. split; [done|]. split; [done|]. intros k j. rewrite Us. destruct S as [_ S]. setoid_rewrite elem_of_cons. fold (images tx).
    destruct (decide (k ∈ images tx)) as [Hk|Hk].
    + rewrite elem_of_union, elem_of_singleton, S. split.
      * intros [->|(e & He & Hj)]; [eexists; split; [by left|done]|exists e; split; [by right|done]].
      * intros (e & [->|He] & Ej & Hj); [by left|right; by exists e].
    + rewrite S. split.
      * intros (e & He & Hj). exists e; split; [by right|done].
      * intros (e & [->|He] & Ej & Hj); [done|by exists e].
Qed.

Lemma remove_images_ok l m id tx meta :
  spent_for ((id, (tx, meta)) :: l) m -> wf_tx tx -> id ∉ map fst l ->
  exists m', remove_loop id (Transaction.vin (b_prefix tx)) m = (true, m') /\ spent_for l m'.
Proof.
  intros [NE S] W N. destruct (remove_loop_ok id (Transaction.vin (b_prefix tx)) m) as (m' & E & NE' & Us).
  - apply W.
  - apply W.
  - done.
  - intros k Hk. apply S. eexists. split; [left|done].
  - exists m'. split; [done|]. split; [done|]. intros k j. rewrite Us. fold (images tx).
    assert (forall e, e ∈ l -> e.1 <> id) as Nid.
    { intros e He <-. apply N, list_elem_of_fmap. by exists e. }
    destruct (decide (k ∈ images tx)) as [Hk|Hk]; rewrite ?elem_of_difference, ?elem_of_singleton, S; setoid_rewrite elem_of_cons; split.
    + intros [(e & [->|He] & Ej & Hj) Nj]; [by destruct Nj|by exists e].
    + intros (e & He & <- & Hj). split; [exists e; by auto|by apply Nid].
    + intros (e & [->|He] & Ej & Hj); [done|by exists e].
    + intros (e & He & Hj). exists e. by auto.
Qed.

Lemma entry_in (txs : gmap bytes (built * txpool_tx_meta_t)) id x : txs !! id = Some x -> (id, x) ∈ map_to_list txs.
Proof. by rewrite elem_of_map_to_list. Qed.

Lemma entry_of p id tx meta : core_ok p -> p_txs p !! id = Some (tx, meta) -> entry_ok (id, (tx, meta)).
Proof. intros C E. pose proof (pool_entries p C) as F. rewrite Forall_forall in F. by apply F, entry_in. Qed.

Lemma not_in_deleted (txs : gmap bytes (built * txpool_tx_meta_t)) id : id ∉ map fst (map_to_list (delete id txs)).
Proof.
  intros H. apply list_elem_of_fmap in H as ([j x] & -> & H). apply elem_of_map_to_list in H. by rewrite lookup_delete_eq in H.
Qed.

Lemma wrap_sub_wrap a b : u64 (u64 a - b) = u64 (a - b).
Proof. unfold wrap. by rewrite Zminus_mod_idemp_l. Qed.

Lemma wrap_add_wrap a b : u64 (u64 a + b) = u64 (a + b).
Proof. unfold wrap. by rewrite Zplus_mod_idemp_l. Qed.

(** Removing a transaction removes its images, and only those. *)
Lemma remove_txpool_tx_ok p id tx meta size :
  core_ok p -> p_txs p !! id = Some (tx, meta) -> size = tx_size tx ->
  let p' := remove_txpool_tx id tx size p in
  core_ok p' /\ p_txs p' = delete id (p_txs p) /\ p_sorted p' = p_sorted p /\ p_timed_out p' = p_timed_out p
  /\ p_max_size p' = p_max_size p.
Proof.
  intros C E -> p'. destruct (entry_of p id tx meta C E) as (Ei & W & Es & _). cbn [fst snd] in Ei, W, Es.
  pose proof (map_to_list_delete _ _ _ E) as P. symmetry in P.
  destruct (remove_images_ok (map_to_list (delete id (p_txs p))) (p_spent p) id tx meta) as (m' & Em & S).
  { eapply spent_for_perm; [exact P|apply C]. }
  { done. }
  { apply not_in_deleted. }
  subst p'. unfold remove_txpool_tx, remove_transaction_keyimages. rewrite <- Ei. cbn [with_size with_pool_txs p_spent].
  rewrite Em. cbn [snd with_pool_spent p_txs p_sorted p_timed_out p_max_size]. split; [|done]. split; cbn [with_pool_spent with_size with_pool_txs p_txs p_spent p_size].
  - pose proof (pool_entries p C) as F. rewrite P in F. by apply Forall_cons in F as [_ F].
  - eapply apart_sub; [|apply C]. intros e He. rewrite P. by right.
  - done.
  - rewrite (pool_total p C), wrap_sub_wrap, (total_perm _ _ P). cbn [total foldr snd]. rewrite Es. f_equal. unfold total. lia.
Qed.

Lemma drop_tx_ok p id : core_ok p ->
  let p' := drop_tx id p in
  core_ok p' /\ p_txs p' = delete id (p_txs p) /\ p_sorted p' = p_sorted p /\ p_timed_out p' = p_timed_out p
  /\ p_max_size p' = p_max_size p.
Proof.
  intros C p'. subst p'. unfold drop_tx. destruct (p_txs p !! id) as [[tx meta]|] eqn:E.
  - by apply (remove_txpool_tx_ok p id tx meta).
  - by rewrite delete_id.
Qed.

(** Replacing the data of a transaction. *)
Lemma core_update p id tx m tx' m' :
  core_ok p -> p_txs p !! id = Some (tx, m) -> same_entry (id, (tx, m)) (id, (tx', m')) -> entry_ok (id, (tx', m')) ->
  (kept_by_block m' = false -> kept_by_block m = false) ->
  core_ok (with_pool_txs p (<[id := (tx', m')]> (p_txs p)))
  /\ map fst (map_to_list (<[id := (tx', m')]> (p_txs p))) ≡ₚ map fst (map_to_list (p_txs p)).
Proof.
  intros C E Sm Ok K. pose proof (map_to_list_delete _ _ _ E) as P. symmetry in P.
  assert (map_to_list (<[id := (tx', m')]> (p_txs p)) ≡ₚ (id, (tx', m')) :: map_to_list (delete id (p_txs p))) as P'.
  { rewrite <- insert_delete_eq. apply map_to_list_insert, lookup_delete_eq. }
  assert (Forall2 same_entry ((id, (tx, m)) :: map_to_list (delete id (p_txs p))) ((id, (tx', m')) :: map_to_list (delete id (p_txs p)))) as F.
  { constructor; [done|]. apply Forall_Forall2_diag, Forall_true. intros e. by split_and!. }
  split; [|by rewrite P, P'].
  split; cbn [with_pool_txs p_txs p_spent p_size].
  - rewrite P'. pose proof (pool_entries p C) as G. rewrite P in G. apply Forall_cons in G as [_ G]. by constructor.
  - eapply apart_perm; [symmetry; exact P'|]. pose proof (apart_perm _ _ P (pool_apart p C)) as A.
    destruct Sm as (_ & Im & _). cbn [fst snd] in Im.
    assert (forall e k, e ∈ (id, (tx', m')) :: map_to_list (delete id (p_txs p)) -> k ∈ images e.2.1 -> kept_by_block e.2.2 = false ->
      exists e', e' ∈ (id, (tx, m)) :: map_to_list (delete id (p_txs p)) /\ k ∈ images e'.2.1 /\ kept_by_block e'.2.2 = false /\ e'.1 = e.1)
      as T.
    { intros e k [->|He]%elem_of_cons Hk Ke.
      - exists (id, (tx, m)). cbn [fst snd] in *. rewrite Im. split; [left|]. auto.
      - exists e. split; [by right|done]. }
    intros a b k Ha Hb Ka Kb Na Nb. destruct (T a k Ha Ka Na) as (a' & Ha' & Ka' & Na' & <-).
    destruct (T b k Hb Kb Nb) as (b' & Hb' & Kb' & Nb' & <-). by apply (A a' b' k).
  - eapply spent_for_perm; [symmetry; exact P'|]. eapply spent_same; [exact F|]. eapply spent_for_perm; [exact P|apply C].
  - rewrite (pool_total p C), (total_perm _ _ P), (total_perm _ _ P'). cbn [total foldr snd]. destruct Sm as (_ & _ & Eb). cbn [snd] in Eb. by rewrite Eb.
Qed.

(** Data that says nothing about images and sizes. *)
Lemma meta_update p id tx m m' :
  pool_ok p -> p_txs p !! id = Some (tx, m) -> blob_size m' = blob_size m -> fee m' = fee m -> kept_by_block m' = kept_by_block m ->
  pool_ok (with_pool_txs p (<[id := (tx, m')]> (p_txs p))).
Proof.
  intros [C O] E B Fe K. destruct (entry_of p id tx m C E) as (Ei & W & Es & Ef & Hd).
  destruct (core_update p id tx m tx m' C E) as [C' P]; [by split_and!|split_and!; cbn [fst snd] in *; try congruence; done|congruence|].
  split; [done|]. unfold sorted_ok. cbn [with_pool_txs p_sorted p_txs]. by rewrite P.
Qed.

(** *** The operations *)

(** Removing a transaction and its place in the order. *)
Lemma remove_sorted_ok p id tx meta size l :
  pool_ok p -> p_txs p !! id = Some (tx, meta) -> size = tx_size tx -> map snd (p_sorted p) ≡ₚ id :: map snd l ->
  pool_ok (with_sorted (remove_txpool_tx id tx size p) l).
Proof.
  intros [C O] E Es P. destruct (remove_txpool_tx_ok p id tx meta size C E Es) as ([C1 C2 C3 C4] & T & _).
  split; [by split|]. unfold sorted_ok in *. cbn [with_sorted p_sorted p_txs]. rewrite T.
  rewrite P, <- (map_to_list_delete _ _ _ E) in O. cbn [map fst] in O. by apply Permutation_cons_inv in O.
Qed.

Lemma sorted_lookup p n e : pool_ok p -> p_sorted p !! n = Some e -> is_Some (p_txs p !! e.2).
Proof.
  intros [_ O] E. assert (e.2 ∈ map snd (p_sorted p)) as H.
  { apply list_elem_of_fmap. exists e. split; [done|by eapply list_elem_of_lookup_2]. }
  unfold sorted_ok in O. rewrite O in H. apply list_elem_of_fmap in H as ([id x] & Ei & H). apply elem_of_map_to_list in H. rewrite Ei. by exists x.
Qed.

Lemma take_tx_ok id p r p' : pool_ok p -> take_tx id p = (r, p') -> pool_ok p'.
Proof.
  intros Ok E. unfold take_tx in E. destruct (find_tx_in_sorted_container id (p_sorted p)) as [[n e]|] eqn:F; [|by simplify_eq].
  destruct (p_txs p !! id) as [[tx meta]|] eqn:Ei; [|by simplify_eq]. injection E as <- <-.
  pose proof (entry_of p id tx meta (proj1 Ok) Ei) as (_ & _ & Es & _).
  destruct (remove_txpool_tx_ok p id tx meta (blob_size meta) (proj1 Ok) Ei Es) as (_ & _ & -> & _).
  apply (remove_sorted_ok p id tx meta); [done..|]. apply list_find_Some in F as (F & <- & _). by apply delete_ids.
Qed.

Lemma prune_loop_ok limit n p : pool_ok p -> pool_ok (prune_loop limit n p).
Proof.
  revert p. induction n as [|n IH]; intros p Ok; cbn [prune_loop]; [done|]. destruct (p_size p <=? limit); [done|].
  destruct (p_sorted p !! S n) as [[k id]|] eqn:F; [|done]. destruct (p_txs p !! id) as [[tx meta]|] eqn:Ei; [|done].
  destruct (kept_by_block meta); [by apply IH|]. apply IH.
  destruct (remove_txpool_tx_ok p id tx meta (tx_size tx) (proj1 Ok) Ei eq_refl) as (_ & _ & -> & _).
  apply (remove_sorted_ok p id tx meta); [done..|]. by apply delete_ids in F.
Qed.

Lemma mark_ok id p : pool_ok p -> pool_ok (with_pool_txs p (mark id (p_txs p))).
Proof.
  intros Ok. unfold mark. destruct (p_txs p !! id) as [[tx meta]|] eqn:E; [|by destruct p].
  destruct (double_spend_seen meta); [by destruct p|]. by apply (meta_update p id tx meta).
Qed.

Lemma marks_ok l p : pool_ok p -> pool_ok (with_pool_txs p (foldr mark (p_txs p) l)).
Proof.
  intros Ok. induction l as [|id l IH]; [by destruct p|].
  exact (mark_ok id (with_pool_txs p (foldr mark (p_txs p) l)) IH).
Qed.

Lemma mark_loop_ok m ins p : pool_ok p -> pool_ok (with_pool_txs p (mark_loop m ins (p_txs p))).
Proof.
  revert p. induction ins as [|i ins IH]; intros p Ok; [by destruct p|]. destruct i as [| | |a o k]; try (by destruct p).
  exact (IH (with_pool_txs p (foldr mark (p_txs p) (elements (default ∅ (m !! k))))) (marks_ok _ p Ok)).
Qed.

Lemma spent_any p tx : wf_tx tx -> have_tx_keyimges_as_spent p tx = false ->
  forall k, k ∈ images tx -> users (p_spent p) k = ∅.
Proof.
  intros [T _ _]. unfold have_tx_keyimges_as_spent, images. induction T as [|i ins Ti T IH]; intros E k Hk.
  { by apply not_elem_of_nil in Hk. }
  destruct i as [| | |a o j]; try discriminate Ti. cbn [any_spent] in E. destruct (have_tx_keyimg_as_spent p j) eqn:Ej; [done|].
  cbn [map input_image] in Hk. apply elem_of_cons in Hk as [->|Hk]; [|by apply IH].
  apply bool_decide_eq_false in Ej. unfold users. destruct (p_spent p !! j); [|done]. by destruct Ej.
Qed.

Lemma insert_tx_delete tx id meta p :
  insert_tx tx id meta (with_pool_txs p (delete (tx_id tx) (p_txs p))) = insert_tx tx id meta p.
Proof. unfold insert_tx. cbn [with_pool_txs p_txs]. by rewrite insert_delete_eq. Qed.

(** A new transaction. *)
Lemma insert_tx_new p tx meta :
  pool_ok p -> p_txs p !! tx_id tx = None -> wf_tx tx -> blob_size meta = tx_size tx -> fee meta = r_txnFee (b_rct tx) -> hidden tx ->
  (kept_by_block meta = false -> forall k, k ∈ images tx -> users (p_spent p) k = ∅) ->
  exists p', insert_tx tx (tx_id tx) meta p = (true, p')
    /\ p_txs p' = <[tx_id tx := (tx, meta)]> (p_txs p) /\ p_max_size p' = p_max_size p
    /\ pool_ok (with_size p' (u64 (p_size p' + tx_size tx))).
Proof.
  intros [C O] N W B Fe Hd U. pose proof (map_to_list_insert (p_txs p) (tx_id tx) (tx, meta) N) as P.
  assert (tx_id tx ∉ map fst (map_to_list (p_txs p))) as Ni.
  { intros H. apply list_elem_of_fmap in H as ([j x] & Ej & H). apply elem_of_map_to_list in H. cbn in Ej. subst j. by rewrite N in H. }
  destruct (insert_images_ok (map_to_list (p_txs p)) (p_spent p) (tx_id tx) tx (kept_by_block meta) meta (pool_spent p C) W Ni U) as (m' & E & S).
  eexists. unfold insert_tx, insert_key_images. cbn [with_pool_txs p_spent]. rewrite E. split; [reflexivity|].
  split; [done|]. split; [done|]. split; [split|]; cbn [with_size with_sorted with_pool_spent with_pool_txs p_txs p_spent p_size p_sorted].
  - rewrite P. constructor; [by split_and!|apply C].
  - eapply apart_perm; [symmetry; exact P|]. intros a b k Ha Hb Ka Kb Na Nb.
    assert (forall e, e ∈ map_to_list (p_txs p) -> k ∈ images e.2.1 -> k ∈ images tx -> kept_by_block meta = false -> False) as Fr.
    { intros e He Ke Kt Nm. pose proof (U Nm k Kt) as Uk. assert (e.1 ∈ users (p_spent p) k) as H by (apply (pool_spent p C); by exists e).
      rewrite Uk in H. by apply not_elem_of_empty in H. }
    apply elem_of_cons in Ha as [->|Ha]; apply elem_of_cons in Hb as [->|Hb]; [done|by destruct (Fr b)|by destruct (Fr a)|].
    by apply (pool_apart p C a b k).
  - eapply spent_for_perm; [symmetry; exact P|exact S].
  - rewrite (pool_total p C), wrap_add_wrap, (total_perm _ _ P). cbn [total foldr snd]. rewrite B. f_equal. unfold total. lia.
  - unfold sorted_ok in *. cbn [with_size with_sorted with_pool_spent with_pool_txs p_txs p_sorted].
    rewrite P, emplace_perm; [cbn [map snd fst]; by rewrite O|done|]. cbn [snd]. intros x Hx F. apply Ni. rewrite <- O, <- F.
    apply list_elem_of_fmap. by exists x.
Qed.

(** A transaction that is there already is replaced. *)
Lemma insert_tx_again p tx tx0 meta m0 :
  pool_ok p -> p_txs p !! tx_id tx = Some (tx0, m0) -> images tx0 = images tx -> tx_size tx0 = tx_size tx ->
  wf_tx tx -> blob_size meta = tx_size tx -> fee meta = r_txnFee (b_rct tx) -> hidden tx -> kept_by_block meta = true ->
  exists p', insert_tx tx (tx_id tx) meta p = (false, p') /\ pool_ok p' /\ p_txs p' = <[tx_id tx := (tx, meta)]> (p_txs p).
Proof.
  intros [C O] E I Sz W B Fe Hd K. destruct (entry_of p _ _ _ C E) as (_ & _ & Es & _). cbn [fst snd] in Es.
  destruct (core_update p (tx_id tx) tx0 m0 tx meta C E) as [C' P]; [split_and!; cbn [fst snd]; congruence|by split_and!|congruence|].
  eexists. split; [|split; [split; [exact C'|]|reflexivity]].
  - unfold insert_tx, insert_key_images. cbn [with_pool_txs p_spent].
    rewrite insert_loop_again; [by destruct p|apply W|apply W|]. intros k Hk. apply (pool_spent p C).
    exists (tx_id tx, (tx0, m0)). split; [by apply entry_in|]. cbn [fst snd]. by rewrite I.
  - unfold sorted_ok. cbn [with_pool_txs p_sorted p_txs]. by rewrite P.
Qed.

(** A transaction with the identifier of one in the pool is the same one. *)
Definition known (p : pool) (tx : built) : Prop :=
  forall tx' m, p_txs p !! tx_id tx = Some (tx', m) -> images tx' = images tx /\ tx_size tx' = tx_size tx.

(** What add_tx does after its checks. *)
Lemma insert_tx_cases p tx meta :
  pool_ok p -> wf_tx tx -> known p tx -> blob_size meta = tx_size tx -> fee meta = r_txnFee (b_rct tx) -> hidden tx ->
  (kept_by_block meta = false -> have_tx_keyimges_as_spent p tx = false) ->
  exists ok p', insert_tx tx (tx_id tx) meta p = (ok, p') /\ p_txs p' = <[tx_id tx := (tx, meta)]> (p_txs p)
    /\ (if ok then pool_ok (with_size p' (u64 (p_size p' + tx_size tx))) /\ p_max_size p' = p_max_size p
        else pool_ok p' /\ kept_by_block meta = true)
    /\ (p_txs p !! tx_id tx = None -> ok = true).
Proof.
  intros Ok W Kn B Fe Hd U. assert (kept_by_block meta = false -> forall k, k ∈ images tx -> users (p_spent p) k = ∅) as Us.
  { intros K. by apply spent_any, U. }
  destruct (p_txs p !! tx_id tx) as [[tx0 m0]|] eqn:E.
  - destruct (Kn tx0 m0 E) as [I Sz]. assert (kept_by_block meta = true) as K.
    { destruct (kept_by_block meta); [done|]. destruct W as [_ N _]. rewrite <- I in N.
      destruct (images tx0) as [|k l] eqn:Ei; [done|]. pose proof (Us eq_refl k) as Uk. rewrite <- I in Uk.
      assert (tx_id tx ∈ users (p_spent p) k) as H.
      { apply (pool_spent p (proj1 Ok)). exists (tx_id tx, (tx0, m0)). split; [by apply entry_in|]. cbn [fst snd]. rewrite Ei. split; [done|left]. }
      rewrite Uk in H by left. by apply not_elem_of_empty in H. }
    destruct (insert_tx_again p tx tx0 meta m0 Ok E I Sz W B Fe Hd K) as (p' & -> & Ok' & T). by exists false, p'.
  - destruct (insert_tx_new p tx meta Ok E W B Fe Hd Us) as (p' & -> & T & M & Ok'). by exists true, p'.
Qed.

Lemma outputs_hidden c tx u : check_tx_outputs c tx = accept u -> hidden tx.
Proof.
  unfold check_tx_outputs. cbv zeta. intros E. vinv E x E1. apply require_inv in E1. apply Forall_forall. intros o Ho.
  rewrite forallb_forall in E1. apply Z.eqb_eq, E1. by apply list_elem_of_In.
Qed.

(** How add_tx ends. *)
Lemma add_tx_cases v t t' tx kept rel no p r p' :
  pool_ok p -> wf_tx tx -> known p tx -> add_tx v t t' tx (tx_id tx) (tx_size tx) kept rel no p = ret (r, p') ->
  p' = p \/ p' = mark_double_spend tx p
  \/ exists meta (ok : bool) p1, p_txs p1 = <[tx_id tx := (tx, meta)]> (p_txs p)
       /\ (if ok then pool_ok (with_size p1 (u64 (p_size p1 + tx_size tx))) /\ p' = prune (p_max_size p1) (with_size p1 (u64 (p_size p1 + tx_size tx)))
           else pool_ok p1 /\ p' = p1).
Proof.
  intros Ok W Kn E. unfold add_tx in E. destruct (Transaction.version (b_prefix tx) =? 0); [injection E as <- <-; auto|].
  destruct (negb kept && _); [injection E as <- <-; auto|]. destruct (negb (check_inputs_types_supported _)); [injection E as <- <-; auto|].
  rinv E fok E1. destruct (negb fok); [injection E as <- <-; auto|]. destruct (negb kept && _); [injection E as <- <-; auto|].
  destruct (negb kept && have_tx_keyimges_as_spent p tx) eqn:D; [injection E as <- <-; auto|].
  rinv E out E2. destruct out as [|u]; [injection E as <- <-; auto|]. apply outputs_hidden in E2 as Hd. rinv E inp E3. cbv zeta in E.
  assert (forall meta a, blob_size meta = tx_size tx -> fee meta = r_txnFee (b_rct tx) -> kept_by_block meta = kept ->
    (let '(ok, p0) := insert_tx tx (tx_id tx) meta p in
     if ok then ret (inr (A := pool_failure) a, prune (p_max_size p0) (with_size p0 (u64 (p_size p0 + tx_size tx))))
     else ret (inl already_exists, p0)) = ret (r, p') ->
    exists meta (ok : bool) p1, p_txs p1 = <[tx_id tx := (tx, meta)]> (p_txs p)
       /\ (if ok then pool_ok (with_size p1 (u64 (p_size p1 + tx_size tx))) /\ p' = prune (p_max_size p1) (with_size p1 (u64 (p_size p1 + tx_size tx)))
           else pool_ok p1 /\ p' = p1)) as Fin.
  { intros meta a B Fe K F. destruct (insert_tx_cases p tx meta Ok W Kn B Fe Hd) as (ok & p1 & I & T & Ok' & _).
    { intros K'. rewrite K in K'. subst kept. by rewrite K' in D. }
    rewrite I in F. exists meta, ok, p1. split; [done|]. destruct ok; injection F as <- <-; (split; [apply Ok'|done]). }
  destruct inp as [[h b]|].
  - right. right. rewrite insert_tx_delete in E. eapply Fin; [..|exact E]; done.
  - destruct kept eqn:K; [right; right; eapply Fin; [..|exact E]; done|]. injection E as <- <-. auto.
Qed.

Lemma add_tx_ok v t t' tx kept rel no p r p' :
  pool_ok p -> wf_tx tx -> known p tx -> add_tx v t t' tx (tx_id tx) (tx_size tx) kept rel no p = ret (r, p') -> pool_ok p'.
Proof.
  intros Ok W Kn E. destruct (add_tx_cases _ _ _ _ _ _ _ _ _ _ Ok W Kn E) as [->|[->|(meta & ok & p1 & T & H)]]; [done|by apply mark_loop_ok|].
  destruct ok; destruct H as [Ok1 ->]; [by apply prune_loop_ok|done].
Qed.

Lemma foldl_forget l p :
  let p' := foldl (fun p id => forget id p) p l in
  p_txs p' = p_txs p /\ p_spent p' = p_spent p /\ p_size p' = p_size p /\ p_max_size p' = p_max_size p
  /\ forall ids, map snd (p_sorted p) ≡ₚ l ++ ids -> map snd (p_sorted p') ≡ₚ ids.
Proof.
  revert p. induction l as [|id l IH]; intros p; [done|]. cbn [foldl]. destruct (IH (forget id p)) as (-> & -> & -> & -> & P).
  split_and!; try done. intros ids H. apply P. cbn [forget with_timed_out with_sorted p_sorted]. by apply erase_sorted_ids.
Qed.

Lemma foldl_drop l p : core_ok p ->
  let p' := foldl (fun p id => drop_tx id p) p l in
  core_ok p' /\ p_txs p' = foldl (fun m id => delete id m) (p_txs p) l /\ p_sorted p' = p_sorted p.
Proof.
  revert p. induction l as [|id l IH]; intros p C; [done|]. cbn [foldl]. destruct (drop_tx_ok p id C) as (C' & T & O & _).
  destruct (IH (drop_tx id p) C') as (C'' & -> & ->). split; [done|]. by rewrite T, O.
Qed.

(** The entries a removal keeps, and the removed ones, in any order. *)
Lemma deleted_entries (txs : gmap bytes (built * txpool_tx_meta_t)) rest rem :
  map_to_list txs ≡ₚ rem ++ rest -> map_to_list (foldl (fun m id => delete id m) txs (map fst rem)) ≡ₚ rest.
Proof.
  revert txs. induction rem as [|[id x] rem IH]; intros txs P; [done|]. cbn [map foldl]. apply IH. cbn [fst].
  assert (txs !! id = Some x) as E.
  { apply elem_of_map_to_list. rewrite P. left. }
  rewrite <- (map_to_list_delete _ _ _ E) in P. by apply Permutation_cons_inv in P.
Qed.

Lemma entries_split (P : pool_entry -> Prop) `{forall e, Decision (P e)} txs :
  map_to_list txs ≡ₚ filter P (for_all_txpool_txes txs) ++ filter (fun e => ~ P e) (for_all_txpool_txes txs).
Proof. rewrite filter_app_complement. symmetry. apply merge_sort_Permutation. Qed.

Lemma remove_stuck_ok time p : pool_ok p -> pool_ok (remove_stuck_transactions time p).
Proof.
  intros [C O]. unfold remove_stuck_transactions.
  pose proof (entries_split (fun e => outdated time e.2.2 = true) (p_txs p)) as S. cbv zeta.
  set (rem := filter (fun e => outdated time e.2.2 = true) _) in *. set (rest := filter (fun e => ~ _) _) in *.
  destruct (foldl_forget (map fst rem) p) as (T & Sp & Sz & _ & Fo). set (p1 := foldl _ p _) in *.
  assert (core_ok p1) as C1 by (destruct C as [C1 C2 C3 C4]; split; rewrite ?T, ?Sp, ?Sz; done).
  destruct (foldl_drop (map fst rem) p1 C1) as (C2 & T2 & O2). split; [done|].
  unfold sorted_ok in *. rewrite O2, T2, T, (deleted_entries _ rest rem S). apply Fo. by rewrite O, S, map_app.
Qed.

Lemma foldl_validate l p rest : core_ok p ->
  map_to_list (p_txs p) ≡ₚ l ++ rest -> map snd (p_sorted p) ≡ₚ map fst l ++ map fst rest ->
  pool_ok (foldl (fun p id => let p := drop_tx id p in with_sorted p (erase_sorted id (p_sorted p))) p (map fst l)).
Proof.
  revert p. induction l as [|[id x] l IH]; intros p C P O; cbn [map foldl fst].
  { split; [done|]. unfold sorted_ok. by rewrite O, P. }
  destruct (drop_tx_ok p id C) as (C' & T & S & _). apply IH; cbn [with_sorted p_txs p_sorted].
  - by destruct C'.
  - rewrite T. assert (p_txs p !! id = Some x) as E by (apply elem_of_map_to_list; rewrite P; left).
    rewrite <- (map_to_list_delete _ _ _ E) in P. by apply Permutation_cons_inv in P.
  - rewrite S. by apply erase_sorted_ids.
Qed.

Lemma total_foldl l n : foldl (fun n (e : pool_entry) => u64 (n + blob_size e.2.2)) (u64 n) l = u64 (n + total l).
Proof.
  revert n. induction l as [|e l IH]; intros n; cbn [foldl total foldr]; [by rewrite Z.add_0_r|].
  rewrite wrap_add_wrap, IH. unfold total. f_equal. lia.
Qed.

Lemma validate_ok v p n p' : pool_ok p -> validate v p = (n, p') -> pool_ok p'.
Proof.
  intros [C O] E. unfold validate in E. injection E as _ <-.
  pose proof (entries_split (fun e => ((TRANSACTION_SIZE_LIMIT <? blob_size e.2.2) || v_have_tx v e.1) = true) (p_txs p)) as S. eapply foldl_validate; cbn [with_size p_txs p_sorted].
  - destruct C as [C1 C2 C3 C4]. split; cbn [with_size p_txs p_spent p_size]; try done.
    change 0 with (u64 0) at 1. rewrite total_foldl, Z.add_0_l. f_equal. apply total_perm, merge_sort_Permutation.
  - exact S.
  - unfold sorted_ok in O. rewrite O, S, map_app. done.
Qed.

Lemma set_relayed_ok time ids p : pool_ok p -> pool_ok (set_relayed time ids p).
Proof.
  unfold set_relayed. revert p. induction ids as [|id ids IH]; intros p Ok; [done|]. cbn [foldl]. apply IH.
  destruct (p_txs p !! id) as [[tx m]|] eqn:E; [|done]. by apply (meta_update p id tx m).
Qed.

(** ** Pruning *)

(** The transactions after the position came with a block. *)
Definition kept_after (n : nat) (p : pool) : Prop :=
  forall j e, (n < j)%nat -> p_sorted p !! j = Some e -> exists tx m, p_txs p !! e.2 = Some (tx, m) /\ kept_by_block m = true.

(** What a pool has lost of another: transactions that did not come with a block. *)
Definition pruned (p p' : pool) : Prop :=
  forall id, p_txs p' !! id = p_txs p !! id
    \/ p_txs p' !! id = None /\ exists tx m, p_txs p !! id = Some (tx, m) /\ kept_by_block m = false.

Lemma kept_after_remove n p id k tx meta :
  pool_ok p -> kept_after (S n) p -> p_sorted p !! S n = Some (k, id) -> p_txs p !! id = Some (tx, meta) -> kept_by_block meta = false ->
  kept_after n (with_sorted (remove_txpool_tx id tx (tx_size tx) p) (delete (S n) (p_sorted p))).
Proof.
  intros Ok Ka F E K j e Hj Ej. destruct (remove_txpool_tx_ok p id tx meta (tx_size tx) (proj1 Ok) E eq_refl) as (_ & T & _).
  cbn [with_sorted p_sorted p_txs] in *. rewrite list_lookup_delete_ge in Ej by lia.
  destruct (Ka (S j) e ltac:(lia) Ej) as (tx' & m & L & K'). exists tx', m. split; [|done].
  rewrite T, lookup_delete_ne; [done|]. intros ->. congruence.
Qed.

Lemma prune_loop_spec limit n p :
  pool_ok p -> (n = 0 \/ n < length (p_sorted p))%nat -> kept_after n p ->
  let p' := prune_loop limit n p in (p_size p' <= limit \/ kept_after 0 p') /\ pruned p p'.
Proof.
  revert p. cbv zeta. induction n as [|n IH]; intros p Ok Ln Ka; cbn [prune_loop]; [split; [by right|by left]|].
  destruct (p_size p <=? limit) eqn:L; [apply Z.leb_le in L; split; [by left|by left]|].
  destruct (p_sorted p !! S n) as [[k id]|] eqn:F; [|apply lookup_ge_None in F; lia].
  destruct (sorted_lookup p _ _ Ok F) as [[tx meta] E]. cbn [snd] in E. rewrite E. destruct (kept_by_block meta) eqn:K.
  - apply IH; [done|lia|]. intros j e Hj Ej. destruct (decide (j = S n)) as [->|]; [|apply (Ka j); [lia|done]].
    rewrite F in Ej. injection Ej as <-. by exists tx, meta.
  - destruct (remove_txpool_tx_ok p id tx meta (tx_size tx) (proj1 Ok) E eq_refl) as (_ & T & -> & _).
    destruct (IH (with_sorted (remove_txpool_tx id tx (tx_size tx) p) (delete (S n) (p_sorted p)))) as [S P].
    + apply (remove_sorted_ok p id tx meta); [done..|]. by apply delete_ids in F.
    + cbn [with_sorted p_sorted]. rewrite length_delete by done. lia.
    + by apply (kept_after_remove n p id k tx meta).
    + split; [exact S|]. intros j. specialize (P j). cbn [with_sorted p_txs] in P. rewrite T in P.
      destruct (decide (j = id)) as [->|N]; [|by rewrite lookup_delete_ne in P].
      rewrite lookup_delete_eq in P. right. split; [by destruct P as [P|[P _]]|by exists tx, meta].
Qed.

Lemma prune_pruned limit p : pool_ok p -> pruned p (prune limit p).
Proof.
  intros Ok. apply prune_loop_spec; [done|lia|]. intros j e Hj E. apply lookup_lt_Some in E. lia.
Qed.

Lemma mark_keys id txs j : is_Some (mark id txs !! j) -> is_Some (txs !! j).
Proof.
  unfold mark. destruct (txs !! id) as [[tx m]|] eqn:E; [|done]. destruct (double_spend_seen m); [done|].
  destruct (decide (j = id)) as [->|]; [by rewrite E|by rewrite lookup_insert_ne].
Qed.

Lemma mark_loop_keys m ins txs j : is_Some (mark_loop m ins txs !! j) -> is_Some (txs !! j).
Proof.
  revert txs. induction ins as [|[] ins IH]; intros txs; cbn [mark_loop]; try done. intros H%IH. revert H.
  induction (elements _) as [|x l IHl]; [done|]. cbn [foldr]. intros H%mark_keys. auto.
Qed.

(** Adding a transaction adds no other. *)
Lemma add_tx_ids v t t' tx kept rel no p r p' j :
  pool_ok p -> wf_tx tx -> known p tx -> add_tx v t t' tx (tx_id tx) (tx_size tx) kept rel no p = ret (r, p') ->
  is_Some (p_txs p' !! j) -> is_Some (p_txs p !! j) \/ j = tx_id tx.
Proof.
  intros Ok W Kn E H. destruct (add_tx_cases _ _ _ _ _ _ _ _ _ _ Ok W Kn E) as [->|[->|(meta & ok & p1 & T & F)]]; [by left| |].
  - left. by apply mark_loop_keys in H.
  - assert (is_Some (p_txs p1 !! j)) as H1.
    { destruct ok; destruct F as [Ok1 ->]; [|done]. destruct (prune_pruned (p_max_size p1) _ Ok1 j) as [F|[F _]]; rewrite F in H; [done|by destruct H]. }
    rewrite T in H1. destruct (decide (j = tx_id tx)) as [->|]; [by right|]. left. by rewrite lookup_insert_ne in H1.
Qed.

(** What take_tx gives. *)
Lemma take_tx_some id p tx s f a b c p' :
  pool_ok p -> take_tx id p = (Some (tx, s, f, a, b, c), p') ->
  id = tx_id tx /\ s = tx_size tx /\ f = r_txnFee (b_rct tx) /\ wf_tx tx /\ hidden tx
  /\ (exists m, p_txs p !! id = Some (tx, m)) /\ p_txs p' = delete id (p_txs p) /\ pool_ok p'.
Proof.
  intros Ok E. pose proof (take_tx_ok id p _ _ Ok E) as Ok'. unfold take_tx in E.
  destruct (find_tx_in_sorted_container id (p_sorted p)) as [[n e]|] eqn:F; [|discriminate].
  destruct (p_txs p !! id) as [[tx0 meta]|] eqn:Ei; [|discriminate]. injection E as -> <- <- _ _ _ <-.
  destruct (entry_of p id tx meta (proj1 Ok) Ei) as (E1 & W & Es & Ef & Hd). cbn [fst snd] in *.
  destruct (remove_txpool_tx_ok p id tx meta (blob_size meta) (proj1 Ok) Ei Es) as (_ & T & _). split_and!; try done. by exists meta.
Qed.

(** ** Block templates *)

Lemma ready_sound v meta tx ready meta' :
  is_transaction_ready_to_go v meta tx = ret (ready, meta') ->
  (blob_size meta' = blob_size meta /\ fee meta' = fee meta /\ kept_by_block meta' = kept_by_block meta)
  /\ (ready = true -> (exists rv pmax, check_tx_inputs (v_chain v) tx true = accept (rv, pmax))
       /\ any_spent (TxAccept.have_tx_keyimg_as_spent (v_chain v)) (Transaction.vin (b_prefix tx)) = false).
Proof.
  unfold is_transaction_ready_to_go. cbv zeta. intros E. match type of E with (if ?b then _ else _) = _ => destruct b end; [by simplify_eq|].
  rinv E x E1. destruct x as [[h b]|]; [|by simplify_eq]. destruct (any_spent _ _) eqn:Sp; [by simplify_eq|].
  injection E as <- <-. split; [done|]. intros _. split; [|done]. unfold check_inputs in E1. rinv E1 y E2.
  destruct y as [f|[rv pmax]]; [discriminate|]. by exists rv, pmax.
Qed.




Section filled.

Context (v : view) (median_size coins height : Z) (p0 : pool).
Hypothesis median_low : 300 <= median_size.
Hypothesis median_high : 200 * median_size < 2 ^ 64.
Hypothesis sizes : forall id tx m, p_txs p0 !! id = Some (tx, m) -> tx_size tx < 2 ^ 62.











End filled.

(** ** Starting *)

(** The members hold the entries read so far. *)
Record loaded (l : list pool_entry) (p : pool) : Prop := {
  loaded_spent : spent_for l (p_spent p);
  loaded_sorted : map snd (p_sorted p) ≡ₚ map fst l;
  loaded_size : p_size p = u64 (total l)
}.

Lemma total_snoc l (e : pool_entry) : total (l ++ [e]) = total l + blob_size e.2.2.
Proof. unfold total. induction l as [|x l IH]; cbn [foldr app]; lia. Qed.

Lemma load_one l p id tx meta :
  loaded l p -> entry_ok (id, (tx, meta)) -> id ∉ map fst l ->
  (kept_by_block meta = false -> forall k, k ∈ images tx -> users (p_spent p) k = ∅) ->
  exists m', insert_loop (tx_id tx) (kept_by_block meta) (Transaction.vin (b_prefix tx)) (p_spent p) = (true, m')
    /\ loaded (l ++ [(id, (tx, meta))])
         (Pool (p_txs p) m' (emplace None (fee_per_byte (fee meta) (blob_size meta), receive_time meta, id) (p_sorted p))
            (u64 (p_size p + blob_size meta)) (p_max_size p) (p_timed_out p)).
Proof.
  intros [S O Z] (Ei & W & _) N U. cbn [fst snd] in Ei, W. rewrite <- Ei.
  destruct (insert_images_ok l (p_spent p) id tx (kept_by_block meta) meta S W N U) as (m' & E & S'). exists m'. split; [done|].
  split; cbn [p_spent p_sorted p_size].
  - eapply spent_for_perm; [|exact S']. apply Permutation_cons_append.
  - rewrite emplace_perm, map_app; [cbn [map fst snd]; rewrite O; apply Permutation_cons_append|done|].
    cbn [snd]. intros x Hx F. apply N. rewrite <- O, <- F. apply list_elem_of_fmap. by exists x.
  - rewrite total_snoc, Z, wrap_add_wrap. done.
Qed.

Definition from_pass (kept : bool) (e : pool_entry) : Prop := kept_by_block e.2.2 = kept.

#[local] Instance from_pass_dec kept e : Decision (from_pass kept e).
Proof. unfold from_pass. apply _. Defined.

Lemma init_pass_ok kept l acc p :
  loaded acc p -> Forall entry_ok l -> NoDup (map fst (acc ++ filter (from_pass kept) l)) -> apart (acc ++ l) ->
  (kept = false -> Forall (from_pass false) acc) ->
  exists p', init_pass kept l p = (true, p') /\ loaded (acc ++ filter (from_pass kept) l) p' /\ p_txs p' = p_txs p
    /\ p_max_size p' = p_max_size p.
Proof.
  revert acc p. induction l as [|[id [tx meta]] l IH]; intros acc p L F ND A K.
  { exists p. rewrite app_nil_r. done. }
  apply Forall_cons in F as [Fe F]. cbn [init_pass]. rewrite filter_cons in ND |- *.
  destruct (decide (from_pass kept (id, (tx, meta)))) as [E|E]; unfold from_pass in E; cbn [snd] in E.
  2:{ replace (eqb kept (kept_by_block meta)) with false by (symmetry; apply eqb_false_iff; congruence). cbn [negb].
      apply IH; try done. eapply apart_sub; [|exact A]. intros e He. rewrite elem_of_app, elem_of_cons in *. tauto. }
  rewrite E, eqb_reflx. cbn [negb]. unfold insert_key_images. rewrite map_app in ND. cbn [map fst] in ND.
  assert (id ∉ map fst acc) as N.
  { apply NoDup_app in ND as (_ & N & _). intros H. apply (N id H). left. }
  destruct (load_one acc p id tx meta L Fe N) as (m' & Em & L').
  { intros Km k Hk. subst kept. rewrite Km in K. specialize (K eq_refl). rewrite Forall_forall in K. apply set_eq. intros j.
    split; [|by intros ?%not_elem_of_empty]. intros Hj. apply (loaded_spent _ _ L) in Hj as (e & He & Ej & Hke).
    destruct N. apply list_elem_of_fmap. exists e. split; [|done]. symmetry.
    apply (A e (id, (tx, meta)) k); [apply elem_of_app; by left|apply elem_of_app; right; left|done..|by apply K|done]. }
  rewrite <- E, Em. cbn [with_pool_spent with_sorted with_size p_sorted p_size]. rewrite E.
  edestruct (IH (acc ++ [(id, (tx, meta))])) as (p' & Ep & L2 & T & M); [exact L'|done|..].
  - rewrite <- app_assoc, map_app. done.
  - by rewrite <- app_assoc.
  - intros Kf. apply Forall_app. split; [by apply K|]. constructor; [|constructor]. unfold from_pass. cbn [snd]. congruence.
  - exists p'. rewrite <- app_assoc in L2. done.
Qed.

(** ** Theorems *)

(** The operations on a pool; a transaction is added with its own hash and size,
    after check_tx_semantic. *)
Inductive pool_step : pool -> pool -> Prop :=
  | step_add v t t' tx kept rel no p r p' :
      wf_tx tx -> known p tx -> add_tx v t t' tx (tx_id tx) (tx_size tx) kept rel no p = ret (r, p') -> pool_step p p'
  | step_take id p r p' : take_tx id p = (r, p') -> pool_step p p'
  | step_prune limit p : p_sorted p <> [] -> pool_step p (prune limit p)
  | step_stuck time p : pool_step p (remove_stuck_transactions time p)
  | step_validate v p n p' : validate v p = (n, p') -> pool_step p p'
  | step_relayed time ids p : pool_step p (set_relayed time ids p)
  | step_template v median coins height p t p' : fill_block_template v median coins height p = ret (t, p') -> pool_step p p'
  | step_init n p p' : init n p = (true, p') -> pool_step p p'.

Definition empty_pool (max : Z) : pool := Pool ∅ ∅ [] 0 max ∅.

Lemma empty_pool_ok max : pool_ok (empty_pool max).
Proof.
  split; [split|]; cbn [empty_pool p_txs p_spent p_size]; rewrite ?map_to_list_empty; try done.
  - intros a b k Ha. by apply not_elem_of_nil in Ha.
  - apply spent_for_nil.
  - unfold sorted_ok. cbn [empty_pool p_txs p_sorted]. by rewrite map_to_list_empty.
Qed.

Lemma empty_pool_known max tx : known (empty_pool max) tx.
Proof. intros tx' m E. cbn [empty_pool p_txs] in E. by rewrite lookup_empty in E. Qed.

Lemma template_step_pool v median coins height id t p t' p' :
  pool_ok p -> template_step v median coins height id (t, p) = ret (t', p') -> pool_ok p'.
Proof.
  intros Ok E. unfold template_step in E. destruct (p_txs p !! id) as [[tx meta]|] eqn:F; [|by simplify_eq].
  rinv E c E1. destruct c as [c|]; [|by simplify_eq]. apply rbind_inv in E as ([ready meta'] & E2 & E).
  destruct (ready_sound _ _ _ _ _ E2) as ((B & Fe & K) & _).
  destruct (negb ready || have_key_images _ _); injection E as <- <-; by apply (meta_update p id tx meta).
Qed.

Lemma template_loop_pool v median coins height ids t p t' p' :
  pool_ok p -> template_loop v median coins height ids (t, p) = ret (t', p') -> pool_ok p'.
Proof.
  revert t p. induction ids as [|id ids IH]; intros t p Ok E; cbn [template_loop] in E; [by simplify_eq|].
  rinv E tp E1. destruct tp as [t1 p1]. eapply IH; [|exact E]. by eapply template_step_pool.
Qed.

Lemma init_ok n p : pool_ok p ->
  exists p', init n p = (true, p') /\ pool_ok p' /\ p_txs p' = p_txs p /\ p_spent p' = p_spent p
    /\ map snd (p_sorted p') ≡ₚ map snd (p_sorted p) /\ p_size p' = p_size p.
Proof.
  intros [[C1 C2 C3 C4] O]. unfold init. set (l := for_all_txpool_txes (p_txs p)).
  assert (l ≡ₚ map_to_list (p_txs p)) as P by apply merge_sort_Permutation.
  assert (filter (from_pass false) l ++ filter (from_pass true) l ≡ₚ map_to_list (p_txs p)) as Q.
  { rewrite <- P. etransitivity; [|apply (filter_app_complement (from_pass false))]. f_equiv.
    apply reflexive_eq, list_filter_iff. intros e. unfold from_pass. destruct (kept_by_block e.2.2); split; congruence. }
  assert (NoDup (map fst (filter (from_pass false) l ++ filter (from_pass true) l))) as ND by (rewrite Q; apply NoDup_fst_map_to_list).
  set (q := Pool (p_txs p) ∅ [] 0 _ (p_timed_out p)). assert (loaded [] q) as L0.
  { split; [apply spent_for_nil|done..]. }
  assert (Forall entry_ok l) as Fl by by rewrite P. assert (apart l) as Al by (eapply apart_perm; [symmetry; exact P|done]).
  destruct (init_pass_ok false l [] q L0 Fl) as (p1 & E1 & L1 & T1 & M1).
  { cbn [app]. rewrite map_app in ND. by apply NoDup_app in ND as (ND & _). }
  { done. }
  { done. }
  cbn [app] in L1. destruct (init_pass_ok true l _ p1 L1 Fl ND) as (p2 & E2 & L2 & T2 & M2).
  { eapply apart_sub; [|exact Al]. intros e He. rewrite elem_of_app, !list_elem_of_filter in He. tauto. }
  { done. }
  rewrite E1, E2. exists p2. split; [done|]. rewrite T1 in T2. change (p_txs q) with (p_txs p) in T2.
  destruct L2 as [Ls Lo Lz]. rewrite Q in Lo. rewrite (total_perm _ _ Q) in Lz. apply (spent_for_perm _ _ _ Q) in Ls.
  unfold sorted_ok in *. split_and!; [|done|by apply (spent_ext (map_to_list (p_txs p)))|by rewrite Lo, O|congruence].
  split; [split; by rewrite ?T2|]. unfold sorted_ok. by rewrite Lo, T2.
Qed.

(** C10. The pool stays consistent.  Whatever sequence of operations leads to it from
    an empty pool (transactions added from peers or from popped blocks, taken for a
    block, pruned, timed out, validated, marked as relayed, looked at for a
    template, or read again at a start), its four members agree: every transaction
    is stored under its hash, a key image is recorded exactly with the transactions
    that use it, the order has every transaction once, the size is the size of all
    of them, and no two transactions use the same image unless one of them came
    with a block. *)
Theorem pool_invariant max p : rtc pool_step (empty_pool max) p -> pool_ok p.
Proof.
  intros R. assert (forall a b, pool_step a b -> pool_ok a -> pool_ok b) as Step.
  { intros a b H Ok. destruct H; eauto using add_tx_ok, take_tx_ok, remove_stuck_ok, validate_ok, set_relayed_ok.
    - by apply prune_loop_ok.
    - unfold fill_block_template in *. match goal with H : rbind _ _ = _ |- _ => rinv H r E end. by eapply template_loop_pool.
    - destruct (init_ok n p0 Ok) as (p1 & E & Ok1 & _). congruence. }
  pose proof (empty_pool_ok max) as Ok. induction R as [a|a b c S R IH]; [done|]. by apply IH, (Step a b).
Qed.

(** A restart loses nothing of the pool.  From the two tables on disk, init
    rebuilds the same key images, the same size and an order of the same
    transactions, and succeeds. *)
Theorem pool_restart n p : pool_ok p ->
  exists p', init n p = (true, p') /\ pool_ok p' /\ p_txs p' = p_txs p /\ p_spent p' = p_spent p
    /\ map snd (p_sorted p') ≡ₚ map snd (p_sorted p) /\ p_size p' = p_size p.
Proof. apply init_ok. Qed.







End invariant.

(** ** Example *)

(** A transaction with one input, of a popped block; its ring is too small now. *)
Definition example_tx : built :=
  Built {| Transaction.version := 3; Transaction.unlock_time := 0;
           Transaction.vin := [Transaction.txin_to_key 0 [1] (replicate 32 7)]; Transaction.vout := []; Transaction.extra := [] |}
    (Rct 0 (replicate 32 0) [] [] [] [] 0 [] [] [] []).

Definition example_view : view :=
  View (Chain MAINNET 6 100 [] [] (fun _ _ => None)) 480000 [] (replicate 100 (replicate 32 1)) (fun _ => false).

Definition example_add : result ((pool_failure + pool_added) * pool) :=
  add_tx (HF := example_hash) example_view 1000 1000 example_tx (tx_id (HF := example_hash) example_tx) (tx_size example_tx)
    true true false (empty_pool DEFAULT_TXPOOL_MAX_SIZE).

Definition example_pool : pool :=
  match example_add with Some (inr (_, p)) => p | _ => empty_pool 0 end.

Lemma example_tx_wf : wf_tx example_tx.
Proof. split; by_eval. Qed.

Lemma example_reach : rtc (pool_step (HF := example_hash)) (empty_pool DEFAULT_TXPOOL_MAX_SIZE) example_pool.
Proof.
  apply rtc_once. eapply (step_add example_view 1000 1000 example_tx true true false _ (inr (Added true false))).
  - apply example_tx_wf.
  - apply empty_pool_known.
  - vm_compute. reflexivity.
Qed.

Lemma example_pool_ok : pool_ok (HF := example_hash) example_pool.
Proof.
  assert (add_tx (HF := example_hash) example_view 1000 1000 example_tx (tx_id (HF := example_hash) example_tx) (tx_size example_tx)
    true true false (empty_pool DEFAULT_TXPOOL_MAX_SIZE) = ret (inr (Added true false), example_pool)) as E by (vm_compute; reflexivity).
  eapply add_tx_ok; [apply empty_pool_ok|exact example_tx_wf|apply empty_pool_known|exact E].
Qed.

Lemma pool_invariant_witness : length (p_sorted example_pool) = 1%nat /\ pool_ok (HF := example_hash) example_pool.
Proof. split; [vm_compute; reflexivity|]. exact (pool_invariant (HF := example_hash) _ _ example_reach). Defined.

Lemma pool_restart_witness : exists p', init (HF := example_hash) 0 example_pool = (true, p')
  /\ p_spent p' = p_spent example_pool /\ p_size p' = tx_size example_tx.
Proof.
  destruct (pool_restart (HF := example_hash) 0 example_pool example_pool_ok) as (p' & E & _ & _ & S & _ & Z). exists p'.
  split; [exact E|]. split; [exact S|]. rewrite Z. vm_compute. reflexivity.
Defined.



End TxPool.
