(* ===== verification/Blockchain.v ===== *)
(** * The block chain

    The main chain of src/cryptonote_core/blockchain.cpp over the database, the
    hard forks and the transaction pool: the difficulty of the next block with its
    cache, the timestamps, the checkpoints of src/checkpoints/checkpoints.cpp, the
    limit of block sizes, adding a block (handle_block_to_main_chain), taking the
    last one back (pop_block_from_blockchain) and rolling back.  The proof of work
    hash, the clock, and the tables that are prepared for incoming blocks are
    parameters.  Blocks of alternative chains are not modelled.  The theorems say
    what an accepted block satisfies, what a refused one changes, and that the
    rules hold for all blocks along every sequence of these operations. *)

From stdpp Require Import gmap sorting.
From S2P Require Import Prelude Config Keccak Difficulty BlockReward HardFork Serialization Transaction TxHash RctOps RctSigs TxBuild TxCheck TxAccept MinerTx Database TxPool Result.
Import Config RctOps RctSigs TxBuild TxCheck TxAccept MinerTx Database TxPool Result.

Module Blockchain.

Definition MAINNET_HARDFORK_V3_HEIGHT : Z := 116520.
Definition MAINNET_HARDFORK_V6_HEIGHT : Z := 228750.
Definition BLOCKCHAIN_TIMESTAMP_CHECK_WINDOW_V1 : nat := 60.

(** check_hard_fork_feature at a version. *)
Definition supports (nettype : network_type) (version : Z) (f : hard_fork_feature) : bool :=
  if get_fork_v nettype f =? FORK_ID_DISABLED then false else get_fork_v nettype f <=? version.

Definition timestamp (b : db_block) : Z := Transaction.timestamp (Transaction.header (b_block b)).

(** ** Difficulty *)

Definition block_count (nettype : network_type) (version : Z) : nat :=
  if supports nettype version FORK_V4_DIFFICULTY then DIFFICULTY_BLOCKS_COUNT_V4
  else if supports nettype version FORK_V3_DIFFICULTY then DIFFICULTY_BLOCKS_COUNT_V3
  else if supports nettype version FORK_V2_DIFFICULTY then DIFFICULTY_BLOCKS_COUNT_V2
  else DIFFICULTY_BLOCKS_COUNT_V1.

Definition next_difficulty (nettype : network_type) (version : Z) (timestamps difficulties : list Z) : option Z :=
  if supports nettype version FORK_V4_DIFFICULTY then Difficulty.next_difficulty_v4 timestamps difficulties
  else if supports nettype version FORK_V3_DIFFICULTY then Difficulty.next_difficulty_v3 timestamps difficulties
  else if supports nettype version FORK_V2_DIFFICULTY then Difficulty.next_difficulty_v2 timestamps difficulties DIFFICULTY_TARGET
  else Difficulty.next_difficulty_v1 timestamps difficulties DIFFICULTY_TARGET.

(** m_timestamps_and_difficulties_height, m_timestamps and m_difficulties. *)
Record difficulty_cache := Cache { c_height : Z; c_timestamps : list Z; c_difficulties : list Z }.

(** Erasing from the front while there are more than [n]. *)
Definition keep_last (n : nat) (l : list Z) : list Z := drop (length l - n) l.

(** The blocks that are read for the difficulty: never the first one. *)
Definition difficulty_window (count : nat) (blocks : list db_block) : list db_block :=
  let offset := (length blocks - min (length blocks) count)%nat in
  drop (if Nat.eqb offset 0 then 1 else offset) blocks.

Definition fixed_difficulty (nettype : network_type) (height : Z) : bool :=
  bool_decide (nettype = MAINNET)
  && (((MAINNET_HARDFORK_V3_HEIGHT <=? height) && (height <=? MAINNET_HARDFORK_V3_HEIGHT + Z.of_nat DIFFICULTY_BLOCKS_COUNT_V2))
      || ((MAINNET_HARDFORK_V6_HEIGHT <=? height) && (height <=? MAINNET_HARDFORK_V6_HEIGHT + Z.of_nat DIFFICULTY_BLOCKS_COUNT_V4))).

(** [local] is the vector timestamps of the function when its size is compared. *)
Definition get_difficulty_for_next_block (nettype : network_type) (version : Z) (blocks : list db_block) (cache : difficulty_cache)
    : option (Z * difficulty_cache) :=
  let height := Z.of_nat (length blocks) in
  if fixed_difficulty nettype height then Some (480000000, cache)
  else
    let count := block_count nettype version in
    let local : list Z := [] in
    cache ←
      (if negb (c_height cache =? 0) && (u64 (height - c_height cache) =? 1) && Nat.leb count (length local)
          && Nat.leb count (length (c_difficulties cache))
       then
         b ← last blocks;
         Some (Cache height (keep_last count (c_timestamps cache ++ [timestamp b])) (keep_last count (c_difficulties cache ++ [bi_diff b])))
       else
         let window := difficulty_window count blocks in
         Some (Cache height (map timestamp window) (map bi_diff window)));
    d ← next_difficulty nettype version (c_timestamps cache) (c_difficulties cache);
    Some (d, cache).

(** ** Timestamps *)

Definition check_window (nettype : network_type) (version : Z) : nat :=
  if supports nettype version FORK_V3_DIFFICULTY then BLOCKCHAIN_TIMESTAMP_CHECK_WINDOW_V3
  else if supports nettype version FORK_V2_DIFFICULTY then BLOCKCHAIN_TIMESTAMP_CHECK_WINDOW_V2
  else BLOCKCHAIN_TIMESTAMP_CHECK_WINDOW_V1.

Definition future_limit (nettype : network_type) (version : Z) : Z :=
  if supports nettype version FORK_V3_DIFFICULTY then BLOCK_FUTURE_TIME_LIMIT_V3 else BLOCK_FUTURE_TIME_LIMIT_V2.

(** The overload with the timestamps.  The median sorts its argument in place, so
    that the last timestamp is taken from the sorted vector; of an empty one there
    is none. *)
Definition check_timestamps (nettype : network_type) (timestamps : list Z) (b : Transaction.block) : option bool :=
  let header := Transaction.header b in
  median_ts ← Difficulty.median timestamps;
  top_block_timestamp ← last (Difficulty.sort timestamps);
  Some (if (get_fork_v nettype FORK_CHECK_BLOCK_BACKDATE <=? Transaction.major_version header)
           && (u64 (Transaction.timestamp header + BLOCK_FUTURE_TIME_LIMIT_V3) <? top_block_timestamp) then false
        else negb (Transaction.timestamp header <? median_ts)).

Definition check_block_timestamp (nettype : network_type) (version time : Z) (blocks : list db_block) (b : Transaction.block) : option bool :=
  if u64 (time + future_limit nettype version) <? Transaction.timestamp (Transaction.header b) then Some false
  else
    let window := check_window nettype version in
    if Nat.ltb (length blocks) window then Some true
    else check_timestamps nettype (map timestamp (drop (length blocks - window) blocks)) b.

(** ** Checkpoints *)

Definition checkpoints : Type := gmap Z bytes.

Definition add_checkpoint (points : checkpoints) (height : Z) (h : option bytes) : bool * checkpoints :=
  match h with
  | None => (false, points)
  | Some h =>
      match points !! height with
      | Some h' => if bool_decide (h = h') then (true, <[height := h]> points) else (false, points)
      | None => (true, <[height := h]> points)
      end
  end.

(** Whether there is a checkpoint at the height or above. *)
Definition is_in_checkpoint_zone (points : checkpoints) (height : Z) : bool :=
  existsb (fun p => height <=? fst p) (map_to_list points).

(** The second is is_a_checkpoint. *)
Definition check_checkpoint (points : checkpoints) (height : Z) (h : bytes) : bool * bool :=
  match points !! height with
  | None => (true, false)
  | Some h' => (bool_decide (h' = h), true)
  end.

(** The greatest checkpoint that is not above the height, if there is one. *)
Definition last_checkpoint (points : checkpoints) (height : Z) : option Z :=
  foldr (fun p m => if fst p <=? height then Some (match m with Some x => Z.max x (fst p) | None => fst p end) else m) None
    (map_to_list points).

Definition is_alternative_block_allowed (points : checkpoints) (blockchain_height block_height : Z) : bool :=
  if block_height =? 0 then false
  else match last_checkpoint points blockchain_height with
       | None => true
       | Some checkpoint_height => checkpoint_height <? block_height
       end.

(** ** Sizes *)

Definition get_last_n_blocks_sizes (count : nat) (blocks : list db_block) : list Z :=
  map bi_size (drop (length blocks - min (length blocks) count) blocks).

(** The median and the limit. *)
Definition update_next_cumulative_size_limit (blocks : list db_block) : option (Z * Z) :=
  median ← Difficulty.median (get_last_n_blocks_sizes CRYPTONOTE_REWARD_BLOCKS_WINDOW blocks);
  let zone := if median <=? BlockReward.get_min_block_size then BlockReward.get_min_block_size else median in
  Some (median, u64 (zone * 2)).

(** ** The state *)

(** m_db, m_hardfork, m_tx_pool, the median and the limit of block sizes,
    m_invalid_blocks, m_checkpoints and the cache of the difficulty. *)
Record blockchain := Bc {
  bc_db : database;
  bc_hf : HardFork.hard_fork;
  bc_pool : pool;
  bc_median : Z;
  bc_limit : Z;
  bc_invalid : gmap bytes Transaction.block;
  bc_points : checkpoints;
  bc_cache : difficulty_cache
}.

Definition with_db (bc : blockchain) (db : database) (hf : HardFork.hard_fork) : blockchain :=
  Bc db hf (bc_pool bc) (bc_median bc) (bc_limit bc) (bc_invalid bc) (bc_points bc) (bc_cache bc).
Definition with_pool (bc : blockchain) (p : pool) : blockchain :=
  Bc (bc_db bc) (bc_hf bc) p (bc_median bc) (bc_limit bc) (bc_invalid bc) (bc_points bc) (bc_cache bc).
Definition with_limit (bc : blockchain) (median limit : Z) : blockchain :=
  Bc (bc_db bc) (bc_hf bc) (bc_pool bc) median limit (bc_invalid bc) (bc_points bc) (bc_cache bc).
Definition with_invalid (bc : blockchain) (m : gmap bytes Transaction.block) : blockchain :=
  Bc (bc_db bc) (bc_hf bc) (bc_pool bc) (bc_median bc) (bc_limit bc) m (bc_points bc) (bc_cache bc).
Definition with_cache (bc : blockchain) (c : difficulty_cache) : blockchain :=
  Bc (bc_db bc) (bc_hf bc) (bc_pool bc) (bc_median bc) (bc_limit bc) (bc_invalid bc) (bc_points bc) c.

(** What is outside of the chain while a block is handled: the time, at its two
    readings when a transaction goes to the pool, m_blocks_longhash_table,
    m_scan_table, and whether a batch of the database is active. *)
Record environment := Env {
  e_time : Z; e_time' : Z;
  e_longhash : bytes -> option bytes;
  e_scan : bytes -> bytes -> option (list output_data_t);
  e_batch : bool
}.

(** What handle_block_to_main_chain returns: true, with m_partial_block_reward, or
    false, with m_verifivation_failed. *)
Inductive block_outcome := Block_added (partial_block_reward : bool) | Block_refused (verifivation_failed : bool).

Section functions.

Context `{HF : !FastHash} (debug : bool) (nettype : network_type) (dev_view_key dev_spend_key : bytes).
Context (get_block_longhash : Transaction.block -> bytes).

Definition chain_of (e : environment) (bc : blockchain) (version : Z) : chain :=
  Chain nettype version (height (bc_db bc)) (d_outputs (bc_db bc)) (d_spent (bc_db bc)) (e_scan e).

Definition view_of (e : environment) (bc : blockchain) (version : Z) : view :=
  View (chain_of e bc version) (bc_limit bc) (map bi_coins (d_blocks (bc_db bc))) (map bi_hash (d_blocks (bc_db bc))) (tx_exists (bc_db bc)).

(** *** Transactions back to the pool *)

(** The overload of add_tx that computes the hash and the size. *)
Definition add_own_tx (v : view) (e : environment) (tx : built) (p : pool) : result pool :=
  match TxHash.calculate_transaction_hash (as_transaction tx), TxHash.get_object_blobsize Transaction.put_transaction (as_transaction tx) with
  | Some h, Some size =>
      if size =? 0 then ret p
      else let* (_, p) := add_tx v (e_time e) (e_time' e) tx h size true true false p in ret p
  | _, _ => ret p
  end.

Fixpoint return_txs (v : view) (e : environment) (txs : list built) (p : pool) : result pool :=
  match txs with
  | [] => ret p
  | tx :: txs => let* p := add_own_tx v e tx p in return_txs v e txs p
  end.

Definition return_tx_to_pool (e : environment) (version : Z) (txs : list built) (bc : blockchain) : result blockchain :=
  let* p := return_txs (view_of e bc version) e txs (bc_pool bc) in
  ret (with_pool bc p).

Definition add_block_as_invalid (bl : Transaction.block) (h : bytes) (bc : blockchain) : blockchain :=
  match bc_invalid bc !! h with Some _ => bc | None => with_invalid bc (<[h := bl]> (bc_invalid bc)) end.

(** *** A block on the main chain *)

(** How the loop over the transactions ended. *)
Inductive taken := Taken (fee_summary cumulative_block_size : Z) | Not_found | Wrong_inputs.

Fixpoint take_txs (c : chain) (db : database) (hashes : list bytes) (fee_summary size : Z) (txs : list built) (p : pool)
    : result (taken * list built * pool) :=
  match hashes with
  | [] => ret (Taken fee_summary size, txs, p)
  | tx_id :: hashes =>
      if tx_exists db tx_id then ret (Not_found, txs, p)
      else
        match take_tx tx_id p with
        | (None, p) => ret (Not_found, txs, p)
        | (Some (tx, blob_size, fee, _, _, _), p) =>
            let txs := txs ++ [tx] in
            let* r := check_tx_inputs c tx false in
            match r with
            | inl _ => ret (Wrong_inputs, txs, p)
            | inr _ => take_txs c db hashes (u64 (fee_summary + fee)) (u64 (size + blob_size)) txs p
            end
        end
  end.

Definition generated_coins (blocks : list db_block) : Z := default 0 (bi_coins <$> last blocks).

Definition validate_miner_transaction (version : Z) (blocks : list db_block) (tx : Transaction.transaction_prefix)
    (cumulative_block_size fee : Z) : result (option (Z * bool)) :=
  let sizes := get_last_n_blocks_sizes CRYPTONOTE_REWARD_BLOCKS_WINDOW blocks in
  let h := Z.of_nat (length blocks) in
  if supports nettype version FORK_DEV_FUND
  then validate_miner_transaction_v2 debug nettype dev_view_key dev_spend_key sizes h tx h cumulative_block_size fee (generated_coins blocks)
  else validate_miner_transaction_v1 nettype sizes h tx cumulative_block_size fee (generated_coins blocks).

(** The coins after the block. *)
Definition coins_after (coins base_reward : Z) : Z :=
  if base_reward <? u64 (MONEY_SUPPLY - coins) then u64 (coins + base_reward) else MONEY_SUPPLY.

(** From the miner transaction on: the database is changed. *)
Definition store_block (e : environment) (version : Z) (bl : Transaction.block) (difficulty fee_summary size : Z) (txs : list built)
    (bc : blockchain) : result (block_outcome * blockchain) :=
  let db := bc_db bc in
  let blocks := d_blocks db in
  let* r := validate_miner_transaction version blocks (Transaction.prefix (Transaction.miner_tx bl)) size fee_summary in
  match r with
  | None => let* bc := return_tx_to_pool e version txs bc in ret (Block_refused true, bc)
  | Some (base_reward, partial) =>
      let coins := coins_after (generated_coins blocks) base_reward in
      let cumulative_difficulty := u64 (difficulty + default 0 (bi_diff <$> last blocks)) in
      match add_block (e_batch e) bl size cumulative_difficulty coins txs db (bc_hf bc) with
      | None => None
      | Some (inl ex, db', hf') =>
          let* bc := return_tx_to_pool e version txs (with_db bc db' hf') in
          ret (Block_refused (match ex with KEY_IMAGE_EXISTS => true | _ => false end), bc)
      | Some (inr _, db', hf') =>
          let* (median, limit) := lift (update_next_cumulative_size_limit (d_blocks db')) in
          ret (Block_added partial, with_limit (with_db bc db' hf') median limit)
      end
  end.

Definition miner_tx_size (bl : Transaction.block) : Z :=
  default 0 (TxHash.get_object_blobsize Transaction.put_transaction (Transaction.miner_tx bl)).

(** From the checkpoints on: the transactions are taken from the pool. *)
Definition handle_block_txs (e : environment) (version : Z) (bl : Transaction.block) (id : bytes) (difficulty : Z) (bc : blockchain)
    : result (block_outcome * blockchain) :=
  let h := height (bc_db bc) in
  let miner_tx := Transaction.miner_tx bl in
  if is_in_checkpoint_zone (bc_points bc) h && negb (fst (check_checkpoint (bc_points bc) h id)) then ret (Block_refused true, bc)
  else if negb (prevalidate_miner_transaction (Transaction.prefix miner_tx) (Transaction.type (Transaction.rct_signatures miner_tx)) h)
  then ret (Block_refused true, bc)
  else
    let* (r, txs, p) := take_txs (chain_of e bc version) (bc_db bc) (Transaction.tx_hashes bl) 0 (miner_tx_size bl) [] (bc_pool bc) in
    let bc := with_pool bc p in
    match r with
    | Not_found => let* bc := return_tx_to_pool e version txs bc in ret (Block_refused true, bc)
    | Wrong_inputs =>
        let* bc := return_tx_to_pool e version txs (add_block_as_invalid bl id bc) in ret (Block_refused true, bc)
    | Taken fee_summary size => store_block e version bl difficulty fee_summary size txs bc
    end.

Definition handle_block_to_main_chain (e : environment) (bl : Transaction.block) (bc : blockchain) : result (block_outcome * blockchain) :=
  let id := get_block_hash bl in
  let blocks := d_blocks (bc_db bc) in
  if negb (bool_decide (Transaction.prev_id (Transaction.header bl) = top_block_hash (bc_db bc))) then ret (Block_refused false, bc)
  else
    let* version_ok := lift (HardFork.check (bc_hf bc) (fork_block bl)) in
    if negb version_ok then ret (Block_refused true, bc)
    else
      let* version := lift (HardFork.get_current_version_num (bc_hf bc)) in
      let* time_ok := lift (check_block_timestamp nettype version (e_time e) blocks bl) in
      if negb time_ok then ret (Block_refused true, bc)
      else
        let* (current_diffic, cache) := lift (get_difficulty_for_next_block nettype version blocks (bc_cache bc)) in
        let bc := with_cache bc cache in
        if current_diffic =? 0 then ret (Block_refused false, bc)
        else
          let proof_of_work := default (get_block_longhash bl) (e_longhash e id) in
          if negb (Difficulty.check_hash proof_of_work current_diffic) then ret (Block_refused true, bc)
          else handle_block_txs e version bl id current_diffic bc.

(** *** Taking blocks back *)







End functions.

(** ** The difficulty of the next block *)

(** What the difficulty of the next block is, from the blocks alone. *)
Definition difficulty_of (nettype : network_type) (version : Z) (blocks : list db_block) : option Z :=
  if fixed_difficulty nettype (Z.of_nat (length blocks)) then Some 480000000
  else
    let window := difficulty_window (block_count nettype version) blocks in
    next_difficulty nettype version (map timestamp window) (map bi_diff window).

Lemma block_count_pos nettype version : (0 < block_count nettype version)%nat.
Proof.
  unfold block_count, DIFFICULTY_BLOCKS_COUNT_V4, DIFFICULTY_BLOCKS_COUNT_V3, DIFFICULTY_BLOCKS_COUNT_V2, DIFFICULTY_BLOCKS_COUNT_V1,
    DIFFICULTY_WINDOW_V4, DIFFICULTY_WINDOW_V3, DIFFICULTY_WINDOW_V2, DIFFICULTY_WINDOW_V1.
  destruct (supports _ _ _); [lia|]. destruct (supports _ _ _); [lia|]. destruct (supports _ _ _); lia.
Qed.

(** The cache is never read. *)
Lemma difficulty_uncached nettype version blocks cache :
  fst <$> get_difficulty_for_next_block nettype version blocks cache = difficulty_of nettype version blocks.
Proof.
  unfold get_difficulty_for_next_block, difficulty_of. destruct (fixed_difficulty _ _); [done|]. cbv zeta.
  pose proof (block_count_pos nettype version) as P. rewrite (proj2 (Nat.leb_gt (block_count nettype version) (length (@nil Z)))) by (cbn; lia).
  rewrite andb_false_r. cbn [andb mbind option_bind c_timestamps c_difficulties]. by destruct (next_difficulty _ _ _ _).
Qed.

(** ** The timestamps of blocks *)

Lemma sort_last ts : ts <> [] -> exists m, last (Difficulty.sort ts) = Some m /\ m ∈ ts /\ Forall (fun x => x <= m) ts.
Proof.
  intros N. pose proof (Difficulty.length_sort ts) as L. destruct (last (Difficulty.sort ts)) as [m|] eqn:E.
  - exists m. split; [done|]. rewrite last_lookup in E. assert (Difficulty.sort ts ≡ₚ ts) as P by apply merge_sort_Permutation.
    split; [rewrite <- P; by eapply list_elem_of_lookup_2|]. rewrite <- P. apply Forall_forall. intros x Hx.
    apply list_elem_of_lookup in Hx as (i & Hi). apply lookup_lt_Some in Hi as Li.
    pose proof (Difficulty.sort_lookup_le ts i (pred (length ts)) ltac:(lia)) as H. rewrite L in E.
    by rewrite (nth_lookup_Some _ _ _ _ Hi), (nth_lookup_Some _ _ _ _ E) in H.
  - apply last_None in E. rewrite E in L. destruct ts; [done|discriminate L].
Qed.

(** C39. The timestamp rule: against a window of earlier timestamps, a block is
    accepted exactly when its timestamp is not below their median and, from the
    fork that checks back-dating on, with twelve minutes added is not below any of
    them.  The second comparison is with the greatest timestamp of the window,
    not with the one of the top block, because the median has sorted the vector. *)
Theorem check_timestamps_spec nettype timestamps b :
  timestamps <> [] ->
  exists median_ts, Difficulty.median timestamps = Some median_ts
    /\ exists r, check_timestamps nettype timestamps b = Some r
    /\ (r = true <->
         median_ts <= Transaction.timestamp (Transaction.header b)
         /\ (get_fork_v nettype FORK_CHECK_BLOCK_BACKDATE <= Transaction.major_version (Transaction.header b) ->
             Forall (fun t => t <= u64 (Transaction.timestamp (Transaction.header b) + 720)) timestamps)).
Proof.
  intros N. destruct (Difficulty.median_defined timestamps) as [m Em]. destruct (sort_last timestamps N) as (top & Et & Ht & F).
  exists m. split; [done|]. unfold check_timestamps. cbv zeta. rewrite Em, Et. cbn [mbind option_bind]. eexists. split; [reflexivity|].
  change BLOCK_FUTURE_TIME_LIMIT_V3 with 720. rewrite Forall_forall in F |- *.
  destruct (Z.leb_spec (get_fork_v nettype FORK_CHECK_BLOCK_BACKDATE) (Transaction.major_version (Transaction.header b))) as [V|V]; cbn [andb].
  - destruct (Z.ltb_spec (u64 (Transaction.timestamp (Transaction.header b) + 720)) top) as [T|T].
    + split; [done|]. intros [_ H]. specialize (H V top Ht). lia.
    + rewrite negb_true_iff, Z.ltb_ge. split; [|tauto]. intros L. split; [done|]. intros _ t Hs. specialize (F t Hs). lia.
  - rewrite negb_true_iff, Z.ltb_ge. split; [|tauto]. intros L. split; [done|]. lia.
Qed.

(** ** Valid chains *)

Section valid.

Context `{HF : !FastHash} (debug : bool) (nettype : network_type) (dev_view_key dev_spend_key : bytes).
Context (get_block_longhash : Transaction.block -> bytes) (points : checkpoints).

(** The rules of the fork [version] for a block on top of [blocks]: its proof of
    work has the difficulty of the next block, which it adds to the cumulative
    difficulty; its timestamp is not below the median of the last blocks; its miner
    transaction is for this height and claims no more than the reward and the fees,
    for the coins it adds; and it is the checkpoint of this height, if there is one. *)
Record valid_at (version : Z) (blocks : list db_block) (b : db_block) : Prop := {
  valid_work : exists d, difficulty_of nettype version blocks = Some d /\ d <> 0
    /\ Difficulty.check_hash (get_block_longhash (b_block b)) d = true
    /\ bi_diff b = u64 (d + default 0 (bi_diff <$> last blocks));
  valid_time : (length blocks < check_window nettype version)%nat
    \/ check_timestamps nettype (map timestamp (drop (length blocks - check_window nettype version) blocks)) (b_block b) = Some true;
  valid_miner : prevalidate_miner_transaction (Transaction.prefix (Transaction.miner_tx (b_block b)))
    (Transaction.type (Transaction.rct_signatures (Transaction.miner_tx (b_block b)))) (Z.of_nat (length blocks)) = true;
  valid_reward : exists fee base_reward partial,
    validate_miner_transaction debug nettype dev_view_key dev_spend_key version blocks (Transaction.prefix (Transaction.miner_tx (b_block b)))
      (bi_size b) fee = ret (Some (base_reward, partial))
    /\ bi_coins b = coins_after (generated_coins blocks) base_reward;
  valid_checkpoint : forall h, points !! Z.of_nat (length blocks) = Some h -> bi_hash b = h
}.




(** The precomputed hashes are those of the blocks. *)
Definition table_ok (e : environment) : Prop :=
  forall bl h, e_longhash e (get_block_hash bl) = Some h -> h = get_block_longhash bl.

Lemma checkpoint_zone h x : points !! h = Some x -> is_in_checkpoint_zone points h = true.
Proof.
  intros E. unfold is_in_checkpoint_zone. apply existsb_exists. exists (h, x). split; [|cbn; lia].
  apply list_elem_of_In, elem_of_map_to_list. done.
Qed.

(** *** The pool *)

(** Transactions that can go back to a pool: distinct, and not in it. *)
Definition returnable (txs : list built) (p : pool) : Prop :=
  NoDup (map tx_id txs) /\ Forall (fun tx => wf_tx tx /\ p_txs p !! tx_id tx = None) txs.

Lemma returnable_nil p : returnable [] p.
Proof. split; constructor. Qed.

Lemma add_own_tx_ok v e tx p p' :
  pool_ok p -> wf_tx tx -> p_txs p !! tx_id tx = None -> add_own_tx v e tx p = ret p' ->
  pool_ok p' /\ forall j, is_Some (p_txs p' !! j) -> is_Some (p_txs p !! j) \/ j = tx_id tx.
Proof.
  intros Ok W N E. unfold add_own_tx in E. destruct (TxHash.calculate_transaction_hash (as_transaction tx)) as [h|] eqn:Eh; [|by simplify_eq; auto].
  destruct (TxHash.get_object_blobsize Transaction.put_transaction (as_transaction tx)) as [sz|] eqn:Es; [|by simplify_eq; auto].
  destruct (sz =? 0); [by simplify_eq; auto|]. apply rbind_inv in E as ([r q] & E & F). apply ret_inj in F. subst q.
  assert (h = tx_id tx) as -> by (unfold tx_id; by rewrite Eh). assert (sz = tx_size tx) as -> by (unfold tx_size; by rewrite Es).
  assert (known p tx) as Kn by (intros tx' m F; congruence). split; [by eapply add_tx_ok|]. intros j. by eapply add_tx_ids.
Qed.

Lemma return_txs_ok v e txs p p' :
  pool_ok p -> returnable txs p -> return_txs v e txs p = ret p' -> pool_ok p'.
Proof.
  revert p. induction txs as [|tx txs IH]; intros p Ok [ND F] E; cbn [return_txs] in E; [apply ret_inj in E; by subst|].
  rinv E q E1. apply NoDup_cons in ND as [Ni ND]. apply Forall_cons in F as [[W N] F].
  destruct (add_own_tx_ok v e tx p q Ok W N E1) as [Ok1 I]. apply (IH q Ok1); [|done]. split; [done|].
  rewrite Forall_forall in F |- *. intros x Hx. destruct (F x Hx) as [Wx Nx]. split; [done|]. destruct (p_txs q !! tx_id x) eqn:Q; [|done].
  destruct (I (tx_id x)) as [[y Hy]|Hy]; [by rewrite Q|congruence|]. destruct Ni. rewrite <- Hy. by apply list_elem_of_fmap_2.
Qed.

Lemma return_tx_keeps e version txs bc bc' : return_tx_to_pool nettype e version txs bc = ret bc' ->
  exists p, return_txs (view_of nettype e bc version) e txs (bc_pool bc) = ret p /\ bc' = with_pool bc p.
Proof. unfold return_tx_to_pool. intros E. rinv E p E1. apply ret_inj in E. by exists p. Qed.

(** *** The transactions of a block *)

(** A transaction of the pool that a block may have. *)
Definition includable (c : chain) (db : database) (p : pool) (h : bytes) (tx : built) : Prop :=
  (exists m, p_txs p !! h = Some (tx, m)) /\ tx_exists db h = false /\ exists rv pmax, check_tx_inputs c tx false = accept (rv, pmax).

Definition add_fees (fee : Z) (txs : list built) : Z := foldl (fun n tx => u64 (n + r_txnFee (b_rct tx))) fee txs.
Definition add_sizes (size : Z) (txs : list built) : Z := foldl (fun n tx => u64 (n + tx_size tx)) size txs.

Lemma take_txs_ok c db hashes fee size txs p r txs' p' :
  pool_ok p -> returnable txs p -> Forall hidden txs ->
  take_txs c db hashes fee size txs p = ret (r, txs', p') ->
  pool_ok p' /\ returnable txs' p' /\ Forall hidden txs'
  /\ (forall fee' size', r = Taken fee' size' -> exists new, txs' = txs ++ new /\ Forall2 (includable c db p) hashes new
        /\ fee' = add_fees fee new /\ size' = add_sizes size new).
Proof.
  revert fee size txs p. induction hashes as [|h hashes IH]; intros fee size txs p Ok R Hi E; cbn [take_txs] in E.
  { injection E as <- <- <-. split_and!; try done. intros fee' size' [= <- <-]. exists []. by rewrite app_nil_r. }
  destruct (tx_exists db h) eqn:X; [by injection E as <- <- <-|].
  destruct (take_tx h p) as [[[[[[[tx s] f] a] b] d]|] p1] eqn:T.
  2:{ injection E as <- <- <-. pose proof (take_tx_ok _ _ _ _ Ok T) as Ok1. unfold take_tx in T.
      destruct (find_tx_in_sorted_container h (p_sorted p)) as [[]|]; [destruct (p_txs p !! h) as [[]|]; [discriminate|]|]; by injection T as <-. }
  destruct (take_tx_some _ _ _ _ _ _ _ _ _ Ok T) as (-> & -> & -> & W & Hd & (m & Em) & Tx & Ok1). rinv E v E1.
  assert (returnable (txs ++ [tx]) p1) as R1.
  { destruct R as [ND F]. rewrite Forall_forall in F. split.
    - rewrite map_app. apply NoDup_app. split; [done|]. split; [|apply NoDup_singleton].
      intros x (y & -> & Hy)%list_elem_of_fmap Hx%list_elem_of_singleton. destruct (F y Hy) as [_ N]. congruence.
    - apply Forall_app. rewrite Tx. split; [|constructor; [split; [done|apply lookup_delete_eq]|constructor]].
      apply Forall_forall. intros y Hy. destruct (F y Hy) as [Wy N]. split; [done|]. destruct (decide (tx_id y = tx_id tx)) as [->|];
        [apply lookup_delete_eq|by rewrite lookup_delete_ne]. }
  assert (Forall hidden (txs ++ [tx])) as Hi1 by (apply Forall_app; by repeat constructor).
  destruct v as [f0|[rv pmax]]; [by injection E as <- <- <-|].
  destruct (IH _ _ _ _ Ok1 R1 Hi1 E) as (Ok' & R' & Hi' & H). split_and!; try done. intros fee' size' Er.
  destruct (H fee' size' Er) as (new & -> & F & -> & ->). exists (tx :: new). rewrite <- app_assoc. split_and!; try done.
  constructor; [split_and!; [by exists m|done|by exists rv, pmax]|]. eapply Forall2_impl; [exact F|].
  intros h' x ((m' & Hm) & Nx & Cx). split_and!; try done. exists m'. rewrite Tx in Hm. by apply lookup_delete_Some in Hm as [_ Hm].
Qed.

(** *** Storing a block *)

Lemma images_of tx : wf_tx tx -> Database.images (Transaction.vin (b_prefix tx)) = images tx.
Proof.
  intros [T _ _]. unfold images, Database.images. induction T as [|i ins Ti T IH]; [done|]. destruct i; try discriminate Ti.
  cbn. by rewrite IH.
Qed.

Lemma wf_spends tx : wf_tx tx -> hidden tx -> spends (b_prefix tx).
Proof.
  intros [T _ _] H. right. split; [|done]. unfold spends_keys. eapply Forall_impl; [exact T|]. by intros [].
Qed.

(** A refused block leaves, outside of a batch, the database and the hard forks as
    they were; always, the blocks. *)
Definition untouched (e : environment) (bc bc' : blockchain) : Prop :=
  d_blocks (bc_db bc') = d_blocks (bc_db bc) /\ (e_batch e = false -> bc_db bc' = bc_db bc /\ bc_hf bc' = bc_hf bc).

(** How store_block ends. *)
Lemma store_block_inv e version bl d fee size txs bc r bc' :
  store_block debug nettype dev_view_key dev_spend_key e version bl d fee size txs bc = ret (r, bc') ->
  (exists f db hf bc1 p, r = Block_refused f /\ return_txs (view_of nettype e bc1 version) e txs (bc_pool bc) = ret p
     /\ bc1 = with_db bc db hf /\ bc' = with_pool bc1 p
     /\ (db = bc_db bc \/ exists c c' ex db1, write_block bl size c c' txs (bc_db bc) = Some (inl ex, db1) /\ db = aborted (e_batch e) (bc_db bc) db1)
     /\ hf = bc_hf bc)
  \/ exists base partial h db' hf' median limit, r = Block_added partial
     /\ validate_miner_transaction debug nettype dev_view_key dev_spend_key version (d_blocks (bc_db bc))
          (Transaction.prefix (Transaction.miner_tx bl)) size fee = ret (Some (base, partial))
     /\ write_block bl size (u64 (d + default 0 (bi_diff <$> last (d_blocks (bc_db bc)))))
          (coins_after (generated_coins (d_blocks (bc_db bc))) base) txs (bc_db bc) = Some (inr h, db')
     /\ update_next_cumulative_size_limit (d_blocks db') = Some (median, limit) /\ bc' = with_limit (with_db bc db' hf') median limit.
Proof.
  intros E. unfold store_block in E. cbv zeta in E. rinv E v E1. destruct v as [[base partial]|].
  2:{ left. rinv E b E2. injection E as <- <-. apply return_tx_keeps in E2 as (p & Ep & ->). exists true, (bc_db bc), (bc_hf bc), bc, p.
      split_and!; try done; [by destruct bc|by left]. }
  destruct (add_block _ _ _ _ _ _ _ _) as [[[[ex|h] db'] hf']|] eqn:A; [| |discriminate]; unfold add_block in A;
    (destruct (write_block _ _ _ _ _ _) as [[[ex1|h1] db1]|] eqn:W; [| |discriminate]).
  - left. rinv E b E2. injection E as <- <-. apply return_tx_keeps in E2 as (p & Ep & ->). injection A as <- <- <-.
    eexists _, (aborted (e_batch e) (bc_db bc) db1), (bc_hf bc), _, p. split_and!; [done|exact Ep|done|done| |done].
    right. by eexists _, _, _, db1.
  - apply bind_Some in A as (x & _ & [=]).
  - discriminate.
  - right. apply bind_Some in A as (x & _ & [= <- -> <-]). apply rbind_inv in E as ([med lim] & E2 & E). injection E as <- <-. unfold lift in E2.
    destruct (update_next_cumulative_size_limit (d_blocks db')) as [[m l]|] eqn:U; [|discriminate]. injection E2 as -> ->.
    by exists base, partial, h1, db', (snd x), med, lim.
Qed.

(** The block that store_block adds. *)
Definition stored_block (bl : Transaction.block) (d size base_reward : Z) (blocks : list db_block) : db_block :=
  Dbblock bl size (u64 (d + default 0 (bi_diff <$> last blocks))) (coins_after (generated_coins blocks) base_reward) (get_block_hash bl).

(** The database after store_block. *)
Lemma store_block_db e version bl d fee size txs bc r bc' :
  db_ok (bc_db bc) -> store_block debug nettype dev_view_key dev_spend_key e version bl d fee size txs bc = ret (r, bc') ->
  db_ok (bc_db bc') /\ bc_points bc' = bc_points bc
  /\ match r with
     | Block_added partial => exists base_reward,
         validate_miner_transaction debug nettype dev_view_key dev_spend_key version (d_blocks (bc_db bc))
           (Transaction.prefix (Transaction.miner_tx bl)) size fee = ret (Some (base_reward, partial))
         /\ d_blocks (bc_db bc') = d_blocks (bc_db bc) ++ [stored_block bl d size base_reward (d_blocks (bc_db bc))]
         /\ update_next_cumulative_size_limit (d_blocks (bc_db bc')) = Some (bc_median bc', bc_limit bc')
     | Block_refused _ => untouched e bc bc'
     end.
Proof.
  intros K E. apply store_block_inv in E as [(f & db & hf & bc1 & p & -> & _ & -> & -> & D & ->)|
    (base & partial & h & db' & hf' & med & lim & -> & V & W & U & ->)]; cbn [with_limit with_pool with_db bc_db bc_hf bc_points bc_median bc_limit].
  - assert (db_ok db /\ d_blocks db = d_blocks (bc_db bc) /\ (e_batch e = false -> db = bc_db bc)) as (K' & B & N).
    { destruct D as [->|(c & c' & ex & db1 & W & ->)]; [done|]. unfold aborted. destruct (e_batch e); [|done].
      split_and!; [by eapply write_block_keeps|by eapply write_block_blocks|done]. }
    split_and!; try done. split; [done|]. intros F. by rewrite (N F).
  - split; [by eapply write_block_keeps|]. split; [done|]. apply written_top in W as (_ & B & _). exists base. by split_and!.
Qed.

(** The pool and the spent images after store_block. *)
Lemma store_block_pool e version bl d fee size txs bc r bc' :
  pool_ok (bc_pool bc) -> returnable txs (bc_pool bc) -> Forall hidden txs ->
  (exists x, Transaction.vin (Transaction.prefix (Transaction.miner_tx bl)) = [Transaction.txin_gen x]) ->
  store_block debug nettype dev_view_key dev_spend_key e version bl d fee size txs bc = ret (r, bc') ->
  pool_ok (bc_pool bc')
  /\ forall partial, r = Block_added partial -> d_spent (bc_db bc') = d_spent (bc_db bc) ++ concat (map images txs).
Proof.
  intros Ok R Hi G E. apply store_block_inv in E as [(f & db & hf & bc1 & p & -> & Ep & _ & -> & _)|
    (base & partial & h & db' & hf' & med & lim & -> & V & W & U & ->)]; [split; [by eapply return_txs_ok|done]|]. split; [done|]. intros _ _.
  destruct R as [_ F]. rewrite Forall_forall in F. assert (Forall (fun tx => spends (b_prefix tx)) txs) as Sp.
  { rewrite Forall_forall in Hi |- *. intros tx Hx. apply wf_spends; [by apply F|by apply Hi]. }
  destruct (write_block_spent _ _ _ _ _ _ _ _ G Sp W) as [_ S]. cbn [with_limit with_db bc_db]. rewrite S. do 2 f_equal.
  apply map_ext_in. intros tx Hx%list_elem_of_In. by apply images_of, F.
Qed.

(** *** Adding a block *)

Lemma prevalidate_gen tx t h : prevalidate_miner_transaction tx t h = true -> exists x, Transaction.vin tx = [Transaction.txin_gen x].
Proof. unfold prevalidate_miner_transaction. destruct (Transaction.vin tx) as [|[x| | |] [|]]; try done. by exists x. Qed.

(** The same chain, up to the pool, the invalid blocks and the cache. *)
Definition same_chain (bc bc' : blockchain) : Prop :=
  bc_db bc' = bc_db bc /\ bc_hf bc' = bc_hf bc /\ bc_points bc' = bc_points bc.

Lemma same_untouched e bc bc' : same_chain bc bc' -> untouched e bc bc'.
Proof. intros (E1 & E2 & _). split; [by rewrite E1|]. done. Qed.

(** How the second half of handle_block_to_main_chain ends. *)
Lemma handle_block_txs_inv e version bl d bc r bc' :
  bc_points bc = points ->
  handle_block_txs debug nettype dev_view_key dev_spend_key e version bl (get_block_hash bl) d bc = ret (r, bc') ->
  (exists f, r = Block_refused f /\ same_chain bc bc'
     /\ (bc_pool bc' = bc_pool bc \/ exists t txs p v, take_txs (chain_of nettype e bc version) (bc_db bc) (Transaction.tx_hashes bl) 0 (miner_tx_size bl) []
            (bc_pool bc) = ret (t, txs, p) /\ return_txs v e txs p = ret (bc_pool bc')))
  \/ exists fee size txs p,
     prevalidate_miner_transaction (Transaction.prefix (Transaction.miner_tx bl))
       (Transaction.type (Transaction.rct_signatures (Transaction.miner_tx bl))) (height (bc_db bc)) = true
     /\ (forall h, points !! height (bc_db bc) = Some h -> get_block_hash bl = h)
     /\ take_txs (chain_of nettype e bc version) (bc_db bc) (Transaction.tx_hashes bl) 0 (miner_tx_size bl) [] (bc_pool bc) = ret (Taken fee size, txs, p)
     /\ store_block debug nettype dev_view_key dev_spend_key e version bl d fee size txs (with_pool bc p) = ret (r, bc').
Proof.
  intros P E. unfold handle_block_txs in E. cbv zeta in E.
  destruct (is_in_checkpoint_zone _ _ && negb _) eqn:Z; [injection E as <- <-; left; eexists; by split_and!; [| |left]|].
  destruct (prevalidate_miner_transaction _ _ _) eqn:Pv; cbn [negb] in E; [|injection E as <- <-; left; eexists; by split_and!; [| |left]].
  apply rbind_inv in E as ([[t txs] p] & E1 & E). destruct t as [fee size| |].
  - right. exists fee, size, txs, p. split_and!; try done. intros h Hh. rewrite P in *. rewrite (checkpoint_zone _ _ Hh) in Z.
    cbn [andb] in Z. apply negb_false_iff in Z. unfold check_checkpoint in Z. rewrite Hh in Z. cbn [fst] in Z. by apply bool_decide_eq_true in Z.
  - left. rinv E b E2. injection E as <- <-. apply return_tx_keeps in E2 as (q & Eq & ->). eexists. split_and!; try done. right. by eexists _, _, _, _.
  - left. rinv E b E2. injection E as <- <-. apply return_tx_keeps in E2 as (q & Eq & ->). eexists. split; [done|]. revert Eq.
    unfold add_block_as_invalid. destruct (bc_invalid (with_pool bc p) !! _); intros Eq; (split; [done|]); right; by eexists _, _, _, _.
Qed.

(** What is checked before that. *)
Record header_ok (e : environment) (version d : Z) (bl : Transaction.block) (bc : blockchain) : Prop := {
  header_parent : Transaction.prev_id (Transaction.header bl) = top_block_hash (bc_db bc);
  header_version : HardFork.get_current_version_num (bc_hf bc) = Some version /\ HardFork.check (bc_hf bc) (fork_block bl) = Some true;
  header_time : check_block_timestamp nettype version (e_time e) (d_blocks (bc_db bc)) bl = Some true;
  header_work : difficulty_of nettype version (d_blocks (bc_db bc)) = Some d /\ d <> 0
    /\ Difficulty.check_hash (get_block_longhash bl) d = true
}.

(** How the first half of handle_block_to_main_chain ends. *)
Lemma handle_block_inv e bl bc r bc' :
  table_ok e ->
  handle_block_to_main_chain debug nettype dev_view_key dev_spend_key get_block_longhash e bl bc = ret (r, bc') ->
  (exists f, r = Block_refused f /\ same_chain bc bc' /\ bc_pool bc' = bc_pool bc)
  \/ exists version d c, header_ok e version d bl bc
     /\ handle_block_txs debug nettype dev_view_key dev_spend_key e version bl (get_block_hash bl) d (with_cache bc c) = ret (r, bc').
Proof.
  intros Tb E. unfold handle_block_to_main_chain in E. cbv zeta in E.
  case_bool_decide as Pr; cbn [negb] in E; [|injection E as <- <-; left; by eexists].
  rinv E vok E1. destruct (HardFork.check _ _) as [vok'|] eqn:V; [|discriminate]. injection E1 as ->.
  destruct vok; cbn [negb] in E; [|injection E as <- <-; left; by eexists].
  rinv E version E2. destruct (HardFork.get_current_version_num _) as [ver|] eqn:Vn; [|discriminate]. injection E2 as ->.
  rinv E tok E3. destruct (check_block_timestamp _ _ _ _ _) as [tok'|] eqn:Ti; [|discriminate]. injection E3 as ->.
  destruct tok; cbn [negb] in E; [|injection E as <- <-; left; by eexists].
  apply rbind_inv in E as ([d c] & E4 & E). pose proof (difficulty_uncached nettype version (d_blocks (bc_db bc)) (bc_cache bc)) as D.
  destruct (get_difficulty_for_next_block _ _ _ _) as [[d' c']|]; [|discriminate]. injection E4 as -> ->. cbn [fst fmap option_fmap option_map] in D.
  destruct (d =? 0) eqn:Dz; [injection E as <- <-; left; by eexists|].
  destruct (Difficulty.check_hash _ _) eqn:W; cbn [negb] in E; [|injection E as <- <-; left; by eexists].
  right. exists version, d, c. split; [|done]. split; [done|done|done|]. split; [done|]. split; [lia|].
  destruct (e_longhash e (get_block_hash bl)) as [h|] eqn:L; cbn in W; [|done]. by rewrite <- (Tb bl h L).
Qed.

(** *** What the chain keeps *)

Lemma header_valid_time e version d bl bc :
  header_ok e version d bl bc ->
  Transaction.timestamp (Transaction.header bl) <= u64 (e_time e + future_limit nettype version)
  /\ ((length (d_blocks (bc_db bc)) < check_window nettype version)%nat
      \/ check_timestamps nettype (map timestamp (drop (length (d_blocks (bc_db bc)) - check_window nettype version) (d_blocks (bc_db bc)))) bl = Some true).
Proof.
  intros [_ _ T _]. unfold check_block_timestamp in T. destruct (_ <? _) eqn:L in T; [done|]. apply Z.ltb_ge in L. split; [done|].
  cbv zeta in T. destruct (Nat.ltb_spec (length (d_blocks (bc_db bc))) (check_window nettype version)); [by left|by right].
Qed.

Lemma handle_block_db e bl bc r bc' :
  db_ok (bc_db bc) -> bc_points bc = points -> table_ok e ->
  handle_block_to_main_chain debug nettype dev_view_key dev_spend_key get_block_longhash e bl bc = ret (r, bc') ->
  db_ok (bc_db bc') /\ bc_points bc' = bc_points bc
  /\ match r with
     | Block_added _ => exists version b, b_block b = bl /\ d_blocks (bc_db bc') = d_blocks (bc_db bc) ++ [b] /\ valid_at version (d_blocks (bc_db bc)) b
     | Block_refused _ => untouched e bc bc'
     end.
Proof.
  intros K P Tb E. apply handle_block_inv in E as [(f & -> & S & _)|(version & d & c & H & E)]; [|  |done].
  { destruct S as (S1 & S2 & S3). rewrite S1, S3. split_and!; try done. by apply same_untouched. }
  apply handle_block_txs_inv in E as [(f & -> & S & _)|(fee & size & txs & p & Pv & Cp & _ & E)]; [| |done].
  { destruct S as (S1 & S2 & S3). cbn [with_cache bc_db bc_points bc_hf] in *. rewrite S1, S3. split_and!; try done. split; [by rewrite S1|by rewrite S1]. }
  apply store_block_db in E as (K' & P' & C); [|done]. cbn [with_cache with_pool bc_db bc_points] in *. split_and!; try done.
  destruct r as [partial|f]; [|exact C]. destruct C as (base & V & B & U). eexists version, _. split; [|split; [exact B|]]; [done|].
  destruct (header_valid_time _ _ _ _ _ H) as [_ T]. destruct H as [_ _ _ W]. split; cbn [stored_block b_block bi_diff bi_hash bi_coins bi_size].
  - exists d. by destruct W as (W1 & W2 & W3).
  - exact T.
  - exact Pv.
  - exists fee, base, partial. done.
  - intros h Hh. by apply Cp.
Qed.










(** C2. What the main chain accepts, and what it does with it.  An accepted block
    names the last block as its parent, has the version of the current fork, a
    timestamp within the limits, and enough proof of work for the difficulty of the
    next block; its transactions are transactions of the pool that are in no block
    before, and the ring signatures of their inputs are verified over the chain;
    no key image is spent in the chain or twice in the block; the miner claims at
    most the reward of the block, for its size and height, with the fees; the block
    is stored with its size, the cumulative difficulty and the coins; and the limit
    of the sizes is the one of the chain with the block.  A refused block changes
    neither the blocks nor, outside of a batch, anything of the database and the
    hard forks.  The pool stays consistent in both cases. *)
Theorem block_accepted e bl bc r bc' :
  db_ok (bc_db bc) -> pool_ok (bc_pool bc) -> bc_points bc = points -> table_ok e ->
  handle_block_to_main_chain debug nettype dev_view_key dev_spend_key get_block_longhash e bl bc = ret (r, bc') ->
  db_ok (bc_db bc') /\ pool_ok (bc_pool bc')
  /\ match r with
     | Block_refused _ => untouched e bc bc'
     | Block_added partial => exists version d txs base_reward,
         let blocks := d_blocks (bc_db bc) in
         let size := add_sizes (miner_tx_size bl) txs in
         header_ok e version d bl bc
         /\ Forall2 (includable (chain_of nettype e bc version) (bc_db bc) (bc_pool bc)) (Transaction.tx_hashes bl) txs
         /\ d_spent (bc_db bc') = d_spent (bc_db bc) ++ concat (map images txs)
         /\ validate_miner_transaction debug nettype dev_view_key dev_spend_key version blocks
              (Transaction.prefix (Transaction.miner_tx bl)) size (add_fees 0 txs) = ret (Some (base_reward, partial))
         /\ d_blocks (bc_db bc') = blocks ++ [stored_block bl d size base_reward blocks]
         /\ update_next_cumulative_size_limit (d_blocks (bc_db bc')) = Some (bc_median bc', bc_limit bc')
     end.
Proof.
  intros K Ok P Tb E. pose proof (handle_block_db e bl bc r bc' K P Tb E) as (K' & _ & D). split; [exact K'|]. clear K' D.
  apply handle_block_inv in E as [(f & -> & S & Ep)|(version & d & c & H & E)]; [| |done].
  { rewrite Ep. split; [done|]. by apply same_untouched. }
  apply handle_block_txs_inv in E as [(f & -> & S & Q)|(fee & size & txs & p & Pv & _ & T & E)]; [| |done].
  { split; [|by apply same_untouched]. destruct Q as [->|(t & txs & p & v & T & Rt)]; [done|].
    destruct (take_txs_ok _ _ _ _ _ _ _ _ _ _ Ok (returnable_nil _) (Forall_nil_2 _) T) as (Ok1 & R & _). by eapply return_txs_ok. }
  destruct (take_txs_ok _ _ _ _ _ _ _ _ _ _ Ok (returnable_nil _) (Forall_nil_2 _) T) as (Ok1 & R & Hi & Tk).
  destruct (Tk fee size eq_refl) as (new & -> & F & -> & ->). cbn [app] in *.
  pose proof (store_block_pool e version bl d _ _ new (with_pool (with_cache bc c) p) r bc' Ok1 R Hi (prevalidate_gen _ _ _ Pv) E) as [Ok' Sp].
  apply store_block_db in E as (_ & _ & C); [|done]. split; [done|]. destruct r as [partial|f]; [|exact C].
  destruct C as (base & V & B & U). exists version, d, new, base. split_and!; try done. by apply (Sp partial).
Qed.

End valid.

(** ** Example *)

Definition example_longhash (bl : Transaction.block) : bytes := replicate 32 1.

Definition example_env : environment := Env 1000 1000 (fun _ => None) (fun _ _ => None) false.

Definition example_start : blockchain :=
  Bc empty_db HardFork.example_state (empty_pool DEFAULT_TXPOOL_MAX_SIZE) 0 0 ∅ ∅ (Cache 0 [] []).

Definition example_block (version h time : Z) (prev : bytes) : Transaction.block :=
  {| Transaction.header := {| Transaction.major_version := version; Transaction.minor_version := version; Transaction.timestamp := time;
                              Transaction.prev_id := prev; Transaction.nonce := 0 |};
     Transaction.miner_tx := gen_tx h; Transaction.tx_hashes := [] |}.

Definition example_step (bl : Transaction.block) (bc : blockchain) : result (block_outcome * blockchain) :=
  handle_block_to_main_chain (HF := example_hash) false MAINNET [] [] example_longhash example_env bl bc.

Definition example_after (bl : Transaction.block) (bc : blockchain) : blockchain :=
  match example_step bl bc with Some (inr (_, bc)) => bc | _ => bc end.

Definition example_first : Transaction.block := example_block 1 0 0 TxHash.null_hash.
Definition example_second : Transaction.block := example_block 1 1 1 (get_block_hash (HF := example_hash) example_first).
Definition example_chain : blockchain := example_after example_second (example_after example_first example_start).

Lemma example_table : table_ok (HF := example_hash) example_longhash example_env.
Proof. intros bl h. discriminate. Qed.


Lemma block_accepted_witness : exists bc',
  example_step example_second (example_after example_first example_start) = ret (Block_added true, bc')
  /\ pool_ok (HF := example_hash) (bc_pool bc')
  /\ exists version d, header_ok MAINNET example_longhash example_env version d example_second (example_after example_first example_start).
Proof.
  assert (example_step example_second (example_after example_first example_start) = ret (Block_added true, example_chain)) as E
    by (vm_compute; reflexivity).
  exists example_chain. split; [exact E|]. assert (example_step example_first example_start = ret (Block_added true, example_after example_first example_start)) as E0
    by (vm_compute; reflexivity).
  destruct (block_accepted (HF := example_hash) false MAINNET [] [] example_longhash ∅ example_env example_first example_start
    _ _ empty_db_ok (empty_pool_ok _) eq_refl example_table E0) as (K & Ok & _).
  destruct (block_accepted (HF := example_hash) false MAINNET [] [] example_longhash ∅ example_env example_second (example_after example_first example_start)
    _ _ K Ok eq_refl example_table E) as (_ & Ok' & version & d & txs & base & H & _).
  split; [exact Ok'|]. by exists version, d.
Defined.

(** A block thirteen minutes before the greatest timestamp of the window is
    refused, although it is after the top block. *)
Lemma check_timestamps_spec_witness :
  check_timestamps MAINNET [0; 1000; 100] (example_block 9 3 200 []) = Some false.
Proof.
  destruct (check_timestamps_spec MAINNET [0; 1000; 100] (example_block 9 3 200 [])) as (m & _ & r & E & H); [discriminate|].
  rewrite E. f_equal. destruct r; [|reflexivity]. exfalso. destruct (proj1 H eq_refl) as [_ F].
  assert (get_fork_v MAINNET FORK_CHECK_BLOCK_BACKDATE <= 9) as V by by_eval.
  specialize (F V). rewrite Forall_forall in F. assert (1000 ∈ [0; 1000; 100]) as I by by_eval. specialize (F 1000 I). by vm_compute in F.
Defined.

End Blockchain.
